(* ===== verification/_CoqProject ===== *)
-Q . S2P
Prelude.v
Naming.v
GatewayNaming.v
CancelToken.v
JobTypes.v
JobStorage.v
JobPersistence.v
JobManager.v
JobLifecycle.v
JobMirror.v
JobRegistry.v
ChunkedJob.v
TunnelCodec.v
TunnelRelay.v
TunnelAgent.v
Text.v
Versioned.v
RateLimit.v
Resolver.v
ResolverSort.v
ResolverExpand.v
Json.v
SandboxPolicy.v
SandboxRun.v
HostQueue.v
HostTick.v
HostProps.v
WorkflowSpec.v
WorkflowSpecProps.v
WorkflowContext.v
WorkflowStores.v
Artefact.v
ArtefactFs.v
WorkflowRun.v
WorkflowRunProps.v
WorkflowCalls.v
Scheduler.v
SchedulerProps.v
Shm.v
ShmProps.v
ShmTransfer.v
ShmTransferProps.v
Capability.v
CapPolicy.v
CapIndex.v
CapBuilder.v
SearchPolicy.v
SearchRank.v
SearchEngine.v
SearchEngineProps.v
SearchCapability.v
SearchCache.v
SearchCacheProps.v
ActionRegistry.v
ActionValidator.v
EventBus.v
ActionDispatch.v
ActionDispatchProps.v
ActionChain.v
TransportAddress.v
ServiceEntry.v
EntryFormat.v
EntryProps.v
FileRegistry.v
FileRegistryProps.v
RegistryCalls.v
RegistryLife.v
RegistryFaults.v
RegistryWitness.v
UpdateFs.v
UpdateSet.v
UpdateEntries.v
UpdatePhases.v
UpdateLaunch.v
UpdateProps.v
UpdateStage.v
UpdateWitness.v
GatewayElection.v
UpdateCheck.v
Wire.v
