(* ===== verification/Prelude.v ===== *)
(** * dcc-mcp-core: a verification library (root file)

    dcc-mcp-core is a workspace of Rust crates that lets MCP clients drive digital
    content creation applications.  This library models the parts of it that are
    pure state and logic, file by file, and proves the properties a maintainer
    relies on.  Paths below are relative to [src/crates/].

    ** Parts, and where they are modelled

    - Names.  [Naming.v]: the two validators of [dcc-mcp-naming/src/lib.rs] and
      their published regular expressions, with a matcher for these.
      [GatewayNaming.v]: [dcc-mcp-gateway-core/src/naming/] and
      [resource_uri.rs], the encodings by which the gateway publishes the tools
      and resources of many instances.  It calls [Naming].
    - Jobs, [dcc-mcp-job].  [CancelToken.v]: the interface to cancellation tokens
      (tokio_util's, so a class with its documented laws) and a concrete store.
      [JobTypes.v]: [job/types.rs].  [JobStorage.v]: [job_storage/mod.rs], the
      backend trait as a class with the laws of a write-through backend, and the
      in-memory backend.  [JobPersistence.v]: [job/persistence.rs], the circuit
      breaker and the worker with its bounded queue.  [JobManager.v]:
      [job/manager.rs], every method as a function on the manager's state; [exec]
      is one call, [run] a history of calls.  [ChunkedJob.v]: [job/chunked.rs].
      The manager uses the token and storage interfaces and the writer; the
      chunked runner calls the manager.
    - Tunnel.  [TunnelCodec.v]: [dcc-mcp-tunnel-protocol] (frames, codec, stream
      I/O).  [TunnelRelay.v]: the control plane of [dcc-mcp-tunnel-relay] (routing
      handles, registry, eviction, admission, read loop).  [TunnelAgent.v]:
      [dcc-mcp-tunnel-agent] (back-off, reconnect loop, handshake, the frames a
      session writes).  The agent's frames are fed to the relay's read loop.
    - Actions, [dcc-mcp-actions].  [Versioned.v]: [versioned/] (versions,
      constraints, registry, router).  [RateLimit.v]: [pipeline/rate_limit.rs].
      [ActionRegistry.v]: [registry/]; [ActionValidator.v]: [validator/];
      [EventBus.v]: [events.rs]; [ActionDispatch.v]: [dispatcher.rs], [pipeline/] and
      its audit middleware, which call these three; [ActionChain.v]: [chain*.rs], whose
      steps are dispatched.  Each has its theorems; those of the dispatcher are in
      [ActionDispatchProps.v].
    - Skills, [dcc-mcp-skills/src/resolver.rs].  [Resolver.v]: its functions, and
      the relation between skills that they compute with; [ResolverSort.v] and
      [ResolverExpand.v]: their theorems.
    - Sandbox, [dcc-mcp-sandbox].  [SandboxPolicy.v]: [policy.rs], with the file
      system as a class and a concrete tree with links.  [SandboxRun.v]:
      [validator.rs], [audit.rs] and [context.rs], whose [execute] is a whole call.
    - Host dispatcher, [dcc-mcp-host/src/lib.rs].  [HostQueue.v]: its state, one
      atomic step of each method, [exec], a schedule of the steps of several threads, and
      the wait-time ring with its percentiles; [HostProps.v], [HostTick.v]: theorems.
    - Workflows, [dcc-mcp-workflow].  [WorkflowSpec.v]: [policy.rs], [spec.rs];
      [WorkflowContext.v]: [context.rs] and what references render to; [WorkflowStores.v]:
      [idempotency.rs] and [approval.rs]; [WorkflowRun.v]: [executor/], a program per
      driver and [exec], a schedule of the actions of all its tasks.  [WorkflowSpecProps.v],
      [WorkflowRunProps.v] (which begins with a theory of programs) and [WorkflowCalls.v]
      hold their theorems.
    - Scheduler, [dcc-mcp-scheduler].  [Scheduler.v]: [template.rs], schedules,
      signatures, the concurrency gate, webhook requests and cron turns as threads of a
      schedule [exec], and who owns the tasks; [SchedulerProps.v]: theorems.
    - Shared memory, [dcc-mcp-shm].  [Shm.v]: [buffer.rs] over the class [Ipc] of
      named segments, whose instance [Regions] is in [ShmProps.v]; [ShmTransfer.v]:
      [pool.rs], [chunked.rs], [compress.rs] and [scene.rs], which call [Shm];
      [ShmProps.v], [ShmTransferProps.v]: theorems.
    - Capabilities, [dcc-mcp-gateway-core/src/capability/] and [policy.rs].
      [Capability.v]: [record.rs], slugs and records; [CapPolicy.v]: the policy;
      [CapIndex.v]: [index.rs], the state, its fingerprints and their theorems;
      [CapBuilder.v]: [builder.rs] and [refresh.rs], from a backend's tools to the index.
    - Search, [dcc-mcp-gateway-search].  [SearchPolicy.v]: [policy.rs] and
      [fallback.rs]; [SearchRank.v]: the scorers of [ranking.rs], over classes for the
      records and for the fuzzy matcher; [SearchEngine.v]: the pipeline of [engine.rs];
      [SearchCapability.v]: capability records as search records.  [SearchCache.v]:
      the gateway's cache [capability/search_cache.rs], the revision of its shared
      index and the search of its handlers, as tasks that interleave ([cstep]).
      [SearchEngineProps.v], [SearchCacheProps.v]: theorems.
    - Service registry, [dcc-mcp-transport/src/].  [TransportAddress.v]: [ipc/mod.rs];
      [ServiceEntry.v]: the row of [discovery/types.rs], its leases, patches and roles,
      with the status policy of [dcc-mcp-models]; [EntryFormat.v]: its text, read and
      written, over classes for the text of JSON and of identifiers; [FileRegistry.v]:
      [file_registry.rs] and the read-only reader, calls on a handle and the directory
      that the handles of all processes share, where [Env] is what a call meets.
      [EntryProps.v], [FileRegistryProps.v], [RegistryCalls.v] (histories of calls of
      several processes), [RegistryLife.v] (sentinels, evictions and crashes),
      [RegistryFaults.v]: theorems; [RegistryWitness.v]: concrete instances.
    - Updater, [dcc-mcp-updater/src/].  [UpdateFs.v]: the disk, where any operation can fail
      or be the last one of the process, the monad of code on it and its logic [safe];
      [UpdateSet.v]: [update_set.rs] and [committed_cleanup.rs], every call that stages,
      applies, rolls back, cleans up or clears a set.  [UpdateEntries.v] (one target),
      [UpdatePhases.v] (the entries of a journal, and what is on the disk between
      launches), [UpdateLaunch.v] (the transaction and its commit) and [UpdateStage.v]
      (a staging) lead to the theorems of [UpdateProps.v] and [UpdateWitness.v], which also
      has a concrete disk.
      [UpdateCheck.v]: [lib.rs], which asks the gateway for an update and downloads it,
      and the endpoints [gateway/handlers/update_impl.rs] and [gateway/update_manifest.rs]
      of [dcc-mcp-gateway] that answer; it uses the version order of [UpdateSet].
    - Artefacts, [dcc-mcp-artefact/src/lib.rs].  [Artefact.v]: references, the trait as a class
      [ArtefactStore] with its laws [ArtefactStoreLaws] over a view of the state ([StoreView]), the in-memory backend, and the upload of
      a workflow step's files ([dcc-mcp-workflow/src/executor/output.rs]), which uses any
      store with the laws; [ArtefactFs.v]: the backend on a directory, and concrete stores.
      Both backends are instances of the class and of its laws.
    - Wire, [dcc-mcp-wire/src/].  [Wire.v]: [normalize.rs], [validate.rs], [wire.rs], [error.rs].
    - Gateway election, [dcc-mcp-gateway/src/gateway/].  [GatewayElection.v]: [version.rs] and
      [sentinel.rs], over the rows of the service registry.
    - Shared.  [Text.v]: decimal numerals, string searching and stable sorting; [Json.v]: binary64
      arithmetic and the values of [serde_json].

    ** How the state corresponds to the code

    A struct is a Record with the fields the code reads or writes; a map keyed by
    strings or integers ([DashMap], [HashMap]) is a [gmap]; a method is a function
    from the state before to the state after and the returned value.  Shared
    references are kept shared: jobs of one family share a store of tokens, and
    registry entries of the relay name handles held apart.  A mutex is the
    sequencing of calls; where the code releases one between a test and the
    update, or between an update and its publication, the two are separate
    functions ([accept_check], [accept_insert]; [mutate], [publish]).
    Concurrent code ([HostQueue], [WorkflowRun]) is cut into the actions between
    which another thread or task can run; a schedule says whose turn it is.
    A launch of the updater is a program on the disk together with the fates of its
    operations ([Fate]: it goes, it fails, or the process dies at it, before, within or after).
    Clocks, fresh identifiers and the ends of waits (a deadline passed, a watch
    changed) are inputs.  Log output is left out.

    ** What the theorems show

    - [JobLifecycle], [JobRegistry]: the manager refines a small step relation on
      entries and tokens ([jstep], [exec_jstep]); over any history, the status
      machine, frozen terminal entries, monotone progress, well-formed entries;
      when each call succeeds, recovery from storage included, and what a rejected one
      leaves (all as it was, but for the writer after a retention pass that was not confirmed);
      cancellation of a child through its parent; notification of subscribers;
      exact retention.
    - [JobMirror]: the persisted rows mirror the registry, and recovery after a
      restart re-establishes it with the in-flight jobs interrupted; both hold of
      calls that do not overlap, and [persist_race] shows what overlapping ones do.
    - [JobPersistence]: the breaker latches exactly after three identical
      failures; enqueueing agrees with waiting; the queue is bounded.
    - [ChunkedJob]: termination and the outcome of a driven job.
    - [TunnelCodec], [TunnelRelay], [TunnelAgent]: codec round trips, independence
      of chunking, hostile prefixes, admission, ordered delivery, exact eviction,
      session identifiers, back-off, persistence of the reconnect loop, and the
      missing heartbeat.
    - [Versioned], [RateLimit], [Naming], [GatewayNaming]: order and round trips of
      versions, the router's choice, the limiter's bound, validators against their
      regular expressions, injectivity and range of the encodings.
    - [ResolverSort], [ResolverExpand]: the sort succeeds exactly on complete
      acyclic sets and orders them; a reported cycle is one; the expansion of a
      skill is its reachable names.

    - [SandboxPolicy], [SandboxRun]: exactly which paths pass, and the escape that
      does too; a schema accepts exactly its type; what a call does on every branch;
      what a session counts and logs, and what the limits leave out.
    - [HostProps], [HostTick], [HostQueue]: no job is lost or run twice under any
      schedule, the exact effect of an undisturbed tick, the races that remain, and
      the percentiles.
    - [WorkflowSpecProps], [WorkflowContext], [WorkflowStores]: what validation
      accepts, the delays of a retry block, what a reference renders to, the cache.
    - [WorkflowRunProps], [WorkflowCalls]: a run takes finitely many actions under
      every schedule (a program is a finite tree); cancellation stops calls and
      waits; a tool is called at most [max_attempts]
      times per entry of its step; a completed run completed its steps; a resumed
      one skips what is stored.

    - [SchedulerProps], [Scheduler]: admitted runs never exceed the limit under
      any interleaving, what a request is answered, which occurrences a cron task
      serves, what a template means, and that dropping the handle stops nothing.
    - [ShmProps], [ShmTransferProps]: a write is what every handle reads,
      exact collection of orphans, transfers and scenes read back, and pools whose
      guards never share a buffer.

    - [Capability], [CapPolicy], [CapIndex], [CapBuilder]: slugs read back,
      which records a policy lets through, the index as the map its calls describe, what
      the fingerprint sees, and what a refresh stores.
    - [SearchEngineProps], [SearchCapability], [SearchPolicy]: scores and
      their reasons, what filters and clauses mean, which records answer a query, the order
      and the pages of a ranking, exact names first, when advice
      is given, and that what a refresh stored can be found by name.
    - [ActionRegistry], [ActionValidator], [ActionDispatchProps],
      [ActionChain]: the registry as a map of scoped names, which inputs a schema
      accepts and with which messages, what a dispatch calls, publishes and logs and in
      which order, placeholders replaced exactly, and what a chain reports.
    - [EntryProps], [FileRegistryProps], [RegistryCalls]: rows read back, and histories of
      calls of any processes are histories on one map.
    - [RegistryLife], [RegistryFaults]: who evicts which rows, exactly which calls take the
      row of a live owner and which end a lease, and what faults, writers without the lock and files of newer
      versions leave.
    - [SearchCacheProps]: which queries share a key, and that cached answers are as fresh
      as the index was when the search began and show nothing the policy hides.

    - [UpdateProps], [UpdateWitness]: whatever fails and wherever
      launches die, the targets are all old, all new, or recoverable from the journal;
      a launch without faults completes the update; a staged set is replaced as a whole
      and, where the set can replace the installation, is an update that launches carry
      out; and the two crashes that are not recovered, by any call.
    - [Artefact], [ArtefactFs]: what is put in a store without limits can be read back until
      it expires, is deleted or a [head] drops it, what the limits evict, that uploaded files are readable, and the call that
      loses a live body.  [Wire]: a batch decodes as its calls do one by one.
    - [UpdateCheck], [GatewayElection]: what a client learns from a gateway at the address
      it formats, whatever the transport ([Transport]) makes of that address, which
      downloads are accepted, and that preference between gateways is a strict order.

    ** Bounds and fuel

    Recursion is structural except in these places.  [TunnelCodec.pop_loop] runs
    with one more than the buffer's length: each frame takes at least four bytes.
    [Text.print_loop] has fuel 20, the digits of a 64-bit number.
    [ChunkedJob.drive] and [TunnelAgent.reconnect_run] take the list of ticks or
    iterations to perform; [drive_terminates] shows how many ticks suffice.
    [Resolver.kahn] has one step per skill, since no index is queued twice; the
    depth-first searches [dfs_find_cycle], [backtrack] and [expand_dfs] at most one
    more than there are skills, since their paths do not repeat.  That they never run out
    is part of [resolve_exact] and [expand_exact].
    The scanners [WorkflowSpec.extract_loop], [WorkflowContext.embed_loop],
    [tokenize_loop] and [Text.count_loop] have one more than the length of the text,
    and each turn takes a character or more.  [SandboxPolicy.walk_up] recurses on the
    path.  [Scheduler.interpolate_loop] has one more than the length of the text,
    [ShmTransfer.chunks] its length: each turn takes a byte or more.
    [ActionChain.replace_loop] has one more than the length of the text, and
    [EventBus.print_hex] 16 digits, those of a 64-bit number.  A workflow program is a finite tree, so that drivers need no fuel: the
    retry loop recurses on the attempts left, a loop on its items.
    Machine integers are [Z] with the saturation or wrap of the code written out.

    ** Not modelled

    Sockets, HTTP, SQL, the Python bindings and serialization: serde, msgpack, JWT
    and UUID generation are parameters.  The SQLite backend is only its class; of
    workflows, the SQLite rows are left out, of the
    sandbox the broadcast of audit entries.  Of the search, the [f32] scorers that
    nothing calls and telemetry are left out, of actions the timing middleware, the
    thread-local contexts, and handlers or callbacks that panic or call back; and [nucleo-matcher] and [lru] are classes.
    Of the updater, the companion packages, the attestation of manifests and the
    installation lock file are left out.  What remains of the workspace - the gateway's
    handlers, the HTTP server, process supervision, the loading of skills, the
    command line - is I/O around network services, processes and files of other
    tools, or value types with serde forms; the component list gives the reason of each. *)

From stdpp Require Export base gmap strings list list_numbers numbers option sorting.
From Stdlib Require Export ZArith Lia.

#[export] Set Warnings "-clear-no-such-hyp".

(** ** Fallible computations

    Rust's [Result<A, E>] with the error type first, and the [?] operator as a
    binding notation. [Option]-returning code uses stdpp's option monad. *)

Inductive result (E A : Type) : Type :=
| Ok (a : A)
| Err (e : E).
Arguments Ok {E A} a.
Arguments Err {E A} e.

Definition rbind {E A B : Type} (r : result E A) (k : A -> result E B) : result E B :=
  match r with
  | Ok a => k a
  | Err e => Err e
  end.

(** [Result::map_err]. *)
Definition map_err {E F A : Type} (f : E -> F) (r : result E A) : result F A :=
  match r with
  | Ok a => Ok a
  | Err e => Err (f e)
  end.

(** [Result::is_ok]. *)
Definition is_ok {E A : Type} (r : result E A) : bool :=
  match r with
  | Ok _ => true
  | Err _ => false
  end.

(** [Result::ok]. *)
Definition ok {E A : Type} (r : result E A) : option A :=
  match r with
  | Ok a => Some a
  | Err _ => None
  end.

Declare Scope dcc_scope.
Delimit Scope dcc_scope with dcc.

Notation "'let?' x ':=' e 'in' k" := (rbind e (fun x => k))
  (at level 10, x pattern, e at level 100, k at level 200) : dcc_scope.

#[global] Open Scope dcc_scope.

(** ** Machine integers

    Unsigned Rust integers are [Z] between 0 and the type's maximum; the
    operations the code uses are written with their saturation. *)

Definition u32_max : Z := 4294967295.
Definition u64_max : Z := 18446744073709551615.
Definition usize_max : Z := u64_max.
Definition i64_max : Z := 9223372036854775807.

Definition in_u32 (z : Z) : Prop := (0 <= z <= u32_max)%Z.
Definition in_u64 (z : Z) : Prop := (0 <= z <= u64_max)%Z.

(** [a.saturating_add(b)], [a.saturating_sub(b)], [a.saturating_mul(b)] at an
    unsigned type of maximum [m]. *)
Definition sat_add (m a b : Z) : Z := Z.min (a + b) m.
Definition sat_sub (a b : Z) : Z := Z.max (a - b) 0.
Definition sat_mul (m a b : Z) : Z := Z.min (a * b) m.

(** ** Strings

    A Rust [String]/[&str] whose characters the code inspects is the list of
    its Unicode scalar values; [utf8] gives the bytes the same string has in
    memory, so [str_len] is Rust's [str::len]. *)

Abbreviation char := Z (only parsing).
Abbreviation rstr := (list Z) (only parsing).

(** An ASCII literal. *)
Fixpoint lit (s : string) : list Z :=
  match s with
  | EmptyString => []
  | String a s' => Z.of_N (Ascii.N_of_ascii a) :: lit s'
  end.
Arguments lit s%_string.

(** [char::len_utf8] and the UTF-8 bytes of one scalar value. *)
Definition len_utf8 (c : Z) : nat :=
  if (c <? 128)%Z then 1
  else if (c <? 2048)%Z then 2
  else if (c <? 65536)%Z then 3
  else 4.

Definition utf8_char (c : Z) : list Z :=
  if (c <? 128)%Z then [c]
  else if (c <? 2048)%Z then
    [(192 + Z.shiftr c 6)%Z; (128 + Z.land c 63)%Z]
  else if (c <? 65536)%Z then
    [(224 + Z.shiftr c 12)%Z; (128 + Z.land (Z.shiftr c 6) 63)%Z; (128 + Z.land c 63)%Z]
  else
    [(240 + Z.shiftr c 18)%Z; (128 + Z.land (Z.shiftr c 12) 63)%Z;
     (128 + Z.land (Z.shiftr c 6) 63)%Z; (128 + Z.land c 63)%Z].

(** Unicode scalar values. *)
Definition valid_char (c : Z) : Prop := (0 <= c <= 55295 \/ 57344 <= c <= 1114111)%Z.
Definition valid_str (s : list Z) : Prop := Forall valid_char s.

(** [str::bytes] and [str::len]. *)
Definition bytes (s : list Z) : list Z := flat_map utf8_char s.
Definition str_len (s : list Z) : nat := sum_list_with len_utf8 s.

(** Character classes of [core::char] / [u8]. *)
Definition is_ascii (c : Z) : bool := (c <? 128)%Z.
Definition in_range (lo hi c : Z) : bool := ((lo <=? c) && (c <=? hi))%Z.
Definition is_ascii_lowercase (c : Z) : bool := in_range 97 122 c.
Definition is_ascii_uppercase (c : Z) : bool := in_range 65 90 c.
Definition is_ascii_digit (c : Z) : bool := in_range 48 57 c.
Definition is_ascii_alphanumeric (c : Z) : bool :=
  is_ascii_lowercase c || is_ascii_uppercase c || is_ascii_digit c.
Definition is_ascii_hexdigit (c : Z) : bool :=
  is_ascii_digit c || in_range 97 102 c || in_range 65 70 c.

(** [char::is_whitespace]: the code points of Unicode's White_Space property. *)
Definition is_whitespace (c : Z) : bool :=
  in_range 9 13 c || (c =? 32)%Z || (c =? 133)%Z || (c =? 160)%Z || (c =? 5760)%Z
  || in_range 8192 8202 c || (c =? 8232)%Z || (c =? 8233)%Z || (c =? 8239)%Z
  || (c =? 8287)%Z || (c =? 12288)%Z.

(** Characters the code names. *)
Definition ch_dot : Z := 46.
Definition ch_dash : Z := 45.
Definition ch_underscore : Z := 95.
Definition ch_slash : Z := 47.
Definition ch_star : Z := 42.

(** [str::strip_prefix], [str::starts_with], [str::contains], [str::split_once]
    on a string pattern; [None] or [false] when the pattern does not occur. *)
Fixpoint strip_prefix (p s : list Z) : option (list Z) :=
  match p, s with
  | [], _ => Some s
  | a :: p', b :: s' => if (a =? b)%Z then strip_prefix p' s' else None
  | _ :: _, [] => None
  end.

Definition starts_with (p s : list Z) : bool :=
  match strip_prefix p s with Some _ => true | None => false end.

Fixpoint split_once (sep s : list Z) : option (list Z * list Z) :=
  match strip_prefix sep s with
  | Some rest => Some ([], rest)
  | None =>
      match s with
      | [] => None
      | c :: s' =>
          match split_once sep s' with
          | Some (a, b) => Some (c :: a, b)
          | None => None
          end
      end
  end.

Definition contains (sub s : list Z) : bool :=
  match split_once sub s with Some _ => true | None => false end.

(** [str::trim_start_matches(char)], [str::trim]. *)
Fixpoint trim_start_while (p : Z -> bool) (s : list Z) : list Z :=
  match s with
  | [] => []
  | c :: s' => if p c then trim_start_while p s' else s
  end.

Definition trim (s : list Z) : list Z :=
  reverse (trim_start_while is_whitespace (reverse (trim_start_while is_whitespace s))).

(** [s.split(c)] for one separator character: never empty. *)
Fixpoint split_char (c : Z) (s : list Z) : list (list Z) :=
  match s with
  | [] => [[]]
  | x :: s' =>
      if (x =? c)%Z then [] :: split_char c s'
      else
        match split_char c s' with
        | p :: ps => (x :: p) :: ps
        | [] => [[x]]
        end
  end.

(** [s.splitn(n, c)]: at most [n] pieces, the last one holding the rest. *)
Fixpoint splitn_char (n : nat) (c : Z) (s : list Z) : list (list Z) :=
  match n with
  | O => []
  | S O => [s]
  | S n' =>
      match split_once [c] s with
      | Some (a, b) => a :: splitn_char n' c b
      | None => [s]
      end
  end.

(** [[p].contains(x)] on a slice of strings. *)
Definition mem_str (s : list Z) (l : list (list Z)) : bool := bool_decide (s ∈ l).

(** [s.replace(from_char, to_char)]. *)
Definition replace_char (from to : Z) (s : list Z) : list Z :=
  map (fun c => if (c =? from)%Z then to else c) s.

(** [s.trim_start_matches(c)] for one character. *)
Definition trim_start_char (c : Z) (s : list Z) : list Z :=
  trim_start_while (fun x => (x =? c)%Z) s.

(** ** Opaque strings

    Identifiers, messages and keys that the code only compares, concatenates or
    searches are [string]s of UTF-8 bytes. *)

Definition ascii_lower (a : Ascii.ascii) : Ascii.ascii :=
  let n := Ascii.N_of_ascii a in
  if ((65 <=? n) && (n <=? 90))%N then Ascii.ascii_of_N (n + 32) else a.

(** [str::to_ascii_lowercase]. *)
Fixpoint to_ascii_lowercase (s : string) : string :=
  match s with
  | EmptyString => EmptyString
  | String a s' => String (ascii_lower a) (to_ascii_lowercase s')
  end.

(** [str::contains] on bytes. *)
Fixpoint string_contains (sub s : string) : bool :=
  String.prefix sub s ||
  match s with
  | EmptyString => false
  | String _ s' => string_contains sub s'
  end.

(** ** Tactics *)

(** Split the conjunctions and existentials of the context. *)
Ltac deex :=
  repeat match goal with
  | H : exists x, _ |- _ => let y := fresh x in destruct H as [y H]
  | H : _ /\ _ |- _ => let H1 := fresh H in destruct H as [H1 H]
  end.

(** Case on the scrutinee of a [match] of the goal, then of a hypothesis. *)
Ltac case_goal := match goal with |- context [match ?x with _ => _ end] => destruct x eqn:? end.

Ltac case_hyp H := match type of H with context [match ?x with _ => _ end] => destruct x eqn:? end.

(** Turn the boolean tests of the code into arithmetic facts. *)
Ltac bool_to_prop :=
  repeat match goal with
  | H : context [(_ && _) = true] |- _ => rewrite andb_true_iff in H
  | H : context [(_ || _) = true] |- _ => rewrite orb_true_iff in H
  | H : context [(_ && _) = false] |- _ => rewrite andb_false_iff in H
  | H : context [(_ || _) = false] |- _ => rewrite orb_false_iff in H
  | H : context [negb _ = true] |- _ => rewrite negb_true_iff in H
  | H : context [negb _ = false] |- _ => rewrite negb_false_iff in H
  | H : context [(_ <=? _)%Z = true] |- _ => rewrite Z.leb_le in H
  | H : context [(_ <=? _)%Z = false] |- _ => rewrite Z.leb_gt in H
  | H : context [(_ <? _)%Z = true] |- _ => rewrite Z.ltb_lt in H
  | H : context [(_ <? _)%Z = false] |- _ => rewrite Z.ltb_ge in H
  | H : context [(_ =? _)%Z = true] |- _ => rewrite Z.eqb_eq in H
  | H : context [(_ =? _)%Z = false] |- _ => rewrite Z.eqb_neq in H
  | H : context [(_ <=? _)%nat = true] |- _ => rewrite Nat.leb_le in H
  | H : context [(_ <=? _)%nat = false] |- _ => rewrite Nat.leb_gt in H
  | H : context [(_ <? _)%nat = true] |- _ => rewrite Nat.ltb_lt in H
  | H : context [(_ <? _)%nat = false] |- _ => rewrite Nat.ltb_ge in H
  | H : context [(_ =? _)%nat = true] |- _ => rewrite Nat.eqb_eq in H
  | H : context [(_ =? _)%nat = false] |- _ => rewrite Nat.eqb_neq in H
  end.

(** Character-class goals: expose the ranges and leave them to [lia]. *)
Ltac char_lia :=
  unfold is_ascii_alphanumeric, is_ascii_hexdigit, is_ascii_lowercase, is_ascii_uppercase,
    is_ascii_digit, is_ascii, in_range,
    ch_dot, ch_dash, ch_underscore, ch_slash, ch_star in *; lia.

(** ** Lemmas shared by the components *)

Create HintDb dcc.
Create Rewrite HintDb dcc_rw.

(** Updating one summand. *)
Lemma sum_insert {A} (f : A -> nat) (l : list A) t p q :
  l !! t = Some p -> sum_list_with f (<[t := q]> l) + f p = sum_list_with f l + f q.
Proof.
  revert t. induction l as [|x l IH]; intros [|t] H; simpl in *; simplify_eq; [lia|].
  specialize (IH t H). lia.
Qed.

Lemma strip_prefix_app (p s : list Z) : strip_prefix p (p ++ s) = Some s.
Proof. induction p as [|a p IH]; simpl; [done|]. by rewrite Z.eqb_refl. Qed.

Lemma strip_prefix_Some (p s r : list Z) : strip_prefix p s = Some r <-> s = p ++ r.
Proof.
  split; [|intros ->; apply strip_prefix_app].
  revert s; induction p as [|a p IH]; intros [|b s]; simpl; try congruence.
  destruct (Z.eqb_spec a b) as [->|]; [|done]. intros H. by rewrite (IH _ H).
Qed.

Lemma strip_prefix_None (p s : list Z) : strip_prefix p s = None <-> forall r, s <> p ++ r.
Proof.
  split.
  - intros H r ->. by rewrite strip_prefix_app in H.
  - intros H. destruct (strip_prefix p s) as [r|] eqn:E; [|done].
    apply strip_prefix_Some in E. by destruct (H r).
Qed.

Lemma starts_with_spec (p s : list Z) : starts_with p s = true <-> exists r, s = p ++ r.
Proof.
  unfold starts_with. destruct (strip_prefix p s) as [r|] eqn:E.
  - apply strip_prefix_Some in E. naive_solver.
  - split; [done|]. intros [r ->]. by rewrite strip_prefix_app in E.
Qed.

Lemma split_once_eq (sep s a b : list Z) : split_once sep s = Some (a, b) -> s = a ++ sep ++ b.
Proof.
  revert a b; induction s as [|c s IH]; intros a b; simpl;
    destruct (strip_prefix sep _) as [r|] eqn:E; intros H; simplify_eq.
  1, 2: by apply strip_prefix_Some in E.
  destruct (split_once sep s) as [[a' b']|]; simplify_eq. simpl. f_equal. by apply IH.
Qed.

(** The first separator ends the first piece when no character of the piece is
    the separator's first one. *)
Lemma split_once_app (c : Z) (sep a b : list Z) :
  Forall (fun x => x <> c) a ->
  split_once (c :: sep) (a ++ (c :: sep) ++ b) = Some (a, b).
Proof.
  induction 1 as [|x a Hx Ha IH].
  - simpl. by rewrite Z.eqb_refl, strip_prefix_app.
  - change ((x :: a) ++ (c :: sep) ++ b) with (x :: (a ++ (c :: sep) ++ b)).
    cbn [split_once strip_prefix]. rewrite (proj2 (Z.eqb_neq c x)) by congruence. by rewrite IH.
Qed.

Lemma strip_prefix_None_tail (p x t t' : list Z) :
  length p <= length x -> strip_prefix p (x ++ t) = None -> strip_prefix p (x ++ t') = None.
Proof.
  revert x; induction p as [|a p IH]; intros x Hl; [done|].
  destruct x as [|b x]; simpl in *; [lia|]. case_match; [|done]. apply IH. lia.
Qed.

(** The first occurrence of the separator does not depend on what follows it. *)
Lemma split_once_tail (sep s a b b' : list Z) :
  split_once sep s = Some (a, b) -> split_once sep (a ++ sep ++ b') = Some (a, b').
Proof.
  revert a b; induction s as [|c s IH]; intros a b; cbn [split_once];
    destruct (strip_prefix sep _) as [r|] eqn:E; intros H; simplify_eq.
  1, 2: destruct sep as [|y sep]; [by destruct b'|]; cbn [app split_once strip_prefix];
    by rewrite Z.eqb_refl, strip_prefix_app.
  destruct (split_once sep s) as [[a' b'']|] eqn:Es; simplify_eq.
  pose proof (split_once_eq _ _ _ _ Es) as ->.
  change ((c :: a') ++ sep ++ b') with (c :: (a' ++ sep ++ b')). cbn [split_once].
  rewrite (IH _ _ eq_refl).
  change (c :: a' ++ sep ++ b) with ((c :: a') ++ sep ++ b) in E.
  rewrite app_assoc in E. apply (strip_prefix_None_tail _ _ _ b') in E.
  - rewrite <- app_assoc in E. simpl in E. by rewrite E.
  - rewrite length_app. lia.
Qed.

Lemma contains_spec (sub s : list Z) : contains sub s = true <-> exists a b, s = a ++ sub ++ b.
Proof.
  unfold contains. split.
  - destruct (split_once sub s) as [[a b]|] eqn:E; [|done]. intros _.
    exists a, b. by apply split_once_eq.
  - intros (a & b & ->). induction a as [|x a IH].
    + simpl app. destruct (sub ++ b) as [|y t] eqn:E; simpl; rewrite <- E, strip_prefix_app; done.
    + cbn [app split_once]. destruct (strip_prefix sub _); [done|].
      by destruct (split_once sub (a ++ sub ++ b)) as [[? ?]|].
Qed.

Lemma len_utf8_pos (c : Z) : 1 <= len_utf8 c.
Proof. unfold len_utf8. repeat case_match; lia. Qed.

Lemma str_len_app (s t : list Z) : str_len (s ++ t) = str_len s + str_len t.
Proof. apply sum_list_with_app. Qed.

Lemma str_len_ascii (s : list Z) : Forall (fun c => is_ascii c = true) s -> str_len s = length s.
Proof.
  induction 1 as [|c s Hc Hs IH]; [done|].
  unfold str_len in *; simpl. rewrite IH. unfold len_utf8, is_ascii in *. by rewrite Hc.
Qed.

Lemma bytes_ascii (s : list Z) : Forall (fun c => is_ascii c = true) s -> bytes s = s.
Proof.
  induction 1 as [|c s Hc Hs IH]; [done|].
  unfold bytes in *; simpl. rewrite IH. unfold utf8_char, is_ascii in *. by rewrite Hc.
Qed.

Lemma length_bytes (s : list Z) : length (bytes s) = str_len s.
Proof.
  unfold bytes, str_len. induction s as [|c s IH]; [done|]. simpl.
  rewrite length_app, IH. unfold utf8_char, len_utf8. by repeat case_match.
Qed.

Lemma bytes_app (s t : list Z) : bytes (s ++ t) = bytes s ++ bytes t.
Proof. apply flat_map_app. Qed.

Lemma land_63 (z : Z) : (0 <= Z.land z 63 <= 63)%Z.
Proof.
  replace (Z.land z 63) with (z mod 64)%Z by (symmetry; apply (Z.land_ones z 6); lia).
  pose proof (Z.mod_pos_bound z 64). lia.
Qed.

(** The bytes of a scalar value are bytes, and only an ASCII one has a byte below 128. *)
Lemma utf8_char_range (c : Z) :
  valid_char c -> Forall (fun b => (0 <= b < 256)%Z) (utf8_char c).
Proof.
  intros Hc. unfold valid_char in Hc. unfold utf8_char.
  pose proof (land_63 c). pose proof (land_63 (Z.shiftr c 6)). pose proof (land_63 (Z.shiftr c 12)).
  rewrite !Z.shiftr_div_pow2 in * by lia.
  change (2 ^ 6)%Z with 64%Z in *. change (2 ^ 12)%Z with 4096%Z in *.
  change (2 ^ 18)%Z with 262144%Z in *.
  repeat case_match; bool_to_prop; repeat constructor; Z.div_mod_to_equations; lia.
Qed.

Lemma utf8_char_non_ascii (c : Z) :
  valid_char c -> is_ascii c = false -> exists b bs, utf8_char c = b :: bs /\ (192 <= b < 256)%Z.
Proof.
  intros Hc Ha. unfold is_ascii in Ha. pose proof (utf8_char_range c Hc) as Hr.
  unfold utf8_char in *. rewrite Ha in *. unfold valid_char in Hc.
  pose proof (Z.shiftr_nonneg c 6). pose proof (Z.shiftr_nonneg c 12). pose proof (Z.shiftr_nonneg c 18).
  repeat case_match; eexists _, _; (split; [reflexivity|]); inv Hr; bool_to_prop; lia.
Qed.

Lemma bytes_range (s : list Z) : valid_str s -> Forall (fun b => (0 <= b < 256)%Z) (bytes s).
Proof.
  induction 1 as [|c s Hc Hs IH]; [constructor|].
  change (bytes (c :: s)) with (utf8_char c ++ bytes s).
  apply Forall_app; auto using utf8_char_range.
Qed.

(** A byte-wise test that only ASCII bytes pass is the character-wise test. *)
Lemma forallb_bytes (p : Z -> bool) (s : list Z) :
  (forall b, p b = true -> is_ascii b = true) -> valid_str s -> forallb p (bytes s) = forallb p s.
Proof.
  intros Hp; induction 1 as [|c s Hc Hs IH]; [done|].
  change (bytes (c :: s)) with (utf8_char c ++ bytes s).
  rewrite forallb_app, IH. simpl. f_equal.
  destruct (is_ascii c) eqn:Ha.
  - unfold is_ascii in Ha. unfold utf8_char. rewrite Ha. simpl. apply andb_true_r.
  - destruct (utf8_char_non_ascii c Hc Ha) as (b & bs & -> & Hb). simpl.
    assert (p b = false /\ p c = false) as [-> ->]; [|done].
    split; apply not_true_iff_false; intros E%Hp; unfold is_ascii in *; bool_to_prop; lia.
Qed.

Lemma forallb_Forall {A} (p : A -> bool) (l : list A) :
  forallb p l = true <-> Forall (fun x => p x = true) l.
Proof. rewrite forallb_forall, Forall_forall. setoid_rewrite list_elem_of_In. done. Qed.

Definition valid_char_b (c : Z) : bool := in_range 0 55295 c || in_range 57344 1114111 c.

Lemma valid_str_b (s : list Z) : forallb valid_char_b s = true -> valid_str s.
Proof.
  rewrite forallb_Forall. intros H. eapply Forall_impl; [exact H|].
  intros c. unfold valid_char_b, valid_char, in_range. lia.
Qed.

#[export] Hint Rewrite strip_prefix_app str_len_app length_bytes bytes_app : dcc_rw.
#[export] Hint Resolve len_utf8_pos : dcc.

(** Filtering commutes with a map, and keeps the images distinct. *)
Lemma filter_map_comm {A B} (f : A -> B) (P : B -> Prop) `{!forall x, Decision (P x)} (l : list A) :
  base.filter P (map f l) = map f (base.filter (fun x => P (f x)) l).
Proof. induction l as [|x l IH]; [done|]. cbn [map]. rewrite !filter_cons. destruct (decide (P (f x))); cbn [map]; by rewrite IH. Qed.

Lemma NoDup_map_filter {A B} (f : A -> B) (P : A -> Prop) `{!forall x, Decision (P x)} (l : list A) :
  NoDup (map f l) -> NoDup (map f (base.filter P l)).
Proof.
  induction l as [|x l IH]; [done|]. cbn [map]. intros [Hx Hl]%NoDup_cons. rewrite filter_cons. destruct (decide (P x)); [|by apply IH].
  cbn [map]. apply NoDup_cons. split; [|by apply IH]. intros Hin. apply Hx. apply list_elem_of_fmap in Hin as (y & -> & Hy).
  apply list_elem_of_fmap. exists y. split; [done|]. by apply list_elem_of_filter in Hy as [_ ?].
Qed.
