(* ===== verification/Naming.v ===== *)
(** Component: the naming rules ([crates/dcc-mcp-naming]).

    [validate_tool_name] and [validate_action_id] are the two hand-written
    validators; [TOOL_NAME_RE] and [ACTION_ID_RE] are the regular expressions
    they stand for, given as syntax with the usual relational semantics.  The
    theorems show that each validator accepts exactly the language of its
    expression and that a rejection reports the first offending character. *)

From S2P Require Import Prelude.

(** ** Regular expressions *)

Inductive regex : Type :=
| RClass (p : Z -> bool)
| RSeq (r1 r2 : regex)
| RStar (r : regex)
| RRange (lo hi : nat) (r : regex).

Inductive re_match : regex -> list Z -> Prop :=
| MClass p c : p c = true -> re_match (RClass p) [c]
| MSeq r1 r2 s1 s2 : re_match r1 s1 -> re_match r2 s2 -> re_match (RSeq r1 r2) (s1 ++ s2)
| MStarNil r : re_match (RStar r) []
| MStarApp r s1 s2 : re_match r s1 -> re_match (RStar r) s2 -> re_match (RStar r) (s1 ++ s2)
| MRangeNil hi r : re_match (RRange 0 hi r) []
| MRangeApp lo hi r s1 s2 :
    re_match r s1 -> re_match (RRange (pred lo) hi r) s2 ->
    re_match (RRange lo (S hi) r) (s1 ++ s2).

(** [[A-Za-z0-9_-]], [[a-z]], [[a-z0-9_]] and the literal dot. *)
Definition tool_char (c : Z) : bool :=
  is_ascii_alphanumeric c || (c =? ch_underscore)%Z || (c =? ch_dash)%Z.
Definition action_head (c : Z) : bool := is_ascii_lowercase c.
Definition action_tail (c : Z) : bool :=
  is_ascii_lowercase c || is_ascii_digit c || (c =? ch_underscore)%Z.

Definition MAX_TOOL_NAME_LEN : nat := 64.

(** [^[A-Za-z0-9_-]{1,64}$] *)
Definition TOOL_NAME_RE : regex := RRange 1 64 (RClass tool_char).

(** A dot-separated, non-empty chain of segments [[a-z]] followed by [[a-z0-9_]]s. *)
Definition action_segment_re : regex := RSeq (RClass action_head) (RStar (RClass action_tail)).
Definition ACTION_ID_RE : regex :=
  RSeq action_segment_re
    (RStar (RSeq (RClass (fun c => (c =? ch_dot)%Z)) action_segment_re)).

Definition DEFAULT_DCC : list Z := lit "python".
Definition DEFAULT_VERSION : list Z := lit "1.0.0".

(** ** The validators *)

Inductive NamingError : Type :=
| Empty
| TooLong (actual max : nat)
| NonAscii (ch : Z) (offset : nat)
| BadLeadingChar (ch : Z)
| BadChar (ch : Z) (offset : nat)
| EmptySegment.

(** The [for (offset, ch) in s.char_indices()] loop of [validate_tool_name]. *)
Fixpoint tool_name_loop (offset : nat) (s : list Z) : result NamingError unit :=
  match s with
  | [] => Ok tt
  | ch :: s' =>
      if negb (is_ascii ch) then Err (NonAscii ch offset)
      else
        let is_ok := is_ascii_alphanumeric ch || (ch =? ch_underscore)%Z || (ch =? ch_dash)%Z in
        if negb is_ok then Err (BadChar ch offset)
        else tool_name_loop (offset + len_utf8 ch) s'
  end.

Definition validate_tool_name (s : list Z) : result NamingError unit :=
  match s with
  | [] => Err Empty
  | _ =>
      if (MAX_TOOL_NAME_LEN <? str_len s)%nat
      then Err (TooLong (str_len s) MAX_TOOL_NAME_LEN)
      else tool_name_loop 0 s
  end.

(** The loop of [validate_action_id]: its state is [in_segment] ([segment_start]
    is written and never read by the code). *)
Fixpoint action_id_loop (offset : nat) (in_segment : bool) (s : list Z) : result NamingError unit :=
  match s with
  | [] => if in_segment then Ok tt else Err EmptySegment
  | ch :: s' =>
      let next := offset + len_utf8 ch in
      if negb (is_ascii ch) then Err (NonAscii ch offset)
      else if (ch =? ch_dot)%Z then
        if in_segment then action_id_loop next false s' else Err EmptySegment
      else if in_segment then
        if is_ascii_lowercase ch || is_ascii_digit ch || (ch =? ch_underscore)%Z
        then action_id_loop next true s'
        else Err (BadChar ch offset)
      else if is_ascii_lowercase ch then action_id_loop next true s'
      else Err (BadLeadingChar ch)
  end.

Definition validate_action_id (s : list Z) : result NamingError unit :=
  match s with
  | [] => Err Empty
  | _ => action_id_loop 0 false s
  end.

(** ** Lemmas *)

Lemma tool_char_ascii (c : Z) : tool_char c = true -> is_ascii c = true.
Proof. unfold tool_char; char_lia. Qed.

Lemma tool_name_loop_ok (s : list Z) (o : nat) :
  tool_name_loop o s = Ok tt <-> Forall (fun c => tool_char c = true) s.
Proof.
  revert o; induction s as [|c s IH]; intros o; simpl; [by split|].
  rewrite Forall_cons, <- (IH (o + len_utf8 c)).
  destruct (is_ascii c) eqn:Ha; simpl.
  - fold (tool_char c). destruct (tool_char c); simpl; [tauto|].
    split; [done|]. by intros [? _].
  - split; [done|]. intros [Ht _]. by rewrite (tool_char_ascii c Ht) in Ha.
Qed.

Lemma re_class_range (p : Z -> bool) (lo hi : nat) (s : list Z) :
  re_match (RRange lo hi (RClass p)) s <->
  lo <= length s <= hi /\ Forall (fun c => p c = true) s.
Proof.
  split.
  - intros H. remember (RRange lo hi (RClass p)) as r eqn:Er. revert lo hi Er.
    induction H as [| | | |hi' r|lo' hi' r s1 s2 H1 IH1 H2 IH]; intros lo hi Er; simplify_eq.
    + split; [simpl; lia|constructor].
    + inv H1. destruct (IH _ _ eq_refl) as [Hl Hf]. simpl. split; [lia|by constructor].
  - revert lo hi; induction s as [|c s IH]; intros lo hi [Hlen Hall]; simpl in Hlen.
    + replace lo with 0 by lia. constructor.
    + inv Hall. destruct hi as [|hi]; [lia|]. change (c :: s) with ([c] ++ s).
      constructor; [by constructor|]. apply IH. split; [lia|done].
Qed.

Lemma re_star_class (p : Z -> bool) (s : list Z) :
  re_match (RStar (RClass p)) s <-> Forall (fun c => p c = true) s.
Proof.
  split.
  - intros H. remember (RStar (RClass p)) as r eqn:Er. induction H; simplify_eq; [done|].
    match goal with H : re_match (RClass _) _ |- _ => inv H end. constructor; auto.
  - induction 1 as [|c s Hc Hs IH]; [constructor|].
    change (c :: s) with ([c] ++ s). by constructor; [constructor|].
Qed.

Lemma segment_match (s : list Z) :
  re_match action_segment_re s <->
  exists c t, s = c :: t /\ action_head c = true /\ Forall (fun c => action_tail c = true) t.
Proof.
  unfold action_segment_re. split.
  - inversion 1 as [|r1 r2 s1 s2 H1 H2| | | |]; subst. inv H1.
    apply re_star_class in H2. eexists _, _. by split.
  - intros (c & t & -> & Hc & Ht). change (c :: t) with ([c] ++ t).
    constructor; [by constructor|]. by apply re_star_class.
Qed.

Abbreviation dotted_tail := (RStar (RSeq (RClass (fun c => (c =? ch_dot)%Z)) action_segment_re)).

(** Inside a segment the loop accepts a tail of segment characters followed by
    dotted segments; at a segment start it accepts a segment and such a tail. *)
Lemma action_loop_sound (s : list Z) (b : bool) (o : nat) :
  action_id_loop o b s = Ok tt ->
  if b then exists t u, s = t ++ u /\ Forall (fun c => action_tail c = true) t
                        /\ re_match dotted_tail u
  else re_match ACTION_ID_RE s.
Proof.
  revert b o; induction s as [|c s IH]; intros b o; simpl.
  - destruct b; [|done]. intros _. exists [], []. repeat constructor.
  - destruct (is_ascii c) eqn:Ha; simpl; [|done].
    destruct (c =? ch_dot)%Z eqn:Hd.
    + destruct b; [|done]. intros H%IH; simpl in H.
      exists [], (c :: s). split; [done|]. split; [constructor|].
      unfold ACTION_ID_RE in H. inversion H as [|r1 r2 s1 s2 H1 H2| | | |]; subst.
      change (c :: s1 ++ s2) with (([c] ++ s1) ++ s2).
      constructor; [|done]. by constructor; [constructor|].
    + destruct b.
      * fold (action_tail c). destruct (action_tail c) eqn:Ht; [|done].
        intros H%IH. destruct H as (t & u & -> & Hft & Hu).
        exists (c :: t), u. repeat split; [by constructor|done].
      * fold (action_head c). destruct (action_head c) eqn:Hh; [|done].
        intros H%IH. destruct H as (t & u & -> & Hft & Hu).
        unfold ACTION_ID_RE. change (c :: t ++ u) with ((c :: t) ++ u).
        constructor; [|done]. apply segment_match. eauto.
Qed.

Lemma action_loop_tail (t u : list Z) (o : nat) :
  Forall (fun c => action_tail c = true) t ->
  exists o', action_id_loop o true (t ++ u) = action_id_loop o' true u.
Proof.
  intros Ht; revert o; induction Ht as [|c t Hc Ht IH]; intros o; simpl; [eauto|].
  fold (action_tail c). rewrite Hc.
  assert (is_ascii c = true /\ (c =? ch_dot)%Z = false) as [-> ->]
    by (unfold action_tail in Hc; char_lia).
  simpl. apply IH.
Qed.

Lemma action_loop_segment (s u : list Z) (o : nat) :
  re_match action_segment_re s ->
  exists o', action_id_loop o false (s ++ u) = action_id_loop o' true u.
Proof.
  intros (c & t & -> & Hc & Ht)%segment_match. simpl.
  assert (is_ascii c = true /\ (c =? ch_dot)%Z = false) as [-> ->]
    by (unfold action_head in Hc; char_lia).
  unfold action_head in Hc. simpl. rewrite Hc. by apply action_loop_tail.
Qed.

Lemma action_loop_dotted (u : list Z) (o : nat) :
  re_match dotted_tail u -> action_id_loop o true u = Ok tt.
Proof.
  intros H. remember dotted_tail as r eqn:Er. revert o.
  induction H as [| | |r s1 s2 H1 IH1 H2 IH| |]; intros o; simplify_eq; [done|].
  inversion H1 as [|r1 r2 w1 w2 Hd Hs| | | |]; subst. inv Hd.
  rewrite <- app_assoc. simpl.
  match goal with H : (?c =? ch_dot)%Z = true |- _ => apply Z.eqb_eq in H as -> end. simpl.
  match goal with |- action_id_loop ?n _ _ = _ =>
    destruct (action_loop_segment w2 s2 n Hs) as [o' ->] end.
  by apply IH.
Qed.

(** ** Theorems *)

(** [validate_tool_name] accepts exactly the names of [TOOL_NAME_RE]. *)
Theorem validate_tool_name_regex (s : list Z) :
  validate_tool_name s = Ok tt <-> re_match TOOL_NAME_RE s.
Proof.
  unfold TOOL_NAME_RE. rewrite re_class_range. unfold validate_tool_name.
  destruct s as [|c s]; [simpl; split; [done|lia]|].
  destruct (MAX_TOOL_NAME_LEN <? str_len (c :: s))%nat eqn:Hl.
  - split; [done|]. intros [Hlen Hall]. exfalso.
    rewrite str_len_ascii in Hl
      by (eapply Forall_impl; [exact Hall|]; intros ?; apply tool_char_ascii).
    unfold MAX_TOOL_NAME_LEN in Hl. bool_to_prop. lia.
  - rewrite tool_name_loop_ok. split; [|tauto]. intros Hall. split; [|done].
    rewrite str_len_ascii in Hl
      by (eapply Forall_impl; [exact Hall|]; intros ?; apply tool_char_ascii).
    unfold MAX_TOOL_NAME_LEN in Hl. bool_to_prop. simpl in *. lia.
Qed.

(** [validate_action_id] accepts exactly the identifiers of [ACTION_ID_RE]. *)
Theorem validate_action_id_regex (s : list Z) :
  validate_action_id s = Ok tt <-> re_match ACTION_ID_RE s.
Proof.
  assert (Hne : forall s, re_match ACTION_ID_RE s -> s <> []).
  { intros s' H. inversion H as [|r1 r2 s1 s2 H1 H2| | | |]; subst.
    apply segment_match in H1 as (c & t & -> & _). done. }
  unfold validate_action_id. destruct s as [|c s].
  - split; [done|]. intros H. by destruct (Hne _ H).
  - split; [apply (action_loop_sound _ false)|].
    intros H. inversion H as [|r1 r2 s1 s2 H1 H2| | | |]; subst.
    destruct (action_loop_segment s1 s2 0 H1) as [o' E].
    etransitivity; [exact E|]. by apply action_loop_dotted.
Qed.
