(* ===== verification/GatewayNaming.v ===== *)
(** Component: gateway tool names and resource URIs
    ([crates/dcc-mcp-gateway-core/src/naming], [resource_uri.rs]).

    The gateway publishes a backend tool as [i_<id8>__<escaped>]; the escaping
    keeps the name inside the alphabet [[A-Za-z0-9_]].  The theorems show that
    decoding is the exact inverse of encoding on the dotted/dashed tool-name
    alphabet, that nothing outside that alphabet decodes, and that the bare-name
    resolver publishes a bare name only when one skill owns it.

    [Uuid] is the [uuid] crate's: the section's [simple] is
    [Uuid::simple().to_string()] and [simple_spec] its documented format, 32
    lowercase hexadecimal digits. *)

From S2P Require Import Prelude Naming.

(** ** Vocabulary *)

Definition ID_PREFIX_LEN : nat := 8.
Definition INSTANCE_SEP : list Z := lit "__".
Definition SKILL_TOOL_SEP : list Z := lit "__".
Definition CURSOR_SAFE_PREFIX : list Z := lit "i_".
Definition CURSOR_SAFE_SEP : list Z := lit "__".

Definition GATEWAY_LOCAL_TOOLS : list (list Z) :=
  [lit "lease"; lit "search"; lit "describe"; lit "call"; lit "load_skill"; lit "unload_skill"].

Definition CORE_TOOL_NAMES : list (list Z) :=
  [lit "search"; lit "describe"; lit "call"; lit "lease"; lit "load_skill"; lit "unload_skill";
   lit "list_skills"; lit "get_skill_info"; lit "search_skills"; lit "activate_tool_group";
   lit "deactivate_tool_group"; lit "search_tools"; lit "describe_tool"; lit "call_tool";
   lit "call_tools"; lit "acquire_dcc_instance"; lit "release_dcc_instance";
   lit "jobs_get_status"; lit "jobs_poll_contract"; lit "jobs_cleanup";
   lit "jobs_checkpoint_status"; lit "jobs_resume_context"; lit "project_save";
   lit "project_load"; lit "project_resume"; lit "project_status"; lit "workflows_run";
   lit "workflows_get_status"; lit "workflows_cancel"; lit "workflows_lookup";
   lit "workflows_resume"; lit "workflows_list"; lit "workflows_describe"].

Definition is_local_tool (name : list Z) : bool := mem_str name GATEWAY_LOCAL_TOOLS.
Definition is_core_tool (name : list Z) : bool := mem_str name CORE_TOOL_NAMES.

Definition is_instance_prefix (s : list Z) : bool :=
  (str_len s =? ID_PREFIX_LEN)%nat && forallb is_ascii_hexdigit s.

Definition is_cursor_safe_alphabet (s : list Z) : bool :=
  match s with
  | [] => false
  | _ => forallb (fun b => is_ascii_alphanumeric b || (b =? ch_underscore)%Z) (bytes s)
  end.

(** ** Skill-tool names *)

Definition extract_bare_tool_name (skill_name action_name : list Z) : list Z :=
  match skill_name with
  | [] => action_name
  | _ =>
      let prefix := replace_char ch_dash ch_underscore skill_name ++ lit "__" in
      default action_name (strip_prefix prefix action_name)
  end.

Definition skill_tool_name (skill_name action_name : list Z) : option (list Z) :=
  match skill_name with
  | [] => None
  | _ =>
      let bare := extract_bare_tool_name skill_name action_name in
      if is_core_tool bare || contains SKILL_TOOL_SEP bare then None
      else Some (skill_name ++ SKILL_TOOL_SEP ++ bare)
  end.

Definition decode_skill_tool_name (namespaced : list Z) : option (list Z * list Z) :=
  if starts_with (lit "__") namespaced || contains [ch_slash] namespaced then None
  else if starts_with CURSOR_SAFE_PREFIX namespaced then None
  else
    match split_once SKILL_TOOL_SEP namespaced with
    | Some (head, tail) => if is_instance_prefix head then None else Some (head, tail)
    | None => None
    end.

(** ** The cursor-safe escaping *)

(** [format!("{b:02X}")] for a byte. *)
Definition hex_upper (n : Z) : Z := if (n <? 10)%Z then (48 + n)%Z else (55 + n)%Z.
Definition hex2_upper (b : Z) : list Z := [hex_upper (b / 16); hex_upper (b mod 16)].

Definition escape_byte (b : Z) : list Z :=
  if (b =? ch_underscore)%Z then lit "_U_"
  else if (b =? ch_dot)%Z then lit "_D_"
  else if (b =? ch_dash)%Z then lit "_H_"
  else if is_ascii_alphanumeric b then [b]
  else lit "_X" ++ hex2_upper b ++ lit "_".

Definition escape_cursor_safe (s : list Z) : list Z := flat_map escape_byte (bytes s).

Definition hex_nibble (b : Z) : option Z :=
  if in_range 48 57 b then Some (b - 48)%Z
  else if in_range 65 70 b then Some (b - 65 + 10)%Z
  else if in_range 97 102 b then Some (b - 97 + 10)%Z
  else None.

(** The [while i < bytes.len()] loop, on the suffix [bytes[i..]]: [b], [c1],
    [c2], [c3], [c4] are [bytes[i]], ..., [bytes[i + 4]]. *)
Fixpoint unescape_loop (bs : list Z) : option (list Z) :=
  match bs with
  | [] => Some []
  | b :: rest =>
      if (b =? ch_underscore)%Z then
        match rest with
        | c1 :: c2 :: rest3 =>
            if negb (c2 =? ch_underscore)%Z then None
            else if (c1 =? 85)%Z then cons ch_underscore <$> unescape_loop rest3
            else if (c1 =? 68)%Z then cons ch_dot <$> unescape_loop rest3
            else if (c1 =? 72)%Z then cons ch_dash <$> unescape_loop rest3
            else if (c1 =? 88)%Z then
              match rest3 with
              | c3 :: c4 :: rest5 =>
                  if negb (c4 =? ch_underscore)%Z then None
                  else
                    hi ← hex_nibble c2;
                    lo ← hex_nibble c3;
                    cons (hi * 16 + lo)%Z <$> unescape_loop rest5
              | _ => None
              end
            else None
        | _ => None
        end
      else if is_ascii_alphanumeric b then cons b <$> unescape_loop rest
      else None
  end.

Definition unescape_cursor_safe (s : list Z) : option (list Z) := unescape_loop (bytes s).

Definition decode_tool_name (prefixed : list Z) : option (list Z * list Z) :=
  if is_local_tool prefixed then None
  else
    match strip_prefix CURSOR_SAFE_PREFIX prefixed with
    | Some rest =>
        match split_once CURSOR_SAFE_SEP rest with
        | Some (p, escaped) =>
            if is_instance_prefix p
            then u ← unescape_cursor_safe escaped; Some (p, u)
            else None
        | None => None
        end
    | None => None
    end.

Definition assert_gateway_tool_name (name : list Z) : result NamingError unit :=
  validate_tool_name name.

(** ** Bare-name resolution *)

Record BareNameInput : Type := { skill_name : list Z; action_name : list Z }.

(** [counts.entry(bare).or_default().push(skill_name)], skipping inputs that
    are not skill-scoped, are core tools or stay qualified. *)
Definition count_bare (counts : gmap (list Z) (list (list Z))) (inp : BareNameInput)
    : gmap (list Z) (list (list Z)) :=
  match skill_name inp with
  | [] => counts
  | _ =>
      let bare := extract_bare_tool_name (skill_name inp) (action_name inp) in
      if is_core_tool bare || contains SKILL_TOOL_SEP bare then counts
      else <[bare := default [] (counts !! bare) ++ [skill_name inp]]> counts
  end.

Definition bare_unique (skills : list (list Z)) : bool :=
  let first := default [] (head skills) in
  forallb (fun s => bool_decide (s = first)) skills.

Definition publish_bare (counts : gmap (list Z) (list (list Z)))
    (out : gset (list Z * list Z)) (inp : BareNameInput) : gset (list Z * list Z) :=
  match skill_name inp with
  | [] => out
  | _ =>
      match counts !! extract_bare_tool_name (skill_name inp) (action_name inp) with
      | None => out
      | Some skills =>
          if bare_unique skills then {[ (skill_name inp, action_name inp) ]} ∪ out else out
      end
  end.

Definition resolve_bare_names (inputs : list BareNameInput) : gset (list Z * list Z) :=
  let counts := foldl count_bare ∅ inputs in
  foldl (publish_bare counts) ∅ inputs.

(** ** Encoding with an instance id *)

Section Instance_names.
Context {Uuid : Type} (simple : Uuid -> list Z).
Hypothesis simple_spec : forall id,
  length (simple id) = 32 /\ Forall (fun c => in_range 48 57 c || in_range 97 102 c = true) (simple id).

Definition instance_short (id : Uuid) : list Z := take ID_PREFIX_LEN (simple id).

Definition encode_tool_name (id : Uuid) (original : list Z) : list Z :=
  instance_short id ++ INSTANCE_SEP ++ original.

Definition encode_tool_name_cursor_safe (id : Uuid) (original : list Z) : list Z :=
  CURSOR_SAFE_PREFIX ++ instance_short id ++ CURSOR_SAFE_SEP ++ escape_cursor_safe original.

(** [resource_uri.rs]: [<scheme>://<rest>] becomes [<scheme>://<id8>/<rest>]. *)
Definition encode_resource_uri (id : Uuid) (backend_uri : list Z) : option (list Z) :=
  '(scheme, rest) ← split_once (lit "://") backend_uri;
  Some (scheme ++ lit "://" ++ instance_short id ++ lit "/" ++ trim_start_char ch_slash rest).

End Instance_names.

Definition is_instance_id8 (s : list Z) : bool :=
  (str_len s =? ID_PREFIX_LEN)%nat && forallb is_ascii_hexdigit (bytes s).

Definition decode_resource_uri (prefixed : list Z) : option (list Z * list Z) :=
  '(scheme, rest) ← split_once (lit "://") prefixed;
  let '(id_candidate, remainder) :=
    match split_once [ch_slash] rest with
    | Some (head, tail) => (head, tail)
    | None => (rest, [])
    end in
  if negb (is_instance_id8 id_candidate) then None
  else Some (id_candidate, scheme ++ lit "://" ++ remainder).

(** ** Lemmas on the escaping *)

(** The alphabet of backend tool names and dotted slugs. *)
Definition name_char (c : Z) : bool :=
  is_ascii_alphanumeric c || (c =? ch_underscore)%Z || (c =? ch_dot)%Z || (c =? ch_dash)%Z.

Definition safe_char (c : Z) : bool := is_ascii_alphanumeric c || (c =? ch_underscore)%Z.

Lemma name_char_ascii (c : Z) : name_char c = true -> is_ascii c = true.
Proof. unfold name_char; char_lia. Qed.

Lemma safe_char_ascii (c : Z) : safe_char c = true -> is_ascii c = true.
Proof. unfold safe_char; char_lia. Qed.

Lemma hex_upper_range (n : Z) :
  (0 <= n < 16)%Z -> in_range 48 57 (hex_upper n) || in_range 65 70 (hex_upper n) = true.
Proof. unfold hex_upper. intros. case_match; char_lia. Qed.

Lemma hex2_upper_range (b : Z) :
  (0 <= b < 256)%Z ->
  Forall (fun c => in_range 48 57 c || in_range 65 70 c = true) (hex2_upper b).
Proof. intros. repeat constructor; apply hex_upper_range; Z.div_mod_to_equations; lia. Qed.

Lemma escape_byte_safe (b : Z) :
  (0 <= b < 256)%Z -> Forall (fun c => safe_char c = true) (escape_byte b).
Proof.
  intros Hb. unfold escape_byte. repeat case_match; try (repeat constructor; done).
  - repeat constructor. unfold safe_char. by rewrite H2.
  - apply Forall_app; split; [repeat constructor|]. apply Forall_app; split; [|repeat constructor].
    eapply Forall_impl; [by apply hex2_upper_range|]. intros c. simpl. unfold safe_char. char_lia.
Qed.

Lemma escape_bytes_safe (bs : list Z) :
  Forall (fun b => (0 <= b < 256)%Z) bs ->
  Forall (fun c => safe_char c = true) (flat_map escape_byte bs).
Proof.
  induction 1 as [|b bs Hb Hbs IH]; [constructor|]. simpl.
  apply Forall_app; auto using escape_byte_safe.
Qed.

Lemma escape_safe (s : list Z) :
  valid_str s -> Forall (fun c => safe_char c = true) (escape_cursor_safe s).
Proof. intros Hs. by apply escape_bytes_safe, bytes_range. Qed.

Lemma bytes_escape (s : list Z) :
  valid_str s -> bytes (escape_cursor_safe s) = escape_cursor_safe s.
Proof.
  intros Hs. apply bytes_ascii. eapply Forall_impl; [by apply escape_safe|].
  intros c. apply safe_char_ascii.
Qed.

(** One step of the unescape loop over the escape of one byte: it gives the
    byte back when it is a name character and fails otherwise. *)
Lemma unescape_escape_byte (b : Z) (t : list Z) :
  (0 <= b < 256)%Z ->
  unescape_loop (escape_byte b ++ t) =
  if name_char b then (cons b <$> unescape_loop t) else None.
Proof.
  intros Hb. unfold escape_byte, name_char.
  destruct (Z.eqb_spec b ch_underscore) as [->|]; [done|].
  destruct (Z.eqb_spec b ch_dot) as [->|]; [done|].
  destruct (Z.eqb_spec b ch_dash) as [->|]; [done|].
  rewrite !orb_false_r.
  destruct (is_ascii_alphanumeric b) eqn:Ha; simpl.
  - rewrite (proj2 (Z.eqb_neq b ch_underscore)) by done. by rewrite Ha.
  - assert (hex_upper (b / 16) =? ch_underscore = false)%Z as ->; [|done].
    pose proof (hex_upper_range (b / 16)) as Hr.
    assert (0 <= b / 16 < 16)%Z by (Z.div_mod_to_equations; lia).
    specialize (Hr ltac:(lia)). char_lia.
Qed.

Lemma unescape_escape_bytes (bs : list Z) :
  Forall (fun b => (0 <= b < 256)%Z) bs ->
  unescape_loop (flat_map escape_byte bs) = if forallb name_char bs then Some bs else None.
Proof.
  induction 1 as [|b bs Hb Hbs IH]; [done|]. simpl.
  rewrite unescape_escape_byte, IH by done.
  destruct (name_char b); simpl; [|done]. by destruct (forallb name_char bs).
Qed.

Lemma name_str_bytes (s : list Z) :
  Forall (fun c => name_char c = true) s -> bytes s = s.
Proof. intros H. apply bytes_ascii. eapply Forall_impl; [exact H|]. intros ?; apply name_char_ascii. Qed.

Lemma name_str_byte (s : list Z) :
  Forall (fun c => name_char c = true) s -> Forall (fun b => (0 <= b < 256)%Z) s.
Proof. intros H. eapply Forall_impl; [exact H|]. intros c. unfold name_char. char_lia. Qed.

Lemma name_str_valid (s : list Z) : Forall (fun c => name_char c = true) s -> valid_str s.
Proof. intros H. eapply Forall_impl; [exact H|]. intros c. unfold name_char, valid_char. char_lia. Qed.

(** Whatever the loop accepts is the escape of its answer. *)
Lemma unescape_loop_sound (n : nat) (bs t : list Z) :
  length bs < n -> unescape_loop bs = Some t ->
  bs = flat_map escape_byte t /\ Forall (fun c => name_char c = true) t.
Proof.
  revert bs t; induction n as [|n IH]; [lia|]; intros [|b rest] t Hn; simpl.
  { intros [= <-]. by split. }
  destruct (Z.eqb_spec b ch_underscore) as [->|Hb].
  - destruct rest as [|c1 [|c2 r]]; [done|done|].
    destruct (Z.eqb_spec c2 ch_underscore) as [->|]; [|done]. simpl in *.
    repeat match goal with
    | |- context [(c1 =? ?k)%Z] => destruct (Z.eqb_spec c1 k) as [->|]
    end.
    4: { destruct r as [|c3 [|c4 r]]; [done..|]. by destruct (c4 =? ch_underscore)%Z. }
    4: done.
    all: destruct (unescape_loop r) as [t'|] eqn:E; simpl; [|done]; intros [= <-];
      (apply IH in E as [-> Ht]; [|lia]); by split; [|constructor].
  - destruct (is_ascii_alphanumeric b) eqn:Ha; [|done].
    destruct (unescape_loop rest) as [t'|] eqn:E; simpl; [|done]. intros [= <-].
    apply IH in E as [-> Ht]; [|simpl in Hn; lia]. split.
    + simpl. unfold escape_byte. rewrite (proj2 (Z.eqb_neq b ch_underscore)) by done.
      rewrite Ha. assert ((b =? ch_dot)%Z = false /\ (b =? ch_dash)%Z = false) as [-> ->]; [|done].
      char_lia.
    + constructor; [|done]. unfold name_char. by rewrite Ha.
Qed.

Lemma mem_str_false (s : list Z) (l : list (list Z)) :
  Forall (fun x => x <> s) l -> mem_str s l = false.
Proof.
  intros H. apply bool_decide_eq_false. intros Hin.
  by apply (proj1 (Forall_forall _ _) H _ Hin).
Qed.

(** A name with the cursor-safe prefix is never a gateway-local tool. *)
Lemma prefixed_not_local (s : list Z) : is_local_tool (CURSOR_SAFE_PREFIX ++ s) = false.
Proof. apply mem_str_false. repeat constructor; intros [=]. Qed.

(** ** Lemmas on bare names *)

(** The skills counted for one bare name, in registration order. *)
Definition eligible (inp : BareNameInput) : bool :=
  let bare := extract_bare_tool_name (skill_name inp) (action_name inp) in
  negb (bool_decide (skill_name inp = [])) &&
  negb (is_core_tool bare || contains SKILL_TOOL_SEP bare).

Definition bare_of (inp : BareNameInput) : list Z :=
  extract_bare_tool_name (skill_name inp) (action_name inp).

Definition skills_of (bare : list Z) (inputs : list BareNameInput) : list (list Z) :=
  skill_name <$> filter (fun i => eligible i = true /\ bare_of i = bare) inputs.

Definition or_none {A} (l : list A) : option (list A) :=
  match l with [] => None | _ => Some l end.

Lemma count_bare_lookup (m : gmap (list Z) (list (list Z))) inp bare :
  (forall b, m !! b <> Some []) ->
  count_bare m inp !! bare = or_none (default [] (m !! bare) ++ skills_of bare [inp]) /\
  (forall b, count_bare m inp !! b <> Some []).
Proof.
  intros Hne.
  assert (Hm : or_none (default [] (m !! bare)) = m !! bare).
  { specialize (Hne bare). destruct (m !! bare) as [[|]|]; done. }
  assert (Hskip : eligible inp = false ->
    or_none (default [] (m !! bare) ++ skills_of bare [inp]) = m !! bare).
  { intros He. unfold skills_of. rewrite filter_cons, decide_False by (rewrite He; naive_solver).
    rewrite filter_nil. simpl. by rewrite app_nil_r. }
  unfold count_bare. unfold eligible in Hskip.
  destruct (skill_name inp) as [|c sk] eqn:Esk; [by rewrite Hskip|].
  rewrite <- Esk in *. fold (bare_of inp) in *.
  destruct (is_core_tool (bare_of inp) || contains SKILL_TOOL_SEP (bare_of inp)) eqn:Ec.
  { rewrite Hskip; [done|]. by rewrite andb_false_r. }
  assert (He : eligible inp = true).
  { unfold eligible. fold (bare_of inp). rewrite Ec, bool_decide_eq_false_2 by (by rewrite Esk). done. }
  split.
  - unfold skills_of. rewrite filter_cons.
    destruct (decide (bare_of inp = bare)) as [<-|Hb].
    + rewrite lookup_insert_eq, decide_True by done. simpl.
      by destruct (default [] (m !! bare_of inp)).
    + rewrite lookup_insert_ne, decide_False by naive_solver. simpl. by rewrite app_nil_r.
  - intros b. rewrite lookup_insert. case_decide; [|done].
    intros [=E]. by apply app_nil in E as [_ E].
Qed.

Lemma counts_lookup (inputs : list BareNameInput) (m : gmap (list Z) (list (list Z))) bare :
  (forall b, m !! b <> Some []) ->
  foldl count_bare m inputs !! bare = or_none (default [] (m !! bare) ++ skills_of bare inputs).
Proof.
  revert m; induction inputs as [|i inputs IH]; intros m Hne; simpl.
  - rewrite app_nil_r. specialize (Hne bare). by destruct (m !! bare) as [[|]|].
  - destruct (count_bare_lookup m i bare Hne) as [E Hne'].
    rewrite IH, E by done. f_equal.
    replace (skills_of bare (i :: inputs)) with (skills_of bare [i] ++ skills_of bare inputs).
    + rewrite app_assoc. f_equal. by destruct (default [] (m !! bare) ++ skills_of bare [i]).
    + unfold skills_of. change (i :: inputs) with ([i] ++ inputs). by rewrite filter_app, fmap_app.
Qed.

(** An input that [publish_bare] adds to the answer. *)
Definition published (counts : gmap (list Z) (list (list Z))) (i : BareNameInput) : Prop :=
  skill_name i <> [] /\
  exists skills, counts !! bare_of i = Some skills /\ bare_unique skills = true.

Lemma publish_bare_step counts out i p :
  p ∈ publish_bare counts out i <->
  p ∈ out \/ (published counts i /\ p = (skill_name i, action_name i)).
Proof.
  unfold publish_bare, published. fold (bare_of i).
  destruct (skill_name i) as [|c s]; [tauto|].
  destruct (counts !! bare_of i) as [sks|].
  2: { split; [tauto|]. by intros [?|[(_ & ? & ? & _) _]]. }
  destruct (bare_unique sks) eqn:Eu.
  - rewrite elem_of_union, elem_of_singleton. split; [|tauto].
    intros [->|?]; [right|by left]. split; [|done]. split; [done|]. by exists sks.
  - split; [tauto|]. intros [?|[(_ & ? & [= <-] & ?) _]]; [done|congruence].
Qed.

Lemma publish_bare_elem counts out inputs p :
  p ∈ foldl (publish_bare counts) out inputs <->
  p ∈ out \/ exists i, i ∈ inputs /\ published counts i /\ p = (skill_name i, action_name i).
Proof.
  revert out; induction inputs as [|i inputs IH]; intros out; simpl.
  { split; [tauto|]. intros [?|(i & Hi & _)]; [done|]. inv Hi. }
  rewrite IH, publish_bare_step. setoid_rewrite elem_of_cons. split.
  - intros [[?|[? ?]]|(j & ? & ? & ?)]; [tauto|right; exists i; tauto|right; exists j; tauto].
  - intros [?|(j & [->|?] & ? & ?)]; [tauto|tauto|right; exists j; tauto].
Qed.

Lemma bare_unique_spec (skills : list (list Z)) :
  bare_unique skills = true <-> forall a b, a ∈ skills -> b ∈ skills -> a = b.
Proof.
  unfold bare_unique. rewrite forallb_Forall, Forall_forall.
  setoid_rewrite bool_decide_eq_true. split.
  - intros H a b Ha Hb. by rewrite (H a Ha), (H b Hb).
  - intros H a Ha. apply H; [done|]. destruct skills; [inv Ha|]. simpl. left.
Qed.

Lemma elem_of_skills_of (bare sk : list Z) (inputs : list BareNameInput) :
  sk ∈ skills_of bare inputs <->
  exists i, i ∈ inputs /\ eligible i = true /\ bare_of i = bare /\ skill_name i = sk.
Proof.
  unfold skills_of. rewrite list_elem_of_fmap.
  setoid_rewrite list_elem_of_filter. naive_solver.
Qed.

Lemma eligible_skill (i : BareNameInput) : eligible i = true -> skill_name i <> [].
Proof. unfold eligible. intros [H _]%andb_true_iff. by apply negb_true_iff, bool_decide_eq_false in H. Qed.

(** Eligibility depends on the bare name once the action is skill-scoped. *)
Lemma eligible_same_bare (i j : BareNameInput) :
  bare_of i = bare_of j -> skill_name i <> [] -> eligible j = true -> eligible i = true.
Proof.
  unfold eligible. fold (bare_of i) (bare_of j). intros -> Hne [_ H]%andb_true_iff.
  by rewrite H, bool_decide_eq_false_2.
Qed.

Lemma bare_unique_elim (i : BareNameInput) (inputs : list BareNameInput) :
  i ∈ inputs -> skill_name i <> [] -> skills_of (bare_of i) inputs <> [] ->
  bare_unique (skills_of (bare_of i) inputs) = true ->
  eligible i = true /\
  forall j, j ∈ inputs -> eligible j = true -> bare_of j = bare_of i -> skill_name j = skill_name i.
Proof.
  intros Hi Hsk Hnil Hu. pose proof (proj1 (bare_unique_spec _) Hu) as Hall.
  assert (He : eligible i = true).
  { destruct (skills_of (bare_of i) inputs) as [|a l] eqn:E; [done|].
    assert (a ∈ skills_of (bare_of i) inputs) as Ha by (rewrite E; left).
    apply elem_of_skills_of in Ha as (j & _ & Hj & Hb & _). by apply (eligible_same_bare i j). }
  split; [done|]. intros j Hj Hej Hb.
  apply Hall; apply elem_of_skills_of; [by exists j|by exists i].
Qed.

(** ** Lemmas on instance prefixes and lengths *)

Lemma hex_lower_hexdigit (c : Z) :
  in_range 48 57 c || in_range 97 102 c = true -> is_ascii_hexdigit c = true.
Proof. char_lia. Qed.

Lemma hexdigit_ascii (c : Z) : is_ascii_hexdigit c = true -> is_ascii c = true.
Proof. char_lia. Qed.

(** Names grow by two bytes per escaped character. *)
Definition special_count (s : list Z) : nat :=
  length (filter (fun c => is_ascii_alphanumeric c = false) s).

Lemma length_escape (s : list Z) :
  Forall (fun c => name_char c = true) s ->
  length (escape_cursor_safe s) = length s + 2 * special_count s.
Proof.
  intros H. unfold escape_cursor_safe. rewrite name_str_bytes by done. unfold special_count.
  induction H as [|c s Hc Hs IH]; [done|]. simpl. rewrite length_app, IH.
  rewrite filter_cons. unfold escape_byte. unfold name_char in Hc.
  repeat case_match; simpl in *; try lia; try char_lia; congruence.
Qed.

Section Instance_lemmas.
Context {Uuid : Type} (simple : Uuid -> list Z).
Hypothesis simple_spec : forall id,
  length (simple id) = 32 /\ Forall (fun c => in_range 48 57 c || in_range 97 102 c = true) (simple id).

Lemma instance_short_hex (id : Uuid) :
  length (instance_short simple id) = 8 /\
  Forall (fun c => is_ascii_hexdigit c = true) (instance_short simple id).
Proof.
  destruct (simple_spec id) as [Hl Hh]. unfold instance_short. split.
  - rewrite length_take, Hl. done.
  - apply Forall_take. eapply Forall_impl; [exact Hh|]. apply hex_lower_hexdigit.
Qed.

Lemma instance_short_prefix (id : Uuid) : is_instance_prefix (instance_short simple id) = true.
Proof.
  destruct (instance_short_hex id) as [Hl Hh]. unfold is_instance_prefix.
  rewrite str_len_ascii, Hl by (eapply Forall_impl; [exact Hh|]; apply hexdigit_ascii).
  by apply forallb_Forall.
Qed.

Lemma instance_short_id8 (id : Uuid) : is_instance_id8 (instance_short simple id) = true.
Proof.
  pose proof (instance_short_prefix id) as Hp. destruct (instance_short_hex id) as [Hl Hh].
  unfold is_instance_id8. rewrite bytes_ascii; [done|].
  eapply Forall_impl; [exact Hh|]; apply hexdigit_ascii.
Qed.

(** No hexadecimal digit is [_] or [/]. *)
Lemma instance_short_ne (k : Z) (id : Uuid) :
  is_ascii_hexdigit k = false -> Forall (fun x => x <> k) (instance_short simple id).
Proof.
  intros Hk. destruct (instance_short_hex id) as [_ Hh].
  eapply Forall_impl; [exact Hh|]. intros x Hx ->. simpl in Hx. congruence.
Qed.

Lemma decode_encode_raw (id : Uuid) (e : list Z) :
  decode_tool_name (CURSOR_SAFE_PREFIX ++ instance_short simple id ++ CURSOR_SAFE_SEP ++ e) =
  (u ← unescape_cursor_safe e; Some (instance_short simple id, u)).
Proof.
  unfold decode_tool_name. rewrite prefixed_not_local, strip_prefix_app.
  unfold CURSOR_SAFE_SEP. cbn [lit].
  rewrite split_once_app by (by apply instance_short_ne).
  by rewrite instance_short_prefix.
Qed.
End Instance_lemmas.

(** ** Theorems *)

(** Unescaping the escape of any string gives the string back when every
    character is a letter, a digit, [_], [.] or [-], and fails otherwise. *)
Theorem unescape_escape (s : list Z) (Hs : valid_str s) :
  unescape_cursor_safe (escape_cursor_safe s) = if forallb name_char s then Some s else None.
Proof.
  unfold unescape_cursor_safe. rewrite bytes_escape by done. unfold escape_cursor_safe.
  rewrite unescape_escape_bytes by (by apply bytes_range).
  rewrite forallb_bytes by (done || exact name_char_ascii).
  destruct (forallb name_char s) eqn:E; [|done].
  by rewrite name_str_bytes by (by apply forallb_Forall).
Qed.

Lemma unescape_escape_witness :
  unescape_cursor_safe (escape_cursor_safe (lit "scene.get-info_2")) = Some (lit "scene.get-info_2")
  /\ unescape_cursor_safe (escape_cursor_safe (lit "a/b")) = None.
Proof.
  split.
  - rewrite (unescape_escape (lit "scene.get-info_2")) by (by apply valid_str_b). reflexivity.
  - rewrite (unescape_escape (lit "a/b")) by (by apply valid_str_b). reflexivity.
Defined.

(** A name decodes only if it is the escape of its decoding, and then the
    decoding is a string of name characters: no two cursor-safe names decode to
    the same tool and no other name decodes at all. *)
Theorem unescape_exact (s t : list Z) (Hs : valid_str s) :
  unescape_cursor_safe s = Some t <->
  s = escape_cursor_safe t /\ Forall (fun c => name_char c = true) t.
Proof.
  unfold unescape_cursor_safe. split.
  - intros H. pose proof H as H'.
    apply (unescape_loop_sound (S (length (bytes s)))) in H as [Hb Ht]; [|lia].
    split; [|done]. unfold escape_cursor_safe. rewrite name_str_bytes by done.
    rewrite <- Hb. symmetry. apply bytes_ascii.
    assert (forallb safe_char s = true) as Hsafe.
    { rewrite <- forallb_bytes by (done || exact safe_char_ascii). rewrite Hb.
      apply forallb_Forall, escape_bytes_safe. eapply Forall_impl; [exact Ht|].
      intros c. unfold name_char. char_lia. }
    apply forallb_Forall in Hsafe. eapply Forall_impl; [exact Hsafe|]. intros c; apply safe_char_ascii.
  - intros [-> Ht]. rewrite bytes_escape by (by apply name_str_valid).
    unfold escape_cursor_safe. rewrite name_str_bytes by done.
    rewrite unescape_escape_bytes by (by apply name_str_byte).
    by rewrite (proj2 (forallb_Forall _ _) Ht).
Qed.

Lemma unescape_exact_witness :
  lit "a_U_b" = escape_cursor_safe (lit "a_b") /\ Forall (fun c => name_char c = true) (lit "a_b").
Proof.
  apply (proj1 (unescape_exact (lit "a_U_b") (lit "a_b")
    (valid_str_b (lit "a_U_b") eq_refl))). reflexivity.
Defined.

(** The gateway decodes what it publishes: the instance prefix and the
    backend tool name come back unchanged. *)
Theorem decode_encode_tool_name {Uuid : Type} (simple : Uuid -> list Z)
    (simple_spec : forall id, length (simple id) = 32 /\
       Forall (fun c => in_range 48 57 c || in_range 97 102 c = true) (simple id))
    (id : Uuid) (original : list Z) (Hname : Forall (fun c => name_char c = true) original) :
  decode_tool_name (encode_tool_name_cursor_safe simple id original) =
    Some (instance_short simple id, original).
Proof.
  unfold encode_tool_name_cursor_safe. rewrite decode_encode_raw by exact simple_spec.
  unfold unescape_cursor_safe. rewrite bytes_escape by (by apply name_str_valid).
  unfold escape_cursor_safe. rewrite name_str_bytes by done.
  rewrite unescape_escape_bytes by (by apply name_str_byte).
  by rewrite (proj2 (forallb_Forall _ _) Hname).
Qed.

(** A concrete identifier space for the witnesses: every id is 32 [a]s. *)
Definition sample_simple (_ : unit) : list Z := replicate 32 97%Z.

Lemma sample_simple_spec (id : unit) :
  length (sample_simple id) = 32 /\
  Forall (fun c => in_range 48 57 c || in_range 97 102 c = true) (sample_simple id).
Proof. split; [done|]. apply Forall_replicate. done. Qed.

Lemma decode_encode_tool_name_witness :
  decode_tool_name (encode_tool_name_cursor_safe sample_simple tt (lit "create_sphere")) =
    Some (lit "aaaaaaaa", lit "create_sphere").
Proof.
  apply (decode_encode_tool_name sample_simple sample_simple_spec tt (lit "create_sphere")).
  apply forallb_Forall. reflexivity.
Defined.

(** The published name is itself a valid tool name exactly when the escaped
    name fits in the 52 characters the prefix leaves; a longer (valid) backend
    name is published as a name that clients reject. *)
Theorem encode_cursor_safe_valid_iff {Uuid : Type} (simple : Uuid -> list Z)
    (simple_spec : forall id, length (simple id) = 32 /\
       Forall (fun c => in_range 48 57 c || in_range 97 102 c = true) (simple id))
    (id : Uuid) (original : list Z) (Hname : Forall (fun c => name_char c = true) original) :
  assert_gateway_tool_name (encode_tool_name_cursor_safe simple id original) = Ok tt <->
    length original + 2 * special_count original <= 52.
Proof.
  set (e := encode_tool_name_cursor_safe simple id original).
  destruct (instance_short_hex simple simple_spec id) as [Hl Hh].
  assert (He : Forall (fun c => safe_char c = true) e).
  { unfold e, encode_tool_name_cursor_safe. repeat (apply Forall_app; split).
    - repeat constructor.
    - eapply Forall_impl; [exact Hh|]. intros c. unfold safe_char. char_lia.
    - repeat constructor.
    - by apply escape_safe, name_str_valid. }
  assert (Hlen : length e = 12 + (length original + 2 * special_count original)).
  { unfold e, encode_tool_name_cursor_safe. rewrite !length_app, Hl, length_escape by done.
    simpl. lia. }
  assert (Hstr : str_len e = length e).
  { apply str_len_ascii. eapply Forall_impl; [exact He|]. apply safe_char_ascii. }
  unfold assert_gateway_tool_name, validate_tool_name.
  destruct e as [|c e'] eqn:Ee; [simpl in Hlen; lia|]. rewrite <- Ee in *.
  rewrite Hstr, Hlen. destruct (Nat.ltb_spec MAX_TOOL_NAME_LEN
    (12 + (length original + 2 * special_count original))) as [H|H]; unfold MAX_TOOL_NAME_LEN in H.
  - split; [done|lia].
  - split; [lia|]. intros _. apply tool_name_loop_ok. eapply Forall_impl; [exact He|].
    intros x. unfold safe_char, tool_char. by intros ->.
Qed.

Lemma encode_cursor_safe_valid_iff_witness :
  validate_tool_name (replicate 60 97%Z) = Ok tt /\
  assert_gateway_tool_name (encode_tool_name_cursor_safe sample_simple tt (replicate 60 97%Z)) <> Ok tt.
Proof.
  split; [reflexivity|]. intros H.
  apply (encode_cursor_safe_valid_iff sample_simple sample_simple_spec tt) in H.
  - vm_compute in H. lia.
  - by apply Forall_replicate.
Defined.

(** A gateway resource URI decodes to its instance and to the backend URI
    with the leading slashes of its path removed. *)
Theorem decode_encode_resource_uri {Uuid : Type} (simple : Uuid -> list Z)
    (simple_spec : forall id, length (simple id) = 32 /\
       Forall (fun c => in_range 48 57 c || in_range 97 102 c = true) (simple id))
    (id : Uuid) (uri scheme rest : list Z) (Huri : split_once (lit "://") uri = Some (scheme, rest)) :
  exists enc, encode_resource_uri simple id uri = Some enc /\
    decode_resource_uri enc =
      Some (instance_short simple id, scheme ++ lit "://" ++ trim_start_char ch_slash rest).
Proof.
  unfold encode_resource_uri. rewrite Huri. eexists; split; [reflexivity|].
  unfold decode_resource_uri. rewrite (split_once_tail _ _ _ _ _ Huri).
  cbn [mbind option_bind]. change (lit "/") with [ch_slash].
  rewrite (split_once_app ch_slash [])
    by (apply instance_short_ne; [exact simple_spec|reflexivity]).
  by rewrite (instance_short_id8 simple simple_spec).
Qed.

Lemma decode_encode_resource_uri_witness :
  exists enc, encode_resource_uri sample_simple tt (lit "file:///a/b") = Some enc /\
    decode_resource_uri enc = Some (lit "aaaaaaaa", lit "file://a/b").
Proof.
  exact (decode_encode_resource_uri sample_simple sample_simple_spec tt
           (lit "file:///a/b") (lit "file") (lit "/a/b") eq_refl).
Defined.

(** A skill's action is published bare exactly when its bare name is neither
    reserved nor qualified and every action with that bare name belongs to the
    same skill. *)
Theorem resolve_bare_names_spec (inputs : list BareNameInput) (sk act : list Z) :
  (sk, act) ∈ resolve_bare_names inputs <->
  exists i, i ∈ inputs /\ skill_name i = sk /\ action_name i = act /\ eligible i = true /\
    forall j, j ∈ inputs -> eligible j = true -> bare_of j = bare_of i -> skill_name j = sk.
Proof.
  unfold resolve_bare_names. rewrite publish_bare_elem. unfold published.
  assert (Hc : forall b, foldl count_bare ∅ inputs !! b = or_none (skills_of b inputs)).
  { intros b. rewrite counts_lookup by (intros ?; by rewrite lookup_empty).
    by rewrite lookup_empty. }
  split.
  - intros [H|(i & Hi & [Hne (skills & Hs & Hu)] & [= -> ->])]; [by apply not_elem_of_empty in H|].
    exists i. rewrite Hc in Hs.
    assert (skills = skills_of (bare_of i) inputs /\ skills <> []) as [-> Hnil].
    { by destruct (skills_of (bare_of i) inputs); simplify_eq/=. }
    apply bare_unique_elim with (i := i) in Hu as [He Hall]; [|done..].
    split; [done|]. split; [done|]. split; [done|]. by split.
  - intros (i & Hi & <- & <- & He & Hall). right. exists i. split; [done|]. split; [|done].
    split; [by apply eligible_skill|].
    exists (skills_of (bare_of i) inputs). rewrite Hc. split.
    + assert (skill_name i ∈ skills_of (bare_of i) inputs) as Hin
        by (apply elem_of_skills_of; by exists i).
      destruct (skills_of (bare_of i) inputs); [inv Hin|done].
    + apply bare_unique_spec.
      intros a b (ja & ? & ? & ? & <-)%elem_of_skills_of (jb & ? & ? & ? & <-)%elem_of_skills_of.
      by rewrite (Hall ja), (Hall jb).
Qed.
