(* ===== verification/CancelToken.v ===== *)
(** Interface: cooperative cancellation tokens.

    The job tracker uses [tokio_util::sync::CancellationToken], which is not part
    of the repository.  [CancelTokens] is what the code relies on, with the store
    of allocated tokens passed explicitly; [CancelTokenLaws] is the documented
    behaviour: a child of a cancelled token is cancelled, and cancelling a token
    cancels exactly it and its descendants.  [Forest] is a concrete store that
    satisfies the laws, used wherever a closed instance is needed. *)

From S2P Require Import Prelude.

(** ** The interface *)

Class CancelTokens (T K : Type) : Type := {
  tok_new : K -> T * K;
  tok_child : T -> K -> T * K;
  tok_cancel : T -> K -> K;
  tok_cancelled : T -> K -> bool;
  tok_live : T -> K -> Prop;
  (** [tok_below k t u]: [u] is [t] or one of its descendants. *)
  tok_below : K -> T -> T -> Prop;
}.

Class CancelTokenLaws (T K : Type) `{CT : CancelTokens T K} : Prop := {
  tok_below_refl : forall k t, tok_live t k -> tok_below k t t;
  tok_below_trans : forall k t u v, tok_below k t u -> tok_below k u v -> tok_below k t v;
  tok_cancelled_below : forall k t u,
    tok_below k t u -> tok_cancelled t k = true -> tok_cancelled u k = true;
  tok_new_spec : forall k t k', tok_new k = (t, k') ->
    ~ tok_live t k /\ tok_live t k' /\ tok_cancelled t k' = false;
  tok_new_frame : forall k t k' u, tok_new k = (t, k') -> tok_live u k ->
    tok_live u k' /\ tok_cancelled u k' = tok_cancelled u k /\
    (forall v, tok_below k' v u <-> tok_below k v u);
  tok_child_spec : forall k p t k', tok_child p k = (t, k') -> tok_live p k ->
    ~ tok_live t k /\ tok_live t k' /\ tok_cancelled t k' = tok_cancelled p k /\ tok_below k' p t;
  tok_child_frame : forall k p t k' u, tok_child p k = (t, k') -> tok_live u k ->
    tok_live u k' /\ tok_cancelled u k' = tok_cancelled u k /\
    (forall v, tok_below k' v u <-> tok_below k v u);
  tok_cancel_spec : forall k t u, tok_live t k -> tok_live u k ->
    (tok_cancelled u (tok_cancel t k) = true <-> tok_cancelled u k = true \/ tok_below k t u);
  tok_cancel_frame : forall k t u, tok_live u k ->
    tok_live u (tok_cancel t k) /\ (forall v, tok_below (tok_cancel t k) v u <-> tok_below k v u);
}.

(** ** A concrete store *)

Module Forest.

(** Token [i] is the [i]-th node: the tokens it descends from (itself first)
    and whether it is cancelled. *)
Record node : Type := { ancestors : list nat; flag : bool }.
Abbreviation store := (list node).

Definition new (k : store) : nat * store :=
  (length k, k ++ [{| ancestors := [length k]; flag := false |}]).

Definition child (p : nat) (k : store) : nat * store :=
  match k !! p with
  | Some n =>
      (length k, k ++ [{| ancestors := length k :: ancestors n; flag := flag n |}])
  | None => new k
  end.

Definition cancel (t : nat) (k : store) : store :=
  (fun n => if bool_decide (t ∈ ancestors n)
            then {| ancestors := ancestors n; flag := true |} else n) <$> k.

Definition cancelled (t : nat) (k : store) : bool :=
  match k !! t with Some n => flag n | None => false end.

Definition live (t : nat) (k : store) : Prop := t < length k.

Definition below (k : store) (t u : nat) : Prop :=
  exists n, k !! u = Some n /\ t ∈ ancestors n.

(** Nodes list themselves, only earlier nodes, the ancestors of their
    ancestors, and are cancelled with any ancestor. *)
Definition wf_node (k : store) (i : nat) (n : node) : Prop :=
  i ∈ ancestors n /\
  forall a, a ∈ ancestors n -> a <= i /\
    exists m, k !! a = Some m /\ ancestors m ⊆ ancestors n /\ (flag m = true -> flag n = true).

Definition wf (k : store) : Prop := forall i n, k !! i = Some n -> wf_node k i n.

Definition wstore : Type := { k : store | wf k }.

Lemma lookup_app_old (k : store) (x : node) (i : nat) : i < length k -> (k ++ [x]) !! i = k !! i.
Proof. intros. by rewrite lookup_app_l. Qed.

Lemma lookup_app_new (k : store) (x : node) : (k ++ [x]) !! length k = Some x.
Proof. by rewrite lookup_app_r, Nat.sub_diag. Qed.

Lemma wf_node_app (k : store) (x : node) (i : nat) (n : node) :
  i < length k -> wf_node k i n -> wf_node (k ++ [x]) i n.
Proof.
  intros Hi [Hs Ha]. split; [done|]. intros a Hin. destruct (Ha a Hin) as (Hle & m & Hm & ?).
  split; [done|]. exists m. by rewrite lookup_app_old by lia.
Qed.

Lemma wf_snoc (k : store) (x : node) :
  wf k -> wf_node (k ++ [x]) (length k) x -> wf (k ++ [x]).
Proof.
  intros Hk Hx i n Hi. destruct (decide (i < length k)).
  - rewrite lookup_app_old in Hi by done. by apply wf_node_app, Hk.
  - assert (i = length k) as ->.
    { apply lookup_lt_Some in Hi. rewrite length_app in Hi. simpl in Hi. lia. }
    rewrite lookup_app_new in Hi. by simplify_eq.
Qed.

Lemma new_wf (k : store) : wf k -> wf (new k).2.
Proof.
  intros Hk. apply wf_snoc; [done|]. split; simpl; [left|].
  intros a ->%list_elem_of_singleton. split; [lia|].
  eexists. rewrite lookup_app_new. repeat split; by simpl.
Qed.

Lemma child_wf (p : nat) (k : store) : wf k -> wf (child p k).2.
Proof.
  intros Hk. unfold child. destruct (k !! p) as [n|] eqn:Hp; [|by apply new_wf].
  apply wf_snoc; [done|]. split; simpl; [left|].
  intros a [->|Ha]%elem_of_cons.
  - split; [lia|]. eexists. rewrite lookup_app_new. repeat split; by simpl.
  - destruct (Hk p n Hp) as [_ Han]. destruct (Han a Ha) as (Hle & m & Hm & Hsub & Hf).
    apply lookup_lt_Some in Hp as Hlt. split; [lia|].
    exists m. rewrite lookup_app_old by (apply lookup_lt_Some in Hm; done).
    split; [done|]. split; [set_solver|done].
Qed.

Lemma cancel_lookup (t : nat) (k : store) (i : nat) :
  cancel t k !! i = (fun n => if bool_decide (t ∈ ancestors n)
    then {| ancestors := ancestors n; flag := true |} else n) <$> k !! i.
Proof. apply list_lookup_fmap. Qed.

Lemma cancel_wf (t : nat) (k : store) : wf k -> wf (cancel t k).
Proof.
  intros Hk i n'. rewrite cancel_lookup, fmap_Some. intros (n & Hn & ->).
  destruct (Hk i n Hn) as [Hs Ha].
  assert (Heq : forall m, ancestors (if bool_decide (t ∈ ancestors m)
    then {| ancestors := ancestors m; flag := true |} else m) = ancestors m)
    by (intros m; by case_bool_decide).
  split; rewrite Heq; [done|]. intros a Hin. destruct (Ha a Hin) as (Hle & m & Hm & Hsub & Hf).
  split; [done|]. eexists. rewrite cancel_lookup, Hm. split; [done|]. rewrite !Heq.
  split; [done|]. destruct (bool_decide_reflect (t ∈ ancestors m)); simpl.
  - intros _. rewrite bool_decide_eq_true_2 by set_solver. done.
  - intros ?. case_bool_decide; auto.
Qed.

#[export] Instance tokens : CancelTokens nat wstore := {|
  tok_new k := ((new (`k)).1, exist _ (new (`k)).2 (new_wf _ (proj2_sig k)));
  tok_child p k := ((child p (`k)).1, exist _ (child p (`k)).2 (child_wf p _ (proj2_sig k)));
  tok_cancel t k := exist _ (cancel t (`k)) (cancel_wf t _ (proj2_sig k));
  tok_cancelled t k := cancelled t (`k);
  tok_live t k := live t (`k);
  tok_below k t u := below (`k) t u;
|}.

Lemma empty_wf : wf [].
Proof. intros i n Hi. discriminate Hi. Qed.

Definition empty : wstore := exist _ [] empty_wf.

Lemma snoc_frame (k : store) (x : node) (u : nat) :
  live u k ->
  live u (k ++ [x]) /\ cancelled u (k ++ [x]) = cancelled u k /\
  (forall v, below (k ++ [x]) v u <-> below k v u).
Proof.
  unfold live, cancelled, below. intros Hu. rewrite length_app, lookup_app_old by done.
  split; [lia|]. done.
Qed.

#[export] Instance laws : CancelTokenLaws nat wstore.
Proof.
  constructor; simpl.
  - intros [k Hk] t Ht; simpl in *. apply lookup_lt_is_Some in Ht as [n Hn].
    exists n. split; [done|]. by apply (Hk t n).
  - intros [k Hk] t u v (n & Hn & Ht) (m & Hm & Hu); simpl in *. exists m. split; [done|].
    destruct (Hk v m Hm) as [_ Ha]. destruct (Ha u Hu) as (_ & n' & Hn' & Hsub & _).
    simplify_eq. by apply Hsub.
  - intros [k Hk] t u (n & Hn & Ht) Hc; simpl in *. unfold cancelled in *. rewrite Hn.
    destruct (Hk u n Hn) as [_ Ha]. destruct (Ha t Ht) as (_ & m & Hm & _ & Hf).
    rewrite Hm in Hc. auto.
  - intros [k Hk] t k' [= <- <-]; simpl. unfold live, cancelled.
    rewrite length_app, lookup_app_new. simpl. split; [lia|]. split; [lia|done].
  - intros [k Hk] t k' u [= <- <-] Hu; simpl in *. by apply snoc_frame.
  - intros [k Hk] p t k' [= <- <-] Hp; simpl in *. unfold child.
    apply lookup_lt_is_Some in Hp as [n Hn]. rewrite Hn. simpl. unfold live, cancelled, below.
    rewrite length_app, lookup_app_new, Hn. simpl. split; [lia|]. split; [lia|]. split; [done|].
    eexists. split; [done|]. simpl. right. by apply (Hk p n).
  - intros [k Hk] p t k' u [= <- <-] Hu; simpl in *. unfold child.
    destruct (k !! p); by apply snoc_frame.
  - intros [k Hk] t u Ht Hu; simpl in *. unfold cancelled, below.
    apply lookup_lt_is_Some in Hu as [n Hn]. rewrite cancel_lookup, Hn. simpl.
    case_bool_decide; simpl; split.
    + intros _. right. by exists n.
    + done.
    + by left.
    + intros [?|(n' & [= ->] & ?)]; done.
  - intros [k Hk] t u Hu; simpl in *. unfold live, below. rewrite cancel_lookup.
    unfold cancel. rewrite length_fmap. split; [done|]. intros v. split.
    + intros (n' & (n & Hn & ->)%fmap_Some & Hv). exists n. split; [done|]. by case_bool_decide.
    + intros (n & Hn & Hv). eexists. rewrite Hn. split; [done|]. by case_bool_decide.
Qed.

End Forest.

#[export] Existing Instances Forest.tokens Forest.laws.
