(* ===== verification/JobTypes.v ===== *)
(** Component: the data of the job tracker ([crates/dcc-mcp-job/src/job/types.rs]).

    Timestamps are UTC instants in nanoseconds; [Value] is [serde_json::Value]
    and [T] the cancellation-token type, both opaque here. *)

From S2P Require Import Prelude.

(** ** Lifecycle *)

Inductive JobStatus : Type :=
| Pending | Running | Completed | Failed | Cancelled | Interrupted.

#[export] Instance JobStatus_eq_dec : EqDecision JobStatus.
Proof. solve_decision. Defined.

Definition is_terminal (s : JobStatus) : bool :=
  match s with
  | Completed | Failed | Cancelled | Interrupted => true
  | Pending | Running => false
  end.

Record JobProgress : Type := { current : Z; total : Z; message : option string }.

Record JobOutputTarget : Type := { out_dir : string; out_extensions : list string }.

(** ** Jobs and events *)

Record Job (T Value : Type) : Type := mkJob {
  id : string;
  tool_name : string;
  status : JobStatus;
  parent_job_id : option string;
  progress : option JobProgress;
  output : option JobOutputTarget;
  job_result : option Value;
  job_error : option string;
  created_at : Z;
  started_at : option Z;
  completed_at : option Z;
  updated_at : Z;
  cancel_token : T;
}.
Arguments mkJob {T Value}.
Arguments id {T Value}.
Arguments tool_name {T Value}.
Arguments status {T Value}.
Arguments parent_job_id {T Value}.
Arguments progress {T Value}.
Arguments output {T Value}.
Arguments job_result {T Value}.
Arguments job_error {T Value}.
Arguments created_at {T Value}.
Arguments started_at {T Value}.
Arguments completed_at {T Value}.
Arguments updated_at {T Value}.
Arguments cancel_token {T Value}.

(** A snapshot of the job after a transition, for the subscribers. *)
Record JobEvent : Type := {
  ev_id : string;
  ev_tool_name : string;
  ev_status : JobStatus;
  ev_progress : option JobProgress;
  ev_error : option string;
  ev_updated_at : Z;
  ev_created_at : Z;
  ev_started_at : option Z;
  ev_completed_at : option Z;
}.

Section Job_ops.
Context {T Value : Type}.

(** [Job::new]: the identifier is the fresh [Uuid], [now] is [Utc::now()]. *)
Definition Job_new (fresh_id tool : string) (parent : option string) (token : T) (now : Z)
    : Job T Value := {|
  id := fresh_id;
  tool_name := tool;
  status := Pending;
  parent_job_id := parent;
  progress := None;
  output := None;
  job_result := None;
  job_error := None;
  created_at := now;
  started_at := None;
  completed_at := None;
  updated_at := now;
  cancel_token := token;
|}.

(** [TimeDelta::num_milliseconds] truncates towards zero. *)
Definition duration_ms (j : Job T Value) : option Z :=
  started ← started_at j;
  let end_ := default (updated_at j) (completed_at j) in
  Some (Z.max (Z.quot (end_ - started) 1000000) 0).

Definition event_of (j : Job T Value) : JobEvent := {|
  ev_id := id j;
  ev_tool_name := tool_name j;
  ev_status := status j;
  ev_progress := progress j;
  ev_error := job_error j;
  ev_updated_at := updated_at j;
  ev_created_at := created_at j;
  ev_started_at := started_at j;
  ev_completed_at := completed_at j;
|}.

(** Field updates. *)
Definition set_output_field (o : option JobOutputTarget) (j : Job T Value) : Job T Value :=
  mkJob (id j) (tool_name j) (status j) (parent_job_id j) (progress j) o (job_result j)
    (job_error j) (created_at j) (started_at j) (completed_at j) (updated_at j) (cancel_token j).

Definition set_running (now : Z) (j : Job T Value) : Job T Value :=
  mkJob (id j) (tool_name j) Running (parent_job_id j) (progress j) (output j) (job_result j)
    (job_error j) (created_at j) (Some now) (completed_at j) now (cancel_token j).

Definition set_completed (v : Value) (now : Z) (j : Job T Value) : Job T Value :=
  mkJob (id j) (tool_name j) Completed (parent_job_id j) (progress j) (output j) (Some v)
    (job_error j) (created_at j) (started_at j) (Some now) now (cancel_token j).

Definition set_failed (e : string) (now : Z) (j : Job T Value) : Job T Value :=
  mkJob (id j) (tool_name j) Failed (parent_job_id j) (progress j) (output j) (job_result j)
    (Some e) (created_at j) (started_at j) (Some now) now (cancel_token j).

Definition set_cancelled (now : Z) (j : Job T Value) : Job T Value :=
  mkJob (id j) (tool_name j) Cancelled (parent_job_id j) (progress j) (output j) (job_result j)
    (job_error j) (created_at j) (started_at j) (Some now) now (cancel_token j).

Definition set_progress (p : JobProgress) (now : Z) (j : Job T Value) : Job T Value :=
  mkJob (id j) (tool_name j) (status j) (parent_job_id j) (Some p) (output j) (job_result j)
    (job_error j) (created_at j) (started_at j) (completed_at j) now (cancel_token j).

Definition set_interrupted (now : Z) (j : Job T Value) : Job T Value :=
  mkJob (id j) (tool_name j) Interrupted (parent_job_id j) (progress j) (output j) (job_result j)
    (Some "server restart"%string) (created_at j) (started_at j) (Some now) now (cancel_token j).

(** ** Well-formed jobs *)

(** What each status says about the optional fields, and the order of the
    timestamps; the invariant of the tracker. *)
Definition status_fields (j : Job T Value) : Prop :=
  match status j with
  | Pending => started_at j = None /\ completed_at j = None /\ job_result j = None
               /\ job_error j = None /\ progress j = None
  | Running => is_Some (started_at j) /\ completed_at j = None /\ job_result j = None
               /\ job_error j = None
  | Completed => is_Some (started_at j) /\ completed_at j = Some (updated_at j)
                 /\ is_Some (job_result j) /\ job_error j = None
  | Failed => is_Some (started_at j) /\ completed_at j = Some (updated_at j)
              /\ job_result j = None /\ is_Some (job_error j)
  | Cancelled => completed_at j = Some (updated_at j) /\ job_result j = None
                 /\ job_error j = None
  | Interrupted => completed_at j = Some (updated_at j) /\ job_error j = Some "server restart"%string
                   /\ job_result j = None
  end.

Definition progress_ok (j : Job T Value) : Prop :=
  match progress j with
  | Some p => (current p <= total p)%Z
  | None => True
  end.

Definition times_ok (j : Job T Value) : Prop :=
  (created_at j <= updated_at j)%Z /\
  match started_at j with
  | Some s => (created_at j <= s <= updated_at j)%Z
  | None => True
  end.

Definition job_wf (j : Job T Value) : Prop := status_fields j /\ progress_ok j /\ times_ok j.

Lemma job_new_wf fresh tool parent token now :
  job_wf (Job_new fresh tool parent token now).
Proof. unfold job_wf, status_fields, progress_ok, times_ok; simpl. repeat split; done || lia. Qed.

(** A well-formed terminal job's duration is the rounded-down time between its
    start and its completion. *)
Lemma duration_terminal (j : Job T Value) (s c : Z) :
  job_wf j -> started_at j = Some s -> completed_at j = Some c -> (s <= c)%Z ->
  exists d, duration_ms j = Some d /\ (d * 1000000 <= c - s < (d + 1) * 1000000)%Z.
Proof.
  intros _ Hs Hc Hle. unfold duration_ms. rewrite Hs, Hc. simpl. eexists. split; [done|].
  rewrite Z.quot_div_nonneg by lia. Z.div_mod_to_equations. lia.
Qed.

End Job_ops.

#[export] Hint Resolve job_new_wf : dcc.
