(* ===== verification/JobStorage.v ===== *)
(** Component: job persistence backends ([crates/dcc-mcp-job/src/job_storage/mod.rs]).

    [JobStorage] is the backend trait as a class over the backend's state [S];
    an operation may fail and still change the state.  [InMemory] is the
    repository's zero-dependency backend and the instance the theorems about the
    manager can be run on; [JobStorageLaws] is what a write-through backend
    promises, and the in-memory backend is shown to keep it. *)

From S2P Require Import Prelude CancelToken JobTypes.

(** ** Errors and filters *)

Inductive JobStorageError : Type :=
| Backend (msg : string)
| Decode (msg : string)
| FeatureDisabled.

Record JobFilter : Type := {
  f_status : option JobStatus;
  f_parent_job_id : option string;
  f_limit : option nat;
}.

Definition default_filter : JobFilter :=
  {| f_status := None; f_parent_job_id := None; f_limit := None |}.

Definition by_status (s : JobStatus) : JobFilter :=
  {| f_status := Some s; f_parent_job_id := None; f_limit := None |}.

(** ** Persisted rows *)

Record PersistedJob (Value : Type) : Type := mkRow {
  p_id : string;
  p_parent_job_id : option string;
  p_tool_name : string;
  p_status : JobStatus;
  p_progress : option JobProgress;
  p_result : option Value;
  p_error : option string;
  p_created_at : Z;
  p_started_at : option Z;
  p_completed_at : option Z;
  p_updated_at : Z;
}.
Arguments mkRow {Value}.
Arguments p_id {Value}.
Arguments p_parent_job_id {Value}.
Arguments p_tool_name {Value}.
Arguments p_status {Value}.
Arguments p_progress {Value}.
Arguments p_result {Value}.
Arguments p_error {Value}.
Arguments p_created_at {Value}.
Arguments p_started_at {Value}.
Arguments p_completed_at {Value}.
Arguments p_updated_at {Value}.

Section Rows.
Context {T K Value : Type} `{CT : CancelTokens T K}.

Definition from_job (j : Job T Value) : PersistedJob Value := {|
  p_id := id j;
  p_parent_job_id := parent_job_id j;
  p_tool_name := tool_name j;
  p_status := status j;
  p_progress := progress j;
  p_result := job_result j;
  p_error := job_error j;
  p_created_at := created_at j;
  p_started_at := started_at j;
  p_completed_at := completed_at j;
  p_updated_at := updated_at j;
|}.

(** A rehydrated job gets a fresh token, already cancelled on a terminal row. *)
Definition to_job (r : PersistedJob Value) (k : K) : Job T Value * K :=
  let (tok, k1) := tok_new k in
  let k2 := if is_terminal (p_status r) then tok_cancel tok k1 else k1 in
  ({| id := p_id r;
      tool_name := p_tool_name r;
      status := p_status r;
      parent_job_id := p_parent_job_id r;
      progress := p_progress r;
      output := None;
      job_result := p_result r;
      job_error := p_error r;
      created_at := p_created_at r;
      started_at := p_started_at r;
      completed_at := p_completed_at r;
      updated_at := p_updated_at r;
      cancel_token := tok |}, k2).

(** [to_job] over a list of rows, threading the token store. *)
Fixpoint to_jobs (rs : list (PersistedJob Value)) (k : K) : list (Job T Value) * K :=
  match rs with
  | [] => ([], k)
  | r :: rs' =>
      let (j, k1) := to_job r k in
      let (js, k2) := to_jobs rs' k1 in
      (j :: js, k2)
  end.

End Rows.

(** ** The backend trait *)

Class JobStorage (T K Value S : Type) : Type := {
  st_put : Job T Value -> S -> S * result JobStorageError unit;
  st_get : string -> S -> K -> result JobStorageError (option (Job T Value) * K);
  st_list : JobFilter -> S -> K -> result JobStorageError (list (Job T Value) * K);
  st_update_status : string -> JobStatus -> Z -> S -> S * result JobStorageError unit;
  st_delete_older_than : Z -> S -> S * result JobStorageError Z;
  (** [shutdown_with_timeout] and [force_close]: whether ownership was released. *)
  st_shutdown_with_timeout : S -> S * bool;
  st_force_close : S -> S * bool;
  (** The rows the backend holds, for stating its contract. *)
  st_rows : S -> gmap string (PersistedJob Value);
}.

(** Which rows a retention pass deletes. *)
Definition row_stale {Value : Type} (cutoff : Z) (r : PersistedJob Value) : bool :=
  is_terminal (p_status r) && (p_updated_at r <? cutoff)%Z.

(** The write-through contract: a successful operation has its effect on the
    rows, a failed one leaves them alone. *)
Class JobStorageLaws (T K Value S : Type) `{JS : JobStorage T K Value S} : Prop := {
  st_put_ok : forall j s s', st_put j s = (s', Ok tt) ->
    st_rows s' = <[id j := from_job j]> (st_rows s);
  st_put_err : forall j s s' e, st_put j s = (s', Err e) -> st_rows s' = st_rows s;
  st_delete_ok : forall c s s' n, st_delete_older_than c s = (s', Ok n) ->
    st_rows s' = filter (fun kv => row_stale c kv.2 = false) (st_rows s);
  st_delete_err : forall c s s' e, st_delete_older_than c s = (s', Err e) -> st_rows s' = st_rows s;
}.

(** ** The in-memory backend *)

Section InMemory.
Context {T K Value : Type} `{CT : CancelTokens T K}.

(** [rows: Mutex<HashMap<String, PersistedJob>>]. *)
Record InMemoryStorage : Type := { rows : gmap string (PersistedJob Value) }.

Definition mem_put (j : Job T Value) (s : InMemoryStorage)
    : InMemoryStorage * result JobStorageError unit :=
  ({| rows := <[id j := from_job j]> (rows s) |}, Ok tt).

Definition mem_get (job_id : string) (s : InMemoryStorage) (k : K)
    : result JobStorageError (option (Job T Value) * K) :=
  match rows s !! job_id with
  | Some r => let (j, k') := to_job r k in Ok (Some j, k')
  | None => Ok (None, k)
  end.

Definition filter_row (f : JobFilter) (r : PersistedJob Value) : bool :=
  match f_status f with Some s => bool_decide (p_status r = s) | None => true end &&
  match f_parent_job_id f with
  | Some p => bool_decide (p_parent_job_id r = Some p)
  | None => true
  end.

Definition mem_list (f : JobFilter) (s : InMemoryStorage) (k : K)
    : result JobStorageError (list (Job T Value) * K) :=
  let out := filter (fun r => filter_row f r = true) (map_to_list (rows s)).*2 in
  let (js, k') := to_jobs out k in
  Ok (match f_limit f with Some n => take n js | None => js end, k').

Definition mem_update_row (st : JobStatus) (at_ : Z) (r : PersistedJob Value) : PersistedJob Value :=
  mkRow (p_id r) (p_parent_job_id r) (p_tool_name r) st (p_progress r) (p_result r) (p_error r)
    (p_created_at r)
    (if bool_decide (st = Running) && bool_decide (p_started_at r = None) then Some at_
     else p_started_at r)
    (if is_terminal st then Some at_ else p_completed_at r)
    at_.

Definition mem_update_status (job_id : string) (st : JobStatus) (at_ : Z) (s : InMemoryStorage)
    : InMemoryStorage * result JobStorageError unit :=
  ({| rows := alter (mem_update_row st at_) job_id (rows s) |}, Ok tt).

(** [rows.retain(..)] counting what it drops. *)
Definition mem_delete_older_than (cutoff : Z) (s : InMemoryStorage)
    : InMemoryStorage * result JobStorageError Z :=
  let kept := filter (fun kv => row_stale cutoff kv.2 = false) (rows s) in
  ({| rows := kept |}, Ok (Z.of_nat (size (rows s) - size kept))).

#[export] Instance InMemory_storage : JobStorage T K Value InMemoryStorage := {|
  st_put := mem_put;
  st_get := mem_get;
  st_list := mem_list;
  st_update_status := mem_update_status;
  st_delete_older_than := mem_delete_older_than;
  st_shutdown_with_timeout s := (s, true);
  st_force_close s := (s, false);
  st_rows := rows;
|}.

#[export] Instance InMemory_laws : JobStorageLaws T K Value InMemoryStorage.
Proof.
  constructor; simpl.
  - intros j s s' [= <-]. done.
  - intros j s s' e [=].
  - intros c s s' n [= <- _]. done.
  - intros c s s' e [=].
Qed.

Lemma from_to_job (r : PersistedJob Value) (k : K) : from_job (to_job r k).1 = r.
Proof. unfold to_job. destruct (tok_new k). by destruct r. Qed.

Lemma map_from_to_jobs (rs : list (PersistedJob Value)) (k : K) :
  map from_job (to_jobs rs k).1 = rs.
Proof.
  revert k; induction rs as [|r rs IH]; intros k; [done|]. simpl.
  pose proof (from_to_job r k) as E. destruct (to_job r k) as [j k1].
  specialize (IH k1). destruct (to_jobs rs k1) as [js k2]. simpl in *. congruence.
Qed.

End InMemory.
Arguments InMemoryStorage : clear implicits.
