(* ===== verification/JobPersistence.v ===== *)
(** Component: the persistence worker and its circuit breaker
    ([crates/dcc-mcp-job/src/job/persistence.rs]).

    [PersistenceCircuit] latches persistence off after three consecutive
    identical write failures.  The worker owns the backend and executes the
    commands of a bounded queue in order; clients either wait for their command
    ([wait_for_completion]) or only enqueue it.  Timeouts and channel deadlines
    are explicit boolean inputs: [true] when the wait ended before the worker did. *)

From S2P Require Import Prelude CancelToken JobTypes JobStorage.

Definition PERSISTENCE_FAILURE_THRESHOLD : Z := 3.
Definition PERSISTENCE_QUEUE_CAPACITY : nat := 64.

(** ** Health *)

Inductive JobPersistenceState : Type := NotConfigured | Healthy | Degraded | Disabled.

#[export] Instance JobPersistenceState_eq_dec : EqDecision JobPersistenceState.
Proof. solve_decision. Defined.

Record JobPersistenceStatus : Type := {
  ps_state : JobPersistenceState;
  ps_consecutive_failures : Z;
  ps_last_error_kind : option string;
}.

Record PersistenceCircuit : Type := mkCircuit {
  configured : bool;
  disabled : bool;
  consecutive_failures : Z;
  last_error : option string;
  last_error_kind : option string;
}.

Definition circuit_default : PersistenceCircuit := mkCircuit false false 0 None None.
Definition circuit_configured : PersistenceCircuit := mkCircuit true false 0 None None.

(** [JobStorageError::to_string]. *)
Definition error_to_string (e : JobStorageError) : string :=
  match e with
  | Backend m => "job storage backend error: " ++ m
  | Decode m => "failed to decode persisted job: " ++ m
  | FeatureDisabled =>
      "job_storage_path is set but the `job-persist-sqlite` Cargo feature is not enabled — rebuild dcc-mcp-core with `--features job-persist-sqlite` or clear job_storage_path"
  end.

Definition backend_error_kind (message : string) : string :=
  let n := to_ascii_lowercase message in
  if string_contains "readonly" n || string_contains "read-only" n
     || string_contains "sqlite_readonly" n then "readonly"
  else if string_contains "wal" n || string_contains "-shm" n
     || string_contains "-wal" n || string_contains "journal" n then "wal"
  else if string_contains "busy" n || string_contains "locked" n
     || string_contains "lock" n then "busy"
  else if string_contains "disk full" n || string_contains "database or disk is full" n
  then "disk_full"
  else "backend".

Definition error_kind (e : JobStorageError) : string :=
  match e with
  | Backend m => backend_error_kind m
  | Decode _ => "decode"
  | FeatureDisabled => "feature_disabled"
  end.

Definition can_write (c : PersistenceCircuit) : bool := configured c && negb (disabled c).

Definition record_success (c : PersistenceCircuit) : PersistenceCircuit * bool :=
  (mkCircuit (configured c) (disabled c) 0 None None, (0 <? consecutive_failures c)%Z).

Definition record_failure (e : JobStorageError) (c : PersistenceCircuit)
    : PersistenceCircuit * bool :=
  let fingerprint := error_to_string e in
  let same := bool_decide (last_error c = Some fingerprint) in
  let failures := if same then sat_add u32_max (consecutive_failures c) 1 else 1%Z in
  let latch := (PERSISTENCE_FAILURE_THRESHOLD <=? failures)%Z in
  (mkCircuit (configured c) (disabled c || latch) failures
     (if same then last_error c else Some fingerprint) (Some (error_kind e)), latch).

Definition disable (kind : string) (c : PersistenceCircuit) : PersistenceCircuit * bool :=
  (mkCircuit (configured c) true 0 None (Some kind), negb (disabled c)).

Definition can_retry_retention (c : PersistenceCircuit) : bool :=
  configured c && disabled c && bool_decide (last_error_kind c = Some "retention_prune_failed").

Definition record_retention_success (c : PersistenceCircuit) : PersistenceCircuit * bool :=
  if can_retry_retention c then (mkCircuit (configured c) false 0 None None, true)
  else (c, false).

Definition circuit_status (c : PersistenceCircuit) : JobPersistenceStatus := {|
  ps_state :=
    if negb (configured c) then NotConfigured
    else if disabled c then Disabled
    else if (0 <? consecutive_failures c)%Z then Degraded
    else Healthy;
  ps_consecutive_failures := consecutive_failures c;
  ps_last_error_kind := last_error_kind c;
|}.

(** ** The worker *)

Section Worker.
Context {T K Value S : Type} `{CT : CancelTokens T K} `{JS : !JobStorage T K Value S}.

Inductive PersistenceCommand : Type :=
| CPut (j : Job T Value)
| CDeleteOlderThan (cutoff : Z)
| CShutdown.

(** [persist_one]: the whole [can_write -> put -> record] transaction. *)
Definition persist_one (j : Job T Value) (c : PersistenceCircuit) (s : S)
    : PersistenceCircuit * S :=
  if negb (can_write c) then (c, s)
  else
    let (s', r) := st_put j s in
    if negb (can_write c) then (c, s')
    else
      match r with
      | Ok _ => ((record_success c).1, s')
      | Err e => ((record_failure e c).1, s')
      end.

(** The [DeleteOlderThan] arm: the boolean is what the caller is told. *)
Definition prune_one (cutoff : Z) (c : PersistenceCircuit) (s : S)
    : PersistenceCircuit * S * bool :=
  if can_write c || can_retry_retention c then
    let (s', r) := st_delete_older_than cutoff s in
    match r with
    | Ok _ => ((record_retention_success c).1, s', true)
    | Err _ => ((disable "retention_prune_failed" c).1, s', false)
    end
  else (c, s, false).

(** The worker executes a queue in order; [None] when a [Shutdown] ended it, and
    otherwise the answer to the last command. *)
Fixpoint run_worker (q : list PersistenceCommand) (answer : bool) (c : PersistenceCircuit) (s : S)
    : PersistenceCircuit * S * option bool :=
  match q with
  | [] => (c, s, Some answer)
  | CPut j :: q' => let (c', s') := persist_one j c s in run_worker q' true c' s'
  | CDeleteOlderThan cutoff :: q' =>
      let '(c', s', b) := prune_one cutoff c s in run_worker q' b c' s'
  | CShutdown :: _ => (c, s, None)
  end.

(** The writer with the state its worker shares: [sender] is false once the
    sending half is gone, [worker_alive] once the receiving half is. *)
Record Writer : Type := mkWriter {
  circuit : PersistenceCircuit;
  backend : S;
  queue : list PersistenceCommand;
  sender : bool;
  worker_alive : bool;
  closing : bool;
  wait_for_completion : bool;
}.

Definition writer_new (c : PersistenceCircuit) (s : S) (wait : bool) : Writer :=
  mkWriter c s [] true true false wait.

Definition writer_disable (kind : string) (w : Writer) : Writer :=
  mkWriter (disable kind (circuit w)).1 (backend w) (queue w) (sender w) (worker_alive w)
    (closing w) (wait_for_completion w).

(** One turn of the worker thread: the head command, if any. *)
Definition worker_turn (w : Writer) : Writer :=
  if negb (worker_alive w) then w
  else
    match queue w with
    | [] => w
    | CShutdown :: _ =>
        mkWriter (circuit w) (backend w) [] (sender w) false (closing w) (wait_for_completion w)
    | cmd :: q' =>
        let '(c, s, _) := run_worker [cmd] true (circuit w) (backend w) in
        mkWriter c s q' (sender w) true (closing w) (wait_for_completion w)
    end.

(** Wait until the worker has answered everything queued: [None] when it shut
    down first and the reply channel was dropped. *)
Definition await_worker (w : Writer) : Writer * option bool :=
  let '(c, s, r) := run_worker (queue w) true (circuit w) (backend w) in
  (mkWriter c s [] (sender w) (bool_decide (r <> None)) (closing w) (wait_for_completion w), r).

(** [SyncSender::try_send] on the bounded channel. *)
Inductive send_error : Type := Full | Disconnected.

Definition enqueue (cmd : PersistenceCommand) (w : Writer) : Writer :=
  mkWriter (circuit w) (backend w) (queue w ++ [cmd]) (sender w) (worker_alive w) (closing w)
    (wait_for_completion w).

Definition try_send (cmd : PersistenceCommand) (w : Writer) : result send_error Writer :=
  if negb (worker_alive w) then Err Disconnected
  else if (PERSISTENCE_QUEUE_CAPACITY <=? length (queue w))%nat then Err Full
  else Ok (enqueue cmd w).

(** [PersistenceWriter::put]. *)
Definition writer_put (j : Job T Value) (w : Writer) : Writer :=
  if closing w || negb (can_write (circuit w)) then w
  else if negb (sender w) then writer_disable "worker_unavailable" w
  else if wait_for_completion w then
    if negb (worker_alive w) then writer_disable "worker_unavailable" w
    else
      let (w', r) := await_worker (enqueue (CPut j) w) in
      match r with
      | Some _ => w'
      | None => writer_disable "worker_unavailable" w'
      end
  else
    match try_send (CPut j) w with
    | Ok w' => w'
    | Err Full => writer_disable "queue_full" w
    | Err Disconnected => writer_disable "worker_unavailable" w
    end.

(** [closing || !can_write && !can_retry_retention]. *)
Definition delete_refused (w : Writer) : bool :=
  closing w || (negb (can_write (circuit w)) && negb (can_retry_retention (circuit w))).

(** [PersistenceWriter::delete_older_than]. *)
Definition writer_delete_older_than (cutoff : Z) (w : Writer) : Writer * bool :=
  if delete_refused w then (w, false)
  else if negb (sender w) then (writer_disable "worker_unavailable" w, false)
  else if wait_for_completion w then
    if negb (worker_alive w) then (writer_disable "worker_unavailable" w, false)
    else
      let (w', r) := await_worker (enqueue (CDeleteOlderThan cutoff) w) in
      match r with
      | Some succeeded => (w', succeeded)
      | None => (writer_disable "worker_unavailable" w', false)
      end
  else
    match try_send (CDeleteOlderThan cutoff) w with
    | Ok w' => (w', false)
    | Err Full => (writer_disable "queue_full" w, false)
    | Err Disconnected => (writer_disable "worker_unavailable" w, false)
    end.

(** [PersistenceWriter::delete_older_than_blocking]: [timed_out] when the
    reply did not come within the caller's timeout; the command then stays queued. *)
Definition writer_delete_blocking (cutoff : Z) (timed_out : bool) (w : Writer) : Writer * bool :=
  if delete_refused w then (w, false)
  else if negb (sender w) then (writer_disable "worker_unavailable" w, false)
  else
    match try_send (CDeleteOlderThan cutoff) w with
    | Err Full => (writer_disable "queue_full" w, false)
    | Err Disconnected => (writer_disable "worker_unavailable" w, false)
    | Ok w1 =>
        if timed_out then (writer_disable "retention_prune_failed" w1, false)
        else
          let (w', r) := await_worker w1 in
          match r with
          | Some succeeded => (w', succeeded)
          | None => (writer_disable "worker_unavailable" w', false)
          end
    end.

(** [PersistenceWriter::drain]: [turns] commands are executed before the last
    attempt to queue the shutdown marker, and [finished] says whether the worker
    reaches the marker before the deadline. *)
Definition writer_drain (turns : nat) (finished : bool) (w : Writer) : Writer * bool :=
  let w0 := mkWriter (circuit w) (backend w) (queue w) (sender w) (worker_alive w) true
              (wait_for_completion w) in
  if negb (sender w) then (w0, true)
  else
    let w1 := Nat.iter turns worker_turn w0 in
    match try_send CShutdown w1 with
    | Err Disconnected => (w1, true)
    | Err Full => (w1, false)
    | Ok w2 => if finished then ((await_worker w2).1, true) else (w2, false)
    end.

(** [Drop for PersistenceWriter]: the sender is closed; either the worker
    finishes what is queued ([finished]) or the circuit is disabled and the
    backend forced to close. *)
Definition writer_drop (finished : bool) (w : Writer) : Writer :=
  if negb (worker_alive w) || finished then
    let w' := (await_worker w).1 in
    mkWriter (circuit w') (backend w') (queue w') false false (closing w') (wait_for_completion w')
  else
    let w' := writer_disable "shutdown_timeout" w in
    mkWriter (circuit w') (st_force_close (backend w')).1 (queue w') false (worker_alive w')
      (closing w') (wait_for_completion w').

End Worker.
Arguments PersistenceCommand : clear implicits.
Arguments Writer : clear implicits.

(** ** The circuit's latch *)

(** One recorded write on a circuit that accepts writes; [None] is a success. *)
Definition record (r : option JobStorageError) (c : PersistenceCircuit) : PersistenceCircuit :=
  if can_write c then
    match r with
    | None => (record_success c).1
    | Some e => (record_failure e c).1
    end
  else c.

(** The circuit after a history of writes, newest first. *)
Fixpoint circuit_after (h : list (option JobStorageError)) : PersistenceCircuit :=
  match h with
  | [] => circuit_configured
  | r :: h' => record r (circuit_after h')
  end.

(** The current run of identical failures. *)
Fixpoint streak (h : list (option JobStorageError)) : Z * option string :=
  match h with
  | [] => (0%Z, None)
  | None :: _ => (0%Z, None)
  | Some e :: h' =>
      let (n, f) := streak h' in
      if bool_decide (f = Some (error_to_string e)) then ((n + 1)%Z, f)
      else (1%Z, Some (error_to_string e))
  end.

Definition triple (h : list (option JobStorageError)) : Prop :=
  exists h1 e1 e2 e3 h2, h = h1 ++ Some e3 :: Some e2 :: Some e1 :: h2 /\
    error_to_string e1 = error_to_string e2 /\ error_to_string e2 = error_to_string e3.

Lemma streak_bounds (h : list (option JobStorageError)) :
  (0 <= (streak h).1)%Z /\ ((streak h).1 = 0%Z <-> (streak h).2 = None).
Proof.
  induction h as [|[e|] h IH]; simpl; [done| |done].
  destruct (streak h) as [n f]. simpl in *.
  case_bool_decide; subst; simpl; split; try lia; split; intros; try done; try lia.
Qed.

Lemma streak_three (h : list (option JobStorageError)) :
  (3 <= (streak h).1)%Z <->
  exists e1 e2 e3 h2, h = Some e3 :: Some e2 :: Some e1 :: h2 /\
    error_to_string e1 = error_to_string e2 /\ error_to_string e2 = error_to_string e3.
Proof.
  split.
  - destruct h as [|[e3|] [|[e2|] [|[e1|] h]]]; simpl;
      repeat case_bool_decide; simpl; try lia.
    all: destruct (streak h) as [n f] eqn:E; repeat case_bool_decide; simplify_eq/=; try lia.
    all: intros _; exists e1, e2, e3, h; split; [done|]; split; congruence.
  - intros (e1 & e2 & e3 & h2 & -> & E12 & E23). simpl.
    pose proof (streak_bounds h2) as [H0 _].
    destruct (streak h2) as [n f]. simpl in H0.
    case_bool_decide; simpl.
    + subst f. rewrite bool_decide_eq_true_2 by congruence. simpl.
      rewrite bool_decide_eq_true_2 by congruence. simpl. lia.
    + rewrite bool_decide_eq_true_2 by congruence. simpl.
      rewrite bool_decide_eq_true_2 by congruence. simpl. lia.
Qed.

Lemma triple_cons (r : option JobStorageError) (h : list (option JobStorageError)) :
  triple (r :: h) <-> triple h \/ (3 <= (streak (r :: h)).1)%Z.
Proof.
  rewrite streak_three. split.
  - intros (h1 & e1 & e2 & e3 & h2 & E & H12 & H23). destruct h1 as [|x h1]; simplify_eq/=.
    + right. by exists e1, e2, e3, h2.
    + left. by exists h1, e1, e2, e3, h2.
  - intros [(h1 & e1 & e2 & e3 & h2 & -> & ? & ?)|(e1 & e2 & e3 & h2 & -> & ? & ?)].
    + by exists (r :: h1), e1, e2, e3, h2.
    + by exists [], e1, e2, e3, h2.
Qed.

(** While the circuit accepts writes its counters are the current streak. *)
Lemma circuit_after_inv (h : list (option JobStorageError)) :
  configured (circuit_after h) = true /\
  (disabled (circuit_after h) = true <-> triple h) /\
  (disabled (circuit_after h) = false ->
    consecutive_failures (circuit_after h) = (streak h).1 /\
    last_error (circuit_after h) = (streak h).2 /\ (streak h).1 < 3)%Z.
Proof.
  induction h as [|r h (Hc & Hd & Hs)].
  { simpl. split; [done|]. split; [|done]. split; [done|].
    intros ([|] & ? & ? & ? & ? & ? & _); discriminate. }
  rewrite triple_cons. cbn [circuit_after]. unfold record, can_write. rewrite Hc.
  destruct (disabled (circuit_after h)) eqn:Ed; simpl.
  { rewrite Hc, Ed. split; [done|]. split; [|done]. split; [|done]. intros _. left. by apply Hd. }
  destruct (Hs eq_refl) as (Hn & Hl & Hlt). clear Hs.
  assert (Hnt : ~ triple h) by (intros H; by apply Hd in H).
  destruct r as [e|].
  - unfold record_failure. rewrite Hl, Hc, Ed, Hn. cbn [fst snd configured disabled
      consecutive_failures last_error orb streak].
    pose proof (streak_bounds h) as [Hge _].
    destruct (streak h) as [n f] eqn:Es. cbn [fst snd] in *.
    unfold PERSISTENCE_FAILURE_THRESHOLD. split; [done|].
    case_bool_decide; cbn [fst snd].
    + replace (sat_add u32_max n 1) with (n + 1)%Z by (unfold sat_add, u32_max; lia).
      destruct (Z.leb_spec 3 (n + 1)).
      * split; [|done]. split; [|done]. intros _. by right.
      * split; [split; [done|intros [?|?]; [done|lia]]|]. intros _. split; [done|]. split; [done|lia].
    + split; [split; [done|intros [?|?]; [done|lia]]|]. intros _. split; [done|]. split; [done|lia].
  - simpl. rewrite Hc. split; [done|]. rewrite Ed. split; [|done].
    split; [done|]. intros [?|?]; [done|lia].
Qed.

(** ** The worker and its clients *)

Section Worker_facts.
Context {T K Value S : Type} `{CT : CancelTokens T K} `{JS : !JobStorage T K Value S}.
Implicit Types (w : Writer T Value S) (j : Job T Value) (s : S).

Definition persist_all (js : list (Job T Value)) (c : PersistenceCircuit) (s : S)
    : PersistenceCircuit * S :=
  foldl (fun cs j => persist_one j cs.1 cs.2) (c, s) js.

Lemma persist_one_off j c s : can_write c = false -> persist_one j c s = (c, s).
Proof. intros H. unfold persist_one. by rewrite H. Qed.

Lemma persist_one_circuit j c s :
  (persist_one j c s).1 =
  if can_write c then
    match (st_put j s).2 with
    | Ok _ => (record_success c).1
    | Err e => (record_failure e c).1
    end
  else c.
Proof.
  unfold persist_one. destruct (can_write c); simpl; [|done].
  destruct (st_put j s) as [s' [[]|e]]; done.
Qed.

Lemma run_worker_puts js b c s :
  run_worker (map CPut js) b c s =
  ((persist_all js c s).1, (persist_all js c s).2, Some (if decide (js = []) then b else true)).
Proof.
  revert b c s; induction js as [|j js IH]; intros b c s; [done|]. simpl.
  destruct (persist_one j c s) as [c' s'] eqn:E. rewrite IH.
  unfold persist_all. simpl. rewrite E. do 2 f_equal. by case_decide.
Qed.

(** What the backend answers to the jobs put one after another, newest first. *)
Fixpoint outcomes (js : list (Job T Value)) (s : S) (h : list (option JobStorageError))
    : list (option JobStorageError) :=
  match js with
  | [] => h
  | j :: js' =>
      let (s', r) := st_put j s in
      outcomes js' s' (match r with Ok _ => None | Err e => Some e end :: h)
  end.

Lemma outcomes_triple js : forall s h, triple h -> triple (outcomes js s h).
Proof.
  induction js as [|j js IH]; intros s h Ht; [done|]. simpl. destruct (st_put j s) as [s' r].
  apply IH, triple_cons. by left.
Qed.

Lemma persist_one_record j h s s' r :
  disabled (circuit_after h) = false -> st_put j s = (s', r) ->
  persist_one j (circuit_after h) s =
  (circuit_after (match r with Ok _ => None | Err e => Some e end :: h), s').
Proof.
  intros Hd Hp. cbn [circuit_after]. unfold record, persist_one.
  assert (Hw : can_write (circuit_after h) = true)
    by (unfold can_write; by rewrite (proj1 (circuit_after_inv h)), Hd).
  rewrite Hw, Hp. cbn [negb]. by destruct r.
Qed.

Lemma persist_all_latch js : forall s h,
  disabled (persist_all js (circuit_after h) s).1 = true <-> triple (outcomes js s h).
Proof.
  unfold persist_all. induction js as [|j js IH]; intros s h; [apply circuit_after_inv|].
  destruct (disabled (circuit_after h)) eqn:Ed.
  - assert (Ht : triple h) by (by apply circuit_after_inv).
    split; [intros _; by apply outcomes_triple|]. intros _. simpl.
    rewrite persist_one_off by (unfold can_write; by rewrite Ed, andb_false_r). apply IH.
    by apply outcomes_triple.
  - simpl. destruct (st_put j s) as [s' r] eqn:Ep.
    rewrite (persist_one_record j h s s' r Ed Ep). apply IH.
Qed.

(** C7: whatever jobs the worker is told to write and whatever the backend answers,
    persistence ends latched off exactly when three consecutive writes failed with
    the same error; other failures, and successes, never latch it, and a latched
    circuit is not reopened by further writes. *)
Theorem circuit_latches_iff (js : list (Job T Value)) (b : bool) (s : S) :
  disabled (run_worker (map CPut js) b circuit_configured s).1.1 = true <->
  triple (outcomes js s []).
Proof. rewrite run_worker_puts. apply (persist_all_latch js s []). Qed.

(** A writer that can take commands now. *)
Definition open_writer (w : Writer T Value S) : Prop :=
  sender w = true /\ worker_alive w = true /\ closing w = false.

(** A waiting client's [put] is the worker's transaction. *)
Lemma writer_put_wait j w :
  open_writer w -> queue w = [] -> wait_for_completion w = true ->
  writer_put j w =
    mkWriter (persist_one j (circuit w) (backend w)).1 (persist_one j (circuit w) (backend w)).2
      [] true true false true.
Proof.
  intros (Hs & Ha & Hc) Hq Hw. destruct w as [c b q sd al cl wt]. simpl in *. subst.
  unfold writer_put. simpl. destruct (can_write c) eqn:Ec; simpl.
  - unfold await_worker. simpl. by destruct (persist_one j c b) as [c' b'].
  - by rewrite persist_one_off.
Qed.

(** An enqueueing client's [put] appends to the queue. *)
Lemma writer_put_offload j w :
  open_writer w -> can_write (circuit w) = true -> wait_for_completion w = false ->
  length (queue w) < PERSISTENCE_QUEUE_CAPACITY ->
  writer_put j w = enqueue (CPut j) w.
Proof.
  intros (Hs & Ha & Hc) Hw Hwt Hq. unfold writer_put, try_send. rewrite Hs, Ha, Hc, Hw, Hwt.
  by rewrite (proj2 (Nat.leb_gt _ _)) by lia.
Qed.

Lemma writer_puts_offload js w :
  open_writer w -> can_write (circuit w) = true -> wait_for_completion w = false ->
  length (queue w) + length js <= PERSISTENCE_QUEUE_CAPACITY ->
  foldl (fun w j => writer_put j w) w js =
    mkWriter (circuit w) (backend w) (queue w ++ map CPut js) true true false false.
Proof.
  revert w; induction js as [|j js IH]; intros w Ho Hw Hwt Hl; simpl in *.
  - destruct Ho as (? & ? & ?). destruct w; simpl in *; subst. by rewrite app_nil_r.
  - rewrite writer_put_offload by (done || lia). rewrite IH; simpl.
    + by rewrite <- app_assoc.
    + done.
    + done.
    + done.
    + rewrite length_app. simpl. lia.
Qed.

Lemma writer_puts_wait js w :
  open_writer w -> queue w = [] -> wait_for_completion w = true ->
  foldl (fun w j => writer_put j w) w js =
    mkWriter (persist_all js (circuit w) (backend w)).1 (persist_all js (circuit w) (backend w)).2
      [] true true false true.
Proof.
  revert w; induction js as [|j js IH]; intros w Ho Hq Hwt; simpl.
  - destruct Ho as (? & ? & ?). by destruct w; simpl in *; subst.
  - rewrite writer_put_wait by done. rewrite IH by done. unfold persist_all. simpl.
    by destruct (persist_one j (circuit w) (backend w)).
Qed.

(** Enqueueing is equivalent to waiting.  For any backend, a batch of writes
    that fits the queue leaves, once the worker has caught up, the same circuit
    and the same backend as waiting for every write. *)
Theorem offloaded_refines_waiting (js : list (Job T Value)) (c : PersistenceCircuit) (s : S)
    (Hfit : length js <= PERSISTENCE_QUEUE_CAPACITY) (Hopen : can_write c = true) :
  let waited := foldl (fun w j => writer_put j w) (writer_new c s true) js in
  let queued := (await_worker (foldl (fun w j => writer_put j w) (writer_new c s false) js)).1 in
  circuit queued = circuit waited /\ backend queued = backend waited /\ queue queued = [].
Proof.
  cbv zeta. rewrite (writer_puts_wait js (writer_new c s true)) by done.
  rewrite (writer_puts_offload js (writer_new c s false)) by done. simpl.
  unfold await_worker. simpl. by rewrite run_worker_puts.
Qed.

(** The queue never holds more than its capacity. *)
Definition queue_ok (w : Writer T Value S) : Prop :=
  length (queue w) <= PERSISTENCE_QUEUE_CAPACITY.

Lemma try_send_ok cmd w w' :
  try_send cmd w = Ok w' -> w' = enqueue cmd w /\ worker_alive w = true /\
    length (queue w) < PERSISTENCE_QUEUE_CAPACITY.
Proof.
  unfold try_send. destruct (worker_alive w); cbn [negb]; [|done].
  destruct (PERSISTENCE_QUEUE_CAPACITY <=? length (queue w))%nat eqn:E; [done|].
  bool_to_prop. by intros [= <-].
Qed.

Lemma await_worker_queue w : queue (await_worker w).1 = [].
Proof. unfold await_worker. by destruct (run_worker _ _ _ _) as [[? ?] ?]. Qed.

Lemma worker_turn_queue w : length (queue (worker_turn w)) <= length (queue w).
Proof.
  unfold worker_turn. destruct (worker_alive w); simpl; [|done].
  destruct (queue w) as [|[j|cut|] q] eqn:Eq; simpl; [by rewrite Eq| | |lia].
  - destruct (persist_one j (circuit w) (backend w)); simpl. lia.
  - destruct (prune_one cut (circuit w) (backend w)) as [[? ?] ?]; simpl. lia.
Qed.

Lemma iter_turns_queue n w : length (queue (Nat.iter n worker_turn w)) <= length (queue w).
Proof. induction n as [|n IH]; [done|]. simpl. etransitivity; [apply worker_turn_queue|done]. Qed.

(** Whatever the clients do, the worker's queue stays within its bound. *)
Theorem queue_bounded w (Hw : queue_ok w) :
  (forall j, queue_ok (writer_put j w)) /\
  (forall cutoff, queue_ok (writer_delete_older_than cutoff w).1) /\
  (forall cutoff timed_out, queue_ok (writer_delete_blocking cutoff timed_out w).1) /\
  (forall turns finished, queue_ok (writer_drain turns finished w).1) /\
  queue_ok (worker_turn w).
Proof.
  assert (Hsend : forall cmd u u', queue_ok u -> try_send cmd u = Ok u' -> queue_ok u').
  { intros cmd u u' Hu (-> & _ & Hl)%try_send_ok. unfold queue_ok. simpl.
    rewrite length_app. simpl. lia. }
  assert (Hawait : forall u v b, await_worker u = (v, b) -> queue_ok v).
  { intros u v b E. unfold queue_ok. pose proof (await_worker_queue u) as Hq. rewrite E in Hq.
    simpl in Hq. rewrite Hq. simpl. lia. }
  assert (Hdis : forall k u, queue_ok u -> queue_ok (writer_disable k u)) by done.
  split; [|split; [|split; [|split]]].
  - intros j. unfold writer_put. repeat case_match; eauto.
  - intros cut. unfold writer_delete_older_than. repeat case_match; simpl; eauto.
  - intros cut b. unfold writer_delete_blocking. repeat case_match; simpl; eauto.
  - intros n b. unfold writer_drain. cbv zeta.
    set (w0 := mkWriter _ _ _ _ _ _ _).
    assert (queue_ok (Nat.iter n worker_turn w0)).
    { unfold queue_ok. pose proof (iter_turns_queue n w0). unfold queue_ok in Hw. simpl in *. lia. }
    destruct (sender w); simpl; [|done].
    destruct (try_send CShutdown (Nat.iter n worker_turn w0)) as [w2|[|]] eqn:E; simpl; [|done..].
    destruct b; simpl; [|eauto]. destruct (await_worker w2) eqn:E2. simpl. eauto.
  - unfold queue_ok in *. pose proof (worker_turn_queue w). lia.
Qed.

End Worker_facts.

(** ** Witnesses: two writes over the in-memory backend *)

Section Witnesses.
Local Open Scope string_scope.

Definition sample_job (i : string) : Job nat string := Job_new i "bake" None 0 0.
Definition empty_rows : InMemoryStorage string := {| rows := ∅ |}.

Lemma offloaded_refines_waiting_witness :
  let js := [sample_job "a"; sample_job "b"] in
  let queued := (await_worker (foldl (fun w j => writer_put j w)
    (writer_new circuit_configured empty_rows false) js)).1 in
  size (rows (backend queued)) = 2.
Proof.
  intros js queued.
  destruct (offloaded_refines_waiting js circuit_configured empty_rows
    ltac:(unfold PERSISTENCE_QUEUE_CAPACITY; simpl; lia) eq_refl) as (_ & Hb & _).
  fold queued in Hb. rewrite Hb. vm_compute. reflexivity.
Defined.

Lemma queue_bounded_witness :
  queue_ok (writer_put (sample_job "b")
    (enqueue (CPut (sample_job "a")) (writer_new circuit_configured empty_rows false))).
Proof.
  apply (queue_bounded (enqueue (CPut (sample_job "a"))
    (writer_new circuit_configured empty_rows false))).
  unfold queue_ok, PERSISTENCE_QUEUE_CAPACITY. simpl. lia.
Defined.

End Witnesses.
