(* ===== verification/JobManager.v ===== *)
(** Component: the job registry ([crates/dcc-mcp-job/src/job/manager.rs]).

    The manager's state is its map of jobs, the store of cancellation tokens,
    its persistence backing and what its subscribers have received.  Each method
    is a function on that state; the clock ([now]) and the fresh identifier of a
    new job are inputs.  [op]/[exec]/[run] put the methods together as the
    transition system the invariants are proved on: for well-formedness the clock
    does not go backwards, nothing else is assumed of the callers.

    Handles returned by [get] and [create] alias the map's entries; every claim
    here is about the entries. *)

From S2P Require Import Prelude CancelToken JobTypes JobStorage JobPersistence.

Section Manager.
Context {T K Value S : Type} `{CT : CancelTokens T K} `{JS : !JobStorage T K Value S}.

(** The optional backend with its worker: [Unspawned] when the worker thread
    could not be started. *)
Inductive Backing : Type :=
| Unbacked (c : PersistenceCircuit)
| Unspawned (c : PersistenceCircuit) (s : S)
| Backed (w : Writer T Value S).

Record JobManager : Type := mkManager {
  jobs : gmap string (Job T Value);
  tokens : K;
  backing : Backing;
  subscribers : nat;
  delivered : list (nat * JobEvent);
}.

(** ** Persistence plumbing *)

Definition circuit_of (b : Backing) : PersistenceCircuit :=
  match b with
  | Unbacked c => c
  | Unspawned c _ => c
  | Backed w => circuit w
  end.

Definition with_circuit (f : PersistenceCircuit -> PersistenceCircuit) (b : Backing) : Backing :=
  match b with
  | Unbacked c => Unbacked (f c)
  | Unspawned c s => Unspawned (f c) s
  | Backed w => Backed (mkWriter (f (circuit w)) (backend w) (queue w) (sender w)
                          (worker_alive w) (closing w) (wait_for_completion w))
  end.

Definition storage_of (b : Backing) : option S :=
  match b with
  | Unbacked _ => None
  | Unspawned _ s => Some s
  | Backed w => Some (backend w)
  end.

Definition with_storage_state (s : S) (b : Backing) : Backing :=
  match b with
  | Unbacked c => Unbacked c
  | Unspawned c _ => Unspawned c s
  | Backed w => Backed (mkWriter (circuit w) s (queue w) (sender w) (worker_alive w)
                          (closing w) (wait_for_completion w))
  end.

Definition with_jobs (js : gmap string (Job T Value)) (m : JobManager) : JobManager :=
  mkManager js (tokens m) (backing m) (subscribers m) (delivered m).

Definition with_tokens (k : K) (m : JobManager) : JobManager :=
  mkManager (jobs m) k (backing m) (subscribers m) (delivered m).

Definition with_backing (b : Backing) (m : JobManager) : JobManager :=
  mkManager (jobs m) (tokens m) b (subscribers m) (delivered m).

(** [JobManager::new]. *)
Definition manager_new (k : K) : JobManager :=
  mkManager ∅ k (Unbacked circuit_default) 0 [].

(** [build_persistence_runtime]: [spawned] is whether the worker thread started. *)
Definition build_persistence_runtime (s : S) (wait spawned : bool) : Backing :=
  if spawned then Backed (writer_new circuit_configured s wait)
  else Unspawned (disable "worker_unavailable" circuit_configured).1 s.

(** [with_storage_mode]; [with_storage] waits, [with_offloaded_storage] does not. *)
Definition manager_with_storage (s : S) (wait spawned : bool) (k : K) : JobManager :=
  mkManager ∅ k (build_persistence_runtime s wait spawned) 0 [].

Definition set_storage (s : S) (spawned : bool) (m : JobManager) : JobManager :=
  with_backing (build_persistence_runtime s true spawned) m.

Definition persistence_status (m : JobManager) : JobPersistenceStatus :=
  circuit_status (circuit_of (backing m)).

Definition disable_persistence (kind : string) (m : JobManager) : JobManager :=
  with_backing (with_circuit (fun c => (disable kind c).1) (backing m)) m.

Definition disable_persistence_for_storage_error (e : JobStorageError) (m : JobManager) : JobManager :=
  disable_persistence (error_kind e) m.

(** [shutdown_persistence]: [turns] and [finished] are the drain's timing. *)
Definition shutdown_persistence (turns : nat) (finished : bool) (m : JobManager)
    : JobManager * bool :=
  let (b1, drained) :=
    match backing m with
    | Backed w => let (w', d) := writer_drain turns finished w in (Backed w', d)
    | b => (b, true)
    end in
  let b2 := with_circuit (fun c => (disable "server_shutdown" c).1) b1 in
  let (b3, released) :=
    match storage_of b2 with
    | None => (b2, true)
    | Some s =>
        if negb drained then (with_storage_state (st_force_close s).1 b2, false)
        else
          let (s1, rel) := st_shutdown_with_timeout s in
          (with_storage_state (if negb rel then (st_force_close s1).1 else s1) b2, rel)
    end in
  (with_backing b3 m, drained && released).

Definition persist_put (j : Job T Value) (m : JobManager) : JobManager :=
  match backing m with
  | Backed w => with_backing (Backed (writer_put j w)) m
  | _ => m
  end.

(** ** Subscribers *)

Definition subscribe (m : JobManager) : JobManager :=
  mkManager (jobs m) (tokens m) (backing m) (subscribers m + 1) (delivered m).

Definition emit (j : Job T Value) (m : JobManager) : JobManager :=
  mkManager (jobs m) (tokens m) (backing m) (subscribers m)
    (delivered m ++ map (fun i => (i, event_of j)) (seq 0 (subscribers m))).

(** A mutation has two phases: the entry is updated under its lock, and after the
    lock is released the snapshot is persisted and announced. *)
Definition mutate (jid : string) (j : Job T Value) (m : JobManager) : JobManager :=
  with_jobs (<[jid := j]> (jobs m)) m.

Definition publish (snapshot : Job T Value) (m : JobManager) : JobManager :=
  emit snapshot (persist_put snapshot m).

Definition commit (jid : string) (j : Job T Value) (m : JobManager) : JobManager :=
  publish j (mutate jid j m).

(** ** Methods *)

Definition create_with_parent (fresh_id tool : string) (parent : option string) (now : Z)
    (m : JobManager) : JobManager * Job T Value :=
  let (token, k) :=
    match parent with
    | Some pid =>
        match jobs m !! pid with
        | Some p => tok_child (cancel_token p) (tokens m)
        | None => tok_new (tokens m)
        end
    | None => tok_new (tokens m)
    end in
  let job := Job_new fresh_id tool parent token now in
  (commit fresh_id job (with_tokens k m), job).

Definition create (fresh_id tool : string) (now : Z) (m : JobManager) : JobManager * Job T Value :=
  create_with_parent fresh_id tool None now m.

Definition set_output (jid : string) (o : option JobOutputTarget) (m : JobManager)
    : JobManager * option unit :=
  match jobs m !! jid with
  | None => (m, None)
  | Some j =>
      let j' := set_output_field o j in
      (persist_put j' (mutate jid j' m), Some tt)
  end.

Definition start (jid : string) (now : Z) (m : JobManager) : JobManager * option unit :=
  match jobs m !! jid with
  | None => (m, None)
  | Some j =>
      if negb (bool_decide (status j = Pending)) then (m, None)
      else
        let j' := set_running now j in
        (commit jid j' m, Some tt)
  end.

Definition complete (jid : string) (v : Value) (now : Z) (m : JobManager)
    : JobManager * option unit :=
  match jobs m !! jid with
  | None => (m, None)
  | Some j =>
      if negb (bool_decide (status j = Running)) then (m, None)
      else
        let j' := set_completed v now j in
        (commit jid j' m, Some tt)
  end.

Definition fail (jid : string) (e : string) (now : Z) (m : JobManager)
    : JobManager * option unit :=
  match jobs m !! jid with
  | None => (m, None)
  | Some j =>
      if negb (bool_decide (status j = Running)) then (m, None)
      else
        let j' := set_failed e now j in
        (commit jid j' m, Some tt)
  end.

Definition cancel (jid : string) (m : JobManager) : JobManager * option unit :=
  match jobs m !! jid with
  | None => (m, None)
  | Some j =>
      match status j with
      | Pending | Running => (with_tokens (tok_cancel (cancel_token j) (tokens m)) m, Some tt)
      | _ => (m, None)
      end
  end.

Definition acknowledge_cancel (jid : string) (now : Z) (m : JobManager)
    : JobManager * option unit :=
  match jobs m !! jid with
  | None => (m, None)
  | Some j =>
      match status j with
      | Pending | Running =>
          if tok_cancelled (cancel_token j) (tokens m) then
            let j' := set_cancelled now j in
            (commit jid j' m, Some tt)
          else (m, None)
      | _ => (m, None)
      end
  end.

(** [progress.current > progress.total], or a step back from the recorded value. *)
Definition progress_rejected (p : JobProgress) (previous : option JobProgress) : bool :=
  (total p <? current p)%Z ||
  match previous with
  | Some q => (current p <? current q)%Z || (total p <? total q)%Z
  | None => false
  end.

Definition update_progress (jid : string) (p : JobProgress) (now : Z) (m : JobManager)
    : JobManager * option unit :=
  match jobs m !! jid with
  | None => (m, None)
  | Some j =>
      if negb (bool_decide (status j = Running)) then (m, None)
      else if progress_rejected p (progress j) then (m, None)
      else
        let j' := set_progress p now j in
        (commit jid j' m, Some tt)
  end.

Definition get (jid : string) (m : JobManager) : option (Job T Value) := jobs m !! jid.

Definition list_jobs (m : JobManager) : list (Job T Value) := (map_to_list (jobs m)).*2.

(** ** Retention *)

Definition job_stale (cutoff : Z) (j : Job T Value) : bool :=
  is_terminal (status j) && (updated_at j <? cutoff)%Z.

Definition stale_ids (cutoff : Z) (m : JobManager) : list string :=
  id <$> filter (fun j => job_stale cutoff j = true) (list_jobs m).

(** [self.jobs.remove(&id).is_some()] for each id, counting the removals. *)
Fixpoint remove_all (ids : list string) (js : gmap string (Job T Value)) (removed : nat)
    : gmap string (Job T Value) * nat :=
  match ids with
  | [] => (js, removed)
  | i :: ids' =>
      match js !! i with
      | Some _ => remove_all ids' (delete i js) (removed + 1)
      | None => remove_all ids' js removed
      end
  end.

(** Both retention paths refuse to run on a latched circuit that is not waiting
    for a retention retry. *)
Definition retention_refused (m : JobManager) : bool :=
  bool_decide (ps_state (persistence_status m) = Disabled) &&
  negb (can_retry_retention (circuit_of (backing m))).

Definition gc_stale (older_than now : Z) (m : JobManager) : JobManager * nat :=
  if retention_refused m then (m, 0)
  else
    let cutoff := (now - older_than)%Z in
    let stale := stale_ids cutoff m in
    if bool_decide (stale = []) then (m, 0)
    else
      let (b, confirmed) :=
        match backing m with
        | Backed w => let (w', ok) := writer_delete_older_than cutoff w in (Backed w', ok)
        | b => (b, true)
        end in
      if negb confirmed then (with_backing b m, 0)
      else
        let (js, removed) := remove_all stale (jobs m) 0 in
        (with_jobs js (with_backing b m), removed).

Definition gc_stale_blocking (older_than now : Z) (timed_out : bool) (m : JobManager)
    : JobManager * option nat :=
  if retention_refused m then (m, Some 0)
  else
    let cutoff := (now - older_than)%Z in
    let stale := stale_ids cutoff m in
    if bool_decide (stale = []) then (m, Some 0)
    else
      let (b, confirmed) :=
        match backing m with
        | Backed w => let (w', ok) := writer_delete_blocking cutoff timed_out w in (Backed w', ok)
        | b => (b, true)
        end in
      if negb confirmed then (with_backing b m, None)
      else
        let (js, removed) := remove_all stale (jobs m) 0 in
        (with_jobs js (with_backing b m), Some removed).

(** [Duration::hours] in nanoseconds, after the clamp to 1000 years. *)
Definition hours_ns (older_than_hours : Z) : Z :=
  (Z.min older_than_hours (24 * 365 * 1000) * 3600000000000)%Z.

Definition cleanup_older_than_hours (older_than_hours now : Z) (m : JobManager)
    : JobManager * nat :=
  gc_stale (hours_ns older_than_hours) now m.

Definition cleanup_blocking_with_timeout (older_than_hours now : Z) (timed_out : bool)
    (m : JobManager) : JobManager * option nat :=
  gc_stale_blocking (hours_ns older_than_hours) now timed_out m.

Definition cleanup_older_than_hours_blocking (older_than_hours now : Z) (timed_out : bool)
    (m : JobManager) : JobManager * nat :=
  let (m', r) := cleanup_blocking_with_timeout older_than_hours now timed_out m in
  (m', default 0 r).

(** ** Restart recovery *)

Definition inflight (s : JobStatus) : bool :=
  match s with Pending | Running => true | _ => false end.

(** The [for mut job in all] loop of [recover_from_storage]. *)
Fixpoint recover_loop (all : list (Job T Value)) (now : Z) (interrupted : nat) (m : JobManager)
    : JobManager * result JobStorageError nat :=
  match all with
  | [] => (m, Ok interrupted)
  | job :: rest =>
      if inflight (status job) then
        let job' := set_interrupted now job in
        let '(m1, r) :=
          match storage_of (backing m) with
          | Some s =>
              if can_write (circuit_of (backing m)) then
                let (s', r) := st_put job' s in
                (with_backing (with_storage_state s' (backing m)) m, r)
              else (m, Ok tt)
          | None => (m, Ok tt)
          end in
        match r with
        | Err e => (disable_persistence_for_storage_error e m1, Err e)
        | Ok _ =>
            recover_loop rest now (interrupted + 1)
              (emit job' (with_jobs (<[id job' := job']> (jobs m1)) m1))
        end
      else
        recover_loop rest now interrupted (with_jobs (<[id job := job]> (jobs m)) m)
  end.

Definition recover_from_storage (now : Z) (m : JobManager) : JobManager * result JobStorageError nat :=
  match storage_of (backing m) with
  | None => (m, Ok 0)
  | Some s =>
      match st_list default_filter s (tokens m) with
      | Err e => (m, Err e)
      | Ok (all, k) => recover_loop all now 0 (with_tokens k m)
      end
  end.

(** ** The methods as one transition system

    The calls a client makes on a running manager; recovery at a restart is
    [recover_from_storage] above. *)

Inductive op : Type :=
| OCreate (fresh_id tool : string) (parent : option string)
| OSetOutput (jid : string) (o : option JobOutputTarget)
| OStart (jid : string)
| OComplete (jid : string) (v : Value)
| OFail (jid : string) (e : string)
| OCancel (jid : string)
| OAck (jid : string)
| OProgress (jid : string) (p : JobProgress)
| OGc (older_than : Z)
| OGcBlocking (older_than : Z) (timed_out : bool)
| OSubscribe
| OWorker.

(** One call at time [now]: the new state and whether the call succeeded. *)
Definition exec (o : op) (now : Z) (m : JobManager) : JobManager * bool :=
  let accepted (r : JobManager * option unit) := (r.1, bool_decide (r.2 = Some tt)) in
  match o with
  | OCreate i t p => ((create_with_parent i t p now m).1, true)
  | OSetOutput i out => accepted (set_output i out m)
  | OStart i => accepted (start i now m)
  | OComplete i v => accepted (complete i v now m)
  | OFail i e => accepted (fail i e now m)
  | OCancel i => accepted (cancel i m)
  | OAck i => accepted (acknowledge_cancel i now m)
  | OProgress i p => accepted (update_progress i p now m)
  | OGc d => ((gc_stale d now m).1, true)
  | OGcBlocking d t =>
      let r := gc_stale_blocking d now t m in (r.1, bool_decide (is_Some r.2))
  | OSubscribe => (subscribe m, true)
  | OWorker =>
      (match backing m with
       | Backed w => with_backing (Backed (worker_turn w)) m
       | _ => m
       end, true)
  end.

Definition run (ops : list (op * Z)) (m : JobManager) : JobManager :=
  foldl (fun m ot => (exec ot.1 ot.2 m).1) m ops.

End Manager.
Arguments Backing : clear implicits.
Arguments JobManager : clear implicits.
Arguments op : clear implicits.

#[global] Arguments commit : simpl never.
