(* ===== verification/JobLifecycle.v ===== *)
(** Properties of the job registry, first part: the lifecycle.

    [jstep] is the abstract step relation of the registry (entries and tokens
    only); [exec_jstep] shows that every method of the manager is one of its
    steps, whatever the persistence backing does, and the theorems about whole
    histories ([run]) are proved by induction on that relation. *)

From S2P Require Import Prelude CancelToken JobTypes JobStorage JobPersistence JobManager.

Section Lifecycle.
Context {T K Value S : Type} `{CT : CancelTokens T K} `{JS : !JobStorage T K Value S}.
Implicit Types (m : JobManager T K Value S) (j : Job T Value) (js : gmap string (Job T Value)).

(** ** The abstract step relation *)

(** The updates of one entry, with the guard of the method that makes them. *)
Inductive edit (now : Z) (k : K) : Job T Value -> Job T Value -> Prop :=
| ed_output j o : edit now k j (set_output_field o j)
| ed_start j : status j = Pending -> edit now k j (set_running now j)
| ed_complete j v : status j = Running -> edit now k j (set_completed v now j)
| ed_fail j e : status j = Running -> edit now k j (set_failed e now j)
| ed_cancelled j :
    inflight (status j) = true -> tok_cancelled (cancel_token j) k = true ->
    edit now k j (set_cancelled now j)
| ed_progress j p :
    status j = Running -> progress_rejected p (progress j) = false ->
    edit now k j (set_progress p now j).

(** The token a new entry gets: a child of its parent's when the parent is known. *)
Inductive new_token js (k : K) : option string -> T -> K -> Prop :=
| nt_child pid p t k' :
    js !! pid = Some p -> tok_child (cancel_token p) k = (t, k') -> new_token js k (Some pid) t k'
| nt_root parent t k' :
    parent ≫= (js !!.) = None -> tok_new k = (t, k') -> new_token js k parent t k'.

(** [jstep now c]: one step at time [now], creating the entry [c] if any. *)
Inductive jstep (now : Z) : option string ->
    gmap string (Job T Value) * K -> gmap string (Job T Value) * K -> Prop :=
| js_stay js k : jstep now None (js, k) (js, k)
| js_create js k i tool parent t k' :
    new_token js k parent t k' ->
    jstep now (Some i) (js, k) (<[i := Job_new i tool parent t now]> js, k')
| js_edit js k i j j' :
    js !! i = Some j -> edit now k j j' -> jstep now None (js, k) (<[i := j']> js, k)
| js_cancel js k i j :
    js !! i = Some j -> inflight (status j) = true ->
    jstep now None (js, k) (js, tok_cancel (cancel_token j) k)
| js_gc js k cutoff :
    jstep now None (js, k) (filter (fun ij => job_stale cutoff ij.2 = false) js, k).

(** ** What the methods share *)

Lemma persist_put_frame j m :
  jobs (persist_put j m) = jobs m /\ tokens (persist_put j m) = tokens m /\
  subscribers (persist_put j m) = subscribers m /\ delivered (persist_put j m) = delivered m.
Proof. unfold persist_put. by destruct (backing m). Qed.

Lemma commit_jobs i j m : jobs (commit i j m) = <[i := j]> (jobs m).
Proof. apply persist_put_frame. Qed.

Lemma commit_tokens i j m : tokens (commit i j m) = tokens m.
Proof. apply (persist_put_frame j (with_jobs _ m)). Qed.

Lemma commit_subscribers i j m : subscribers (commit i j m) = subscribers m.
Proof. apply (persist_put_frame j (with_jobs _ m)). Qed.

Lemma commit_delivered i j m :
  delivered (commit i j m) =
  delivered m ++ map (fun s => (s, event_of j)) (seq 0 (subscribers m)).
Proof.
  unfold commit, publish, mutate, emit. simpl.
  by destruct (persist_put_frame j (with_jobs (<[i := j]> (jobs m)) m)) as (_ & _ & -> & ->).
Qed.

Lemma remove_all_lookup ids js n i :
  (remove_all ids js n).1 !! i = if bool_decide (i ∈ ids) then None else js !! i.
Proof.
  revert js n; induction ids as [|x ids IH]; intros js n; simpl; [done|].
  destruct (decide (i = x)) as [->|Hne].
  - rewrite (bool_decide_eq_true_2 (x ∈ x :: ids)) by (by left).
    destruct (js !! x) eqn:E; rewrite IH; case_bool_decide; rewrite ?lookup_delete_eq; done.
  - replace (bool_decide (i ∈ x :: ids)) with (bool_decide (i ∈ ids))
      by (apply bool_decide_ext; set_solver).
    destruct (js !! x) eqn:E; rewrite IH; [|done]. by rewrite lookup_delete_ne.
Qed.

Lemma remove_all_size ids js n :
  (remove_all ids js n).2 + size (remove_all ids js n).1 = n + size js.
Proof.
  revert js n; induction ids as [|x ids IH]; intros js n; simpl; [done|].
  destruct (js !! x) as [j|] eqn:E; rewrite IH; [|done].
  rewrite (map_size_delete_Some x js) by done.
  assert (size js <> 0) by (intros Hz%map_size_empty_inv; by subst js). lia.
Qed.

Definition ids_ok js : Prop := map_Forall (fun i j => id j = i) js.

Lemma stale_ids_spec cutoff m i :
  ids_ok (jobs m) ->
  i ∈ stale_ids cutoff m <-> exists j, jobs m !! i = Some j /\ job_stale cutoff j = true.
Proof.
  intros Hid. unfold stale_ids, list_jobs. rewrite list_elem_of_fmap. split.
  - intros (j & -> & [Hs Hj]%list_elem_of_filter). apply list_elem_of_fmap in Hj as ([i' j'] & -> & Hj).
    apply elem_of_map_to_list in Hj. simpl. rewrite (Hid _ _ Hj). eauto.
  - intros (j & Hj & Hs). exists j. split; [by rewrite (Hid _ _ Hj)|].
    apply list_elem_of_filter. split; [done|]. apply list_elem_of_fmap. exists (i, j).
    split; [done|]. by apply elem_of_map_to_list.
Qed.

(** A retention pass keeps exactly the entries that are not stale. *)
Lemma remove_stale_filter cutoff m n :
  ids_ok (jobs m) ->
  (remove_all (stale_ids cutoff m) (jobs m) n).1 =
  filter (fun ij => job_stale cutoff ij.2 = false) (jobs m).
Proof.
  intros Hid. apply map_eq. intros i. rewrite remove_all_lookup, map_lookup_filter.
  destruct (jobs m !! i) as [j|] eqn:E; simpl; [|by case_bool_decide].
  destruct (job_stale cutoff j) eqn:Es.
  - rewrite bool_decide_eq_true_2 by (apply stale_ids_spec; eauto). by rewrite option_guard_False.
  - rewrite bool_decide_eq_false_2; [by rewrite option_guard_True|].
    intros (j' & ? & ?)%stale_ids_spec; [|done]. congruence.
Qed.

(** ** Every method is a step *)

Definition view m : gmap string (Job T Value) * K := (jobs m, tokens m).

Lemma gc_stale_view older now m :
  ids_ok (jobs m) -> jstep now None (view m) (view (gc_stale older now m).1).
Proof.
  intros Hid. unfold gc_stale, view. destruct (retention_refused m); [constructor|].
  case_bool_decide; [constructor|].
  assert (Hgo : forall b, jstep now None (jobs m, tokens m)
    (view (let (js, removed) := remove_all (stale_ids (now - older) m) (jobs m) 0 in
           (with_jobs js (with_backing b m), removed)).1)).
  { intros b. pose proof (remove_stale_filter (now - older) m 0 Hid) as Hr.
    destruct (remove_all _ _ _) as [js n]. simpl in *. subst js. apply js_gc. }
  destruct (backing m) as [c|c s|w]; simpl; try apply Hgo.
  destruct (writer_delete_older_than _ w) as [w' []]; simpl; [apply Hgo|constructor].
Qed.

Lemma gc_stale_blocking_view older now timed_out m :
  ids_ok (jobs m) -> jstep now None (view m) (view (gc_stale_blocking older now timed_out m).1).
Proof.
  intros Hid. unfold gc_stale_blocking, view. destruct (retention_refused m); [constructor|].
  case_bool_decide; [constructor|].
  assert (Hgo : forall b, jstep now None (jobs m, tokens m)
    (view (let (js, removed) := remove_all (stale_ids (now - older) m) (jobs m) 0 in
           (with_jobs js (with_backing b m), Some removed)).1)).
  { intros b. pose proof (remove_stale_filter (now - older) m 0 Hid) as Hr.
    destruct (remove_all _ _ _) as [js n]. simpl in *. subst js. apply js_gc. }
  destruct (backing m) as [c|c s|w]; simpl; try apply Hgo.
  destruct (writer_delete_blocking _ _ w) as [w' []]; simpl; [apply Hgo|constructor].
Qed.

Lemma create_view i tool parent now m :
  jstep now (Some i) (view m) (view (create_with_parent i tool parent now m).1).
Proof.
  unfold create_with_parent, view.
  destruct (match parent with Some _ => _ | None => _ end) as [t k'] eqn:E.
  cbn [fst]. rewrite commit_jobs, commit_tokens. simpl. constructor.
  destruct parent as [pid|]; [destruct (jobs m !! pid) eqn:Ep|].
  - by eapply nt_child.
  - by constructor.
  - by constructor.
Qed.

(** Each guarded method either leaves the manager alone or commits one edit. *)
Lemma commit_view now i j j' m :
  jobs m !! i = Some j -> edit now (tokens m) j j' -> jstep now None (view m) (view (commit i j' m)).
Proof. intros. unfold view. rewrite commit_jobs, commit_tokens. by eapply js_edit. Qed.

Definition creates (o : op Value) : option string :=
  match o with OCreate i _ _ => Some i | _ => None end.

Lemma exec_jstep o now m :
  ids_ok (jobs m) -> jstep now (creates o) (view m) (view (exec o now m).1).
Proof.
  intros Hid. destruct o as [i t p|i out|i|i v|i e|i|i|i p|d|d b| |]; simpl.
  - apply create_view.
  - unfold set_output, mutate. destruct (jobs m !! i) as [j|] eqn:E; [|constructor]. simpl.
    unfold view. destruct (persist_put_frame (set_output_field out j)
      (with_jobs (<[i:=set_output_field out j]> (jobs m)) m)) as (-> & -> & _). simpl.
    eapply js_edit; [done|constructor].
  - unfold start. destruct (jobs m !! i) as [j|] eqn:E; [|constructor].
    case_bool_decide; [|constructor]. eapply commit_view; [done|by constructor].
  - unfold complete. destruct (jobs m !! i) as [j|] eqn:E; [|constructor].
    case_bool_decide; [|constructor]. eapply commit_view; [done|by constructor].
  - unfold fail. destruct (jobs m !! i) as [j|] eqn:E; [|constructor].
    case_bool_decide; [|constructor]. eapply commit_view; [done|by constructor].
  - unfold cancel. destruct (jobs m !! i) as [j|] eqn:E; [|constructor].
    destruct (status j) eqn:Es; try constructor; (eapply js_cancel; [done|by rewrite Es]).
  - unfold acknowledge_cancel. destruct (jobs m !! i) as [j|] eqn:E; [|constructor].
    destruct (status j) eqn:Es; try constructor;
      (destruct (tok_cancelled _ _) eqn:Et; [|constructor]);
      (eapply commit_view; [done|constructor; by rewrite ?Es]).
  - unfold update_progress. destruct (jobs m !! i) as [j|] eqn:E; [|constructor].
    case_bool_decide; [|constructor]. simpl.
    destruct (progress_rejected _ _) eqn:Ep; [constructor|].
    eapply commit_view; [done|by constructor].
  - by apply gc_stale_view.
  - by apply gc_stale_blocking_view.
  - constructor.
  - destruct (backing m); constructor.
Qed.

(** ** Histories *)

(** The identifiers a history creates. *)
Definition created (ops : list (op Value * Z)) : list string :=
  omap (fun ot => creates ot.1) ops.

(** Fresh identifiers: a history never creates one twice, nor one already known. *)
Definition fresh_run (ops : list (op Value * Z)) js : Prop :=
  NoDup (created ops) /\ forall i, i ∈ created ops -> js !! i = None.

Lemma jstep_ids_ok now c js k js' k' : jstep now c (js, k) (js', k') -> ids_ok js -> ids_ok js'.
Proof.
  intros Hs Hid. inv Hs; try done.
  - by apply map_Forall_insert_2.
  - apply map_Forall_insert_2; [|done]. match goal with H : edit _ _ _ _ |- _ => inv H end;
      simpl; by apply Hid.
  - intros i j [? _]%map_lookup_filter_Some. by apply Hid.
Qed.

Lemma exec_ids_ok o now m : ids_ok (jobs m) -> ids_ok (jobs (exec o now m).1).
Proof. intros Hid. by eapply jstep_ids_ok; [apply (exec_jstep o now m)|]. Qed.

Lemma run_ids_ok ops m : ids_ok (jobs m) -> ids_ok (jobs (run ops m)).
Proof.
  revert m; induction ops as [|[o t] ops IH]; intros m Hid; [done|].
  by apply IH, exec_ids_ok.
Qed.

Lemma jstep_new_entry now c js k js' k' i :
  jstep now c (js, k) (js', k') -> js !! i = None -> is_Some (js' !! i) -> c = Some i.
Proof.
  intros Hs Hn Hy. inv Hs.
  - rewrite Hn in Hy. by apply is_Some_None in Hy.
  - match goal with H : is_Some (<[?x := _]> _ !! _) |- _ => destruct (decide (x = i)) as [->|]; [done|] end.
    rewrite lookup_insert_ne, Hn in Hy by done. by apply is_Some_None in Hy.
  - match goal with H : is_Some (<[?x := _]> _ !! _) |- _ => destruct (decide (x = i)) as [->|]; [congruence|] end.
    rewrite lookup_insert_ne, Hn in Hy by done. by apply is_Some_None in Hy.
  - rewrite Hn in Hy. by apply is_Some_None in Hy.
  - destruct Hy as [j [Hj _]%map_lookup_filter_Some]. congruence.
Qed.

(** Freshness is inherited by the rest of the history. *)
Lemma fresh_run_cons o now ops m :
  ids_ok (jobs m) -> fresh_run ((o, now) :: ops) (jobs m) ->
  (forall i, creates o = Some i -> jobs m !! i = None) /\ fresh_run ops (jobs (exec o now m).1).
Proof.
  intros Hid [Hnd Hf]. unfold created in Hnd, Hf. simpl in Hnd, Hf.
  assert (Hrest : forall i, i ∈ created ops -> jobs m !! i = None /\ creates o <> Some i).
  { intros i Hi. unfold created in Hi. destruct (creates o) as [x|]; [|split; [by apply Hf|done]].
    split; [apply Hf; by right|]. intros [= ->]. by inv Hnd. }
  split.
  - intros i Hi. rewrite Hi in Hf. apply Hf. by left.
  - split; [unfold created; destruct (creates o); [by inv Hnd|done]|].
    intros i Hi. destruct (Hrest i Hi) as [Hn Hc].
    destruct (jobs (exec o now m).1 !! i) eqn:E; [|done]. destruct Hc.
    by eapply jstep_new_entry; [apply (exec_jstep o now m)|done|].
Qed.

Lemma run_app o1 o2 m : run (o1 ++ o2) m = run o2 (run o1 m).
Proof. apply foldl_app. Qed.

Lemma progress_accepted p q :
  progress_rejected p q = false <->
  (current p <= total p)%Z /\
  forall q', q = Some q' -> (current q' <= current p /\ total q' <= total p)%Z.
Proof.
  unfold progress_rejected. destruct q as [q|].
  - split.
    + intros H. bool_to_prop. destruct H as [? [? ?]]. split; [lia|]. intros q' [= <-]. lia.
    + intros [? H]. specialize (H q eq_refl). lia.
  - split; [|lia]. intros H. bool_to_prop. split; [lia|done].
Qed.

(** ** How one entry evolves *)

Inductive edge : JobStatus -> JobStatus -> Prop :=
| e_start : edge Pending Running
| e_complete : edge Running Completed
| e_fail : edge Running Failed
| e_cancel_pending : edge Pending Cancelled
| e_cancel_running : edge Running Cancelled.

Definition progress_le (p q : option JobProgress) : Prop :=
  match p, q with
  | None, _ => True
  | Some p, Some q => (current p <= current q)%Z /\ (total p <= total q)%Z
  | Some _, None => False
  end.

(** [j'] is a later state of [j]: the identity is fixed, the status follows the
    edges, progress only advances, and a terminal entry is frozen but for its
    output target. *)
Record job_le (j j' : Job T Value) : Prop := {
  le_id : id j' = id j;
  le_tool : tool_name j' = tool_name j;
  le_parent : parent_job_id j' = parent_job_id j;
  le_created : created_at j' = created_at j;
  le_token : cancel_token j' = cancel_token j;
  le_status : rtc edge (status j) (status j');
  le_progress : progress_le (progress j) (progress j');
  le_terminal : is_terminal (status j) = true -> j' = set_output_field (output j') j;
}.

Lemma progress_le_refl p : progress_le p p.
Proof. destruct p; simpl; lia. Qed.

Lemma job_le_refl j : job_le j j.
Proof. constructor; try done; [apply progress_le_refl|]. by destruct j. Qed.

Lemma edge_not_terminal s s' : edge s s' -> is_terminal s = false.
Proof. by destruct 1. Qed.

Lemma rtc_edge_terminal s s' : is_terminal s = true -> rtc edge s s' -> s' = s.
Proof. intros Hs Hr. inv Hr as [|? ? ? He]; [done|]. apply edge_not_terminal in He. congruence. Qed.

#[global] Instance job_le_trans : Transitive job_le.
Proof.
  intros x y z Hxy Hyz. destruct Hxy, Hyz. constructor; try congruence.
  - by transitivity (status y).
  - destruct (progress x), (progress y), (progress z); simpl in *; try done; lia.
  - intros Hx. pose proof (rtc_edge_terminal _ _ Hx ltac:(eassumption)) as E.
    rewrite le_terminal1 by congruence. rewrite le_terminal0 by done. by destruct z, x.
Qed.

Lemma edit_le now k j j' : edit now k j j' -> job_le j j'.
Proof.
  destruct 1 as [j o|j Hs|j v Hs|j e Hs|j Hs Hc|j p Hs Hp]; constructor; simpl; try done;
    try apply progress_le_refl; try (rewrite Hs; try done; apply rtc_once; constructor).
  - destruct (status j); try done; apply rtc_once; constructor.
  - by destruct (status j).
  - unfold progress_rejected in Hp. destruct (progress j); simpl; [|done].
    bool_to_prop. intuition lia.
Qed.

Lemma jstep_entry now c js k js' k' i j :
  jstep now c (js, k) (js', k') -> c <> Some i -> js !! i = Some j ->
  (exists j', js' !! i = Some j' /\ job_le j j') \/
  (js' !! i = None /\ is_terminal (status j) = true).
Proof.
  intros Hs Hc Hj. inv Hs.
  - left. exists j. split; [done|apply job_le_refl].
  - left. exists j. rewrite lookup_insert_ne by congruence. split; [done|apply job_le_refl].
  - left. match goal with H : ?l !! ?x = Some _, He : edit _ _ _ _ |- context [<[?x := _]> ?l] =>
      destruct (decide (x = i)) as [->|] end.
    + eexists. rewrite lookup_insert_eq. split; [done|]. simplify_eq. by eapply edit_le.
    + exists j. rewrite lookup_insert_ne by done. split; [done|apply job_le_refl].
  - left. exists j. split; [done|apply job_le_refl].
  - rewrite map_lookup_filter, Hj. simpl. unfold job_stale.
    destruct (is_terminal (status j)) eqn:Et; simpl.
    + destruct (_ <? _)%Z; [right|left]; [done|]. exists j. split; [done|apply job_le_refl].
    + left. exists j. split; [done|apply job_le_refl].
Qed.

(** An identifier a history does not create stays absent. *)
Lemma run_absent (ops : list (op Value * Z)) m i :
  i ∉ created ops -> ids_ok (jobs m) -> jobs m !! i = None -> jobs (run ops m) !! i = None.
Proof.
  revert m; induction ops as [|[o t] ops IH]; intros m Hi Hid Hn; [done|].
  unfold created in Hi. simpl in Hi. apply (IH (exec o t m).1); [|by apply exec_ids_ok|].
  - intros Hi'. apply Hi. destruct (creates o); [by right|done].
  - destruct (jobs (exec o t m).1 !! i) eqn:E; [|done]. destruct Hi.
    rewrite (jstep_new_entry t (creates o) _ _ _ _ i (exec_jstep o t m Hid) Hn) by (by rewrite E).
    by left.
Qed.

(** An entry that survives a history is a later state of itself. *)
Lemma run_entry (ops : list (op Value * Z)) m i j j' :
  ids_ok (jobs m) -> fresh_run ops (jobs m) -> jobs m !! i = Some j ->
  jobs (run ops m) !! i = Some j' -> job_le j j'.
Proof.
  revert m j; induction ops as [|[o t] ops IH]; intros m j Hid Hf Hj Hj'.
  { simpl in Hj'. rewrite Hj in Hj'. simplify_eq. apply job_le_refl. }
  destruct (fresh_run_cons o t ops m Hid Hf) as [Hc Hf'].
  change (run ((o, t) :: ops) m) with (run ops (exec o t m).1) in Hj'.
  destruct (jstep_entry t (creates o) _ _ _ _ i j (exec_jstep o t m Hid)) as [(j1 & Hj1 & Hle)|[Hg _]];
    [intros Ho; apply Hc in Ho; congruence|done| |].
  - transitivity j1; [done|]. by eapply IH; [apply exec_ids_ok| | |].
  - rewrite run_absent in Hj'; [done| |by apply exec_ids_ok|done].
    intros Hi. destruct Hf as [_ Hf]. rewrite Hf in Hj; [done|].
    unfold created in *. simpl. destruct (creates o); [by right|done].
Qed.

(** An entry that does not survive was terminal when it disappeared. *)
Lemma run_gone (ops : list (op Value * Z)) m i j :
  ids_ok (jobs m) -> fresh_run ops (jobs m) -> jobs m !! i = Some j ->
  jobs (run ops m) !! i = None ->
  exists pre suf j', ops = pre ++ suf /\ jobs (run pre m) !! i = Some j' /\
    is_terminal (status j') = true.
Proof.
  revert m j; induction ops as [|[o t] ops IH]; intros m j Hid Hf Hj Hn.
  { simpl in Hn. congruence. }
  destruct (fresh_run_cons o t ops m Hid Hf) as [Hc Hf'].
  change (run ((o, t) :: ops) m) with (run ops (exec o t m).1) in Hn.
  destruct (jstep_entry t (creates o) _ _ _ _ i j (exec_jstep o t m Hid)) as [(j1 & Hj1 & _)|[_ Ht]];
    [intros Ho; apply Hc in Ho; congruence|done| |].
  - destruct (IH _ _ (exec_ids_ok o t m Hid) Hf' Hj1 Hn) as (pre & suf & j' & -> & Hp & Ht').
    by exists ((o, t) :: pre), suf, j'.
  - by exists [], ((o, t) :: ops), j.
Qed.

Lemma fresh_run_app_l (o1 o2 : list (op Value * Z)) js :
  fresh_run (o1 ++ o2) js -> fresh_run o1 js.
Proof.
  intros [Hnd Hf]. unfold fresh_run, created in *. rewrite omap_app in *.
  split; [by apply NoDup_app in Hnd as [? _]|]. intros i Hi. apply Hf, elem_of_app. by left.
Qed.

(** C1: along any history of calls with fresh identifiers, a job's identity is
    fixed, its status follows Pending, Running, terminal (or Pending, Cancelled),
    its progress only advances, and once terminal nothing but its output target
    changes; a job disappears only after it has become terminal. *)
Theorem run_lifecycle (ops : list (op Value * Z)) m i j
  (Hid : ids_ok (jobs m)) (Hfresh : fresh_run ops (jobs m)) (Hj : jobs m !! i = Some j) :
  match jobs (run ops m) !! i with
  | Some j' => job_le j j'
  | None =>
      exists pre suf j', ops = pre ++ suf /\ jobs (run pre m) !! i = Some j' /\
        job_le j j' /\ is_terminal (status j') = true
  end.
Proof.
  destruct (jobs (run ops m) !! i) as [j'|] eqn:E; [by eapply run_entry|].
  destruct (run_gone ops m i j Hid Hfresh Hj E) as (pre & suf & j' & -> & Hp & Ht).
  exists pre, suf, j'. split; [done|]. split; [done|]. split; [|done].
  by eapply run_entry, Hp; [|eapply fresh_run_app_l|].
Qed.

End Lifecycle.

#[export] Hint Rewrite @commit_jobs @commit_tokens @commit_subscribers @commit_delivered : dcc_rw.

(** ** Witness: a job created, started and completed *)

Section Witnesses.
Local Open Scope string_scope.

Abbreviation FManager := (JobManager nat Forest.wstore string (InMemoryStorage string)).

Definition one_job : FManager := run [(OCreate "a" "bake" None, 1%Z)] (manager_new Forest.empty).

Definition bake : list (op string * Z) :=
  [(OStart "a", 2%Z); (OProgress "a" {| current := 1; total := 2; message := None |}, 3%Z);
   (OComplete "a" "ok", 4%Z); (OGc 100, 5%Z)].

Lemma run_lifecycle_witness :
  exists j j', jobs one_job !! "a" = Some j /\ jobs (run bake one_job) !! "a" = Some j' /\
    job_le j j' /\ status j' = Completed.
Proof.
  destruct (jobs one_job !! "a") as [j|] eqn:Hj; [|vm_compute in Hj; discriminate].
  destruct (jobs (run bake one_job) !! "a") as [j'|] eqn:Hj'; [|vm_compute in Hj'; discriminate].
  exists j, j'. split; [done|]. split; [done|]. split.
  - pose proof (run_lifecycle bake one_job "a" j) as Hl. rewrite Hj' in Hl. apply Hl; [| |done].
    + apply map_Forall_insert_2; [done|apply map_Forall_empty].
    + change (created bake) with (@nil string).
      split; [constructor|]. intros i Hi. inv Hi.
  - assert (E : status <$> jobs (run bake one_job) !! "a" = Some Completed) by (vm_compute; reflexivity).
    rewrite Hj' in E. clear Hj Hj'.
    change (Some (status j') = Some Completed) in E. congruence.
Defined.

End Witnesses.
