(* ===== verification/JobMirror.v ===== *)
(** Properties of the job registry, second part: what reaches the backend.

    With a waiting writer and a backend that accepts every operation, the rows
    are at all times the registry's entries ([write_through]); at a restart,
    recovery loads every row, turning the ones that were in flight into
    interrupted jobs ([recover_interrupts]). A snapshot is persisted after the lock
    on its entry is released, so that without further ordering between the callers
    an older snapshot can replace a newer one ([persist_race]). *)

From S2P Require Import Prelude CancelToken JobTypes JobStorage JobPersistence JobManager JobLifecycle.

Section Mirror.
Context {T K Value S : Type} `{CT : CancelTokens T K} `{JS : !JobStorage T K Value S}.
Context {JSL : JobStorageLaws T K Value S}.
Implicit Types (m : JobManager T K Value S) (j : Job T Value) (s : S) (w : Writer T Value S).

(** ** Write-through *)

(** A backend none of whose operations fails. *)
Definition reliable : Prop :=
  (forall j s, (st_put j s).2 = Ok tt) /\
  (forall c s, exists n, (st_delete_older_than c s).2 = Ok n).

(** The writer of a healthy waiting manager between two calls. *)
Definition idle (s : S) : Writer T Value S := mkWriter circuit_configured s [] true true false true.

Definition rows_of (js : gmap string (Job T Value)) : gmap string (PersistedJob Value) :=
  from_job <$> js.

Definition mirrored m : Prop :=
  ids_ok (jobs m) /\ exists s, backing m = Backed (idle s) /\ st_rows s = rows_of (jobs m).

(** No retention pass gives up waiting. *)
Definition patient (o : op Value) : Prop :=
  match o with OGcBlocking _ timed_out => timed_out = false | _ => True end.

Lemma persist_one_reliable j s :
  reliable -> exists s', persist_one j circuit_configured s = (circuit_configured, s') /\
    st_rows s' = <[id j := from_job j]> (st_rows s).
Proof.
  intros [Hput _]. specialize (Hput j s). unfold persist_one.
  cbn [can_write circuit_configured configured disabled andb negb].
  destruct (st_put j s) as [s' r] eqn:E. simpl in Hput. subst r. simpl.
  exists s'. split; [done|]. by eapply st_put_ok.
Qed.

Lemma prune_one_reliable c s :
  reliable -> exists s', prune_one c circuit_configured s = (circuit_configured, s', true) /\
    st_rows s' = filter (fun kv => row_stale c kv.2 = false) (st_rows s).
Proof.
  intros [_ Hdel]. destruct (Hdel c s) as [n Hn]. unfold prune_one.
  cbn [can_write circuit_configured configured disabled andb orb negb].
  destruct (st_delete_older_than c s) as [s' r] eqn:E. simpl in Hn. subst r. simpl.
  exists s'. split; [done|]. by eapply st_delete_ok.
Qed.

Lemma persist_put_mirror j m js :
  reliable -> mirrored m -> js = <[id j := j]> (jobs m) ->
  mirrored (persist_put j (with_jobs js m)).
Proof.
  intros Hr (Hid & s & Hb & Hrows) ->.
  destruct (persist_one_reliable j s Hr) as (s' & E & Hs').
  assert (Hp : persist_put j (with_jobs (<[id j := j]> (jobs m)) m) =
    with_backing (Backed (idle s')) (with_jobs (<[id j := j]> (jobs m)) m)).
  { unfold persist_put. cbn [backing with_jobs]. rewrite Hb.
    rewrite writer_put_wait by done. cbn [circuit backend idle]. by rewrite E. }
  rewrite Hp. split; simpl; [by apply map_Forall_insert_2|].
  exists s'. split; [done|]. rewrite Hs', Hrows. unfold rows_of. by rewrite fmap_insert.
Qed.

Lemma commit_mirror i j m : reliable -> id j = i -> mirrored m -> mirrored (commit i j m).
Proof.
  intros Hr <- Hm. pose proof (persist_put_mirror j m _ Hr Hm eq_refl) as H.
  unfold commit, publish, mutate, emit, mirrored in *. by destruct (persist_put _ _).
Qed.

Lemma rows_of_filter c (js : gmap string (Job T Value)) :
  filter (fun kv => row_stale c kv.2 = false) (rows_of js) =
  rows_of (filter (fun ij => job_stale c ij.2 = false) js).
Proof. unfold rows_of. by rewrite map_filter_fmap. Qed.

(** Both retention paths delete, and wait for, the same rows. *)
Lemma idle_delete c s :
  reliable -> exists s', writer_delete_older_than c (idle s) = (idle s', true) /\
    writer_delete_blocking c false (idle s) = (idle s', true) /\
    st_rows s' = filter (fun kv => row_stale c kv.2 = false) (st_rows s).
Proof.
  intros Hr. destruct (prune_one_reliable c s Hr) as (s' & E & Hs'). exists s'.
  unfold writer_delete_older_than, writer_delete_blocking, try_send, await_worker, idle, enqueue.
  cbn -[prune_one run_worker]. cbn [run_worker app]. rewrite E. done.
Qed.

Lemma retention_mirror c m s' n :
  mirrored m ->
  (forall s, backing m = Backed (idle s) ->
    st_rows s' = filter (fun kv => row_stale c kv.2 = false) (st_rows s)) ->
  mirrored (let (js, removed) := remove_all (stale_ids c m) (jobs m) n in
            (with_jobs js (with_backing (Backed (idle s')) m), removed)).1.
Proof.
  intros (Hid & s & Hb & Hrows) Hs'. specialize (Hs' s Hb).
  pose proof (remove_stale_filter c m n Hid) as Hr.
  destruct (remove_all _ _ _) as [js k]. simpl in *. subst js.
  split; simpl.
  - intros i j [? _]%map_lookup_filter_Some. by apply Hid.
  - exists s'. split; [done|]. by rewrite Hs', Hrows, rows_of_filter.
Qed.

Lemma exec_mirror o now m : reliable -> patient o -> mirrored m -> mirrored (exec o now m).1.
Proof.
  intros Hr Hpt Hm. pose proof Hm as (Hid & s & Hb & Hrows).
  destruct o as [i t p|i out|i|i v|i e|i|i|i p|d|d b| |]; cbn [exec fst].
  - unfold create_with_parent. destruct (match p with Some _ => _ | None => _ end) as [tk k'].
    by apply commit_mirror.
  - unfold set_output. destruct (jobs m !! i) as [j|] eqn:E; [|done]. simpl.
    apply persist_put_mirror; try done. simpl. by rewrite (Hid i j E).
  - unfold start. destruct (jobs m !! i) as [j|] eqn:E; [|done].
    destruct (negb _); [done|]. apply commit_mirror; try done. exact (Hid i j E).
  - unfold complete. destruct (jobs m !! i) as [j|] eqn:E; [|done].
    destruct (negb _); [done|]. apply commit_mirror; try done. exact (Hid i j E).
  - unfold fail. destruct (jobs m !! i) as [j|] eqn:E; [|done].
    destruct (negb _); [done|]. apply commit_mirror; try done. exact (Hid i j E).
  - unfold cancel. destruct (jobs m !! i) as [j|] eqn:E; [|done]. by destruct (status j).
  - unfold acknowledge_cancel. destruct (jobs m !! i) as [j|] eqn:E; [|done].
    destruct (status j), (tok_cancelled (cancel_token j) (tokens m)); try done; apply commit_mirror; try done; exact (Hid i j E).
  - unfold update_progress. destruct (jobs m !! i) as [j|] eqn:E; [|done].
    destruct (negb _); [done|]. destruct (progress_rejected _ _); [done|].
    apply commit_mirror; try done. exact (Hid i j E).
  - unfold gc_stale. destruct (retention_refused m); [done|]. case_bool_decide; [done|].
    rewrite Hb. destruct (idle_delete (now - d) s Hr) as (s' & -> & _ & Hs'). cbn [negb].
    apply retention_mirror; [done|]. intros s0. rewrite Hb. by intros [= <-].
  - unfold gc_stale_blocking. destruct (retention_refused m); [done|]. case_bool_decide; [done|].
    simpl in Hpt. subst b.
    rewrite Hb. destruct (idle_delete (now - d) s Hr) as (s' & _ & -> & Hs'). cbn [negb].
    pose proof (retention_mirror (now - d) m s' 0 Hm) as Hret.
    destruct (remove_all _ _ _). apply Hret. intros s0. rewrite Hb. by intros [= <-].
  - done.
  - rewrite Hb. split; [done|]. exists s. done.
Qed.

Lemma fresh_mirror s (k : K) : st_rows s = ∅ -> mirrored (manager_with_storage s true true k).
Proof.
  intros Hempty. split; [apply map_Forall_empty|]. exists s. split; [done|]. rewrite Hempty.
  symmetry. apply (fmap_empty from_job).
Qed.

Lemma run_mirror (ops : list (op Value * Z)) m :
  reliable -> Forall (fun ot => patient ot.1) ops -> mirrored m -> mirrored (run ops m).
Proof.
  intros Hr Hpt. revert m. induction Hpt as [|[o t] ops Ho Hops IH]; intros m H0; [done|].
  by apply (IH (exec o t m).1), exec_mirror.
Qed.

(** C6: with a waiting writer over a backend that never fails, after any history
    of calls (blocking retention included, unless it times out) the backend's rows
    are exactly the registry's entries. *)
Theorem write_through (ops : list (op Value * Z)) s (k : K)
  (Hreliable : reliable) (Hpatient : Forall (fun ot => patient ot.1) ops) (Hempty : st_rows s = ∅) :
  exists s',
    storage_of (backing (run ops (manager_with_storage s true true k))) = Some s' /\
    st_rows s' = from_job <$> jobs (run ops (manager_with_storage s true true k)).
Proof.
  destruct (run_mirror ops _ Hreliable Hpatient (fresh_mirror s k Hempty)) as (_ & s' & Hb & Hrows).
  exists s'. by rewrite Hb.
Qed.

(** ** Restart recovery *)

Definition recovered (now : Z) j : Job T Value :=
  if inflight (status j) then set_interrupted now j else j.

Definition inflight_count (all : list (Job T Value)) : nat :=
  length (filter (fun j => inflight (status j) = true) all).

Lemma recovered_id now j : id (recovered now j) = id j.
Proof. unfold recovered. by destruct (inflight _). Qed.

(** What the loop did to a map it updates at the identifiers of [all]. *)
Definition updated_at_ids {A} (f : Job T Value -> A) (all : list (Job T Value))
    (a b : gmap string A) : Prop :=
  (forall j, j ∈ all -> b !! id j = Some (f j)) /\
  (forall i, i ∉ id <$> all -> b !! i = a !! i).

Lemma updated_at_ids_cons {A} (f : Job T Value -> A) j all (a b c : gmap string A) :
  id j ∉ id <$> all -> b !! id j = Some (f j) -> (forall i, i <> id j -> b !! i = a !! i) ->
  updated_at_ids f all b c -> updated_at_ids f (j :: all) a c.
Proof.
  intros Hj Hb Ha [Hin Hout]. split.
  - intros j' [->|Hj']%elem_of_cons; [|by apply Hin]. by rewrite Hout.
  - intros i Hi. rewrite fmap_cons, not_elem_of_cons in Hi. destruct Hi.
    rewrite Hout by done. by apply Ha.
Qed.

(** Two maps updated at the same identifiers from related maps are related. *)
Lemma updated_at_ids_rows now all js rs js' rs' :
  updated_at_ids (recovered now) all js js' ->
  updated_at_ids (fun j => from_job (recovered now j)) all rs rs' ->
  (forall i, i ∉ id <$> all -> rs !! i = from_job <$> js !! i) ->
  rs' = rows_of js'.
Proof.
  intros [Hj Hjo] [Hr Hro] Heq. apply map_eq. intros i. unfold rows_of. rewrite lookup_fmap.
  destruct (decide (i ∈ id <$> all)) as [(j & -> & Hin)%list_elem_of_fmap|Hout].
  - by rewrite Hj, Hr.
  - rewrite Hjo, Hro by done. by apply Heq.
Qed.

Lemma recover_loop_spec now all : forall n m s,
  reliable -> NoDup (id <$> all) -> backing m = Backed (idle s) ->
  (forall j, j ∈ all -> st_rows s !! id j = Some (from_job j)) ->
  exists m' s', recover_loop all now n m = (m', Ok (n + inflight_count all)) /\
    backing m' = Backed (idle s') /\
    updated_at_ids (recovered now) all (jobs m) (jobs m') /\
    updated_at_ids (fun j => from_job (recovered now j)) all (st_rows s) (st_rows s').
Proof.
  induction all as [|j all IH]; intros n m s Hr Hnd Hb Hrows.
  { exists m, s. simpl. unfold inflight_count. simpl. rewrite Nat.add_0_r.
    split; [done|]. split; [done|]. split; split; try done; intros j Hj; by inv Hj. }
  rewrite fmap_cons, NoDup_cons in Hnd. destruct Hnd as [Hj Hnd].
  assert (Hrest : forall s', (forall i, i <> id j -> st_rows s' !! i = st_rows s !! i) ->
    forall j', j' ∈ all -> st_rows s' !! id j' = Some (from_job j')).
  { intros s' Hs' j' Hj'. rewrite Hs'; [apply Hrows; by right|].
    intros E. apply Hj. rewrite <- E. by apply list_elem_of_fmap_2. }
  simpl. unfold inflight_count. rewrite filter_cons.
  destruct (inflight (status j)) eqn:Ein.
  - rewrite Hb. simpl. pose proof (proj1 Hr (set_interrupted now j) s) as Hput.
    destruct (st_put (set_interrupted now j) s) as [s1 r] eqn:Ep. simpl in Hput. subst r.
    assert (Hs1 : st_rows s1 = <[id j := from_job (set_interrupted now j)]> (st_rows s))
      by (by eapply st_put_ok in Ep).
    set (m1 := emit _ _).
    destruct (IH (n + 1) m1 s1) as (m' & s' & E & Hb' & Hu & Hv); [done|done|done| |].
    { simpl. apply Hrest. intros i Hi. rewrite Hs1. by rewrite lookup_insert_ne. }
    exists m', s'. split; [rewrite E; do 2 f_equal; unfold inflight_count; simpl; lia|]. split; [done|]. split.
    + eapply updated_at_ids_cons, Hu; [done| |]; simpl.
      * unfold recovered. rewrite Ein. by rewrite lookup_insert_eq.
      * intros i Hi. by rewrite lookup_insert_ne.
    + eapply updated_at_ids_cons, Hv; [done| |]; rewrite Hs1.
      * unfold recovered. rewrite Ein. by rewrite lookup_insert_eq.
      * intros i Hi. by rewrite lookup_insert_ne.
  - set (m1 := with_jobs _ m).
    destruct (IH n m1 s) as (m' & s' & E & Hb' & Hu & Hv); [done|done|done|by apply Hrest|].
    exists m', s'. split; [done|]. split; [done|]. split.
    + eapply updated_at_ids_cons, Hu; [done| |]; simpl.
      * unfold recovered. rewrite Ein. by rewrite lookup_insert_eq.
      * intros i Hi. by rewrite lookup_insert_ne.
    + eapply updated_at_ids_cons, Hv; [done| |]; [|done].
      unfold recovered. rewrite Ein. apply Hrows. by left.
Qed.

(** [all] is what the backend holds, under distinct identifiers. *)
Definition complete_listing (s : S) (all : list (Job T Value)) : Prop :=
  NoDup (id <$> all) /\ st_rows s = list_to_map ((fun j => (id j, from_job j)) <$> all).

Lemma complete_listing_lookup s all :
  complete_listing s all ->
  (forall j, j ∈ all -> st_rows s !! id j = Some (from_job j)) /\
  (forall i, i ∉ id <$> all -> st_rows s !! i = None).
Proof.
  intros [Hnd ->]. split.
  - intros j Hj. apply elem_of_list_to_map_1.
    + by rewrite <- list_fmap_compose.
    + by apply (list_elem_of_fmap_2 (fun j => (id j, from_job j))).
  - intros i Hi. apply not_elem_of_list_to_map_1. by rewrite <- list_fmap_compose.
Qed.

(** C29: after a restart over a backend that never fails, recovery loads every
    persisted job under its identifier: a job that was pending or running comes
    back interrupted with the error "server restart" and the recovery time as
    completion time, any other job comes back as it was; the result counts the
    interrupted ones, and the backend holds exactly the registry again, so a
    second restart interrupts nothing. *)
Theorem recover_interrupts s (k k' : K) (now : Z) (all : list (Job T Value))
  (Hreliable : reliable) (Hlist : st_list default_filter s k = Ok (all, k'))
  (Hall : complete_listing s all) :
  let r := recover_from_storage now (manager_with_storage s true true k) in
  r.2 = Ok (inflight_count all) /\
  (forall j, j ∈ all -> jobs r.1 !! id j = Some (recovered now j)) /\
  (forall i, i ∉ id <$> all -> jobs r.1 !! i = None) /\
  mirrored r.1 /\
  map_Forall (fun _ j => inflight (status j) = false) (jobs r.1).
Proof.
  cbv zeta. unfold recover_from_storage. simpl. rewrite Hlist.
  destruct (complete_listing_lookup s all Hall) as [Hin Hout].
  destruct (recover_loop_spec now all 0
    (with_tokens k' (manager_with_storage s true true k)) s Hreliable (proj1 Hall) eq_refl Hin)
    as (m' & s' & E & Hb & Hu & Hv).
  rewrite E. simpl. split; [done|].
  assert (Hkey : forall i j, jobs m' !! i = Some j -> exists j0, j0 ∈ all /\ i = id j0 /\ j = recovered now j0).
  { intros i j Hj. destruct (decide (i ∈ id <$> all)) as [(j0 & -> & Hj0)%list_elem_of_fmap|Hi].
    - exists j0. rewrite (proj1 Hu) in Hj by done. by simplify_eq.
    - rewrite (proj2 Hu) in Hj by done. done. }
  split; [apply Hu|]. split; [intros i Hi; by rewrite (proj2 Hu)|]. split; [split|].
  - intros i j Hj. destruct (Hkey i j Hj) as (j0 & _ & -> & ->). apply recovered_id.
  - exists s'. split; [done|]. eapply updated_at_ids_rows; [done..|]. intros i Hi.
    simpl. rewrite lookup_empty. by apply Hout.
  - intros i j Hj. destruct (Hkey i j Hj) as (j0 & _ & -> & ->). unfold recovered.
    by destruct (inflight (status j0)) eqn:Ein.
Qed.

(** ** Two mutations of one job

    A method updates the entry under its lock and persists the snapshot after
    releasing it, so the snapshots of two calls can reach the backend in the
    opposite order. *)

Lemma publish_idle j s m :
  reliable -> backing m = Backed (idle s) ->
  exists s', backing (publish j m) = Backed (idle s') /\
    st_rows s' = <[id j := from_job j]> (st_rows s) /\
    jobs (publish j m) = jobs m /\
    delivered (publish j m) = delivered m ++ map (fun n => (n, event_of j)) (seq 0 (subscribers m)) /\
    subscribers (publish j m) = subscribers m.
Proof.
  intros Hr Hb. destruct (persist_one_reliable j s Hr) as (s' & E & Hs'). exists s'.
  unfold publish, persist_put. rewrite Hb. rewrite writer_put_wait by done.
  cbn [circuit backend idle]. by rewrite E.
Qed.

(** A progress report and the completion of one running job each update the
    entry and then persist and announce their snapshot. When the completion runs
    between the two phases of the progress report, both are accepted and the
    registry ends with the completed job, but the backend is left with the
    snapshot of the running one, and the last event says the job is running. *)
Theorem persist_race i j (p : JobProgress) (v : Value) (now now' : Z) m
  (Hreliable : reliable) (Hm : mirrored m) (Hj : jobs m !! i = Some j)
  (Hrun : status j = Running) (Hp : progress_rejected p (progress j) = false) :
  let jp := set_progress p now j in
  let jc := set_completed v now' jp in
  let m1 := mutate i jp m in
  let m2 := mutate i jc m1 in
  let m' := publish jp (publish jc m2) in
  update_progress i p now m = (publish jp m1, Some tt) /\
  complete i v now' m1 = (publish jc m2, Some tt) /\
  jobs m' !! i = Some jc /\
  (exists s', storage_of (backing m') = Some s' /\ st_rows s' !! i = Some (from_job jp)) /\
  delivered m' = delivered m ++ map (fun n => (n, event_of jc)) (seq 0 (subscribers m))
                             ++ map (fun n => (n, event_of jp)) (seq 0 (subscribers m)).
Proof.
  intros jp jc m1 m2 m'. destruct Hm as (Hid & s & Hb & Hrows).
  destruct (publish_idle jc s m2 Hreliable Hb) as (s1 & Hb1 & Hs1 & Hj1 & Hd1 & Hn1).
  destruct (publish_idle jp s1 (publish jc m2) Hreliable Hb1) as (s2 & Hb2 & Hs2 & Hj2 & Hd2 & _).
  assert (Hi : id jp = i) by exact (Hid i j Hj).
  split. { unfold update_progress. by rewrite Hj, Hrun, Hp. }
  split. { unfold complete. cbn [m1 mutate jobs with_jobs]. rewrite lookup_insert_eq.
           cbn [jp status set_progress]. by rewrite Hrun. }
  split. { unfold m'. rewrite Hj2, Hj1. apply lookup_insert_eq. }
  split. { exists s2. unfold m'. rewrite Hb2. split; [done|]. by rewrite Hs2, Hi, lookup_insert_eq. }
  unfold m'. by rewrite Hd2, Hd1, Hn1, <- (assoc_L (++)).
Qed.

End Mirror.
Arguments reliable T K Value S {_}.

(** ** Witnesses over the in-memory backend *)

Section Witnesses.
Local Open Scope string_scope.

Lemma in_memory_reliable : reliable nat Forest.wstore string (InMemoryStorage string).
Proof. split; [done|]. intros c s. by eexists. Qed.

Lemma write_through_witness :
  exists s' : InMemoryStorage string,
    let m := run [(OCreate "a" "bake" None, 1%Z); (OStart "a", 2%Z)]
               (manager_with_storage empty_rows true true Forest.empty) in
    storage_of (backing m) = Some s' /\ st_rows s' = from_job <$> jobs m.
Proof.
  apply (write_through [(OCreate "a" "bake" None, 1%Z); (OStart "a", 2%Z)] empty_rows Forest.empty
    in_memory_reliable); [by repeat constructor|done].
Defined.

(** A backend left by a crash: one running and one completed job. *)
Definition running_row : PersistedJob string :=
  mkRow "a" None "bake" Running None None None 1 (Some 2%Z) None 2.
Definition completed_row : PersistedJob string :=
  mkRow "b" None "bake" Completed None (Some "ok") None 1 (Some 2%Z) (Some 3%Z) 3.
Definition crashed : InMemoryStorage string :=
  {| rows := <["a" := running_row]> (<["b" := completed_row]> ∅) |}.

Lemma recover_interrupts_witness :
  (recover_from_storage 9 (manager_with_storage crashed true true Forest.empty)).2 = Ok 1.
Proof.
  destruct (to_jobs (T := nat) [running_row; completed_row] Forest.empty) as [all k'] eqn:E.
  assert (Hlist : st_list default_filter crashed Forest.empty = Ok (all, k')).
  { change (st_list default_filter crashed Forest.empty) with
      (mem_list (T := nat) default_filter crashed Forest.empty).
    unfold mem_list.
    replace (filter _ _) with [running_row; completed_row] by (vm_compute; reflexivity).
    by rewrite E. }
  assert (Hall : complete_listing crashed all).
  { assert (Hfst : all = (to_jobs (T := nat) [running_row; completed_row] Forest.empty).1) by (by rewrite E).
    rewrite Hfst. split; [apply (bool_decide_unpack _); vm_compute; exact I|vm_compute; reflexivity]. }
  pose proof (recover_interrupts crashed Forest.empty k' 9 all in_memory_reliable Hlist Hall) as [Hr _].
  rewrite Hr. do 2 f_equal.
  assert (Hfst : all = (to_jobs (T := nat) [running_row; completed_row] Forest.empty).1) by (by rewrite E).
  rewrite Hfst. vm_compute. reflexivity.
Defined.

Lemma persist_race_witness :
  let m := run [(OSubscribe, 0%Z); (OCreate "a" "bake" None, 1%Z); (OStart "a", 2%Z)]
             (manager_with_storage empty_rows true true Forest.empty) in
  exists j, jobs m !! "a" = Some j /\
    let jp := set_progress (Build_JobProgress 1 2 None) 3 j in
    let jc := set_completed "ok" 4 jp in
    let m' := publish jp (publish jc (mutate "a" jc (mutate "a" jp m))) in
    jobs m' !! "a" = Some jc /\
    exists s', storage_of (backing m') = Some s' /\ (p_status <$> (st_rows s' !! "a")) = Some Running.
Proof.
  intros m.
  assert (Hm : mirrored m).
  { apply run_mirror; [apply in_memory_reliable|by repeat constructor|by apply fresh_mirror]. }
  destruct (jobs m !! "a") as [j|] eqn:Hj; [|vm_compute in Hj; discriminate].
  assert (Hs : status j = Running) by (vm_compute in Hj; injection Hj as <-; reflexivity).
  assert (Hp : progress_rejected (Build_JobProgress 1 2 None) (progress j) = false)
    by (vm_compute in Hj; injection Hj as <-; reflexivity).
  destruct (persist_race "a" j (Build_JobProgress 1 2 None) "ok" 3 4 m in_memory_reliable Hm Hj Hs Hp)
    as (_ & _ & Hfin & (s' & Hb & Hrow) & _).
  exists j. split; [done|]. intros jp jc m'. split; [exact Hfin|]. exists s'. split; [exact Hb|].
  rewrite Hrow. simpl. by rewrite Hs.
Defined.

End Witnesses.
