(* ===== verification/JobRegistry.v ===== *)
(** Properties of the job registry, third part: the well-formedness invariant,
    which calls are accepted and what the others leave, recovery from
    storage among them, cancellation of a whole subtree, what the
    subscribers receive, and retention. *)

From S2P Require Import Prelude CancelToken JobTypes JobStorage JobPersistence JobManager JobLifecycle JobMirror.

(** A concrete token store and JSON values as strings, for the witnesses. *)
Abbreviation FManager := (JobManager nat Forest.wstore string (InMemoryStorage string)).
Abbreviation fnew := (manager_new Forest.empty : FManager).

Section Registry.
Context {T K Value S : Type} `{CT : CancelTokens T K} `{JS : !JobStorage T K Value S}.
Implicit Types (m : JobManager T K Value S) (j : Job T Value).

(** ** Well-formedness *)

(** The clock of a history never goes back, and starts at [now] or later. *)
Fixpoint clock_ok (now : Z) (ops : list (op Value * Z)) : Prop :=
  match ops with
  | [] => True
  | (_, t) :: ops' => (now <= t)%Z /\ clock_ok t ops'
  end.

Definition entry_ok (now : Z) (i : string) j : Prop :=
  id j = i /\ job_wf j /\ (updated_at j <= now)%Z.

Definition manager_ok (now : Z) m : Prop := map_Forall (entry_ok now) (jobs m).

Lemma manager_ok_ids now m : manager_ok now m -> ids_ok (jobs m).
Proof. intros H i j Hj. by destruct (H i j Hj). Qed.

Lemma manager_ok_later now t m : (now <= t)%Z -> manager_ok now m -> manager_ok t m.
Proof. intros Hle H i j Hj. destruct (H i j Hj) as (? & ? & ?). split; [done|]. split; [done|lia]. Qed.

Lemma edit_wf now k j j' :
  job_wf j -> (updated_at j <= now)%Z -> edit now k j j' -> job_wf j' /\ (updated_at j' <= now)%Z.
Proof.
  intros (Hf & Hp & Hc & Hst) Hu He. unfold job_wf, status_fields, progress_ok, times_ok in *.
  assert (Hst' : match started_at j with
                 | Some s => (created_at j <= s <= now)%Z | None => True end)
    by (destruct (started_at j); [lia|done]).
  destruct He as [j o|j Hs|j v Hs|j e Hs|j Hs Ht|j p Hs Hr]; simpl in *;
    try rewrite Hs in *; deex; repeat split; eauto; try lia;
    try (destruct (started_at j); try done; lia).
  - by destruct (status j); try done; deex.
  - by destruct (status j); try done; deex.
  - unfold progress_rejected in Hr. bool_to_prop. lia.
Qed.

Lemma jstep_manager_ok now c (js : gmap string (Job T Value)) k js' k' :
  jstep now c (js, k) (js', k') -> map_Forall (entry_ok now) js -> map_Forall (entry_ok now) js'.
Proof.
  intros Hs Hok. inv Hs; try done.
  - apply map_Forall_insert_2; [|done]. split; [done|]. split; [apply job_new_wf|done].
  - match goal with Hj : _ !! _ = Some _, He : edit _ _ _ _ |- _ =>
      destruct (Hok _ _ Hj) as (Hid & Hw & Hu); destruct (edit_wf _ _ _ _ Hw Hu He);
      apply map_Forall_insert_2; [|done]; pose proof (edit_le _ _ _ _ He) as [Hi _ _ _ _ _ _ _] end.
    split; [congruence|done].
  - intros i j [? _]%map_lookup_filter_Some. by apply Hok.
Qed.

Lemma exec_manager_ok o now m : manager_ok now m -> manager_ok now (exec o now m).1.
Proof.
  intros Hok. eapply jstep_manager_ok; [apply (exec_jstep o now m)|done].
  by eapply manager_ok_ids.
Qed.

Lemma run_manager_ok (ops : list (op Value * Z)) now m :
  clock_ok now ops -> manager_ok now m -> exists t, manager_ok t (run ops m).
Proof.
  revert now m; induction ops as [|[o t] ops IH]; intros now m Hc Hok; [by exists now|].
  destruct Hc as [Hle Hc]. apply (IH t (exec o t m).1 Hc).
  apply exec_manager_ok. by eapply manager_ok_later.
Qed.

(** Whatever calls are made, as long as the clock does not go back, every
    entry of a manager built from empty is stored under its own identifier and is
    well formed: the optional fields are those its status allows, its progress
    does not exceed its total, and creation, start and completion are in order. *)
Theorem run_well_formed (ops : list (op Value * Z)) (k : K) (now : Z) i j
  (Hclock : clock_ok now ops) (Hj : jobs (run ops (manager_new k : JobManager T K Value S)) !! i = Some j) :
  id j = i /\ job_wf j.
Proof.
  destruct (run_manager_ok ops now (manager_new k) Hclock (map_Forall_empty _)) as [t Ht].
  by destruct (Ht i j Hj) as (? & ? & _).
Qed.

(** ** Which calls are accepted *)

(** When a method succeeds. [gc_stale] reports a count in every case; its blocking
    form reports a failure when the backend did not confirm the deletion. *)
Definition allowed (o : op Value) (now : Z) m : Prop :=
  match o with
  | OCreate _ _ _ | OGc _ | OSubscribe | OWorker => True
  | OGcBlocking d timed_out =>
      retention_refused m = true \/ stale_ids (now - d) m = [] \/
      (forall w, backing m = Backed w -> (writer_delete_blocking (now - d) timed_out w).2 = true)
  | OSetOutput i _ => is_Some (jobs m !! i)
  | OStart i => exists j, jobs m !! i = Some j /\ status j = Pending
  | OComplete i _ | OFail i _ => exists j, jobs m !! i = Some j /\ status j = Running
  | OCancel i => exists j, jobs m !! i = Some j /\ (status j = Pending \/ status j = Running)
  | OAck i => exists j, jobs m !! i = Some j /\ (status j = Pending \/ status j = Running) /\
                tok_cancelled (cancel_token j) (tokens m) = true
  | OProgress i p => exists j, jobs m !! i = Some j /\ status j = Running /\
                (current p <= total p)%Z /\
                forall q, progress j = Some q -> (current q <= current p /\ total q <= total p)%Z
  end.

(** What a method that does not succeed leaves: everything as it was, but for the
    writer of a blocking retention pass, which keeps what it learned of the backend. *)
Definition rejected_state (o : op Value) (now : Z) m : JobManager T K Value S :=
  match o, backing m with
  | OGcBlocking d timed_out, Backed w =>
      with_backing (Backed (writer_delete_blocking (now - d) timed_out w).1) m
  | _, _ => m
  end.

(** A guarded method: split the equivalence, then compare the statuses. *)
Ltac solve_allowed :=
  simpl; split; [split|]; intros; deex; simplify_eq; try done; try congruence;
  first [eexists; split; [done|]; intuition congruence | intuition congruence].

Lemma gc_stale_blocking_accepted (d now : Z) (timed_out : bool) m :
  (bool_decide (is_Some (gc_stale_blocking d now timed_out m).2) = true <->
     allowed (OGcBlocking d timed_out) now m) /\
  (bool_decide (is_Some (gc_stale_blocking d now timed_out m).2) = false ->
     (gc_stale_blocking d now timed_out m).1 = rejected_state (OGcBlocking d timed_out) now m).
Proof.
  cbn [allowed rejected_state]. unfold gc_stale_blocking.
  destruct (retention_refused m) eqn:Er; [split; [split; [intros _; by left|done]|done]|].
  destruct (bool_decide_reflect (stale_ids (now - d) m = [])) as [Es|Es]; [split; [split; [intros _; right; by left|done]|done]|].
  destruct (backing m) as [c|c s|w] eqn:Eb.
  1, 2: simpl; destruct (remove_all _ _ _); simpl; split; [|done]; split; [|done];
    intros _; right; right; intros w; congruence.
  destruct (writer_delete_blocking (now - d) timed_out w) as [w' ok] eqn:Ew.
  destruct ok; simpl.
  - destruct (remove_all _ _ _). simpl. split; [|done]. split; [|done].
    intros _. right; right. intros w0 [= <-]. by rewrite Ew.
  - split; [|done]. split; [done|]. intros [?|[?|H]]; [done..|].
    specialize (H w eq_refl). by rewrite Ew in H.
Qed.

Lemma exec_accepted (o : op Value) (now : Z) m :
  ((exec o now m).2 = true <-> allowed o now m) /\
  ((exec o now m).2 = false -> (exec o now m).1 = rejected_state o now m).
Proof.
  destruct o as [i t p|i out|i|i v|i e|i|i|i p|d|d b| |];
    try apply gc_stale_blocking_accepted; cbn [exec fst snd allowed rejected_state]; try done.
  - unfold set_output. destruct (jobs m !! i) as [j|] eqn:E; simpl; [done|].
    split; [|done]. split; [done|]. by intros [? ?].
  - unfold start. destruct (jobs m !! i) as [j|]; [|solve_allowed].
    destruct (bool_decide_reflect (status j = Pending)); solve_allowed.
  - unfold complete. destruct (jobs m !! i) as [j|]; [|solve_allowed].
    destruct (bool_decide_reflect (status j = Running)); solve_allowed.
  - unfold fail. destruct (jobs m !! i) as [j|]; [|solve_allowed].
    destruct (bool_decide_reflect (status j = Running)); solve_allowed.
  - unfold cancel. destruct (jobs m !! i) as [j|]; [|solve_allowed].
    destruct (status j) eqn:Es; solve_allowed.
  - unfold acknowledge_cancel. destruct (jobs m !! i) as [j|]; [|solve_allowed].
    destruct (status j) eqn:Es; try destruct (tok_cancelled _ _) eqn:Et; solve_allowed.
  - unfold update_progress. destruct (jobs m !! i) as [j|]; [|solve_allowed].
    destruct (bool_decide_reflect (status j = Running)) as [Hs|]; [|solve_allowed].
    pose proof (progress_accepted p (progress j)) as Hp.
    destruct (progress_rejected p (progress j)); simpl.
    + split; [|done]. split; [done|]. intros (j' & [= <-] & _ & Hc).
      by apply (proj2 Hp) in Hc.
    + split; [|done]. split; [|done]. intros _. exists j. split; [done|]. split; [done|].
      by apply (proj1 Hp).
Qed.

(** Recovery at a restart. [written all s s']: the backend accepted, one after
    another, the interrupted form of every job of [all] that was in flight. *)
Inductive written (now : Z) : list (Job T Value) -> S -> S -> Prop :=
| written_nil s : written now [] s s
| written_kept j all s s' :
    inflight (status j) = false -> written now all s s' -> written now (j :: all) s s'
| written_put j all s s1 s' :
    inflight (status j) = true -> st_put (set_interrupted now j) s = (s1, Ok tt) ->
    written now all s1 s' -> written now (j :: all) s s'.

(** The registry with the jobs of [all] loaded. *)
Definition loaded (now : Z) (all : list (Job T Value)) (js : gmap string (Job T Value)) :=
  foldl (fun js j => <[id j := recovered now j]> js) js all.

(** The outcome of the loop over the listed jobs, with the backend in [s]. *)
Definition loop_outcome (now : Z) (all : list (Job T Value)) m (s : S)
    (m' : JobManager T K Value S) (r : result JobStorageError nat) : Prop :=
  let writes := can_write (circuit_of (backing m)) in
  match r with
  | Ok _ => jobs m' = loaded now all (jobs m) /\
            (writes = true -> exists s', written now all s s')
  | Err e => writes = true /\ exists before j after s1 s2,
      all = before ++ j :: after /\ written now before s s1 /\ inflight (status j) = true /\
      st_put (set_interrupted now j) s1 = (s2, Err e) /\
      jobs m' = loaded now before (jobs m) /\ storage_of (backing m') = Some s2 /\
      circuit_of (backing m') = (disable (error_kind e) (circuit_of (backing m))).1
  end.

Lemma storage_state_frame (s s' : S) (b : Backing T Value S) :
  storage_of b = Some s ->
  storage_of (with_storage_state s' b) = Some s' /\
  circuit_of (with_storage_state s' b) = circuit_of b.
Proof. by destruct b. Qed.

Lemma with_circuit_frame f (b : Backing T Value S) :
  storage_of (with_circuit f b) = storage_of b /\ circuit_of (with_circuit f b) = f (circuit_of b).
Proof. by destruct b. Qed.

Lemma loop_outcome_cons now j all m s m1 s1 m' r :
  (inflight (status j) = false /\ s1 = s \/
   inflight (status j) = true /\ can_write (circuit_of (backing m)) = false /\ s1 = s \/
   inflight (status j) = true /\ st_put (set_interrupted now j) s = (s1, Ok tt)) ->
  jobs m1 = <[id j := recovered now j]> (jobs m) ->
  circuit_of (backing m1) = circuit_of (backing m) ->
  loop_outcome now all m1 s1 m' r -> loop_outcome now (j :: all) m s m' r.
Proof.
  intros Hj Hjobs Hc Ho. unfold loop_outcome in *. rewrite Hc, Hjobs in Ho.
  assert (Hw : forall l s', can_write (circuit_of (backing m)) = true ->
    written now l s1 s' -> written now (j :: l) s s').
  { intros l s' Hcw Hw. destruct Hj as [[? ->]|[(_ & ? & _)|[? ?]]]; [by constructor|congruence|].
    by eapply written_put. }
  destruct r as [n|e].
  - destruct Ho as [-> Ho]. split; [done|]. intros Hcw. destruct (Ho Hcw) as [s' ?]. exists s'. by apply Hw.
  - destruct Ho as (Hcw & before & j' & after & s2 & s3 & -> & Hb & ? & ? & -> & ? & ?).
    split; [done|]. exists (j :: before), j', after, s2, s3. repeat split; try done. by apply Hw.
Qed.

Lemma recover_loop_outcome now all : forall n m s,
  storage_of (backing m) = Some s ->
  loop_outcome now all m s (recover_loop all now n m).1 (recover_loop all now n m).2.
Proof.
  induction all as [|j all IH]; intros n m s Hs.
  { simpl. split; [done|]. intros _. exists s. constructor. }
  cbn [recover_loop]. destruct (inflight (status j)) eqn:Ein.
  2: { eapply loop_outcome_cons with (s1 := s); [..|apply IH; exact Hs]; [by left| |done].
       simpl. unfold recovered. by rewrite Ein. }
  rewrite Hs. destruct (can_write (circuit_of (backing m))) eqn:Ecw.
  2: { eapply loop_outcome_cons with (s1 := s); [..|apply IH; exact Hs]; [right; by left| |done].
       simpl. unfold recovered. by rewrite Ein. }
  destruct (st_put (set_interrupted now j) s) as [s1 [[]|e]] eqn:Ep.
  - destruct (storage_state_frame s s1 (backing m) Hs) as [Hs1 Hc1].
    eapply loop_outcome_cons with (s1 := s1); [..|apply IH; exact Hs1]; [right; by right| |exact Hc1].
    simpl. unfold recovered. by rewrite Ein.
  - destruct (storage_state_frame s s1 (backing m) Hs) as [Hs1 Hc1].
    split; [done|]. exists [], j, all, s, s1.
    destruct (with_circuit_frame (fun c => (disable (error_kind e) c).1)
      (with_storage_state s1 (backing m))) as [Hst Hci].
    split; [done|]. split; [constructor|]. split; [done|]. split; [done|]. split; [done|].
    split; [exact (eq_trans Hst Hs1)|]. etransitivity; [exact Hci|]. by rewrite Hc1.
Qed.

(** A recovery that can succeed: the backend lists its jobs and, unless the circuit
    is open, accepts the interrupted form of each one that was in flight. *)
Definition recoverable (now : Z) m : Prop :=
  forall s, storage_of (backing m) = Some s -> exists all k,
    st_list default_filter s (tokens m) = Ok (all, k) /\
    (can_write (circuit_of (backing m)) = true -> exists s', written now all s s').

(** A put that is refused and one that is accepted do not share a prefix. *)
Lemma written_app_refused now before j after s s1 s2 e s' :
  written now before s s1 -> inflight (status j) = true ->
  st_put (set_interrupted now j) s1 = (s2, Err e) -> ~ written now (before ++ j :: after) s s'.
Proof.
  induction 1 as [s|j0 all s s1 Hi Hw IH|j0 all s s0 s1 Hi Hp Hw IH]; intros Hin Hput Hall;
    simpl in Hall; inv Hall; try congruence.
  - by apply IH.
  - apply IH; [done..|]. congruence.
Qed.

(** C4: a call succeeds exactly when its job is known and in a state that admits
    it (cancellation must have been requested before it is acknowledged, progress
    may only advance within its total), a blocking retention pass exactly when it
    has nothing to delete or the backend confirmed the deletion. A rejected call
    changes nothing, neither entries, tokens, persistence nor subscribers, except
    that a failed retention pass leaves the writer in the state the failure put it
    in. Recovery from storage succeeds exactly when the backend lists its jobs and
    takes every interrupted one while the circuit allows writing; when it fails,
    either the listing failed and nothing changed, or a put was refused: then
    exactly the jobs listed before it are loaded and persistence is disabled. *)
Theorem exec_accepted_iff (o : op Value) (now : Z) m :
  ((exec o now m).2 = true <-> allowed o now m) /\
  ((exec o now m).2 = false -> (exec o now m).1 = rejected_state o now m) /\
  let r := recover_from_storage now m in
  ((exists n, r.2 = Ok n) <-> recoverable now m) /\
  forall e, r.2 = Err e -> exists s, storage_of (backing m) = Some s /\
    (st_list default_filter s (tokens m) = Err e /\ r.1 = m \/
     exists before j after k s1 s2,
       st_list default_filter s (tokens m) = Ok (before ++ j :: after, k) /\
       written now before s s1 /\ inflight (status j) = true /\
       st_put (set_interrupted now j) s1 = (s2, Err e) /\
       jobs r.1 = loaded now before (jobs m) /\ storage_of (backing r.1) = Some s2 /\
       circuit_of (backing r.1) = (disable (error_kind e) (circuit_of (backing m))).1).
Proof.
  destruct (exec_accepted o now m) as [Hiff Hrej].
  split; [exact Hiff|]. split; [exact Hrej|]. clear o Hiff Hrej. cbv zeta.
  unfold recover_from_storage, recoverable.
  destruct (storage_of (backing m)) as [s|] eqn:Es; [|simpl; naive_solver].
  destruct (st_list default_filter s (tokens m)) as [[all k]|e] eqn:El.
  2: { split; [split|].
       - by intros [? [=]].
       - intros H. destruct (H s eq_refl) as (all & k & E & _). congruence.
       - intros e0 [= <-]. exists s. split; [done|]. by left. }
  pose proof (recover_loop_outcome now all 0 (with_tokens k m) s Es) as Ho.
  destruct (recover_loop all now 0 (with_tokens k m)) as [m' [n|e]]; simpl in *.
  - destruct Ho as [_ Ho]. split; [|done]. split; [|by eauto].
    intros _ s0 [= <-]. by exists all, k.
  - destruct Ho as (Hcw & before & j & after & s1 & s2 & -> & Hw & Hi & Hp & Hj & Hst & Hc).
    split.
    + split; [by intros [? [=]]|]. intros H. destruct (H s eq_refl) as (all & k' & E & Hall).
      rewrite El in E. injection E as <- <-.
      destruct (Hall Hcw) as [s' Hs']. by apply written_app_refused with (1 := Hw) (3 := Hp) in Hs'.
    + intros e0 [= <-]. exists s. split; [done|]. right. exists before, j, after, k, s1, s2. done.
Qed.

(** ** Cancellation of a subtree *)

Context {CTL : CancelTokenLaws T K}.

Definition tokens_live (js : gmap string (Job T Value)) (k : K) : Prop :=
  map_Forall (fun _ j => tok_live (cancel_token j) k) js.

Lemma new_token_frame (js : gmap string (Job T Value)) k parent t k' u :
  new_token js k parent t k' -> tok_live u k ->
  tok_live u k' /\ (forall v, tok_below k' v u <-> tok_below k v u).
Proof.
  intros [pid p ? ? _ E|? ? ? _ E] Hu.
  - destruct (tok_child_frame _ _ _ _ _ E Hu) as (? & _ & ?). done.
  - destruct (tok_new_frame _ _ _ _ E Hu) as (? & _ & ?). done.
Qed.

Lemma new_token_live (js : gmap string (Job T Value)) k parent t k' :
  tokens_live js k -> new_token js k parent t k' -> tok_live t k'.
Proof.
  intros Hl [pid p ? ? Hp E|? ? ? _ E].
  - destruct (tok_child_spec _ _ _ _ E (Hl _ _ Hp)) as (_ & ? & _). done.
  - destruct (tok_new_spec _ _ _ E) as (_ & ? & _). done.
Qed.

(** Steps keep the live tokens and their ancestry. *)
Lemma jstep_tokens now c (js : gmap string (Job T Value)) k js' k' u :
  jstep now c (js, k) (js', k') -> tok_live u k ->
  tok_live u k' /\ (forall v, tok_below k' v u <-> tok_below k v u).
Proof.
  intros Hs Hu. inv Hs; try done.
  - by eapply new_token_frame.
  - by apply tok_cancel_frame.
Qed.

Lemma jstep_tokens_live now c (js : gmap string (Job T Value)) k js' k' :
  jstep now c (js, k) (js', k') -> tokens_live js k -> tokens_live js' k'.
Proof.
  intros Hs Hl.
  assert (Hl' : tokens_live js k'). { intros i j Hj. destruct (jstep_tokens _ _ _ _ _ _ (cancel_token j) Hs (Hl i j Hj)). done. }
  inv Hs; try done.
  - apply map_Forall_insert_2; [|done]. eapply new_token_live; [exact Hl|by simpl].
  - match goal with Hj : _ !! _ = Some _, He : edit _ _ _ _ |- _ =>
      pose proof (edit_le _ _ _ _ He) as [_ _ _ _ Ht _ _ _];
      apply map_Forall_insert_2; [rewrite Ht; by eapply Hl|done] end.
  - intros i j [? _]%map_lookup_filter_Some. by apply (Hl i).
Qed.

Lemma exec_tokens_live o now m :
  ids_ok (jobs m) -> tokens_live (jobs m) (tokens m) ->
  tokens_live (jobs (exec o now m).1) (tokens (exec o now m).1).
Proof. intros Hid. by apply (jstep_tokens_live now (creates o)), exec_jstep. Qed.

Lemma run_tokens_live (ops : list (op Value * Z)) m :
  ids_ok (jobs m) -> tokens_live (jobs m) (tokens m) ->
  tokens_live (jobs (run ops m)) (tokens (run ops m)).
Proof.
  revert m; induction ops as [|[o t] ops IH]; intros m Hid Hl; [done|].
  by apply (IH (exec o t m).1); [apply exec_ids_ok|apply exec_tokens_live].
Qed.

Lemma run_below (ops : list (op Value * Z)) m u v :
  ids_ok (jobs m) -> tok_live u (tokens m) -> tok_below (tokens m) v u ->
  tok_live u (tokens (run ops m)) /\ tok_below (tokens (run ops m)) v u.
Proof.
  revert m; induction ops as [|[o t] ops IH]; intros m Hid Hu Hb; [done|].
  destruct (jstep_tokens t (creates o) _ _ _ _ u (exec_jstep o t m Hid) Hu) as [Hu' Hb'].
  apply (IH (exec o t m).1); [by apply exec_ids_ok|done|]. by apply Hb'.
Qed.

(** C5: cancellation reaches the children.  If a job is created with a parent
    and, after any further history, the parent's cancellation is accepted, then
    the child, if it is still pending or running, sees its token cancelled and its
    acknowledgement is accepted; requesting the cancellation changes no entry. *)
Theorem cancel_cascades m (pid cid tool : string) p (now : Z) (ops : list (op Value * Z)) m2
  (Hid : ids_ok (jobs m)) (Hlive : tokens_live (jobs m) (tokens m))
  (Hp : jobs m !! pid = Some p) (Hc : jobs m !! cid = None)
  (Hfresh : fresh_run ops (jobs (create_with_parent cid tool (Some pid) now m).1))
  (Hrun : m2 = run ops (create_with_parent cid tool (Some pid) now m).1)
  (Hcancel : (cancel pid m2).2 = Some tt) :
  jobs (cancel pid m2).1 = jobs m2 /\
  forall c, jobs m2 !! cid = Some c -> inflight (status c) = true ->
    tok_cancelled (cancel_token c) (tokens (cancel pid m2).1) = true /\
    forall t, (acknowledge_cancel cid t (cancel pid m2).1).2 = Some tt.
Proof.
  set (m1 := (create_with_parent cid tool (Some pid) now m).1) in *.
  assert (Hid1 : ids_ok (jobs m1)) by apply (exec_ids_ok (OCreate cid tool (Some pid)) now m Hid).
  pose proof (exec_tokens_live (OCreate cid tool (Some pid)) now m Hid Hlive) as Hl1.
  destruct (tok_child (cancel_token p) (tokens m)) as [tk k'] eqn:Et.
  destruct (tok_child_spec _ _ _ _ Et (Hlive _ _ Hp)) as (_ & Htk & _ & Hbelow).
  assert (Hc1 : jobs m1 !! cid = Some (Job_new cid tool (Some pid) tk now) /\
    jobs m1 !! pid = Some p /\ tokens m1 = k').
  { unfold m1, create_with_parent. rewrite Hp, Et. cbn [fst]. rewrite commit_jobs, commit_tokens.
    rewrite lookup_insert_eq, lookup_insert_ne by congruence. done. }
  destruct Hc1 as (Hc1 & Hp1 & Hk1).
  destruct (run_below ops m1 tk (cancel_token p) Hid1) as [Htk2 Hb2]; [by rewrite Hk1..|].
  pose proof (run_tokens_live ops m1 Hid1 Hl1) as Hl2.
  rewrite <- Hrun in Htk2, Hb2, Hl2.
  unfold cancel in *. destruct (jobs m2 !! pid) as [p2|] eqn:Ep2; [|done].
  pose proof (run_entry ops m1 pid p p2 Hid1 Hfresh Hp1 ltac:(by rewrite <- Hrun)) as [_ _ _ _ Htp _ _ _].
  assert (Hin : inflight (status p2) = true) by (by destruct (status p2)).
  replace (match status p2 with Pending | Running => _ | _ => _ end)
    with (with_tokens (tok_cancel (cancel_token p2) (tokens m2)) m2, Some tt)
    by (by destruct (status p2)).
  simpl. split; [done|]. intros c Hjc Hc2.
  pose proof (run_entry ops m1 cid _ c Hid1 Hfresh Hc1 ltac:(by rewrite <- Hrun)) as [_ _ _ _ Htc _ _ _].
  simpl in Htc.
  assert (Hcan : tok_cancelled (cancel_token c) (tok_cancel (cancel_token p2) (tokens m2)) = true).
  { apply tok_cancel_spec; [by eapply Hl2|by eapply Hl2|]. right. by rewrite Htc, Htp. }
  split; [done|]. intros t. unfold acknowledge_cancel. simpl. rewrite Hjc, Hcan.
  by destruct (status c).
Qed.


(** ** What subscribers receive *)

(** The job whose new state a successful call announces. *)
Definition announces (o : op Value) : option string :=
  match o with
  | OCreate i _ _ | OStart i | OComplete i _ | OFail i _ | OAck i | OProgress i _ => Some i
  | OSetOutput _ _ | OCancel _ | OGc _ | OGcBlocking _ _ | OSubscribe | OWorker => None
  end.

Lemma gc_stale_delivered older now m : delivered (gc_stale older now m).1 = delivered m.
Proof.
  unfold gc_stale. destruct (retention_refused m); [done|]. case_bool_decide; [done|].
  destruct (match backing m with Backed _ => _ | _ => _ end) as [b []]; [|done].
  by destruct (remove_all _ _ _).
Qed.

Lemma gc_stale_blocking_delivered older now timed_out m :
  delivered (gc_stale_blocking older now timed_out m).1 = delivered m.
Proof.
  unfold gc_stale_blocking. destruct (retention_refused m); [done|]. case_bool_decide; [done|].
  destruct (match backing m with Backed _ => _ | _ => _ end) as [b []]; [|done].
  by destruct (remove_all _ _ _).
Qed.

(** A commit announces the entry it stored. *)
Lemma commit_announces i j m :
  exists j', jobs (commit i j m) !! i = Some j' /\
    delivered (commit i j m) =
    delivered m ++ map (fun s => (s, event_of j')) (seq 0 (subscribers m)).
Proof. exists j. rewrite commit_jobs, commit_delivered. by rewrite lookup_insert_eq. Qed.

(** Every accepted transition notifies each subscriber exactly once, with a
    snapshot of the entry as it is stored after the call; a rejected call and the
    calls that are not transitions notify nobody. *)
Theorem exec_delivers (o : op Value) (now : Z) m :
  match announces o with
  | Some i =>
      if (exec o now m).2 then
        exists j, jobs (exec o now m).1 !! i = Some j /\
          delivered (exec o now m).1 =
          delivered m ++ map (fun s => (s, event_of j)) (seq 0 (subscribers m))
      else delivered (exec o now m).1 = delivered m
  | None => delivered (exec o now m).1 = delivered m
  end.
Proof.
  destruct o as [i t p|i out|i|i v|i e|i|i|i p|d|d b| |]; cbn [exec fst snd announces]; try done.
  - unfold create_with_parent. destruct (match p with Some _ => _ | None => _ end) as [tk k'].
    apply (commit_announces i _ (with_tokens k' m)).
  - unfold set_output. destruct (jobs m !! i) as [j|]; [|done]. simpl.
    apply (persist_put_frame (set_output_field out j) (with_jobs _ m)).
  - unfold start. destruct (jobs m !! i) as [j|]; [|done].
    destruct (negb _); [done|]. apply commit_announces.
  - unfold complete. destruct (jobs m !! i) as [j|]; [|done].
    destruct (negb _); [done|]. apply commit_announces.
  - unfold fail. destruct (jobs m !! i) as [j|]; [|done].
    destruct (negb _); [done|]. apply commit_announces.
  - unfold cancel. destruct (jobs m !! i) as [j|]; [|done]. by destruct (status j).
  - unfold acknowledge_cancel. destruct (jobs m !! i) as [j|]; [|done].
    destruct (status j); try done; (destruct (tok_cancelled _ _); [apply commit_announces|done]).
  - unfold update_progress. destruct (jobs m !! i) as [j|]; [|done].
    destruct (negb _); [done|]. destruct (progress_rejected _ _); [done|]. apply commit_announces.
  - apply gc_stale_delivered.
  - apply gc_stale_blocking_delivered.
  - by destruct (backing m).
Qed.

(** ** Retention *)

Lemma stale_ids_nil cutoff m :
  ids_ok (jobs m) -> stale_ids cutoff m = [] ->
  filter (fun ij => job_stale cutoff ij.2 = false) (jobs m) = jobs m.
Proof.
  intros Hid Hn. apply map_filter_id. intros i j Hj. simpl.
  destruct (job_stale cutoff j) eqn:Es; [|done].
  assert (Hi : i ∈ stale_ids cutoff m) by (apply stale_ids_spec; eauto). rewrite Hn in Hi. by inv Hi.
Qed.

(** A retention pass reports exactly the number of entries it removed, and it
    removes either nothing or exactly the terminal entries last updated before the
    cutoff.  Without a backend it always removes them; with an enqueueing backend
    it never removes any entry, because the pass is not confirmed. *)
Theorem gc_stale_exact (older now : Z) m (Hid : ids_ok (jobs m)) :
  let r := gc_stale older now m in
  let kept := filter (fun ij => job_stale (now - older) ij.2 = false) (jobs m) in
  r.2 + size (jobs r.1) = size (jobs m) /\
  (jobs r.1 = jobs m \/ jobs r.1 = kept) /\
  (forall c, backing m = Unbacked c -> configured c = false -> jobs r.1 = kept) /\
  (forall w, backing m = Backed w -> wait_for_completion w = false -> jobs r.1 = jobs m).
Proof.
  cbv zeta. pose proof (stale_ids_nil (now - older) m Hid) as Hnil.
  pose proof (remove_stale_filter (now - older) m 0 Hid) as Hr.
  pose proof (remove_all_size (stale_ids (now - older) m) (jobs m) 0) as Hsz.
  unfold gc_stale. destruct (retention_refused m) eqn:Eref.
  { simpl. split; [done|]. split; [by left|]. split; [|done]. intros c Hb Hc.
    unfold retention_refused, persistence_status in Eref. rewrite Hb in Eref. simpl in Eref.
    rewrite Hc in Eref. done. }
  case_bool_decide as Hs; [by rewrite Hnil by done; eauto|].
  destruct (remove_all _ _ _) as [js n]. simpl in Hr, Hsz. subst js.
  destruct (backing m) as [c|c s|w] eqn:Eb; simpl.
  1, 2: split; [done|]; split; [by right|]; split; [done|]; by intros ? [=].
  destruct (writer_delete_older_than _ w) as [w' ok] eqn:Ew. destruct ok; simpl.
  - split; [done|]. split; [by right|]. split; [done|]. intros w0 [= <-] Hw.
    unfold writer_delete_older_than in Ew. rewrite Hw in Ew. exfalso.
    by repeat case_match; simplify_eq.
  - split; [done|]. split; [by left|]. done.
Qed.


End Registry.

(** ** Witnesses *)

Section Witnesses.
Local Open Scope string_scope.

Definition parent_only : FManager := run [(OCreate "p" "render" None, 1%Z)] fnew.

Lemma run_well_formed_witness :
  exists j, jobs parent_only !! "p" = Some j /\ id j = "p" /\ job_wf j.
Proof.
  destruct (jobs parent_only !! "p") as [j|] eqn:Hj; [|vm_compute in Hj; discriminate].
  exists j. split; [done|].
  apply (run_well_formed [(OCreate "p" "render" None, 1%Z)] Forest.empty 0 "p" j); [|exact Hj].
  simpl. lia.
Defined.

Definition family : FManager := (create_with_parent "c" "frame" (Some "p") 2 parent_only).1.

Lemma cancel_cascades_witness :
  (acknowledge_cancel "c" 4 (cancel "p" family).1).2 = Some tt.
Proof.
  destruct (jobs family !! "c") as [c|] eqn:Hc; [|vm_compute in Hc; discriminate].
  assert (Hi : inflight <$> (status <$> jobs family !! "c") = Some true) by (vm_compute; reflexivity).
  rewrite Hc in Hi. injection Hi as Hi.
  destruct (jobs parent_only !! "p") as [p|] eqn:Hp; [|vm_compute in Hp; discriminate].
  assert (Hid : ids_ok (jobs parent_only))
    by (apply (run_ids_ok [(OCreate "p" "render" None, 1%Z)] fnew), map_Forall_empty).
  assert (Hlive : tokens_live (jobs parent_only) (tokens parent_only)).
  { apply (run_tokens_live [(OCreate "p" "render" None, 1%Z)] fnew); apply map_Forall_empty. }
  destruct (cancel_cascades parent_only "p" "c" "frame" p 2 [] family Hid Hlive Hp
    ltac:(vm_compute; reflexivity) ltac:(split; [constructor|intros i Hin; inv Hin]) eq_refl
    ltac:(vm_compute; reflexivity)) as [_ Hack].
  by apply (Hack c Hc Hi).
Defined.

Lemma gc_stale_exact_witness :
  let m := run [(OStart "p", 2%Z); (OComplete "p" "ok", 3%Z)] parent_only in
  jobs (gc_stale 10 100 m).1 = filter (fun ij => job_stale 90 ij.2 = false) (jobs m).
Proof.
  intros m.
  assert (Hid : ids_ok (jobs m)) by (apply run_ids_ok, run_ids_ok, map_Forall_empty).
  destruct (gc_stale_exact 10 100 m Hid) as (_ & _ & Hun & _).
  by apply (Hun circuit_default).
Defined.

End Witnesses.
