(* ===== verification/ChunkedJob.v ===== *)
(** Component: tick-driven jobs ([crates/dcc-mcp-job/src/job/chunked.rs]).

    A runner owns a queue of steps and drives one job of the registry, one step
    per host tick.  A step is arbitrary code: it may change the registry (cancel
    its own job, for instance), so it is a function on the registry's state.
    [VArray] is [serde_json::Value::Array]. *)

From S2P Require Import Prelude CancelToken JobTypes JobStorage JobPersistence JobManager JobLifecycle.

Section Chunked.
Context {T K Value S : Type} `{CT : CancelTokens T K} `{JS : !JobStorage T K Value S}.
Variable VArray : list Value -> Value.
Implicit Types (m : JobManager T K Value S).

(** ** Definitions *)

Record ChunkedStepOutput : Type := { value : Value; step_message : option string }.

Definition ChunkedStep : Type :=
  JobManager T K Value S -> JobManager T K Value S * result string ChunkedStepOutput.

Record ChunkedJobRunner : Type := mkRunner {
  job_id : string;
  steps : list ChunkedStep;
  results : list Value;
  runner_total : Z;
}.

(** [ChunkedJobRunner::new] *)
Definition runner_new (fresh_id tool : string) (ss : list ChunkedStep) (now : Z) m
    : ChunkedJobRunner * JobManager T K Value S :=
  let (m', job) := create fresh_id tool now m in
  (mkRunner (id job) ss [] (Z.of_nat (length ss)), m').

(** What is left of the body once the job is running; [handle] is the entry the
    tick read first, whose token its later cancellation test uses. *)
Definition tick_step (handle : Job T Value) (now : Z) (r : ChunkedJobRunner) m
    : ChunkedJobRunner * JobManager T K Value S * bool :=
  match steps r with
  | [] =>
      (mkRunner (job_id r) [] [] (runner_total r),
       (complete (job_id r) (VArray (results r)) now m).1, false)
  | step :: rest =>
      let (m1, out) := step m in
      match out with
      | Ok output =>
          let results' := results r ++ [value output] in
          let m2 := (update_progress (job_id r)
            {| current := Z.of_nat (length results'); total := runner_total r;
               message := step_message output |} now m1).1 in
          if tok_cancelled (cancel_token handle) (tokens m2) then
            (mkRunner (job_id r) rest results' (runner_total r),
             (acknowledge_cancel (job_id r) now m2).1, false)
          else
            match rest with
            | [] =>
                (mkRunner (job_id r) [] [] (runner_total r),
                 (complete (job_id r) (VArray results') now m2).1, false)
            | _ => (mkRunner (job_id r) rest results' (runner_total r), m2, true)
            end
      | Err e =>
          (mkRunner (job_id r) rest (results r) (runner_total r),
           (fail (job_id r) e now m1).1, false)
      end
  end.

(** [ChunkedJobRunner::tick]: [now] is the tick's clock; the boolean asks for
    another tick. *)
Definition tick (now : Z) (r : ChunkedJobRunner) m
    : ChunkedJobRunner * JobManager T K Value S * bool :=
  match get (job_id r) m with
  | None => (r, m, false)
  | Some handle =>
      if is_terminal (status handle) then (r, m, false)
      else if tok_cancelled (cancel_token handle) (tokens m) then
        (r, (acknowledge_cancel (job_id r) now m).1, false)
      else if bool_decide (status handle = Pending) then
        let (m', ok) := start (job_id r) now m in
        match ok with
        | None => (r, m', false)
        | Some _ => tick_step handle now r m'
        end
      else tick_step handle now r m
  end.

(** [ChunkedJobRunner::cancel] *)
Definition runner_cancel (r : ChunkedJobRunner) m : JobManager T K Value S * bool :=
  let (m', ok) := cancel (job_id r) m in (m', bool_decide (ok = Some tt)).

(** The host's loop: tick while another one is asked for. *)
Fixpoint drive (clock : list Z) (r : ChunkedJobRunner) m
    : ChunkedJobRunner * JobManager T K Value S * bool :=
  match clock with
  | [] => (r, m, true)
  | now :: clock' =>
      let '(r', m', again) := tick now r m in
      if again then drive clock' r' m' else (r', m', false)
  end.

(** ** Termination *)

Lemma tick_consumes now r m r' m' :
  tick now r m = (r', m', true) -> length (steps r) = Datatypes.S (length (steps r')) /\ steps r' <> [].
Proof.
  assert (Hstep : forall h m0, tick_step h now r m0 = (r', m', true) ->
    length (steps r) = Datatypes.S (length (steps r')) /\ steps r' <> []).
  { intros h m0. unfold tick_step. destruct (steps r) as [|st rest]; [done|].
    destruct (st m0) as [m1 [o|e]]; [|done]. cbv zeta. destruct (tok_cancelled _ _); [done|].
    destruct rest; [done|]. by intros [= <- _]. }
  unfold tick. destruct (get (job_id r) m) as [h|]; [|done].
  destruct (is_terminal _); [done|]. destruct (tok_cancelled _ _); [done|].
  case_bool_decide; [|apply Hstep].
  destruct (start _ _ _) as [m0 [|]]; [apply Hstep|done].
Qed.

(** A runner stops.  Whatever its steps do to the registry, a runner with [n]
    steps asks for no further tick after at most [max 1 n] of them. *)
Theorem drive_terminates (clock : list Z) r m
  (Hlen : length (steps r) <= length clock) (Hone : 1 <= length clock) :
  (drive clock r m).2 = false.
Proof.
  revert r m Hlen Hone; induction clock as [|now clock IH]; intros r m Hlen Hone; simpl in *; [lia|].
  destruct (tick now r m) as [[r' m'] again] eqn:E. destruct again; [|done].
  apply tick_consumes in E as [Hl Hne]. destruct (steps r') eqn:Es; [done|]. simpl in *.
  apply IH; rewrite ?Es; simpl in *; lia.
Qed.

(** ** The outcome of steps that leave the registry alone *)

Definition pure_step (out : result string ChunkedStepOutput) : ChunkedStep := fun m => (m, out).

(** The values before the first failing step, and its error. *)
Fixpoint collect (outs : list (result string ChunkedStepOutput)) : list Value * option string :=
  match outs with
  | [] => ([], None)
  | Ok o :: outs' => let (vs, e) := collect outs' in (value o :: vs, e)
  | Err e :: _ => ([], Some e)
  end.

(** The job's entry between two ticks. *)
Definition waiting r m : Prop :=
  exists j, jobs m !! job_id r = Some j /\
    tok_cancelled (cancel_token j) (tokens m) = false /\
    runner_total r = Z.of_nat (length (results r) + length (steps r)) /\
    (status j = Pending /\ results r = [] /\ progress j = None \/
     status j = Running /\
       match progress j with
       | Some p => current p = Z.of_nat (length (results r)) /\ total p = runner_total r
       | None => results r = []
       end).

Lemma start_pending i now m j :
  jobs m !! i = Some j -> status j = Pending ->
  start i now m = (commit i (set_running now j) m, Some tt).
Proof. intros Hj Hs. unfold start. by rewrite Hj, Hs. Qed.

Lemma complete_running i v now m j :
  jobs m !! i = Some j -> status j = Running ->
  complete i v now m = (commit i (set_completed v now j) m, Some tt).
Proof. intros Hj Hs. unfold complete. by rewrite Hj, Hs. Qed.

Lemma fail_running i e now m j :
  jobs m !! i = Some j -> status j = Running ->
  fail i e now m = (commit i (set_failed e now j) m, Some tt).
Proof. intros Hj Hs. unfold fail. by rewrite Hj, Hs. Qed.

Lemma update_progress_running i p now m j :
  jobs m !! i = Some j -> status j = Running -> progress_rejected p (progress j) = false ->
  update_progress i p now m = (commit i (set_progress p now j) m, Some tt).
Proof. intros Hj Hs Hp. unfold update_progress. by rewrite Hj, Hs, Hp. Qed.

(** What a finished run left in the registry. *)
Definition outcome (vs : list Value) (e : option string) (i : string) m : Prop :=
  exists j, jobs m !! i = Some j /\
    match e with
    | None => status j = Completed /\ job_result j = Some (VArray vs)
    | Some err => status j = Failed /\ job_error j = Some err
    end.

(** What one tick of such a runner does. *)
Definition tick_post r outs r' m' (again : bool) : Prop :=
  match outs with
  | Ok o :: ((_ :: _) as rest) =>
      again = true /\ waiting r' m' /\ steps r' = map pure_step rest /\
      results r' = results r ++ [value o] /\ job_id r' = job_id r
  | _ => again = false /\ outcome (results r ++ (collect outs).1) (collect outs).2 (job_id r) m'
  end.

Lemma outcome_complete v now i j m :
  jobs m !! i = Some j -> status j = Running ->
  outcome v None i (complete i (VArray v) now m).1.
Proof.
  intros Hj Hs. rewrite (complete_running _ _ _ _ _ Hj Hs). cbn [fst].
  exists (set_completed (VArray v) now j). by rewrite commit_jobs, lookup_insert_eq.
Qed.

Lemma tick_step_pure now r m h j outs :
  steps r = map pure_step outs -> jobs m !! job_id r = Some j -> status j = Running ->
  cancel_token h = cancel_token j -> tok_cancelled (cancel_token j) (tokens m) = false ->
  runner_total r = Z.of_nat (length (results r) + length (steps r)) ->
  match progress j with
  | Some p => current p = Z.of_nat (length (results r)) /\ total p = runner_total r
  | None => results r = []
  end ->
  let '(r', m', again) := tick_step h now r m in tick_post r outs r' m' again.
Proof.
  intros Hsteps Hj Hs Hh Hc Ht Hp. unfold tick_step. rewrite Hsteps in *. rewrite Hh.
  destruct outs as [|[o|e] rest]; simpl.
  - split; [done|]. rewrite app_nil_r. by eapply outcome_complete.
  - assert (Hrej : progress_rejected {| current := Z.of_nat (length (results r ++ [value o]));
        total := runner_total r; message := step_message o |} (progress j) = false).
    { apply progress_accepted. simpl in *. rewrite length_app. simpl. rewrite Ht.
      split; [lia|]. intros q Hq. rewrite Hq in Hp. simpl. lia. }
    rewrite (update_progress_running _ _ _ _ _ Hj Hs Hrej). cbn [fst].
    rewrite commit_tokens, Hc. destruct rest as [|o2 rest]; cbn -[commit complete outcome].
    + split; [done|]. eapply outcome_complete; [by rewrite commit_jobs, lookup_insert_eq|done].
    + split; [done|]. split; [|by split_and!]. eexists. cbn -[commit]. rewrite commit_jobs, lookup_insert_eq.
      split; [done|]. cbn [cancel_token set_progress]. rewrite commit_tokens. split; [done|].
      rewrite length_app in *. simpl in *. split; [lia|]. right. split; [done|]. done.
  - split; [done|]. rewrite app_nil_r. rewrite (fail_running _ _ _ _ _ Hj Hs). cbn [fst].
    eexists. rewrite commit_jobs, lookup_insert_eq. done.
Qed.

Lemma tick_pure now r m outs :
  steps r = map pure_step outs -> waiting r m ->
  let '(r', m', again) := tick now r m in tick_post r outs r' m' again.
Proof.
  intros Hsteps (j & Hj & Hc & Ht & Hst). unfold tick, get. rewrite Hj.
  destruct Hst as [(Hs & Hr & Hp)|[Hs Hp]].
  - rewrite Hs, Hc, (start_pending _ now m j Hj Hs). cbn -[commit tick_step].
    eapply (tick_step_pure now r _ j (set_running now j)); try done.
    + by rewrite commit_jobs, lookup_insert_eq.
    + by rewrite commit_tokens.
    + simpl. by rewrite Hp.
  - rewrite Hs, Hc. simpl. by apply (tick_step_pure now r m j j).
Qed.

Lemma drive_pure outs : forall (clock : list Z) r m,
  steps r = map pure_step outs -> waiting r m ->
  length outs <= length clock -> 1 <= length clock ->
  outcome (results r ++ (collect outs).1) (collect outs).2 (job_id r) (drive clock r m).1.2.
Proof.
  induction outs as [|out outs IH]; intros clock r m Hs Hw Hl H1;
    (destruct clock as [|now clock]; [simpl in *; lia|]); cbn [drive];
    pose proof (tick_pure now r m _ Hs Hw) as Ht;
    destruct (tick now r m) as [[r' m'] again].
  - by destruct Ht as [-> ?].
  - destruct out as [o|e]; [|by destruct Ht as [-> ?]].
    destruct outs as [|o2 outs]; [by destruct Ht as [-> ?]|].
    destruct Ht as (-> & Hw' & Hs' & Hr' & Hi'). simpl in Hl.
    specialize (IH clock r' m' Hs' Hw'). rewrite Hr', Hi' in IH.
    cbn [collect] in *. destruct (match o2 with Ok _ => _ | Err _ => _ end) as [vs e].
    rewrite <- app_assoc in IH. apply IH; simpl; lia.
Qed.

(** A runner whose steps only compute, started on a fresh job and driven to
    its end, completes the job with the array of the steps' values in order, or,
    when a step fails, fails it with the first failing step's error; later steps
    do not count. *)
Theorem chunked_outcome (outs : list (result string ChunkedStepOutput)) (clock : list Z)
  (fresh_id tool : string) (now : Z) m (Hlaws : CancelTokenLaws T K)
  (Hlen : length outs <= length clock) (Hone : 1 <= length clock) :
  let '(r, m1) := runner_new fresh_id tool (map pure_step outs) now m in
  exists j, jobs (drive clock r m1).1.2 !! fresh_id = Some j /\
    match (collect outs).2 with
    | None => status j = Completed /\ job_result j = Some (VArray (collect outs).1)
    | Some err => status j = Failed /\ job_error j = Some err
    end.
Proof.
  unfold runner_new, create, create_with_parent.
  destruct (tok_new (tokens m)) as [t k] eqn:Et.
  destruct (tok_new_spec _ _ _ Et) as (_ & _ & Hnew).
  set (m1 := commit _ _ _).
  apply (drive_pure outs clock (mkRunner fresh_id (map pure_step outs) []
    (Z.of_nat (length (map pure_step outs)))) m1); try done.
  exists (Job_new fresh_id tool None t now). unfold m1.
  rewrite commit_jobs, commit_tokens. simpl. rewrite lookup_insert_eq.
  split; [done|]. split; [done|]. split; [done|]. by left.
Qed.

End Chunked.

(** ** Witnesses: a two-step job over the in-memory backend *)

Abbreviation FM := (JobManager nat Forest.wstore string (InMemoryStorage string)).

Definition join_values (vs : list string) : string := String.concat "," vs.

Definition two_steps : list (result string ChunkedStepOutput) :=
  [Ok {| value := "a"; step_message := None |}; Ok {| value := "b"; step_message := Some "done" |}].

Lemma drive_terminates_witness :
  let rm := runner_new (S := InMemoryStorage string) "j" "bake" (map pure_step two_steps) 0
    (manager_new Forest.empty : FM) in
  (drive join_values [1; 2]%Z rm.1 rm.2).2 = false.
Proof. intros rm. apply (drive_terminates join_values [1; 2]%Z rm.1 rm.2); simpl; lia. Defined.

Lemma chunked_outcome_witness :
  let '(r, m1) := runner_new (S := InMemoryStorage string) "j" "bake" (map pure_step two_steps) 0
    (manager_new Forest.empty : FM) in
  exists j, jobs (drive join_values [1; 2]%Z r m1).1.2 !! "j" = Some j /\
    status j = Completed /\ job_result j = Some "a,b".
Proof.
  exact (chunked_outcome join_values two_steps [1; 2]%Z "j" "bake" 0
    (manager_new Forest.empty : FM) Forest.laws ltac:(simpl; lia) ltac:(simpl; lia)).
Defined.
