(* ===== verification/TunnelCodec.v ===== *)
(** Component: the tunnel wire protocol ([crates/dcc-mcp-tunnel-protocol]:
    [frame.rs], [error.rs], [codec.rs], [tokio_io.rs]).

    A frame is a msgpack body behind a 4-byte big-endian length.  The msgpack
    serializer ([rmp_serde]) is a parameter: [Msgpack] names its two functions and
    [MsgpackLaws] its documented round trip.  A byte stream is the list of the
    bytes still to come and how it ends. *)

From S2P Require Import Prelude.

(** ** Frames *)

Definition PROTOCOL_VERSION : Z := 2.

Inductive CloseReason : Type :=
| ClientGone | BackendGone | IdleTimeout | TunnelClosing | CloseError.

Inductive ErrorCode : Type :=
| AuthFailed | ProtocolMismatch | DccNotAllowed | FrameTooLargeCode | UnknownSession | Internal.

#[export] Instance ErrorCode_eq_dec : EqDecision ErrorCode.
Proof. solve_decision. Defined.

Record RegisterRequest : Type := {
  rq_protocol_version : Z;
  rq_token : string;
  rq_dcc : string;
  rq_capabilities : list string;
  rq_agent_version : string;
  rq_instance_id : option string;
  rq_capabilities_fingerprint : option string;
  rq_adapter_version : option string;
  rq_scene : option string;
}.

Record RegisterAck : Type := {
  ack_ok : bool;
  ack_tunnel_id : option string;
  ack_public_url : option string;
  ack_error_code : option ErrorCode;
  ack_message : option string;
}.

Inductive Frame : Type :=
| FRegister (r : RegisterRequest)
| FRegisterAck (a : RegisterAck)
| FHeartbeat
| FOpenSession (session_id : Z) (client_info : option string)
| FCloseSession (session_id : Z) (reason : CloseReason)
| FData (session_id : Z) (payload : list Z)
| FError (session_id : option Z) (code : ErrorCode) (message : string).

(** ** Errors *)

Inductive ProtocolError : Type :=
| PDecode (msg : string)
| PEncode (msg : string)
| PFrameTooLarge (len max : Z)
| PIncomplete (needed have : Z)
| PJwt (msg : string).

(** ** The serializer *)

Class Msgpack : Type := {
  to_vec_named : Frame -> result string (list Z);
  from_slice : list Z -> result string Frame;
}.

Class MsgpackLaws `{MP : Msgpack} : Prop := {
  from_to_vec : forall f b, to_vec_named f = Ok b -> from_slice b = Ok f;
}.

(** ** The codec *)

Definition MAX_FRAME_BYTES : Z := 8 * 1024 * 1024.

(** [u32::to_be_bytes] and [u32::from_be_bytes]. *)
Definition to_be_bytes (n : Z) : list Z :=
  [Z.land (Z.shiftr n 24) 255; Z.land (Z.shiftr n 16) 255; Z.land (Z.shiftr n 8) 255; Z.land n 255].

Definition from_be_bytes (b0 b1 b2 b3 : Z) : Z :=
  Z.lor (Z.shiftl b0 24) (Z.lor (Z.shiftl b1 16) (Z.lor (Z.shiftl b2 8) b3)).

Section Codec.
Context `{MP : Msgpack}.

Definition encode (frame : Frame) : result ProtocolError (list Z) :=
  let? body := map_err PEncode (to_vec_named frame) in
  let len := Z.of_nat (length body) in
  if (u32_max <? len)%Z then Err (PFrameTooLarge u32_max MAX_FRAME_BYTES)
  else if (MAX_FRAME_BYTES <? len)%Z then Err (PFrameTooLarge len MAX_FRAME_BYTES)
  else Ok (to_be_bytes len ++ body).

Definition decode (buf : list Z) : result ProtocolError (Frame * nat) :=
  match buf with
  | b0 :: b1 :: b2 :: b3 :: body =>
      let len := from_be_bytes b0 b1 b2 b3 in
      if (MAX_FRAME_BYTES <? len)%Z then Err (PFrameTooLarge len MAX_FRAME_BYTES)
      else
        let total := sat_add usize_max 4 len in
        if (Z.of_nat (length buf) <? total)%Z then Err (PIncomplete total (Z.of_nat (length buf)))
        else
          let? frame := map_err PDecode (from_slice (take (Z.to_nat (total - 4)) body)) in
          Ok (frame, Z.to_nat total)
  | _ => Err (PIncomplete 4 (Z.of_nat (length buf)))
  end.

(** [Decoder { buf }]: its state is the buffer. *)
Abbreviation Decoder := (list Z) (only parsing).

Definition decoder_new : Decoder := [].

Definition extend (chunk : list Z) (d : Decoder) : Decoder := d ++ chunk.

Definition next_frame (d : Decoder) : Decoder * result ProtocolError (option Frame) :=
  match decode d with
  | Ok (frame, consumed) => (drop consumed d, Ok (Some frame))
  | Err (PIncomplete _ _) => (d, Ok None)
  | Err other => (d, Err other)
  end.

(** The caller's loop: pop until no complete frame is left.  Every frame takes at
    least its prefix from the buffer, so its length is enough fuel. *)
Fixpoint pop_loop (fuel : nat) (d : Decoder) : Decoder * list Frame * option ProtocolError :=
  match fuel with
  | O => (d, [], None)
  | S fuel' =>
      match next_frame d with
      | (d', Ok (Some f)) => let '(d2, fs, e) := pop_loop fuel' d' in (d2, f :: fs, e)
      | (d', Ok None) => (d', [], None)
      | (d', Err e) => (d', [], Some e)
      end
  end.

Definition pop_all (d : Decoder) : Decoder * list Frame * option ProtocolError :=
  pop_loop (S (length d)) d.

(** Feed chunks as they arrive, popping after each one. *)
Fixpoint feed (chunks : list (list Z)) (d : Decoder) : Decoder * list Frame * option ProtocolError :=
  match chunks with
  | [] => (d, [], None)
  | c :: cs =>
      let '(d1, fs, e) := pop_all (extend c d) in
      match e with
      | Some err => (d1, fs, Some err)
      | None => let '(d2, fs', e') := feed cs d1 in (d2, fs ++ fs', e')
      end
  end.

(** ** Async frame I/O *)

Inductive IoError : Type := UnexpectedEof | OtherIo (msg : string).

Inductive FrameIoError : Type :=
| FIo (e : IoError)
| FProtocol (e : ProtocolError).

(** What a reader will deliver: bytes, then end of file or an I/O error. *)
Record Stream : Type := { data : list Z; stream_end : option IoError }.

(** [read_exact] into a buffer of [n] bytes. *)
Definition read_exact (n : nat) (s : Stream) : Stream * result IoError (list Z) :=
  if (n <=? length (data s))%nat then
    ({| data := drop n (data s); stream_end := stream_end s |}, Ok (take n (data s)))
  else
    ({| data := []; stream_end := stream_end s |}, Err (default UnexpectedEof (stream_end s))).

Definition read_frame (s : Stream) : Stream * result FrameIoError (option Frame) :=
  let (s1, r) := read_exact 4 s in
  match r with
  | Err UnexpectedEof => (s1, Ok None)
  | Err e => (s1, Err (FIo e))
  | Ok len_buf =>
      match len_buf with
      | [b0; b1; b2; b3] =>
          let len := from_be_bytes b0 b1 b2 b3 in
          if (MAX_FRAME_BYTES <? len)%Z then
            (s1, Err (FProtocol (PFrameTooLarge len MAX_FRAME_BYTES)))
          else
            let (s2, r2) := read_exact (Z.to_nat len) s1 in
            match r2 with
            | Err e => (s2, Err (FIo e))
            | Ok body =>
                match (next_frame (extend body (extend len_buf decoder_new))).2 with
                | Err e => (s2, Err (FProtocol e))
                | Ok (Some f) => (s2, Ok (Some f))
                | Ok None => (s2, Err (FProtocol (PIncomplete (4 + len) (4 + len))))
                end
            end
      | _ => (s1, Ok None)
      end
  end.

(** [write_frame] to a writer that accepts every byte: what it appends. *)
Definition write_frame (frame : Frame) (written : list Z) : result FrameIoError (list Z) :=
  let? bytes := map_err FProtocol (encode frame) in
  Ok (written ++ bytes).

End Codec.

(** ** The length prefix *)

Lemma byte_bit (n k i : Z) :
  (0 <= k)%Z -> (0 <= i)%Z ->
  Z.testbit (Z.land (Z.shiftr n k) 255) i = (i <? 8)%Z && Z.testbit n (i + k).
Proof.
  intros Hk Hi. rewrite Z.land_spec, Z.shiftr_spec by lia.
  change 255%Z with (Z.ones 8). rewrite Z.testbit_ones_nonneg by lia. apply andb_comm.
Qed.

Lemma be_bytes_roundtrip (n : Z) :
  (0 <= n <= u32_max)%Z ->
  match to_be_bytes n with
  | [b0; b1; b2; b3] => from_be_bytes b0 b1 b2 b3 = n
  | _ => False
  end.
Proof.
  intros Hn. unfold to_be_bytes, from_be_bytes. apply Z.bits_inj'. intros i Hi.
  replace (Z.land n 255) with (Z.land (Z.shiftr n 0) 255) by (by rewrite Z.shiftr_0_r).
  rewrite !Z.lor_spec, !Z.shiftl_spec by lia.
  assert (Hhigh : (32 <= i)%Z -> Z.testbit n i = false).
  { intros. destruct (decide (n = 0%Z)) as [->|]; [apply Z.bits_0|].
    apply Z.bits_above_log2; [lia|]. apply Z.log2_lt_pow2; [lia|].
    pose proof (Z.pow_le_mono_r 2 32 i ltac:(lia) ltac:(lia)). unfold u32_max in Hn. lia. }
  assert (Hb : forall k, (0 <= k)%Z -> Z.testbit (Z.land (Z.shiftr n k) 255) (i - k) =
    (k <=? i)%Z && (i <? k + 8)%Z && Z.testbit n i).
  { intros k Hk. destruct (Z.leb_spec k i).
    - rewrite byte_bit by lia. replace (i - k + k)%Z with i by lia.
      replace (i - k <? 8)%Z with (i <? k + 8)%Z; [done|].
      destruct (Z.ltb_spec i (k + 8)), (Z.ltb_spec (i - k) 8); lia || done.
    - rewrite Z.testbit_neg_r by lia. done. }
  pose proof (Hb 0%Z ltac:(lia)) as Hb0. rewrite Z.sub_0_r in Hb0. rewrite !Hb, Hb0 by lia.
  destruct (Z.testbit n i) eqn:E; rewrite ?andb_true_r, ?andb_false_r; [|done].
  assert (i < 32)%Z by (destruct (Z.ltb_spec i 32); [done|]; by specialize (Hhigh ltac:(lia))).
  destruct (Z.leb_spec 24 i), (Z.leb_spec 16 i), (Z.leb_spec 8 i), (Z.leb_spec 0 i),
    (Z.ltb_spec i (24 + 8)), (Z.ltb_spec i (16 + 8)), (Z.ltb_spec i (8 + 8)), (Z.ltb_spec i (0 + 8));
    simpl; done || lia.
Qed.

(** ** Round trips *)

Section Codec_facts.
Context `{MPL : MsgpackLaws}.

(** What [encode] produces: a prefix that fits, then the body. *)
Lemma encode_Ok frame b :
  encode frame = Ok b ->
  exists body b0 b1 b2 b3, to_vec_named frame = Ok body /\ b = b0 :: b1 :: b2 :: b3 :: body /\
    from_be_bytes b0 b1 b2 b3 = Z.of_nat (length body) /\ (Z.of_nat (length body) <= MAX_FRAME_BYTES)%Z.
Proof.
  unfold encode. destruct (to_vec_named frame) as [body|e]; simpl; [|done].
  destruct (u32_max <? _)%Z eqn:E1; [done|]. destruct (MAX_FRAME_BYTES <? _)%Z eqn:E2; [done|].
  intros [= <-]. bool_to_prop.
  pose proof (be_bytes_roundtrip (Z.of_nat (length body)) ltac:(lia)) as Hr.
  unfold to_be_bytes in *. eexists body, _, _, _, _. split; [done|]. split; [done|]. done.
Qed.

(** [decode] on at least a prefix, with the arithmetic done. *)
Lemma decode_prefix b0 b1 b2 b3 body (n : nat) :
  from_be_bytes b0 b1 b2 b3 = Z.of_nat n -> (Z.of_nat n <= MAX_FRAME_BYTES)%Z ->
  decode (b0 :: b1 :: b2 :: b3 :: body) =
  if (length body <? n)%nat then
    Err (PIncomplete (4 + Z.of_nat n) (Z.of_nat (4 + length body)))
  else let? frame := map_err PDecode (from_slice (take n body)) in Ok (frame, 4 + n).
Proof.
  intros Hlen Hmax. unfold decode. rewrite Hlen.
  rewrite (proj2 (Z.ltb_ge _ _)) by lia.
  replace (sat_add usize_max 4 (Z.of_nat n)) with (4 + Z.of_nat n)%Z
    by (unfold sat_add, usize_max, u64_max, MAX_FRAME_BYTES in *; lia).
  change (length (b0 :: b1 :: b2 :: b3 :: body)) with (4 + length body).
  destruct (Nat.ltb_spec (length body) n).
  - by rewrite (proj2 (Z.ltb_lt _ _)) by lia.
  - rewrite (proj2 (Z.ltb_ge _ _)) by lia.
    replace (Z.to_nat (4 + Z.of_nat n - 4)) with n by lia.
    by replace (Z.to_nat (4 + Z.of_nat n)) with (4 + n) by lia.
Qed.

Lemma encode_length frame b : encode frame = Ok b -> 4 <= length b.
Proof. intros (body & ? & ? & ? & ? & _ & -> & _)%encode_Ok. simpl. lia. Qed.

Lemma decode_encode_app frame b rest :
  encode frame = Ok b -> decode (b ++ rest) = Ok (frame, length b).
Proof.
  intros (body & b0 & b1 & b2 & b3 & Hv & -> & Hlen & Hmax)%encode_Ok. simpl app.
  rewrite (decode_prefix _ _ _ _ _ (length body)) by done.
  rewrite (proj2 (Nat.ltb_ge _ _)) by (rewrite length_app; lia).
  rewrite take_app_length, (from_to_vec _ _ Hv). done.
Qed.

(** A strict prefix of a frame is incomplete. *)
Lemma decode_encode_short frame b p q :
  encode frame = Ok b -> b = p ++ q -> q <> [] -> exists n h, decode p = Err (PIncomplete n h).
Proof.
  intros (body & b0 & b1 & b2 & b3 & _ & Hb & Hlen & Hmax)%encode_Ok Hpq Hq.
  assert (0 < length q) by (destruct q; simpl; [done|lia]).
  destruct p as [|x0 [|x1 [|x2 [|x3 p]]]]; try (eexists _, _; reflexivity).
  rewrite Hpq in Hb. injection Hb as -> -> -> -> Hbody.
  rewrite (decode_prefix _ _ _ _ _ (length body)) by done.
  rewrite (proj2 (Nat.ltb_lt _ _)) by (rewrite <- Hbody, length_app; lia). eauto.
Qed.

(** C32: a frame that encodes decodes to itself, whatever follows it in the
    buffer, and reports exactly the bytes it occupies. *)
Theorem decode_encode (frame : Frame) (b rest : list Z) (Henc : encode frame = Ok b) :
  decode (b ++ rest) = Ok (frame, length b) /\ (Z.of_nat (length b) <= 4 + MAX_FRAME_BYTES)%Z.
Proof.
  split; [by apply decode_encode_app|].
  apply encode_Ok in Henc as (body & ? & ? & ? & ? & _ & -> & _ & Hmax). simpl. lia.
Qed.

(** ** Streaming *)

(** [wire fs bs]: [bs] is the encodings of [fs], one after the other. *)
Inductive wire : list Frame -> list Z -> Prop :=
| wire_nil : wire [] []
| wire_cons f b fs bs : encode f = Ok b -> wire fs bs -> wire (f :: fs) (b ++ bs).

(** Popping from a buffer that is a prefix of a wire image yields the frames it
    completes and keeps the rest. *)
Lemma pop_loop_wire fs bs buf rest fuel :
  wire fs bs -> bs = buf ++ rest -> length buf < fuel ->
  exists fs1 fs2 buf', fs = fs1 ++ fs2 /\ wire fs2 (buf' ++ rest) /\
    pop_loop fuel buf = (buf', fs1, None) /\ (rest = [] -> buf' = []).
Proof.
  intros Hw. revert buf fuel; induction Hw as [|f b fs bs Henc Hw IH]; intros buf fuel Heq Hf.
  - symmetry in Heq. apply app_nil in Heq as [-> ->]. destruct fuel; [simpl in Hf; lia|].
    exists [], [], []. simpl. repeat split; try done. constructor.
  - destruct fuel as [|fuel]; [lia|]. cbn [pop_loop]. unfold next_frame.
    destruct (decide (length b <= length buf)) as [Hle|Hlt].
    + assert (Hbuf : buf = b ++ drop (length b) buf).
      { rewrite <- (take_drop (length b) buf) at 1. f_equal.
        apply (f_equal (take (length b))) in Heq. rewrite take_app_length in Heq.
        etransitivity; [|symmetry; exact Heq]. symmetry. by apply take_app_le. }
      set (buf1 := drop (length b) buf) in *. rewrite Hbuf.
      rewrite (decode_encode_app f b buf1 Henc), drop_app_length.
      rewrite Hbuf, <- app_assoc in Heq. apply app_inv_head in Heq.
      pose proof (encode_length _ _ Henc).
      destruct (IH buf1 fuel Heq) as (fs1 & fs2 & buf' & -> & Hw2 & -> & Hr).
      { rewrite Hbuf, length_app in Hf. lia. }
      exists (f :: fs1), fs2, buf'. done.
    + assert (Hb : b = buf ++ drop (length buf) b).
      { rewrite <- (take_drop (length buf) b) at 1. f_equal.
        apply (f_equal (take (length buf))) in Heq. rewrite take_app_length in Heq.
        etransitivity; [|exact Heq]. symmetry. apply take_app_le. lia. }
      destruct (decode_encode_short f b buf _ Henc Hb) as (n & h & ->).
      { intros E. apply (f_equal length) in E. rewrite length_drop in E. simpl in E. lia. }
      exists [], (f :: fs), buf. split; [done|]. split; [|split; [done|]].
      * rewrite <- Heq. by constructor.
      * intros ->. exfalso. rewrite app_nil_r in Heq. apply Hlt.
        apply (f_equal length) in Heq. rewrite length_app in Heq. lia.
Qed.

Lemma feed_wire chunks : forall fs buf,
  wire fs (buf ++ concat chunks) -> (chunks = [] -> buf = []) -> feed chunks buf = ([], fs, None).
Proof.
  induction chunks as [|c cs IH]; intros fs buf Hw Hnil; simpl in *.
  - rewrite (Hnil eq_refl) in *. simpl in Hw. inv Hw; [done|].
    match goal with H : encode _ = Ok ?b, E : ?b ++ _ = [] |- _ =>
      apply encode_length in H; apply app_nil in E as [-> _] end. simpl in *. lia.
  - unfold pop_all, extend.
    destruct (pop_loop_wire fs _ (buf ++ c) (concat cs) (S (length (buf ++ c))) Hw)
      as (fs1 & fs2 & buf' & -> & Hw2 & -> & Hr); [by rewrite app_assoc|lia|].
    rewrite (IH fs2 buf' Hw2); [done|]. intros ->. by apply Hr.
Qed.

(** C31: streaming is independent of how the transport splits the bytes.  If the
    bytes of the frames [fs] arrive cut into any chunks whatever, popping after
    every chunk yields exactly [fs] in order, no error, and leaves nothing. *)
Theorem feed_frames (fs : list Frame) (chunks : list (list Z)) (Hwire : wire fs (concat chunks)) :
  feed chunks decoder_new = (decoder_new, fs, None).
Proof. by apply feed_wire. Qed.

(** ** Hostile prefixes *)

(** What [decode] does with any bytes: fewer than four ask for four; a length
    above the maximum is refused from the prefix alone, whatever follows; a short
    body asks for the exact total; and a result never claims more bytes than the
    buffer has, so the streaming decoder always terminates. *)
Theorem decode_cases (buf : list Z) :
  (length buf < 4 -> decode buf = Err (PIncomplete 4 (Z.of_nat (length buf)))) /\
  (forall b0 b1 b2 b3 body, buf = b0 :: b1 :: b2 :: b3 :: body ->
    (MAX_FRAME_BYTES < from_be_bytes b0 b1 b2 b3)%Z ->
    decode buf = Err (PFrameTooLarge (from_be_bytes b0 b1 b2 b3) MAX_FRAME_BYTES)) /\
  (forall frame n, Forall (fun b => 0 <= b < 256)%Z buf ->
    decode buf = Ok (frame, n) -> 4 <= n <= length buf).
Proof.
  split; [|split].
  - destruct buf as [|? [|? [|? [|? ?]]]]; simpl; try done. lia.
  - intros b0 b1 b2 b3 body -> Hl. unfold decode. by rewrite (proj2 (Z.ltb_lt _ _)).
  - intros frame n Hb. destruct buf as [|b0 [|b1 [|b2 [|b3 body]]]]; try done.
    unfold decode. set (len := from_be_bytes b0 b1 b2 b3).
    assert (0 <= len)%Z.
    { unfold len, from_be_bytes. rewrite !Z.lor_nonneg, !Z.shiftl_nonneg.
      repeat match goal with H : Forall _ (_ :: _) |- _ => inv H end. lia. }
    destruct (MAX_FRAME_BYTES <? len)%Z eqn:E1; [done|].
    rewrite Z.ltb_ge in E1.
    assert (Hs : sat_add usize_max 4 len = (4 + len)%Z)
      by (unfold sat_add, usize_max, u64_max, MAX_FRAME_BYTES in *; lia).
    rewrite Hs. clear Hs. destruct (_ <? 4 + len)%Z eqn:E2; [done|]. rewrite Z.ltb_ge in E2.
    destruct (from_slice _); cbn [map_err rbind]; [|done]. intros [= _ <-]. clear E1.
    cbn [length] in *. lia.
Qed.

(** ** Reading from a stream *)

(** A written frame is read back, and leaves the stream just behind it; end
    of file is reported as a clean end whenever fewer than the four prefix bytes
    are left, and as an error when it falls inside the body. *)
Theorem read_write_frame (frame : Frame) (b rest : list Z) (e : option IoError)
  (Henc : encode frame = Ok b) :
  read_frame {| data := b ++ rest; stream_end := e |} =
    ({| data := rest; stream_end := e |}, Ok (Some frame)) /\
  (forall n, n < 4 ->
    (read_frame {| data := take n b; stream_end := None |}).2 = Ok None) /\
  (forall n, 4 <= n < length b ->
    (read_frame {| data := take n b; stream_end := None |}).2 = Err (FIo UnexpectedEof)).
Proof.
  pose proof (decode_encode_app frame b [] Henc) as Hdec. rewrite app_nil_r in Hdec.
  apply encode_Ok in Henc as (body & b0 & b1 & b2 & b3 & _ & -> & Hlen & Hmax).
  assert (Hread4 : forall l z, read_exact 4 {| data := b0 :: b1 :: b2 :: b3 :: l; stream_end := z |} =
    ({| data := l; stream_end := z |}, Ok [b0; b1; b2; b3])) by done.
  split; [|split].
  - unfold read_frame. rewrite (Hread4 (body ++ rest)), Hlen.
    rewrite (proj2 (Z.ltb_ge _ _)), Nat2Z.id by lia. unfold read_exact at 1. cbn [data stream_end].
    rewrite (proj2 (Nat.leb_le _ _)) by (rewrite length_app; lia).
    rewrite take_app_length, drop_app_length. unfold extend, decoder_new, next_frame.
    cbn [app]. rewrite Hdec. done.
  - intros n Hn. unfold read_frame, read_exact. cbn [data stream_end].
    rewrite (proj2 (Nat.leb_gt _ _)); [done|]. rewrite length_take. lia.
  - intros n Hn. replace n with (4 + (n - 4)) by lia. unfold read_frame.
    change (take (4 + (n - 4)) (b0 :: b1 :: b2 :: b3 :: body))
      with (b0 :: b1 :: b2 :: b3 :: take (n - 4) body).
    rewrite Hread4, Hlen, (proj2 (Z.ltb_ge _ _)), Nat2Z.id by lia.
    unfold read_exact. cbn [data stream_end].
    rewrite (proj2 (Nat.leb_gt _ _)); [done|]. rewrite length_take. simpl in Hn. lia.
Qed.

End Codec_facts.

(** ** Witnesses: a serializer for two kinds of frame *)

Module SmallPack.

#[export] Instance pack : Msgpack := {|
  to_vec_named f :=
    match f with
    | FHeartbeat => Ok [129]%Z
    | FData sid payload => Ok (130%Z :: sid :: payload)
    | _ => Err "unsupported"%string
    end;
  from_slice b :=
    match b with
    | [129]%Z => Ok FHeartbeat
    | 130%Z :: sid :: payload => Ok (FData sid payload)
    | _ => Err "malformed"%string
    end;
|}.

#[export] Instance pack_laws : MsgpackLaws.
Proof. constructor. by intros [] b [= <-]. Qed.

End SmallPack.

#[export] Existing Instances SmallPack.pack SmallPack.pack_laws.

Lemma decode_encode_witness :
  exists b, encode (FData 7 [1; 2]%Z) = Ok b /\ decode (b ++ [9]%Z) = Ok (FData 7 [1; 2]%Z, 8).
Proof.
  destruct (encode (FData 7 [1; 2]%Z)) as [b|] eqn:E; [|vm_compute in E; discriminate].
  exists b. split; [done|]. destruct (decode_encode (FData 7 [1; 2]%Z) b [9]%Z E) as [H _].
  rewrite H. vm_compute in E. by injection E as <-.
Defined.

Lemma feed_frames_witness :
  feed [[0; 0]; [0; 1; 129; 0; 0; 0]; [2; 130]; [5]]%Z decoder_new =
    (decoder_new, [FHeartbeat; FData 5 []], None).
Proof.
  apply feed_frames.
  apply (wire_cons FHeartbeat [0; 0; 0; 1; 129]%Z [FData 5 []] [0; 0; 0; 2; 130; 5]%Z); [reflexivity|].
  apply (wire_cons (FData 5 []) [0; 0; 0; 2; 130; 5]%Z [] []); [reflexivity|constructor].
Defined.

Lemma read_write_frame_witness :
  exists b, encode FHeartbeat = Ok b /\
    (read_frame {| data := b ++ [1]%Z; stream_end := None |}).2 = Ok (Some FHeartbeat).
Proof.
  destruct (encode FHeartbeat) as [b|] eqn:E; [|vm_compute in E; discriminate].
  exists b. split; [done|]. destruct (read_write_frame FHeartbeat b [1]%Z None E) as [H _].
  by rewrite H.
Defined.
