(* ===== verification/TunnelRelay.v ===== *)
(** Component: the tunnel relay ([crates/dcc-mcp-tunnel-relay]: [handle.rs],
    [registry.rs], [eviction.rs], [control.rs], [config.rs]).

    Registry entries, the control task of an agent and the frontend tasks share a
    tunnel's routing handle by reference, so the relay's state keeps the handles
    apart and the entries name them.  Instants and durations are nanoseconds;
    JWT decoding and identifier generation are inputs. *)

From S2P Require Import Prelude TunnelCodec.

(** ** Routing handles ([handle.rs]) *)

Inductive FrameSendError : Type := Closed | Full.

(** One [mpsc] channel: what it holds, its capacity, whether the receiver is gone. *)
Record Channel (A : Type) : Type := { items : list A; capacity : nat; rx_closed : bool }.
Arguments items {A}.
Arguments capacity {A}.
Arguments rx_closed {A}.
Arguments Build_Channel {A}.

Definition channel {A : Type} (cap : nat) : Channel A :=
  {| items := []; capacity := cap; rx_closed := false |}.

Definition push {A : Type} (x : A) (c : Channel A) : Channel A :=
  {| items := items c ++ [x]; capacity := capacity c; rx_closed := rx_closed c |}.

(** [Sender::send(..).await]: [None] while the queue is full and the task waits. *)
Definition chan_send {A : Type} (x : A) (c : Channel A) : option (result unit (Channel A)) :=
  if rx_closed c then Some (Err tt)
  else if (length (items c) <? capacity c)%nat then Some (Ok (push x c))
  else None.

Record TunnelHandle : Type := mkHandle {
  frame_tx : Channel Frame;
  sessions : gmap Z (Channel (list Z));
  next_session : Z;
}.

Definition handle_new (tx : Channel Frame) : TunnelHandle := mkHandle tx ∅ 1.

(** [AtomicU32::fetch_add] wraps. *)
Definition open_session (inbox_capacity : nat) (h : TunnelHandle) : TunnelHandle * Z :=
  let sid := next_session h in
  (mkHandle (frame_tx h) (<[sid := channel inbox_capacity]> (sessions h))
     ((next_session h + 1) mod (u32_max + 1))%Z, sid).

Definition session_inbox (sid : Z) (h : TunnelHandle) : option (Channel (list Z)) :=
  sessions h !! sid.

Definition close_session (sid : Z) (h : TunnelHandle) : TunnelHandle :=
  mkHandle (frame_tx h) (delete sid (sessions h)) (next_session h).

Definition handle_send (f : Frame) (h : TunnelHandle)
    : option (TunnelHandle * result FrameSendError unit) :=
  match chan_send f (frame_tx h) with
  | Some (Ok c) => Some (mkHandle c (sessions h) (next_session h), Ok tt)
  | Some (Err _) => Some (h, Err Closed)
  | None => None
  end.

Definition handle_try_send (f : Frame) (h : TunnelHandle) : TunnelHandle * result FrameSendError unit :=
  match chan_send f (frame_tx h) with
  | Some (Ok c) => (mkHandle c (sessions h) (next_session h), Ok tt)
  | Some (Err _) => (h, Err Closed)
  | None => (h, Err Full)
  end.

Definition session_count (h : TunnelHandle) : nat := size (sessions h).

(** ** Registry ([registry.rs]) *)

Record TunnelEntry : Type := mkEntry {
  tunnel_id : string;
  dcc : string;
  capabilities : list string;
  instance_id : option string;
  capabilities_fingerprint : option string;
  adapter_version : option string;
  scene : option string;
  public_url : string;
  agent_version : string;
  registered_at : Z;
  last_heartbeat : Z;
  handle : nat;
}.

Definition touch (now : Z) (e : TunnelEntry) : TunnelEntry :=
  mkEntry (tunnel_id e) (dcc e) (capabilities e) (instance_id e) (capabilities_fingerprint e)
    (adapter_version e) (scene e) (public_url e) (agent_version e) (registered_at e) now (handle e).

Abbreviation TunnelRegistry := (gmap string TunnelEntry).

(** [insert]: whether the identifier was new. *)
Definition registry_insert (e : TunnelEntry) (r : TunnelRegistry) : TunnelRegistry * bool :=
  (<[tunnel_id e := e]> r, bool_decide (r !! tunnel_id e = None)).

Definition registry_get (tid : string) (r : TunnelRegistry) : option TunnelEntry := r !! tid.

Definition registry_remove (tid : string) (r : TunnelRegistry) : TunnelRegistry * option TunnelEntry :=
  (delete tid r, r !! tid).

Definition registry_len (r : TunnelRegistry) : nat := size r.

Definition iter_by_dcc (d : string) (r : TunnelRegistry) : list TunnelEntry :=
  filter (fun e => dcc e = d) (map_to_list r).*2.

(** ** Configuration and claims *)

Record RelayConfig : Type := {
  jwt_secret : list Z;
  public_host : string;
  base_url : string;
  stale_timeout : Z;
  max_tunnels : nat;
}.

Record TunnelClaims : Type := {
  sub : string;
  iat : Z;
  exp : Z;
  iss : string;
  allowed_dcc : list string;
}.

(** ** Eviction ([eviction.rs]) *)

(** [now.saturating_duration_since(last_seen)]. *)
Definition entry_age (now : Z) (e : TunnelEntry) : Z := sat_sub now (last_heartbeat e).

Definition stale_tunnels (now timeout : Z) (r : TunnelRegistry) : list string :=
  (filter (fun te => (timeout < entry_age now te.2)%Z) (map_to_list r)).*1.

Definition sweep_once (now : Z) (config : RelayConfig) (r : TunnelRegistry) : TunnelRegistry :=
  foldl (fun r tid => (registry_remove tid r).1) r (stale_tunnels now (stale_timeout config) r).

(** ** Control plane ([control.rs]) *)

Definition AGENT_FRAME_QUEUE : nat := 32.
Definition SESSION_INBOX_QUEUE : nat := 32.

Record Relay : Type := mkRelay {
  registry : TunnelRegistry;
  handles : gmap nat TunnelHandle;
}.

Section Control.
(** [auth::validate] with the secret: the claims of a valid token. *)
Variable validate : string -> list Z -> result ProtocolError TunnelClaims.
Variable error_string : ProtocolError -> string.

Definition reject_ack (code : ErrorCode) (message : string) : Frame :=
  FRegisterAck {| ack_ok := false; ack_tunnel_id := None; ack_public_url := None;
                  ack_error_code := Some code; ack_message := Some message |}.

Definition join_with (sep : string) (l : list string) : string := String.concat sep l.

(** The checks of [accept], in order: the first that fails, with its message.
    [n_string] prints a number. *)
Variable n_string : Z -> string.

Definition accept_check (req : RegisterRequest) (config : RelayConfig) (r : TunnelRegistry)
    : result (ErrorCode * string) unit :=
  if negb (rq_protocol_version req =? PROTOCOL_VERSION)%Z then
    Err (ProtocolMismatch, ("agent protocol_version=" ++ n_string (rq_protocol_version req) ++
      " relay=" ++ n_string PROTOCOL_VERSION)%string)
  else
    match validate (rq_token req) (jwt_secret config) with
    | Err e => Err (AuthFailed, error_string e)
    | Ok claims =>
        if negb (bool_decide (allowed_dcc claims = [])) && negb (bool_decide (rq_dcc req ∈ allowed_dcc claims)) then
          Err (DccNotAllowed, ("token only allows: " ++ join_with ", " (allowed_dcc claims))%string)
        else if negb (max_tunnels config =? 0)%nat && (max_tunnels config <=? registry_len r)%nat then
          Err (Internal, ("relay at capacity (" ++ n_string (Z.of_nat (max_tunnels config)) ++
            " tunnels)")%string)
        else Ok tt
    end.

(** The registration: [hid] is the new handle's reference, [tid] the fresh UUID. *)
Definition accept_insert (req : RegisterRequest) (config : RelayConfig) (tid : string) (hid : nat)
    (now : Z) (s : Relay) : Relay * Frame :=
  let url := (base_url config ++ "/tunnel/" ++ tid)%string in
  let entry := mkEntry tid (rq_dcc req) (rq_capabilities req) (rq_instance_id req)
    (rq_capabilities_fingerprint req) (rq_adapter_version req) (rq_scene req) url
    (rq_agent_version req) now now hid in
  (mkRelay (registry_insert entry (registry s)).1
     (<[hid := handle_new (channel AGENT_FRAME_QUEUE)]> (handles s)),
   FRegisterAck {| ack_ok := true; ack_tunnel_id := Some tid; ack_public_url := Some url;
                   ack_error_code := None; ack_message := None |}).

(** [accept]: the new state, the reply written to the agent, and the tunnel when
    it was accepted; [write_ok] is whether writing the acknowledgement succeeded. *)
Definition accept (req : RegisterRequest) (config : RelayConfig) (tid : string) (hid : nat)
    (now : Z) (write_ok : bool) (s : Relay) : Relay * Frame * option (string * nat) :=
  match accept_check req config (registry s) with
  | Err (code, msg) => (s, reject_ack code msg, None)
  | Ok _ =>
      let (s', ack) := accept_insert req config tid hid now s in
      if write_ok then (s', ack, Some (tid, hid))
      else (mkRelay (registry_remove tid (registry s')).1 (handles s'), ack, None)
  end.

(** The first frame of a connection ([handle_agent] up to [accept]): anything but
    a [Register] is refused; [debug] prints it. *)
Variable debug : Frame -> string.

Definition first_frame (f : Frame) (config : RelayConfig) (tid : string) (hid : nat) (now : Z)
    (write_ok : bool) (s : Relay) : Relay * Frame * option (string * nat) :=
  match f with
  | FRegister req => accept req config tid hid now write_ok s
  | other => (s, reject_ack ProtocolMismatch ("expected Register first, got " ++ debug other)%string, None)
  end.

(** One frame of [read_loop]; [None] while the delivery waits for room. *)
Definition read_step (tid : string) (hid : nat) (now : Z) (f : Frame) (s : Relay) : option Relay :=
  match f with
  | FHeartbeat =>
      Some (match registry_get tid (registry s) with
            | Some e => mkRelay (<[tid := touch now e]> (registry s)) (handles s)
            | None => s
            end)
  | FData sid payload =>
      match handles s !! hid with
      | None => Some s
      | Some h =>
          match session_inbox sid h with
          | None => Some s
          | Some inbox =>
              match chan_send payload inbox with
              | None => None
              | Some (Ok inbox') =>
                  Some (mkRelay (registry s)
                    (<[hid := mkHandle (frame_tx h) (<[sid := inbox']> (sessions h)) (next_session h)]>
                       (handles s)))
              | Some (Err _) => Some (mkRelay (registry s) (<[hid := close_session sid h]> (handles s)))
              end
          end
      end
  | FCloseSession sid _ =>
      match handles s !! hid with
      | None => Some s
      | Some h => Some (mkRelay (registry s) (<[hid := close_session sid h]> (handles s)))
      end
  | _ => Some s
  end.

(** The end of [handle_agent]: the registry row is removed. *)
Definition disconnect (tid : string) (s : Relay) : Relay :=
  mkRelay (registry_remove tid (registry s)).1 (handles s).

End Control.

(** ** Eviction is exact *)

Lemma remove_list_lookup (tids : list string) (r : TunnelRegistry) (i : string) :
  foldl (fun r tid => (registry_remove tid r).1) r tids !! i =
  if bool_decide (i ∈ tids) then None else r !! i.
Proof.
  revert r; induction tids as [|t tids IH]; intros r; simpl; [done|]. rewrite IH.
  destruct (decide (i = t)) as [->|Hne].
  - rewrite lookup_delete_eq, (bool_decide_eq_true_2 (t ∈ t :: tids)) by (by left).
    by case_bool_decide.
  - rewrite lookup_delete_ne by done.
    replace (bool_decide (i ∈ t :: tids)) with (bool_decide (i ∈ tids)); [done|].
    apply bool_decide_ext. set_solver.
Qed.

Lemma stale_tunnels_spec now timeout (r : TunnelRegistry) i :
  i ∈ stale_tunnels now timeout r <-> exists e, r !! i = Some e /\ (timeout < entry_age now e)%Z.
Proof.
  unfold stale_tunnels. rewrite list_elem_of_fmap. split.
  - intros ([j e] & -> & [Ha He]%list_elem_of_filter). simpl in *.
    exists e. by rewrite elem_of_map_to_list in He.
  - intros (e & He & Ha). exists (i, e). split; [done|]. apply list_elem_of_filter. split; [done|].
    by apply elem_of_map_to_list.
Qed.

Lemma sweep_lookup now config (r : TunnelRegistry) i :
  sweep_once now config r !! i =
  match r !! i with
  | Some e => if (stale_timeout config <? entry_age now e)%Z then None else Some e
  | None => None
  end.
Proof.
  unfold sweep_once. rewrite remove_list_lookup. destruct (r !! i) as [e|] eqn:E.
  - destruct (Z.ltb_spec (stale_timeout config) (entry_age now e)).
    + rewrite bool_decide_eq_true_2; [done|]. apply stale_tunnels_spec. eauto.
    + rewrite bool_decide_eq_false_2; [done|]. intros (e' & ? & ?)%stale_tunnels_spec.
      simplify_eq. lia.
  - by case_bool_decide.
Qed.

(** A sweep removes exactly the tunnels whose last heartbeat is older than
    the timeout.  A tunnel that was heard of at [t] survives every sweep up to
    [t + stale_timeout] and is gone after the first one past it, whatever sessions
    are open on it: the open sessions are not consulted. *)
Theorem sweep_exact (now t : Z) (config : RelayConfig) (r : TunnelRegistry) (tid : string)
  (e : TunnelEntry) (He : r !! tid = Some e) (Ht : last_heartbeat e = t)
  (Htimeout : (0 <= stale_timeout config)%Z) :
  (sweep_once now config r !! tid = Some e <-> now <= t + stale_timeout config)%Z /\
  (sweep_once now config r !! tid = None <-> t + stale_timeout config < now)%Z /\
  dom (sweep_once now config r) ⊆ dom r.
Proof.
  rewrite sweep_lookup, He. unfold entry_age, sat_sub. rewrite Ht.
  split; [|split].
  - destruct (Z.ltb_spec (stale_timeout config) (Z.max (now - t) 0)); split; intros; try done; lia.
  - destruct (Z.ltb_spec (stale_timeout config) (Z.max (now - t) 0)); split; intros; try done; lia.
  - intros i. rewrite !elem_of_dom, sweep_lookup. destruct (r !! i) eqn:E; [|by intros [? ?]]. eauto.
Qed.

(** ** Admission *)

Section Admission.
Variable validate : string -> list Z -> result ProtocolError TunnelClaims.
Variable error_string : ProtocolError -> string.
Variable n_string : Z -> string.

Definition admissible (req : RegisterRequest) (config : RelayConfig) (r : TunnelRegistry) : Prop :=
  rq_protocol_version req = PROTOCOL_VERSION /\
  (exists claims, validate (rq_token req) (jwt_secret config) = Ok claims /\
    (allowed_dcc claims = [] \/ rq_dcc req ∈ allowed_dcc claims)) /\
  (max_tunnels config = 0 \/ registry_len r < max_tunnels config).

Lemma accept_check_iff req config r :
  accept_check validate error_string n_string req config r = Ok tt <-> admissible req config r.
Proof.
  unfold accept_check, admissible. split.
  - destruct (Z.eqb_spec (rq_protocol_version req) PROTOCOL_VERSION); [|done]. simpl.
    destruct (validate _ _) as [claims|]; [|done].
    destruct (bool_decide_reflect (allowed_dcc claims = [])),
      (bool_decide_reflect (rq_dcc req ∈ allowed_dcc claims)); simpl; try done;
      (destruct (negb _ && _) eqn:Ec; [done|]); intros _; split; try done;
      (split; [eexists; split; [done|]; auto|]); bool_to_prop; lia.
  - intros (-> & (claims & -> & Ha) & Hm). rewrite Z.eqb_refl. simpl.
    assert (negb (bool_decide (allowed_dcc claims = [])) &&
      negb (bool_decide (rq_dcc req ∈ allowed_dcc claims)) = false) as ->.
    { destruct Ha as [Ha|Ha].
      - rewrite (bool_decide_eq_true_2 _ Ha). done.
      - rewrite (bool_decide_eq_true_2 _ Ha). apply andb_false_r. }
    destruct (negb _ && _) eqn:Ec; [|done]. bool_to_prop. lia.
Qed.

(** Registration.  An agent is admitted exactly when its protocol version is
    the relay's, its token is valid and allows its DCC (an empty list allows any),
    there is room, and the acknowledgement could be written; it is then in the
    registry under the identifier it was told.  Otherwise a registry without that
    identifier is left as it was, and a connection that is refused is told so.  A
    capacity that held before holds after. *)
Theorem accept_spec (req : RegisterRequest) (config : RelayConfig) (tid : string) (hid : nat)
  (now : Z) (write_ok : bool) (s : Relay) (Hfresh : registry s !! tid = None) :
  let '(s', reply, accepted) :=
    accept validate error_string n_string req config tid hid now write_ok s in
  (accepted = Some (tid, hid) <-> admissible req config (registry s) /\ write_ok = true) /\
  (accepted = Some (tid, hid) -> exists e, registry s' = <[tid := e]> (registry s) /\
    dcc e = rq_dcc req /\ handle e = hid /\ last_heartbeat e = now) /\
  (accepted <> Some (tid, hid) -> registry s' = registry s) /\
  (~ admissible req config (registry s) -> exists code msg, reply = reject_ack code msg) /\
  (max_tunnels config <> 0 -> registry_len (registry s) <= max_tunnels config ->
    registry_len (registry s') <= max_tunnels config).
Proof.
  unfold accept. pose proof (accept_check_iff req config (registry s)) as Hc.
  destruct (accept_check _ _ _ _ _ _) as [[]|[code msg]].
  - destruct (proj1 Hc eq_refl) as (Hv & Ht & Hm). simpl. destruct write_ok; simpl.
    + split; [split; [intros _; split; [done|done]|done]|].
      split; [intros _; eexists; done|]. split; [done|].
      split; [by intros []|]. intros ? ?. unfold registry_len in *.
      rewrite map_size_insert_None by done. lia.
    + split; [split; [done|by intros [_ ?]]|]. split; [done|].
      assert (Hs : delete tid (<[tid:=mkEntry tid (rq_dcc req) (rq_capabilities req)
        (rq_instance_id req) (rq_capabilities_fingerprint req) (rq_adapter_version req)
        (rq_scene req) (base_url config ++ "/tunnel/" ++ tid)%string (rq_agent_version req) now now hid]>
        (registry s)) = registry s) by (by rewrite delete_insert_id).
      rewrite Hs. split; [done|]. split; [by intros []|]. done.
  - assert (Hn : ~ admissible req config (registry s)) by (intros Ha; by apply Hc in Ha).
    simpl. split; [split; [done|by intros [? _]]|]. split; [done|]. split; [done|].
    split; [intros _; by exists code, msg|done].
Qed.

(** The capacity check and the insertion are two steps, so the cap is not a
    bound on concurrent registrations: when one slot is left, two connections whose
    checks both run before either insertion are both admitted and the registry ends
    above its configured maximum. *)
Theorem capacity_race (req1 req2 : RegisterRequest) (config : RelayConfig) (tid1 tid2 : string)
  (hid1 hid2 : nat) (now : Z) (s : Relay)
  (Hslot : max_tunnels config = S (registry_len (registry s)))
  (H1 : admissible req1 config (registry s)) (H2 : admissible req2 config (registry s))
  (Hfresh1 : registry s !! tid1 = None) (Hfresh2 : registry s !! tid2 = None) (Hne : tid1 <> tid2) :
  accept_check validate error_string n_string req1 config (registry s) = Ok tt /\
  accept_check validate error_string n_string req2 config (registry s) = Ok tt /\
  max_tunnels config <
    registry_len (registry (accept_insert req2 config tid2 hid2 now
      (accept_insert req1 config tid1 hid1 now s).1).1).
Proof.
  split; [by apply accept_check_iff|]. split; [by apply accept_check_iff|].
  unfold registry_len in *. simpl. rewrite !map_size_insert_None; [lia|done|].
  by rewrite lookup_insert_ne.
Qed.

End Admission.

(** ** Sessions of one tunnel *)

Inductive handle_op : Type :=
| HOpen (inbox_capacity : nat)
| HClose (sid : Z)
| HTrySend (f : Frame).

Definition handle_exec (o : handle_op) (h : TunnelHandle) : TunnelHandle :=
  match o with
  | HOpen c => (open_session c h).1
  | HClose sid => close_session sid h
  | HTrySend f => (handle_try_send f h).1
  end.

Definition opens (ops : list handle_op) : nat :=
  length (filter (fun o => match o with HOpen _ => true | _ => false end = true) ops).

Definition handle_run (ops : list handle_op) (h : TunnelHandle) : TunnelHandle :=
  foldl (fun h o => handle_exec o h) h ops.

Lemma handle_run_next ops h :
  (0 <= next_session h <= u32_max)%Z ->
  next_session (handle_run ops h) = ((next_session h + Z.of_nat (opens ops)) mod (u32_max + 1))%Z.
Proof.
  revert h; induction ops as [|o ops IH]; intros h Hh.
  - unfold opens. simpl. rewrite Z.add_0_r, Z.mod_small by lia. done.
  - change (handle_run (o :: ops) h) with (handle_run ops (handle_exec o h)).
    unfold opens. rewrite filter_cons. destruct o as [c|sid|f]; cbn [handle_exec].
    + rewrite (IH (open_session c h).1); simpl.
      * unfold opens. rewrite Z.add_mod_idemp_l by done. f_equal. lia.
      * pose proof (Z.mod_pos_bound (next_session h + 1) (u32_max + 1)). unfold u32_max in *. lia.
    + by apply (IH (close_session sid h)).
    + rewrite (IH (handle_try_send f h).1).
      * unfold handle_try_send. by destruct (chan_send _ _) as [[]|].
      * unfold handle_try_send. by destruct (chan_send _ _) as [[]|].
Qed.

(** The sessions that are open have identifiers handed out before. *)
Lemma handle_run_sessions ops : forall h,
  (0 < next_session h)%Z -> (next_session h + Z.of_nat (opens ops) <= u32_max)%Z ->
  (forall sid, is_Some (sessions h !! sid) -> 0 < sid < next_session h)%Z ->
  forall sid, is_Some (sessions (handle_run ops h) !! sid) ->
    (0 < sid < next_session h + Z.of_nat (opens ops))%Z.
Proof.
  induction ops as [|o ops IH]; intros h Hpos Hmax Hs sid Hsid.
  - simpl in Hsid. apply Hs in Hsid. lia.
  - change (handle_run (o :: ops) h) with (handle_run ops (handle_exec o h)) in Hsid.
    unfold opens in *. rewrite filter_cons in *.
    destruct o as [c|x|f]; cbn [handle_exec length] in *.
    + simpl in Hmax |- *. assert (Hn : ((next_session h + 1) mod (u32_max + 1) = next_session h + 1)%Z)
        by (apply Z.mod_small; lia).
      specialize (IH (open_session c h).1). simpl in IH, Hsid. rewrite Hn in IH, Hsid.
      destruct (IH ltac:(lia) ltac:(lia)) with (sid := sid) as [? ?]; [|exact Hsid|lia].
      intros y Hy. destruct (decide (y = next_session h)) as [->|Hne]; [lia|].
      rewrite lookup_insert_ne in Hy by done. apply Hs in Hy. lia.
    + apply (IH (close_session x h)); try done. intros y Hy. apply Hs. simpl in Hy.
      destruct (decide (x = y)) as [->|Hne].
      * rewrite lookup_delete_eq in Hy. by apply is_Some_None in Hy.
      * by rewrite lookup_delete_ne in Hy.
    + unfold handle_try_send in Hsid. destruct (chan_send f (frame_tx h)) as [[c|]|];
        by eapply (IH (mkHandle _ (sessions h) (next_session h))) in Hsid || by apply (IH h) in Hsid.
Qed.

(** An open session stays open until it is closed. *)
Lemma handle_run_open ops : forall h sid,
  HClose sid ∉ ops -> is_Some (sessions h !! sid) -> is_Some (sessions (handle_run ops h) !! sid).
Proof.
  induction ops as [|o ops IH]; intros h sid Hc Hs; [done|].
  rewrite not_elem_of_cons in Hc. destruct Hc as [Ho Hc].
  apply (IH (handle_exec o h) sid Hc). destruct o as [c|x|f]; simpl.
  - destruct (decide (next_session h = sid)) as [->|]; [by rewrite lookup_insert_eq|].
    by rewrite lookup_insert_ne.
  - rewrite lookup_delete_ne by congruence. done.
  - unfold handle_try_send. by destruct (chan_send _ _) as [[]|].
Qed.

(** Session identifiers.  Over the first [2^32 - 2] sessions of a tunnel a new
    session never gets the identifier of a session that is open.  Identifiers are
    the opening's number modulo [2^32] and live sessions are not consulted, so the
    session opened [2^32] openings after one that is still open takes its place. *)
Theorem open_session_ids (ops : list handle_op) (tx : Channel Frame) (cap : nat) :
  ((Z.of_nat (opens ops) + 1 < u32_max)%Z ->
    sessions (handle_run ops (handle_new tx)) !!
      (open_session cap (handle_run ops (handle_new tx))).2 = None) /\
  (open_session cap (handle_run ops (handle_new tx))).2 =
    ((1 + Z.of_nat (opens ops)) mod (u32_max + 1))%Z /\
  (forall ops' h, (0 <= next_session h <= u32_max)%Z -> Z.of_nat (opens ops') = u32_max ->
    HClose (open_session cap h).2 ∉ ops' ->
    is_Some (sessions (handle_run ops' (open_session cap h).1) !! (open_session cap h).2) /\
    (open_session cap (handle_run ops' (open_session cap h).1)).2 = (open_session cap h).2).
Proof.
  assert (Hnext : next_session (handle_run ops (handle_new tx)) =
    ((1 + Z.of_nat (opens ops)) mod (u32_max + 1))%Z).
  { rewrite handle_run_next; [done|]. simpl. unfold u32_max. lia. }
  split; [|split; [done|]].
  - intros Hmax. simpl. rewrite Hnext, Z.mod_small by (unfold u32_max in *; lia).
    destruct (sessions _ !! _) as [c|] eqn:E; [|done].
    destruct (handle_run_sessions ops (handle_new tx)) with (sid := (1 + Z.of_nat (opens ops))%Z)
      as [_ ?]; simpl in *; try lia; [|by rewrite E].
    intros sid Hs. rewrite lookup_empty in Hs. by apply is_Some_None in Hs.
  - intros ops' h Hh Hops Hc. split.
    { apply handle_run_open; [done|]. simpl. by rewrite lookup_insert_eq. }
    simpl. rewrite handle_run_next, Hops.
    + simpl. rewrite Z.add_mod_idemp_l by done.
      replace (next_session h + 1 + u32_max)%Z with (next_session h + 1 * (u32_max + 1))%Z by lia.
      rewrite Z.mod_add by done. apply Z.mod_small. lia.
    + simpl. pose proof (Z.mod_pos_bound (next_session h + 1) (u32_max + 1)). unfold u32_max in *. lia.
Qed.

(** ** Delivery to sessions *)

(** The control task's read loop over the frames of one agent, each with its
    arrival time; [None] when a delivery waits for a full inbox. *)
Fixpoint read_loop (tid : string) (hid : nat) (fs : list (Z * Frame)) (s : Relay) : option Relay :=
  match fs with
  | [] => Some s
  | (now, f) :: fs' => read_step tid hid now f s ≫= read_loop tid hid fs'
  end.

Definition payloads (sid : Z) (fs : list (Z * Frame)) : list (list Z) :=
  omap (fun tf => match tf.2 with
                  | FData x p => if bool_decide (x = sid) then Some p else None
                  | _ => None
                  end) fs.

Definition closes (sid : Z) (f : Frame) : bool :=
  match f with FCloseSession x _ => bool_decide (x = sid) | _ => false end.

Definition inbox_of (hid : nat) (sid : Z) (s : Relay) : option (Channel (list Z)) :=
  h ← handles s !! hid; session_inbox sid h.

Definition same_others (hid : nat) (s s' : Relay) : Prop :=
  forall other, other <> hid -> handles s' !! other = handles s !! other.

(** One frame extends the inbox of its session, and that one only. *)
Lemma read_step_inbox tid hid now f s s' sid c :
  read_step tid hid now f s = Some s' -> closes sid f = false ->
  inbox_of hid sid s = Some c -> rx_closed c = false ->
  length (items c) <= capacity c ->
  exists c', inbox_of hid sid s' = Some c' /\ rx_closed c' = false /\ capacity c' = capacity c /\
    length (items c') <= capacity c /\
    items c' = items c ++ payloads sid [(now, f)] /\ same_others hid s s'.
Proof.
  unfold inbox_of. intros Hstep Hcl Hin Hrx Hcap.
  destruct (handles s !! hid) as [h|] eqn:Eh; [|done]. simpl in Hin.
  assert (Hstay : s' = s \/ (exists r, s' = mkRelay r (handles s)) ->
    payloads sid [(now, f)] = [] ->
    exists c', (handles s' !! hid ≫= session_inbox sid) = Some c' /\ rx_closed c' = false /\
      capacity c' = capacity c /\ length (items c') <= capacity c /\
      items c' = items c ++ payloads sid [(now, f)] /\ same_others hid s s').
  { intros Hs ->. exists c. rewrite app_nil_r.
    destruct Hs as [->|[r ->]]; simpl; rewrite Eh; by split_and!. }
  assert (Hdel : forall x, x <> sid -> s' = mkRelay (registry s) (<[hid := close_session x h]> (handles s)) ->
    payloads sid [(now, f)] = [] ->
    exists c', (handles s' !! hid ≫= session_inbox sid) = Some c' /\ rx_closed c' = false /\
      capacity c' = capacity c /\ length (items c') <= capacity c /\
      items c' = items c ++ payloads sid [(now, f)] /\ same_others hid s s').
  { intros x Hx -> ->. exists c. rewrite app_nil_r. simpl. rewrite lookup_insert_eq. simpl.
    unfold session_inbox in *. simpl. rewrite lookup_delete_ne by done. split_and!; try done.
    intros o Ho. simpl. by rewrite lookup_insert_ne. }
  destruct f as [r|a| |x i|x r|x p|x e msg]; simpl in Hstep; try (apply Hstay; [left; congruence|done]).
  - destruct (registry_get tid (registry s)); apply Hstay; try done; [right|left]; by simplify_eq; eauto.
  - rewrite Eh in Hstep. simpl in Hcl. bool_to_prop. apply bool_decide_eq_false in Hcl.
    apply (Hdel x); [done|congruence|done].
  - rewrite Eh in Hstep. destruct (session_inbox x h) as [inbox|] eqn:Ex.
    + destruct (decide (x = sid)) as [->|Hne].
      * rewrite Hin in Ex. simplify_eq. unfold chan_send in Hstep. rewrite Hrx in Hstep.
        destruct (length (items inbox) <? capacity inbox)%nat eqn:El; [|done]. simplify_eq.
        exists (push p inbox). simpl. rewrite lookup_insert_eq. simpl. unfold session_inbox. simpl.
        rewrite lookup_insert_eq, bool_decide_eq_true_2 by done. split_and!; try done.
        -- rewrite length_app. bool_to_prop. simpl. lia.
        -- intros o Ho. simpl. by rewrite lookup_insert_ne.
      * assert (Hp : payloads sid [(now, FData x p)] = [])
          by (unfold payloads; simpl; by rewrite bool_decide_eq_false_2).
        destruct (chan_send p inbox) as [[inbox'|]|]; simplify_eq; [|by apply (Hdel x)].
        exists c. rewrite Hp, app_nil_r. simpl. rewrite lookup_insert_eq. simpl.
        unfold session_inbox in *. simpl. rewrite lookup_insert_ne by done. split_and!; try done.
        intros o Ho. simpl. by rewrite lookup_insert_ne.
    + apply Hstay; [left; congruence|]. unfold payloads. simpl.
      rewrite bool_decide_eq_false_2; [done|]. intros ->. congruence.
Qed.

Lemma payloads_cons sid tf fs : payloads sid (tf :: fs) = payloads sid [tf] ++ payloads sid fs.
Proof. unfold payloads. simpl. by destruct (match tf.2 with FData _ _ => _ | _ => _ end). Qed.

(** Per-session delivery.  Whatever frames an agent sends, interleaved over
    any number of sessions, the inbox of a session that is not closed receives
    exactly the payloads addressed to it, in order, never exceeds its capacity,
    and no other tunnel's handle is touched. *)
Theorem session_fifo (tid : string) (hid : nat) (fs : list (Z * Frame)) (s s' : Relay) (sid : Z)
  (c : Channel (list Z)) (Hrun : read_loop tid hid fs s = Some s')
  (Hopen : Forall (fun tf => closes sid tf.2 = false) fs)
  (Hin : inbox_of hid sid s = Some c) (Hrx : rx_closed c = false)
  (Hcap : length (items c) <= capacity c) :
  (exists c', inbox_of hid sid s' = Some c' /\ items c' = items c ++ payloads sid fs /\
    length (items c') <= capacity c) /\
  same_others hid s s'.
Proof.
  revert s c Hrun Hin Hrx Hcap; induction Hopen as [|[now f] fs Hf Hfs IH]; intros s c Hrun Hin Hrx Hcap.
  - simpl in Hrun. simplify_eq. split; [exists c; by rewrite app_nil_r|done].
  - cbn [read_loop] in Hrun. destruct (read_step tid hid now f s) as [s1|] eqn:E1; [|done].
    destruct (read_step_inbox _ _ _ _ _ _ _ _ E1 Hf Hin Hrx Hcap)
      as (c1 & Hin1 & Hrx1 & Hc1 & Hl1 & Hi1 & Ho1).
    destruct (IH s1 c1 Hrun Hin1 Hrx1) as [(c' & Hin' & Hi' & Hl') Ho']; [lia|].
    split.
    + exists c'. rewrite Hc1 in Hl'. split; [done|]. split; [|done].
      by rewrite Hi', Hi1, <- app_assoc, (payloads_cons sid (now, f) fs).
    + intros o Hne. by rewrite Ho', Ho1.
Qed.

(** ** Witnesses *)

Section Witnesses.
Local Open Scope string_scope.

Definition sample_config : RelayConfig :=
  {| jwt_secret := []; public_host := "localhost"; base_url := "ws://localhost:9870";
     stale_timeout := 30000000000; max_tunnels := 1 |}.

Definition sample_request : RegisterRequest :=
  {| rq_protocol_version := 2; rq_token := "t"; rq_dcc := "maya"; rq_capabilities := [];
     rq_agent_version := "a"; rq_instance_id := None; rq_capabilities_fingerprint := None;
     rq_adapter_version := None; rq_scene := None |}.

(** A token authority that knows one token, and printers. *)
Definition sample_validate (token : string) (secret : list Z) : result ProtocolError TunnelClaims :=
  if bool_decide (token = "t") then
    Ok {| sub := "s"; iat := 0; exp := 10; iss := "i"; allowed_dcc := ["maya"] |}
  else Err (PJwt "InvalidToken").
Definition print_error (e : ProtocolError) : string := "rejected".
Definition print_number (n : Z) : string := "n".

Definition empty_relay : Relay := mkRelay ∅ ∅.

Lemma sample_admissible : admissible sample_validate sample_request sample_config ∅.
Proof.
  split; [done|]. split; [|right; unfold registry_len; rewrite map_size_empty; simpl; lia].
  eexists. split; [reflexivity|]. right. by left.
Qed.

Lemma accept_spec_witness :
  (accept sample_validate print_error print_number sample_request sample_config "id" 0 5 true
    empty_relay).2 = Some ("id", 0).
Proof.
  pose proof (accept_spec sample_validate print_error print_number sample_request sample_config
    "id" 0 5 true empty_relay (lookup_empty "id")) as H.
  destruct (accept _ _ _ _ _ _ _ _ _ _) as [[s' reply] acc]. destruct H as [H _].
  apply H. split; [apply sample_admissible|done].
Defined.

Lemma capacity_race_witness :
  1 < registry_len (registry (accept_insert sample_request sample_config "b" 1 5
      (accept_insert sample_request sample_config "a" 0 5 empty_relay).1).1).
Proof.
  destruct (capacity_race sample_validate print_error print_number sample_request sample_request
    sample_config "a" "b" 0 1 5 empty_relay eq_refl sample_admissible sample_admissible
    (lookup_empty "a") (lookup_empty "b") ltac:(discriminate)) as (_ & _ & H).
  exact H.
Defined.

Definition sample_entry : TunnelEntry :=
  mkEntry "id" "maya" [] None None None None "u" "a" 5 5 0.

Definition one_tunnel : gmap string TunnelEntry := {["id" := sample_entry]}.

Lemma sweep_exact_witness :
  sweep_once 40000000000 sample_config one_tunnel !! "id" = None.
Proof.
  destruct (sweep_exact 40000000000 5 sample_config one_tunnel "id" sample_entry
    ltac:(vm_compute; reflexivity) eq_refl ltac:(simpl; lia)) as (_ & H & _).
  apply H. simpl. lia.
Defined.

Definition two_sessions : Relay :=
  mkRelay ∅ {[0 := (open_session 32 (open_session 32 (handle_new (channel 32))).1).1]}.

Lemma session_fifo_witness :
  exists s', read_loop "id" 0 [(1, FData 1 [7]); (2, FData 2 [8]); (3, FData 1 [9])]%Z two_sessions = Some s' /\
    exists c', inbox_of 0 1 s' = Some c' /\ items c' = [[7]; [9]]%Z.
Proof.
  destruct (read_loop "id" 0 [(1, FData 1 [7]); (2, FData 2 [8]); (3, FData 1 [9])]%Z two_sessions)
    as [s'|] eqn:E; [|vm_compute in E; discriminate].
  exists s'. split; [done|].
  destruct (session_fifo "id" 0 _ two_sessions s' 1 (channel 32) E ltac:(repeat constructor)
    ltac:(vm_compute; reflexivity) eq_refl ltac:(simpl; lia)) as [(c' & Hc & Hi & _) _].
  exists c'. split; [exact Hc|]. rewrite Hi. reflexivity.
Defined.

End Witnesses.
