(* ===== verification/TunnelAgent.v ===== *)
(** Component: the tunnel agent ([crates/dcc-mcp-tunnel-agent]: [config.rs],
    [reconnect.rs], [client.rs]).

    The reconnect loop is a function of what each iteration observes: the shutdown
    watch, the outcome of the session and how the wait ended.  A session's socket
    I/O is not modelled; the frames it writes and its table of sessions are. *)

From S2P Require Import Prelude TunnelCodec TunnelRelay.

(** ** Configuration *)

Inductive ReconnectPolicy : Type :=
| Constant (delay : Z)
| Exponential (initial max : Z).

(** [Duration::MAX] in nanoseconds, where [saturating_mul] stops. *)
Definition duration_max : Z := u64_max * 1000000000 + 999999999.

Definition default_policy : ReconnectPolicy := Exponential 2000000000 60000000000.

Record AgentConfig : Type := {
  relay_url : string;
  token : string;
  agent_dcc : string;
  agent_capabilities : list string;
  agent_instance_id : option string;
  agent_fingerprint : option string;
  agent_adapter_version : option string;
  agent_scene : option string;
  agent_build : string;
  local_target : string;
  heartbeat_interval : Z;
  reconnect : ReconnectPolicy;
}.

(** ** Back-off ([reconnect.rs]) *)

Definition initial_delay (p : ReconnectPolicy) : Z :=
  match p with
  | Constant delay => delay
  | Exponential initial _ => initial
  end.

Definition next_delay (p : ReconnectPolicy) (prev : Z) : Z :=
  match p with
  | Constant delay => delay
  | Exponential initial max =>
      let doubled := sat_mul duration_max prev 2 in
      let bounded := Z.min doubled max in
      Z.max bounded initial
  end.

Record Registered : Type := { reg_tunnel_id : string; reg_public_url : option string }.

Inductive ClientError : Type :=
| Connect (msg : string)
| Transport (e : FrameIoError)
| HandshakeProtocol (msg : string)
| Rejected (ack : RegisterAck).

Inductive ReconnectExit : Type :=
| Shutdown
| Fatal (e : ClientError).

(** What one iteration observes: the watch at its start; the watch's value if it
    changed before the session ended; the session's outcome; the watch's value if
    it changed before the delay elapsed. *)
Record Iteration : Type := {
  watch_at_start : bool;
  watch_during : option bool;
  outcome : result ClientError Registered;
  watch_waiting : option bool;
}.

(** One turn of the loop: leave, or go on with a new delay; the delay that was
    slept to its end, if any, is returned with it. *)
Definition reconnect_step (p : ReconnectPolicy) (delay : Z) (it : Iteration)
    : ReconnectExit + (Z * option Z) :=
  if watch_at_start it then inl Shutdown
  else
    match watch_during it with
    | Some true => inl Shutdown
    | Some false => inr (delay, None)
    | None =>
        match outcome it with
        | Err (Rejected ack) => inl (Fatal (Rejected ack))
        | o =>
            let delay1 := if is_ok o then initial_delay p else delay in
            match watch_waiting it with
            | Some true => inl Shutdown
            | Some false => inr (next_delay p delay1, None)
            | None => inr (next_delay p delay1, Some delay1)
            end
        end
    end.

(** [run_with_reconnect] over the iterations observed so far: how it ended, if it
    did, the delay in force, and the delays slept. *)
Fixpoint reconnect_run (p : ReconnectPolicy) (delay : Z) (its : list Iteration)
    : option ReconnectExit * Z * list Z :=
  match its with
  | [] => (None, delay, [])
  | it :: its' =>
      match reconnect_step p delay it with
      | inl e => (Some e, delay, [])
      | inr (delay', slept) =>
          let '(e, d, sl) := reconnect_run p delay' its' in
          (e, d, option_list slept ++ sl)
      end
  end.

Definition run_with_reconnect (config : AgentConfig) (its : list Iteration)
    : option ReconnectExit * Z * list Z :=
  reconnect_run (reconnect config) (initial_delay (reconnect config)) its.

(** ** One session ([client.rs]) *)

Definition register_request (config : AgentConfig) : RegisterRequest := {|
  rq_protocol_version := PROTOCOL_VERSION;
  rq_token := token config;
  rq_dcc := agent_dcc config;
  rq_capabilities := agent_capabilities config;
  rq_agent_version := agent_build config;
  rq_instance_id := agent_instance_id config;
  rq_capabilities_fingerprint := agent_fingerprint config;
  rq_adapter_version := agent_adapter_version config;
  rq_scene := agent_scene config;
|}.

(** What [run_once] makes of the relay's first frame; [debug] prints it. *)
Definition handshake (debug : option Frame -> string) (reply : option Frame)
    : result ClientError Registered :=
  match reply with
  | Some (FRegisterAck ack) =>
      if negb (ack_ok ack) then Err (Rejected ack)
      else
        match ack_tunnel_id ack with
        | None => Err (HandshakeProtocol "ack ok=true but tunnel_id None")
        | Some tid => Ok {| reg_tunnel_id := tid; reg_public_url := ack_public_url ack |}
        end
  | other => Err (HandshakeProtocol ("expected RegisterAck, got " ++ debug other)%string)
  end.

Definition AGENT_SESSION_INBOX_QUEUE : nat := 32.

(** One frame of the dispatch loop on the table of sessions; [None] while a
    delivery waits for room.  [OpenSession] also starts [bridge_session]. *)
Definition agent_step (f : Frame) (ss : gmap Z (Channel (list Z))) : option (gmap Z (Channel (list Z))) :=
  match f with
  | FOpenSession sid _ => Some (<[sid := channel AGENT_SESSION_INBOX_QUEUE]> ss)
  | FData sid payload =>
      match ss !! sid with
      | None => Some ss
      | Some tx =>
          match chan_send payload tx with
          | None => None
          | Some (Ok tx') => Some (<[sid := tx']> ss)
          | Some (Err _) => Some (delete sid ss)
          end
      end
  | FCloseSession sid _ => Some (delete sid ss)
  | _ => Some ss
  end.

(** What [bridge_session] writes to the relay for the local reads [chunks]: each
    non-empty read, up to the first empty one, then the close. *)
Fixpoint relay_pump (sid : Z) (chunks : list (list Z)) : list Frame :=
  match chunks with
  | [] => [FCloseSession sid BackendGone]
  | [] :: _ => [FCloseSession sid BackendGone]
  | c :: cs => FData sid c :: relay_pump sid cs
  end.

(** Every frame an agent process writes: its registration and its bridges'. *)
Definition agent_frame (config : AgentConfig) (f : Frame) : Prop :=
  f = FRegister (register_request config) \/ exists sid chunks, f ∈ relay_pump sid chunks.

(** ** The delay in closed form *)

Fixpoint delay_after (p : ReconnectPolicy) (n : nat) : Z :=
  match n with
  | O => initial_delay p
  | S n' => next_delay p (delay_after p n')
  end.

(** After [n] unbroken failures the exponential policy waits
    [initial * 2^n], capped at [max] but never below [initial]: there is no reset
    after any length of failure, the delays never decrease, and they stay within
    the configured bounds (no overflow). *)
Theorem backoff_closed_form (initial max : Z) (n : nat)
  (Hi : (0 <= initial)%Z) (Hm : (0 <= max <= duration_max)%Z) (Hd : (initial <= duration_max)%Z) :
  let p := Exponential initial max in
  delay_after p n = Z.max initial (Z.min (initial * 2 ^ Z.of_nat n) max) /\
  (delay_after p n <= delay_after p (S n))%Z /\
  (initial <= delay_after p n <= Z.max initial max)%Z.
Proof.
  cbv zeta. assert (Hclosed : forall k, delay_after (Exponential initial max) k =
    Z.max initial (Z.min (initial * 2 ^ Z.of_nat k) max)).
  { intros k; induction k as [|k IH]; [simpl; lia|].
    cbn [delay_after next_delay]. rewrite IH. unfold sat_mul.
    replace (2 ^ Z.of_nat (S k))%Z with (2 * 2 ^ Z.of_nat k)%Z
      by (rewrite Nat2Z.inj_succ, Z.pow_succ_r by lia; done).
    pose proof (Z.pow_pos_nonneg 2 (Z.of_nat k) ltac:(lia) ltac:(lia)).
    assert (initial <= initial * 2 ^ Z.of_nat k)%Z by nia.
    replace (initial * (2 * 2 ^ Z.of_nat k))%Z with (2 * (initial * 2 ^ Z.of_nat k))%Z by lia.
    generalize dependent (initial * 2 ^ Z.of_nat k)%Z. intros q Hq. lia. }
  split; [apply Hclosed|]. rewrite !Hclosed. split; [|lia].
  replace (2 ^ Z.of_nat (S n))%Z with (2 * 2 ^ Z.of_nat n)%Z
    by (rewrite Nat2Z.inj_succ, Z.pow_succ_r by lia; done).
  pose proof (Z.pow_pos_nonneg 2 (Z.of_nat n) ltac:(lia) ltac:(lia)).
  assert (initial * 2 ^ Z.of_nat n <= initial * (2 * 2 ^ Z.of_nat n))%Z by nia. lia.
Qed.

(** ** The loop *)

Definition saw_shutdown (it : Iteration) : Prop :=
  watch_at_start it = true \/ watch_during it = Some true \/ watch_waiting it = Some true.

Definition failed (it : Iteration) : Prop :=
  watch_at_start it = false /\ watch_during it = None /\ watch_waiting it = None /\
  exists e, outcome it = Err e /\ forall ack, e <> Rejected ack.

Lemma reconnect_step_exit p delay it e :
  reconnect_step p delay it = inl e ->
  (e = Shutdown /\ saw_shutdown it) \/ (exists ack, e = Fatal (Rejected ack) /\ outcome it = Err (Rejected ack)).
Proof.
  unfold reconnect_step, saw_shutdown. destruct (watch_at_start it); [intros [= <-]; auto|].
  destruct (watch_during it) as [[]|]; [intros [= <-]; auto|done|].
  destruct (outcome it) as [r|[m|fe|m|ack]]; simpl; [..|intros [= <-]; right; eauto];
    destruct (watch_waiting it) as [[]|]; intros H; simplify_eq; auto.
Qed.

Lemma reconnect_step_failed p delay it :
  failed it -> reconnect_step p delay it = inr (next_delay p delay, Some delay).
Proof.
  intros (H1 & H2 & H3 & e & He & Hr). unfold reconnect_step. rewrite H1, H2, He, H3.
  destruct e; try done. by destruct (Hr ack).
Qed.

Lemma reconnect_run_failed p its : forall k,
  Forall failed its ->
  reconnect_run p (delay_after p k) its =
    (None, delay_after p (k + length its), map (delay_after p) (seq k (length its))).
Proof.
  induction its as [|it its IH]; intros k Hf; simpl; [by rewrite Nat.add_0_r|].
  inv Hf. rewrite reconnect_step_failed by done.
  change (next_delay p (delay_after p k)) with (delay_after p (S k)).
  rewrite (IH (S k)) by done. simpl. by rewrite Nat.add_succ_r.
Qed.

(** The agent never gives up.  The loop ends only because the shutdown watch
    was seen set or because the relay rejected the registration; any run of
    transport and handshake failures, however long, leaves it running, having slept
    exactly the policy's successive delays from the initial one. *)
Theorem reconnect_persists (config : AgentConfig) (its : list Iteration) :
  (forall e, (run_with_reconnect config its).1.1 = Some e ->
    (e = Shutdown /\ Exists saw_shutdown its) \/
    (exists ack, e = Fatal (Rejected ack) /\
      Exists (fun it => outcome it = Err (Rejected ack)) its)) /\
  (Forall failed its ->
    run_with_reconnect config its =
      (None, delay_after (reconnect config) (length its),
       map (delay_after (reconnect config)) (seq 0 (length its)))).
Proof.
  split; [|intros Hf; by apply (reconnect_run_failed _ its 0)].
  unfold run_with_reconnect. generalize (initial_delay (reconnect config)).
  induction its as [|it its IH]; intros d e He; [done|].
  cbn [reconnect_run] in He. destruct (reconnect_step (reconnect config) d it) as [e'|[d' sl]] eqn:Es.
  - injection He as ->. apply reconnect_step_exit in Es as [[-> ?]|(ack & -> & ?)].
    + left. split; [done|]. by left.
    + right. exists ack. split; [done|]. by left.
  - specialize (IH d' e). destruct (reconnect_run _ d' its) as [[e1 d1] sl1].
    destruct (IH He) as [[-> ?]|(ack & -> & ?)].
    + left. split; [done|]. by right.
    + right. exists ack. split; [done|]. by right.
Qed.

(** ** Heartbeats *)

Lemma agent_frame_not_heartbeat config f : agent_frame config f -> f <> FHeartbeat.
Proof.
  intros [->|(sid & chunks & Hf)]; [done|]. revert Hf.
  induction chunks as [|[|x c] cs IH]; simpl; intros Hf.
  - apply list_elem_of_singleton in Hf. by subst.
  - apply list_elem_of_singleton in Hf. by subst.
  - apply elem_of_cons in Hf as [->|Hf]; [done|]. by apply IH.
Qed.

Lemma read_step_registry tid hid now f s s' :
  read_step tid hid now f s = Some s' -> f <> FHeartbeat -> registry s' = registry s.
Proof.
  intros Hs Hf. destruct f; simpl in Hs; try done; repeat case_match; by simplify_eq.
Qed.

Lemma read_loop_registry tid hid fs s s' :
  read_loop tid hid fs s = Some s' -> Forall (fun tf => tf.2 <> FHeartbeat) fs ->
  registry s' = registry s.
Proof.
  revert s; induction fs as [|[now f] fs IH]; intros s Hr Hf; simpl in Hr; [by simplify_eq|].
  inv Hf. destruct (read_step tid hid now f s) as [s1|] eqn:E; [|done].
  rewrite (IH s1) by done. by eapply read_step_registry.
Qed.

(** An agent's tunnel is evicted while the agent is alive and busy.  The agent
    writes its registration and its bridges' frames, never a heartbeat, and the
    relay refreshes a tunnel on heartbeats only: whatever the agent sends, the
    first sweep later than [stale_timeout] after the registration removes it. *)
Theorem agent_evicted (config : AgentConfig) (relay : RelayConfig) (tid : string) (hid : nat)
  (fs : list (Z * Frame)) (s s' : Relay) (e : TunnelEntry) (now : Z)
  (Hrun : read_loop tid hid fs s = Some s')
  (Hframes : Forall (fun tf => agent_frame config tf.2) fs)
  (He : registry s !! tid = Some e) (Htimeout : (0 <= stale_timeout relay)%Z)
  (Hlate : (last_heartbeat e + stale_timeout relay < now)%Z) :
  sweep_once now relay (registry s') !! tid = None.
Proof.
  rewrite (read_loop_registry _ _ _ _ _ Hrun).
  - rewrite sweep_lookup, He. unfold entry_age, sat_sub. by rewrite (proj2 (Z.ltb_lt _ _)) by lia.
  - eapply Forall_impl; [exact Hframes|]. intros tf. apply agent_frame_not_heartbeat.
Qed.

(** ** Witnesses *)

Lemma backoff_closed_form_witness : delay_after default_policy 6 = 60000000000%Z.
Proof.
  destruct (backoff_closed_form 2000000000 60000000000 6 ltac:(lia)
    ltac:(unfold duration_max, u64_max; lia) ltac:(unfold duration_max, u64_max; lia)) as [H _].
  unfold default_policy. rewrite H. reflexivity.
Defined.

Definition sample_agent : AgentConfig :=
  {| relay_url := "relay"; token := "t"; agent_dcc := "maya"; agent_capabilities := [];
     agent_instance_id := None; agent_fingerprint := None; agent_adapter_version := None;
     agent_scene := None; agent_build := "a"; local_target := "l"; heartbeat_interval := 10000000000;
     reconnect := default_policy |}.

Lemma agent_evicted_witness :
  exists s', read_loop "id" 0 [(10, FData 1 [7])]%Z (mkRelay one_tunnel ∅) = Some s' /\
    sweep_once 40000000000 sample_config (registry s') !! "id" = None.
Proof.
  destruct (read_loop "id" 0 [(10, FData 1 [7])]%Z (mkRelay one_tunnel ∅)) as [s'|] eqn:E;
    [|vm_compute in E; discriminate].
  exists s'. split; [done|].
  apply (agent_evicted sample_agent sample_config "id" 0 [(10, FData 1 [7])]%Z (mkRelay one_tunnel ∅)
    s' sample_entry 40000000000 E); [|vm_compute; reflexivity|simpl; lia|simpl; lia].
  constructor; [|constructor]. right. exists 1%Z, [[7%Z]]. simpl. by left.
Defined.
