(* ===== verification/Text.v ===== *)
(** Text operations of the Rust standard library beyond those of the prelude:
    decimal integers, suffixes, spans and counting, with their laws.

    [print_loop] has fuel 20: a 64-bit number has at most twenty digits.

    Then stable sorting, as [slice::sort_by]. *)

From S2P Require Import Prelude.

(** ** Decimal integers *)

(** [str::parse::<u64>]: an optional [+], then digits, without overflow. *)
Fixpoint parse_digits (s : list Z) (acc : Z) : option Z :=
  match s with
  | [] => Some acc
  | c :: s' =>
      if is_ascii_digit c then
        let acc' := (acc * 10 + (c - 48))%Z in
        if (u64_max <? acc')%Z then None else parse_digits s' acc'
      else None
  end.

Definition parse_u64 (s : list Z) : option Z :=
  match s with
  | [] => None
  | c :: s' => if (c =? 43)%Z then (if bool_decide (s' = []) then None else parse_digits s' 0)
               else parse_digits s 0
  end.

(** [Display for u64]: at most 20 digits. *)
Fixpoint print_loop (fuel : nat) (n : Z) : list Z :=
  match fuel with
  | O => []
  | S fuel' =>
      if (n <? 10)%Z then [(48 + n)%Z]
      else print_loop fuel' (n / 10)%Z ++ [(48 + n mod 10)%Z]
  end.

Definition print_u64 (n : Z) : list Z := print_loop 20 n.

Lemma parse_digits_app (s : list Z) (c acc : Z) :
  parse_digits (s ++ [c]) acc = parse_digits s acc ≫= parse_digits [c].
Proof.
  revert acc; induction s as [|x s IH]; intros acc; [done|]. cbn [app parse_digits].
  destruct (is_ascii_digit x); [|done]. cbv zeta. destruct (u64_max <? _)%Z; [done|]. apply IH.
Qed.

Lemma parse_digit (d acc : Z) :
  (0 <= d < 10)%Z -> (0 <= acc)%Z -> (acc * 10 + d <= u64_max)%Z ->
  parse_digits [48 + d]%Z acc = Some (acc * 10 + d)%Z.
Proof.
  intros Hd Ha Hm. cbn [parse_digits]. unfold is_ascii_digit, in_range.
  replace (48 + d - 48)%Z with d by lia.
  rewrite (proj2 (Z.leb_le _ _)), (proj2 (Z.leb_le _ _)) by lia. simpl.
  by rewrite (proj2 (Z.ltb_ge _ _)) by lia.
Qed.

Lemma print_loop_parse (fuel : nat) (n : Z) :
  (0 <= n <= u64_max)%Z -> (n < 10 ^ Z.of_nat fuel)%Z -> 0 < fuel ->
  parse_digits (print_loop fuel n) 0 = Some n.
Proof.
  revert n; induction fuel as [|fuel IH]; intros n Hn Hf Hpos; [lia|]. cbn [print_loop].
  destruct (Z.ltb_spec n 10).
  - by rewrite parse_digit by lia.
  - rewrite Nat2Z.inj_succ, Z.pow_succ_r in Hf by lia.
    destruct fuel as [|fuel]; [simpl in Hf; lia|].
    rewrite parse_digits_app, IH; [|Z.div_mod_to_equations; lia|Z.div_mod_to_equations; lia|lia].
    cbn [mbind option_bind]. pose proof (Z.mod_pos_bound n 10 ltac:(lia)).
    rewrite parse_digit; [|done|Z.div_mod_to_equations; lia|Z.div_mod_to_equations; lia].
    f_equal. Z.div_mod_to_equations. lia.
Qed.

Definition digits (s : list Z) : Prop := Forall (fun c => 48 <= c < 58)%Z s.

Lemma print_loop_digits (fuel : nat) (n : Z) : (0 <= n)%Z -> digits (print_loop fuel n).
Proof.
  revert n; induction fuel as [|fuel IH]; intros n Hn; [constructor|]. cbn [print_loop].
  destruct (Z.ltb_spec n 10); [repeat constructor; lia|]. apply Forall_app. split.
  - apply IH. Z.div_mod_to_equations. lia.
  - pose proof (Z.mod_pos_bound n 10 ltac:(lia)). repeat constructor; lia.
Qed.

Lemma print_loop_cons (fuel : nat) (n : Z) :
  (0 <= n)%Z -> 0 < fuel -> exists c s, print_loop fuel n = c :: s /\ (48 <= c < 58)%Z.
Proof.
  intros Hn Hf. pose proof (print_loop_digits fuel n Hn) as Hd.
  destruct (print_loop fuel n) as [|c s] eqn:E.
  - destruct fuel as [|fuel]; [lia|]. cbn [print_loop] in E. destruct (n <? 10)%Z; [done|].
    by apply app_nil in E as [_ ?].
  - exists c, s. split; [done|]. by inv Hd.
Qed.

Lemma print_u64_parse (n : Z) : in_u64 n -> parse_u64 (print_u64 n) = Some n.
Proof.
  intros Hn. unfold in_u64 in Hn. unfold print_u64, parse_u64.
  pose proof (print_loop_parse 20 n Hn ltac:(unfold u64_max in Hn; lia) ltac:(lia)) as Hp.
  destruct (print_loop_cons 20 n ltac:(lia) ltac:(lia)) as (c & s & E & Hc). rewrite E in *.
  by rewrite (proj2 (Z.eqb_neq c 43)) by lia.
Qed.

(** ** Suffixes, spans, counting *)

(** [str::strip_suffix]. *)
Definition strip_suffix (p s : list Z) : option (list Z) := reverse <$> strip_prefix (reverse p) (reverse s).

(** The longest prefix all of whose characters satisfy [p], and the rest. *)
Fixpoint span (p : Z -> bool) (s : list Z) : list Z * list Z :=
  match s with
  | [] => ([], [])
  | c :: s' => if p c then let (a, b) := span p s' in (c :: a, b) else ([], s)
  end.

(** [s.matches(pattern).count()]: occurrences that do not overlap; each turn consumes
    a character at least when the pattern is not empty. *)
Fixpoint count_loop (fuel : nat) (pattern s : list Z) : nat :=
  match fuel with
  | O => 0
  | S fuel =>
      match split_once pattern s with
      | Some (_, rest) => S (count_loop fuel pattern rest)
      | None => 0
      end
  end.

Definition count_matches (pattern s : list Z) : nat := count_loop (S (length s)) pattern s.

Lemma strip_suffix_Some p s r : strip_suffix p s = Some r <-> s = r ++ p.
Proof.
  unfold strip_suffix. split.
  - intros H. destruct (strip_prefix (reverse p) (reverse s)) as [x|] eqn:E; [|done]. simpl in H. simplify_eq.
    apply strip_prefix_Some in E. by rewrite <- (reverse_involutive s), E, reverse_app, reverse_involutive.
  - intros ->. rewrite reverse_app, strip_prefix_app. simpl. by rewrite reverse_involutive.
Qed.

Lemma span_app p s : span p s = (s, []) <-> Forall (fun c => p c = true) s.
Proof.
  induction s as [|c s IH]; simpl; [by split|]. rewrite Forall_cons.
  destruct (p c) eqn:E; [|naive_solver]. destruct (span p s) as [a b] eqn:Es.
  split; [intros H; simplify_eq; by rewrite <- IH|]. intros [_ H]. apply IH in H. by simplify_eq.
Qed.

Lemma span_eq p s a b : span p s = (a, b) -> s = a ++ b /\ Forall (fun c => p c = true) a.
Proof.
  revert a b. induction s as [|c s IH]; intros a b H; simpl in H; [by simplify_eq|].
  destruct (p c) eqn:E; [|by simplify_eq]. destruct (span p s) as [a' b'] eqn:Es. simplify_eq.
  destruct (IH a' b eq_refl) as [-> Hf]. split; [done|]. by constructor.
Qed.

(** A span ends where the next character does not belong to it. *)
Lemma span_stop p a c b : Forall (fun c => p c = true) a -> p c = false -> span p (a ++ c :: b) = (a, c :: b).
Proof. induction 1 as [|x a Hx Ha IH]; intros Hc; simpl; [by rewrite Hc|]. by rewrite Hx, IH. Qed.

(** ** Trimming and splitting *)

(** A character that trimming keeps. *)
Definition plain (c : Z) : Prop := is_whitespace c = false.

Lemma trim_start_while_id (p : Z -> bool) (s : list Z) :
  (forall c s', s = c :: s' -> p c = false) -> trim_start_while p s = s.
Proof. destruct s as [|c s]; simpl; [done|]. intros H. by rewrite (H c s). Qed.

Lemma trim_plain (s : list Z) : Forall plain s -> trim s = s.
Proof.
  intros Hs. unfold trim. rewrite (trim_start_while_id _ s).
  - rewrite trim_start_while_id; [apply reverse_involutive|]. intros c s' E.
    assert (Hc : c ∈ s) by (apply elem_of_reverse; rewrite E; by left).
    by apply (proj1 (Forall_forall _ _) Hs).
  - intros c s' ->. by inv Hs.
Qed.

Lemma split_char_absent (c : Z) (s : list Z) : Forall (fun x => x <> c) s -> split_char c s = [s].
Proof.
  induction 1 as [|x s Hx Hs IH]; [done|]. cbn [split_char].
  rewrite (proj2 (Z.eqb_neq x c)) by done. by rewrite IH.
Qed.

Lemma split_once_absent (c : Z) (sep s : list Z) : Forall (fun x => x <> c) s -> split_once (c :: sep) s = None.
Proof.
  induction 1 as [|x s Hx Hs IH]; [done|]. cbn [split_once strip_prefix].
  rewrite (proj2 (Z.eqb_neq c x)) by congruence. by rewrite IH.
Qed.

(** Occurrences counted one by one. *)
Lemma count_matches_step c sep a b :
  Forall (fun x => x <> c) a -> Forall (fun x => x <> c) b -> count_matches (c :: sep) (a ++ (c :: sep) ++ b) = 1.
Proof.
  intros Ha Hb. unfold count_matches. cbn [count_loop]. rewrite split_once_app by done.
  rewrite length_app. simpl. rewrite Nat.add_succ_r. cbn [count_loop]. by rewrite split_once_absent.
Qed.

(** ** ASCII case *)

Definition ascii_lowercase (c : Z) : Z := if is_ascii_uppercase c then (c + 32)%Z else c.

(** [str::eq_ignore_ascii_case]. *)
Definition eq_ignore_ascii_case (a b : list Z) : bool :=
  bool_decide (map ascii_lowercase a = map ascii_lowercase b).

Definition to_ascii_lowercase_str (s : list Z) : list Z := map ascii_lowercase s.

Lemma ascii_lowercase_idem s : to_ascii_lowercase_str (to_ascii_lowercase_str s) = to_ascii_lowercase_str s.
Proof.
  unfold to_ascii_lowercase_str. rewrite map_map. apply map_ext. intros c. unfold ascii_lowercase, is_ascii_uppercase, in_range.
  destruct ((65 <=? c)%Z && (c <=? 90)%Z) eqn:E; [|by rewrite E]. destruct ((65 <=? c + 32)%Z && _) eqn:E2; lia.
Qed.

(** ** Words *)

(** [str::split_whitespace]. *)
Fixpoint split_whitespace_loop (s cur : list Z) : list (list Z) :=
  match s with
  | [] => match cur with [] => [] | _ => [cur] end
  | c :: s =>
      if is_whitespace c then match cur with [] => split_whitespace_loop s [] | _ => cur :: split_whitespace_loop s [] end
      else split_whitespace_loop s (cur ++ [c])
  end.
Definition split_whitespace (s : list Z) : list (list Z) := split_whitespace_loop s [].

(** [[_].join(sep)]. *)
Fixpoint join_str (sep : list Z) (l : list (list Z)) : list Z :=
  match l with
  | [] => []
  | [s] => s
  | s :: l => s ++ sep ++ join_str sep l
  end.

(** [str::ends_with]. *)
Definition ends_with (p s : list Z) : bool := match strip_suffix p s with Some _ => true | None => false end.

(** The order of strings, by their code points as by their UTF-8 bytes. *)
Fixpoint str_compare (a b : list Z) : comparison :=
  match a, b with
  | [], [] => Eq
  | [], _ :: _ => Lt
  | _ :: _, [] => Gt
  | x :: a, y :: b => match Z.compare x y with Eq => str_compare a b | c => c end
  end.
Definition str_le (a b : list Z) : Prop := str_compare a b <> Gt.

#[export] Instance str_le_dec a b : Decision (str_le a b).
Proof. unfold str_le, Decision. destruct (str_compare a b); [left|left|right]; congruence. Defined.

Lemma str_compare_eq a b : str_compare a b = Eq <-> a = b.
Proof.
  revert b. induction a as [|x a IH]; intros [|y b]; simpl; try done.
  destruct (Z.compare_spec x y) as [->|H|H]; [rewrite IH; split; [by intros ->|by intros [= ->]]| |]; split; try done; intros [= ->]; lia.
Qed.

Lemma str_compare_antisym a b : str_compare b a = CompOpp (str_compare a b).
Proof.
  revert b. induction a as [|x a IH]; intros [|y b]; simpl; try done.
  rewrite (Z.compare_antisym x y). destruct (x ?= y)%Z; simpl; done.
Qed.

#[export] Instance str_le_total : Total str_le.
Proof. intros a b. unfold str_le. rewrite (str_compare_antisym a b). destruct (str_compare a b); simpl; [left|left|right]; done. Qed.

#[export] Instance str_le_trans : Transitive str_le.
Proof.
  unfold str_le. intros a. induction a as [|x a IH]; intros b c Hab Hbc; [by destruct c|].
  destruct b as [|y b]; [done|]. destruct c as [|z c]; [done|]. simpl in *.
  destruct (Z.compare_spec x y) as [Hxy|Hxy|Hxy], (Z.compare_spec y z) as [Hyz|Hyz|Hyz]; try done;
    destruct (Z.compare_spec x z) as [Hxz|Hxz|Hxz]; try done; try lia.
  by apply (IH b).
Qed.

#[export] Instance str_le_refl : Reflexive str_le.
Proof. intros a. unfold str_le. by rewrite (proj2 (str_compare_eq a a)). Qed.

Lemma str_le_antisym a b : str_le a b -> str_le b a -> a = b.
Proof.
  unfold str_le. rewrite (str_compare_antisym a b). intros H1 H2. apply str_compare_eq. by destruct (str_compare a b).
Qed.

(** ** Stable sorting *)

Section Sort.
Context {A : Type} (le : A -> A -> bool).

(** [x] before the first element that is not smaller. *)
Fixpoint insert_by (x : A) (l : list A) : list A :=
  match l with
  | [] => [x]
  | y :: l => if le x y then x :: y :: l else y :: insert_by x l
  end.

Fixpoint sort_by (l : list A) : list A :=
  match l with
  | [] => []
  | x :: l => insert_by x (sort_by l)
  end.

Lemma insert_by_perm x l : insert_by x l ≡ₚ x :: l.
Proof.
  induction l as [|y l IH]; simpl; [done|]. destruct (le x y); [done|]. rewrite IH. apply Permutation_swap.
Qed.

Lemma sort_by_perm l : sort_by l ≡ₚ l.
Proof. induction l as [|x l IH]; simpl; [done|]. by rewrite insert_by_perm, IH. Qed.

Lemma elem_of_sort_by x l : x ∈ sort_by l <-> x ∈ l.
Proof. by rewrite sort_by_perm. Qed.

Lemma sort_by_length l : length (sort_by l) = length l.
Proof. apply Permutation_length, sort_by_perm. Qed.

Context (le_total : forall x y, le x y = true \/ le y x = true)
  (le_trans : forall x y z, le x y = true -> le y z = true -> le x z = true).

Abbreviation sorted := (StronglySorted (fun x y => le x y = true)).

Lemma insert_by_sorted x l : sorted l -> sorted (insert_by x l).
Proof.
  induction 1 as [|y l Hl IH Hy]; simpl; [repeat constructor|]. destruct (le x y) eqn:E.
  - constructor; [by constructor|]. constructor; [done|]. eapply Forall_impl; [exact Hy|]. intros z. by apply le_trans.
  - constructor; [done|]. rewrite insert_by_perm. constructor; [|done]. by destruct (le_total x y); [congruence|].
Qed.

Lemma sort_by_sorted l : sorted (sort_by l).
Proof. induction l as [|x l IH]; simpl; [constructor|]. by apply insert_by_sorted. Qed.

(** A sorted list stays as it is. *)
Lemma sort_by_id l : sorted l -> sort_by l = l.
Proof.
  induction 1 as [|x l Hl IH Hx]; simpl; [done|]. rewrite IH. destruct l as [|y l]; [done|]. simpl.
  apply Forall_cons in Hx as [-> _]. done.
Qed.

End Sort.

(** Stability: among the elements that satisfy [p], pairwise equivalent, the order is kept. *)
Lemma sort_by_stable {A} (le : A -> A -> bool) (p : A -> bool) (l : list A) :
  (forall x y, p x = true -> p y = true -> le x y = true) ->
  base.filter (fun x => p x = true) (sort_by le l) = base.filter (fun x => p x = true) l.
Proof.
  intros Hp. assert (Hins : forall x l, base.filter (fun x => p x = true) (insert_by le x l) = base.filter (fun x => p x = true) (x :: l)).
  { clear l. intros x l. induction l as [|y l IH]; [done|]. simpl insert_by. destruct (le x y) eqn:E; [done|].
    rewrite (filter_cons _ y). rewrite IH. rewrite !filter_cons. destruct (decide (p x = true)) as [Hx|Hx], (decide (p y = true)) as [Hy|Hy]; try done.
    rewrite Hp in E; done. }
  induction l as [|x l IH]; [done|]. simpl sort_by. rewrite Hins, !filter_cons, IH. done.
Qed.

Lemma sorted_lookup {A} (P : A -> A -> Prop) (l : list A) i j x y :
  StronglySorted P l -> (i < j)%nat -> l !! i = Some x -> l !! j = Some y -> P x y.
Proof.
  intros Hl. revert i j. induction Hl as [|z l Hl IH Hz]; intros i j Hij Hx Hy; [done|]. destruct j as [|j]; [lia|].
  destruct i as [|i]; simpl in *; [|apply (IH i j); [lia|done|done]]. injection Hx as ->.
  apply (proj1 (Forall_forall _ _) Hz). by eapply list_elem_of_lookup_2.
Qed.

(** ** Digests *)

(** SHA-256 in lowercase hexadecimal, from the crate [sha2]. *)
Definition lower_hex (c : Z) : Prop := is_ascii_digit c = true \/ in_range 97 102 c = true.
Class Sha256 : Type := {
  sha256 : list Z -> list Z;
  sha256_hex c : length (sha256 c) = 64%nat /\ Forall lower_hex (sha256 c);
}.

Local Open Scope Z_scope.

(** Digits to evaluate with. *)
Fixpoint hex_digits (n : nat) (z : Z) : list Z :=
  match n with O => [] | S n => hex_digits n (z / 16) ++ [let d := z mod 16 in if d <? 10 then 48 + d else 87 + d] end.

Lemma hex_digits_spec n z :
  length (hex_digits n z) = n /\ Forall (fun c => in_range 48 57 c || in_range 97 102 c = true) (hex_digits n z).
Proof.
  revert z. induction n as [|n IH]; intros z; [done|]. cbn [hex_digits]. destruct (IH (z / 16)) as [Hl Hf]. split.
  - rewrite length_app, Hl. simpl. lia.
  - apply Forall_app. split; [done|]. constructor; [|done]. pose proof (Z.mod_pos_bound z 16 ltac:(lia)).
    unfold in_range. cbv zeta. destruct (z mod 16 <? 10) eqn:E; lia.
Qed.

(** 64 hexadecimal digits of a polynomial in the code points. *)
Definition sample_digest (c : list Z) : list Z := hex_digits 64 (foldl (fun a x => a * 1114113 + x + 1) 0 c).

Lemma sample_digest_hex c : length (sample_digest c) = 64%nat /\ Forall lower_hex (sample_digest c).
Proof.
  destruct (hex_digits_spec 64 (foldl (fun a x => a * 1114113 + x + 1) 0 c)) as [Hl Hf]. split; [done|].
  eapply Forall_impl; [exact Hf|]. intros x Hx. apply orb_true_iff in Hx as [Hx|Hx]; [by left|by right].
Qed.

Definition sample_sha : Sha256 := {| sha256 := sample_digest; sha256_hex := sample_digest_hex |}.
