(* ===== verification/Versioned.v ===== *)
(** Component: versioned actions ([crates/dcc-mcp-actions/src/versioned]:
    [mod.rs] and [matcher.rs]).

    Versions and constraints are parsed from and printed to strings of code
    points; the registry keeps, for every (action, DCC), its versions in strictly
    ascending order, which the router relies on.  The fields of [ToolMeta] the
    registry does not look at are the opaque [Rest]. *)

From S2P Require Import Prelude Text.

(** ** Versions *)

Record SemVer : Type := mkSemVer { major : Z; minor : Z; patch : Z }.

#[export] Instance SemVer_eq_dec : EqDecision SemVer.
Proof. solve_decision. Defined.

(** The derived order: by [major], then [minor], then [patch]. *)
Definition semver_lt (a b : SemVer) : bool :=
  (major a <? major b)%Z ||
  ((major a =? major b)%Z &&
   ((minor a <? minor b)%Z || ((minor a =? minor b)%Z && (patch a <? patch b)%Z))).

Definition semver_le (a b : SemVer) : bool := negb (semver_lt b a).

Definition semver_eq (a b : SemVer) : bool := bool_decide (a = b).

Inductive VersionParseError : Type :=
| EmptyString
| InvalidComponent (c : list Z)
| UnknownOperator (op : list Z).

Definition parse_component (p : option (list Z)) : result VersionParseError Z :=
  match p with
  | None => Ok 0%Z
  | Some v =>
      match parse_u64 v with
      | Some n => Ok n
      | None => Err (InvalidComponent v)
      end
  end.

(** [SemVer::parse] *)
Definition parse (s0 : list Z) : result VersionParseError SemVer :=
  let s := trim (trim_start_char 118 s0) in
  if bool_decide (s = []) then Err EmptyString
  else
    let numeric := default s (head (split_char ch_dash s)) in
    let parts := splitn_char 3 ch_dot numeric in
    let? a := parse_component (parts !! 0) in
    let? b := parse_component (parts !! 1) in
    let? c := parse_component (parts !! 2) in
    Ok (mkSemVer a b c).

(** [Display for SemVer] *)
Definition print_semver (v : SemVer) : list Z :=
  print_u64 (major v) ++ [ch_dot] ++ print_u64 (minor v) ++ [ch_dot] ++ print_u64 (patch v).

(** ** Constraints *)

Inductive VersionConstraint : Type :=
| CAny
| CExact (v : SemVer)
| CAtLeast (v : SemVer)
| CGreaterThan (v : SemVer)
| CAtMost (v : SemVer)
| CLessThan (v : SemVer)
| CCaret (v : SemVer)
| CTilde (v : SemVer).

(** The matchers of [matcher.rs]. *)
Definition matches (c : VersionConstraint) (v : SemVer) : bool :=
  match c with
  | CAny => true
  | CExact w => semver_eq v w
  | CAtLeast w => semver_le w v
  | CGreaterThan w => semver_lt w v
  | CAtMost w => semver_le v w
  | CLessThan w => semver_lt v w
  | CCaret w => (major v =? major w)%Z && semver_le w v
  | CTilde w => (major v =? major w)%Z && (minor v =? minor w)%Z && (patch w <=? patch v)%Z
  end.

Definition print_constraint (c : VersionConstraint) : list Z :=
  match c with
  | CAny => lit "*"
  | CExact v => lit "=" ++ print_semver v
  | CAtLeast v => lit ">=" ++ print_semver v
  | CGreaterThan v => lit ">" ++ print_semver v
  | CAtMost v => lit "<=" ++ print_semver v
  | CLessThan v => lit "<" ++ print_semver v
  | CCaret v => lit "^" ++ print_semver v
  | CTilde v => lit "~" ++ print_semver v
  end.

(** [FromStr for VersionConstraint]: the prefixes in the order they are tried. *)
Definition from_str (s0 : list Z) : result VersionParseError VersionConstraint :=
  let s := trim s0 in
  if bool_decide (s = lit "*") then Ok CAny
  else
    match strip_prefix (lit ">=") s with
    | Some rest => let? v := parse rest in Ok (CAtLeast v)
    | None =>
    match strip_prefix (lit ">") s with
    | Some rest => let? v := parse rest in Ok (CGreaterThan v)
    | None =>
    match strip_prefix (lit "<=") s with
    | Some rest => let? v := parse rest in Ok (CAtMost v)
    | None =>
    match strip_prefix (lit "<") s with
    | Some rest => let? v := parse rest in Ok (CLessThan v)
    | None =>
    match strip_prefix (lit "^") s with
    | Some rest => let? v := parse rest in Ok (CCaret v)
    | None =>
    match strip_prefix (lit "~") s with
    | Some rest => let? v := parse rest in Ok (CTilde v)
    | None =>
    match strip_prefix (lit "=") s with
    | Some rest => let? v := parse rest in Ok (CExact v)
    | None => let? v := parse s in Ok (CExact v)
    end end end end end end end.

(** ** Registry *)

Section Registry.
Context {Rest : Type}.

Record ToolMeta : Type := mkMeta {
  tool_name : string;
  tool_dcc : string;
  tool_version : list Z;
  tool_rest : Rest;
}.

Abbreviation entry := (SemVer * ToolMeta)%type.
Abbreviation VersionedRegistry := (gmap (string * string) (list entry)).

(** [entries.iter_mut().find(|(v, _)| *v == ver)] and the overwrite. *)
Fixpoint replace_version (ver : SemVer) (m : ToolMeta) (l : list entry) : option (list entry) :=
  match l with
  | [] => None
  | (v, x) :: l' =>
      if semver_eq v ver then Some ((v, m) :: l')
      else
        match replace_version ver m l' with
        | Some l2 => Some ((v, x) :: l2)
        | None => None
        end
  end.

(** [sort_by_key]: the stable sort. *)
Fixpoint insert_entry (e : entry) (l : list entry) : list entry :=
  match l with
  | [] => [e]
  | x :: l' => if semver_le e.1 x.1 then e :: l else x :: insert_entry e l'
  end.

Definition sort_entries (l : list entry) : list entry := foldr insert_entry [] l.

Definition version_of (m : ToolMeta) : SemVer :=
  match parse (tool_version m) with
  | Ok v => v
  | Err _ => mkSemVer 0 0 0
  end.

Definition register (m : ToolMeta) (r : VersionedRegistry) : VersionedRegistry :=
  let ver := version_of m in
  let key := (tool_name m, tool_dcc m) in
  let entries := default [] (r !! key) in
  match replace_version ver m entries with
  | Some entries' => <[key := entries']> r
  | None => <[key := sort_entries (entries ++ [(ver, m)])]> r
  end.

Definition remove (name dcc : string) (c : VersionConstraint) (r : VersionedRegistry)
    : VersionedRegistry * nat :=
  match r !! (name, dcc) with
  | Some entries =>
      let kept := filter (fun e => negb (matches c e.1) = true) entries in
      (<[(name, dcc) := kept]> r, length entries - length kept)
  | None => (r, 0)
  end.

Definition entries_of (name dcc : string) (r : VersionedRegistry) : list entry :=
  default [] (r !! (name, dcc)).

Definition versions (name dcc : string) (r : VersionedRegistry) : list SemVer :=
  (entries_of name dcc r).*1.

Definition get (name dcc : string) (ver : SemVer) (r : VersionedRegistry) : option ToolMeta :=
  snd <$> List.find (fun e => semver_eq e.1 ver) (entries_of name dcc r).

Definition latest (name dcc : string) (r : VersionedRegistry) : option ToolMeta :=
  snd <$> last (entries_of name dcc r).

Definition keys (r : VersionedRegistry) : list (string * string) := (map_to_list r).*1.

Definition total_entries (r : VersionedRegistry) : nat :=
  sum_list_with (fun kv => length kv.2) (map_to_list r).

(** [CompatibilityRouter::resolve]: [rfind] is [find] from the end. *)
Definition resolve (name dcc : string) (c : VersionConstraint) (r : VersionedRegistry)
    : option ToolMeta :=
  snd <$> List.find (fun e => matches c e.1) (reverse (entries_of name dcc r)).

Definition resolve_all (name dcc : string) (c : VersionConstraint) (r : VersionedRegistry)
    : list ToolMeta :=
  (filter (fun e => matches c e.1 = true) (entries_of name dcc r)).*2.

End Registry.
Arguments ToolMeta : clear implicits.

(** ** Numbers and versions print and parse back *)

Definition version_ok (v : SemVer) : Prop := in_u64 (major v) /\ in_u64 (minor v) /\ in_u64 (patch v).

Lemma print_semver_chars (v : SemVer) :
  version_ok v -> Forall (fun c => 48 <= c < 58 \/ c = 46)%Z (print_semver v).
Proof.
  intros (Ha & Hb & Hc). unfold in_u64 in *. unfold print_semver, ch_dot.
  assert (Hd : forall n, (0 <= n)%Z -> Forall (fun c => 48 <= c < 58 \/ c = 46)%Z (print_u64 n)).
  { intros n Hn. eapply Forall_impl; [apply (print_loop_digits 20 n Hn)|]. simpl. auto. }
  repeat (apply Forall_app; split); try (apply Hd; lia); repeat constructor; by right.
Qed.

Lemma plain_chars (s : list Z) :
  Forall (fun c => 48 <= c < 58 \/ c = 46)%Z s -> Forall plain s.
Proof.
  intros H. eapply Forall_impl; [exact H|]. intros c Hc. cbn beta in Hc. unfold plain, is_whitespace, in_range. lia.
Qed.

Lemma parse_print_semver (v : SemVer) : version_ok v -> parse (print_semver v) = Ok v.
Proof.
  intros Hv. pose proof (print_semver_chars v Hv) as Hch. destruct Hv as (Ha & Hb & Hc).
  assert (Hhd : exists c s, print_semver v = c :: s /\ (48 <= c < 58)%Z).
  { unfold print_semver, in_u64 in *.
    destruct (print_loop_cons 20 (major v) ltac:(lia) ltac:(lia)) as (c & s & E & Hc').
    exists c, (s ++ [ch_dot] ++ print_u64 (minor v) ++ [ch_dot] ++ print_u64 (patch v)).
    unfold print_u64 at 1. by rewrite E. }
  destruct Hhd as (c0 & s0 & Ehd & Hc0).
  unfold parse. unfold trim_start_char. rewrite trim_start_while_id.
  2: { intros c s E. rewrite E in Ehd. injection Ehd as -> ->. lia. }
  rewrite trim_plain by (by apply plain_chars).
  rewrite bool_decide_eq_false_2 by (rewrite Ehd; done).
  rewrite split_char_absent.
  2: { eapply Forall_impl; [exact Hch|]. unfold ch_dash. simpl. lia. }
  change (default (print_semver v) (head [print_semver v])) with (print_semver v).
  assert (Hnd : forall n, (0 <= n)%Z -> Forall (fun x => x <> ch_dot) (print_u64 n)).
  { intros n Hn. eapply Forall_impl; [apply (print_loop_digits 20 n Hn)|]. unfold ch_dot. simpl. lia. }
  unfold in_u64 in *. unfold print_semver. cbn [splitn_char].
  rewrite (split_once_app ch_dot []) by (apply Hnd; lia).
  rewrite (split_once_app ch_dot []) by (apply Hnd; lia).
  unfold parse_component. cbn [lookup list_lookup]. rewrite !print_u64_parse by done. simpl.
  by destruct v.
Qed.

(** The operator prefixes a constraint is printed with, and how they parse. *)
Lemma parse_print_constraint (c : VersionConstraint) :
  match c with
  | CAny => True
  | CExact v | CAtLeast v | CGreaterThan v | CAtMost v | CLessThan v | CCaret v | CTilde v =>
      version_ok v
  end ->
  from_str (print_constraint c) = Ok c.
Proof.
  assert (Hcons : forall v, version_ok v -> exists d s, print_semver v = d :: s /\ (48 <= d < 58)%Z).
  { intros v (Ha & _). unfold in_u64 in Ha. unfold print_semver, print_u64 at 1.
    destruct (print_loop_cons 20 (major v) ltac:(lia) ltac:(lia)) as (d & s & -> & Hd). eauto. }
  assert (Htrim : forall op v, version_ok v -> Forall plain op ->
    trim (op ++ print_semver v) = op ++ print_semver v).
  { intros op v Hv Hop. apply trim_plain, Forall_app. split; [done|].
    by apply plain_chars, print_semver_chars. }
  assert (Hge : forall d s, (48 <= d < 58)%Z -> strip_prefix (lit ">=") (lit ">" ++ d :: s) = None).
  { intros d s Hd. cbn [lit app strip_prefix]. rewrite Z.eqb_refl.
    by rewrite (proj2 (Z.eqb_neq _ d)) by (simpl; lia). }
  assert (Hle : forall d s, (48 <= d < 58)%Z -> strip_prefix (lit "<=") (lit "<" ++ d :: s) = None).
  { intros d s Hd. cbn [lit app strip_prefix]. rewrite Z.eqb_refl.
    by rewrite (proj2 (Z.eqb_neq _ d)) by (simpl; lia). }
  destruct c as [|v|v|v|v|v|v|v]; intros Hv; [reflexivity|..];
    unfold from_str, print_constraint;
    (rewrite Htrim; [|done|cbn; repeat first [apply Forall_nil_2 | apply Forall_cons_2; [reflexivity|]]]);
    pose proof (parse_print_semver v Hv) as Hp;
    destruct (Hcons v Hv) as (d & s & Hs & Hd); rewrite Hs in *;
    (rewrite bool_decide_eq_false_2; [|cbn; intros [=]; lia]);
    pose proof (Hge d s Hd) as H1; pose proof (Hle d s Hd) as H2;
    cbn [lit app] in *; rewrite ?H1, ?H2; clear H1 H2; simpl.
  all: by rewrite Hp.
Qed.

(** Versions and constraints survive printing and parsing, for every version
    whose components fit 64 bits. *)
Theorem version_roundtrip (v : SemVer) (c : VersionConstraint) (Hv : version_ok v) :
  parse (print_semver v) = Ok v /\
  (c ∈ [CAny; CExact v; CAtLeast v; CGreaterThan v; CAtMost v; CLessThan v; CCaret v; CTilde v] ->
    from_str (print_constraint c) = Ok c).
Proof.
  split; [by apply parse_print_semver|]. intros Hc. apply parse_print_constraint.
  repeat (apply elem_of_cons in Hc as [->|Hc]; [done|]). by apply elem_of_nil in Hc.
Qed.

(** ** The registry stays sorted *)

Lemma semver_lt_trans (a b c : SemVer) : semver_lt a b = true -> semver_lt b c = true -> semver_lt a c = true.
Proof. unfold semver_lt. destruct a, b, c; simpl. lia. Qed.

Lemma semver_lt_irrefl (a : SemVer) : semver_lt a a = false.
Proof. unfold semver_lt. destruct a; simpl. lia. Qed.

Lemma semver_total (a b : SemVer) : semver_lt a b = false -> semver_lt b a = false -> a = b.
Proof. unfold semver_lt. destruct a, b; simpl. intros. f_equal; lia. Qed.

Lemma semver_le_lt (a b : SemVer) : semver_le a b = true <-> a = b \/ semver_lt a b = true.
Proof.
  unfold semver_le. rewrite negb_true_iff. split.
  - intros H. destruct (semver_lt a b) eqn:E; [by right|]. left. by apply semver_total.
  - intros [->|H]; [apply semver_lt_irrefl|]. destruct (semver_lt b a) eqn:E; [|done].
    pose proof (semver_lt_trans _ _ _ H E) as Hc. by rewrite semver_lt_irrefl in Hc.
Qed.

Lemma semver_eq_iff (a b : SemVer) : semver_eq a b = true <-> a = b.
Proof. apply bool_decide_eq_true. Qed.

Section Registry_facts.
Context {Rest : Type}.
Abbreviation entry := (SemVer * ToolMeta Rest)%type.
Implicit Types (l : list entry) (e : entry) (m : ToolMeta Rest).

Definition entry_lt (a b : entry) : Prop := semver_lt a.1 b.1 = true.

Definition ascending l : Prop := StronglySorted entry_lt l.

Lemma insert_entry_perm e l : insert_entry e l ≡ₚ e :: l.
Proof.
  induction l as [|x l IH]; simpl; [done|]. destruct (semver_le _ _); [done|]. rewrite IH. constructor.
Qed.

Lemma insert_entry_ascending e l :
  ascending l -> Forall (fun x => x.1 <> e.1) l -> ascending (insert_entry e l).
Proof.
  induction 1 as [|x l Hl IH Hx]; intros Hne; simpl; [repeat constructor|]. inv Hne.
  destruct (semver_le e.1 x.1) eqn:E.
  - apply semver_le_lt in E as [E|E]; [congruence|]. constructor; [by constructor|].
    constructor; [done|]. eapply Forall_impl; [exact Hx|]. intros y Hy.
    by eapply semver_lt_trans.
  - constructor; [by apply IH|]. rewrite insert_entry_perm. constructor; [|done].
    unfold entry_lt. unfold semver_le in E. by apply negb_false_iff in E.
Qed.

Lemma sort_entries_perm l : sort_entries l ≡ₚ l.
Proof. induction l as [|e l IH]; simpl; [done|]. by rewrite insert_entry_perm, IH. Qed.

Lemma sort_entries_ascending l : NoDup l.*1 -> ascending (sort_entries l).
Proof.
  induction l as [|e l IH]; simpl; intros Hnd; [constructor|]. inv Hnd.
  apply insert_entry_ascending; [by apply IH|]. rewrite sort_entries_perm.
  apply Forall_forall. intros x Hx E. match goal with H : _ ∉ _ |- _ => apply H end.
  rewrite <- E. by apply list_elem_of_fmap_2.
Qed.

Lemma ascending_NoDup l : ascending l -> NoDup l.*1.
Proof.
  induction 1 as [|x l Hl IH Hx]; simpl; [constructor|]. constructor; [|done].
  intros (y & E & Hy)%list_elem_of_fmap. rewrite Forall_forall in Hx. specialize (Hx y Hy).
  unfold entry_lt in Hx. rewrite E in Hx. by rewrite semver_lt_irrefl in Hx.
Qed.

Lemma ascending_filter (P : entry -> Prop) `{!forall e, Decision (P e)} l :
  ascending l -> ascending (filter P l).
Proof.
  induction 1 as [|x l Hl IH Hx]; [constructor|]. rewrite filter_cons.
  destruct (decide (P x)); [|done]. constructor; [done|].
  apply Forall_forall. intros y [_ Hy]%list_elem_of_filter. rewrite Forall_forall in Hx. by apply Hx.
Qed.

Lemma replace_version_Some ver m l l' :
  replace_version ver m l = Some l' ->
  l'.*1 = l.*1 /\ (ver, m) ∈ l' /\ forall e, e.1 <> ver -> (e ∈ l' <-> e ∈ l).
Proof.
  revert l'; induction l as [|[v x] l IH]; intros l' H; simpl in H; [done|].
  destruct (semver_eq v ver) eqn:E.
  - simplify_eq. apply semver_eq_iff in E as ->. split; [done|]. split; [by left|].
    intros e He. rewrite !elem_of_cons. split; intros [->|?]; auto; by destruct He.
  - destruct (replace_version ver m l) as [l2|]; [|done]. simplify_eq.
    destruct (IH l2 eq_refl) as (H1 & H2 & H3). split; [by rewrite !fmap_cons, H1|].
    split; [by right|]. intros e He. rewrite !elem_of_cons, H3 by done. done.
Qed.

Lemma replace_version_None ver m l : replace_version ver m l = None -> ver ∉ l.*1.
Proof.
  induction l as [|[v x] l IH]; simpl; intros H; [by apply not_elem_of_nil|].
  destruct (semver_eq v ver) eqn:E; [done|]. destruct (replace_version ver m l); [done|].
  apply not_elem_of_cons. split; [|by apply IH]. intros ->. by rewrite (proj2 (semver_eq_iff v v)) in E.
Qed.

Lemma ascending_versions l l' : l'.*1 = l.*1 -> ascending l -> ascending l'.
Proof.
  intros E Hl. revert l' E; induction Hl as [|x l Hl IH Hx]; intros [|y l'] E; try done; [constructor|].
  rewrite !fmap_cons in E. injection E as E1 E2. constructor; [by apply IH|].
  apply Forall_forall. intros z Hz. unfold entry_lt. rewrite E1.
  assert (Hz1 : z.1 ∈ l.*1) by (rewrite <- E2; by apply list_elem_of_fmap_2).
  apply list_elem_of_fmap in Hz1 as (w & -> & Hw). rewrite Forall_forall in Hx. by apply Hx.
Qed.

(** ** Registry histories *)

Inductive registry_op : Type :=
| RRegister (m : ToolMeta Rest)
| RRemove (name dcc : string) (c : VersionConstraint).

Definition registry_exec (r : gmap (string * string) (list entry)) (o : registry_op)
    : gmap (string * string) (list entry) :=
  match o with
  | RRegister m => register m r
  | RRemove n d c => (remove n d c r).1
  end.

Definition registry_run (ops : list registry_op) : gmap (string * string) (list entry) :=
  foldl registry_exec ∅ ops.

Definition registry_ok (r : gmap (string * string) (list entry)) : Prop :=
  map_Forall (fun _ l => ascending l) r.

Lemma entries_ascending name dcc r : registry_ok r -> ascending (entries_of name dcc r).
Proof.
  intros Hr. unfold entries_of. destruct (r !! (name, dcc)) as [l|] eqn:E; [|constructor].
  by apply (Hr _ _ E).
Qed.

Lemma register_entries m r :
  registry_ok r ->
  let l := entries_of (tool_name m) (tool_dcc m) r in
  let l' := entries_of (tool_name m) (tool_dcc m) (register m r) in
  ascending l' /\ (version_of m, m) ∈ l' /\
  forall e, e.1 <> version_of m -> (e ∈ l' <-> e ∈ l).
Proof.
  intros Hr l l'. pose proof (entries_ascending (tool_name m) (tool_dcc m) r Hr) as Hl. fold l in Hl.
  unfold l', entries_of, register. fold (entries_of (tool_name m) (tool_dcc m) r). fold l.
  destruct (replace_version (version_of m) m l) as [l2|] eqn:E.
  - rewrite lookup_insert_eq. simpl. apply replace_version_Some in E as (H1 & H2 & H3).
    split; [by eapply ascending_versions|done].
  - rewrite lookup_insert_eq. simpl. apply replace_version_None in E. split; [|split].
    + apply sort_entries_ascending. rewrite fmap_app. simpl.
      apply NoDup_app. split; [by apply ascending_NoDup|]. split; [|apply NoDup_singleton].
      intros v Hv Hv2%list_elem_of_singleton. by subst v.
    + rewrite sort_entries_perm, elem_of_app. right. by left.
    + intros e He. rewrite sort_entries_perm, elem_of_app, list_elem_of_singleton.
      split; [intros [?| ->]; [done|by destruct He]|by left].
Qed.

Lemma registry_exec_ok r o : registry_ok r -> registry_ok (registry_exec r o).
Proof.
  intros Hr. destruct o as [m|n d c]; simpl.
  - pose proof (register_entries m r Hr) as (Ha & _). intros [n d] l Hl.
    destruct (decide ((n, d) = (tool_name m, tool_dcc m))) as [Heq|Hne]; [injection Heq as -> ->|].
    + unfold entries_of in Ha. by rewrite Hl in Ha.
    + apply (Hr (n, d)). rewrite <- Hl. unfold register.
      by destruct (replace_version _ _ _); rewrite lookup_insert_ne by congruence.
  - unfold remove. destruct (r !! (n, d)) as [l|] eqn:E; [|done].
    apply map_Forall_insert_2; [|done]. by apply ascending_filter, (Hr _ _ E).
Qed.

Lemma registry_run_ok ops : registry_ok (registry_run ops).
Proof.
  unfold registry_run. assert (H : registry_ok ∅) by apply map_Forall_empty. revert H.
  generalize (∅ : gmap (string * string) (list entry)).
  induction ops as [|o ops IH]; intros r Hr; [done|]. by apply IH, registry_exec_ok.
Qed.

(** ** Looking up *)

Lemma find_In (p : entry -> bool) l e : List.find p l = Some e -> e ∈ l /\ p e = true.
Proof. intros H. apply find_some in H as [H1 H2]. by rewrite list_elem_of_In. Qed.

Lemma find_unique (ver : SemVer) l m :
  NoDup l.*1 -> (ver, m) ∈ l -> List.find (fun e => semver_eq e.1 ver) l = Some (ver, m).
Proof.
  induction l as [|[v x] l IH]; intros Hnd Hin; [by apply elem_of_nil in Hin|].
  simpl. rewrite fmap_cons, NoDup_cons in Hnd. destruct Hnd as [Hv Hnd].
  apply elem_of_cons in Hin as [Heq|Hin]; [injection Heq as -> ->|].
  - by rewrite (proj2 (semver_eq_iff v v)).
  - destruct (semver_eq v ver) eqn:E; [|by apply IH]. apply semver_eq_iff in E as ->.
    destruct Hv. by apply (list_elem_of_fmap_2 fst) in Hin.
Qed.

(** Searching an ascending list from its end finds the highest match. *)
Lemma find_reverse_max (p : entry -> bool) l e :
  ascending l -> List.find p (reverse l) = Some e ->
  e ∈ l /\ p e = true /\ forall x, x ∈ l -> p x = true -> semver_le x.1 e.1 = true.
Proof.
  intros Hl. induction l as [|y l IH] using rev_ind; [done|].
  rewrite reverse_snoc. simpl. apply StronglySorted_app in Hl as (Hlt & Hl & _).
  destruct (p y) eqn:Ey.
  - intros [= <-]. split; [apply elem_of_app; right; by left|]. split; [done|].
    intros x [Hx|Hx]%elem_of_app Hp; apply semver_le_lt.
    + right. apply (Hlt x y Hx). by left.
    + left. apply list_elem_of_singleton in Hx. by subst.
  - intros Hf. destruct (IH Hl Hf) as (Hin & Hpe & Hmax). split; [apply elem_of_app; by left|].
    split; [done|]. intros x [Hx|Hx]%elem_of_app Hp; [by apply Hmax|].
    apply list_elem_of_singleton in Hx. congruence.
Qed.

Lemma find_reverse_none (p : entry -> bool) l :
  List.find p (reverse l) = None -> forall x, x ∈ l -> p x = false.
Proof.
  intros Hf x Hx. eapply find_none; [exact Hf|]. apply list_elem_of_In. by apply elem_of_reverse.
Qed.

(** The registry.  After any history of registrations and removals every
    version list is strictly ascending (one entry per version); the action just
    registered is the one found under its version, and other versions of it and
    other actions are not affected. *)
Theorem register_spec (ops : list registry_op) (m : ToolMeta Rest) :
  let r := registry_run ops in
  let r' := register m r in
  (forall name dcc, StronglySorted (fun a b => semver_lt a b = true) (versions name dcc r)) /\
  get (tool_name m) (tool_dcc m) (version_of m) r' = Some m /\
  (forall v, v <> version_of m ->
    get (tool_name m) (tool_dcc m) v r' = get (tool_name m) (tool_dcc m) v r) /\
  (forall name dcc, (name, dcc) <> (tool_name m, tool_dcc m) ->
    versions name dcc r' = versions name dcc r /\
    forall v, get name dcc v r' = get name dcc v r).
Proof.
  intros r r'. assert (Hr : registry_ok r) by apply registry_run_ok.
  destruct (register_entries m r Hr) as (Hasc & Hin & Hother).
  set (l := entries_of (tool_name m) (tool_dcc m) r) in *.
  set (l' := entries_of (tool_name m) (tool_dcc m) (register m r)) in *.
  split; [|split; [|split]].
  - intros name dcc. unfold versions. pose proof (entries_ascending name dcc r Hr) as Ha.
    induction Ha as [|x k Hk IH Hx]; simpl; [constructor|]. constructor; [done|].
    apply Forall_fmap. eapply Forall_impl; [exact Hx|]. done.
  - unfold get. change (entries_of (tool_name m) (tool_dcc m) r') with l'.
    by rewrite (find_unique _ _ m (ascending_NoDup _ Hasc) Hin).
  - intros v Hv. unfold get. fold l. change (entries_of (tool_name m) (tool_dcc m) r') with l'.
    pose proof (ascending_NoDup _ (entries_ascending (tool_name m) (tool_dcc m) r Hr)) as Hnd.
    fold l in Hnd.
    destruct (List.find (fun e => semver_eq e.1 v) l) as [[w x]|] eqn:E.
    + destruct (find_In _ _ _ E) as [Hw Hwv]. apply semver_eq_iff in Hwv. simpl in Hwv. subst w.
      rewrite (find_unique v l' x); [done|by apply ascending_NoDup|]. by apply Hother.
    + destruct (List.find (fun e => semver_eq e.1 v) l') as [[w x]|] eqn:E'; [|done].
      destruct (find_In _ _ _ E') as [Hw Hwv]. apply semver_eq_iff in Hwv. simpl in Hwv. subst w.
      apply Hother in Hw; [|done]. rewrite (find_unique v l x Hnd Hw) in E. done.
  - intros name dcc Hne. assert (He : entries_of name dcc r' = entries_of name dcc r).
    { unfold entries_of, r', register. by destruct (replace_version _ _ _); rewrite lookup_insert_ne. }
    unfold versions, get. by rewrite He.
Qed.

(** The router picks the highest version that satisfies the constraint, and
    finds one whenever there is one; the latest version is the router's answer to
    the constraint that any version satisfies. *)
Theorem resolve_highest (ops : list registry_op) (name dcc : string) (c : VersionConstraint) :
  let r := registry_run ops in
  match resolve name dcc c r with
  | Some m => exists v, (v, m) ∈ entries_of name dcc r /\ matches c v = true /\
      forall w, w ∈ versions name dcc r -> matches c w = true -> semver_le w v = true
  | None => forall w, w ∈ versions name dcc r -> matches c w = false
  end /\
  latest name dcc r = resolve name dcc CAny r.
Proof.
  intros r. pose proof (entries_ascending name dcc r (registry_run_ok ops)) as Ha.
  unfold resolve, versions, latest. set (l := entries_of name dcc r) in *. split.
  - destruct (List.find _ (reverse l)) as [[v m]|] eqn:E; simpl.
    + destruct (find_reverse_max _ _ _ Ha E) as (Hin & Hc & Hmax). exists v. split; [done|].
      split; [done|]. intros w (x & -> & Hx)%list_elem_of_fmap Hw. by apply (Hmax x).
    + intros w (x & -> & Hx)%list_elem_of_fmap. by apply (find_reverse_none _ _ E x).
  - destruct l as [|y l _] using rev_ind; [done|]. by rewrite last_snoc, reverse_snoc.
Qed.

End Registry_facts.

(** ** Witness *)

Lemma version_roundtrip_witness :
  parse (lit "18446744073709551615.0.7") = Ok (mkSemVer 18446744073709551615 0 7).
Proof.
  destruct (version_roundtrip (mkSemVer 18446744073709551615 0 7) CAny
    ltac:(unfold version_ok, in_u64, u64_max; simpl; lia)) as [H _].
  exact H.
Defined.
