(* ===== verification/RateLimit.v ===== *)
(** Component: the rate-limiting middleware
    ([crates/dcc-mcp-actions/src/pipeline/rate_limit.rs]).

    The state maps an action to its counter and the start of its window.  The two
    clock readings of one call are taken to be the same instant. *)

From S2P Require Import Prelude.

Record RateLimitMiddleware : Type := { max_calls : Z; window : Z }.

Abbreviation LimiterState := (gmap string (Z * Z)%type).

(** [call_count] *)
Definition call_count (action : string) (s : LimiterState) : Z :=
  match s !! action with Some (count, _) => count | None => 0 end.

(** [before_dispatch]: the new state, and whether the call may go on.  The counter
    is a [u64]; it is incremented for rejected calls too. *)
Definition before_dispatch (l : RateLimitMiddleware) (action : string) (now : Z) (s : LimiterState)
    : LimiterState * bool :=
  let '(count, start) := default (0, now)%Z (s !! action) in
  let '(count, start) :=
    if (window l <=? now - start)%Z then (0, now)%Z else (count, start) in
  let count' := ((count + 1) mod (u64_max + 1))%Z in
  (<[action := (count', start)]> s, negb (max_calls l <? count')%Z).

(** The accepted calls to one action in a run of calls. *)
Fixpoint accepted (l : RateLimitMiddleware) (a : string) (calls : list (string * Z))
    (s : LimiterState) : Z :=
  match calls with
  | [] => 0
  | (b, now) :: calls' =>
      let (s', ok) := before_dispatch l b now s in
      ((if bool_decide (b = a) && ok then 1 else 0) + accepted l a calls' s')%Z
  end.

Fixpoint after_calls (l : RateLimitMiddleware) (calls : list (string * Z)) (s : LimiterState) : LimiterState :=
  match calls with
  | [] => s
  | (b, now) :: calls' => after_calls l calls' (before_dispatch l b now s).1
  end.

Section Limiter.
Variable l : RateLimitMiddleware.
Variable a : string.
Hypothesis Hmax : (0 <= max_calls l)%Z.

(** What the action's counter still lets through in its current window. *)
Definition room (s : LimiterState) : Z := Z.max (max_calls l - call_count a s) 0.

Definition start_of (s : LimiterState) (now : Z) : Z :=
  match s !! a with Some (_, start) => start | None => now end.

(** Every counter has counted a call, and none is close to wrapping. *)
Definition counters_ok (n : nat) (s : LimiterState) : Prop :=
  forall (b : string) (c st : Z), s !! b = Some (c, st) -> (1 <= c /\ c + Z.of_nat n <= u64_max)%Z.

Lemma before_dispatch_other b now s :
  b <> a -> (before_dispatch l b now s).1 !! a = s !! a.
Proof.
  intros Hb. unfold before_dispatch. destruct (default _ _) as [c st].
  destruct (window l <=? now - st)%Z; simpl; by rewrite lookup_insert_ne.
Qed.

Lemma before_dispatch_counters b now s n :
  counters_ok (S n) s -> (Z.of_nat n < u64_max)%Z -> counters_ok n (before_dispatch l b now s).1.
Proof.
  intros Hc Hn x c st. unfold before_dispatch.
  destruct (default (0, now)%Z (s !! b)) as [c0 st0] eqn:E.
  assert (H0 : (0 <= c0 /\ (c0 + Z.of_nat (S n) <= u64_max \/ c0 = 0))%Z).
  { destruct (s !! b) as [[c1 st1]|] eqn:Eb; simpl in E; simplify_eq; [|lia].
    apply Hc in Eb. lia. }
  destruct (if (window l <=? now - st0)%Z then (0, now)%Z else (c0, st0)) as [c1 st1] eqn:E1.
  assert (H1 : (0 <= c1 /\ (c1 + Z.of_nat (S n) <= u64_max \/ c1 = 0))%Z)
    by (destruct (window l <=? now - st0)%Z; simplify_eq; lia).
  simpl. destruct (decide (b = x)) as [->|Hne].
  - rewrite lookup_insert_eq. intros [= <- <-]. rewrite Z.mod_small by lia. lia.
  - rewrite lookup_insert_ne by done. intros Hx. apply Hc in Hx. lia.
Qed.

(** One call to the action itself, when its counter does not wrap. *)
Lemma before_dispatch_self now s n :
  counters_ok (S n) s -> (Z.of_nat n < u64_max)%Z ->
  let '(s', ok) := before_dispatch l a now s in
  if (window l <=? now - start_of s now)%Z then
    call_count a s' = 1%Z /\ start_of s' now = now /\ ok = negb (max_calls l <? 1)%Z
  else
    call_count a s' = (call_count a s + 1)%Z /\ start_of s' now = start_of s now /\
    ok = negb (max_calls l <? call_count a s + 1)%Z.
Proof.
  intros Hc Hn. unfold before_dispatch, start_of, call_count.
  destruct (s !! a) as [[c st]|] eqn:E; cbn [default from_option].
  - apply Hc in E. cbn [id]. cbv beta iota.
    destruct (window l <=? now - st)%Z; cbv beta iota; rewrite lookup_insert_eq.
    + done.
    + rewrite Z.mod_small by lia. done.
  - cbv beta iota. destruct (window l <=? now - now)%Z; cbv beta iota; rewrite lookup_insert_eq; done.
Qed.

(** The calls of an interval of the window's length. *)
Definition within (t : Z) (calls : list (string * Z)) : Prop :=
  Forall (fun c => t <= c.2 < t + window l)%Z calls.

(** Once a window has started inside the interval there is no further reset: at
    most the remaining room is accepted. *)
Lemma accepted_in_window (t : Z) calls : forall s c st,
  within t calls -> (Z.of_nat (length calls) < u64_max)%Z -> counters_ok (length calls) s ->
  s !! a = Some (c, st) -> (t <= st)%Z -> (accepted l a calls s <= room s)%Z.
Proof.
  induction calls as [|[b now] calls IH]; intros s c st Hw Hlen Hc Hs Hst; cbn [accepted length] in *.
  { unfold room. lia. }
  inv Hw. cbn [snd] in *. pose proof (before_dispatch_counters b now s _ Hc ltac:(lia)) as Hc'.
  destruct (decide (b = a)) as [->|Hne].
  - pose proof (before_dispatch_self now s _ Hc ltac:(lia)) as Hself.
    destruct (before_dispatch l a now s) as [s' okb] eqn:E. cbn [fst] in Hc'.
    unfold start_of in Hself at 1. rewrite Hs in Hself.
    rewrite (proj2 (Z.leb_gt _ _)) in Hself by lia. destruct Hself as (Hcount & Hstart & Hok).
    rewrite bool_decide_eq_true_2 by done. cbn [andb].
    destruct (s' !! a) as [[c' st']|] eqn:Es'.
    + unfold start_of in Hstart. rewrite Hs, Es' in Hstart. subst st'.
      specialize (IH s' c' st ltac:(done) ltac:(lia) Hc' Es' Hst).
      unfold room in *. rewrite Hcount in IH. destruct okb; bool_to_prop; [symmetry in Hok; bool_to_prop|]; lia.
    + unfold call_count in Hcount. rewrite Es', Hs in Hcount. pose proof (Hc a c st Hs). lia.
  - pose proof (before_dispatch_other b now s Hne) as Ho.
    destruct (before_dispatch l b now s) as [s' okb] eqn:E. cbn [fst] in *.
    rewrite bool_decide_eq_false_2 by done. cbn [andb].
    rewrite <- Ho in Hs. specialize (IH s' c st ltac:(done) ltac:(lia) Hc' Hs Hst).
    unfold room, call_count in *. rewrite Ho in IH. lia.
Qed.

Lemma accepted_in_interval (t : Z) calls : forall s,
  within t calls -> (Z.of_nat (length calls) < u64_max)%Z -> counters_ok (length calls) s ->
  (accepted l a calls s <= room s + max_calls l)%Z.
Proof.
  induction calls as [|[b now] calls IH]; intros s Hw Hlen Hc; cbn [accepted length] in *.
  { unfold room. lia. }
  inv Hw. cbn [snd] in *. pose proof (before_dispatch_counters b now s _ Hc ltac:(lia)) as Hc'.
  destruct (decide (b = a)) as [->|Hne].
  - pose proof (before_dispatch_self now s _ Hc ltac:(lia)) as Hself.
    destruct (before_dispatch l a now s) as [s' okb] eqn:E. cbn [fst] in Hc'.
    rewrite bool_decide_eq_true_2 by done. cbn [andb].
    destruct (window l <=? now - start_of s now)%Z; destruct Hself as (Hcount & Hstart & Hok).
    + destruct (s' !! a) as [[c' st']|] eqn:Es'.
      * unfold start_of in Hstart. rewrite Es' in Hstart. subst st'.
        pose proof (accepted_in_window t calls s' c' now ltac:(done) ltac:(lia) Hc' Es' ltac:(lia)) as Hin.
        unfold room in *. rewrite Hcount in Hin.
        destruct okb; [symmetry in Hok; bool_to_prop|]; lia.
      * unfold call_count in Hcount. rewrite Es' in Hcount. lia.
    + specialize (IH s' ltac:(done) ltac:(lia) Hc'). unfold room in *. rewrite Hcount in IH.
      destruct okb; [symmetry in Hok; bool_to_prop|]; lia.
  - pose proof (before_dispatch_other b now s Hne) as Ho.
    destruct (before_dispatch l b now s) as [s' okb] eqn:E. cbn [fst] in *.
    rewrite bool_decide_eq_false_2 by done. cbn [andb].
    specialize (IH s' ltac:(done) ltac:(lia) Hc').
    unfold room, call_count in *. rewrite Ho in IH. lia.
Qed.

(** An action not called before starts its first window inside the interval. *)
Lemma accepted_first (t : Z) calls : forall s,
  within t calls -> (Z.of_nat (length calls) < u64_max)%Z -> counters_ok (length calls) s ->
  s !! a = None -> (accepted l a calls s <= max_calls l)%Z.
Proof.
  induction calls as [|[b now] calls IH]; intros s Hw Hlen Hc Hs; cbn [accepted length] in *; [lia|].
  inv Hw. cbn [snd] in *. pose proof (before_dispatch_counters b now s _ Hc ltac:(lia)) as Hc'.
  destruct (decide (b = a)) as [->|Hne].
  - pose proof (before_dispatch_self now s _ Hc ltac:(lia)) as Hself.
    destruct (before_dispatch l a now s) as [s' okb] eqn:E. cbn [fst] in Hc'.
    unfold start_of at 1 in Hself. rewrite Hs in Hself.
    rewrite (proj2 (Z.leb_gt _ _)) in Hself by lia. destruct Hself as (Hcount & Hstart & Hok).
    rewrite bool_decide_eq_true_2 by done. cbn [andb].
    destruct (s' !! a) as [[c' st']|] eqn:Es'.
    + unfold start_of in Hstart. rewrite Hs, Es' in Hstart. subst st'.
      pose proof (accepted_in_window t calls s' c' now ltac:(done) ltac:(lia) Hc' Es' ltac:(lia)) as Hin.
      unfold room in *. rewrite Hcount in Hin. unfold call_count in *. rewrite Hs in *.
      destruct okb; [symmetry in Hok; bool_to_prop|]; lia.
    + unfold call_count in Hcount. rewrite Es', Hs in Hcount. lia.
  - pose proof (before_dispatch_other b now s Hne) as Ho.
    destruct (before_dispatch l b now s) as [s' okb] eqn:E. cbn [fst] in *.
    rewrite bool_decide_eq_false_2 by done. cbn [andb]. rewrite <- Ho in Hs.
    specialize (IH s' ltac:(done) ltac:(lia) Hc' Hs). lia.
Qed.

Lemma after_calls_counters calls : forall s n,
  counters_ok (length calls + n) s -> (Z.of_nat (length calls + n) < u64_max)%Z ->
  counters_ok n (after_calls l calls s).
Proof.
  induction calls as [|[b now] calls IH]; intros s n Hc Hn; [done|]. simpl in *.
  apply IH; [|lia]. apply before_dispatch_counters; [done|lia].
Qed.

End Limiter.

(** The limiter's guarantee.  After any history of calls, over any interval
    of the window's length, at most [2 * max_calls - 1] calls of one action are let
    through (the windows are fixed, so one reset can fall inside the interval), and
    none when [max_calls] is 0.  The bound is for histories short of [2^64] calls,
    the range of the counter. *)
Theorem rate_limit_bound (l : RateLimitMiddleware) (a : string) (before calls : list (string * Z)) (t : Z)
  (Hmax : (0 <= max_calls l)%Z)
  (Hint : Forall (fun c => t <= c.2 < t + window l)%Z calls)
  (Hlen : (Z.of_nat (length before + length calls) < u64_max)%Z) :
  (accepted l a calls (after_calls l before ∅) <= Z.max (2 * max_calls l - 1) 0)%Z.
Proof.
  assert (H0 : counters_ok (length calls) (after_calls l before ∅)).
  { apply after_calls_counters; [|done]. intros b c st Hb. by rewrite lookup_empty in Hb. }
  destruct (after_calls l before ∅ !! a) as [[c st]|] eqn:E.
  - pose proof (accepted_in_interval l a Hmax t calls (after_calls l before ∅) Hint ltac:(lia) H0) as Hb.
    unfold room, call_count in Hb. rewrite E in Hb. apply H0 in E. lia.
  - pose proof (accepted_first l a Hmax t calls (after_calls l before ∅) Hint ltac:(lia) H0 E). lia.
Qed.

(** Two calls a minute: three go through within one minute. *)
Lemma rate_limit_bound_witness :
  let l := {| max_calls := 2; window := 60 |} in
  let calls := [("ping", 59); ("ping", 59); ("ping", 60); ("ping", 60); ("ping", 61)]%Z in
  let s := after_calls l [("ping", 0)]%Z ∅ in
  (accepted l "ping" calls s <= 3)%Z /\ accepted l "ping" calls s = 3%Z.
Proof.
  intros l calls s. split; [|vm_compute; reflexivity].
  apply (rate_limit_bound l "ping" [("ping", 0)]%Z calls 59%Z).
  - simpl. lia.
  - repeat (constructor; [simpl; lia|]). constructor.
  - unfold u64_max. simpl. lia.
Defined.
