(* ===== verification/Resolver.v ===== *)
(** Skill dependencies, [dcc-mcp-skills/src/resolver.rs]: the topological sort of a
    set of skills, the validation of their declared dependencies, the transitive
    dependencies of one skill, and the search for the cycle that an error reports.

    A [HashMap] collected from an iterator keeps the last of two entries with one
    key, which matters when two skills carry the same name.  The loops that the
    code drives by a queue or by recursion take fuel here; [None] stands for a
    panic (an index out of bounds, a counter below zero) or for exhausted fuel, and
    the theorems of [ResolverSort] and [ResolverExpand] show that neither occurs. *)

From S2P Require Import Prelude.
From stdpp Require Export relations gmap.

(** ** Data *)

(** The fields of [SkillMetadata] that the resolver reads; it only carries the rest. *)
Record SkillMetadata (R : Type) : Type := mkSkill {
  skill_name : string;
  depends : list string;
  skill_rest : R;
}.
Arguments mkSkill {R}.
Arguments skill_name {R}.
Arguments depends {R}.
Arguments skill_rest {R}.

Inductive ResolveError : Type :=
| MissingDependency (skill dependency : string)
| CyclicDependency (cycle : list string)
| SkippedDirectories (directories : list string).

#[export] Instance ResolveError_eq_dec : EqDecision ResolveError.
Proof. solve_decision. Defined.

(** Successor lists and in-degrees, by index. *)
Abbreviation graph := (list (list nat) * list nat)%type.

Section Resolver.
Context {R : Type}.
Implicit Types (skills : list (SkillMetadata R)) (s : SkillMetadata R).

(** ** Names *)

Definition name_to_idx skills : gmap string nat :=
  list_to_map (reverse (imap (fun i s => (skill_name s, i)) skills)).

Definition name_to_skill skills : gmap string (SkillMetadata R) :=
  list_to_map (reverse ((fun s => (skill_name s, s)) <$> skills)).

Definition names skills : gset string := list_to_set (skill_name <$> skills).

(** ** Validation *)

(** The early return of [resolve_dependencies]: the first undeclared dependency. *)
Fixpoint missing_in (idx : gmap string nat) (skill : string) (deps : list string)
    : option ResolveError :=
  match deps with
  | [] => None
  | dep :: rest =>
      match idx !! dep with
      | Some _ => missing_in idx skill rest
      | None => Some (MissingDependency skill dep)
      end
  end.

Fixpoint first_missing (idx : gmap string nat) (skills : list (SkillMetadata R))
    : option ResolveError :=
  match skills with
  | [] => None
  | s :: rest =>
      match missing_in idx (skill_name s) (depends s) with
      | Some e => Some e
      | None => first_missing idx rest
      end
  end.

Definition validate_dependencies skills : list ResolveError :=
  flat_map (fun s =>
    flat_map (fun dep =>
      if bool_decide (dep ∈ names skills) then []
      else [MissingDependency (skill_name s) dep]) (depends s)) skills.

(** ** The graph: successors and in-degrees *)

Fixpoint add_edges (idx : gmap string nat) (i : nat) (deps : list string) (g : graph)
    : option graph :=
  match deps with
  | [] => Some g
  | dep :: rest =>
      dep_idx ← idx !! dep;
      row ← g.1 !! dep_idx;
      deg ← g.2 !! i;
      add_edges idx i rest (<[dep_idx := row ++ [i]]> g.1, <[i := S deg]> g.2)
  end.

Fixpoint build_graph (idx : gmap string nat) (i : nat) (skills : list (SkillMetadata R))
    (g : graph) : option graph :=
  match skills with
  | [] => Some g
  | s :: rest => g' ← add_edges idx i (depends s) g; build_graph idx (S i) rest g'
  end.

(** ** Kahn's algorithm *)

(** The inner loop: one decrement per outgoing edge. *)
Fixpoint relax (neighbors : list nat) (in_degree queue : list nat)
    : option (list nat * list nat) :=
  match neighbors with
  | [] => Some (in_degree, queue)
  | x :: rest =>
      deg ← in_degree !! x;
      match deg with
      | O => None
      | S d =>
          relax rest (<[x := d]> in_degree) (if bool_decide (d = 0) then queue ++ [x] else queue)
      end
  end.

Fixpoint kahn (fuel : nat) (adj : list (list nat)) (in_degree queue ordered : list nat)
    : option (list nat) :=
  match queue with
  | [] => Some ordered
  | idx :: rest =>
      match fuel with
      | O => None
      | S fuel' =>
          row ← adj !! idx;
          '(in_degree', queue') ← relax row in_degree rest;
          kahn fuel' adj in_degree' queue' (ordered ++ [idx])
      end
  end.

Definition initial_queue (in_degree : list nat) : list nat :=
  filter (fun i => in_degree !! i = Some 0) (seq 0 (length in_degree)).

(** ** The cycle to report *)

(** Colours: 0 unvisited, 1 on the current path, 2 done. *)
Record dfs : Type := mkDfs { color : list nat; parent : list (option nat) }.

Definition set_color (i c : nat) (st : dfs) : dfs := mkDfs (<[i := c]> (color st)) (parent st).
Definition set_parent (i p : nat) (st : dfs) : dfs :=
  mkDfs (color st) (<[i := Some p]> (parent st)).

Section FindCycle.
Variables (skills : list (SkillMetadata R)) (idx : gmap string nat).

(** [while cur != dep_idx]: the names on the path from [cur] back to [dep_idx]. *)
Fixpoint backtrack (fuel : nat) (st : dfs) (dep_idx cur : nat) (cycle : list string)
    : option (list string) :=
  if bool_decide (cur = dep_idx) then Some cycle
  else
    match fuel with
    | O => None
    | S fuel' =>
        s ← skills !! cur;
        p ← parent st !! cur;
        backtrack fuel' st dep_idx (default dep_idx p) (cycle ++ [skill_name s])
    end.

Fixpoint scan_deps (visit : nat -> dfs -> option (option (list string) * dfs)) (node : nat)
    (deps : list string) (st : dfs) : option (option (list string) * dfs) :=
  match deps with
  | [] => Some (None, set_color node 2 st)
  | dep :: rest =>
      match idx !! dep with
      | None => scan_deps visit node rest st
      | Some dep_idx =>
          c ← color st !! dep_idx;
          if bool_decide (c = 1) then
            s ← skills !! dep_idx;
            cycle ← backtrack (length skills) st dep_idx node [skill_name s];
            Some (Some (reverse (cycle ++ [skill_name s])), st)
          else if bool_decide (c = 0) then
            '(found, st') ← visit dep_idx (set_parent dep_idx node st);
            match found with
            | Some cycle => Some (Some cycle, st')
            | None => scan_deps visit node rest st'
            end
          else scan_deps visit node rest st
      end
  end.

Fixpoint dfs_find_cycle (fuel : nat) (node : nat) (st : dfs)
    : option (option (list string) * dfs) :=
  match fuel with
  | O => None
  | S fuel' =>
      s ← skills !! node;
      scan_deps (dfs_find_cycle fuel') node (depends s) (set_color node 1 st)
  end.

Fixpoint find_from (starts : list nat) (st : dfs) : option (list string) :=
  match starts with
  | [] => Some (skill_name <$> filter (fun s => depends s <> []) skills)
  | start :: rest =>
      c ← color st !! start;
      if bool_decide (c <> 0) then find_from rest st
      else
        '(found, st') ← dfs_find_cycle (S (length skills)) start st;
        match found with
        | Some cycle => Some cycle
        | None => find_from rest st'
        end
  end.

Definition find_cycle : option (list string) :=
  let n := length skills in
  find_from (seq 0 n) (mkDfs (replicate n 0) (replicate n None)).

End FindCycle.

(** ** Resolution *)

Definition resolve_dependencies skills : option (result ResolveError (list (SkillMetadata R))) :=
  if bool_decide (skills = []) then Some (Ok [])
  else
    let idx := name_to_idx skills in
    match first_missing idx skills with
    | Some e => Some (Err e)
    | None =>
        let n := length skills in
        '(adj, in_degree) ← build_graph idx 0 skills (replicate n [], replicate n 0);
        ordered ← kahn n adj in_degree (initial_queue in_degree) [];
        if bool_decide (length ordered <> n) then
          cycle ← find_cycle skills idx;
          Some (Err (CyclicDependency cycle))
        else
          sorted ← mapM (fun i => skills !! i) ordered;
          Some (Ok sorted)
    end.

(** ** Transitive dependencies *)

Record expansion : Type := mkExpansion {
  visited : gset string;
  path : list string;
  expanded : list string;
}.

Section Expand.
Variable by_name : gmap string (SkillMetadata R).

Fixpoint expand_deps (visit : string -> expansion -> option (result ResolveError expansion))
    (skill : string) (deps : list string) (st : expansion)
    : option (result ResolveError expansion) :=
  match deps with
  | [] => Some (Ok st)
  | dep :: rest =>
      match by_name !! dep with
      | None => Some (Err (MissingDependency skill dep))
      | Some _ =>
          r ← visit dep st;
          match r with
          | Err e => Some (Err e)
          | Ok st' =>
              expand_deps visit skill rest
                (if bool_decide (dep ∈ expanded st') then st'
                 else mkExpansion (visited st') (path st') (expanded st' ++ [dep]))
          end
      end
  end.

Fixpoint expand_dfs (fuel : nat) (skill : string) (st : expansion)
    : option (result ResolveError expansion) :=
  match fuel with
  | O => None
  | S fuel' =>
      if bool_decide (skill ∈ visited st) then Some (Ok st)
      else
        match list_find (fun p => p = skill) (path st) with
        | Some (pos, _) => Some (Err (CyclicDependency (drop pos (path st) ++ [skill])))
        | None =>
            match by_name !! skill with
            | None =>
                match last (path st) with
                | Some p => Some (Err (MissingDependency p skill))
                | None => Some (Ok st)
                end
            | Some s =>
                r ← expand_deps (expand_dfs fuel') skill (depends s)
                      (mkExpansion (visited st) (path st ++ [skill]) (expanded st));
                match r with
                | Err e => Some (Err e)
                | Ok st' =>
                    Some (Ok (mkExpansion ({[skill]} ∪ visited st') (removelast (path st'))
                                (expanded st')))
                end
            end
        end
  end.

End Expand.

Definition expand_transitive_dependencies skills (skill : string)
    : option (result ResolveError (list string)) :=
  let by_name := name_to_skill skills in
  r ← expand_dfs by_name (S (size by_name)) skill (mkExpansion ∅ [] []);
  Some (match r with Ok st => Ok (expanded st) | Err e => Err e end).

End Resolver.

(** ** The specification: who needs whom *)

Section Spec.
Context {R : Type}.
Implicit Types (skills : list (SkillMetadata R)) (s : SkillMetadata R).

(** The skill known under the name [x] declares a dependency on [y]. *)
Definition needs skills (x y : string) : Prop :=
  exists s, name_to_skill skills !! x = Some s /\ y ∈ depends s.

(** Every declared dependency is the name of a skill of the set. *)
Definition closed skills : Prop :=
  forall s d, s ∈ skills -> d ∈ depends s -> d ∈ skill_name <$> skills.

(** A sequence in which every element is related to the next one. *)
Definition walk {A} (r : relation A) (l : list A) : Prop :=
  forall i a b, l !! i = Some a -> l !! S i = Some b -> r a b.

Definition is_cycle {A} (r : relation A) (l : list A) : Prop :=
  1 < length l /\ walk r l /\ exists x, head l = Some x /\ last l = Some x.

(** ** Walks *)

Lemma walk_singleton {A} (r : relation A) x : walk r [x].
Proof. intros [|[]] a b; done. Qed.

Lemma walk_app {A} (r : relation A) l x y k :
  walk r (l ++ [x]) -> r x y -> walk r (y :: k) -> walk r (l ++ x :: y :: k).
Proof.
  intros Hl Hxy Hk i a b Ha Hb.
  destruct (decide (S i < length (l ++ [x]))) as [Hi|Hi].
  - rewrite cons_middle, (assoc_L (++)), lookup_app_l in Ha, Hb by lia. by eapply Hl.
  - rewrite length_app in Hi. simpl in Hi.
    destruct (decide (i = length l)) as [->|].
    + rewrite list_lookup_middle in Ha by done. simplify_eq.
      rewrite cons_middle, (assoc_L (++)), lookup_app_r in Hb by (rewrite length_app; simpl; lia).
      rewrite length_app in Hb. simpl in Hb. replace (_ - _) with 0 in Hb by lia. simpl in Hb. by simplify_eq.
    + rewrite cons_middle, (assoc_L (++)), lookup_app_r in Ha, Hb by (rewrite length_app; simpl; lia).
      rewrite length_app in Ha, Hb. simpl in Ha, Hb.
      eapply (Hk (i - (length l + 1))); [done|].
      by replace (S (i - (length l + 1))) with (S i - (length l + 1)) by lia.
Qed.

Lemma walk_snoc {A} (r : relation A) l x y : walk r (l ++ [x]) -> r x y -> walk r (l ++ [x; y]).
Proof. intros. apply walk_app; auto using walk_singleton. Qed.

Lemma walk_drop {A} (r : relation A) n l : walk r l -> walk r (drop n l).
Proof.
  intros Hl i a b. rewrite !lookup_drop. intros. eapply Hl; [done|].
  by replace (S (n + i)) with (n + S i) by lia.
Qed.

Lemma walk_app_l {A} (r : relation A) l k : walk r (l ++ k) -> walk r l.
Proof. intros Hw i a b Ha Hb. eapply Hw; by apply lookup_app_l_Some. Qed.

Lemma walk_app_r {A} (r : relation A) l k : walk r (l ++ k) -> walk r k.
Proof. intros Hw. apply (walk_drop _ (length l)) in Hw. by rewrite drop_app_length in Hw. Qed.

Lemma walk_mid {A} (r : relation A) l x y k : walk r (l ++ x :: y :: k) -> r x y.
Proof. intros Hw%walk_app_r. by apply (Hw 0). Qed.

Lemma is_cycle_tc {A} (r : relation A) l : is_cycle r l -> exists x, head l = Some x /\ tc r x x.
Proof. intros (? & ? & x & ? & ?). exists x. split; [done|]. apply tc_list. by exists l. Qed.

(** ** Names *)

Lemma name_maps skills x : Some <$> name_to_skill skills !! x = (fun i => skills !! i) <$> name_to_idx skills !! x.
Proof.
  rewrite <- !lookup_fmap. f_equal. unfold name_to_skill, name_to_idx.
  rewrite <- !list_to_map_fmap, !fmap_reverse. do 2 f_equal.
  rewrite <- list_fmap_compose. apply list_eq. intros i.
  rewrite !list_lookup_fmap, list_lookup_imap.
  destruct (skills !! i) as [s|] eqn:E; simpl; [by rewrite E|done].
Qed.

Lemma name_to_idx_Some skills x i :
  name_to_idx skills !! x = Some i -> exists s, skills !! i = Some s /\ skill_name s = x.
Proof.
  intros H%elem_of_list_to_map_2. rewrite elem_of_reverse, elem_of_lookup_imap in H.
  destruct H as (j & s & [= -> ->] & Hs). by exists s.
Qed.

Lemma name_to_skill_idx skills x i s :
  name_to_idx skills !! x = Some i -> skills !! i = Some s -> name_to_skill skills !! x = Some s.
Proof.
  intros Hi Hs. pose proof (name_maps skills x) as H. rewrite Hi in H. simpl in H. rewrite Hs in H.
  destruct (name_to_skill skills !! x) as [s'|]; simpl in H; congruence.
Qed.

Lemma name_to_idx_None skills x : name_to_idx skills !! x = None <-> x ∉ skill_name <$> skills.
Proof.
  assert (E : (imap (fun i s => (skill_name s, i)) skills).*1 = skill_name <$> skills).
  { apply list_eq. intros i. rewrite !list_lookup_fmap, list_lookup_imap. by destruct (skills !! i). }
  unfold name_to_idx. by rewrite <- not_elem_of_list_to_map, fmap_reverse, elem_of_reverse, E.
Qed.

Lemma name_to_skill_None skills x : name_to_skill skills !! x = None <-> x ∉ skill_name <$> skills.
Proof.
  rewrite <- name_to_idx_None. pose proof (name_maps skills x) as H.
  destruct (name_to_skill skills !! x), (name_to_idx skills !! x); simpl in H; naive_solver.
Qed.

End Spec.
