(* ===== verification/ResolverSort.v ===== *)
(** The topological sort of skills: the graph that [resolve_dependencies] builds,
    Kahn's algorithm on it, and the search for the reported cycle.  The main
    theorem is [resolve_exact]. *)

From S2P Require Import Prelude Resolver.

(** ** Graphs as edge lists

    The pair [(k, i)] is the edge from a dependency to its dependent. *)

Definition succs (E : list (nat * nat)) (k : nat) : list nat :=
  (filter (fun e => e.1 = k) E).*2.

(** The number of incoming edges of [i] that start outside [out]. *)
Definition rem (E : list (nat * nat)) (out : list nat) (i : nat) : nat :=
  length (filter (fun e => e.2 = i /\ e.1 ∉ out) E).

Definition occ (i : nat) (l : list nat) : nat := length (filter (fun x => x = i) l).

Definition bounded (n : nat) (E : list (nat * nat)) : Prop :=
  forall k i, (k, i) ∈ E -> k < n /\ i < n.

(** Every element is preceded by its predecessors in the graph. *)
Definition topo (E : list (nat * nat)) (out : list nat) : Prop :=
  forall pre x post, out = pre ++ x :: post -> forall k, (k, x) ∈ E -> k ∈ pre.

Lemma rem_zero E out i : rem E out i = 0 <-> forall k, (k, i) ∈ E -> k ∈ out.
Proof.
  unfold rem. rewrite length_zero_iff_nil. split.
  - intros H k Hk. destruct (decide (k ∈ out)); [done|].
    assert (Hin : (k, i) ∈ filter (fun e => e.2 = i /\ e.1 ∉ out) E) by (by apply list_elem_of_filter).
    rewrite H in Hin. by apply elem_of_nil in Hin.
  - intros H. apply elem_of_nil_inv. intros [k i']. rewrite list_elem_of_filter. simpl.
    intros [[-> Hk] Hin]. by apply Hk, H.
Qed.

Lemma rem_snoc E out x i : x ∉ out -> rem E out i = rem E (out ++ [x]) i + occ i (succs E x).
Proof.
  intros Hx. unfold rem, occ, succs. induction E as [|[k j] E IH]; [done|].
  rewrite !filter_cons. cbn [fst snd].
  assert (Hk : (k ∉ out ++ [x]) <-> (k ∉ out) /\ k <> x)
    by (rewrite elem_of_app, list_elem_of_singleton; tauto).
  destruct (decide (k = x)) as [->|]; cbn [fmap list_fmap snd]; rewrite ?filter_cons;
    repeat case_decide; simpl; try lia; tauto.
Qed.

Lemma topo_snoc E out x : topo E out -> (forall k, (k, x) ∈ E -> k ∈ out) -> topo E (out ++ [x]).
Proof.
  intros Ht Hx pre y post Heq k Hk.
  destruct post as [|z post _] using rev_ind.
  - apply app_inj_tail in Heq as [-> ->]. by apply Hx.
  - rewrite app_comm_cons, (assoc_L (++)) in Heq. apply app_inj_tail in Heq as [-> _]. by eapply Ht.
Qed.

(** ** Kahn's algorithm *)

(** [deg] counts what remains of each node, [pend] the decrements still to do for
    the node just taken off the queue. *)
Record kahn_inv (n : nat) (E : list (nat * nat)) (out queue pend deg : list nat) : Prop := {
  k_deg i : i < n -> deg !! i = Some (rem E out i + occ i pend);
  k_nodup : NoDup (out ++ queue);
  k_zero i : i < n -> i ∈ out ++ queue <-> rem E out i + occ i pend = 0;
  k_bound i : i ∈ out ++ queue -> i < n;
}.

Lemma occ_cons i x l : occ i (x :: l) = (if decide (x = i) then 1 else 0) + occ i l.
Proof. unfold occ. rewrite filter_cons. by case_decide. Qed.

Lemma relax_step n E out queue x pend deg d :
  x < n -> kahn_inv n E out queue (x :: pend) deg -> rem E out x + occ x pend = d ->
  kahn_inv n E out (if bool_decide (d = 0) then queue ++ [x] else queue) pend (<[x := d]> deg).
Proof.
  intros Hx [Hdeg Hnd Hz Hb] Hd.
  assert (Hnew : x ∉ out ++ queue) by (rewrite Hz, occ_cons, decide_True by done; lia).
  assert (Hother : forall i, i <> x -> occ i (x :: pend) = occ i pend)
    by (intros i Hi; by rewrite occ_cons, decide_False).
  split.
  - intros i Hi. destruct (decide (i = x)) as [->|Hix].
    + rewrite list_lookup_insert_eq by (by eapply lookup_lt_Some, Hdeg). by f_equal.
    + rewrite list_lookup_insert_ne by done. by rewrite Hdeg, Hother.
  - case_bool_decide; [|done]. rewrite (assoc_L (++)). apply NoDup_app. split; [done|].
    split; [|apply NoDup_singleton]. intros y Hy ->%list_elem_of_singleton. done.
  - intros i Hi. destruct (decide (i = x)) as [->|Hix].
    + case_bool_decide; [rewrite (assoc_L (++)), (elem_of_app (out ++ queue)), list_elem_of_singleton; split; [lia|by right]|].
      split; [done|]. intros; lia.
    + rewrite <- Hother, <- Hz by done. case_bool_decide; [|done].
      rewrite (assoc_L (++)), (elem_of_app (out ++ queue)), list_elem_of_singleton. naive_solver.
  - intros i. case_bool_decide; [|apply Hb].
    rewrite (assoc_L (++)), (elem_of_app (out ++ queue)), list_elem_of_singleton. intros [?| ->]; auto.
Qed.

Lemma relax_spec n E out : forall pend queue deg,
  Forall (fun x => x < n) pend -> kahn_inv n E out queue pend deg ->
  exists deg' queue', relax pend deg queue = Some (deg', queue') /\
    kahn_inv n E out queue' [] deg'.
Proof.
  induction pend as [|x pend IH]; intros queue deg Hb Hinv; [by exists deg, queue|].
  inv Hb. simpl. rewrite (k_deg _ _ _ _ _ _ Hinv) by done. rewrite occ_cons, decide_True by done.
  replace (rem E out x + (1 + occ x pend)) with (S (rem E out x + occ x pend)) by lia. simpl.
  apply IH; [done|]. by apply relax_step.
Qed.

(** A node taken off the queue: its outgoing edges become the pending decrements. *)
Lemma kahn_pop n E out x queue deg :
  kahn_inv n E out (x :: queue) [] deg -> kahn_inv n E (out ++ [x]) queue (succs E x) deg.
Proof.
  intros [Hdeg Hnd Hz Hb].
  assert (Hx : x ∉ out) by (apply NoDup_app in Hnd as (_ & H & _); intros ?; by eapply H; [|left]).
  assert (Hocc : forall i, rem E (out ++ [x]) i + occ i (succs E x) = rem E out i + occ i [])
    by (intros i; rewrite <- rem_snoc by done; unfold occ; simpl; lia).
  rewrite cons_middle, (assoc_L (++)) in Hnd, Hz, Hb.
  split; [intros i Hi; rewrite Hocc; auto|done|intros i Hi; rewrite Hocc; auto|done].
Qed.

Lemma nodup_bounded_length n (l : list nat) : NoDup l -> (forall i, i ∈ l -> i < n) -> length l <= n.
Proof.
  intros Hnd Hb. rewrite <- (length_seq n 0). apply submseteq_length, NoDup_submseteq; [done|].
  intros i Hi. apply elem_of_seq. specialize (Hb i Hi). lia.
Qed.

Lemma kahn_spec n E adj :
  bounded n E -> (forall k, k < n -> adj !! k = Some (succs E k)) ->
  forall fuel deg queue out,
  kahn_inv n E out queue [] deg -> topo E out -> n <= fuel + length out ->
  exists out', kahn fuel adj deg queue out = Some out' /\ topo E out' /\
    NoDup out' /\ (forall i, i ∈ out' -> i < n) /\
    (forall i, i < n -> (forall k, (k, i) ∈ E -> k ∈ out') -> i ∈ out').
Proof.
  intros HE Hadj. induction fuel as [|fuel IH]; intros deg [|x queue] out Hinv Ht Hfuel; simpl.
  1, 3: exists out; destruct Hinv as [_ Hnd Hz Hb]; rewrite app_nil_r in *;
    split_and!; try done; intros i Hi Hk; apply Hz; [done|]; apply rem_zero in Hk; unfold occ; simpl; lia.
  - destruct Hinv as [_ Hnd _ Hb]. apply nodup_bounded_length in Hb; [|done].
    rewrite length_app in Hb. simpl in *. lia.
  - assert (Hx : x < n) by (apply (k_bound _ _ _ _ _ _ Hinv), elem_of_app; right; left).
    rewrite (Hadj x Hx). simpl.
    assert (Hready : forall k, (k, x) ∈ E -> k ∈ out).
    { apply rem_zero. enough (rem E out x + occ x [] = 0) by lia.
      apply (k_zero _ _ _ _ _ _ Hinv); [done|]. apply elem_of_app. right. left. }
    destruct (relax_spec n E (out ++ [x]) (succs E x) queue deg) as (deg' & queue' & -> & Hinv').
    { apply Forall_forall. intros i. unfold succs. rewrite list_elem_of_fmap.
      intros ([k j] & -> & [_ Hin]%list_elem_of_filter). by eapply HE. }
    { by apply kahn_pop. }
    simpl. apply (IH _ _ _ Hinv'); [by apply topo_snoc|]. rewrite length_app. simpl. lia.
Qed.

(** Before the first step, the nodes without dependencies are queued. *)
Lemma kahn_start n E deg :
  (forall i, i < n -> deg !! i = Some (rem E [] i)) -> length deg = n ->
  kahn_inv n E [] (initial_queue deg) [] deg.
Proof.
  intros Hdeg Hlen. unfold initial_queue. rewrite Hlen.
  split; simpl; unfold occ; simpl.
  - intros i Hi. by rewrite Nat.add_0_r, Hdeg.
  - apply NoDup_filter, NoDup_seq.
  - intros i Hi. rewrite list_elem_of_filter, elem_of_seq, Hdeg by done. split.
    + intros [[= ->] _]. done.
    + intros Hz. split; [f_equal; lia|lia].
  - intros i. rewrite list_elem_of_filter, elem_of_seq. lia.
Qed.

(** What Kahn's algorithm leaves out has no topological order. *)
Lemma topo_saturated n E (B out : list nat) :
  bounded n E -> topo E B -> (forall i, i < n -> (forall k, (k, i) ∈ E -> k ∈ out) -> i ∈ out) ->
  forall i, i ∈ B -> i < n -> i ∈ out.
Proof.
  intros HE Ht Hsat. induction B as [|b B IH] using rev_ind; [by intros i ?%elem_of_nil|].
  assert (HtB : topo E B).
  { intros pre x post -> k Hk. rewrite <- (assoc_L (++)) in Ht. by eapply Ht. }
  specialize (IH HtB). intros i [Hi| ->%list_elem_of_singleton]%elem_of_app Hn; [by apply IH|].
  apply Hsat; [done|]. intros k Hk. apply IH; [exact (Ht B b [] eq_refl k Hk)|exact (proj1 (HE _ _ Hk))].
Qed.

(** ** The graph the code builds *)

Definition represents (n : nat) (E : list (nat * nat)) (g : graph) : Prop :=
  (forall k, k < n -> g.1 !! k = Some (succs E k)) /\
  (forall i, i < n -> g.2 !! i = Some (rem E [] i)) /\ length g.2 = n.

Lemma represents_snoc n E k i g row deg :
  k < n -> i < n -> represents n E g -> g.1 !! k = Some row -> g.2 !! i = Some deg ->
  represents n (E ++ [(k, i)]) (<[k := row ++ [i]]> g.1, <[i := S deg]> g.2).
Proof.
  intros Hk Hi (Hs & Hd & Hlen) Hrow Hdeg. split; [|split]; simpl; [..|by rewrite length_insert].
  - intros k' Hk'. unfold succs. rewrite filter_app, fmap_app, filter_cons, filter_nil. simpl.
    rewrite Hs in Hrow by done. simplify_eq. destruct (decide (k = k')) as [->|]; simpl.
    + rewrite list_lookup_insert_eq; [done|]. by eapply lookup_lt_Some, Hs.
    + rewrite list_lookup_insert_ne by done. by rewrite app_nil_r, Hs.
  - intros i' Hi'. unfold rem. rewrite filter_app, length_app, filter_cons, filter_nil. simpl.
    rewrite Hd in Hdeg by done. simplify_eq. destruct (decide (i = i')) as [->|].
    + rewrite decide_True by (split; [done|apply not_elem_of_nil]).
      rewrite list_lookup_insert_eq by done. simpl. unfold rem. by rewrite Nat.add_1_r.
    + rewrite decide_False by naive_solver. rewrite list_lookup_insert_ne by done.
      by rewrite Nat.add_0_r, Hd.
Qed.

Section Build.
Context {R : Type}.
Implicit Types (skills : list (SkillMetadata R)) (idx : gmap string nat).

Definition in_edges idx (i : nat) (deps : list string) : list (nat * nat) :=
  (fun k => (k, i)) <$> omap (fun d => idx !! d) deps.

Fixpoint edges idx (i : nat) (skills : list (SkillMetadata R)) : list (nat * nat) :=
  match skills with
  | [] => []
  | s :: rest => in_edges idx i (depends s) ++ edges idx (S i) rest
  end.

Definition bounded_map (n : nat) idx : Prop := forall d k, idx !! d = Some k -> k < n.

Lemma add_edges_spec n idx i deps : i < n -> bounded_map n idx ->
  (forall d, d ∈ deps -> is_Some (idx !! d)) ->
  forall E g, represents n E g ->
  exists g', add_edges idx i deps g = Some g' /\ represents n (E ++ in_edges idx i deps) g'.
Proof.
  intros Hi Hidx. induction deps as [|d deps IH]; intros Hdef E g Hg; simpl.
  - exists g. unfold in_edges. simpl. by rewrite app_nil_r.
  - destruct (Hdef d) as [k Hk]; [left|]. rewrite Hk. simpl.
    pose proof Hg as (Hs & Hd & _). pose proof (Hidx d k Hk) as Hkn.
    rewrite (Hs k Hkn), (Hd i Hi). simpl.
    destruct (IH (fun d H => Hdef d (list_elem_of_further _ _ _ H)) (E ++ [(k, i)])
      (<[k := succs E k ++ [i]]> g.1, <[i := S (rem E [] i)]> g.2)) as (g' & E' & Hg').
    { apply represents_snoc; auto. }
    exists g'. rewrite E'. split; [done|]. unfold in_edges. simpl. rewrite Hk. simpl.
    by rewrite <- (assoc_L (++)) in Hg'.
Qed.

Lemma build_graph_spec n idx : bounded_map n idx ->
  forall skills i E g, i + length skills <= n -> represents n E g ->
  (forall s d, s ∈ skills -> d ∈ depends s -> is_Some (idx !! d)) ->
  exists g', build_graph idx i skills g = Some g' /\ represents n (E ++ edges idx i skills) g'.
Proof.
  intros Hidx. induction skills as [|s skills IH]; intros i E g Hn Hg Hdef; simpl in *.
  - exists g. by rewrite app_nil_r.
  - destruct (add_edges_spec n idx i (depends s)) with (E := E) (g := g) as (g1 & -> & Hg1);
      [lia|done|intros d Hd; apply (Hdef s d); [left|done]|done|].
    destruct (IH (S i) _ g1 ltac:(lia) Hg1) as (g2 & E2 & Hg2).
    { intros s' d Hs'. apply Hdef. by right. }
    exists g2. simpl. rewrite E2. by rewrite <- (assoc_L (++)) in Hg2.
Qed.

Lemma elem_of_edges idx skills : forall i0 k i,
  (k, i) ∈ edges idx i0 skills <->
  exists j s d, i = i0 + j /\ skills !! j = Some s /\ d ∈ depends s /\ idx !! d = Some k.
Proof.
  induction skills as [|s skills IH]; intros i0 k i; simpl.
  - rewrite elem_of_nil. split; [done|]. by intros ([] & s & d & _ & ? & _).
  - unfold in_edges. rewrite elem_of_app, list_elem_of_fmap, IH. split.
    + intros [(k' & [= -> ->] & (d & Hd & Hk)%list_elem_of_omap)|(j & s' & d & -> & H)].
      * exists 0, s, d. by rewrite Nat.add_0_r.
      * exists (S j), s', d. split; [lia|done].
    + intros ([|j] & s' & d & -> & Hs & Hd & Hk); simpl in Hs.
      * left. simplify_eq. exists k. rewrite Nat.add_0_r. split; [done|]. apply list_elem_of_omap. by exists d.
      * right. exists j, s', d. split; [lia|done].
Qed.

(** ** Validation *)

Lemma missing_in_spec idx x deps :
  match missing_in idx x deps with
  | None => forall d, d ∈ deps -> is_Some (idx !! d)
  | Some e => exists d, d ∈ deps /\ idx !! d = None /\ e = MissingDependency x d
  end.
Proof.
  induction deps as [|d deps IH]; simpl; [by intros d ?%elem_of_nil|].
  destruct (idx !! d) eqn:E.
  - destruct (missing_in idx x deps) as [e|].
    + destruct IH as (d' & ? & ?). exists d'. split; [by right|done].
    + intros d' [->|?]%elem_of_cons; eauto.
  - exists d. split; [left|done].
Qed.

Lemma first_missing_spec idx skills :
  match first_missing idx skills with
  | None => forall s d, s ∈ skills -> d ∈ depends s -> is_Some (idx !! d)
  | Some e => exists s d, s ∈ skills /\ d ∈ depends s /\ idx !! d = None /\
                e = MissingDependency (skill_name s) d
  end.
Proof.
  induction skills as [|s skills IH]; simpl; [by intros s d ?%elem_of_nil|].
  pose proof (missing_in_spec idx (skill_name s) (depends s)) as Hm.
  destruct (missing_in idx (skill_name s) (depends s)) as [e|].
  - destruct Hm as (d & ? & ?). exists s, d. split; [left|done].
  - destruct (first_missing idx skills) as [e|].
    + destruct IH as (s' & d & ? & ?). exists s', d. split; [by right|done].
    + intros s' d [->|?]%elem_of_cons; eauto.
Qed.

End Build.

(** ** The cycle search *)

Section Cycle.
Context {R : Type} (skills : list (SkillMetadata R)).

Local Abbreviation idx := (name_to_idx skills).
Local Abbreviation E := (edges idx 0 skills).
Local Abbreviation n := (length skills).

(** [dep_on a b]: the skill at [a] depends on the one at [b]. *)
Definition dep_on (a b : nat) : Prop := (b, a) ∈ E.

Definition name_at (i : nat) : string := default "" (skill_name <$> skills !! i).

Lemma dep_on_spec a b :
  dep_on a b <-> exists s d, skills !! a = Some s /\ d ∈ depends s /\ idx !! d = Some b.
Proof.
  unfold dep_on. rewrite elem_of_edges. split.
  - intros (j & s & d & -> & H). by exists s, d.
  - intros (s & d & H). by exists a, s, d.
Qed.

Lemma bounded_idx : bounded_map n idx.
Proof. intros d k (s & Hk & _)%name_to_idx_Some. by eapply lookup_lt_Some. Qed.

Lemma bounded_edges : bounded n E.
Proof.
  intros k i (s & d & Hs & _ & Hk)%dep_on_spec. split; [by eapply bounded_idx|by eapply lookup_lt_Some].
Qed.

(** A target of an edge is the skill its name stands for. *)
Lemma idx_name_at a b : dep_on a b -> idx !! name_at b = Some b.
Proof.
  intros (s & d & _ & _ & Hd)%dep_on_spec. pose proof Hd as (s' & Hs' & <-)%name_to_idx_Some.
  unfold name_at. by rewrite Hs'.
Qed.

Lemma dep_on_needs a b : idx !! name_at a = Some a -> dep_on a b -> needs skills (name_at a) (name_at b).
Proof.
  intros Ha (s & d & Hs & Hd & Hb)%dep_on_spec. exists s. split; [by eapply name_to_skill_idx|].
  apply name_to_idx_Some in Hb as (s' & Hs' & <-). unfold name_at. by rewrite Hs'.
Qed.

Lemma cycle_names c : is_cycle dep_on c -> is_cycle (needs skills) (name_at <$> c).
Proof.
  intros (Hlen & Hw & x & Hh & Hl). split; [by rewrite length_fmap|].
  assert (Htarget : forall i a, c !! i = Some a -> idx !! name_at a = Some a).
  { assert (Hpos : forall i a, c !! S i = Some a -> idx !! name_at a = Some a).
    { intros i a Ha. destruct (c !! i) as [b|] eqn:Hb.
      - by eapply idx_name_at, Hw.
      - apply lookup_lt_Some in Ha. apply lookup_ge_None in Hb. lia. }
    intros [|i] a Ha; [|by eapply Hpos]. rewrite <- head_lookup in Ha.
    rewrite last_lookup in Hl. replace (pred (length c)) with (S (length c - 2)) in Hl by lia.
    apply (Hpos (length c - 2)). congruence. }
  split.
  - intros i a b. rewrite !list_lookup_fmap.
    destruct (c !! i) as [u|] eqn:Hu; [|done]. destruct (c !! S i) as [v|] eqn:Hv; [|done].
    intros [= <-] [= <-]. apply dep_on_needs; [by eapply Htarget|by eapply Hw].
  - exists (name_at x). rewrite fmap_last, Hl. by destruct c; simplify_eq/=.
Qed.

(** The depth-first search with path [P] and finished nodes [B]. *)
Record dfs_inv (P B : list nat) (st : dfs) : Prop := {
  d_color : length (color st) = n;
  d_parent : length (parent st) = n;
  d_nodup : NoDup P;
  d_bound i : i ∈ P -> i < n;
  d_gray i : color st !! i = Some 1 <-> i ∈ P;
  d_black i : color st !! i = Some 2 <-> i ∈ B;
  d_colors i c : color st !! i = Some c -> c <= 2;
  d_walk : walk dep_on P;
  d_parents : walk (fun a b => parent st !! b = Some (Some a)) P;
  d_topo : topo E B;
}.

Lemma backtrack_spec st dep : forall mid fuel acc cur,
  NoDup (dep :: mid) -> walk (fun a b => parent st !! b = Some (Some a)) (dep :: mid) ->
  (forall i, i ∈ mid -> i < n) -> length mid <= fuel -> last (dep :: mid) = Some cur ->
  backtrack skills fuel st dep cur acc = Some (acc ++ reverse (name_at <$> mid)).
Proof.
  induction mid as [|x mid IH] using rev_ind; intros fuel acc cur Hnd Hw Hb Hf Hl.
  - injection Hl as <-. destruct fuel; simpl; rewrite bool_decide_true by done; by rewrite app_nil_r.
  - rewrite app_comm_cons, last_snoc in Hl. injection Hl as <-.
    rewrite app_comm_cons in Hnd. pose proof Hnd as (Hnd' & Hx & _)%NoDup_app.
    assert (x <> dep) by (intros ->; eapply Hx; [left|by left]).
    rewrite length_app in Hf. simpl in Hf. destruct fuel as [|fuel]; [lia|]. simpl.
    rewrite bool_decide_false by done.
    destruct (lookup_lt_is_Some_2 skills x) as [s Hs]; [apply Hb; set_solver|]. rewrite Hs. simpl.
    destruct (last (dep :: mid)) as [y|] eqn:Hy; [|by apply last_None in Hy].
    pose proof Hy as (l & Hl)%last_Some. rewrite app_comm_cons, Hl in Hw.
    rewrite <- (assoc_L (++)) in Hw. pose proof (walk_mid _ _ _ _ _ Hw) as Hp. rewrite Hp. simpl.
    rewrite (IH fuel _ y); [|done| |intros i Hi; apply Hb; set_solver|lia|done].
    + assert (name_at x = skill_name s) as <- by (unfold name_at; by rewrite Hs).
      by rewrite fmap_app, reverse_app, <- (assoc_L (++)).
    + rewrite Hl. rewrite (assoc_L (++) l [y] [x]) in Hw. by eapply walk_app_l.
Qed.

(** The path from a node on it to its end closes into a cycle of names. *)
Lemma report_cycle pre dep mid node B st :
  dfs_inv (pre ++ dep :: mid) B st -> last (dep :: mid) = Some node -> dep_on node dep ->
  exists cycle s, skills !! dep = Some s /\
    backtrack skills n st dep node [skill_name s] = Some cycle /\
    is_cycle (needs skills) (reverse (cycle ++ [skill_name s])).
Proof.
  intros [_ _ Hnd Hb _ _ _ Hw Hp _] Hl Hdep.
  apply NoDup_app in Hnd as (_ & _ & Hnd). apply walk_app_r in Hw, Hp.
  assert (Hlen : length (dep :: mid) <= n)
    by (apply nodup_bounded_length; [done|]; intros i Hi; apply Hb, elem_of_app; by right).
  destruct (lookup_lt_is_Some_2 skills dep) as [s Hs].
  { apply Hb, elem_of_app. right. left. }
  assert (Hn : skill_name s = name_at dep) by (unfold name_at; by rewrite Hs).
  exists (skill_name s :: reverse (name_at <$> mid)), s. split; [done|]. split.
  - apply (backtrack_spec st dep mid n [skill_name s]); try done; [|simpl in Hlen; lia].
    intros i Hi. apply Hb, elem_of_app. right. by right.
  - rewrite Hn. replace (reverse _) with (name_at <$> (dep :: mid ++ [dep])).
    2: { rewrite reverse_snoc, reverse_cons, reverse_involutive. simpl. by rewrite fmap_app. }
    apply cycle_names. split; [simpl; rewrite length_app; simpl; lia|]. split.
    + apply last_Some in Hl as [l Hl]. rewrite app_comm_cons, Hl, <- (assoc_L (++)). simpl.
      apply walk_snoc; [by rewrite <- Hl|done].
    + exists dep. split; [done|]. by rewrite app_comm_cons, last_snoc.
Qed.

(** Entering a node, and leaving it once its dependencies are finished. *)
Lemma dfs_enter P B st node s :
  dfs_inv P B st -> color st !! node = Some 0 -> skills !! node = Some s ->
  (forall p, last P = Some p -> dep_on p node /\ parent st !! node = Some (Some p)) ->
  dfs_inv (P ++ [node]) B (set_color node 1 st).
Proof.
  intros [Hc Hp Hnd Hb Hg Hbl Hcs Hw Hps Ht] H0 Hs Hlast.
  assert (HnP : node ∉ P) by (rewrite <- Hg; congruence).
  assert (Hlt : node < n) by (by eapply lookup_lt_Some).
  assert (Hext : forall r, walk r P -> (forall p, last P = Some p -> r p node) -> walk r (P ++ [node])).
  { intros r Hr Hx. destruct P as [|p P' _] using rev_ind; [apply walk_singleton|].
    rewrite <- (assoc_L (++)). apply walk_snoc; [done|]. apply Hx, last_snoc. }
  split; simpl; rewrite ?length_insert; try done.
  - apply NoDup_app. split; [done|]. split; [|apply NoDup_singleton].
    by intros i Hi ->%list_elem_of_singleton.
  - intros i [?| ->%list_elem_of_singleton]%elem_of_app; auto.
  - intros i. rewrite elem_of_app, list_elem_of_singleton, <- Hg.
    destruct (decide (i = node)) as [->|Hi].
    + rewrite list_lookup_insert_eq by lia. naive_solver.
    + rewrite list_lookup_insert_ne by done. naive_solver.
  - intros i. rewrite <- Hbl. destruct (decide (i = node)) as [->|Hi].
    + rewrite list_lookup_insert_eq by lia. naive_solver congruence.
    + by rewrite list_lookup_insert_ne.
  - intros i c. destruct (decide (i = node)) as [->|Hi].
    + rewrite list_lookup_insert_eq by lia. intros [= <-]. lia.
    + rewrite list_lookup_insert_ne by done. apply Hcs.
  - apply Hext; [done|]. intros p Hl. by apply Hlast.
  - apply Hext; [done|]. intros p Hl. by apply Hlast.
Qed.

Lemma dfs_leave P B st node :
  dfs_inv (P ++ [node]) B st -> (forall k, dep_on node k -> k ∈ B) ->
  dfs_inv P (B ++ [node]) (set_color node 2 st).
Proof.
  intros [Hc Hp Hnd Hb Hg Hbl Hcs Hw Hps Ht] Hdone.
  assert (Hlt : node < n) by (apply Hb, elem_of_app; right; left).
  apply NoDup_app in Hnd as (Hnd & Hdis & _).
  assert (HnP : node ∉ P) by (intros HP; eapply Hdis; [done|left]).
  split; simpl; rewrite ?length_insert; try done.
  - intros i Hi. apply Hb, elem_of_app. by left.
  - intros i. destruct (decide (i = node)) as [->|Hi].
    + rewrite list_lookup_insert_eq by lia. naive_solver.
    + rewrite list_lookup_insert_ne, Hg, elem_of_app, list_elem_of_singleton by done. naive_solver.
  - intros i. rewrite elem_of_app, list_elem_of_singleton, <- Hbl.
    destruct (decide (i = node)) as [->|Hi].
    + rewrite list_lookup_insert_eq by lia. naive_solver.
    + rewrite list_lookup_insert_ne by done. naive_solver.
  - intros i c. destruct (decide (i = node)) as [->|Hi].
    + rewrite list_lookup_insert_eq by lia. intros [= <-]. lia.
    + rewrite list_lookup_insert_ne by done. apply Hcs.
  - by eapply walk_app_l.
  - by eapply walk_app_l.
  - by apply topo_snoc.
Qed.

(** What a call that starts at [node] with path [P] does: it reports a cycle, or
    finishes the node and leaves the path as it was. *)
Definition dfs_done (P B : list nat) (node : nat) (r : option (option (list string) * dfs)) : Prop :=
  exists found st', r = Some (found, st') /\
    match found with
    | Some cycle => is_cycle (needs skills) cycle
    | None => exists B', B ⊆ B' /\ node ∈ B' /\ dfs_inv P B' st'
    end.

(** Stepping to an unvisited dependency records the parent. *)
Lemma dfs_link P B st node dep :
  dfs_inv P B st -> last P = Some node -> dep_on node dep -> dep ∉ P -> dep < n ->
  dfs_inv P B (set_parent dep node st) /\
  (forall p, last P = Some p -> dep_on p dep /\ parent (set_parent dep node st) !! dep = Some (Some p)).
Proof.
  intros [Hc Hp Hnd Hb Hg Hbl Hcs Hw Hps Ht] Hl Hdep HnP Hlt. split.
  - split; simpl; rewrite ?length_insert; try done.
    intros i a b Ha Hb'. rewrite list_lookup_insert_ne; [by eapply Hps|].
    intros ->. apply HnP. by eapply list_elem_of_lookup_2.
  - intros p Hp'. simplify_eq. split; [done|]. simpl. by rewrite list_lookup_insert_eq by lia.
Qed.

Lemma scan_deps_spec visit P node :
  (forall dep B st, dep < n -> color st !! dep = Some 0 -> dfs_inv (P ++ [node]) B st ->
     (forall p, last (P ++ [node]) = Some p -> dep_on p dep /\ parent st !! dep = Some (Some p)) ->
     dfs_done (P ++ [node]) B dep (visit dep st)) ->
  forall deps B st, dfs_inv (P ++ [node]) B st ->
  (forall d k, d ∈ deps -> idx !! d = Some k -> dep_on node k) ->
  (forall k, dep_on node k -> k ∈ B \/ exists d, d ∈ deps /\ idx !! d = Some k) ->
  dfs_done P B node (scan_deps skills idx visit node deps st).
Proof.
  intros Hvisit. induction deps as [|d deps IH]; intros B st Hinv Hsound Hall.
  { exists None, (set_color node 2 st). split; [done|]. exists (B ++ [node]). split; [set_solver|].
    split; [set_solver|]. apply dfs_leave; [done|]. intros k Hk.
    destruct (Hall k Hk) as [?|(d & Hd & _)]; [done|by apply elem_of_nil in Hd]. }
  assert (Hskip : forall B' st', B ⊆ B' -> dfs_inv (P ++ [node]) B' st' ->
            (forall k, idx !! d = Some k -> k ∈ B') ->
            dfs_done P B node (scan_deps skills idx visit node deps st')).
  { intros B' st' HB Hinv' Hd. destruct (IH B' st' Hinv') as (found & st2 & E & H).
    - intros d' k Hd'. apply Hsound. by right.
    - intros k Hk. destruct (Hall k Hk) as [?|(d' & [->|?]%elem_of_cons & Hk')]; eauto.
    - exists found, st2. split; [done|]. destruct found; [done|].
      destruct H as (B2 & ? & ?). exists B2. split; [set_solver|done]. }
  simpl. destruct (idx !! d) as [k|] eqn:Hd; [|by apply (Hskip B)].
  assert (Hk : dep_on node k) by (by eapply Hsound; [left|]).
  pose proof (bounded_idx d k Hd) as Hlt.
  destruct (lookup_lt_is_Some_2 (color st) k) as [c Hc]; [by rewrite (d_color _ _ _ Hinv)|].
  rewrite Hc. simpl. case_bool_decide as Hc1; [|case_bool_decide as Hc0].
  - subst c. apply (d_gray _ _ _ Hinv) in Hc as (pre & mid & HP)%list_elem_of_split.
    rewrite HP in Hinv. destruct (report_cycle pre k mid node B st) as (cyc & s & Hs & Hbt & Hcyc); [done| |done|].
    { assert (Hl : last (P ++ [node]) = Some node) by apply last_snoc. rewrite HP in Hl.
      by rewrite last_app_cons in Hl. }
    rewrite Hs. simpl. rewrite Hbt. simpl. by eexists _, _.
  - subst c. destruct (dfs_link (P ++ [node]) B st node k) as [Hinv' Hpar];
      [done|apply last_snoc|done| |done|].
    { intros Hin%(d_gray _ _ _ Hinv). congruence. }
    destruct (Hvisit k B (set_parent k node st)) as (found & st' & -> & Hf); [done..|]. simpl.
    destruct found as [cyc|]; [by exists (Some cyc), st'|].
    destruct Hf as (B' & HB & HkB & Hinv2). apply (Hskip B'); [done..|]. intros k' [= <-]. done.
  - apply (Hskip B); [done..|]. intros k' [= <-]. apply (d_black _ _ _ Hinv). rewrite Hc. f_equal.
    pose proof (d_colors _ _ _ Hinv k c Hc). lia.
Qed.

Lemma dfs_spec : forall fuel P B node st,
  node < n -> color st !! node = Some 0 -> dfs_inv P B st ->
  (forall p, last P = Some p -> dep_on p node /\ parent st !! node = Some (Some p)) ->
  n < fuel + length P ->
  dfs_done P B node (dfs_find_cycle skills idx fuel node st).
Proof.
  induction fuel as [|fuel IH]; intros P B node st Hlt H0 Hinv Hlast Hf.
  { pose proof (nodup_bounded_length n P (d_nodup _ _ _ Hinv) (d_bound _ _ _ Hinv)). lia. }
  simpl. destruct (lookup_lt_is_Some_2 skills node Hlt) as [s Hs]. rewrite Hs. simpl.
  apply scan_deps_spec.
  - intros dep B' st' ?? Hinv' Hl'. apply IH; [done..|]. rewrite length_app. simpl. lia.
  - by eapply dfs_enter.
  - intros d k Hd Hk. apply dep_on_spec. by exists s, d.
  - intros k (s' & d & Hs' & Hd & Hk)%dep_on_spec. simplify_eq. right. by exists d.
Qed.

#[local] Arguments dfs_find_cycle : simpl never.

Lemma find_from_spec : forall starts B st,
  dfs_inv [] B st -> (forall i, i ∈ starts -> i < n) ->
  exists cycle, find_from skills idx starts st = Some cycle /\
    (is_cycle (needs skills) cycle \/
     exists B', B ⊆ B' /\ topo E B' /\ forall i, i ∈ starts -> i ∈ B').
Proof.
  induction starts as [|i starts IH]; intros B st Hinv Hb; simpl.
  { eexists. split; [done|]. right. exists B. split; [done|].
    split; [apply Hinv|by intros i ?%elem_of_nil]. }
  assert (Hb' : forall j, j ∈ starts -> j < n) by (intros j Hj; apply Hb; by right).
  assert (Hi : i < n) by (apply Hb; left).
  assert (Hnext : forall B' st', B ⊆ B' -> i ∈ B' -> dfs_inv [] B' st' ->
    exists cycle, find_from skills idx starts st' = Some cycle /\
    (is_cycle (needs skills) cycle \/
     exists B'', B ⊆ B'' /\ topo E B'' /\ forall j, j ∈ i :: starts -> j ∈ B'')).
  { intros B' st' HB HiB Hinv'. destruct (IH B' st' Hinv' Hb') as (c & Ec & [?|(B2 & ? & ? & H2)]).
    - exists c. split; [done|by left].
    - exists c. split; [done|]. right. exists B2. split; [set_solver|]. split; [done|].
      intros j [->|?]%elem_of_cons; [set_solver|by apply H2]. }
  destruct (lookup_lt_is_Some_2 (color st) i) as [c Hc]; [by rewrite (d_color _ _ _ Hinv)|].
  rewrite Hc. simpl. case_bool_decide as Hc0.
  - apply (Hnext B); [done| |done]. apply (d_black _ _ _ Hinv). rewrite Hc. f_equal.
    pose proof (d_colors _ _ _ Hinv i c Hc). enough (c <> 1) by lia. intros ->.
    apply (d_gray _ _ _ Hinv) in Hc. by apply elem_of_nil in Hc.
  - subst c.
    destruct (dfs_spec (S n) [] B i st) as (found & st' & -> & Hf); [done..|simpl; lia|]. simpl.
    destruct found as [cyc|]; [exists cyc; split; [done|by left]|].
    destruct Hf as (B' & ? & ? & ?). by apply (Hnext B').
Qed.

Lemma find_cycle_spec :
  exists cycle, find_cycle skills idx = Some cycle /\
    (is_cycle (needs skills) cycle \/ exists B, topo E B /\ forall i, i < n -> i ∈ B).
Proof.
  destruct (find_from_spec (seq 0 n) [] (mkDfs (replicate n 0) (replicate n None)))
    as (c & Ec & Hc).
  - split; simpl; rewrite ?length_replicate; try done.
    + apply NoDup_nil_2.
    + by intros i ?%elem_of_nil.
    + intros i. rewrite elem_of_nil. split; [|done]. by intros [? _]%lookup_replicate.
    + intros i. rewrite elem_of_nil. split; [|done]. by intros [? _]%lookup_replicate.
    + intros i c [-> _]%lookup_replicate. lia.
    + by intros [] pre x.
  - intros i [_ Hi]%elem_of_seq. lia.
  - exists c. split; [done|]. destruct Hc as [?|(B & _ & Ht & Hall)]; [by left|]. right.
    exists B. split; [done|]. intros i Hi. apply Hall, elem_of_seq. lia.
Qed.

End Cycle.

(** ** The result *)

Section Resolve.
Context {R : Type}.
Implicit Types (skills ordered : list (SkillMetadata R)) (s : SkillMetadata R).

(** A sorted arrangement of [skills]: the dependencies of each come before it. *)
Definition dependency_order skills ordered : Prop :=
  ordered ≡ₚ skills /\
  forall pre s post d, ordered = pre ++ s :: post -> d ∈ depends s ->
    exists s', s' ∈ pre /\ name_to_skill skills !! d = Some s'.

Lemma omap_of_fmap {A B C} (g : B -> option C) (f : A -> B) (l : list A) :
  omap g (f <$> l) = omap (fun x => g (f x)) l.
Proof. induction l as [|x l IH]; [done|]. cbn. destruct (g (f x)); by rewrite <- IH. Qed.

Lemma omap_seq {A} (l : list A) : omap (fun i => l !! i) (seq 0 (length l)) = l.
Proof.
  induction l as [|x l IH]; [done|]. cbn [length seq]. rewrite <- fmap_S_seq. simpl. f_equal.
  rewrite omap_of_fmap. exact IH.
Qed.

Lemma mapM_omap {A B} (f : A -> option B) l k : mapM f l = Some k -> k = omap f l.
Proof. intros H%mapM_Some. induction H as [|x y l k Hx _ IH]; simpl; [done|]. by rewrite Hx, IH. Qed.

Lemma nodup_seq_perm n (l : list nat) :
  NoDup l -> (forall i, i ∈ l -> i < n) -> length l = n -> l ≡ₚ seq 0 n.
Proof.
  intros Hnd Hb Hl. apply submseteq_length_Permutation; [|by rewrite length_seq, Hl].
  apply NoDup_submseteq; [done|]. intros i Hi. apply elem_of_seq. specialize (Hb i Hi). lia.
Qed.

Lemma full_length n (l : list nat) :
  NoDup l -> (forall i, i ∈ l -> i < n) -> (forall i, i < n -> i ∈ l) -> length l = n.
Proof.
  intros Hnd Hb Hall. rewrite <- (length_seq n 0) at 1. apply Permutation_length, NoDup_Permutation;
    [done|apply NoDup_seq|]. intros i. rewrite elem_of_seq. split; [intros; split; [lia|by apply Hb]|].
  intros [_ ?]. by apply Hall.
Qed.

Lemma closed_idx skills :
  closed skills <-> forall s d, s ∈ skills -> d ∈ depends s -> is_Some (name_to_idx skills !! d).
Proof.
  split; intros H s d Hs Hd; specialize (H s d Hs Hd).
  - destruct (name_to_idx skills !! d) eqn:E; [done|]. by apply name_to_idx_None in E.
  - destruct (decide (d ∈ skill_name <$> skills)) as [|Hn]; [done|].
    apply name_to_idx_None in Hn. rewrite Hn in H. by destruct H.
Qed.

(** A full order on the indices sorts the skills. *)
Lemma sorted_order skills out ordered :
  closed skills -> topo (edges (name_to_idx skills) 0 skills) out -> out ≡ₚ seq 0 (length skills) ->
  mapM (fun i => skills !! i) out = Some ordered -> dependency_order skills ordered.
Proof.
  intros Hcl Ht Hperm Hm. split.
  - rewrite (mapM_omap _ _ _ Hm), Hperm. by rewrite omap_seq.
  - intros pre s post d -> Hd. apply mapM_Some in Hm.
    apply Forall2_app_inv_r in Hm as (out1 & out2 & Hpre & Hrest & ->).
    apply Forall2_cons_inv_r in Hrest as (i & out3 & Hi & _ & ->).
    pose proof (proj1 (closed_idx skills) Hcl) as Hdef. destruct (Hdef s d) as [k Hk]; [by eapply list_elem_of_lookup_2|done|].
    assert (Hin : k ∈ out1) by (eapply Ht; [done|]; apply (dep_on_spec skills i k); by exists s, d).
    apply list_elem_of_lookup in Hin as [j Hj].
    destruct (Forall2_lookup_l _ _ _ _ _ Hpre Hj) as (s' & Hs' & Hks').
    exists s'. split; [by eapply list_elem_of_lookup_2|]. by eapply name_to_skill_idx.
Qed.

(** A full order leaves no room for a cycle. *)
Lemma topo_before E out j j' i k :
  NoDup out -> topo E out -> out !! j = Some i -> out !! j' = Some k -> (k, i) ∈ E -> j' < j.
Proof.
  intros Hnd Ht Hi Hk He. pose proof (take_drop_middle out j i Hi) as Hsplit.
  pose proof (Ht _ _ _ (eq_sym Hsplit) k He) as Hin.
  apply list_elem_of_lookup in Hin as [j2 Hj2]. pose proof Hj2 as Hlt%lookup_lt_Some.
  rewrite length_take in Hlt. rewrite lookup_take_lt in Hj2 by lia.
  rewrite (NoDup_lookup out j' j2 k) by done. lia.
Qed.

Lemma topo_acyclic skills out :
  closed skills -> NoDup out -> topo (edges (name_to_idx skills) 0 skills) out ->
  (forall i, i < length skills -> i ∈ out) ->
  forall x, ~ tc (needs skills) x x.
Proof.
  intros Hcl Hnd Ht Hall.
  assert (Hidx : forall x y, needs skills x y -> exists i k, name_to_idx skills !! x = Some i /\
    name_to_idx skills !! y = Some k /\ (k, i) ∈ edges (name_to_idx skills) 0 skills).
  { intros x y (s & Hs & Hy). pose proof (name_maps skills x) as Hx. rewrite Hs in Hx. simpl in Hx.
    destruct (name_to_idx skills !! x) as [i|] eqn:Ei; simplify_eq/=.
    pose proof (proj1 (closed_idx skills) Hcl) as Hdef. destruct (Hdef s y) as [k Hk]; [by eapply list_elem_of_lookup_2|done|].
    exists i, k. split_and!; [done..|]. apply (dep_on_spec skills i k). by exists s, y. }
  assert (Hpos : forall x y, tc (needs skills) x y -> forall i k j j',
    name_to_idx skills !! x = Some i -> name_to_idx skills !! y = Some k ->
    out !! j = Some i -> out !! j' = Some k -> j' < j).
  { intros x y H. induction H as [x y Hxy|x y z Hxy _ IH]; intros i k j j' Hx Hz Hj Hj';
      destruct (Hidx _ _ Hxy) as (i' & k' & Hi' & Hk' & He); simplify_eq.
    - by eapply topo_before.
    - pose proof Hk' as (s & Hs%lookup_lt_Some & _)%name_to_idx_Some.
      apply Hall, list_elem_of_lookup in Hs as [j2 Hj2].
      pose proof (topo_before _ _ _ _ _ _ Hnd Ht Hj Hj2 He).
      pose proof (IH _ _ _ _ Hk' Hz Hj2 Hj'). lia. }
  intros x Hx. assert (exists y, needs skills x y) as [y Hxy] by (inv Hx; by eexists).
  destruct (Hidx _ _ Hxy) as (i & _ & Hi & _).
  pose proof Hi as (s & Hs%lookup_lt_Some & _)%name_to_idx_Some.
  apply Hall, list_elem_of_lookup in Hs as [j Hj].
  pose proof (Hpos _ _ Hx _ _ _ _ Hi Hi Hj Hj). lia.
Qed.

(** Full validation lists every undeclared dependency; resolution reports the first. *)
Lemma elem_of_names skills d : d ∈ names skills <-> d ∈ skill_name <$> skills.
Proof. apply elem_of_list_to_set. Qed.

Lemma validate_spec skills e :
  e ∈ validate_dependencies skills <->
  exists s d, s ∈ skills /\ d ∈ depends s /\ (d ∉ skill_name <$> skills) /\
    e = MissingDependency (skill_name s) d.
Proof.
  unfold validate_dependencies. rewrite list_elem_of_In, in_flat_map.
  setoid_rewrite in_flat_map. setoid_rewrite <- list_elem_of_In.
  setoid_rewrite <- (elem_of_names skills). split.
  - intros (s & Hs & d & Hd & H). case_bool_decide; [by apply elem_of_nil in H|].
    apply list_elem_of_singleton in H. by exists s, d.
  - intros (s & d & Hs & Hd & Hn & ->). exists s. split; [done|]. exists d. split; [done|].
    rewrite bool_decide_false by done. by left.
Qed.

Lemma first_missing_validate skills :
  first_missing (name_to_idx skills) skills = head (validate_dependencies skills).
Proof.
  unfold validate_dependencies. set (ns := names skills).
  assert (Hin : forall x deps rest, head (flat_map (fun dep =>
    if bool_decide (dep ∈ ns) then [] else [MissingDependency x dep]) deps ++ rest) =
    match missing_in (name_to_idx skills) x deps with Some e => Some e | None => head rest end).
  { intros x deps rest. induction deps as [|d deps IH]; [done|]. simpl.
    pose proof (name_to_idx_None skills d) as Hn. rewrite <- elem_of_names in Hn. fold ns in Hn.
    case_bool_decide; destruct (name_to_idx skills !! d); naive_solver. }
  clearbody ns. generalize (name_to_idx skills) Hin. clear Hin. intros idx Hin.
  induction skills as [|s l IH]; [done|]. simpl. by rewrite Hin, IH.
Qed.

Lemma validate_closed skills : validate_dependencies skills = [] <-> closed skills.
Proof.
  split.
  - intros Hnil s d Hs Hd. destruct (decide (d ∈ skill_name <$> skills)) as [|Hn]; [done|].
    assert (H : MissingDependency (skill_name s) d ∈ validate_dependencies skills)
      by (apply validate_spec; by exists s, d).
    rewrite Hnil in H. by apply elem_of_nil in H.
  - intros Hcl. apply elem_of_nil_inv. intros e (s & d & Hs & Hd & Hn & _)%validate_spec.
    by apply Hn, (Hcl s).
Qed.

(** What the code computes, before the cases are told apart. *)
Lemma resolve_cases skills :
  (exists ordered, resolve_dependencies skills = Some (Ok ordered) /\ closed skills /\
     dependency_order skills ordered /\ forall x, ~ tc (needs skills) x x) \/
  (exists s d, resolve_dependencies skills = Some (Err (MissingDependency (skill_name s) d)) /\
     head (validate_dependencies skills) = Some (MissingDependency (skill_name s) d) /\
     s ∈ skills /\ d ∈ depends s /\ d ∉ skill_name <$> skills) \/
  (exists cycle, resolve_dependencies skills = Some (Err (CyclicDependency cycle)) /\
     closed skills /\ is_cycle (needs skills) cycle).
Proof.
  unfold resolve_dependencies. case_bool_decide as Hnil.
  { subst. left. exists []. split; [done|]. split; [by intros s d ?%elem_of_nil|]. split.
    - split; [done|]. by intros [].
    - intros x Hx. assert (exists y, needs (R := R) [] x y) as (y & s & Hs & _) by (inv Hx; by eexists). done. }
  pose proof (first_missing_spec (name_to_idx skills) skills) as Hmiss.
  pose proof (first_missing_validate skills) as Hhead.
  destruct (first_missing _ skills) as [e|].
  { destruct Hmiss as (s & d & Hs & Hd & Hn & ->). right. left. exists s, d.
    by rewrite name_to_idx_None in Hn. }
  pose proof (proj2 (closed_idx skills) Hmiss) as Hcl. set (n := length skills).
  destruct (build_graph_spec n (name_to_idx skills) (bounded_idx skills) skills 0 []
    (replicate n [], replicate n 0)) as ([adj deg] & -> & Hadj & Hdeg & Hlen); [done| |done|].
  { split; [|split]; simpl; [..|apply length_replicate]; intros i Hi; by rewrite lookup_replicate_2. }
  cbn [app fst snd] in *. simpl. set (E := edges (name_to_idx skills) 0 skills) in *.
  destruct (kahn_spec n E adj (bounded_edges skills) Hadj n deg (initial_queue deg) [])
    as (out & -> & Ht & Hnd & Hb & Hsat).
  { apply kahn_start; done. }
  { by intros []. }
  { simpl. lia. }
  simpl. case_bool_decide as Hlen'.
  - right. right. destruct (find_cycle_spec skills) as (cycle & -> & Hc). exists cycle. split; [done|].
    split; [done|]. destruct Hc as [?|(B & HtB & HB)]; [done|]. destruct Hlen'.
    apply full_length; [done..|]. intros i Hi.
    eapply topo_saturated; [apply (bounded_edges skills)|done|done|by apply HB|done].
  - left.
    assert (Hperm : out ≡ₚ seq 0 n) by (by apply nodup_seq_perm).
    destruct (mapM (fun i => skills !! i) out) as [ordered|] eqn:Hm; simpl.
    + exists ordered. split; [done|]. split; [done|]. split; [by eapply sorted_order|].
      eapply topo_acyclic; [done..|]. intros i Hi. rewrite Hperm. apply elem_of_seq. lia.
    + assert (Hs : is_Some (mapM (fun i => skills !! i) out)); [|by rewrite Hm in Hs; destruct Hs].
      apply mapM_is_Some, Forall_forall. intros i Hi. by apply lookup_lt_is_Some, Hb.
Qed.

(** C37: resolution always returns.  It succeeds exactly when full validation finds
    nothing and no skill needs itself, directly or through others; the result is
    then a rearrangement of the input in which the skill that each dependency
    stands for comes earlier.  Otherwise it reports the first finding of full
    validation, a declared dependency that no skill of the set provides, or, when
    there is none, a closed walk of actual dependencies. *)
Theorem resolve_exact skills :
  match resolve_dependencies skills with
  | Some (Ok ordered) => dependency_order skills ordered
  | Some (Err (MissingDependency x d)) =>
      head (validate_dependencies skills) = Some (MissingDependency x d) /\
      exists s, s ∈ skills /\ skill_name s = x /\ d ∈ depends s /\ d ∉ skill_name <$> skills
  | Some (Err (CyclicDependency cycle)) => closed skills /\ is_cycle (needs skills) cycle
  | Some (Err (SkippedDirectories _)) | None => False
  end /\
  ((exists ordered, resolve_dependencies skills = Some (Ok ordered)) <->
   validate_dependencies skills = [] /\ forall x, ~ tc (needs skills) x x).
Proof.
  rewrite validate_closed. destruct (resolve_cases skills) as
    [(ordered & -> & Hcl & Ho & Hac)|[(s & d & -> & Hhd & Hs & Hd & Hn)|(cycle & -> & Hcl & Hc)]].
  - split; [done|]. split; [done|]. by exists ordered.
  - split; [split; [done|by exists s]|]. split; [by intros []|]. intros [Hcl _]. by destruct (Hn (Hcl s d Hs Hd)).
  - split; [done|]. split; [by intros []|]. intros [_ Hac].
    apply is_cycle_tc in Hc as (x & _ & Hx). by destruct (Hac x).
Qed.

End Resolve.
