(* ===== verification/ResolverExpand.v ===== *)
(** The transitive dependencies of one skill: [expand_transitive_dependencies]
    computes exactly the reachable names, or reports a real defect of the part of
    the graph that it reaches ([expand_exact]). *)

From S2P Require Import Prelude Resolver.

Section Expand.
Context {R : Type} (skills : list (SkillMetadata R)).

Local Abbreviation by_name := (name_to_skill skills).
Local Abbreviation needs := (needs skills).

(** ** The state of the depth-first search *)

(** The path leads from the queried skill [root] along dependencies; a visited
    skill has all its dependencies visited and listed, and needs itself not. *)
Record expand_inv (root : string) (P : list string) (V : gset string) (out : list string) : Prop := {
  x_nodup : NoDup P;
  x_keys p : p ∈ P -> is_Some (by_name !! p);
  x_walk : walk needs P;
  x_root p : p ∈ P -> rtc needs root p;
  x_apart p : p ∈ P -> p ∉ V;
  x_done v : v ∈ V -> is_Some (by_name !! v) /\ ~ tc needs v v /\
    forall y, needs v y -> y ∈ V /\ y ∈ out;
  x_out : NoDup out;
  x_reach y : y ∈ out -> tc needs root y;
}.

(** An error names a defect that the queried skill reaches. *)
Definition real_defect (root : string) (e : ResolveError) : Prop :=
  match e with
  | MissingDependency x d => rtc needs root x /\ needs x d /\ d ∉ skill_name <$> skills
  | CyclicDependency c => is_cycle needs c /\ exists x, head c = Some x /\ rtc needs root x
  | SkippedDirectories _ => False
  end.

(** A call for [x] on path [P]: an error is a real defect; otherwise [x] is
    visited, nothing is forgotten, and the path is the one of the caller. *)
Definition expand_done (root x : string) (P : list string) (st : expansion)
    (r : option (result ResolveError expansion)) : Prop :=
  match r with
  | None => False
  | Some (Err e) => real_defect root e
  | Some (Ok st') => path st' = P /\ x ∈ visited st' /\ visited st ⊆ visited st' /\
      expanded st ⊆ expanded st' /\ expand_inv root P (visited st') (expanded st')
  end.

Lemma keys_length (P : list string) :
  NoDup P -> (forall p, p ∈ P -> is_Some (by_name !! p)) -> length P <= size by_name.
Proof.
  intros Hnd Hk. rewrite <- (size_dom (D := gset string)), <- (size_list_to_set (C := gset string) P Hnd).
  apply subseteq_size. intros p. rewrite elem_of_list_to_set, elem_of_dom. apply Hk.
Qed.

Lemma visited_tc root P V out v y : expand_inv root P V out -> v ∈ V -> tc needs v y -> y ∈ V /\ y ∈ out.
Proof.
  intros Hinv Hv H. revert Hv. induction H as [v y Hvy|v z y Hvz _ IH]; intros Hv;
    destruct (x_done _ _ _ _ Hinv v Hv) as (_ & _ & Hd); [by apply Hd|]. apply IH. by apply Hd.
Qed.

Lemma x_enter root P V out x :
  expand_inv root P V out -> is_Some (by_name !! x) -> x ∉ P -> x ∉ V -> rtc needs root x ->
  (forall p, last P = Some p -> needs p x) -> expand_inv root (P ++ [x]) V out.
Proof.
  intros [Hnd Hk Hw Hroot Hap Hd Ho Hr] Hx HxP HxV Hreach Hlast.
  assert (Hin : forall p, p ∈ P ++ [x] -> p ∈ P \/ p = x)
    by (intros p; by rewrite elem_of_app, list_elem_of_singleton).
  split; try done.
  - apply NoDup_app. split; [done|]. split; [|apply NoDup_singleton]. by intros i Hi ->%list_elem_of_singleton.
  - by intros p [?| ->]%Hin; auto.
  - destruct P as [|p P' _] using rev_ind; [apply walk_singleton|].
    rewrite <- (assoc_L (++)). apply walk_snoc; [done|]. apply Hlast, last_snoc.
  - by intros p [?| ->]%Hin; auto.
  - by intros p [?| ->]%Hin; auto.
Qed.

Lemma x_leave root P V out x :
  expand_inv root (P ++ [x]) V out -> (forall y, needs x y -> y ∈ V /\ y ∈ out) ->
  expand_inv root P ({[x]} ∪ V) out.
Proof.
  intros Hinv Hx. pose proof Hinv as [Hnd Hk Hw Hroot Hap Hd Ho Hr].
  assert (HxV : x ∉ V) by (apply Hap, elem_of_app; right; left).
  assert (Hin : forall p, p ∈ P -> p ∈ P ++ [x]) by (intros; apply elem_of_app; by left).
  apply NoDup_app in Hnd as (Hnd & Hdis & _).
  split; auto.
  - by eapply walk_app_l.
  - intros p Hp. rewrite elem_of_union, elem_of_singleton. intros [->|HpV].
    + eapply Hdis; [done|left].
    + by eapply Hap; [apply Hin|].
  - intros v. rewrite elem_of_union, elem_of_singleton. intros [->|Hv].
    + split; [apply Hk, elem_of_app; right; left|]. split.
      * intros Htc. apply HxV. assert (exists z, needs x z /\ rtc needs z x) as (z & Hz & Hzx).
        { inv Htc; eexists; (split; [done|]); [done|by apply tc_rtc]. }
        destruct (Hx z Hz) as [HzV _]. apply rtc_tc in Hzx as [->|Hzx]; [done|].
        by eapply visited_tc.
      * intros y Hy. rewrite elem_of_union. destruct (Hx y Hy). auto.
    + destruct (Hd v Hv) as (? & ? & Hy). split_and!; [done..|]. intros y Hvy.
      rewrite elem_of_union. destruct (Hy y Hvy). auto.
Qed.

(** ** The two mutually recursive parts *)

Lemma expand_deps_spec root P x visit :
  (forall dep st, is_Some (by_name !! dep) -> needs x dep -> path st = P ++ [x] ->
     expand_inv root (P ++ [x]) (visited st) (expanded st) ->
     expand_done root dep (P ++ [x]) st (visit dep st)) ->
  rtc needs root x ->
  forall deps st, (forall d, d ∈ deps -> needs x d) -> path st = P ++ [x] ->
  expand_inv root (P ++ [x]) (visited st) (expanded st) ->
  match expand_deps by_name visit x deps st with
  | None => False
  | Some (Err e) => real_defect root e
  | Some (Ok st') => path st' = P ++ [x] /\ visited st ⊆ visited st' /\ expanded st ⊆ expanded st' /\
      (forall d, d ∈ deps -> d ∈ visited st' /\ d ∈ expanded st') /\
      expand_inv root (P ++ [x]) (visited st') (expanded st')
  end.
Proof.
  intros Hvisit Hroot. induction deps as [|d deps IH]; intros st Hdeps HP Hinv; simpl.
  { split_and!; try done. by intros d ?%elem_of_nil. }
  assert (Hd : needs x d) by (apply Hdeps; left).
  destruct (by_name !! d) as [s|] eqn:Es.
  2: { simpl. by apply name_to_skill_None in Es. }
  assert (Hv := Hvisit d st (mk_is_Some _ _ Es) Hd HP Hinv).
  destruct (visit d st) as [[st'|e]|]; simpl in *; [|done..].
  destruct Hv as (HP' & HdV & HV & Hout & Hinv').
  set (st2 := if bool_decide (d ∈ expanded st') then st'
              else mkExpansion (visited st') (path st') (expanded st' ++ [d])).
  assert (H2 : path st2 = P ++ [x] /\ visited st2 = visited st' /\ expanded st' ⊆ expanded st2 /\
    d ∈ expanded st2 /\ expand_inv root (P ++ [x]) (visited st2) (expanded st2)).
  { unfold st2. case_bool_decide as Hin; simpl; [done|]. split_and!; [done..|set_solver|set_solver|].
    destruct Hinv' as [Hnd Hk Hw Hr Hap Hdone Ho Hreach]. split; try done.
    - intros v Hv. destruct (Hdone v Hv) as (? & ? & Hy). split_and!; [done..|].
      intros y Hvy. destruct (Hy y Hvy). split; [done|]. apply elem_of_app. by left.
    - apply NoDup_app. split; [done|]. split; [|apply NoDup_singleton]. by intros i Hi ->%list_elem_of_singleton.
    - intros y [?| ->%list_elem_of_singleton]%elem_of_app; [auto|]. eapply tc_rtc_l; [done|by constructor]. }
  destruct H2 as (HP2 & HV2 & Hout2 & Hd2 & Hinv2).
  specialize (IH st2 (fun d H => Hdeps d (list_elem_of_further _ _ _ H)) HP2 Hinv2).
  destruct (expand_deps by_name visit x deps st2) as [[st3|e]|]; [|done..].
  destruct IH as (HP3 & HV3 & Hout3 & Hall & Hinv3).
  split; [done|]. split; [set_solver|]. split; [set_solver|]. split; [|done].
  intros d' [->|Hd']%elem_of_cons; [set_solver|by apply Hall].
Qed.

Lemma close_path P x pos :
  walk needs P -> (forall p, last P = Some p -> needs p x) -> P !! pos = Some x ->
  is_cycle needs (drop pos P ++ [x]).
Proof.
  intros Hw Hlast Hpos. pose proof (drop_S P x pos Hpos) as Hd. split; [|split].
  - rewrite Hd, length_app. simpl. lia.
  - apply (walk_drop _ pos) in Hw. destruct (last (drop pos P)) as [p|] eqn:Hl.
    2: { apply last_None in Hl. by rewrite Hd in Hl. }
    apply last_Some in Hl as [l Hl].
    assert (Hp : needs p x).
    { apply Hlast. rewrite <- (take_drop pos P), Hl, (assoc_L (++)). apply last_snoc. }
    rewrite Hl in *. rewrite <- (assoc_L (++)). by apply walk_snoc.
  - exists x. split; [by rewrite Hd|apply last_snoc].
Qed.

Lemma expand_dfs_spec root : forall fuel P x st,
  is_Some (by_name !! x) -> rtc needs root x -> (forall p, last P = Some p -> needs p x) ->
  path st = P -> expand_inv root P (visited st) (expanded st) -> size by_name < fuel + length P ->
  expand_done root x P st (expand_dfs by_name fuel x st).
Proof.
  induction fuel as [|fuel IH]; intros P x st Hx Hreach Hlast HP Hinv Hf.
  { pose proof (keys_length P (x_nodup _ _ _ _ Hinv) (x_keys _ _ _ _ Hinv)). lia. }
  simpl. case_bool_decide as HxV; [simpl; by split_and!|].
  destruct (list_find _ (path st)) as [[pos y]|] eqn:Hfind.
  { apply list_find_Some in Hfind as (Hpos & -> & _). rewrite HP in Hpos |- *. simpl. split.
    - apply close_path; [apply Hinv|done|done].
    - exists x. by rewrite (drop_S P x pos Hpos). }
  apply list_find_None in Hfind. rewrite Forall_forall, HP in Hfind.
  destruct Hx as [s Hs]. rewrite Hs.
  assert (Henter : expand_inv root (P ++ [x]) (visited st) (expanded st)).
  { apply x_enter; try done. intros Hin. by apply (Hfind x). }
  pose proof (expand_deps_spec root P x (expand_dfs by_name fuel)) as Hdeps.
  specialize (Hdeps ltac:(intros dep st1 ? Hdep HP1 Hinv1; apply IH;
    [done|by eapply rtc_r|by rewrite last_snoc; intros p [= <-]|done|done|rewrite length_app; simpl; lia])).
  specialize (Hdeps Hreach (depends s) (mkExpansion (visited st) (path st ++ [x]) (expanded st))).
  simpl in Hdeps. rewrite HP in *.
  specialize (Hdeps ltac:(intros d Hd; by exists s) eq_refl Henter).
  destruct (expand_deps _ _ _ _ _) as [[st'|e]|]; simpl; [|done..].
  destruct Hdeps as (HP' & HV & Hout & Hall & Hinv').
  split; [rewrite HP'; apply removelast_last|]. split; [set_solver|]. split; [set_solver|].
  split; [done|]. apply x_leave; [done|]. intros y (s' & Hs' & Hy). simplify_eq. by apply Hall.
Qed.

Lemma expand_start x : is_Some (by_name !! x) ->
  expand_done x x [] (mkExpansion ∅ [] []) (expand_dfs by_name (S (size by_name)) x (mkExpansion ∅ [] [])).
Proof.
  intros Hx. apply expand_dfs_spec; try done.
  - split; try done; simpl; try apply NoDup_nil_2; try (intros ? ?%elem_of_nil; done).
  - simpl. lia.
Qed.

End Expand.

Section Transitive.
Context {R : Type}.
Implicit Types skills : list (SkillMetadata R).

(** The expansion of a skill always returns.  On success it lists, without
    repetition, exactly the names the skill needs directly or through others; all
    of them are in the set, and none of them, nor the skill, needs itself.
    Otherwise the error is a dependency that a reached skill declares and no
    skill provides, or a closed walk of dependencies that starts at a reached
    skill. *)
Theorem expand_exact skills (x : string) :
  match expand_transitive_dependencies skills x with
  | Some (Ok l) => NoDup l /\ (forall y, y ∈ l <-> tc (needs skills) x y) /\
      (forall y, tc (needs skills) x y -> y ∈ skill_name <$> skills) /\
      (forall y, rtc (needs skills) x y -> ~ tc (needs skills) y y)
  | Some (Err (MissingDependency z d)) =>
      rtc (needs skills) x z /\ needs skills z d /\ d ∉ skill_name <$> skills
  | Some (Err (CyclicDependency c)) =>
      is_cycle (needs skills) c /\ exists z, head c = Some z /\ rtc (needs skills) x z
  | Some (Err (SkippedDirectories _)) | None => False
  end.
Proof.
  unfold expand_transitive_dependencies. destruct (name_to_skill skills !! x) as [s|] eqn:Hx.
  - pose proof (expand_start skills x (mk_is_Some _ _ Hx)) as H.
    destruct (expand_dfs _ _ _ _) as [[st|[]]|]; simpl in *; try done.
    destruct H as (_ & HxV & _ & _ & Hinv).
    pose proof (x_done _ _ _ _ _ Hinv) as Hdone.
    assert (Hall : forall y, tc (needs skills) x y -> y ∈ visited st /\ y ∈ expanded st)
      by (intros y; by apply (visited_tc skills x [] _ _ x y Hinv)).
    split; [apply Hinv|]. split; [|split].
    + intros y. split; [apply Hinv|apply Hall].
    + intros y [Hy _]%Hall. destruct (Hdone y Hy) as [[s' Hs'] _].
      destruct (decide (y ∈ skill_name <$> skills)) as [|Hn]; [done|].
      apply name_to_skill_None in Hn. congruence.
    + intros y [->|Hy]%rtc_tc; [by apply Hdone|]. by apply Hdone, Hall.
  - assert (Hno : forall y, ~ needs skills x y) by (intros y (s & Hs & _); congruence).
    assert (Hno' : forall y, ~ tc (needs skills) x y) by (intros y H; inv H; by eapply Hno).
    simpl. rewrite bool_decide_false by apply not_elem_of_empty. rewrite Hx. simpl.
    split; [apply NoDup_nil_2|]. split; [|split].
    + intros y. rewrite elem_of_nil. split; [done|]. apply Hno'.
    + intros y H. by destruct (Hno' y).
    + intros y [->|H]%rtc_tc; [apply Hno'|]. by destruct (Hno' y).
Qed.

End Transitive.
