(* ===== verification/Json.v ===== *)
(** Binary64 floating point as the Rust [f64]: the executable operations of the
    Standard Library's [SpecFloat] at precision 53 and exponent bound 1024, with the
    conversions and comparisons the code uses.

    Then JSON values as [serde_json] represents them. *)

From Stdlib Require Import SpecFloat.
From stdpp Require Import countable.
From S2P Require Import Prelude Text.

Local Open Scope Z_scope.

(** The double nearest to [m * 2^e]. *)
Definition f64 (m e : Z) : spec_float := binary_normalize 53 1024 m e false.

(** [n as f64]. *)
Definition f64_of_usize (n : Z) : spec_float := f64 n 0.

(** [x.ceil() as usize], a saturating conversion. *)
Definition ceil_as_usize (x : spec_float) : Z :=
  match x with
  | S754_finite s m e =>
      let v := (if s then -1 else 1) * Z.pos m in
      Z.max 0 (Z.min (2 ^ 64 - 1) (if 0 <=? e then v * 2 ^ e else - ((- v) / 2 ^ (- e))))
  | S754_infinity false => 2 ^ 64 - 1
  | _ => 0
  end.

(** [a < b] and [a > b]; both false when an operand is NaN. *)
Definition f64_lt (a b : spec_float) : bool := SFltb a b.
Definition f64_gt (a b : spec_float) : bool := SFltb b a.

Definition f64_mul : spec_float -> spec_float -> spec_float := SFmul 53 1024.
Definition f64_add : spec_float -> spec_float -> spec_float := SFadd 53 1024.
Definition f64_sub : spec_float -> spec_float -> spec_float := SFsub 53 1024.

#[export] Instance spec_float_eq_dec : EqDecision spec_float.
Proof. solve_decision. Defined.

(** ** Values

    JSON values as [serde_json] represents them: a number is an unsigned, a negative
    or a floating-point one, and an object keeps its entries in insertion order (the
    workspace builds with [preserve_order]).  A string is its list of code points. *)

Abbreviation str := (list Z).

(** ** Values *)

(** [serde_json::Number]. *)
Inductive Number : Type :=
| PosInt (n : Z)
| NegInt (n : Z)
| Float (x : spec_float).

Inductive Value : Type :=
| Null
| Bool (b : bool)
| Num (n : Number)
| Str (s : str)
| Array (l : list Value)
| Object (m : list (str * Value)).

Abbreviation JsonMap := (list (str * Value)).

(** The numbers serde builds: machine-width, negative integers apart from the others,
    floats finite. *)
Definition valid_number (n : Number) : Prop :=
  match n with
  | PosInt z => in_u64 z
  | NegInt z => (- 2 ^ 63 <= z < 0)%Z
  | Float (S754_zero _ | S754_finite _ _ _) => True
  | Float _ => False
  end.

#[export] Instance Number_eq_dec : EqDecision Number.
Proof. solve_decision. Defined.

(** ** Induction over nested values *)

Section ValueInd.
Context (P : Value -> Prop).
Context (HNull : P Null) (HBool : forall b, P (Bool b)) (HNum : forall n, P (Num n))
  (HStr : forall s, P (Str s)) (HArray : forall l, Forall P l -> P (Array l))
  (HObject : forall m, Forall (fun kv => P kv.2) m -> P (Object m)).

Fixpoint value_rect' (v : Value) : P v :=
  match v with
  | Null => HNull
  | Bool b => HBool b
  | Num n => HNum n
  | Str s => HStr s
  | Array l =>
      HArray l ((fix go (l : list Value) : Forall P l :=
        match l with [] => Forall_nil_2 P | x :: l => Forall_cons_2 P x l (value_rect' x) (go l) end) l)
  | Object m =>
      HObject m ((fix go (m : JsonMap) : Forall (fun kv => P kv.2) m :=
        match m with
        | [] => Forall_nil_2 _
        | kv :: m => Forall_cons_2 _ kv m (value_rect' kv.2) (go m)
        end) m)
  end.
End ValueInd.

Lemma value_ind' (P : Value -> Prop) :
  P Null -> (forall b, P (Bool b)) -> (forall n, P (Num n)) -> (forall s, P (Str s)) ->
  (forall l, Forall P l -> P (Array l)) -> (forall m, Forall (fun kv => P kv.2) m -> P (Object m)) ->
  forall v, P v.
Proof. intros. by apply value_rect'. Qed.

(** ** Accessors *)

(** [Map::get], [Map::insert] (an existing key keeps its place). *)
Fixpoint json_get (k : str) (m : JsonMap) : option Value :=
  match m with
  | [] => None
  | (k', v) :: m => if bool_decide (k = k') then Some v else json_get k m
  end.

Fixpoint json_insert (k : str) (v : Value) (m : JsonMap) : JsonMap :=
  match m with
  | [] => [(k, v)]
  | (k', v') :: m => if bool_decide (k = k') then (k, v) :: m else (k', v') :: json_insert k v m
  end.

Definition is_string (v : Value) : bool := match v with Str _ => true | _ => false end.
Definition is_number (v : Value) : bool := match v with Num _ => true | _ => false end.
Definition is_boolean (v : Value) : bool := match v with Bool _ => true | _ => false end.
Definition is_array (v : Value) : bool := match v with Array _ => true | _ => false end.
Definition is_object (v : Value) : bool := match v with Object _ => true | _ => false end.
Definition is_null (v : Value) : bool := match v with Null => true | _ => false end.

(** [Value::as_f64]. *)
Definition as_f64 (v : Value) : option spec_float :=
  match v with
  | Num (PosInt n) | Num (NegInt n) => Some (f64 n 0)
  | Num (Float x) => Some x
  | _ => None
  end.

(** [Value::as_u64], [Value::as_i64], [Value::as_bool], [Value::as_str]. *)
Definition as_u64 (v : Value) : option Z := match v with Num (PosInt n) => Some n | _ => None end.
Definition as_i64 (v : Value) : option Z :=
  match v with
  | Num (PosInt n) => if (n <=? i64_max)%Z then Some n else None
  | Num (NegInt n) => Some n
  | _ => None
  end.
Definition as_bool (v : Value) : option bool := match v with Bool b => Some b | _ => None end.
Definition as_str (v : Value) : option str := match v with Str s => Some s | _ => None end.

Lemma json_get_insert k v m : json_get k (json_insert k v m) = Some v.
Proof.
  induction m as [|[k' v'] m IH]; simpl; [by rewrite bool_decide_true|].
  case_bool_decide; simpl; [by rewrite bool_decide_true|]. by rewrite bool_decide_false.
Qed.

Lemma json_get_insert_ne k k' v m : k <> k' -> json_get k (json_insert k' v m) = json_get k m.
Proof.
  intros Hne. induction m as [|[k2 v2] m IH]; simpl; [by rewrite bool_decide_false|].
  case_bool_decide as Hk; simpl.
  - subst k2. by rewrite !(bool_decide_false _ Hne).
  - by rewrite IH.
Qed.

Lemma json_get_In k v m : json_get k m = Some v -> (k, v) ∈ m.
Proof.
  induction m as [|[k' v'] m IH]; simpl; [done|]. case_bool_decide; intros; simplify_eq.
  - by left.
  - right. auto.
Qed.

#[export] Hint Rewrite json_get_insert : dcc_rw.

(** [Value::to_string], the compact text of a value. *)
Class JsonText : Type := json_to_string : Value -> str.

(** A concrete text to evaluate with, of booleans and naturals. *)
Definition sample_text : JsonText := fun v =>
  match v with
  | Bool true => lit "true"
  | Bool false => lit "false"
  | Num (PosInt n) => print_u64 n
  | _ => []
  end.

(** ** Equality of values *)

(** [PartialEq for Number]: numbers of different kinds differ, floats compare as doubles. *)
Definition number_eqb (a b : Number) : bool :=
  match a, b with
  | PosInt x, PosInt y | NegInt x, NegInt y => (x =? y)%Z
  | Float x, Float y => SFeqb x y
  | _, _ => false
  end.

(** [PartialEq for Value]: objects are equal whatever the order of their entries. *)
Fixpoint value_eqb (a b : Value) : bool :=
  match a, b with
  | Null, Null => true
  | Bool x, Bool y => Bool.eqb x y
  | Num x, Num y => number_eqb x y
  | Str x, Str y => bool_decide (x = y)
  | Array l, Array l' =>
      (fix go l l' := match l, l' with [], [] => true | x :: l, y :: l' => value_eqb x y && go l l' | _, _ => false end) l l'
  | Object m, Object m' =>
      (length m =? length m')%nat &&
      forallb (fun kv => match json_get (fst kv) m' with Some y => value_eqb (snd kv) y | None => false end) m
  | _, _ => false
  end.

(** ** Hash maps *)

(** The iteration order of a [HashMap] keyed by strings. *)
Class HashOrder (A : Type) : Type := {
  hash_order : gmap str A -> list (str * A);
  hash_order_perm m : hash_order m ≡ₚ map_to_list m;
}.

(** A concrete order, to evaluate with. *)
#[export] Instance list_order (A : Type) : HashOrder A :=
  {| hash_order m := map_to_list m; hash_order_perm _ := reflexivity _ |}.

(** ** Values are countable *)

#[export] Instance Value_eq_dec : EqDecision Value.
Proof.
  refine (fix go (x y : Value) : Decision (x = y) :=
    match x, y with
    | Null, Null => left eq_refl
    | Bool a, Bool b => cast_if (decide (a = b))
    | Num a, Num b => cast_if (decide (a = b))
    | Str a, Str b => cast_if (decide (a = b))
    | Array a, Array b =>
        cast_if ((fix gol (a b : list Value) : Decision (a = b) :=
          match a, b with
          | [], [] => left eq_refl
          | u :: a, v :: b => cast_if_and (go u v) (gol a b)
          | _, _ => right _
          end) a b)
    | Object a, Object b =>
        cast_if ((fix gom (a b : JsonMap) : Decision (a = b) :=
          match a, b with
          | [], [] => left eq_refl
          | (k, u) :: a, (l, v) :: b => cast_if_and3 (decide (k = l)) (go u v) (gom a b)
          | _, _ => right _
          end) a b)
    | _, _ => right _
    end); clear go; abstract congruence.
Defined.

(** The leaves of a value: flags, numbers as quadruples, strings. *)
Abbreviation leaf := (bool + ((Z * Z) * (Z * Z)) + str)%type.

Definition num_code (n : Number) : (Z * Z) * (Z * Z) :=
  match n with
  | PosInt z => ((0, z), (0, 0))
  | NegInt z => ((1, z), (0, 0))
  | Float (S754_zero s) => ((2, Z.b2z s), (0, 0))
  | Float (S754_infinity s) => ((3, Z.b2z s), (0, 0))
  | Float S754_nan => ((4, 0), (0, 0))
  | Float (S754_finite s m e) => ((5, Z.b2z s), (Z.pos m, e))
  end.

Definition code_num (c : (Z * Z) * (Z * Z)) : Number :=
  let '((t, a), (b, e)) := c in
  if t =? 0 then PosInt a else if t =? 1 then NegInt a
  else if t =? 2 then Float (S754_zero (a =? 1)) else if t =? 3 then Float (S754_infinity (a =? 1))
  else if t =? 4 then Float S754_nan else Float (S754_finite (a =? 1) (Z.to_pos b) e).

Fixpoint to_tree (v : Value) : gen_tree leaf :=
  match v with
  | Null => GenNode 0 []
  | Bool b => GenLeaf (inl (inl b))
  | Num n => GenLeaf (inl (inr (num_code n)))
  | Str s => GenLeaf (inr s)
  | Array l => GenNode 1 (map to_tree l)
  | Object m => GenNode 2 (map (fun kv => GenNode 3 [GenLeaf (inr (fst kv)); to_tree (snd kv)]) m)
  end.

Fixpoint of_tree (t : gen_tree leaf) : Value :=
  match t with
  | GenLeaf (inl (inl b)) => Bool b
  | GenLeaf (inl (inr c)) => Num (code_num c)
  | GenLeaf (inr s) => Str s
  | GenNode 1 ts => Array (map of_tree ts)
  | GenNode 2 ts => Object (map (fun t => match t with GenNode _ [GenLeaf (inr k); v] => (k, of_tree v) | _ => ([], Null) end) ts)
  | GenNode _ _ => Null
  end.

Lemma of_to_tree v : of_tree (to_tree v) = v.
Proof.
  induction v as [|b|n|s|l IH|m IH] using value_ind'; cbn [to_tree of_tree]; try done.
  - f_equal. by destruct n as [z|z|[[]|[]| |[] p e]].
  - f_equal. rewrite map_map. induction IH as [|v l Hv _ IHl]; [done|]. cbn [map]. by rewrite Hv, IHl.
  - f_equal. rewrite map_map. induction IH as [|[k v] l Hv _ IHl]; [done|]. cbn [map fst snd] in *. by rewrite Hv, IHl.
Qed.

#[export] Instance Value_countable : Countable Value := inj_countable' to_tree of_tree of_to_tree.

(** A text of one code: the number of the value in an enumeration. *)
Definition code_text {A} `{Countable A} (a : A) : str := [Zpos (encode a)].
Definition parse_code {A} `{Countable A} (s : str) : option A := match s with [Zpos p] => decode p | _ => None end.

Lemma parse_code_text {A} `{Countable A} (a : A) : parse_code (code_text a) = Some a.
Proof. cbn [parse_code code_text]. apply decode_encode. Qed.
