(* ===== verification/SandboxPolicy.v ===== *)
(** The sandbox policy, [dcc-mcp-sandbox/src/policy.rs] and [error.rs]: action lists,
    allowed directories, execution mode, and the resolution of paths.

    A path is its list of components, as [std::path] compares paths.  The file system
    is a parameter, the two calls [canonicalize] and [exists] with their documented
    laws; [Tree] is a concrete one, with symbolic links, on which the theorems are
    evaluated. *)

From S2P Require Import Prelude Json.

(** ** Errors *)

(** The arguments of the [format!] that writes a validation message. *)
Inductive Reason : Type :=
| FieldRequired
| ExpectedString (got : str)
| ExpectedNumber (got : str)
| ExpectedBoolean (got : str)
| LengthExceeds (len max : Z)
| LengthBelow (len min : Z)
| ValueExceeds (n max : SpecFloat.spec_float)
| ValueBelow (n min : SpecFloat.spec_float)
| ContainsForbidden (pattern : str)
| ExpectedObject
| ParamsNotObject.

(** ** Paths *)

(** [std::path::Component] on Unix. *)
Inductive component : Type :=
| RootDir
| CurDir
| ParentDir
| Normal (s : str).

Abbreviation path := (list component).

#[export] Instance component_eq_dec : EqDecision component.
Proof. solve_decision. Defined.

(** [Path::components] of the text of a path. *)
Definition component_of (s : str) : option component :=
  if bool_decide (s = []) || bool_decide (s = [ch_dot]) then None
  else if bool_decide (s = [ch_dot; ch_dot]) then Some ParentDir else Some (Normal s).

Definition components (s : str) : path :=
  let parts := split_char ch_slash s in
  (match parts with
   | [] :: _ :: _ => [RootDir]
   | [46%Z] :: _ => [CurDir]
   | _ => []
   end) ++ omap component_of parts.

(** [Path::parent] and [Path::file_name], on the reversed components. *)
Definition rev_parent (p : path) : option path :=
  match p with
  | [] | RootDir :: _ => None
  | _ :: p => Some p
  end.

Definition rev_file_name (p : path) : path :=
  match p with Normal s :: _ => [Normal s] | _ => [] end.

(** [Path::starts_with]. *)
Fixpoint path_starts_with (p base : path) : bool :=
  match p, base with
  | _, [] => true
  | c :: p, b :: base => bool_decide (c = b) && path_starts_with p base
  | [], _ :: _ => false
  end.

(** [Path::canonicalize] and [Path::exists]. *)
Class FileSystem : Type := {
  canonicalize : path -> option path;
  path_exists : path -> bool;
}.

(** ** Policies *)

Inductive SandboxError : Type :=
| TimedOut (timeout_ms : Z)
| ActionNotAllowed (action : str)
| PathNotAllowed (p : path)
| ValidationFailed (field : str) (reason : Reason)
| ReadOnlyViolation (operation : str)
| ActionLimitExceeded (limit attempted : Z)
| Serialization (message : str)
| Internal (message : str).

Inductive ExecutionMode : Type := ReadWrite | ReadOnly.

#[export] Instance ExecutionMode_eq_dec : EqDecision ExecutionMode.
Proof. solve_decision. Defined.

Record SandboxPolicy : Type := mkPolicy {
  allowed_actions : option (gset str);
  denied_actions : gset str;
  allowed_paths : list path;
  timeout_ms : option Z;
  max_actions : option Z;
  mode : ExecutionMode;
}.

(** The builder and its setters. *)
Definition default_sandbox_policy : SandboxPolicy := mkPolicy None ∅ [] None None ReadWrite.
Definition allow_actions (l : list str) (b : SandboxPolicy) : SandboxPolicy :=
  mkPolicy (Some (list_to_set l)) (denied_actions b) (allowed_paths b) (timeout_ms b) (max_actions b) (mode b).
Definition deny_actions (l : list str) (b : SandboxPolicy) : SandboxPolicy :=
  mkPolicy (allowed_actions b) (denied_actions b ∪ list_to_set l) (allowed_paths b) (timeout_ms b)
    (max_actions b) (mode b).
Definition allow_paths (l : list path) (b : SandboxPolicy) : SandboxPolicy :=
  mkPolicy (allowed_actions b) (denied_actions b) (allowed_paths b ++ l) (timeout_ms b) (max_actions b) (mode b).
Definition set_timeout_ms (ms : Z) (b : SandboxPolicy) : SandboxPolicy :=
  mkPolicy (allowed_actions b) (denied_actions b) (allowed_paths b) (Some ms) (max_actions b) (mode b).
Definition set_max_actions (count : Z) (b : SandboxPolicy) : SandboxPolicy :=
  mkPolicy (allowed_actions b) (denied_actions b) (allowed_paths b) (timeout_ms b) (Some count) (mode b).
Definition set_mode (m : ExecutionMode) (b : SandboxPolicy) : SandboxPolicy :=
  mkPolicy (allowed_actions b) (denied_actions b) (allowed_paths b) (timeout_ms b) (max_actions b) m.

Definition check_action (action : str) (p : SandboxPolicy) : result SandboxError unit :=
  if bool_decide (action ∈ denied_actions p) then Err (ActionNotAllowed action)
  else match allowed_actions p with
       | Some allowed => if bool_decide (action ∈ allowed) then Ok tt else Err (ActionNotAllowed action)
       | None => Ok tt
       end.

Definition check_write (operation : str) (p : SandboxPolicy) : result SandboxError unit :=
  if bool_decide (mode p = ReadOnly) then Err (ReadOnlyViolation operation) else Ok tt.

Section CheckPath.
Context `{!FileSystem}.

(** The loop of [canonicalize_best_effort]: [ancestor] is reversed, [original] the
    path it started from. *)
Fixpoint walk_up (original ancestor suffix : path) : path :=
  match ancestor with
  | [] | RootDir :: _ => original
  | _ :: parent =>
      let suffix := rev_file_name ancestor ++ suffix in
      if path_exists (rev parent) then
        match canonicalize (rev parent) with
        | Some canonical_ancestor => canonical_ancestor ++ suffix
        | None => original
        end
      else walk_up original parent suffix
  end.

Definition canonicalize_best_effort (p : path) : path :=
  match canonicalize p with
  | Some q => q
  | None => walk_up p (rev p) []
  end.

Definition allowed_canonical (a : path) : path := default a (canonicalize a).

Definition check_path (p : path) (pol : SandboxPolicy) : result SandboxError unit :=
  match allowed_paths pol with
  | [] => Ok tt
  | _ =>
      if existsb (fun a => path_starts_with (canonicalize_best_effort p) (allowed_canonical a)) (allowed_paths pol)
      then Ok tt
      else Err (PathNotAllowed p)
  end.

End CheckPath.

(** ** A file system *)

(** A tree of absolute names, and links from one to another that exists. *)
Record tree : Type := mkTree { nodes : gset (list str); links : gmap (list str) (list str) }.

(** Name resolution from the root: every prefix has to exist; a link is replaced by
    its target, and [..] applies to what has been resolved. *)
Fixpoint resolve_in (t : tree) (at_ : list str) (p : path) : option (list str) :=
  match p with
  | [] => Some at_
  | RootDir :: p => resolve_in t [] p
  | CurDir :: p => resolve_in t at_ p
  | ParentDir :: p => resolve_in t (take (length at_ - 1) at_) p
  | Normal s :: p =>
      match links t !! (at_ ++ [s]) with
      | Some target => resolve_in t target p
      | None => if bool_decide (at_ ++ [s] ∈ nodes t) then resolve_in t (at_ ++ [s]) p else None
      end
  end.

Definition tree_canonicalize (t : tree) (p : path) : option path :=
  match p with
  | RootDir :: _ => (fun l => RootDir :: (Normal <$> l)) <$> resolve_in t [] p
  | _ => None
  end.

Definition TreeFS (t : tree) : FileSystem := {|
  canonicalize := tree_canonicalize t;
  path_exists p := match tree_canonicalize t p with Some _ => true | None => false end;
|}.

(** ** Laws of the file system *)

(** [canonicalize] returns an absolute name without links or dots, succeeds exactly
    on what exists, on the root, and only on entries of something that exists. *)
Class FileSystemLaws `{FileSystem} : Prop := {
  canonicalize_normal p q : canonicalize p = Some q -> exists l, q = RootDir :: (Normal <$> l);
  path_exists_spec p : path_exists p = true <-> canonicalize p <> None;
  canonicalize_root : canonicalize [RootDir] = Some [RootDir];
  canonicalize_parent p s : canonicalize (p ++ [Normal s]) <> None -> canonicalize p <> None;
}.

Lemma resolve_in_app t p1 : forall at_ p2,
  resolve_in t at_ (p1 ++ p2) = (resolve_in t at_ p1 ≫= fun l => resolve_in t l p2).
Proof.
  induction p1 as [|[| | |s] p1 IH]; intros at_ p2; simpl; auto.
  repeat case_goal; auto.
Qed.

Lemma TreeFS_laws (t : tree) : @FileSystemLaws (TreeFS t).
Proof.
  split; simpl.
  - intros p q H. destruct p as [|[| | |] p]; try done. simpl in H.
    destruct (resolve_in t [] p) as [l|]; [|done]. exists l. by simplify_option_eq.
  - intros p. case_goal; naive_solver.
  - done.
  - intros p s. unfold tree_canonicalize. destruct p as [|[| | |] p]; simpl; try done.
    rewrite resolve_in_app. destruct (resolve_in t [] p); simpl; done.
Qed.

(** ** Path checks *)

Lemma path_starts_with_spec p base : path_starts_with p base = true <-> exists r, p = base ++ r.
Proof.
  revert p. induction base as [|b base IH]; intros p.
  - destruct p; simpl; split; eauto.
  - destruct p as [|c p]; simpl.
    + split; [done|]. intros [r Hr]. done.
    + rewrite andb_true_iff, bool_decide_eq_true, IH. split.
      * intros [-> [r ->]]. by exists r.
      * intros [r Hr]. simplify_eq. eauto.
Qed.

Lemma path_starts_with_app p base r : path_starts_with p base = true -> path_starts_with (p ++ r) base = true.
Proof. rewrite !path_starts_with_spec. intros [x ->]. exists (x ++ r). by rewrite <- app_assoc. Qed.

Lemma check_action_spec action pol :
  check_action action pol = Ok tt <->
  action ∉ denied_actions pol /\ (forall allowed, allowed_actions pol = Some allowed -> action ∈ allowed).
Proof.
  unfold check_action. case_bool_decide as Hd; [naive_solver|].
  destruct (allowed_actions pol) as [al|]; [|naive_solver].
  case_bool_decide; naive_solver.
Qed.

Lemma check_action_error action pol e : check_action action pol = Err e -> e = ActionNotAllowed action.
Proof. unfold check_action. repeat case_goal; naive_solver. Qed.

(** An absolute path as [Path::components] yields it. *)
Definition absolute (p : path) : Prop :=
  exists l, p = RootDir :: l /\ Forall (fun c => c = ParentDir \/ exists s, c = Normal s) l.

(** From the file system [fs] to [fs'], what [p] and its ancestors name is kept, and
    what they name newly is a real entry rather than a link. *)
Definition kept_or_created (fs fs' : FileSystem) (p : path) : Prop :=
  forall i, i < length p ->
  match @canonicalize fs (take (S i) p) with
  | Some q => @canonicalize fs' (take (S i) p) = Some q
  | None => forall q r s, p !! i = Some (Normal s) -> @canonicalize fs' (take i p) = Some q ->
      @canonicalize fs' (take (S i) p) = Some r -> r = q ++ [Normal s]
  end.

Section WalkUp.
Context `{!FileSystem, !FileSystemLaws}.

Lemma walk_up_snoc orig p s suffix :
  walk_up orig (rev (p ++ [Normal s])) suffix =
  if path_exists p then match canonicalize p with Some q => q ++ [Normal s] ++ suffix | None => orig end
  else walk_up orig (rev p) ([Normal s] ++ suffix).
Proof. rewrite rev_app_distr. cbn [rev app walk_up]. by rewrite rev_involutive. Qed.

(** The walk stops at the nearest ancestor that exists. *)
Lemma walk_up_nearest (orig : path) (l suffix : path) :
  Forall (fun c => exists s, c = Normal s) l ->
  canonicalize (RootDir :: l) = None ->
  exists a s b q, l = a ++ s :: b /\ canonicalize (RootDir :: a) = Some q /\
    canonicalize (RootDir :: a ++ [s]) = None /\
    walk_up orig (rev (RootDir :: l)) suffix = q ++ (s :: b) ++ suffix.
Proof.
  revert suffix. induction l as [|c l IH] using rev_ind; intros suffix Hl Hnone.
  { by rewrite canonicalize_root in Hnone. }
  apply Forall_app in Hl as [Hl [[s ->] _]%Forall_cons].
  rewrite app_comm_cons, walk_up_snoc.
  destruct (canonicalize (RootDir :: l)) as [q|] eqn:Hq.
  - rewrite (proj2 (path_exists_spec _)) by (rewrite Hq; done).
    exists l, (Normal s), [], q. by split_and!.
  - destruct (path_exists (RootDir :: l)) eqn:He.
    { apply path_exists_spec in He. by rewrite Hq in He. }
    destruct (IH ([Normal s] ++ suffix) Hl eq_refl) as (a & s' & b & q & -> & Ha & Has & Hw).
    exists a, s', (b ++ [Normal s]), q. rewrite Hw.
    split; [by rewrite <- app_assoc|]. split; [done|]. split; [done|].
    simpl. by rewrite <- !app_assoc.
Qed.

Lemma canonicalize_prefix p b :
  Forall (fun c => exists s, c = Normal s) b -> canonicalize (p ++ b) <> None -> canonicalize p <> None.
Proof.
  intros Hb. induction b as [|c b IH] using rev_ind; [by rewrite app_nil_r|].
  apply Forall_app in Hb as [Hb [[s ->] _]%Forall_cons]. rewrite app_assoc. intros Hne.
  by apply IH, (canonicalize_parent _ s).
Qed.

End WalkUp.

Lemma kept_split (fs fs' : FileSystem) p a c b :
  kept_or_created fs fs' p -> p = a ++ c :: b ->
  match @canonicalize fs (a ++ [c]) with
  | Some q => @canonicalize fs' (a ++ [c]) = Some q
  | None => forall q r s, c = Normal s -> @canonicalize fs' a = Some q ->
      @canonicalize fs' (a ++ [c]) = Some r -> r = q ++ [c]
  end.
Proof.
  intros Hk ->. specialize (Hk (length a)).
  assert (Ht : take (S (length a)) (a ++ c :: b) = a ++ [c]).
  { rewrite cons_middle, app_assoc. apply take_app_length'. rewrite length_app. simpl. lia. }
  rewrite Ht, take_app_length in Hk. specialize (Hk ltac:(rewrite length_app; simpl; lia)).
  case_goal; [done|]. intros q r s -> Hq Hr. apply (Hk q r s); [|done|done].
  by rewrite lookup_app_r, Nat.sub_diag by lia.
Qed.

Lemma Normal_cons_split b1 x s (b b2 : path) :
  s :: b = b1 ++ Normal x :: b2 -> exists b3, b1 ++ [Normal x] = s :: b3.
Proof. destruct b1; simpl; intros; simplify_eq; eauto. Qed.

(** Below the nearest existing ancestor [a], each further component [fs'] resolves is
    one that was created. *)
Lemma created_steps (fs fs' : FileSystem) {L : @FileSystemLaws fs} {L' : @FileSystemLaws fs'} a s b qa q :
  kept_or_created fs fs' (RootDir :: a ++ s :: b) -> @canonicalize fs (RootDir :: a) = Some qa ->
  @canonicalize fs (RootDir :: a ++ [s]) = None -> Forall (fun c => exists s, c = Normal s) (s :: b) ->
  @canonicalize fs' (RootDir :: a ++ s :: b) = Some q ->
  forall b1 b2, s :: b = b1 ++ b2 -> @canonicalize fs' (RootDir :: a ++ b1) = Some (qa ++ b1).
Proof.
  intros Hkept Ha Has HN Hq. set (p := RootDir :: a ++ s :: b) in *.
  induction b1 as [|c b1 IH] using rev_ind; intros b2 Hb.
  - rewrite !app_nil_r. destruct (@exists_last _ (RootDir :: a)) as (a' & c & Hac); [done|].
    pose proof (kept_split fs fs' p a' c (s :: b) Hkept) as Hk. rewrite <- Hac, Ha in Hk.
    apply Hk. unfold p. by rewrite app_comm_cons, Hac, <- app_assoc.
  - rewrite Hb in HN. apply Forall_app in HN as [HN1 HN2].
    pose proof HN1 as [_ [[x ->] _]%Forall_cons]%Forall_app.
    rewrite <- app_assoc in Hb. specialize (IH _ Hb).
    assert (Hp : p = (RootDir :: a ++ b1) ++ Normal x :: b2) by (unfold p; rewrite Hb; simpl; by rewrite <- app_assoc).
    pose proof (kept_split fs fs' p _ _ _ Hkept Hp) as Hk. simpl in Hk. rewrite <- app_assoc in Hk.
    destruct (@canonicalize fs (RootDir :: a ++ b1 ++ [Normal x])) eqn:Hc.
    + exfalso. destruct (Normal_cons_split _ _ _ _ _ Hb) as [b3 Hb3]. rewrite Hb3 in Hc, HN1.
      apply Forall_cons in HN1 as [_ HN1].
      apply (@canonicalize_prefix fs L (RootDir :: a ++ [s]) b3); [done| |done].
      intros Hn. simpl in Hn. rewrite <- app_assoc in Hn. simpl in Hn. congruence.
    + destruct (@canonicalize fs' (RootDir :: a ++ b1 ++ [Normal x])) as [r|] eqn:Hr.
      * f_equal. rewrite app_assoc. by apply (Hk _ _ x).
      * exfalso. apply (@canonicalize_prefix fs' L' (RootDir :: a ++ b1 ++ [Normal x]) b2); [done| |done].
        rewrite Hp in Hq. simpl in *. rewrite <- !app_assoc in *. simpl in *. by rewrite Hq.
Qed.

(** What is checked is what is later opened: unless a missing part of the path has
    [..] in it, the best-effort name is the name the path has in any later file system
    that keeps what existed and creates real entries. *)
Lemma best_effort_exact (fs fs' : FileSystem) {L : @FileSystemLaws fs} {L' : @FileSystemLaws fs'} p q :
  absolute p -> (@canonicalize fs p = None -> ParentDir ∉ p) -> kept_or_created fs fs' p ->
  @canonicalize fs' p = Some q -> @canonicalize_best_effort fs p = q.
Proof.
  intros (l & -> & Hl) Hdots Hkept Hq. unfold canonicalize_best_effort.
  destruct (@canonicalize fs (RootDir :: l)) as [q0|] eqn:Hq0.
  { specialize (Hkept (length l)). simpl in Hkept. rewrite firstn_all, Hq0 in Hkept.
    rewrite Hkept in Hq by lia. by simplify_eq. }
  assert (HN : Forall (fun c => exists s, c = Normal s) l).
  { specialize (Hdots eq_refl). rewrite Forall_forall in Hl |- *. intros c Hc.
    destruct (Hl c Hc) as [->|]; [|done]. destruct Hdots. by right. }
  destruct (walk_up_nearest (RootDir :: l) l [] HN Hq0) as (a & s & b & qa & -> & Ha & Has & ->).
  rewrite app_nil_r. apply Forall_app in HN as [HNa HNb].
  pose proof (created_steps fs fs' a s b qa q Hkept Ha Has HNb Hq (s :: b) []) as Hstep.
  rewrite app_nil_r in Hstep. specialize (Hstep eq_refl). simpl in Hstep. congruence.
Qed.

(** A path is accepted exactly when what it names, now or once created, lies in one of
    the allowed directories; a missing part with [..] is excluded. *)
Theorem check_path_exact (fs fs' : FileSystem) {L : @FileSystemLaws fs} {L' : @FileSystemLaws fs'} pol p q
  (Habs : absolute p) (Hdots : @canonicalize fs p = None -> ParentDir ∉ p)
  (Hkept : kept_or_created fs fs' p) (Hopen : @canonicalize fs' p = Some q) :
  (@check_path fs p pol = Ok tt <->
     allowed_paths pol = [] \/ exists a r, a ∈ allowed_paths pol /\ q = @allowed_canonical fs a ++ r) /\
  (forall e, @check_path fs p pol = Err e -> e = PathNotAllowed p).
Proof.
  unfold check_path. rewrite (best_effort_exact fs fs' p q Habs Hdots Hkept Hopen).
  destruct (allowed_paths pol) as [|a0 al] eqn:Ea; [naive_solver|].
  match goal with |- context [if ?b then _ else _] => destruct b eqn:E end.
  - split; [|done]. split; [intros _; right|done].
    apply existsb_exists in E as (a & Hin & Ha). apply path_starts_with_spec in Ha as [r ->].
    exists a, r. by rewrite list_elem_of_In.
  - split; [|naive_solver]. split; [done|]. intros [|(a & r & Hin & Hq)]; [done|].
    rewrite <- not_true_iff_false, existsb_exists in E. destruct E. exists a.
    split; [by apply list_elem_of_In|]. apply path_starts_with_spec. eauto.
Qed.

(** ** Examples *)

Section Examples.
Local Open Scope string_scope.

Abbreviation name s := (lit s).

(** [/allowed] with a link to [/etc] in it, and [/etc/passwd]. *)
Definition tree0 : tree :=
  mkTree {[ [name "allowed"]; [name "etc"]; [name "etc"; name "passwd"] ]}
    {[ [name "allowed"; name "link"] := [name "etc"] ]}.

(** The same after [/allowed/new] and the file [/allowed/new/f] are created. *)
Definition tree1 : tree :=
  mkTree (nodes tree0 ∪ {[ [name "allowed"; name "new"]; [name "allowed"; name "new"; name "f"] ]}) (links tree0).

Definition allowed_only : SandboxPolicy := allow_paths [components (lit "/allowed")] default_sandbox_policy.

Example components_ex :
  components (lit "./a//b/../.c/") = [CurDir; Normal (lit "a"); Normal (lit "b"); ParentDir; Normal (lit ".c")] /\
  components (lit "/a/./b") = [RootDir; Normal (lit "a"); Normal (lit "b")] /\ components [] = [].
Proof. by vm_compute. Qed.

(** A link out of the allowed directory is refused. *)
Example link_ex : @check_path (TreeFS tree0) (components (lit "/allowed/link/passwd")) allowed_only
  = Err (PathNotAllowed (components (lit "/allowed/link/passwd"))).
Proof. by vm_compute. Qed.

Lemma check_path_exact_witness :
  exists p q, @canonicalize (TreeFS tree0) p = None /\ @canonicalize (TreeFS tree1) p = Some q /\
    @check_path (TreeFS tree0) p allowed_only = Ok tt /\
    exists a r, a ∈ allowed_paths allowed_only /\ q = (@allowed_canonical (TreeFS tree0) a ++ r)%list.
Proof.
  set (p := components (lit "/allowed/new/f")).
  assert (Habs : absolute p).
  { eexists. split; [vm_compute; reflexivity|]. repeat (apply Forall_cons_2; [right; by eexists|]). apply Forall_nil_2. }
  assert (Hkept : kept_or_created (TreeFS tree0) (TreeFS tree1) p).
  { intros i Hi. destruct i as [|[|[|[|i]]]]; [vm_compute; done|vm_compute; done| | |vm_compute in Hi; lia];
      (match goal with |- match ?x with _ => _ end => replace x with (@None path) by (by vm_compute) end);
      intros q r s Hs Hq Hr; vm_compute in Hs, Hq, Hr; simplify_eq; by vm_compute. }
  assert (Hopen : @canonicalize (TreeFS tree1) p = Some p) by (by vm_compute).
  assert (Hdots : @canonicalize (TreeFS tree0) p = None -> ParentDir ∉ p).
  { intros _. apply (bool_decide_unpack _). by vm_compute. }
  destruct (check_path_exact (TreeFS tree0) (TreeFS tree1) (L := TreeFS_laws _) (L' := TreeFS_laws _)
    allowed_only p p Habs Hdots Hkept Hopen) as [H _].
  exists p, p. split; [by vm_compute|]. split; [done|].
  assert (Hok : @check_path (TreeFS tree0) p allowed_only = Ok tt) by (by vm_compute).
  split; [done|]. apply H in Hok as [Hok|Hok]; [by vm_compute in Hok|done].
Defined.

(** A path whose missing part has [..] in it escapes: it is accepted as if the dots
    were not there, and once the missing directory exists it names a file outside. *)
Theorem check_path_escapes :
  exists p, @canonicalize (TreeFS tree0) p = None /\
    @check_path (TreeFS tree0) p allowed_only = Ok tt /\
    @canonicalize (TreeFS tree1) p = Some (components (lit "/etc/passwd")) /\
    @check_path (TreeFS tree1) p allowed_only = Err (PathNotAllowed p).
Proof. exists (components (lit "/allowed/new/../../etc/passwd")). by vm_compute. Qed.

End Examples.
