(* ===== verification/SandboxRun.v ===== *)
(** Sandboxed execution, [dcc-mcp-sandbox]: input validation ([validator.rs]), the
    audit log ([audit.rs]) and the execution context ([context.rs]).

    A handler is a function on the world it acts on, so that a theorem can say it was
    not called.  The text of an error or of the parameters in an audit entry is
    represented by the error and the parameters it prints.  The readings of the clock
    during a call are inputs.  A hash map is iterated in an arbitrary order. *)

From S2P Require Import Prelude Json SandboxPolicy.

Local Open Scope Z_scope.

(** ** Validation, [validator.rs] *)

Inductive ValidationRule : Type :=
| Required
| IsString
| IsNumber
| IsBoolean
| MaxLength (max : Z)
| MinLength (min : Z)
| MaxValue (max : SpecFloat.spec_float)
| MinValue (min : SpecFloat.spec_float)
| ForbiddenSubstrings (patterns : list str).

Definition json_type_name (v : Value) : str :=
  lit (match v with
       | Null => "null"
       | Bool _ => "boolean"
       | Num _ => "number"
       | Str _ => "string"
       | Array _ => "array"
       | Object _ => "object"
       end)%string.

Fixpoint check_forbidden (field : str) (s : str) (patterns : list str) : result SandboxError unit :=
  match patterns with
  | [] => Ok tt
  | pattern :: patterns =>
      if contains pattern s then Err (ValidationFailed field (ContainsForbidden pattern))
      else check_forbidden field s patterns
  end.

(** [ValidationRule::check]; [s.len()] counts bytes. *)
Definition check (rule : ValidationRule) (field : str) (value : option Value) : result SandboxError unit :=
  let fail_unless (p : Value -> bool) (reason : str -> Reason) :=
    match value with
    | Some v => if p v then Ok tt else Err (ValidationFailed field (reason (json_type_name v)))
    | None => Ok tt
    end in
  match rule with
  | Required =>
      match value with
      | None | Some Null => Err (ValidationFailed field FieldRequired)
      | _ => Ok tt
      end
  | IsString => fail_unless is_string ExpectedString
  | IsNumber => fail_unless is_number ExpectedNumber
  | IsBoolean => fail_unless is_boolean ExpectedBoolean
  | MaxLength max =>
      match value with
      | Some (Str s) =>
          if max <? Z.of_nat (str_len s)
          then Err (ValidationFailed field (LengthExceeds (Z.of_nat (str_len s)) max)) else Ok tt
      | _ => Ok tt
      end
  | MinLength min =>
      match value with
      | Some (Str s) =>
          if Z.of_nat (str_len s) <? min
          then Err (ValidationFailed field (LengthBelow (Z.of_nat (str_len s)) min)) else Ok tt
      | _ => Ok tt
      end
  | MaxValue max =>
      match value ≫= as_f64 with
      | Some n => if f64_gt n max then Err (ValidationFailed field (ValueExceeds n max)) else Ok tt
      | None => Ok tt
      end
  | MinValue min =>
      match value ≫= as_f64 with
      | Some n => if f64_lt n min then Err (ValidationFailed field (ValueBelow n min)) else Ok tt
      | None => Ok tt
      end
  | ForbiddenSubstrings patterns =>
      match value with
      | Some (Str s) => check_forbidden field s patterns
      | _ => Ok tt
      end
  end.

Abbreviation FieldSchema := (list ValidationRule).

(** [FieldSchema::rule] and [FieldSchema::validate]. *)
Definition rule (r : ValidationRule) (sch : FieldSchema) : FieldSchema := sch ++ [r].

Fixpoint field_validate (field : str) (value : option Value) (sch : FieldSchema) : result SandboxError unit :=
  match sch with
  | [] => Ok tt
  | r :: sch => let? _ := check r field value in field_validate field value sch
  end.

Abbreviation InputValidator := (gmap (list Z) (list ValidationRule)).

Definition register_schema (field : str) (sch : FieldSchema) (iv : InputValidator) : InputValidator :=
  <[field := sch]> iv.

Fixpoint validate_fields (m : JsonMap) (l : list (str * FieldSchema)) : result SandboxError unit :=
  match l with
  | [] => Ok tt
  | (field, sch) :: l => let? _ := field_validate field (json_get field m) sch in validate_fields m l
  end.

Section Sandbox.
Context {HO : HashOrder FieldSchema}.

Definition validate (m : JsonMap) (iv : InputValidator) : result SandboxError unit :=
  validate_fields m (hash_order iv).

Definition validate_value (v : Value) (iv : InputValidator) : result SandboxError unit :=
  match v with
  | Object m => validate m iv
  | _ => Err (ValidationFailed (lit "<root>") ExpectedObject)
  end.

(** ** Audit log, [audit.rs] *)

Inductive AuditOutcome : Type :=
| Success
| Denied (reason : SandboxError)
| Error (message : SandboxError)
| Timeout.

Record AuditEntry : Type := mkEntry {
  timestamp_ms : Z;
  entry_actor : option str;
  entry_action : str;
  entry_params : Value;
  duration_ms : Z;
  outcome : AuditOutcome;
}.

Definition is_success (e : AuditEntry) : bool := match outcome e with Success => true | _ => false end.
Definition is_denied (e : AuditEntry) : bool := match outcome e with Denied _ => true | _ => false end.

Abbreviation AuditLog := (list AuditEntry).

Definition record (e : AuditEntry) (log : AuditLog) : AuditLog := log ++ [e].
Definition drain (log : AuditLog) : AuditLog * list AuditEntry := ([], log).
Definition successes (log : AuditLog) : list AuditEntry := base.filter (fun e => is_success e = true) log.
Definition denials (log : AuditLog) : list AuditEntry := base.filter (fun e => is_denied e = true) log.
Definition entries_for_action (action : str) (log : AuditLog) : list AuditEntry :=
  base.filter (fun e => entry_action e = action) log.

(** ** Execution, [context.rs] *)

Record SandboxContext : Type := mkContext {
  policy : SandboxPolicy;
  audit_log : AuditLog;
  action_count : Z;
  actor : option str;
}.

Definition context_new (p : SandboxPolicy) : SandboxContext := mkContext p [] 0 None.
Definition with_actor (a : str) (c : SandboxContext) : SandboxContext :=
  mkContext (policy c) (audit_log c) (action_count c) (Some a).

(** [u32] addition as a release build performs it. *)
Definition wrap32 (z : Z) : Z := z mod 2 ^ 32.

(** What the clocks show during a call: nanoseconds since its start at the timeout
    test and when the entry is written, and the wall clock. *)
Record Readings : Type := mkReadings { elapsed_check : Z; elapsed_end : Z; wall_ms : Z }.

Record ExecutionResult : Type := mkExecution { value : option Value; duration : Z }.

Definition emit_audit (action : str) (params : Value) (rd : Readings) (o : AuditOutcome)
    (c : SandboxContext) : SandboxContext :=
  mkContext (policy c)
    (record (mkEntry (wall_ms rd) (actor c) action params (elapsed_end rd / 1000000) o) (audit_log c))
    (action_count c) (actor c).

Definition count_action (c : SandboxContext) : SandboxContext :=
  mkContext (policy c) (audit_log c) (wrap32 (action_count c + 1)) (actor c).

(** The guard on the action limit. *)
Definition check_limit (c : SandboxContext) : result SandboxError unit :=
  match max_actions (policy c) with
  | Some max =>
      let attempted := wrap32 (action_count c + 1) in
      if max <? attempted then Err (ActionLimitExceeded max attempted) else Ok tt
  | None => Ok tt
  end.

Definition timed_out (rd : Readings) (c : SandboxContext) : option Z :=
  match timeout_ms (policy c) with
  | Some ms => if ms * 1000000 <=? elapsed_check rd then Some ms else None
  | None => None
  end.

Context {W : Type}.
Abbreviation Handler := (JsonMap -> W -> W * result SandboxError Value).

Definition deny (action : str) (params : Value) (rd : Readings) (e : SandboxError) (c : SandboxContext) (w : W) :
    SandboxContext * W * result SandboxError ExecutionResult :=
  (emit_audit action params rd (Denied e) c, w, Err e).

Definition succeed (action : str) (params : Value) (rd : Readings) (v : Value) (c : SandboxContext) (w : W) :
    SandboxContext * W * result SandboxError ExecutionResult :=
  (emit_audit action params rd Success (count_action c), w, Ok (mkExecution (Some v) (elapsed_end rd))).

Definition invoke (action : str) (params : Value) (h : Handler) (rd : Readings) (c : SandboxContext) (w : W) :
    SandboxContext * W * result SandboxError ExecutionResult :=
  match params with
  | Object m =>
      match timed_out rd c with
      | Some ms => (emit_audit action params rd Timeout c, w, Err (TimedOut ms))
      | None =>
          match h m w with
          | (w', Ok v) => succeed action params rd v c w'
          | (w', Err e) => (emit_audit action params rd (Error e) c, w', Err e)
          end
      end
  | _ => deny action params rd (ValidationFailed (lit "<root>") ParamsNotObject) c w
  end.

Definition execute (action : str) (params : Value) (validator : option InputValidator)
    (handler : option Handler) (rd : Readings) (c : SandboxContext) (w : W) :
    SandboxContext * W * result SandboxError ExecutionResult :=
  match check_limit c with
  | Err e => deny action params rd e c w
  | Ok _ =>
      match check_action action (policy c) with
      | Err e => deny action params rd e c w
      | Ok _ =>
          match match validator with Some iv => validate_value params iv | None => Ok tt end with
          | Err e => deny action params rd e c w
          | Ok _ =>
              match handler with
              | Some h => invoke action params h rd c w
              | None => succeed action params rd Null c w
              end
          end
      end
  end.

(** A session: calls one after another. *)
Record Call : Type := mkCall {
  call_action : str;
  call_params : Value;
  call_validator : option InputValidator;
  call_handler : option Handler;
  call_readings : Readings;
}.

Definition execute_call (k : Call) (c : SandboxContext) (w : W) :=
  execute (call_action k) (call_params k) (call_validator k) (call_handler k) (call_readings k) c w.

Fixpoint session (l : list Call) (c : SandboxContext) (w : W) : SandboxContext * W :=
  match l with
  | [] => (c, w)
  | k :: l => let '(c', w', _) := execute_call k c w in session l c' w'
  end.

(** ** Validation accepts exactly the well-typed parameters *)

(** What a rule demands of the value of a field. *)
Definition conforms (r : ValidationRule) (v : option Value) : Prop :=
  match r with
  | Required => exists x, v = Some x /\ x <> Null
  | IsString => forall x, v = Some x -> exists s, x = Str s
  | IsNumber => forall x, v = Some x -> exists n, x = Num n
  | IsBoolean => forall x, v = Some x -> exists b, x = Bool b
  | MaxLength max => forall s, v = Some (Str s) -> Z.of_nat (length (bytes s)) <= max
  | MinLength min => forall s, v = Some (Str s) -> min <= Z.of_nat (length (bytes s))
  | MaxValue max => forall n x, v = Some (Num n) -> as_f64 (Num n) = Some x -> f64_gt x max = false
  | MinValue min => forall n x, v = Some (Num n) -> as_f64 (Num n) = Some x -> f64_lt x min = false
  | ForbiddenSubstrings ps => forall s p a b, v = Some (Str s) -> p ∈ ps -> s <> a ++ p ++ b
  end.

(** The schema as a type: an object all of whose fields conform. *)
Definition has_type (iv : InputValidator) (v : Value) : Prop :=
  exists m, v = Object m /\
    forall field sch, iv !! field = Some sch -> Forall (fun r => conforms r (json_get field m)) sch.

Lemma check_forbidden_spec field s ps :
  check_forbidden field s ps = Ok tt <-> forall p a b, p ∈ ps -> s <> a ++ p ++ b.
Proof.
  induction ps as [|p ps IH]; simpl.
  - split; [|done]. intros _ p a b Hp. by apply not_elem_of_nil in Hp.
  - destruct (contains p s) eqn:E.
    + split; [done|]. intros H. apply contains_spec in E as (a & b & ->). by destruct (H p a b); [left|].
    + rewrite IH. split.
      * intros H p' a b [->|Hp]%elem_of_cons; [|by apply H]. intros ->.
        rewrite <- not_true_iff_false, contains_spec in E. apply E. eauto.
      * intros H p' a b Hp. apply H. by right.
Qed.

Lemma check_forbidden_err field s ps e :
  check_forbidden field s ps = Err e -> exists reason, e = ValidationFailed field reason.
Proof. induction ps; simpl; [done|]. case_goal; [|done]. intros. simplify_eq. eauto. Qed.

Lemma check_err r field v e : check r field v = Err e -> exists reason, e = ValidationFailed field reason.
Proof.
  destruct r; simpl; repeat case_goal; intros; simplify_eq; eauto using check_forbidden_err.
Qed.

(** The verdict of a rule is its meaning. *)
Lemma if_err_iff {E A : Type} (b : bool) (e : E) (x : A) : (if b then Err e else Ok x) = Ok x <-> b = false.
Proof. by destruct b. Qed.

Lemma check_conforms r field v : check r field v = Ok tt <-> conforms r v.
Proof.
  destruct r; simpl.
  1-4: destruct v as [[]|]; simpl; naive_solver.
  1-2: destruct v as [[| | |s| |]|]; try naive_solver; rewrite if_err_iff, Z.ltb_ge, <- length_bytes; naive_solver.
  1-2: destruct v as [[| |n| | |]|]; try naive_solver; simpl;
    destruct n; rewrite if_err_iff; naive_solver.
  destruct v as [[]|]; rewrite ?check_forbidden_spec; naive_solver.
Qed.

Lemma field_validate_spec field v sch :
  (field_validate field v sch = Ok tt <-> Forall (fun r => conforms r v) sch) /\
  (forall e, field_validate field v sch = Err e -> exists r, r ∈ sch /\ check r field v = Err e).
Proof.
  induction sch as [|r sch [IH IHe]]; simpl; [split; [by split|done]|].
  rewrite Forall_cons, <- (check_conforms _ field).
  destruct (check r field v) as [[]|e] eqn:E; simpl.
  - rewrite IH. split; [by split; [|intros [_ ?]]|]. intros e He. destruct (IHe e He) as (r' & ? & ?).
    exists r'. split; [by right|done].
  - split; [by split; [|intros [? _]]|]. intros e' He. simplify_eq. exists r. split; [by left|done].
Qed.

Lemma validate_fields_spec m l :
  (validate_fields m l = Ok tt <->
   Forall (fun fs => Forall (fun r => conforms r (json_get fs.1 m)) fs.2) l) /\
  (forall e, validate_fields m l = Err e ->
   exists field sch r, (field, sch) ∈ l /\ r ∈ sch /\ check r field (json_get field m) = Err e).
Proof.
  induction l as [|[field sch] l [IH IHe]]; simpl; [split; [by split|done]|].
  destruct (field_validate_spec field (json_get field m) sch) as [Hs He].
  rewrite Forall_cons. simpl. rewrite <- Hs.
  destruct (field_validate field (json_get field m) sch) as [[]|e] eqn:E; simpl.
  - rewrite IH. split; [by split; [|intros [_ ?]]|]. intros e Heq. destruct (IHe e Heq) as (f' & s' & r & ? & ? & ?).
    exists f', s', r. split; [by right|done].
  - split; [by split; [|intros [? _]]|]. intros e' Heq. simplify_eq. destruct (He e' eq_refl) as (r & ? & ?).
    exists field, sch, r. split; [by left|done].
Qed.

(** Parameters are accepted exactly when they have the type the schema describes,
    whatever the iteration order of the schema map; a refusal names a field and a rule
    of its schema that the field's value does not conform to, unless the parameters
    are no object. *)
Theorem validate_value_typed v iv :
  (validate_value v iv = Ok tt <-> has_type iv v) /\
  (forall e, validate_value v iv = Err e -> exists field reason, e = ValidationFailed field reason /\
     (is_object v = false \/ exists m sch r, v = Object m /\ iv !! field = Some sch /\ r ∈ sch /\
        check r field (json_get field m) = Err e /\ ~ conforms r (json_get field m))).
Proof.
  unfold validate_value, has_type. destruct v as [| | | | |m];
    try (split; [naive_solver|intros e He; simplify_eq; eauto]; fail).
  unfold validate. destruct (validate_fields_spec m (hash_order iv)) as [Hs He]. split.
  - rewrite Hs, Forall_forall. split.
    + intros H. exists m. split; [done|]. intros field sch Hf. apply (H (field, sch)).
      by rewrite hash_order_perm, elem_of_map_to_list.
    + intros (m' & Hm & H) [field sch]. simplify_eq.
      rewrite hash_order_perm, elem_of_map_to_list. apply H.
  - intros e Heq. destruct (He e Heq) as (field & sch & r & Hin & Hr & Hc).
    rewrite hash_order_perm, elem_of_map_to_list in Hin.
    destruct (check_err _ _ _ _ Hc) as [reason ->]. exists field, reason. split; [done|]. right.
    exists m, sch, r. split_and!; try done. rewrite <- (check_conforms _ field). by rewrite Hc.
Qed.
(** ** Execution *)

(** The checks before the handler, in order: the first that fails. *)
Definition admission (action : str) (params : Value) (validator : option InputValidator)
    (handler : option Handler) (rd : Readings) (c : SandboxContext) : option (SandboxError * AuditOutcome) :=
  match check_limit c with
  | Err e => Some (e, Denied e)
  | Ok _ =>
  match check_action action (policy c) with
  | Err e => Some (e, Denied e)
  | Ok _ =>
  match match validator with Some iv => validate_value params iv | None => Ok tt end with
  | Err e => Some (e, Denied e)
  | Ok _ =>
  match handler, params with
  | None, _ => None
  | Some _, Object _ => (fun ms => (TimedOut ms, Timeout)) <$> timed_out rd c
  | Some _, _ => let e := ValidationFailed (lit "<root>") ParamsNotObject in Some (e, Denied e)
  end
  end
  end
  end.

(** What one call appends to the log. *)
Definition entry_of (k : Call) (c : SandboxContext) (o : AuditOutcome) : AuditEntry :=
  mkEntry (wall_ms (call_readings k)) (actor c) (call_action k) (call_params k)
    (elapsed_end (call_readings k) / 1000000) o.

Definition logged (k : Call) (c : SandboxContext) (o : AuditOutcome) (n : Z) : SandboxContext :=
  mkContext (policy c) (audit_log c ++ [entry_of k c o]) n (actor c).

(** C10: a call that fails a check calls no handler, changes nothing but the log, and
    returns the first failing check's error; one that passes them calls the handler
    once, on the parameters, and returns what it returns.  Every call leaves exactly
    one audit entry, which tells these cases apart, and only a success is counted. *)
Theorem execute_exact (k : Call) (c : SandboxContext) (w : W) :
  execute_call k c w =
  match admission (call_action k) (call_params k) (call_validator k) (call_handler k) (call_readings k) c with
  | Some (e, o) => (logged k c o (action_count c), w, Err e)
  | None =>
      match call_handler k, call_params k with
      | Some h, Object m =>
          match h m w with
          | (w', Ok v) => (logged k c Success (wrap32 (action_count c + 1)), w',
                           Ok (mkExecution (Some v) (elapsed_end (call_readings k))))
          | (w', Err e) => (logged k c (Error e) (action_count c), w', Err e)
          end
      | _, _ => (logged k c Success (wrap32 (action_count c + 1)), w,
                 Ok (mkExecution (Some Null) (elapsed_end (call_readings k))))
      end
  end.
Proof.
  unfold execute_call, execute, admission, deny, succeed, invoke.
  destruct (check_limit c) as [?|e]; [|done].
  destruct (check_action (call_action k) (policy c)) as [?|e]; [|done].
  destruct (match call_validator k with Some iv => validate_value (call_params k) iv | None => Ok tt end) as [?|e];
    [|done].
  destruct (call_handler k) as [h|]; [|done]. destruct (call_params k) as [| | | | |m] eqn:Ep; unfold deny, logged, entry_of, emit_audit;
    rewrite ?Ep; try done.
  destruct (timed_out (call_readings k) c); simpl; [done|]. destruct (h m w) as [w' [v|e]]; done.
Qed.

(** The context after a call: only the log and the counter move. *)
Lemma execute_call_context k c w : exists o n,
  fst (fst (execute_call k c w)) = logged k c o n /\
  n = (if is_success (entry_of k c o) then wrap32 (action_count c + 1) else action_count c) /\
  (check_limit c <> Ok tt -> is_success (entry_of k c o) = false) /\
  ((exists e, o = Error e) \/ o = Success -> check_action (call_action k) (policy c) = Ok tt).
Proof.
  rewrite execute_exact. unfold admission.
  destruct (check_limit c) as [[]|e] eqn:El; [|exists (Denied e); eexists; naive_solver].
  destruct (check_action (call_action k) (policy c)) as [[]|e]; [|exists (Denied e); eexists; naive_solver].
  destruct (match call_validator k with Some iv => validate_value (call_params k) iv | None => Ok tt end) as [[]|e];
    [|exists (Denied e); eexists; naive_solver].
  destruct (call_handler k) as [h|], (call_params k) as [| | | | |m]; simpl;
    try (eexists; eexists; split; [reflexivity|naive_solver]).
  destruct (timed_out (call_readings k) c) as [ms|]; simpl; [eexists; eexists; split; [reflexivity|naive_solver]|].
  destruct (h m w) as [w' [v|e]]; eexists; eexists; (split; [reflexivity|naive_solver]).
Qed.

(** Invariant of a session under policy [p]. *)
Record session_inv (p : SandboxPolicy) (n : nat) (c : SandboxContext) : Prop := {
  si_policy : policy c = p;
  si_length : length (audit_log c) = n;
  si_count : action_count c = wrap32 (Z.of_nat (length (successes (audit_log c))));
  si_limit m : max_actions p = Some m -> 0 <= m < u32_max -> Z.of_nat (length (successes (audit_log c))) <= m;
  si_allowed e : e ∈ audit_log c -> (exists x, outcome e = Error x) \/ outcome e = Success ->
    check_action (entry_action e) p = Ok tt;
}.

Lemma wrap32_succ z : wrap32 (wrap32 z + 1) = wrap32 (z + 1).
Proof. unfold wrap32. apply Zplus_mod_idemp_l. Qed.

Lemma session_inv_step p n c k w :
  session_inv p n c -> session_inv p (S n) (fst (fst (execute_call k c w))).
Proof.
  intros [Hp Hn Hc Hm Ha]. destruct (execute_call_context k c w) as (o & cnt & -> & -> & Hlim & Hact).
  assert (Hs : successes (audit_log c ++ [entry_of k c o]) =
    successes (audit_log c) ++ (if is_success (entry_of k c o) then [entry_of k c o] else [])).
  { unfold successes. rewrite filter_app. f_equal. by destruct o. }
  split; simpl.
  - done.
  - rewrite length_app. simpl. lia.
  - rewrite Hs, length_app. destruct (is_success (entry_of k c o)); simpl; rewrite Hc.
    + rewrite wrap32_succ. f_equal. lia.
    + f_equal. lia.
  - intros m Hmax Hr. specialize (Hm m Hmax Hr). rewrite Hs, length_app.
    destruct (is_success (entry_of k c o)) eqn:Eo; simpl; [|lia].
    destruct (decide (Z.of_nat (length (successes (audit_log c))) = m)) as [Heq|]; [|lia].
    exfalso. enough (check_limit c <> Ok tt) as H by (specialize (Hlim H); congruence).
    unfold check_limit. rewrite Hp, Hmax, Hc, wrap32_succ, Heq.
    assert (wrap32 (m + 1) = m + 1) as -> by (apply Z.mod_small; unfold u32_max in Hr; lia).
    replace (m <? m + 1) with true by lia. done.
  - intros e He Ho. apply elem_of_app in He as [He| ->%list_elem_of_singleton]; [by apply Ha|].
    simpl in *. rewrite <- Hp. by apply Hact.
Qed.

Lemma session_inv_run p l : forall n c w, session_inv p n c -> session_inv p (n + length l) (fst (session l c w)).
Proof.
  induction l as [|k l IH]; intros n c w Hi; simpl; [by rewrite Nat.add_0_r|].
  pose proof (session_inv_step p n c k w Hi) as H.
  destruct (execute_call k c w) as [[c' w'] r]. simpl in H. rewrite <- Nat.add_succ_comm. by apply IH.
Qed.

(** After any session the log has one entry per call, in order of the calls; the
    counter is the number of successes modulo 2^32; no more actions than [max_actions]
    succeed; and a handler was called only for actions the policy allows. *)
Theorem session_accounting (p : SandboxPolicy) (l : list Call) (w : W) :
  let c := fst (session l (context_new p) w) in
  map entry_action (audit_log c) = map call_action l /\
  action_count c = wrap32 (Z.of_nat (length (successes (audit_log c)))) /\
  (forall m, max_actions p = Some m -> 0 <= m < u32_max -> Z.of_nat (length (successes (audit_log c))) <= m) /\
  (forall e, e ∈ audit_log c -> (exists x, outcome e = Error x) \/ outcome e = Success ->
     entry_action e ∉ denied_actions p /\ forall al, allowed_actions p = Some al -> entry_action e ∈ al).
Proof.
  cbv zeta. assert (Hi : session_inv p 0 (context_new p)).
  { split; simpl; [done|done|done|intros; lia|]. intros e He. by apply not_elem_of_nil in He. }
  pose proof (session_inv_run p l 0 _ w Hi) as [_ _ Hc Hm Ha]. split.
  - assert (Hgen : forall l c w, map entry_action (audit_log (fst (session l c w))) =
        map entry_action (audit_log c) ++ map call_action l).
    { clear. induction l as [|k l IH]; intros c w; simpl; [by rewrite app_nil_r|].
      destruct (execute_call_context k c w) as (o & n & H & _).
      destruct (execute_call k c w) as [[c' w'] r]. simpl in H. subst c'. rewrite IH. simpl.
      by rewrite map_app, <- app_assoc. }
    apply (Hgen l (context_new p) w).
  - split; [done|]. split; [done|]. intros e He Ho. apply check_action_spec. by apply Ha.
Qed.

(** The execution mode is no part of it: [check_write] is called nowhere. *)
Definition in_mode (m : ExecutionMode) (c : SandboxContext) : SandboxContext :=
  mkContext (set_mode m (policy c)) (audit_log c) (action_count c) (actor c).

Lemma admission_mode m a v iv h rd c : admission a v iv h rd (in_mode m c) = admission a v iv h rd c.
Proof. done. Qed.

(** What the limits of a policy do not limit.  The mode changes nothing about any
    call: a read-only policy lets handlers write.  And a handler that fails is not
    counted: however small the limit, it can be called any number of times. *)
Theorem sandbox_gaps (k : Call) (h : Handler) (m : JsonMap) (act : str) (rd : Readings) (p : SandboxPolicy)
    (f : W -> W) (e : SandboxError) :
  (forall mode c w, execute_call k (in_mode mode c) w =
     (let '(c', w', r) := execute_call k c w in (in_mode mode c', w', r))) /\
  (check_action act p = Ok tt -> timeout_ms p = None -> (forall w, h m w = (f w, Err e)) ->
   (forall mx, max_actions p = Some mx -> 1 <= mx) ->
   forall n w, snd (session (replicate n (mkCall act (Object m) None (Some h) rd)) (context_new p) w)
     = Nat.iter n f w).
Proof.
  split.
  - intros mode c w. rewrite !execute_exact, admission_mode.
    destruct (admission _ _ _ _ _ c) as [[e0 o]|]; [done|].
    destruct (call_handler k) as [hk|]; [|done]. destruct (call_params k) as [| | | | |mk]; try done.
    by destruct (hk mk w) as [w' [v|e0]].
  - intros Hact Htime Hh Hmax n w.
    assert (Hgen : forall n c w, policy c = p -> action_count c = 0 ->
      snd (session (replicate n (mkCall act (Object m) None (Some h) rd)) c w) = Nat.iter n f w).
    { clear n w. induction n as [|n IH]; intros c w Hp Hc; [done|].
      simpl replicate. simpl session. rewrite execute_exact. unfold admission, check_limit, timed_out. simpl.
      rewrite Hp, Hc, Hact, Htime.
      assert ((match max_actions p with
               | Some max => if max <? wrap32 (0 + 1) then Err (ActionLimitExceeded max (wrap32 (0 + 1))) else Ok tt
               | None => Ok tt end : result SandboxError unit) = Ok tt) as ->.
      { destruct (max_actions p) as [mx|]; [|done]. specialize (Hmax mx eq_refl).
        replace (mx <? wrap32 (0 + 1)) with false; [done|]. symmetry. apply Z.ltb_ge. exact Hmax. }
      simpl. rewrite Hh. rewrite IH by done. by rewrite <- Nat.iter_succ_r. }
    by apply Hgen.
Qed.

End Sandbox.

(** ** Evaluation *)

Section Examples.
Local Open Scope string_scope.

Definition radius_schema : InputValidator :=
  register_schema (lit "radius") [Required; IsNumber; MaxValue (f64 10 0)] ∅.

Example validate_ex :
  validate_value (Object [(lit "radius", Num (PosInt 3))]) radius_schema = Ok tt /\
  validate_value (Object [(lit "radius", Num (PosInt 30))]) radius_schema
    = Err (ValidationFailed (lit "radius") (ValueExceeds (f64 30 0) (f64 10 0))) /\
  validate_value (Object []) radius_schema = Err (ValidationFailed (lit "radius") FieldRequired) /\
  validate_value Null radius_schema = Err (ValidationFailed (lit "<root>") ExpectedObject).
Proof. by vm_compute. Qed.

(** Three bytes, one character. *)
Example length_in_bytes :
  check (MaxLength 2) (lit "name") (Some (Str [8364%Z])) = Err (ValidationFailed (lit "name") (LengthExceeds 3 2)).
Proof. by vm_compute. Qed.

(** A handler that counts its calls in the world and fails, under a limit of one. *)
Definition failing (m : JsonMap) (w : Z) : Z * result SandboxError Value := (w + 1, Err (Internal (lit "x")))%Z.

Lemma sandbox_gaps_witness :
  snd (session (replicate 5 (mkCall (lit "a") (Object []) None (Some failing) (mkReadings 0 0 0)))
    (context_new (set_max_actions 1 default_sandbox_policy)) 0%Z) = 5%Z.
Proof.
  destruct (sandbox_gaps (mkCall (lit "a") (Object []) None (Some failing) (mkReadings 0 0 0)) failing [] (lit "a")
    (mkReadings 0 0 0) (set_max_actions 1 default_sandbox_policy) (Z.add 1) (Internal (lit "x"))) as [_ H].
  apply (H eq_refl eq_refl); [intros w; unfold failing; f_equal; lia|intros mx Hmx; vm_compute in Hmx; simplify_eq; lia].
Defined.

End Examples.
