(* ===== verification/HostQueue.v ===== *)
(** The main-thread dispatcher, [dcc-mcp-host/src/lib.rs]: a queue that worker
    threads post to and the host's main thread drains.

    The methods are not atomic: each is a sequence of atomic operations on the
    shared state (an atomic counter, a channel, a lock), and several threads run
    them at once.  A thread is the point it has reached in the method it runs
    ([pc]); [exec1] performs its next atomic operation.  The receiver's lock is
    the only mutual exclusion.  A posted closure is its outcome, a value or the
    message of its panic.  [sent], [received], [ran], [cancelled] and [posted]
    record history; no step reads them.

    Then the ring of wait times and its percentiles. *)

From Stdlib Require Import SpecFloat.
From S2P Require Import Prelude Json.

(** ** Data *)

Inductive DispatchError : Type :=
| Shutdown
| QueueOverloaded (depth capacity retry_after_secs : Z)
| ResultDropped
| Panic (message : string).

Record TickOutcome : Type := mkTick {
  jobs_executed : nat;
  jobs_panicked : nat;
  more_pending : bool;
}.

Section HostQueue.
Context {V : Type}.

(** A job with the handle its poster awaits. *)
Record Job : Type := mkJob { handle : nat; body : result string V }.

Record Enqueued : Type := mkEnqueued { env_job : Job; submitted_at : Z }.

(** [Shared]; the counters wrap at 64 bits. *)
Record Shared : Type := mkShared {
  rx : list Enqueued;
  pending : Z;
  shutdown : bool;
  capacity : Z;
  total_enqueued : Z;
  total_dequeued : Z;
  total_rejected : Z;
  submit_times : list Z;
  wait_samples : list Z;
}.

Definition wrap (z : Z) : Z := z mod 2 ^ 64.

Definition shared_with_capacity (cap : Z) : Shared := mkShared [] 0 false cap 0 0 0 [] [].

Definition with_rx r s := mkShared r (pending s) (shutdown s) (capacity s) (total_enqueued s)
  (total_dequeued s) (total_rejected s) (submit_times s) (wait_samples s).
Definition with_pending p s := mkShared (rx s) p (shutdown s) (capacity s) (total_enqueued s)
  (total_dequeued s) (total_rejected s) (submit_times s) (wait_samples s).
Definition with_shutdown s := mkShared (rx s) (pending s) true (capacity s) (total_enqueued s)
  (total_dequeued s) (total_rejected s) (submit_times s) (wait_samples s).
Definition with_enqueued n s := mkShared (rx s) (pending s) (shutdown s) (capacity s) n
  (total_dequeued s) (total_rejected s) (submit_times s) (wait_samples s).
Definition with_dequeued n s := mkShared (rx s) (pending s) (shutdown s) (capacity s) (total_enqueued s)
  n (total_rejected s) (submit_times s) (wait_samples s).
Definition with_rejected n s := mkShared (rx s) (pending s) (shutdown s) (capacity s) (total_enqueued s)
  (total_dequeued s) n (submit_times s) (wait_samples s).
Definition with_times l s := mkShared (rx s) (pending s) (shutdown s) (capacity s) (total_enqueued s)
  (total_dequeued s) (total_rejected s) l (wait_samples s).
Definition with_samples l s := mkShared (rx s) (pending s) (shutdown s) (capacity s) (total_enqueued s)
  (total_dequeued s) (total_rejected s) (submit_times s) l.

(** ** Wait-time samples *)

Definition SAMPLES_CAPACITY : nat := 256.

(** [WaitTimeSamples::observe]: a ring of the last samples. *)
Definition observe (wait_ms : Z) (samples : list Z) : list Z :=
  (if bool_decide (length samples = SAMPLES_CAPACITY) then tail samples else samples) ++ [wait_ms].

(** ** Threads *)

(** Where a thread stands.  [P]: in [post]; [T]: in [tick]; [B]: in
    [tick_blocking]; [S]: in [shutdown]. *)
Inductive pc : Type :=
| Idle
| PFlag (j : Job)
| PCap (j : Job)
| POver (j : Job)
| PDepth (j : Job)
| PSend (j : Job)
| PPend
| PTotal
| PTimes
| TLock (max_jobs : nat)
| TRecv (remaining : nat) (now : Z) (out : list Job)
| TObsTime (remaining : nat) (now : Z) (e : Enqueued) (out : list Job) (peek : bool)
| TObsWait (remaining : nat) (now : Z) (e : Enqueued) (out : list Job) (peek : bool)
| TObsCount (remaining : nat) (now : Z) (e : Enqueued) (out : list Job) (peek : bool)
| TPeek (now : Z) (out : list Job)
| TSub (out : list Job) (more : bool)
| TUnlock (out : list Job) (more : bool)
| TRun (out : list Job) (outcome : TickOutcome)
| BFast (max_jobs : nat)
| BLock (max_jobs : nat)
| BWait (max_jobs : nat)
| SFlag
| SLock (attempts : nat)
| SRecv
| SDec
| SClear
| SUnlock.

(** The call an idle thread makes next. *)
Inductive call : Type :=
| CPost (j : Job)
| CTick (max_jobs : nat)
| CTickBlocking (max_jobs : nat)
| CShutdown.

(** What the scheduler decides: a new call, the next operation, or that the wait
    of [tick_blocking] is over. *)
Inductive choice : Type :=
| Start (c : call)
| Go
| Timeout.

Record sys : Type := mkSys {
  sh : Shared;
  lock : option nat;
  threads : list pc;
  resolved : list (nat * result DispatchError V);
  outcomes : list TickOutcome;
  posted : list Job;
  sent : list Job;
  received : list Job;
  ran : list Job;
  cancelled : list Job;
}.

Definition goto (t : nat) (p : pc) (y : sys) : sys :=
  mkSys (sh y) (lock y) (<[t := p]> (threads y)) (resolved y) (outcomes y) (posted y) (sent y)
    (received y) (ran y) (cancelled y).
Definition on_shared (f : Shared -> Shared) (y : sys) : sys :=
  mkSys (f (sh y)) (lock y) (threads y) (resolved y) (outcomes y) (posted y) (sent y)
    (received y) (ran y) (cancelled y).
Definition set_lock (l : option nat) (y : sys) : sys :=
  mkSys (sh y) l (threads y) (resolved y) (outcomes y) (posted y) (sent y)
    (received y) (ran y) (cancelled y).
(** The send on a job's one-shot channel. *)
Definition resolve (j : Job) (r : result DispatchError V) (y : sys) : sys :=
  mkSys (sh y) (lock y) (threads y) (resolved y ++ [(handle j, r)]) (outcomes y) (posted y) (sent y)
    (received y) (ran y) (cancelled y).
Definition return_outcome (o : TickOutcome) (y : sys) : sys :=
  mkSys (sh y) (lock y) (threads y) (resolved y) (outcomes y ++ [o]) (posted y) (sent y)
    (received y) (ran y) (cancelled y).
Definition note_posted (j : Job) (y : sys) : sys :=
  mkSys (sh y) (lock y) (threads y) (resolved y) (outcomes y) (posted y ++ [j]) (sent y)
    (received y) (ran y) (cancelled y).
Definition note_sent (j : Job) (y : sys) : sys :=
  mkSys (sh y) (lock y) (threads y) (resolved y) (outcomes y) (posted y) (sent y ++ [j])
    (received y) (ran y) (cancelled y).
Definition note_received (j : Job) (y : sys) : sys :=
  mkSys (sh y) (lock y) (threads y) (resolved y) (outcomes y) (posted y) (sent y)
    (received y ++ [j]) (ran y) (cancelled y).
Definition note_ran (j : Job) (y : sys) : sys :=
  mkSys (sh y) (lock y) (threads y) (resolved y) (outcomes y) (posted y) (sent y)
    (received y) (ran y ++ [j]) (cancelled y).
Definition note_cancelled (j : Job) (y : sys) : sys :=
  mkSys (sh y) (lock y) (threads y) (resolved y) (outcomes y) (posted y) (sent y)
    (received y) (ran y) (cancelled y ++ [j]).

(** ** The methods, one atomic operation at a time *)

(** [rx.try_recv()]. *)
Definition try_recv (y : sys) : option (Enqueued * sys) :=
  match rx (sh y) with
  | [] => None
  | e :: rest => Some (e, note_received (env_job e) (on_shared (with_rx rest) y))
  end.

Definition enqueue_step (t : nat) (now : Z) (p : pc) (y : sys) : option sys :=
  match p with
  | PFlag j =>
      Some (if shutdown (sh y) then goto t Idle (resolve j (Err Shutdown) y) else goto t (PCap j) y)
  | PCap j =>
      Some (if ((0 <? capacity (sh y)) && (capacity (sh y) <=? pending (sh y)))%Z
            then goto t (POver j) y else goto t (PSend j) y)
  | POver j =>
      Some (goto t (PDepth j) (on_shared (fun s => with_rejected (wrap (total_rejected s + 1)) s) y))
  | PDepth j =>
      Some (goto t Idle
              (resolve j (Err (QueueOverloaded (pending (sh y)) (capacity (sh y)) 1)) y))
  | PSend j =>
      Some (goto t PPend (note_sent j (on_shared (fun s => with_rx (rx s ++ [mkEnqueued j now]) s) y)))
  | PPend => Some (goto t PTotal (on_shared (fun s => with_pending (wrap (pending s + 1)) s) y))
  | PTotal => Some (goto t PTimes (on_shared (fun s => with_enqueued (wrap (total_enqueued s + 1)) s) y))
  | PTimes => Some (goto t Idle (on_shared (fun s => with_times (submit_times s ++ [now]) s) y))
  | _ => None
  end.

(** [observe_dequeue], and the push that follows it. *)
Definition observe_step (t : nat) (p : pc) (y : sys) : option sys :=
  match p with
  | TObsTime k now e out peek =>
      Some (goto t (TObsWait k now e out peek) (on_shared (fun s => with_times (tail (submit_times s)) s) y))
  | TObsWait k now e out peek =>
      Some (goto t (TObsCount k now e out peek)
        (on_shared (fun s => with_samples (observe (sat_sub now (submitted_at e)) (wait_samples s)) s) y))
  | TObsCount k now e out peek =>
      Some (goto t (if peek then TSub (out ++ [env_job e]) true else TRecv (pred k) now (out ++ [env_job e]))
        (on_shared (fun s => with_dequeued (wrap (total_dequeued s + 1)) s) y))
  | _ => None
  end.

(** [drain_ready] and the loop of [tick]. *)
Definition drain_step (t : nat) (now : Z) (p : pc) (y : sys) : option sys :=
  match p with
  | TLock n =>
      Some (match lock y with
            | Some _ => goto t (TRun [] (mkTick 0 0 true)) y
            | None => goto t (TRecv n now []) (set_lock (Some t) y)
            end)
  | TRecv 0 now0 out => Some (goto t (TPeek now0 out) y)
  | TRecv (S k) now0 out =>
      Some (match try_recv y with
            | Some (e, y') => goto t (TObsTime (S k) now0 e out false) y'
            | None => goto t (TPeek now0 out) y
            end)
  | TPeek now0 out =>
      Some (match try_recv y with
            | Some (e, y') => goto t (TObsTime 0 now0 e out true) y'
            | None => goto t (TSub out false) y
            end)
  | TSub out more =>
      Some (goto t (TUnlock out more)
        (on_shared (fun s => with_pending (wrap (pending s - Z.of_nat (length out))) s) y))
  | TUnlock out more => Some (goto t (TRun out (mkTick 0 0 more)) (set_lock None y))
  | _ => None
  end.

(** [Job::run] on the head of the batch. *)
Definition run_step (t : nat) (p : pc) (y : sys) : option sys :=
  match p with
  | TRun [] o => Some (goto t Idle (return_outcome o y))
  | TRun (j :: out) o =>
      let panicked := match body j with Ok _ => 0 | Err _ => 1 end in
      Some (goto t (TRun out (mkTick (S (jobs_executed o)) (panicked + jobs_panicked o) (more_pending o)))
        (note_ran j (resolve j (map_err Panic (body j)) y)))
  | _ => None
  end.

(** [tick_blocking] and [drain_awaiting] up to the first job. *)
Definition blocking_step (t : nat) (c : choice) (now : Z) (p : pc) (y : sys) : option sys :=
  match p with
  | BFast n => Some (goto t (if (0 <? pending (sh y))%Z then TLock n else BLock n) y)
  | BLock n =>
      match lock y with
      | Some _ => None
      | None => Some (goto t (BWait n) (set_lock (Some t) y))
      end
  | BWait n =>
      match try_recv y, c with
      | Some (e, y'), _ => Some (goto t (TObsTime n now e [] false) y')
      | None, Timeout => Some (goto t Idle (return_outcome (mkTick 0 0 false) (set_lock None y)))
      | None, _ => None
      end
  | _ => None
  end.

Definition MAX_SPINS : nat := 1000.

Definition shutdown_step (t : nat) (p : pc) (y : sys) : option sys :=
  match p with
  | SFlag => Some (goto t (SLock 0) (on_shared with_shutdown y))
  | SLock attempts =>
      Some (match lock y with
            | None => goto t SRecv (set_lock (Some t) y)
            | Some _ => goto t (if MAX_SPINS <? S attempts then Idle else SLock (S attempts)) y
            end)
  | SRecv =>
      Some (match try_recv y with
            | Some (e, y') =>
                goto t SDec (note_cancelled (env_job e) (resolve (env_job e) (Err Shutdown) y'))
            | None => goto t SClear y
            end)
  | SDec => Some (goto t SRecv (on_shared (fun s => with_pending (wrap (pending s - 1)) s) y))
  | SClear => Some (goto t SUnlock (on_shared (with_times []) y))
  | SUnlock => Some (goto t Idle (set_lock None y))
  | _ => None
  end.

Definition begin (t : nat) (c : call) (y : sys) : sys :=
  match c with
  | CPost j => goto t (PFlag j) (note_posted j y)
  | CTick 0 | CTickBlocking 0 => return_outcome (mkTick 0 0 false) y
  | CTick n => goto t (TLock n) y
  | CTickBlocking n => goto t (BFast n) y
  | CShutdown => goto t SFlag y
  end.

(** One atomic operation of thread [t] at time [now]; [None] when it has none to
    perform (it is blocked, or the choice does not apply). *)
Definition exec1 (t : nat) (c : choice) (now : Z) (y : sys) : option sys :=
  p ← threads y !! t;
  match p, c with
  | Idle, Start k => Some (begin t k y)
  | Idle, _ | _, Start _ => None
  | (PFlag _ | PCap _ | POver _ | PDepth _ | PSend _ | PPend | PTotal | PTimes), _ =>
      enqueue_step t now p y
  | (TLock _ | TRecv _ _ _ | TPeek _ _ | TSub _ _ | TUnlock _ _), _ => drain_step t now p y
  | (TObsTime _ _ _ _ _ | TObsWait _ _ _ _ _ | TObsCount _ _ _ _ _), _ => observe_step t p y
  | TRun _ _, _ => run_step t p y
  | (BFast _ | BLock _ | BWait _), _ => blocking_step t c now p y
  | (SFlag | SLock _ | SRecv | SDec | SClear | SUnlock), _ => shutdown_step t p y
  end.

(** A schedule: who moves, what is chosen, and when. *)
Abbreviation schedule := (list (nat * choice * Z)).

Fixpoint exec (l : schedule) (y : sys) : option sys :=
  match l with
  | [] => Some y
  | (t, c, now) :: rest => y' ← exec1 t c now y; exec rest y'
  end.

(** [n] threads around a fresh dispatcher. *)
Definition init (n : nat) (cap : Z) : sys :=
  mkSys (shared_with_capacity cap) None (replicate n Idle) [] [] [] [] [] [] [].

(** ** Observers *)

Definition has_pending (y : sys) : bool := (0 <? pending (sh y))%Z.
Definition is_shutdown (y : sys) : bool := shutdown (sh y).
Definition oldest_wait_ms (now : Z) (y : sys) : option Z :=
  (fun t => sat_sub now t) <$> head (submit_times (sh y)).

End HostQueue.
Arguments Job : clear implicits.
Arguments pc : clear implicits.
Arguments call : clear implicits.
Arguments choice : clear implicits.
Arguments sys : clear implicits.
Arguments Shared : clear implicits.
Arguments Enqueued : clear implicits.

(** ** Percentiles

    The wait-time percentiles of the dispatcher, [WaitTimeSamples::percentiles] and
    [Shared::snapshot] of [dcc-mcp-host/src/lib.rs].

    The rank is computed in 64-bit floating point, [(q * n as f64).ceil()]; it is
    modelled bit for bit ([Json.v]) and shown to be the exact nearest rank for every ring size. *)

Local Open Scope Z_scope.

(** The literals [0.50], [0.95] and [0.99]. *)
Definition P50 : spec_float := f64 4503599627370496 (-53).
Definition P95 : spec_float := f64 8556839292003942 (-53).
Definition P99 : spec_float := f64 8917127262193582 (-53).

(** ** Percentiles *)

Definition rank (q : spec_float) (n : nat) : nat :=
  Nat.min (Z.to_nat (sat_sub (ceil_as_usize (f64_mul q (f64_of_usize (Z.of_nat n)))) 1)) (n - 1).

Definition percentiles (samples : list Z) : option Z * option Z * option Z :=
  match samples with
  | [] => (None, None, None)
  | _ =>
      let sorted := merge_sort Z.le samples in
      let pick q := sorted !! rank q (length sorted) in
      (pick P50, pick P95, pick P99)
  end.

Record QueueStats : Type := mkStats {
  stat_pending : Z;
  stat_capacity : option Z;
  stat_enqueued : Z;
  stat_dequeued : Z;
  stat_rejected : Z;
  stat_oldest_wait_ms : option Z;
  wait_percentiles_ms : option Z * option Z * option Z;
}.

Definition snapshot {V : Type} (now : Z) (y : sys V) : QueueStats :=
  mkStats (pending (sh y)) (if capacity (sh y) =? 0 then None else Some (capacity (sh y)))
    (total_enqueued (sh y)) (total_dequeued (sh y)) (total_rejected (sh y))
    (oldest_wait_ms now y) (percentiles (wait_samples (sh y))).

Example percentiles_ex : percentiles [7; 3; 9; 1; 5] = (Some 5, Some 9, Some 9).
Proof. vm_compute. reflexivity. Qed.

(** ** The rank is exact *)

(** For every number of samples the ring can hold, the floating-point rank is the
    nearest rank: the least index [i] with [num * n <= 100 * (i + 1)]. *)
Definition exact_rank (num n i : nat) : bool :=
  ((num * n <=? 100 * (i + 1)) && (100 * i <? num * n) && (i <? n))%nat.

Lemma rank_exact :
  forallb (fun n => exact_rank 50 n (rank P50 n) && exact_rank 95 n (rank P95 n) && exact_rank 99 n (rank P99 n))
    (seq 1 SAMPLES_CAPACITY) = true.
Proof. vm_compute. reflexivity. Qed.

Lemma rank_exact_at n : (1 <= n <= SAMPLES_CAPACITY)%nat ->
  exact_rank 50 n (rank P50 n) = true /\ exact_rank 95 n (rank P95 n) = true /\ exact_rank 99 n (rank P99 n) = true.
Proof.
  intros Hn. pose proof (proj1 (forallb_forall _ _) rank_exact n) as H.
  rewrite !andb_true_iff in H. destruct H as [[? ?] ?]; [apply in_seq; lia|done].
Qed.

(** [v] is the nearest-rank [num]-th percentile of [l]: at least [num] percent of the
    samples are at most [v], and fewer are below it. *)
Definition is_percentile (num : nat) (l : list Z) (v : Z) : Prop :=
  v ∈ l /\
  (num * length l <= 100 * length (filter (fun x : Z => x <= v)%Z l))%nat /\
  (100 * length (filter (fun x : Z => x < v)%Z l) < num * length l)%nat.

Lemma sorted_le_lookup (l : list Z) i j x y :
  StronglySorted Z.le l -> l !! i = Some x -> l !! j = Some y -> (i <= j)%nat -> x <= y.
Proof.
  intros Hs Hi Hj Hij. destruct (decide (i = j)) as [->|]; [simplify_eq; lia|].
  assert (Hlt : (i < j)%nat) by lia. revert i j x y Hi Hj Hij n Hlt.
  induction Hs as [|a l Hs IH Ha]; intros i j x y Hi Hj Hij n Hlt; [done|].
  destruct j as [|j]; [lia|]. destruct i as [|i]; simpl in *.
  - simplify_eq. rewrite Forall_lookup in Ha. by eapply Ha.
  - apply (IH i j); [done|done|lia|lia|lia].
Qed.

Lemma filter_all (P : Z -> Prop) `{!forall x, Decision (P x)} (l : list Z) : Forall P l -> filter P l = l.
Proof. induction 1; [done|]. rewrite filter_cons_True by done. congruence. Qed.

Lemma filter_none (P : Z -> Prop) `{!forall x, Decision (P x)} (l : list Z) :
  Forall (fun x => ~ P x) l -> filter P l = [].
Proof. induction 1; [done|]. by rewrite filter_cons_False. Qed.

Lemma filter_take_le (P : Z -> Prop) `{!forall x, Decision (P x)} i (l : list Z) : (length (filter P (take i l)) <= i)%nat.
Proof. pose proof (length_filter P (take i l)). rewrite length_take in *. lia. Qed.

(** In a sorted list the samples up to rank [i] are at most its element, and only
    earlier ones are smaller. *)
Lemma sorted_count (l : list Z) i v :
  StronglySorted Z.le l -> l !! i = Some v ->
  (i + 1 <= length (filter (fun x : Z => x <= v)%Z l))%nat /\ (length (filter (fun x : Z => x < v)%Z l) <= i)%nat.
Proof.
  intros Hs Hi. pose proof (lookup_lt_Some _ _ _ Hi) as Hlen.
  rewrite <- (take_drop (S i) l), !filter_app, !length_app. split.
  - rewrite filter_all; [rewrite length_take; lia|].
    apply Forall_lookup. intros k x Hk. apply lookup_take_Some in Hk as [Hk Hki].
    apply (sorted_le_lookup l k i); [done|done|done|lia].
  - rewrite (filter_none _ (drop (S i) l)).
    + rewrite (take_S_r _ _ v Hi), filter_app, filter_cons_False by lia.
      rewrite length_app, filter_nil. simpl. pose proof (filter_take_le (fun x : Z => x < v) i l). lia.
    + apply Forall_lookup. intros k x Hk. rewrite lookup_drop in Hk.
      assert (v <= x); [|lia]. apply (sorted_le_lookup l i (S i + k)); [done|done|done|lia].
Qed.

Lemma exact_rank_percentile num (l : list Z) i v :
  exact_rank num (length l) i = true -> merge_sort Z.le l !! i = Some v -> is_percentile num l v.
Proof.
  intros Hr Hi. unfold exact_rank in Hr. bool_to_prop. destruct Hr as [[H1 H2] _].
  assert (Hs : StronglySorted Z.le (merge_sort Z.le l)).
  { apply StronglySorted_merge_sort; [exact Z.le_trans|]. intros x y. lia. }
  pose proof (merge_sort_Permutation Z.le l) as Hp.
  destruct (sorted_count _ _ _ Hs Hi) as [Hle Hlt]. rewrite Hp in Hle. rewrite Hp in Hlt.
  split; [|lia]. rewrite <- Hp. by eapply list_elem_of_lookup_2.
Qed.

(** The percentiles of an empty ring are absent; those of any other are nearest-rank
    percentiles of the samples, exactly, although the rank is computed in floating
    point. *)
Theorem percentiles_exact (l : list Z) (Hlen : (length l <= SAMPLES_CAPACITY)%nat) :
  match percentiles l with
  | (Some p50, Some p95, Some p99) => is_percentile 50 l p50 /\ is_percentile 95 l p95 /\ is_percentile 99 l p99
  | (None, None, None) => l = []
  | _ => False
  end.
Proof.
  unfold percentiles. destruct l as [|a l']; [done|]. set (l := a :: l') in *.
  assert (Hn : (1 <= length l)%nat) by (unfold l; simpl; lia).
  rewrite (Permutation_length (merge_sort_Permutation Z.le l)).
  destruct (rank_exact_at (length l)) as (H50 & H95 & H99); [lia|].
  assert (Hpick : forall num q, exact_rank num (length l) (rank q (length l)) = true ->
    exists v, merge_sort Z.le l !! rank q (length l) = Some v).
  { intros num q Hr. apply lookup_lt_is_Some_2. rewrite (Permutation_length (merge_sort_Permutation Z.le l)).
    unfold exact_rank in Hr. bool_to_prop. lia. }
  destruct (Hpick _ _ H50) as [p50 E50], (Hpick _ _ H95) as [p95 E95], (Hpick _ _ H99) as [p99 E99].
  cbv zeta. rewrite E50, E95, E99. split_and!; by eapply exact_rank_percentile.
Qed.

(** The ring never outgrows its capacity, so the percentiles the dispatcher reports
    are exact. *)
Lemma observe_length w l : (length l <= SAMPLES_CAPACITY)%nat -> (length (observe w l) <= SAMPLES_CAPACITY)%nat.
Proof.
  unfold observe, SAMPLES_CAPACITY. intros Hl. case_bool_decide; rewrite length_app; [destruct l|]; simpl in *; lia.
Qed.

Lemma percentiles_exact_witness :
  (length [7; 3; 9; 1; 5] <= SAMPLES_CAPACITY)%nat /\ is_percentile 95 [7; 3; 9; 1; 5] 9.
Proof.
  assert (H : (length [7; 3; 9; 1; 5] <= SAMPLES_CAPACITY)%nat) by (vm_compute; lia).
  split; [done|]. exact (proj1 (proj2 (percentiles_exact [7; 3; 9; 1; 5] H))).
Defined.
