(* ===== verification/HostTick.v ===== *)
(** One tick of the main-thread dispatcher on its own, and schedules in which the
    dispatcher's bookkeeping goes wrong. *)

From S2P Require Import Prelude HostQueue.

Section HostTick.
Context {V : Type}.
Implicit Types (y : sys V) (j : Job V) (e : Enqueued V).

#[local] Opaque wrap observe.

(** ** The drain as one step *)

Definition observe1 (now : Z) e y : sys V :=
  on_shared (fun s => with_dequeued (wrap (total_dequeued s + 1)) s)
    (on_shared (fun s => with_samples (observe (sat_sub now (submitted_at e)) (wait_samples s)) s)
      (on_shared (fun s => with_times (tail (submit_times s)) s)
        (note_received (env_job e) (on_shared (fun s => with_rx (tail (rx s)) s) y)))).

Fixpoint observe_all (now : Z) (es : list (Enqueued V)) y : sys V :=
  match es with
  | [] => y
  | e :: rest => observe_all now rest (observe1 now e y)
  end.

Fixpoint run_all (out : list (Job V)) y : sys V :=
  match out with
  | [] => y
  | j :: rest => run_all rest (note_ran j (resolve j (map_err Panic (body j)) y))
  end.

Definition panics (out : list (Job V)) : nat :=
  length (filter (fun j => is_ok (body j) = false) out).

(** [k] more operations of thread [t], at time [now]. *)
Definition go (t k : nat) (now : Z) : list (nat * choice V * Z) := replicate k (t, Go, now).

Lemma goto_goto t (p q : pc V) y : goto t q (goto t p y) = goto t q y.
Proof. unfold goto. simpl. by rewrite list_insert_insert_eq. Qed.

Lemma goto_lookup t (p : pc V) y : t < length (threads y) -> threads (goto t p y) !! t = Some p.
Proof. intros H. simpl. by rewrite list_lookup_insert_eq. Qed.

Lemma exec_app (l k : list (nat * choice V * Z)) y y' y'' :
  exec l y = Some y' -> exec k y' = Some y'' -> exec (l ++ k) y = Some y''.
Proof.
  revert y. induction l as [|[[t c] now] l IH]; intros y H Hk; simpl in *; [by simplify_eq|].
  destruct (exec1 t c now y) as [y1|]; simpl in *; [by apply IH|done].
Qed.

Lemma go_app t k1 k2 now y y' y'' :
  exec (go t k1 now) y = Some y' -> exec (go t k2 now) y' = Some y'' -> exec (go t (k1 + k2) now) y = Some y''.
Proof. unfold go. rewrite replicate_add. apply exec_app. Qed.

Lemma go_step t k now y y1 y' :
  exec1 t Go now y = Some y1 -> exec (go t k now) y1 = Some y' -> exec (go t (S k) now) y = Some y'.
Proof. intros H Hk. simpl. by rewrite H. Qed.

(** One operation from a position the thread was just put at. *)
Ltac op :=
  unfold exec1; rewrite goto_lookup by (simpl; rewrite ?length_insert; done); simpl;
  unfold try_recv; simpl;
  repeat match goal with E : rx _ = _ |- _ => rewrite E end; reflexivity.

(** A thread's position is independent of the rest of the state. *)
Lemma on_shared_goto f t (p : pc V) y : on_shared f (goto t p y) = goto t p (on_shared f y).
Proof. done. Qed.
Lemma note_received_goto j t (p : pc V) y : note_received j (goto t p y) = goto t p (note_received j y).
Proof. done. Qed.
Lemma set_lock_goto o t (p : pc V) y : set_lock o (goto t p y) = goto t p (set_lock o y).
Proof. done. Qed.
Lemma resolve_goto j r t (p : pc V) y : resolve j r (goto t p y) = goto t p (resolve j r y).
Proof. done. Qed.
Lemma note_ran_goto j t (p : pc V) y : note_ran j (goto t p y) = goto t p (note_ran j y).
Proof. done. Qed.
Lemma return_outcome_goto o t (p : pc V) y : return_outcome o (goto t p y) = goto t p (return_outcome o y).
Proof. done. Qed.

Ltac same_state :=
  rewrite ?on_shared_goto, ?note_received_goto, ?set_lock_goto, ?resolve_goto, ?note_ran_goto,
    ?return_outcome_goto, ?goto_goto.

Lemma take_head e rest y : rx (sh y) = e :: rest ->
  on_shared (fun s => with_rx (tail (rx s)) s) y = on_shared (with_rx rest) y.
Proof. intros Hrx. unfold on_shared. by rewrite Hrx. Qed.

Lemma receive_one t k now now0 e rest out y :
  t < length (threads y) -> rx (sh y) = e :: rest ->
  exec (go t 4 now) (goto t (TRecv (S k) now0 out) y) =
    Some (goto t (TRecv k now0 (out ++ [env_job e])) (observe1 now0 e y)).
Proof.
  intros Ht Hrx. unfold go.
  eapply go_step with (k := 3); [op|]. eapply go_step with (k := 2); [op|].
  eapply go_step with (k := 1); [op|]. eapply go_step with (k := 0); [op|].
  cbn [exec go replicate]. f_equal. repeat same_state. f_equal. unfold observe1.
  by rewrite (take_head e rest y Hrx).
Qed.

Lemma observe_all_frame now es : forall y,
  threads (observe_all now es y) = threads y /\ lock (observe_all now es y) = lock y /\
  ran (observe_all now es y) = ran y /\ resolved (observe_all now es y) = resolved y /\
  outcomes (observe_all now es y) = outcomes y /\ pending (sh (observe_all now es y)) = pending (sh y) /\
  rx (sh (observe_all now es y)) = drop (length es) (rx (sh y)) /\
  shutdown (sh (observe_all now es y)) = shutdown (sh y).
Proof.
  induction es as [|e es IH]; intros y; simpl; [by rewrite drop_0|].
  destruct (IH (observe1 now e y)) as (-> & -> & -> & -> & -> & -> & -> & ->). simpl.
  split_and!; try done. destruct (rx (sh y)); simpl; by rewrite ?drop_nil.
Qed.

Lemma receive_loop t now now0 : forall k y out, t < length (threads y) ->
  exists m, exec (go t m now) (goto t (TRecv k now0 out) y) =
    Some (goto t (TPeek now0 (out ++ (env_job <$> take k (rx (sh y)))))
            (observe_all now0 (take k (rx (sh y))) y)).
Proof.
  induction k as [|k IH]; intros y out Ht.
  - exists 1. eapply go_step with (k := 0); [op|]. simpl. rewrite app_nil_r, goto_goto. done.
  - destruct (rx (sh y)) as [|e rest] eqn:Hrx; simpl.
    + exists 1. eapply go_step with (k := 0); [op|]. simpl. rewrite app_nil_r, goto_goto. done.
    + destruct (IH (observe1 now0 e y) (out ++ [env_job e])) as [m Hm]; [done|].
      exists (4 + m). eapply go_app; [by eapply receive_one|]. rewrite Hm. simpl. rewrite Hrx. simpl.
      by rewrite <- (assoc_L (++)).
Qed.

Lemma run_loop t now : forall out y o, t < length (threads y) ->
  exists m, exec (go t m now) (goto t (TRun out o) y) =
    Some (goto t Idle (return_outcome
      (mkTick (length out + jobs_executed o) (panics out + jobs_panicked o) (more_pending o)) (run_all out y))).
Proof.
  induction out as [|j out IH]; intros y o Ht.
  - exists 1. eapply go_step with (k := 0); [op|]. simpl. f_equal. destruct o. repeat same_state. reflexivity.
  - edestruct (IH (note_ran j (resolve j (map_err Panic (body j)) y))) as [m Hm]; [done|].
    exists (S m). eapply go_step; [op|].
    match goal with |- exec _ ?z = _ => replace z with
      (goto t (TRun out (mkTick (S (jobs_executed o))
        ((match body j with Ok _ => 0 | Err _ => 1 end) + jobs_panicked o) (more_pending o)))
        (note_ran j (resolve j (map_err Panic (body j)) y))) by (repeat same_state; reflexivity) end.
    rewrite Hm. simpl. do 3 f_equal. unfold panics. rewrite filter_cons.
    destruct (body j); simpl; f_equal; lia.
Qed.

Lemma run_all_frame out : forall y,
  threads (run_all out y) = threads y /\ lock (run_all out y) = lock y /\
  ran (run_all out y) = ran y ++ out /\
  resolved (run_all out y) = resolved y ++ ((fun j => (handle j, map_err Panic (body j))) <$> out) /\
  outcomes (run_all out y) = outcomes y /\ sh (run_all out y) = sh y.
Proof.
  induction out as [|j out IH]; intros y; simpl; [by rewrite !app_nil_r|].
  destruct (IH (note_ran j (resolve j (map_err Panic (body j)) y))) as (-> & -> & -> & -> & -> & ->).
  simpl. by rewrite <- !(assoc_L (++)).
Qed.

Lemma observe_all_app now es1 es2 : forall y,
  observe_all now (es1 ++ es2) y = observe_all now es2 (observe_all now es1 y).
Proof. induction es1 as [|e es1 IH]; intros y; simpl; [done|apply IH]. Qed.

Lemma peek_one t now now0 out y : t < length (threads y) ->
  exists m, exec (go t m now) (goto t (TPeek now0 out) y) =
    Some (goto t (TSub (out ++ (env_job <$> take 1 (rx (sh y)))) (bool_decide (rx (sh y) <> [])))
            (observe_all now0 (take 1 (rx (sh y))) y)).
Proof.
  intros Ht. destruct (rx (sh y)) as [|e rest] eqn:Hrx; simpl.
  - exists 1. eapply go_step with (k := 0); [op|]. simpl. by rewrite app_nil_r, goto_goto.
  - exists 4. eapply go_step with (k := 3); [op|]. eapply go_step with (k := 2); [op|].
    eapply go_step with (k := 1); [op|]. eapply go_step with (k := 0); [op|].
    cbn [exec go replicate]. f_equal. repeat same_state. f_equal. unfold observe1.
    by rewrite (take_head e rest y Hrx).
Qed.

Lemma batch_split {A} n (l : list A) : take (S n) l = take n l ++ take 1 (drop n l).
Proof. by rewrite take_take_drop, Nat.add_1_r. Qed.

(** The whole drain of a tick, from the lock to the batch. *)
Lemma drain_all t now n y : t < length (threads y) -> lock y = None ->
  exists m, exec (go t m now) (goto t (TLock n) y) =
    Some (goto t (TRun (env_job <$> take (S n) (rx (sh y))) (mkTick 0 0 (bool_decide (n < length (rx (sh y))))))
      (set_lock None
        (on_shared (fun s => with_pending (wrap (pending s - Z.of_nat (length (take (S n) (rx (sh y)))))) s)
          (observe_all now (take (S n) (rx (sh y))) (set_lock (Some t) y))))).
Proof.
  intros Ht Hl.
  destruct (receive_loop t now now n (set_lock (Some t) y) []) as [m1 H1]; [done|]. simpl in H1.
  set (y1 := observe_all now (take n (rx (sh y))) (set_lock (Some t) y)) in *.
  destruct (observe_all_frame now (take n (rx (sh y))) (set_lock (Some t) y))
    as (Hth & _ & _ & _ & _ & _ & Hrx & _). fold y1 in Hth, Hrx. simpl in Hth, Hrx.
  assert (Hrest : rx (sh y1) = drop n (rx (sh y))).
  { rewrite Hrx, length_take. destruct (decide (n <= length (rx (sh y)))).
    - by rewrite Nat.min_l.
    - rewrite Nat.min_r by lia. by rewrite !drop_ge by lia. }
  destruct (peek_one t now now (env_job <$> take n (rx (sh y))) y1) as [m2 H2]; [by rewrite Hth|].
  rewrite Hrest, <- fmap_app, <- batch_split in H2. unfold y1 in H2. rewrite <- observe_all_app, <- batch_split in H2.
  fold y1 in H2. exists (S (m1 + (m2 + 2))). eapply go_step.
  { unfold exec1. rewrite goto_lookup by done. simpl. rewrite Hl. reflexivity. }
  rewrite set_lock_goto, goto_goto. eapply go_app; [exact H1|]. eapply go_app; [exact H2|].
  destruct (observe_all_frame now (take (S n) (rx (sh y))) (set_lock (Some t) y)) as (Hth2 & _). simpl in Hth2.
  eapply go_step with (k := 1); [|eapply go_step with (k := 0)].
  - unfold exec1. rewrite goto_lookup by (by rewrite Hth2). reflexivity.
  - unfold exec1. rewrite goto_lookup by (simpl; by rewrite length_insert, Hth2). reflexivity.
  - cbn [exec go replicate]. f_equal. repeat same_state. rewrite length_fmap. f_equal. f_equal. f_equal.
    apply bool_decide_ext. rewrite <- length_zero_iff_nil, length_drop. lia.
Qed.

(** A tick with [max_jobs = n > 0] that runs while no other thread moves ends
    with the first [n + 1] queued jobs run in order, each handle resolved with its
    job's value or panic; the rest of the queue is untouched, the counter drops
    by the number of jobs run, and the outcome reports that number, the panics
    among them, and whether more than [n] jobs were queued. *)
Theorem tick_spec t now n y
  (Hidle : threads y !! t = Some Idle) (Hlock : lock y = None) (Hn : 0 < n) :
  exists m y', exec ((t, Start (CTick n), now) :: go t m now) y = Some y' /\
    let batch := env_job <$> take (S n) (rx (sh y)) in
    rx (sh y') = drop (S n) (rx (sh y)) /\
    ran y' = ran y ++ batch /\
    resolved y' = resolved y ++ ((fun j => (handle j, map_err Panic (body j))) <$> batch) /\
    outcomes y' = outcomes y ++ [mkTick (length batch) (panics batch) (bool_decide (n < length (rx (sh y))))] /\
    pending (sh y') = wrap (pending (sh y) - Z.of_nat (length batch)) /\
    threads y' = threads y /\ lock y' = None.
Proof.
  assert (Ht : t < length (threads y)) by (by eapply lookup_lt_Some).
  destruct (drain_all t now n y Ht Hlock) as [m1 H1].
  set (es := take (S n) (rx (sh y))) in *.
  destruct (observe_all_frame now es (set_lock (Some t) y)) as (Oth & Olo & Ora & Ore & Oou & Ope & Orx & _).
  match type of H1 with _ = Some (goto t (TRun ?out ?o) ?z) =>
    set (o1 := o) in H1; destruct (run_loop t now out z o1) as [m2 H2]; [simpl; by rewrite Oth|];
    destruct (run_all_frame out z) as (Rth & Rlo & Rra & Rre & Rou & Rsh) end.
  exists (m1 + m2). eexists. split.
  { simpl. unfold exec1. rewrite Hidle. simpl. destruct n; [lia|]. simpl.
    eapply go_app; [exact H1|exact H2]. }
  cbv zeta. simpl in *. rewrite !length_fmap. rewrite ?Rth, ?Rlo, ?Rra, ?Rre, ?Rou, ?Rsh. simpl.
  rewrite ?Ora, ?Ore, ?Oou, ?Ope, ?Orx, ?Oth. simpl. rewrite !Nat.add_0_r.
  split_and!; try done.
  - unfold es. rewrite length_take. destruct (decide (S n <= length (rx (sh y)))).
    + by rewrite Nat.min_l.
    + rewrite Nat.min_r by lia. by rewrite !drop_ge by lia.
  - by apply list_insert_id.
Qed.

End HostTick.

(** ** Witness and races *)

Section Races.
Local Open Scope Z_scope.
Local Open Scope string_scope.

Definition job_a : Job string := mkJob 0 (Ok "a").
Definition job_b : Job string := mkJob 1 (Err "boom").

Definition two_posted : sys string :=
  default (init 1 0) (exec ([(0%nat, Start (CPost job_a), 1)] ++ go 0 6 1
    ++ [(0%nat, Start (CPost job_b), 2)] ++ go 0 6 2) (init 1 0)).

Lemma tick_spec_witness :
  exists m y', exec ((0%nat, Start (CTick 1), 5) :: go 0 m 5) two_posted = Some y' /\
    resolved y' = [(0%nat, Ok "a"); (1%nat, Err (Panic "boom"))] /\
    outcomes y' = [mkTick 2 1 true].
Proof.
  destruct (tick_spec 0 5 1 two_posted) as (m & y' & E & _ & _ & Hr & Ho & _);
    [vm_compute; reflexivity|vm_compute; reflexivity|lia|].
  exists m, y'. split; [exact E|]. rewrite Hr, Ho. vm_compute. split; reflexivity.
Defined.

(** Thread 0 posts [j] up to and including the send on the channel. *)
Definition post_unfinished (j : Job string) : list (nat * choice string * Z) :=
  (0%nat, Start (CPost j), 1) :: go 0 3 1.

(** Three schedules in which the methods' atomic operations interleave badly.
    A job drained before its poster recorded the submit time leaves that time in the
    ledger: with no job queued and no method running, the oldest wait grows for
    ever.  A job drained before its poster counted it makes the counter wrap: a
    bounded dispatcher refuses the next job, at depth [2^64 - 1], with an empty
    queue.  A job whose poster read the flag before a shutdown is queued after it:
    its handle is not resolved, and a later tick still runs it. *)
Theorem dispatch_races :
  (exists y, exec (post_unfinished job_a ++ [(1%nat, Start (CTick 1), 2)] ++ go 1 11 2 ++ go 0 3 3) (init 2 0)
     = Some y /\
     threads y = [Idle; Idle] /\ rx (sh y) = [] /\ pending (sh y) = 0 /\
     (forall now, 3 <= now -> oldest_wait_ms now y = Some (now - 3))) /\
  (exists y, exec (post_unfinished job_a ++ [(1%nat, Start (CTick 1), 2)] ++ go 1 11 2
       ++ [(2%nat, Start (CPost job_b), 3)] ++ go 2 4 3) (init 3 1) = Some y /\
     rx (sh y) = [] /\
     resolved y = [(0%nat, Ok "a"); (1%nat, Err (QueueOverloaded (2 ^ 64 - 1) 1 1))]) /\
  (exists y y', exec ((0%nat, Start (CPost job_a), 1) :: go 0 1 1 ++ [(1%nat, Start CShutdown, 2)] ++ go 1 5 2
       ++ go 0 5 3) (init 2 0) = Some y /\
     threads y = [Idle; Idle] /\ is_shutdown y = true /\ resolved y = [] /\ length (rx (sh y)) = 1%nat /\
     exec ((1%nat, Start (CTick 1), 4) :: go 1 11 4) y = Some y' /\ resolved y' = [(0%nat, Ok "a")]).
Proof.
  split; [|split].
  - eexists. split; [vm_compute; reflexivity|]. split_and!; try reflexivity.
    intros now Hnow. unfold oldest_wait_ms, sat_sub. simpl. f_equal. lia.
  - eexists. split; [vm_compute; reflexivity|]. split; vm_compute; reflexivity.
  - eexists. eexists. split; [vm_compute; reflexivity|]. do 4 (split; [reflexivity|]).
    split; [vm_compute; reflexivity|]. reflexivity.
Qed.

End Races.
