(* ===== verification/HostProps.v ===== *)
(** Properties of the main-thread dispatcher under every interleaving of its
    callers: where the jobs are, in what order they are received, what the
    counters say, and how far a bounded queue can be overrun. *)

From S2P Require Import Prelude HostQueue.

Section HostProps.
Context {V : Type}.
Implicit Types (y : sys V) (p q : pc V) (j : Job V).

(** ** What a thread holds *)

(** The jobs between a poster's call and the channel, and between the channel and
    their run. *)
Definition in_hand p : list (Job V) :=
  match p with
  | PFlag j | PCap j | POver j | PDepth j | PSend j => [j]
  | TRecv _ _ out | TPeek _ out | TSub out _ | TUnlock out _ | TRun out _ => out
  | TObsTime _ _ e out _ | TObsWait _ _ e out _ | TObsCount _ _ e out _ => out ++ [env_job e]
  | _ => []
  end.

(** Sent but not yet counted in [pending]; received but not yet subtracted from it. *)
Definition uncounted p : nat := match p with PPend => 1 | _ => 0 end.
Definition unsubtracted p : nat :=
  match p with
  | TRecv _ _ out | TPeek _ out | TSub out _ => length out
  | TObsTime _ _ _ out _ | TObsWait _ _ _ out _ | TObsCount _ _ _ out _ => S (length out)
  | SDec => 1
  | _ => 0
  end.
Definition unenqueued p : nat := match p with PPend | PTotal => 1 | _ => 0 end.
Definition unobserved p : nat :=
  match p with TObsTime _ _ _ _ _ | TObsWait _ _ _ _ _ | TObsCount _ _ _ _ _ => 1 | _ => 0 end.
Definition admitted p : nat := match p with PSend _ => 1 | _ => 0 end.

(** The threads that own the receiver. *)
Definition holds p : bool :=
  match p with
  | TRecv _ _ _ | TPeek _ _ | TSub _ _ | TUnlock _ _ | TObsTime _ _ _ _ _ | TObsWait _ _ _ _ _
  | TObsCount _ _ _ _ _ | BWait _ | SRecv | SDec | SClear | SUnlock => true
  | _ => false
  end.

Definition tsum (f : pc V -> nat) y : nat := sum_list_with f (threads y).
Definition tconcat (f : pc V -> list (Job V)) y : list (Job V) := mjoin (f <$> threads y).
Definition queued y : list (Job V) := env_job <$> rx (sh y).

Lemma concat_insert (f : pc V -> list (Job V)) l t p q :
  l !! t = Some p -> mjoin (f <$> <[t := q]> l) ++ f p ≡ₚ mjoin (f <$> l) ++ f q.
Proof.
  revert t. induction l as [|x l IH]; intros [|t] H; simpl in *; simplify_eq.
  - rewrite (Permutation_app_comm _ (f p)), <- (assoc_L (++) (f p)).
    apply Permutation_app_head, Permutation_app_comm.
  - rewrite <- !(assoc_L (++)). by rewrite (IH t H).
Qed.

Lemma wrap_add a b : wrap (wrap a + b) = wrap (a + b).
Proof. unfold wrap. apply Zplus_mod_idemp_l. Qed.

Lemma wrap_sub a b : wrap (wrap a - b) = wrap (a - b).
Proof. unfold wrap. apply Zminus_mod_idemp_l. Qed.

(** ** The invariant *)

Record host_inv y : Prop := {
  h_place : handle <$> posted y ≡ₚ
    (handle <$> tconcat in_hand y) ++ (handle <$> queued y) ++ (resolved y).*1;
  h_fifo : sent y = received y ++ queued y;
  h_pending : pending (sh y) =
    wrap (Z.of_nat (length (queued y)) + Z.of_nat (tsum unsubtracted y) - Z.of_nat (tsum uncounted y));
  h_enqueued : total_enqueued (sh y) =
    wrap (Z.of_nat (length (sent y)) - Z.of_nat (tsum unenqueued y));
  h_dequeued : total_dequeued (sh y) =
    wrap (Z.of_nat (length (received y)) - Z.of_nat (length (cancelled y)) - Z.of_nat (tsum unobserved y));
  h_subtracted : tsum unsubtracted y <= length (received y);
  h_lock t p : threads y !! t = Some p -> holds p = true -> lock y = Some t;
}.

(** One operation of thread [t]: it moves from [p] to [q], and what leaves its hand
    or its share of a counter is accounted for elsewhere. *)
Lemma inv_step y y' t p q (dp de dd : Z) :
  host_inv y -> threads y !! t = Some p -> threads y' = <[t := q]> (threads y) ->
  (handle <$> posted y') ++ (handle <$> in_hand p) ++ (handle <$> queued y) ++ (resolved y).*1 ≡ₚ
    (handle <$> posted y) ++ (handle <$> in_hand q) ++ (handle <$> queued y') ++ (resolved y').*1 ->
  (sent y = received y ++ queued y -> sent y' = received y' ++ queued y') ->
  pending (sh y') = wrap (pending (sh y) + dp) ->
  (Z.of_nat (length (queued y')) + Z.of_nat (unsubtracted q) - Z.of_nat (uncounted q) =
   Z.of_nat (length (queued y)) + Z.of_nat (unsubtracted p) - Z.of_nat (uncounted p) + dp)%Z ->
  total_enqueued (sh y') = wrap (total_enqueued (sh y) + de) ->
  (Z.of_nat (length (sent y')) - Z.of_nat (unenqueued q) =
   Z.of_nat (length (sent y)) - Z.of_nat (unenqueued p) + de)%Z ->
  total_dequeued (sh y') = wrap (total_dequeued (sh y) + dd) ->
  (Z.of_nat (length (received y')) - Z.of_nat (length (cancelled y')) - Z.of_nat (unobserved q) =
   Z.of_nat (length (received y)) - Z.of_nat (length (cancelled y)) - Z.of_nat (unobserved p) + dd)%Z ->
  length (received y) + unsubtracted q <= length (received y') + unsubtracted p ->
  (lock y' = lock y /\ (holds q = true -> holds p = true)) \/
  (lock y = None /\ lock y' = Some t) \/ (holds p = true /\ holds q = false) ->
  host_inv y'.
Proof.
  intros [Hpl Hff Hpe Hen Hde Hsu Hlo] Hp Hq Hplace Hfifo Hpe' Ep Hen' Ee Hde' Ed Hsub Hlock.
  assert (Hsum : forall f, tsum f y' + f p = tsum f y + f q)
    by (intros f; unfold tsum; rewrite Hq; by apply sum_insert).
  pose proof (Hsum unsubtracted). pose proof (Hsum uncounted). pose proof (Hsum unenqueued).
  pose proof (Hsum unobserved). split.
  - assert (Hhand : (handle <$> tconcat in_hand y') ++ (handle <$> in_hand p) ≡ₚ
      (handle <$> tconcat in_hand y) ++ (handle <$> in_hand q)).
    { rewrite <- !fmap_app. f_equiv. unfold tconcat. rewrite Hq. by apply concat_insert. }
    rewrite Hpl in Hplace.
    apply (Permutation_app_inv_r ((handle <$> in_hand p) ++ (handle <$> queued y) ++ (resolved y).*1)).
    rewrite Hplace.
    trans (((handle <$> tconcat in_hand y') ++ (handle <$> in_hand p)) ++ (handle <$> queued y')
      ++ (resolved y').*1 ++ (handle <$> queued y) ++ (resolved y).*1); [rewrite Hhand|];
      solve_Permutation.
  - by apply Hfifo.
  - rewrite Hpe', Hpe, wrap_add. f_equal. lia.
  - rewrite Hen', Hen, wrap_add. f_equal. lia.
  - rewrite Hde', Hde, wrap_add. f_equal. lia.
  - lia.
  - intros t' p'. rewrite Hq. destruct (decide (t' = t)) as [->|Ht].
    + rewrite list_lookup_insert_eq by (by eapply lookup_lt_Some). intros [= <-] Hh.
      destruct Hlock as [[-> Hh']|[[_ ->]|[_ Hh']]]; [|done|congruence]. eapply Hlo; [done|auto].
    + rewrite list_lookup_insert_ne by done. intros Hp' Hh. pose proof (Hlo _ _ Hp' Hh) as Hl.
      destruct Hlock as [[-> _]|[[Hl' _]|[Hh' _]]]; [done|congruence|].
      pose proof (Hlo _ _ Hp Hh'). congruence.
Qed.

Lemma wrapped y : host_inv y ->
  wrap (pending (sh y)) = pending (sh y) /\ wrap (total_enqueued (sh y)) = total_enqueued (sh y) /\
  wrap (total_dequeued (sh y)) = total_dequeued (sh y).
Proof.
  intros H. destruct H as [_ _ -> -> -> _ _]. unfold wrap. by rewrite !Z.mod_mod.
Qed.

Ltac kept H := simpl; rewrite Z.add_0_r; symmetry; apply (wrapped _ H).

Ltac place := simpl; unfold queued; simpl; rewrite ?fmap_app, ?app_nil_r; simpl; solve_Permutation.

Ltac count := simpl; unfold queued; simpl; rewrite ?length_fmap, ?length_app; simpl; lia.

Ltac same_lock := left; split; [reflexivity|by intros].

(** Apply [inv_step] with the new position and the three counter deltas. *)
Ltac step_to H q dp de dd :=
  eapply (inv_step _ _ _ _ q dp de dd);
  [exact H|eassumption|reflexivity|place|try done|first [kept H|reflexivity]|count
  |first [kept H|reflexivity]|count|first [kept H|reflexivity]|count|count|try same_lock].

Lemma enqueue_step_inv t now p y y' :
  host_inv y -> threads y !! t = Some p -> enqueue_step t now p y = Some y' -> host_inv y'.
Proof.
  intros Hinv Hp H. destruct p; simpl in H; try done; inv H.
  - destruct (shutdown (sh y)).
    + step_to Hinv (@Idle V) 0%Z 0%Z 0%Z.
    + step_to Hinv (PCap j) 0%Z 0%Z 0%Z.
  - destruct (_ && _).
    + step_to Hinv (POver j) 0%Z 0%Z 0%Z.
    + step_to Hinv (PSend j) 0%Z 0%Z 0%Z.
  - step_to Hinv (PDepth j) 0%Z 0%Z 0%Z.
  - step_to Hinv (@Idle V) 0%Z 0%Z 0%Z.
  - step_to Hinv (@PPend V) 0%Z 0%Z 0%Z.
    intros E. unfold queued. simpl. by rewrite E, fmap_app, (assoc_L (++)).
  - step_to Hinv (@PTotal V) 1%Z 0%Z 0%Z.
  - step_to Hinv (@PTimes V) 0%Z 1%Z 0%Z.
  - step_to Hinv (@Idle V) 0%Z 0%Z 0%Z.
Qed.

Lemma observe_step_inv t p y y' :
  host_inv y -> threads y !! t = Some p -> observe_step t p y = Some y' -> host_inv y'.
Proof.
  intros Hinv Hp H. destruct p; simpl in H; try done; inv H.
  - step_to Hinv (TObsWait remaining now e out peek) 0%Z 0%Z 0%Z.
  - step_to Hinv (TObsCount remaining now e out peek) 0%Z 0%Z 0%Z.
  - destruct peek.
    + step_to Hinv (TSub (out ++ [env_job e]) true) 0%Z 0%Z 1%Z.
    + step_to Hinv (TRecv (pred remaining) now (out ++ [env_job e])) 0%Z 0%Z 1%Z.
Qed.

Lemma run_step_inv t p y y' :
  host_inv y -> threads y !! t = Some p -> run_step t p y = Some y' -> host_inv y'.
Proof.
  intros Hinv Hp H. destruct p as [| | | | | | | | | | | | | | | | |out o| | | | | | | | |]; simpl in H; try done.
  destruct out as [|j out]; inv H.
  - step_to Hinv (@Idle V) 0%Z 0%Z 0%Z.
  - match goal with |- host_inv (goto t ?q _) => step_to Hinv q 0%Z 0%Z 0%Z end.
Qed.

(** A received job moves from the channel to the hand of its receiver. *)
Lemma receive_inv y e rest t p q :
  host_inv y -> threads y !! t = Some p -> rx (sh y) = e :: rest ->
  in_hand q ≡ₚ in_hand p ++ [env_job e] -> unsubtracted q = S (unsubtracted p) ->
  uncounted q = uncounted p -> unenqueued q = unenqueued p -> unobserved q = S (unobserved p) ->
  (holds q = true -> holds p = true) ->
  host_inv (goto t q (note_received (env_job e) (on_shared (with_rx rest) y))).
Proof.
  intros Hinv Hp Hrx Hhand Hu Hc He Ho Hh.
  eapply (inv_step _ _ _ _ q 0%Z 0%Z 0%Z); [exact Hinv|exact Hp|reflexivity|..].
  - simpl. unfold queued. simpl. rewrite Hrx, Hhand, fmap_app. simpl. solve_Permutation.
  - unfold queued. simpl. rewrite Hrx. simpl. by rewrite <- (assoc_L (++)).
  - kept Hinv.
  - unfold queued. simpl. rewrite !length_fmap, Hrx, Hu, Hc. simpl. lia.
  - kept Hinv.
  - simpl. lia.
  - kept Hinv.
  - simpl. rewrite Ho, length_app. simpl. lia.
  - simpl. rewrite Hu, length_app. simpl. lia.
  - by left.
Qed.

Lemma drain_step_inv t now p y y' :
  host_inv y -> threads y !! t = Some p -> drain_step t now p y = Some y' -> host_inv y'.
Proof.
  intros Hinv Hp H. destruct p as [| | | | | | | | |n|k now0 out| | | |now0 out|out more|out more| | | | | | | | | |];
    simpl in H; try done.
  - inv H. destruct (lock y) eqn:El.
    + step_to Hinv (TRun [] (mkTick 0 0 true) : pc V) 0%Z 0%Z 0%Z.
    + step_to Hinv (TRecv n now [] : pc V) 0%Z 0%Z 0%Z. right. by left.
  - destruct k as [|k]; inv H.
    + step_to Hinv (TPeek now0 out) 0%Z 0%Z 0%Z.
    + unfold try_recv. destruct (rx (sh y)) as [|e rest] eqn:Erx.
      * step_to Hinv (TPeek now0 out) 0%Z 0%Z 0%Z.
      * eapply receive_inv; try done.
  - inv H. unfold try_recv. destruct (rx (sh y)) as [|e rest] eqn:Erx.
    + step_to Hinv (TSub out false) 0%Z 0%Z 0%Z.
    + eapply receive_inv; done.
  - inv H. step_to Hinv (TUnlock out more) (- Z.of_nat (length out))%Z 0%Z 0%Z.
  - inv H. step_to Hinv (TRun out (mkTick 0 0 more)) 0%Z 0%Z 0%Z. right. by right.
Qed.

Lemma blocking_step_inv t c now p y y' :
  host_inv y -> threads y !! t = Some p -> blocking_step t c now p y = Some y' -> host_inv y'.
Proof.
  intros Hinv Hp H.
  destruct p as [| | | | | | | | | | | | | | | | | |n|n|n| | | | | |]; simpl in H; try done.
  - inv H. destruct (0 <? _)%Z.
    + step_to Hinv (TLock n : pc V) 0%Z 0%Z 0%Z.
    + step_to Hinv (BLock n : pc V) 0%Z 0%Z 0%Z.
  - destruct (lock y) eqn:El; inv H. step_to Hinv (BWait n : pc V) 0%Z 0%Z 0%Z. right. by left.
  - unfold try_recv in H. destruct (rx (sh y)) as [|e rest] eqn:Erx.
    + destruct c; inv H. step_to Hinv (@Idle V) 0%Z 0%Z 0%Z. right. by right.
    + inv H. eapply receive_inv; done.
Qed.

Lemma shutdown_step_inv t p y y' :
  host_inv y -> threads y !! t = Some p -> shutdown_step t p y = Some y' -> host_inv y'.
Proof.
  intros Hinv Hp H.
  destruct p as [| | | | | | | | | | | | | | | | | | | | | |n| | | |]; simpl in H; try done.
  - inv H. step_to Hinv (SLock 0 : pc V) 0%Z 0%Z 0%Z.
  - inv H. destruct (lock y) eqn:El.
    + case_match; [step_to Hinv (@Idle V) 0%Z 0%Z 0%Z|step_to Hinv (SLock (S n) : pc V) 0%Z 0%Z 0%Z].
    + step_to Hinv (@SRecv V) 0%Z 0%Z 0%Z. right. by left.
  - inv H. unfold try_recv. destruct (rx (sh y)) as [|e rest] eqn:Erx.
    + step_to Hinv (@SClear V) 0%Z 0%Z 0%Z.
    + eapply (inv_step _ _ _ _ (@SDec V) 0%Z 0%Z 0%Z);
        [exact Hinv|exact Hp|reflexivity|..]; unfold queued; simpl; rewrite ?length_fmap, ?Erx; simpl.
      * rewrite fmap_app. simpl. solve_Permutation.
      * intros ->. by rewrite <- (assoc_L (++)).
      * kept Hinv.
      * lia.
      * kept Hinv.
      * lia.
      * kept Hinv.
      * rewrite !length_app. simpl. lia.
      * rewrite length_app. simpl. lia.
      * by left.
  - inv H. step_to Hinv (@SRecv V) (-1)%Z 0%Z 0%Z.
  - inv H. step_to Hinv (@SUnlock V) 0%Z 0%Z 0%Z.
  - inv H. step_to Hinv (@Idle V) 0%Z 0%Z 0%Z. right. by right.
Qed.

Lemma begin_inv t c y : host_inv y -> threads y !! t = Some Idle -> host_inv (begin t c y).
Proof.
  intros Hinv Hp. destruct c as [j|[|n]|[|n]|]; simpl.
  - step_to Hinv (PFlag j) 0%Z 0%Z 0%Z.
  - by destruct Hinv.
  - step_to Hinv (TLock (S n) : pc V) 0%Z 0%Z 0%Z.
  - by destruct Hinv.
  - step_to Hinv (BFast (S n) : pc V) 0%Z 0%Z 0%Z.
  - step_to Hinv (@SFlag V) 0%Z 0%Z 0%Z.
Qed.

Lemma exec1_inv t c now y y' : host_inv y -> exec1 t c now y = Some y' -> host_inv y'.
Proof.
  intros Hinv H. unfold exec1 in H. destruct (threads y !! t) as [p|] eqn:Hp; [|done]. simpl in H.
  destruct p; try (destruct c; try done;
    solve [by eapply enqueue_step_inv|by eapply drain_step_inv|by eapply observe_step_inv
          |by eapply run_step_inv|by eapply blocking_step_inv|by eapply shutdown_step_inv]).
  destruct c; inv H. by apply begin_inv.
Qed.

Lemma exec_inv l : forall y y', host_inv y -> exec l y = Some y' -> host_inv y'.
Proof.
  induction l as [|[[t c] now] l IH]; intros y y' Hinv H; simpl in H; [by simplify_eq|].
  destruct (exec1 t c now y) as [y1|] eqn:E; [|done]. simpl in H.
  eapply IH; [|done]. by eapply exec1_inv.
Qed.

Lemma sum_replicate (f : pc V -> nat) n : f Idle = 0 -> sum_list_with f (replicate n Idle) = 0.
Proof. intros H. induction n as [|n IH]; simpl; [done|]. by rewrite H, IH. Qed.

Lemma concat_replicate n : mjoin (in_hand <$> replicate n (@Idle V)) = [].
Proof. by induction n. Qed.

Lemma init_inv n cap : host_inv (init n cap).
Proof.
  split; unfold tsum, tconcat, queued; simpl; rewrite ?sum_replicate, ?concat_replicate; try done.
  intros t p [-> _]%lookup_replicate. done.
Qed.

(** All methods have returned. *)
Definition quiescent y : Prop := Forall (fun p => p = Idle) (threads y).

Lemma quiescent_sum (f : pc V -> nat) y : f Idle = 0 -> quiescent y -> tsum f y = 0.
Proof.
  unfold quiescent, tsum. intros Hf H. induction H as [|p l -> _ IH]; simpl; [done|]. by rewrite Hf, IH.
Qed.

Lemma quiescent_hand y : quiescent y -> tconcat in_hand y = [].
Proof. unfold quiescent, tconcat. intros H. by induction H as [|p l -> _ IH]; simpl. Qed.

(** What the delivered results are. *)
Record results_inv y : Prop := {
  r_ran j : j ∈ ran y -> (handle j, map_err Panic (body j)) ∈ resolved y;
  r_value h (v : V) : (h, Ok v) ∈ resolved y -> exists j, j ∈ ran y /\ handle j = h /\ body j = Ok v;
}.

Lemma exec1_results t c now y y' : results_inv y -> exec1 t c now y = Some y' -> results_inv y'.
Proof.
  assert (Hkeep : forall y1 y2, results_inv y1 -> resolved y2 = resolved y1 -> ran y2 = ran y1 -> results_inv y2)
    by (intros y1 y2 [H1 H2] E1 E2; split; rewrite E1, E2; done).
  assert (Herr : forall y1 y2 h e, results_inv y1 -> resolved y2 = resolved y1 ++ [(h, Err e)] ->
    ran y2 = ran y1 -> results_inv y2).
  { intros y1 y2 h e [H1 H2] E1 E2. split; rewrite E1, E2.
    - intros j Hj. apply elem_of_app. left. by apply H1.
    - intros h' v [Hv|Hv%list_elem_of_singleton]%elem_of_app; [by apply H2|done]. }
  intros Hinv H. unfold exec1 in H. destruct (threads y !! t) as [p|] eqn:Hp; [|done]. simpl in H.
  destruct p; try (destruct c; simpl in H; unfold try_recv in H; repeat case_match; simplify_eq;
    first [done|by eapply Hkeep|by eapply Herr]).
  - destruct c as [[j|[|n]|[|n]|]| |]; inv H; by eapply Hkeep.
  - assert (H' : run_step t (TRun out outcome) y = Some y') by (by destruct c).
    clear H. destruct out as [|j out]; simpl in H'; inv H'; [by eapply Hkeep|].
    destruct Hinv as [H1 H2]. split; simpl.
    + intros j' [Hj| ->%list_elem_of_singleton]%elem_of_app; apply elem_of_app; [left; by apply H1|by right; left].
    + intros h v [Hv|Hv%list_elem_of_singleton]%elem_of_app.
      * destruct (H2 h v Hv) as (j' & ? & ?). exists j'. split; [apply elem_of_app; by left|done].
      * destruct (body j) as [v'|] eqn:Eb; simpl in Hv; simplify_eq.
        exists j. split; [apply elem_of_app; right; by left|done].
Qed.

Lemma exec_results l : forall y y', results_inv y -> exec l y = Some y' -> results_inv y'.
Proof.
  induction l as [|[[t c] now] l IH]; intros y y' Hinv H; simpl in H; [by simplify_eq|].
  destruct (exec1 t c now y) as [y1|] eqn:E; [|done]. simpl in H.
  eapply IH; [|done]. by eapply exec1_results.
Qed.

Lemma init_results n cap : results_inv (init n cap).
Proof. split; simpl; [by intros j ?%elem_of_nil|by intros h v ?%elem_of_nil]. Qed.

(** C9: under every interleaving of posters, ticks and shutdowns, each posted job
    is in exactly one place: on its way to the channel, queued, in the batch of a
    drain, or resolved; jobs are received in the order in which they were sent; a
    handle gets a value only from the run of its job, and a run always delivers
    its value or its panic; and whenever no method is in progress, every posted
    job is queued or resolved and the three counters are exact (modulo 2^64). *)
Theorem dispatch_accounting n cap l y (Hrun : exec l (init n cap) = Some y) :
  (handle <$> posted y ≡ₚ (handle <$> tconcat in_hand y) ++ (handle <$> queued y) ++ (resolved y).*1) /\
  sent y = received y ++ queued y /\
  (forall h v, (h, Ok v) ∈ resolved y -> exists j, j ∈ ran y /\ handle j = h /\ body j = Ok v) /\
  (forall j, j ∈ ran y -> (handle j, map_err Panic (body j)) ∈ resolved y) /\
  (quiescent y ->
   (handle <$> posted y ≡ₚ (handle <$> queued y) ++ (resolved y).*1) /\
   pending (sh y) = wrap (Z.of_nat (length (queued y))) /\
   total_enqueued (sh y) = wrap (Z.of_nat (length (sent y))) /\
   total_dequeued (sh y) = wrap (Z.of_nat (length (received y)) - Z.of_nat (length (cancelled y)))).
Proof.
  pose proof (exec_inv _ _ _ (init_inv n cap) Hrun) as [Hpl Hff Hpe Hen Hde _ _].
  pose proof (exec_results _ _ _ (init_results n cap) Hrun) as [Hran Hval].
  split; [done|]. split; [done|]. split; [done|]. split; [done|].
  intros Hq. rewrite Hpl, Hpe, Hen, Hde, (quiescent_hand y Hq), !(quiescent_sum _ y) by done.
  split; [done|]. split; [f_equal; lia|]. split; f_equal; lia.
Qed.

(** ** How far a bounded queue can be overrun *)

Lemma exec1_frame t c now y y' :
  exec1 t c now y = Some y' ->
  capacity (sh y') = capacity (sh y) /\ length (threads y') = length (threads y).
Proof.
  intros H. unfold exec1 in H. destruct (threads y !! t) as [p|] eqn:Hp; [|done]. simpl in H.
  destruct p; try (destruct c; simpl in H; unfold try_recv in H; repeat case_match; simplify_eq;
    first [done|by split; [|apply length_insert]]).
  - destruct c as [[j|[|n]|[|n]|]| |]; inv H; first [done|by split; [|apply length_insert]].
Qed.

Lemma sum_bound2 (f g : pc V -> nat) l : (forall p, f p + g p <= 1) ->
  sum_list_with f l + sum_list_with g l <= length l.
Proof. intros H. induction l as [|p l IH]; simpl; [done|]. specialize (H p). lia. Qed.

(** The posters that passed the test fit with the queue under the bound. *)
Definition burst_inv y : Prop :=
  (0 < capacity (sh y))%Z -> (Z.of_nat (length (sent y)) < 2 ^ 64)%Z ->
  (Z.of_nat (length (queued y)) + Z.of_nat (tsum admitted y) <=
   capacity (sh y) - 1 + Z.of_nat (length (threads y)))%Z.

Lemma burst_keep y y' t p q :
  threads y !! t = Some p -> threads y' = <[t := q]> (threads y) -> capacity (sh y') = capacity (sh y) ->
  length (sent y) <= length (sent y') -> length (queued y') + admitted q <= length (queued y) + admitted p ->
  burst_inv y -> burst_inv y'.
Proof.
  intros Hp Hq Hc Hs Hle Hb Hpos Hlt. rewrite Hc in Hpos |- *.
  pose proof (sum_insert admitted _ _ _ q Hp) as Hsum.
  unfold burst_inv, tsum in *. rewrite Hq, length_insert.
  assert (Hlt' : (Z.of_nat (length (sent y)) < 2 ^ 64)%Z) by (revert Hlt Hs; clear; lia).
  specialize (Hb Hpos Hlt'). lia.
Qed.

(** A poster passes the test only while the queue is below the cap, but for the
    posters that have sent and not yet counted. *)
Lemma burst_admit t j y :
  host_inv y -> threads y !! t = Some (PCap j) ->
  (0 < capacity (sh y))%Z -> (pending (sh y) < capacity (sh y))%Z ->
  burst_inv (goto t (PSend j) y).
Proof.
  intros Hinv Hp Hpos Hadm _ Hlt. change (sent (goto t (PSend j) y)) with (sent y) in Hlt.
  change (queued (goto t (PSend j) y)) with (queued y). change (sh (goto t (PSend j) y)) with (sh y).
  pose proof (sum_insert admitted _ _ _ (PSend j) Hp) as Hs1.
  pose proof (sum_insert uncounted _ _ _ (PSend j) Hp) as Hs2. simpl in Hs1, Hs2.
  assert (Hlen : length (threads (goto t (PSend j) y)) = length (threads y)) by apply length_insert.
  pose proof (sum_bound2 admitted uncounted (threads (goto t (PSend j) y))) as Hsum.
  rewrite Hlen in Hsum |- *. specialize (Hsum ltac:(intros []; simpl; lia)).
  unfold tsum. simpl in Hsum |- *.
  destruct Hinv as [_ Hff Hpe _ _ Hsub _]. unfold tsum in Hpe, Hsub. rewrite Hpe in Hadm.
  apply (f_equal length) in Hff. rewrite length_app in Hff.
  set (q := length (queued y)) in *. set (u := sum_list_with unsubtracted (threads y)) in *.
  set (c := sum_list_with uncounted (threads y)) in *. unfold wrap in Hadm.
  change (2 ^ 64)%Z with 18446744073709551616%Z in *.
  destruct (decide (c <= q + u)).
  - rewrite Z.mod_small in Hadm by lia. lia.
  - lia.
Qed.

Lemma exec1_burst t c now y y' : host_inv y -> burst_inv y -> exec1 t c now y = Some y' -> burst_inv y'.
Proof.
  intros Hinv Hb H. unfold exec1 in H. destruct (threads y !! t) as [p|] eqn:Hp; [|done]. simpl in H.
  assert (Hkeep : forall q y2, threads y2 = <[t := q]> (threads y) -> capacity (sh y2) = capacity (sh y) ->
    length (sent y) <= length (sent y2) ->
    length (queued y2) + admitted q <= length (queued y) + admitted p -> burst_inv y2)
    by (intros q y2 ????; by eapply burst_keep).
  destruct p as [|j|j| | | | | | | | | | | | | | | | | | | | | | | | ]; 
    try (destruct c; simpl in H; unfold try_recv in H; repeat case_match; simplify_eq;
    first [done|solve [eapply Hkeep; [reflexivity|reflexivity|..]; unfold queued; simpl;
      rewrite ?length_fmap, ?length_app; simpl; rewrite ?length_fmap;
      repeat match goal with E : rx _ = _ |- _ => rewrite E; clear E end; simpl; lia]]).
  - destruct c as [[j|[|n]|[|n]|]| |]; inv H;
      first [exact Hb|eapply Hkeep; [reflexivity|reflexivity|unfold queued; simpl; lia..]].
  - assert (H' : enqueue_step t now (PCap j) y = Some y') by (by destruct c). clear H. inv H'.
    destruct (_ && _) eqn:E; [by eapply Hkeep; [reflexivity|reflexivity|unfold queued; simpl; lia..]|].
    intros Hpos. apply burst_admit; try done. apply andb_false_iff in E as [E|E]; bool_to_prop; simpl in *; lia.
Qed.

(** A bounded queue of capacity [cap] shared by [n] threads never holds [cap + n]
    jobs, whatever the interleaving: each thread can pass the capacity test at most
    once before its job counts. *)
Theorem burst_bound n cap l y
  (Hcap : (0 < cap)%Z) (Hrun : exec l (init n cap) = Some y) (Hlen : (Z.of_nat (length (sent y)) < 2 ^ 64)%Z) :
  (Z.of_nat (length (rx (sh y))) <= cap - 1 + Z.of_nat n)%Z.
Proof.
  assert (Hexec : forall l y0, host_inv y0 -> burst_inv y0 -> capacity (sh y0) = cap ->
    length (threads y0) = n -> exec l y0 = Some y ->
    burst_inv y /\ capacity (sh y) = cap /\ length (threads y) = n).
  { clear. induction l as [|[[t c] now] l IH]; intros y0 Hi Hb Hc Hn H; simpl in H; [by simplify_eq|].
    destruct (exec1 t c now y0) as [y1|] eqn:E; [|done]. simpl in H.
    destruct (exec1_frame _ _ _ _ _ E) as [Hc' Hn'].
    apply (IH y1); [by eapply exec1_inv|by eapply exec1_burst|congruence|congruence|done]. }
  destruct (Hexec l _ (init_inv n cap)) as (Hb & Hc & Hn); [|done|apply length_replicate|done|].
  - intros Hpos _. unfold tsum, queued. simpl. rewrite sum_replicate, length_replicate by done. simpl in *. lia.
  - unfold burst_inv, queued in Hb. rewrite Hc, Hn, length_fmap in Hb. specialize (Hb Hcap Hlen). lia.
Qed.

End HostProps.

(** ** Witnesses *)

Section Witnesses.
Local Open Scope string_scope.

(** Two threads post a job each, interleaved; the capacity is one. *)
Definition two_posts : list (nat * choice string * Z) :=
  ([(0, Start (CPost (mkJob 0 (Ok "a"))), 1%Z); (1, Start (CPost (mkJob 1 (Ok "b"))), 1%Z)]
  ++ replicate 2 (0, Go, 2%Z) ++ replicate 2 (1, Go, 2%Z) ++ replicate 4 (0, Go, 3%Z) ++ replicate 4 (1, Go, 3%Z))%list.

Lemma dispatch_accounting_witness :
  exists y, exec two_posts (init 2 1) = Some y /\ sent y = (received y ++ queued y)%list /\
    pending (sh y) = wrap (Z.of_nat (length (queued y))).
Proof.
  destruct (exec two_posts (init 2 1)) as [y|] eqn:E; [|vm_compute in E; discriminate].
  destruct (dispatch_accounting 2 1 two_posts y E) as (_ & Hf & _ & _ & Hq).
  exists y. split; [done|]. split; [done|]. apply Hq. vm_compute in E. injection E as <-.
  repeat constructor.
Defined.

Lemma burst_bound_witness :
  exists y, exec two_posts (init 2 1) = Some y /\ length (rx (sh y)) = 2 /\
    (Z.of_nat (length (rx (sh y))) <= 1 - 1 + Z.of_nat 2)%Z.
Proof.
  destruct (exec two_posts (init 2 1)) as [y|] eqn:E; [|vm_compute in E; discriminate].
  assert (Hl : length (sent y) = 2 /\ length (rx (sh y)) = 2) by (vm_compute in E; injection E as <-; done).
  exists y. split; [done|]. split; [apply Hl|].
  apply (burst_bound 2 1 two_posts y); [done|done|]. rewrite (proj1 Hl). done.
Defined.

End Witnesses.
