(* ===== verification/WorkflowSpec.v ===== *)
(** Workflow specifications, [dcc-mcp-workflow/src/spec.rs] and [policy.rs]: steps,
    their policies, the parser's normalisation of policies, and validation.

    Durations are nanoseconds.  [jsonpath_rust] is the parameter [parse_json_path],
    the error of a JSONPath expression if it has one.  The text of a validation error
    is represented by the arguments of its [format!]. *)

From Stdlib Require Import SpecFloat.
From S2P Require Import Prelude Naming Json.

Local Open Scope Z_scope.

(** ** Errors *)

Inductive PolicyReason : Type :=
| TimeoutZero
| MaxAttemptsZero (got : Z)
| InitialExceedsMax (initial_ms max_ms : Z)
| Unterminated (template : str)
| EmptyReference (template : str)
| InvalidReference (inner template : str).

Inductive ValidationError : Type :=
| NoSteps
| DuplicateStepId (id : str)
| EmptyStepId
| InvalidToolName (step_id tool : str) (reason : NamingError)
| InvalidJsonPath (step_id expr reason : str)
| InvalidPolicy (step_id : str) (reason : PolicyReason)
| UnknownTemplateVar (step_id template var : str).

(** ** Policies, [policy.rs] *)

Inductive BackoffKind : Type := Fixed | Linear | Exponential.
Inductive IdempotencyScope : Type := ScopeWorkflow | ScopeGlobal.

#[export] Instance IdempotencyScope_eq_dec : EqDecision IdempotencyScope.
Proof. solve_decision. Defined.

Abbreviation f32 := spec_float (only parsing).

Record RetryPolicy : Type := mkRetry {
  max_attempts : Z;
  backoff : BackoffKind;
  initial_delay : Z;
  max_delay : Z;
  jitter : f32;
  retry_on : option (list str);
}.

(** [Duration::as_millis() as u64] and [Duration::from_millis]. *)
Definition as_millis (d : Z) : Z := (d / 1000000) mod 2 ^ 64.
Definition from_millis (ms : Z) : Z := ms * 1000000.

(** [RetryPolicy::next_delay]; attempts are numbered from 1. *)
Definition next_delay (p : RetryPolicy) (attempt_number : Z) : Z :=
  if attempt_number <=? 1 then 0
  else
    let n := attempt_number - 1 in
    let initial_ms := as_millis (initial_delay p) in
    let raw_ms :=
      match backoff p with
      | Fixed => initial_ms
      | Linear => sat_mul u64_max initial_ms n
      | Exponential => sat_mul u64_max initial_ms (Z.shiftl 1 (Z.min (n - 1) 63))
      end in
    from_millis (Z.min raw_ms (as_millis (max_delay p))).

Definition is_retryable (p : RetryPolicy) (error_kind : str) : bool :=
  match retry_on p with
  | None => true
  | Some allow => existsb (fun k => bool_decide (k = error_kind)) allow
  end.

Record StepPolicy : Type := mkStepPolicy {
  timeout : option Z;
  retry : option RetryPolicy;
  idempotency_key : option str;
  idempotency_scope : IdempotencyScope;
  idempotency_ttl_secs : option Z;
}.

Definition default_step_policy : StepPolicy := mkStepPolicy None None None ScopeWorkflow None.

Definition is_empty (p : StepPolicy) : bool :=
  match p with mkStepPolicy None None None ScopeWorkflow None => true | _ => false end.

Record RawRetryPolicy : Type := mkRawRetry {
  raw_max_attempts : Z;
  raw_backoff : option BackoffKind;
  raw_initial_delay_ms : option Z;
  raw_max_delay_ms : option Z;
  raw_jitter : option f32;
  raw_retry_on : option (list str);
}.

Record RawStepPolicy : Type := mkRawStep {
  raw_timeout_secs : option Z;
  raw_retry : option RawRetryPolicy;
  raw_idempotency_key : option str;
  raw_idempotency_scope : option IdempotencyScope;
  raw_idempotency_ttl_secs : option Z;
}.

(** The [f32] literals [0.0] and [1.0], and the clamp of [jitter]. *)
Definition f32_zero : f32 := S754_zero false.
Definition f32_one : f32 := binary_normalize 24 128 1 0 false.

Definition is_finite (x : f32) : bool :=
  match x with S754_zero _ | S754_finite _ _ _ => true | _ => false end.

(** [f32::clamp]. *)
Definition clamp (x lo hi : f32) : f32 :=
  let x := if SFltb x lo then lo else x in
  if SFltb hi x then hi else x.

Definition normalize_jitter (j : option f32) : f32 :=
  match j with
  | None => f32_zero
  | Some j =>
      if negb (is_finite j) || negb (SFleb f32_zero j && SFleb j f32_one)
      then clamp j f32_zero f32_one
      else j
  end.

(** [RawRetryPolicy::into_policy]. *)
Definition retry_into_policy (step_id : str) (raw : RawRetryPolicy) : result ValidationError RetryPolicy :=
  if raw_max_attempts raw <? 1 then Err (InvalidPolicy step_id (MaxAttemptsZero (raw_max_attempts raw)))
  else
    let initial_ms := default 500 (raw_initial_delay_ms raw) in
    let max_ms := default 10000 (raw_max_delay_ms raw) in
    if max_ms <? initial_ms then Err (InvalidPolicy step_id (InitialExceedsMax initial_ms max_ms))
    else Ok (mkRetry (raw_max_attempts raw) (default Exponential (raw_backoff raw)) (from_millis initial_ms)
               (from_millis max_ms) (normalize_jitter (raw_jitter raw)) (raw_retry_on raw)).

(** ** Template references *)

(** A segment of a dotted identifier chain. *)
Definition ident_char (c : Z) : bool := is_ascii_alphanumeric c || (c =? ch_underscore).
Definition bad_segment (seg : str) : bool :=
  match seg with
  | [] => true
  | c :: _ => negb (forallb ident_char seg) || is_ascii_digit c
  end.

Definition open_braces : str := lit "{{".
Definition close_braces : str := lit "}}".

(** The loop of [extract_template_roots]; each turn consumes four characters or more. *)
Fixpoint extract_loop (fuel : nat) (template rest : str) (roots : list str) : result PolicyReason (list str) :=
  match fuel with
  | O => Ok roots
  | S fuel =>
      match split_once open_braces rest with
      | None => Ok roots
      | Some (_, after_open) =>
          match split_once close_braces after_open with
          | None => Err (Unterminated template)
          | Some (body, after_close) =>
              let inner := trim body in
              if bool_decide (inner = []) then Err (EmptyReference template)
              else if existsb bad_segment (split_char ch_dot inner) then Err (InvalidReference inner template)
              else extract_loop fuel template after_close (roots ++ [default [] (head (split_char ch_dot inner))])
          end
      end
  end.

Definition extract_template_roots (template : str) : result PolicyReason (list str) :=
  extract_loop (S (length template)) template template [].

Fixpoint check_roots (step_id template : str) (known : gset str) (roots : list str) : result ValidationError unit :=
  match roots with
  | [] => Ok tt
  | root :: roots =>
      if bool_decide (root ∈ known) then check_roots step_id template known roots
      else Err (UnknownTemplateVar step_id template root)
  end.

Definition check_template_refs (step_id template : str) (known : gset str) : result ValidationError unit :=
  let? roots := map_err (InvalidPolicy step_id) (extract_template_roots template) in
  check_roots step_id template known roots.

(** [RawStepPolicy::into_policy]. *)
Definition into_policy (step_id : str) (known : gset str) (raw : RawStepPolicy) : result ValidationError StepPolicy :=
  let? timeout :=
    match raw_timeout_secs raw with
    | None => Ok None
    | Some 0 => Err (InvalidPolicy step_id TimeoutZero)
    | Some n => Ok (Some (n * 1000000000))
    end in
  let? retry :=
    match raw_retry raw with
    | None => Ok None
    | Some r => let? p := retry_into_policy step_id r in Ok (Some p)
    end in
  let? _ :=
    match raw_idempotency_key raw with
    | Some key => check_template_refs step_id key known
    | None => Ok tt
    end in
  Ok (mkStepPolicy timeout retry (raw_idempotency_key raw) (default ScopeWorkflow (raw_idempotency_scope raw))
        (match raw_idempotency_ttl_secs raw with Some n => if 0 <? n then Some n else None | None => None end)).

(** ** Steps, [spec.rs] *)

Inductive WorkflowStatus : Type := Pending | Running | Completed | Failed | Cancelled | Interrupted.

#[export] Instance WorkflowStatus_eq_dec : EqDecision WorkflowStatus.
Proof. solve_decision. Defined.

Definition is_terminal (s : WorkflowStatus) : bool :=
  match s with Completed | Failed | Cancelled | Interrupted => true | _ => false end.

Inductive Step : Type :=
| mkStep (id : str) (kind : StepKind) (policy : StepPolicy)
with StepKind : Type :=
| Tool (tool : str) (args : Value)
| ToolRemote (dcc tool : str) (args : Value)
| Foreach (items as_ : str) (steps : list Step)
| Parallel (steps : list Step)
| Approve (prompt : str)
| Branch (on : str) (then_ else_ : list Step).

Definition step_id (s : Step) : str := match s with mkStep id _ _ => id end.
Definition step_kind (s : Step) : StepKind := match s with mkStep _ kind _ => kind end.
Definition step_policy (s : Step) : StepPolicy := match s with mkStep _ _ p => p end.

Record WorkflowSpec : Type := mkSpec { spec_inputs : Value; spec_steps : list Step }.

(** The child lists of a step, in the order the code visits them. *)
Definition bodies (k : StepKind) : list (list Step) :=
  match k with
  | Foreach _ _ steps | Parallel steps => [steps]
  | Branch _ then_ else_ => [then_; else_]
  | _ => []
  end.

(** ** Validation *)

Section Validate.
Context (parse_json_path : str -> option str).

Definition validate_jsonpath (id expr : str) : result ValidationError unit :=
  match parse_json_path expr with
  | Some reason => Err (InvalidJsonPath id expr reason)
  | None => Ok tt
  end.

Definition validate_key (id : str) (p : StepPolicy) (known : gset str) : result ValidationError unit :=
  match idempotency_key p with
  | Some key => check_template_refs id key known
  | None => Ok tt
  end.

Definition validate_kind (id : str) (k : StepKind) : result ValidationError unit :=
  match k with
  | Tool tool _ | ToolRemote _ tool _ => map_err (InvalidToolName id tool) (validate_tool_name tool)
  | Foreach items _ _ => validate_jsonpath id items
  | Branch on _ _ => validate_jsonpath id on
  | Parallel _ | Approve _ => Ok tt
  end.

Fixpoint collect_step_ids (s : Step) (out : gset str) : gset str :=
  match s with
  | mkStep id kind _ =>
      let all := fix all (steps : list Step) (out : gset str) :=
        match steps with [] => out | s :: steps => all steps (collect_step_ids s out) end in
      let out := {[id]} ∪ out in
      match kind with
      | Foreach _ _ steps | Parallel steps => all steps out
      | Branch _ then_ else_ => all else_ (all then_ out)
      | _ => out
      end
  end.

Fixpoint validate_step (s : Step) (seen known : gset str) : result ValidationError (gset str) :=
  match s with
  | mkStep id kind policy =>
      let all := fix all (steps : list Step) (seen : gset str) :=
        match steps with
        | [] => Ok seen
        | s :: steps => let? seen := validate_step s seen known in all steps seen
        end in
      if bool_decide (id = []) then Err EmptyStepId
      else if bool_decide (id ∈ seen) then Err (DuplicateStepId id)
      else
        let seen := {[id]} ∪ seen in
        let? _ := validate_key id policy known in
        let? _ := validate_kind id kind in
        match kind with
        | Foreach _ _ steps | Parallel steps => all steps seen
        | Branch _ then_ else_ => let? seen := all then_ seen in all else_ seen
        | _ => Ok seen
        end
  end.

Fixpoint validate_steps (steps : list Step) (seen known : gset str) : result ValidationError (gset str) :=
  match steps with
  | [] => Ok seen
  | s :: steps => let? seen := validate_step s seen known in validate_steps steps seen known
  end.

(** The root identifiers a key may use. *)
Definition known_idents (spec : WorkflowSpec) : gset str :=
  let base : gset str := {[lit "inputs"; lit "steps"; lit "item"; lit "env"]} in
  let with_inputs :=
    match spec_inputs spec with
    | Object obj =>
        list_to_set (map fst obj) ∪
        match json_get (lit "properties") obj with
        | Some (Object props) => list_to_set (map fst props)
        | _ => ∅
        end ∪ base
    | _ => base
    end in
  foldl (fun out s => collect_step_ids s out) with_inputs (spec_steps spec).

Definition validate (spec : WorkflowSpec) : result ValidationError unit :=
  match spec_steps spec with
  | [] => Err NoSteps
  | steps => let? _ := validate_steps steps ∅ (known_idents spec) in Ok tt
  end.

End Validate.
