(* ===== verification/WorkflowSpecProps.v ===== *)
(** Theorems on workflow specifications: the delays and invariants of accepted
    policies, and what validation accepts. *)

From Stdlib Require Import SpecFloat.
From S2P Require Import Prelude Naming Json WorkflowSpec.

Local Open Scope Z_scope.

(** ** Delays *)

(** The delay before attempt [n], in exact arithmetic. *)
Definition ideal_ms (k : BackoffKind) (initial_ms n : Z) : Z :=
  match k with
  | Fixed => initial_ms
  | Linear => initial_ms * (n - 1)
  | Exponential => initial_ms * 2 ^ (n - 2)
  end.

Lemma as_millis_range d : 0 <= as_millis d < 2 ^ 64.
Proof. apply Z.mod_pos_bound. lia. Qed.

Lemma as_from_millis ms : in_u64 ms -> as_millis (from_millis ms) = ms.
Proof.
  intros Hm. unfold as_millis, from_millis. rewrite Z.div_mul by lia. apply Z.mod_small.
  unfold in_u64, u64_max in Hm. lia.
Qed.

(** Saturation is invisible under a maximum the exponential reaches within 63
    doublings. *)
Lemma saturated_pow i m k :
  0 <= i -> 0 <= m <= 2 ^ 63 -> 0 <= k ->
  Z.min (sat_mul u64_max i (Z.shiftl 1 (Z.min k 63))) m = Z.min (i * 2 ^ k) m.
Proof.
  intros Hi Hm Hk. unfold sat_mul. rewrite Z.shiftl_1_l.
  assert (Hu : 2 ^ 63 <= u64_max) by (unfold u64_max; lia).
  destruct (Z.le_gt_cases k 63) as [Hle|Hgt].
  - rewrite (Z.min_l k 63) by lia. lia.
  - rewrite (Z.min_r k 63) by lia. destruct (Z.eq_dec i 0) as [->|]; [lia|].
    assert (2 ^ 63 <= 2 ^ k) by (apply Z.pow_le_mono_r; lia). nia.
Qed.

Lemma next_delay_ideal p n :
  2 <= n -> as_millis (max_delay p) <= 2 ^ 63 ->
  next_delay p n = from_millis (Z.min (ideal_ms (backoff p) (as_millis (initial_delay p)) n) (as_millis (max_delay p))).
Proof.
  intros Hn Hm. unfold next_delay. replace (n <=? 1) with false by lia. f_equal.
  pose proof (as_millis_range (initial_delay p)). pose proof (as_millis_range (max_delay p)).
  destruct (backoff p); simpl; [done| |].
  - unfold sat_mul, u64_max. lia.
  - replace (n - 1 - 1) with (n - 2) by lia. apply saturated_pow; lia.
Qed.

Lemma ideal_mono k i n n' : 0 <= i -> 2 <= n -> n <= n' -> ideal_ms k i n <= ideal_ms k i n'.
Proof.
  intros Hi Hn Hle. destruct k; simpl; [lia|nia|].
  apply Z.mul_le_mono_nonneg_l; [done|]. apply Z.pow_le_mono_r; lia.
Qed.

Lemma ideal_ge k i n : 0 <= i -> 2 <= n -> i <= ideal_ms k i n.
Proof.
  intros Hi Hn. transitivity (ideal_ms k i 2); [destruct k; simpl; lia|by apply ideal_mono].
Qed.

(** ** Jitter *)

Definition is_nan (x : spec_float) : bool := match x with S754_nan => true | _ => false end.

Lemma SFleb_not_lt m1 e1 m2 e2 :
  SFltb (S754_finite false m1 e1) (S754_finite false m2 e2) = false ->
  SFleb (S754_finite false m2 e2) (S754_finite false m1 e1) = true.
Proof.
  unfold SFltb, SFleb, SFcompare. rewrite (Z.compare_antisym e1 e2).
  destruct (e1 ?= e2)%Z; [|done|done]. cbn [CompOpp].
  change (Pos.compare_cont Eq m1 m2) with (Pos.compare m1 m2).
  change (Pos.compare_cont Eq m2 m1) with (Pos.compare m2 m1).
  rewrite (Pos.compare_antisym m1 m2). by destruct (Pos.compare m1 m2).
Qed.

Lemma clamp_range x : is_nan x = true \/
  (SFleb f32_zero (clamp x f32_zero f32_one) = true /\ SFleb (clamp x f32_zero f32_one) f32_one = true).
Proof.
  destruct x as [s|s| |s m e]; [right| |by left|right].
  - by destruct s.
  - right. by destruct s.
  - unfold clamp. destruct s; [by vm_compute|]. change (SFltb (S754_finite false m e) f32_zero) with false. cbv iota.
    destruct (SFltb f32_one (S754_finite false m e)) eqn:E; [by vm_compute|]. split; [done|].
    by apply SFleb_not_lt.
Qed.

Lemma normalize_jitter_range j : is_nan (normalize_jitter j) = true \/
  (SFleb f32_zero (normalize_jitter j) = true /\ SFleb (normalize_jitter j) f32_one = true).
Proof.
  destruct j as [j|]; [|by right]. unfold normalize_jitter.
  destruct (negb (is_finite j) || negb (SFleb f32_zero j && SFleb j f32_one)) eqn:E.
  - destruct (clamp_range j) as [Hn|Hr]; [left|by right]. by destruct j.
  - right. apply orb_false_iff in E as [_ E]. by apply negb_false_iff, andb_true_iff in E.
Qed.

(** A raw retry block with machine-width fields. *)
Definition raw_ok (raw : RawRetryPolicy) : Prop :=
  in_u64 (default 500 (raw_initial_delay_ms raw)) /\ 0 <= default 10000 (raw_max_delay_ms raw) <= 2 ^ 63.

(** A retry block the parser accepts allows at least one attempt, its jitter lies
    in [0, 1] (or is NaN, which the clamp lets through), there is no delay before the
    first attempt, and the delays before the later ones are exactly the fixed, linear
    or doubling sequence cut at the maximum: never below the initial delay, never
    decreasing, never above the maximum, whatever the number of attempts. *)
Theorem accepted_retry id raw p (Hraw : raw_ok raw) (Hp : retry_into_policy id raw = Ok p) :
  1 <= max_attempts p /\
  (is_nan (jitter p) = true \/ (SFleb f32_zero (jitter p) = true /\ SFleb (jitter p) f32_one = true)) /\
  next_delay p 1 = 0 /\
  forall n n', 2 <= n -> n <= n' ->
    initial_delay p <= next_delay p n <= next_delay p n' /\ next_delay p n' <= max_delay p /\
    next_delay p n = Z.min (from_millis (ideal_ms (backoff p) (as_millis (initial_delay p)) n)) (max_delay p).
Proof.
  destruct Hraw as [Hi Hm]. unfold retry_into_policy in Hp. repeat case_hyp Hp; simplify_eq. bool_to_prop.
  set (i := default 500 (raw_initial_delay_ms raw)) in *. set (m := default 10000 (raw_max_delay_ms raw)) in *.
  simpl. split; [done|]. split; [apply normalize_jitter_range|]. split; [done|].
  intros n n' Hn Hn'.
  assert (Hi0 : 0 <= i) by (unfold in_u64 in Hi; lia).
  assert (Hm' : as_millis (from_millis m) = m) by (apply as_from_millis; unfold in_u64, u64_max; lia).
  rewrite !next_delay_ideal by (simpl; rewrite ?Hm'; lia). simpl.
  rewrite Hm', as_from_millis by done.
  pose proof (ideal_mono (default Exponential (raw_backoff raw)) i n n' Hi0 Hn Hn').
  pose proof (ideal_ge (default Exponential (raw_backoff raw)) i n Hi0 Hn).
  unfold from_millis in *. split; [lia|]. split; lia.
Qed.

Lemma accepted_retry_witness :
  let raw := mkRawRetry 5 None (Some 100) (Some 1000) None None in
  exists p, retry_into_policy (lit "s") raw = Ok p /\
    map (fun n => as_millis (next_delay p n)) [1; 2; 3; 4; 5; 6; 100] = [0; 100; 200; 400; 800; 1000; 1000] /\
    next_delay p 100 <= max_delay p.
Proof.
  cbv zeta. destruct (retry_into_policy (lit "s") _) as [p|e] eqn:E; [|vm_compute in E; discriminate].
  exists p. split; [done|]. split; [vm_compute in E; injection E as <-; by vm_compute|].
  assert (Hraw : raw_ok (mkRawRetry 5 None (Some 100) (Some 1000) None None)).
  { unfold raw_ok, in_u64, u64_max. simpl. lia. }
  destruct (accepted_retry (lit "s") _ p Hraw E) as (_ & _ & _ & H). apply (H 2 100); lia.
Defined.

(** ** Template references *)

Lemma split_once_length sep s a b : split_once sep s = Some (a, b) -> (length s = length a + length sep + length b)%nat.
Proof. intros ->%split_once_eq. rewrite !length_app. lia. Qed.

(** The fuel is enough: more of it changes nothing. *)
Lemma extract_loop_fuel t n m rest roots :
  (length rest < n)%nat -> (length rest < m)%nat -> extract_loop n t rest roots = extract_loop m t rest roots.
Proof.
  revert m rest roots. induction n as [|n IH]; intros m rest roots Hn Hm; [lia|].
  destruct m as [|m]; [lia|]. simpl.
  destruct (split_once open_braces rest) as [[a b]|] eqn:E1; [|done].
  destruct (split_once close_braces b) as [[c d]|] eqn:E2; [|done].
  apply split_once_length in E1, E2. simpl in E1, E2.
  repeat case_goal; try done. apply IH; lia.
Qed.

(** ** Validation *)

(** Steps in the order the validator visits them. *)
Fixpoint flatten (s : Step) : list Step :=
  match s with
  | mkStep id kind policy =>
      s :: match kind with
           | Foreach _ _ steps | Parallel steps => flat_map flatten steps
           | Branch _ then_ else_ => flat_map flatten then_ ++ flat_map flatten else_
           | _ => []
           end
  end.

(** Induction over the tree of steps. *)
Lemma step_ind' (P : Step -> Prop) :
  (forall id kind policy, Forall (Forall P) (bodies kind) -> P (mkStep id kind policy)) -> forall s, P s.
Proof.
  intros H. fix IH 1. intros [id kind policy]. apply H.
  assert (all : forall l, Forall P l) by (induction l; constructor; auto).
  destruct kind; simpl; repeat constructor; auto.
Qed.

Section Validation.
Context (parse_json_path : str -> option str) (known : gset str).

(** What validation demands of one step. *)
Definition key_ok (s : Step) : Prop :=
  forall key, idempotency_key (step_policy s) = Some key ->
    exists roots, extract_template_roots key = Ok roots /\ forall r, r ∈ roots -> r ∈ known.

Definition kind_ok (k : StepKind) : Prop :=
  match k with
  | Tool tool _ | ToolRemote _ tool _ => validate_tool_name tool = Ok tt
  | Foreach expr _ _ | Branch expr _ _ => parse_json_path expr = None
  | Parallel _ | Approve _ => True
  end.

Definition step_ok (s : Step) : Prop := step_id s <> [] /\ key_ok s /\ kind_ok (step_kind s).

Lemma check_roots_spec id t roots :
  check_roots id t known roots = Ok tt <-> forall r, r ∈ roots -> r ∈ known.
Proof.
  induction roots as [|r roots IH]; simpl.
  - split; [|done]. intros _ r Hr. by apply not_elem_of_nil in Hr.
  - case_bool_decide as Hr.
    + rewrite IH. split; [|intros H x Hx; apply H; by right].
      intros H x [->|Hx]%elem_of_cons; [done|by apply H].
    + split; [done|]. intros H. destruct Hr. apply H. by left.
Qed.

Lemma validate_key_spec s : validate_key (step_id s) (step_policy s) known = Ok tt <-> key_ok s.
Proof.
  unfold validate_key, key_ok. destruct (idempotency_key (step_policy s)) as [key|]; [|by split].
  unfold check_template_refs. destruct (extract_template_roots key) as [roots|e] eqn:E; simpl.
  - rewrite check_roots_spec. split; [intros H key' ?; simplify_eq; by exists roots|].
    intros H. destruct (H key eq_refl) as (roots' & E' & H'). rewrite E in E'. by simplify_eq.
  - split; [done|]. intros H. destruct (H key eq_refl) as (roots' & E' & _). congruence.
Qed.

Lemma validate_kind_spec id k : validate_kind parse_json_path id k = Ok tt <-> kind_ok k.
Proof.
  destruct k; simpl; unfold validate_jsonpath; try by split.
  1-2: destruct (validate_tool_name tool) as [[]|]; by split.
  all: destruct (parse_json_path _); by split.
Qed.

(** Visiting steps with the identifiers [ids] from the set [seen]: success adds them,
    and happens exactly when they are new, distinct and the steps satisfy [ok]. *)
Definition visits (ids : list str) (ok : Prop) (seen : gset str) (r : result ValidationError (gset str)) : Prop :=
  let fine := NoDup ids /\ (forall x, x ∈ ids -> (x ∉ seen)) /\ ok in
  match r with Ok seen' => seen' = list_to_set ids ∪ seen /\ fine | Err _ => ~ fine end.

Lemma visits_app ids1 ids2 (ok1 ok2 : Prop) seen r k :
  visits ids1 ok1 seen r -> (forall seen1, r = Ok seen1 -> visits ids2 ok2 seen1 (k seen1)) ->
  visits (ids1 ++ ids2) (ok1 /\ ok2) seen (rbind r k).
Proof.
  intros H1 H2. unfold visits in *.
  assert (Ha : forall x, x ∈ ids1 ++ ids2 <-> x ∈ ids1 \/ x ∈ ids2) by (intros; apply elem_of_app).
  destruct r as [seen1|e]; simpl.
  2: { rewrite NoDup_app. setoid_rewrite Ha. naive_solver. }
  destruct H1 as (-> & Hn1 & Hd1 & Hok1). specialize (H2 _ eq_refl).
  assert (Hu : forall x, x ∈ list_to_set ids1 ∪ seen <-> x ∈ ids1 \/ x ∈ seen) by set_solver.
  destruct (k _) as [seen2|e].
  - destruct H2 as (-> & Hn2 & Hd2 & Hok2). setoid_rewrite Hu in Hd2. rewrite NoDup_app.
    split; [rewrite list_to_set_app_L; set_solver|].
    split; [split_and!; [done|intros x Hx1 Hx2; destruct (Hd2 x Hx2); auto|done]|].
    split; [|done]. intros x [Hx|Hx]%Ha Hs; [by apply (Hd1 x)|]. destruct (Hd2 x Hx); auto.
  - rewrite NoDup_app. setoid_rewrite Ha. intros [(Hn & Hdis & Hn2) [Hd Hok]].
    apply H2. split; [done|]. split; [|apply Hok].
    intros x Hx [Hx1|Hx1]%Hu; [by apply (Hdis x)|]. apply (Hd x); auto.
Qed.

Lemma visits_weaken ids (ok ok' : Prop) seen r : (ok <-> ok') -> visits ids ok seen r -> visits ids ok' seen r.
Proof. unfold visits. intros H. destruct r; rewrite H; done. Qed.

Definition ids_of (l : list Step) : list str := map step_id (flat_map flatten l).
Definition all_ok (l : list Step) : Prop := Forall step_ok (flat_map flatten l).

Lemma visits_steps l :
  Forall (fun s => forall seen, visits (ids_of [s]) (all_ok [s]) seen (validate_step parse_json_path s seen known)) l ->
  forall seen, visits (ids_of l) (all_ok l) seen (validate_steps parse_json_path l seen known).
Proof.
  induction 1 as [|s l Hs Hl IH]; intros seen; simpl.
  - split; [set_solver|]. split; [constructor|]. split; [set_solver|constructor].
  - unfold ids_of, all_ok. simpl. rewrite map_app.
    apply (visits_weaken _ (Forall step_ok (flatten s) /\ all_ok l)); [by unfold all_ok; rewrite Forall_app|].
    apply visits_app; [|by intros; apply IH].
    specialize (Hs seen). unfold ids_of, all_ok in Hs. simpl in Hs. by rewrite app_nil_r in Hs.
Qed.

(** The loop inside [validate_step] is [validate_steps]. *)
Lemma validate_step_eq id kind policy seen :
  validate_step parse_json_path (mkStep id kind policy) seen known =
  if bool_decide (id = []) then Err EmptyStepId
  else if bool_decide (id ∈ seen) then Err (DuplicateStepId id)
  else
    let? _ := validate_key id policy known in
    let? _ := validate_kind parse_json_path id kind in
    match bodies kind with
    | [] => Ok ({[id]} ∪ seen)
    | [steps] => validate_steps parse_json_path steps ({[id]} ∪ seen) known
    | then_ :: else_ :: _ =>
        let? seen := validate_steps parse_json_path then_ ({[id]} ∪ seen) known in
        validate_steps parse_json_path else_ seen known
    end.
Proof.
  simpl. case_bool_decide; [done|]. case_bool_decide; [done|].
  destruct (validate_key id policy known); simpl; [|done].
  destruct (validate_kind parse_json_path id kind); simpl; [|done].
  assert (Hall : forall l seen, (fix all (steps : list Step) (seen : gset str) :=
        match steps with
        | [] => Ok seen
        | s :: steps => let? seen := validate_step parse_json_path s seen known in all steps seen
        end) l seen = validate_steps parse_json_path l seen known).
  { induction l as [|s l IH]; intros sn; [done|]. simpl. destruct (validate_step _ s sn known); simpl; auto. }
  destruct kind; simpl; rewrite ?Hall; try done.
  destruct (validate_steps _ then_ _ known); simpl; auto.
Qed.

(** A visit of one step ahead of its children. *)
Lemma visits_cons id ids (ok1 ok2 : Prop) seen (r : result ValidationError unit) k :
  (id ∉ seen) -> (r = Ok tt <-> ok1) -> visits ids ok2 ({[id]} ∪ seen) (k tt) ->
  visits (id :: ids) (ok1 /\ ok2) seen (rbind r k).
Proof.
  intros Hid Hr H2. unfold visits in *.
  destruct r as [[]|e]; simpl; [|naive_solver].
  assert (Hu : forall x, x ∈ {[id]} ∪ seen <-> x = id \/ x ∈ seen) by set_solver.
  destruct (k tt) as [seen2|e]; rewrite NoDup_cons; setoid_rewrite elem_of_cons.
  - destruct H2 as (-> & Hn2 & Hd2 & Hok2). setoid_rewrite Hu in Hd2. split; [set_solver|].
    split; [split; [intros Hx; destruct (Hd2 id Hx); auto|done]|].
    split; [|naive_solver]. intros x [->|Hx] Hs; [done|]. destruct (Hd2 x Hx); auto.
  - intros [[Hn Hn2] [Hd Hok]]. apply H2. split; [done|]. split; [|apply Hok].
    intros x Hx [->|Hs]%Hu; [done|]. apply (Hd x); auto.
Qed.

Lemma visits_step s : forall seen, visits (ids_of [s]) (all_ok [s]) seen (validate_step parse_json_path s seen known).
Proof.
  induction s as [id kind policy IH] using step_ind'. intros seen. rewrite validate_step_eq.
  set (s := mkStep id kind policy).
  assert (Hids : ids_of [s] = id :: flat_map ids_of (bodies kind)).
  { unfold ids_of. destruct kind; simpl; rewrite ?app_nil_r, ?map_app; done. }
  assert (Hok : all_ok [s] <-> step_ok s /\ Forall all_ok (bodies kind)).
  { unfold all_ok. destruct kind; simpl; rewrite ?app_nil_r, ?Forall_cons, ?Forall_app, ?Forall_nil; tauto. }
  rewrite Hids. apply (visits_weaken _ _ _ _ _ (iff_sym Hok)). clear Hids Hok.
  case_bool_decide as Hid; [unfold visits, step_ok; simpl; tauto|].
  case_bool_decide as Hseen; [intros (_ & Hd & _); apply (Hd id); [by left|done]|].
  apply (visits_weaken _ (key_ok s /\ (kind_ok kind /\ Forall all_ok (bodies kind)))); [unfold step_ok; simpl; tauto|].
  pose proof (validate_key_spec s) as Hk. simpl in Hk.
  destruct (validate_key id policy known) as [[]|e]; simpl.
  2: { intros (_ & _ & Hkey & _). by apply Hk in Hkey. }
  apply (visits_weaken _ (kind_ok kind /\ Forall all_ok (bodies kind))); [tauto|]. clear Hk.
  apply visits_cons; [done|by apply validate_kind_spec|].
  destruct (bodies kind) as [|l1 [|l2 [|]]] eqn:Eb; simpl.
  - split; [set_solver|]. split; [constructor|]. split; [set_solver|constructor].
  - rewrite app_nil_r. apply Forall_cons in IH as [IH _].
    apply (visits_weaken _ (all_ok l1)); [by rewrite Forall_singleton|]. by apply visits_steps.
  - rewrite app_nil_r. apply Forall_cons in IH as [IH1 [IH2 _]%Forall_cons].
    apply (visits_weaken _ (all_ok l1 /\ all_ok l2)); [by rewrite Forall_cons, Forall_singleton|].
    apply visits_app; [by apply visits_steps|]. intros seen1 _. by apply visits_steps.
  - by destruct kind.
Qed.

End Validation.

(** All steps of a specification. *)
Lemma visits_spec parse_json_path spec :
  visits (ids_of (spec_steps spec)) (all_ok parse_json_path (known_idents spec) (spec_steps spec)) ∅
    (validate_steps parse_json_path (spec_steps spec) ∅ (known_idents spec)).
Proof. apply visits_steps, Forall_forall. intros. apply visits_step. Qed.

Lemma accepted_ids parse_json_path spec : validate parse_json_path spec = Ok tt -> NoDup (ids_of (spec_steps spec)).
Proof.
  unfold validate. pose proof (visits_spec parse_json_path spec) as H. destruct (spec_steps spec) as [|s l]; [done|].
  destruct (validate_steps _ (s :: l) ∅ _); [|done]. intros _. apply H.
Qed.

(** C35: a specification is accepted exactly when it has a step, the identifiers of all
    its steps, nested ones included, are non-empty and distinct, every idempotency key
    is a well-formed template over known roots, every tool name is valid and every
    JSONPath expression parses. *)
Theorem validate_exact (parse_json_path : str -> option str) (spec : WorkflowSpec) :
  validate parse_json_path spec = Ok tt <->
  spec_steps spec <> [] /\
  NoDup (map step_id (flat_map flatten (spec_steps spec))) /\
  Forall (step_ok parse_json_path (known_idents spec)) (flat_map flatten (spec_steps spec)).
Proof.
  unfold validate. pose proof (visits_spec parse_json_path spec) as H.
  destruct (spec_steps spec) as [|s l] eqn:E; [naive_solver|]. unfold visits, ids_of, all_ok in H.
  destruct (validate_steps _ (s :: l) ∅ _) as [seen|e]; simpl in *.
  - split; [intros _; split_and!; [done|apply H|apply H]|done].
  - split; [done|]. intros (_ & Hn & Hok). destruct H. split; [done|]. split; [set_solver|done].
Qed.
