(* ===== verification/WorkflowContext.v ===== *)
(** The execution context of a workflow, [dcc-mcp-workflow/src/context.rs]: outputs of
    steps, bindings of loops, and the rendering of templates against them.

    The parser works on bytes; its separators are ASCII, so it is written on code
    points.  What [serde_json] prints for a value and how it reads a file reference are
    the parameters of [Serde].

    The theorems: a reference renders to the value its path denotes, and which roots
    denote something. *)

From S2P Require Import Prelude Json WorkflowSpec Text.

Local Open Scope Z_scope.

(** ** State *)

(** [dcc_mcp_artefact::FileRef]; times are numbers. *)
Record FileRef : Type := mkFileRef {
  uri : str;
  mime : option str;
  size_bytes : option Z;
  display_name : option str;
  digest : option str;
  producer_job_id : option str;
  tool_call_id : option str;
  session_id : option str;
  correlation_id : option str;
  created_at : Z;
  expires_at : option Z;
  metadata : Value;
}.

(** Calls to [serde_json]: the text of a value, [from_value::<FileRef>] and
    [to_value]. *)
Class Serde : Type := {
  serde_text :: JsonText;
  file_ref_from : Value -> option FileRef;
  file_ref_to : FileRef -> Value;
}.

Section Context_.
Context {SD : Serde}.

Record StepOutput : Type := mkOutput { output : Value; file_refs : list FileRef }.

(** [Value::get] by key and by index. *)
Definition get_key (k : str) (v : Value) : option Value :=
  match v with Object m => json_get k m | _ => None end.
Definition get_index (i : Z) (v : Value) : option Value :=
  match v with Array l => l !! Z.to_nat i | _ => None end.

Definition try_extract (v : option Value) : list FileRef :=
  match v with
  | Some (Array arr) => omap file_ref_from arr
  | _ => []
  end.

Definition extract_file_refs (v : Value) : list FileRef :=
  try_extract (get_key (lit "file_refs") v)
  ++ try_extract (get_key (lit "context") v ≫= get_key (lit "file_refs")).

(** [StepOutput::from_value]. *)
Definition from_value (v : Value) : StepOutput := mkOutput v (extract_file_refs v).

Record WorkflowContext : Type := mkContext {
  inputs : Value;
  steps : gmap str StepOutput;
  item_stack : list (str * Value);
}.

Definition context_new (i : Value) : WorkflowContext := mkContext i ∅ [].
Definition record_step (id : str) (o : StepOutput) (c : WorkflowContext) : WorkflowContext :=
  mkContext (inputs c) (<[id := o]> (steps c)) (item_stack c).
Definition push_item (name : str) (v : Value) (c : WorkflowContext) : WorkflowContext :=
  mkContext (inputs c) (steps c) (item_stack c ++ [(name, v)]).

(** [ItemGuard::drop]: remove the last binding of the name. *)
Fixpoint remove_first (name : str) (l : list (str * Value)) : list (str * Value) :=
  match l with
  | [] => []
  | (k, v) :: l => if bool_decide (k = name) then l else (k, v) :: remove_first name l
  end.

Definition drop_item (name : str) (c : WorkflowContext) : WorkflowContext :=
  mkContext (inputs c) (steps c) (reverse (remove_first name (reverse (item_stack c)))).

(** [lookup_item]: the innermost binding. *)
Definition lookup_item (name : str) (c : WorkflowContext) : option Value :=
  json_get name (reverse (item_stack c)).

Context {HO : HashOrder StepOutput}.

Definition step_json (o : StepOutput) : Value :=
  Object [(lit "output", output o); (lit "file_refs", Array (map file_ref_to (file_refs o)))].

(** [as_json]. *)
Definition as_json (c : WorkflowContext) : Value :=
  let steps_obj := map (fun so => (fst so, step_json (snd so))) (hash_order (steps c)) in
  let root := [(lit "inputs", inputs c); (lit "steps", Object steps_obj)] in
  let bound := foldl (fun obj kv => json_insert (fst kv) (snd kv) obj) root (item_stack c) in
  Object (json_insert (lit "item") (default Null (snd <$> last (item_stack c))) bound).

(** ** Paths *)

Inductive PathToken : Type :=
| Ident (s : str)
| Index (i : Z).

Definition ch_open : Z := 91.
Definition ch_close : Z := 93.
Definition in_ident (c : Z) : bool := negb (c =? ch_dot) && negb (c =? ch_open).

(** [tokenize_path]; each turn consumes a character or more. *)
Fixpoint tokenize_loop (fuel : nat) (s : str) : option (list PathToken) :=
  match fuel with
  | O => Some []
  | S fuel =>
      match s with
      | [] => Some []
      | c :: s' =>
          if c =? ch_dot then tokenize_loop fuel s'
          else if c =? ch_open then
            '(digits, rest) ← split_once [ch_close] s';
            num ← parse_u64 digits;
            toks ← tokenize_loop fuel rest;
            Some (Index num :: toks)
          else
            let (ident, rest) := span in_ident s in
            if bool_decide (ident = []) then None
            else toks ← tokenize_loop fuel rest; Some (Ident ident :: toks)
      end
  end.

Definition tokenize_path (s : str) : option (list PathToken) := tokenize_loop (S (length s)) s.

Definition follow (cur : Value) (t : PathToken) : Value :=
  default Null (match t with Ident k => get_key k cur | Index i => get_index i cur end).

Definition resolve_path (path : str) (root : Value) (c : WorkflowContext) : option Value :=
  tokens ← tokenize_path path;
  match tokens with
  | Ident first :: rest =>
      let cur :=
        match lookup_item first c with
        | Some v => v
        | None => default Null (get_key first root)
        end in
      if is_null cur && match get_key first root with None => true | _ => false end
         && match lookup_item first c with None => true | _ => false end
      then None
      else Some (foldl follow cur rest)
  | _ => None
  end.

(** ** Rendering *)

Inductive TemplateError : Type :=
| UnknownPath (template path : str)
| Malformed (template reason : str).

Definition open2 : str := lit "{{".
Definition close2 : str := lit "}}".

Definition render_text (v : Value) : str :=
  match v with Str s => s | Null => [] | other => json_to_string other end.

(** The embedded mode of [render_string]; each turn consumes four characters or more. *)
Fixpoint embed_loop (fuel : nat) (template rest : str) (root : Value) (c : WorkflowContext) (out : str) :
    result TemplateError str :=
  match fuel with
  | O => Ok out
  | S fuel =>
      match split_once open2 rest with
      | None => Ok (out ++ rest)
      | Some (before, after) =>
          match split_once close2 after with
          | None => Err (Malformed template (lit "unterminated '{{'"))
          | Some (body, rest) =>
              let path := trim body in
              if bool_decide (path = []) then Err (Malformed template (lit "empty reference"))
              else
                match resolve_path path root c with
                | None => Err (UnknownPath template path)
                | Some v => embed_loop fuel template rest root c (out ++ before ++ render_text v)
                end
          end
      end
  end.

(** [!count == 1] complements the count. *)
Definition several_markers (trimmed : str) : bool :=
  (u64_max - Z.of_nat (count_matches open2 trimmed) =? 1)
  || negb (bool_decide (count_matches close2 trimmed = 1%nat)).

Definition render_string (s : str) (root : Value) (c : WorkflowContext) : result TemplateError Value :=
  let trimmed := trim s in
  let embedded := rbind (embed_loop (S (length s)) s s root c []) (fun out => Ok (Str out)) in
  match strip_prefix open2 trimmed ≫= strip_suffix close2 with
  | None => embedded
  | Some body =>
      if several_markers trimmed then embedded
      else
        let path := trim body in
        match resolve_path path root c with
        | None => Err (UnknownPath s path)
        | Some v => Ok v
        end
  end.

Fixpoint render_value (v root : Value) (c : WorkflowContext) : result TemplateError Value :=
  match v with
  | Str s => render_string s root c
  | Array arr =>
      let? out := (fix items (arr : list Value) : result TemplateError (list Value) :=
        match arr with
        | [] => Ok []
        | x :: arr => let? x := render_value x root c in let? out := items arr in Ok (x :: out)
        end) arr in
      Ok (Array out)
  | Object obj =>
      let? out := (fix entries (obj out : JsonMap) : result TemplateError JsonMap :=
        match obj with
        | [] => Ok out
        | (k, x) :: obj => let? x := render_value x root c in entries obj (json_insert k x out)
        end) obj [] in
      Ok (Object out)
  | other => Ok other
  end.

Definition render (args : Value) (c : WorkflowContext) : result TemplateError Value :=
  render_value args (as_json c) c.

End Context_.

(** A concrete parameter to evaluate with: it reads no file reference. *)
Definition sample_serde : Serde := {|
  serde_text := sample_text;
  file_ref_from _ := None;
  file_ref_to _ := Null;
|}.

(** ** Theorems *)

(** ** Paths and their text *)

(** A character an identifier of a path may have without ending it, the path or the
    reference. *)
Definition path_char (c : Z) : bool :=
  negb (is_whitespace c) && negb (existsb (Z.eqb c) [46; 91; 93; 123; 125]).

Definition good_ident (s : str) : Prop := s <> [] /\ Forall (fun c => path_char c = true) s.

Definition good_token (t : PathToken) : Prop :=
  match t with Ident s => good_ident s | Index n => in_u64 n end.

Definition print_token (t : PathToken) : str :=
  match t with
  | Ident s => ch_dot :: s
  | Index n => ch_open :: print_u64 n ++ [ch_close]
  end.

Definition print_path (first : str) (rest : list PathToken) : str := first ++ flat_map print_token rest.

Definition reference (path : str) : str := open2 ++ path ++ close2.

Lemma path_char_in_ident c : path_char c = true -> in_ident c = true.
Proof. unfold path_char, in_ident, ch_dot, ch_open. simpl. intros H. bool_to_prop. lia. Qed.

Lemma span_ident s toks :
  Forall (fun c => path_char c = true) s ->
  span in_ident (s ++ flat_map print_token toks) = (s, flat_map print_token toks).
Proof.
  intros Hs. assert (Hi : Forall (fun c => in_ident c = true) s)
    by (eapply Forall_impl; [exact Hs|]; intros c; apply path_char_in_ident).
  destruct toks as [|[k|n] toks]; simpl.
  - rewrite app_nil_r. by apply span_app.
  - by apply span_stop.
  - by apply span_stop.
Qed.

Lemma print_u64_digits n : in_u64 n -> Forall (fun c => 48 <= c < 58) (print_u64 n).
Proof. intros [Hn _]. by apply print_loop_digits. Qed.

Lemma tokenize_ident fuel s toks :
  good_ident s ->
  tokenize_loop (S fuel) (s ++ flat_map print_token toks)
  = (l ← tokenize_loop fuel (flat_map print_token toks); Some (Ident s :: l)).
Proof.
  intros [Hne Hs]. destruct s as [|c s]; [done|]. cbn [app tokenize_loop].
  assert (Hc : in_ident c = true) by (apply path_char_in_ident; by inv Hs).
  unfold in_ident in Hc. rewrite andb_true_iff, !negb_true_iff in Hc. destruct Hc as [-> ->].
  rewrite app_comm_cons, span_ident by done. by rewrite bool_decide_false.
Qed.

(** Every token takes two turns at most. *)
Lemma tokenize_tokens toks : forall fuel,
  Forall good_token toks -> (2 * length toks < fuel)%nat ->
  tokenize_loop fuel (flat_map print_token toks) = Some toks.
Proof.
  induction toks as [|[s|n] toks IH]; intros fuel Hg Hf; apply Forall_cons_1 in Hg || clear Hg.
  - by destruct fuel.
  - destruct Hg as [Hg Hgs]. destruct fuel as [|[|fuel]]; simpl in Hf; [lia|lia|].
    change (flat_map print_token (Ident s :: toks)) with (ch_dot :: s ++ flat_map print_token toks).
    change (tokenize_loop (S (S fuel)) (ch_dot :: s ++ flat_map print_token toks))
      with (tokenize_loop (S fuel) (s ++ flat_map print_token toks)).
    rewrite tokenize_ident by done. rewrite IH by (done || lia). done.
  - destruct Hg as [Hg Hgs]. destruct fuel as [|fuel]; simpl in Hf; [lia|]. simpl.
    rewrite <- app_assoc. simpl.
    pose proof (split_once_app ch_close [] (print_u64 n) (flat_map print_token toks)) as Hsplit. simpl in Hsplit.
    rewrite Hsplit; simpl.
    + rewrite print_u64_parse by done. simpl. rewrite IH by (done || lia). done.
    + eapply Forall_impl; [by apply print_u64_digits|]. unfold ch_close. simpl. lia.
Qed.

Lemma print_token_length t : good_token t -> (2 <= length (print_token t))%nat.
Proof.
  destruct t as [[|c s]|n]; simpl; [by intros []|lia|]. rewrite length_app. simpl. lia.
Qed.

(** Parsing inverts printing. *)
Lemma tokenize_print first rest :
  good_ident first -> Forall good_token rest ->
  tokenize_path (print_path first rest) = Some (Ident first :: rest).
Proof.
  intros Hf Hr. unfold tokenize_path, print_path. rewrite tokenize_ident by done.
  assert (Hl : (2 * length rest <= length (flat_map print_token rest))%nat).
  { clear Hf. induction Hr as [|t rest Ht Hr IH]; simpl; [lia|]. rewrite length_app.
    pose proof (print_token_length t Ht). lia. }
  rewrite tokenize_tokens; [done|done|]. rewrite length_app.
  destruct Hf as [Hne _]. destruct first; simpl; [done|lia].
Qed.

(** ** References *)

Lemma print_path_chars first rest :
  good_ident first -> Forall good_token rest ->
  Forall (fun c => plain c /\ c <> 123 /\ c <> 125) (print_path first rest).
Proof.
  assert (Hid : forall s, Forall (fun c => path_char c = true) s -> Forall (fun c => plain c /\ c <> 123 /\ c <> 125) s).
  { intros s Hs. eapply Forall_impl; [exact Hs|]. intros c Hc. unfold path_char in Hc. simpl in Hc.
    unfold plain. destruct (is_whitespace c); [done|]. bool_to_prop. lia. }
  intros [_ Hf] Hr. apply Forall_app. split; [by apply Hid|].
  induction Hr as [|t rest Ht Hr IH]; simpl; [constructor|]. apply Forall_app. split; [|done].
  destruct t as [s|n]; simpl.
  - constructor; [by vm_compute|]. by apply Hid, Ht.
  - constructor; [by vm_compute|]. apply Forall_app. split; [|repeat constructor; by vm_compute].
    eapply Forall_impl; [by apply print_u64_digits|]. intros c Hc. cbn beta in Hc.
    unfold plain, is_whitespace, in_range. split; lia.
Qed.

Section Templates.
Context {SD : Serde} {HO : HashOrder StepOutput}.

(** What a root identifier denotes: the innermost binding of that name; otherwise
    [item] is the innermost binding of any name. *)
Definition root_of (first : str) (c : WorkflowContext) : option Value :=
  match lookup_item first c with
  | Some v => Some v
  | None =>
      if bool_decide (first = lit "item") then Some (default Null (snd <$> last (item_stack c)))
      else if bool_decide (first = lit "inputs") then Some (inputs c)
      else if bool_decide (first = lit "steps") then
        Some (Object (map (fun so => (fst so, step_json (snd so))) (hash_order (steps c))))
      else None
  end.

Lemma bindings_get first l root :
  json_get first (foldl (fun obj kv => json_insert (fst kv) (snd kv) obj) root l)
  = match json_get first (reverse l) with Some v => Some v | None => json_get first root end.
Proof.
  revert root. induction l as [|[k v] l IH] using rev_ind; intros root; [done|].
  rewrite foldl_app, reverse_app. simpl. case_bool_decide as Hk.
  - subst k. by rewrite json_get_insert.
  - rewrite json_get_insert_ne by done. apply IH.
Qed.

Lemma resolve_root first c :
  match lookup_item first c with Some v => Some v | None => get_key first (as_json c) end = root_of first c.
Proof.
  unfold root_of. destruct (lookup_item first c) eqn:El; [done|]. unfold as_json. cbn [get_key].
  case_bool_decide as Hi; [subst first; by rewrite json_get_insert|].
  rewrite json_get_insert_ne by done. rewrite bindings_get. unfold lookup_item in El. rewrite El. simpl.
  repeat case_bool_decide; done.
Qed.

(** The walk along a path. *)
Definition denote (first : str) (rest : list PathToken) (c : WorkflowContext) : option Value :=
  (fun v => foldl follow v rest) <$> root_of first c.

Lemma resolve_print first rest c :
  good_ident first -> Forall good_token rest ->
  resolve_path (print_path first rest) (as_json c) c = denote first rest c.
Proof.
  intros Hf Hr. unfold resolve_path, denote. rewrite tokenize_print by done. cbn [mbind option_bind].
  rewrite <- resolve_root. destruct (lookup_item first c) as [v|].
  - by rewrite !andb_false_r.
  - destruct (get_key first (as_json c)) as [v|]; [|done]. by rewrite andb_false_r.
Qed.

(** A string that is one reference is rendered in the whole-value mode. *)
Lemma render_whole p c :
  Forall (fun c => plain c /\ c <> 123 /\ c <> 125) p ->
  render (Str (reference p)) c =
    match resolve_path p (as_json c) c with Some v => Ok v | None => Err (UnknownPath (reference p) p) end.
Proof.
  intros Hp.
  assert (Hplain : Forall plain p) by (eapply Forall_impl; [exact Hp|]; by intros ? []).
  assert (Hopen : Forall (fun x => x <> 123) p) by (eapply Forall_impl; [exact Hp|]; by intros ? (_ & ? & _)).
  assert (Hclose : Forall (fun x => x <> 125) p) by (eapply Forall_impl; [exact Hp|]; by intros ? (_ & _ & ?)).
  unfold render. simpl. unfold render_string.
  assert (Ht : trim (reference p) = reference p).
  { apply trim_plain. unfold reference. rewrite !Forall_app. split; [repeat constructor|].
    split; [done|repeat constructor]. }
  rewrite Ht. unfold reference at 1. rewrite strip_prefix_app. simpl.
  rewrite (proj2 (strip_suffix_Some close2 (p ++ close2) p) eq_refl).
  assert (several_markers (reference p) = false) as ->.
  { unfold several_markers, reference.
    replace (count_matches open2 (open2 ++ p ++ close2)) with 1%nat.
    2: { symmetry. apply (count_matches_step 123 [123] []); [constructor|].
         apply Forall_app. split; [done|repeat constructor; done]. }
    replace (count_matches close2 (open2 ++ p ++ close2)) with 1%nat; [done|].
    symmetry. pose proof (count_matches_step 125 [125] (open2 ++ p) []) as H. rewrite app_nil_r, <- app_assoc in H.
    apply H; [|constructor]. apply Forall_app. split; [repeat constructor; done|done]. }
  by rewrite trim_plain by done.
Qed.

(** A string that is one reference renders to the value its path denotes, with its
    JSON type, or fails naming the path when the root is bound to nothing.  A missing
    key or index further down is null. *)
Theorem render_reference first rest c
  (Hf : good_ident first) (Hr : Forall good_token rest) :
  let t := reference (print_path first rest) in
  render (Str t) c =
    match denote first rest c with
    | Some v => Ok v
    | None => Err (UnknownPath t (print_path first rest))
    end.
Proof.
  cbv zeta. rewrite render_whole, resolve_print by (done || by apply print_path_chars). done.
Qed.

(** ** Roots that validation accepts and rendering does not know *)

(** An identifier of the validator's grammar. *)
Definition simple_ident (s : str) : Prop := bad_segment s = false.

Lemma simple_ident_chars s : simple_ident s -> s <> [] /\ Forall (fun c => ident_char c = true) s.
Proof.
  unfold simple_ident. destruct s as [|c s]; [done|]. intros H. apply orb_false_iff in H as [H _].
  split; [done|]. by apply forallb_Forall, negb_false_iff.
Qed.

Lemma ident_char_path c : ident_char c = true -> path_char c = true /\ plain c /\ c <> ch_dot /\ c <> 125.
Proof.
  intros H. unfold ident_char, path_char, plain, is_whitespace in *. simpl. bool_to_prop. char_lia.
Qed.

Lemma simple_good s : simple_ident s -> good_ident s.
Proof.
  intros [Hne Hs]%simple_ident_chars. split; [done|]. eapply Forall_impl; [exact Hs|].
  intros c Hc. by apply ident_char_path.
Qed.

Lemma extract_reference root : simple_ident root -> extract_template_roots (reference root) = Ok [root].
Proof.
  intros Hr. destruct (simple_ident_chars root Hr) as [Hne Hc].
  assert (Hp : Forall plain root) by (eapply Forall_impl; [exact Hc|]; intros c H; by apply ident_char_path).
  assert (Hd : Forall (fun x => x <> ch_dot) root) by (eapply Forall_impl; [exact Hc|]; intros c H; by apply ident_char_path).
  assert (Hb : Forall (fun x => x <> 125) root) by (eapply Forall_impl; [exact Hc|]; intros c H; by apply ident_char_path).
  pose proof (split_once_app 123 [123] [] (root ++ close2) ltac:(constructor)) as Eo.
  pose proof (split_once_app 125 [125] root [] Hb) as Ec. rewrite app_nil_r in Ec.
  unfold extract_template_roots, reference. cbn [extract_loop].
  change (split_once open_braces (open2 ++ root ++ close2)) with (split_once [123; 123] ([] ++ [123; 123] ++ root ++ close2)).
  rewrite Eo. change (split_once close_braces (root ++ close2)) with (split_once [125; 125] (root ++ [125; 125])).
  rewrite Ec, trim_plain, bool_decide_false by done.
  rewrite split_char_absent by done. simpl existsb. rewrite (Hr : bad_segment root = false). simpl.
  by destruct (length root).
Qed.

(** Validation accepts as the root of an idempotency key every name it calls known
    - [env], the declared inputs, the step identifiers - but rendering binds only
    [inputs], [steps], [item] and the names of the enclosing loops: with any other the
    key is accepted and every execution of the step fails. *)
Theorem known_root_unbound (spec : WorkflowSpec) (id root : str) (c : WorkflowContext)
  (Hroot : simple_ident root) (Hknown : root ∈ known_idents spec)
  (Hres : root ∉ [lit "inputs"; lit "steps"; lit "item"]) (Hloop : root ∉ map fst (item_stack c)) :
  check_template_refs id (reference root) (known_idents spec) = Ok tt /\
  render (Str (reference root)) c = Err (UnknownPath (reference root) root).
Proof.
  split.
  - unfold check_template_refs. rewrite extract_reference by done. simpl. by rewrite bool_decide_true.
  - pose proof (resolve_print root [] c (simple_good _ Hroot) (Forall_nil_2 _)) as H.
    pose proof (print_path_chars root [] (simple_good _ Hroot) (Forall_nil_2 _)) as Hp.
    unfold print_path in H, Hp. simpl in H, Hp. rewrite app_nil_r in H, Hp.
    rewrite render_whole, H by done. unfold denote, root_of.
    assert (lookup_item root c = None) as ->.
    { unfold lookup_item. destruct (json_get root (reverse (item_stack c))) as [v|] eqn:E; [|done].
      apply json_get_In in E. rewrite elem_of_reverse in E. destruct Hloop.
      apply list_elem_of_fmap. by exists (root, v). }
    rewrite !bool_decide_false; [done|..]; intros ->; apply Hres; set_solver.
Qed.

(** ** Text without references *)

Fixpoint plain_value (v : Value) : Prop :=
  match v with
  | Str s => contains open2 s = false
  | Array l => (fix all (l : list Value) : Prop := match l with [] => True | x :: l => plain_value x /\ all l end) l
  | Object m =>
      NoDup (map fst m) /\
      (fix all (m : JsonMap) : Prop := match m with [] => True | (_, x) :: m => plain_value x /\ all m end) m
  | _ => True
  end.

Lemma trim_start_suffix p s : exists a, s = a ++ trim_start_while p s.
Proof.
  induction s as [|c s [a IH]]; simpl; [by exists []|]. destruct (p c); [|by exists []].
  exists (c :: a). simpl. by rewrite <- IH.
Qed.

Lemma trim_within s : exists a b, s = a ++ trim s ++ b.
Proof.
  unfold trim. destruct (trim_start_suffix is_whitespace s) as [a Ha].
  destruct (trim_start_suffix is_whitespace (reverse (trim_start_while is_whitespace s))) as [b Hb].
  exists a, (reverse b). rewrite Ha at 1. f_equal. rewrite <- reverse_app, <- Hb. by rewrite reverse_involutive.
Qed.

Lemma render_string_plain s root c : contains open2 s = false -> render_string s root c = Ok (Str s).
Proof.
  intros Hs. unfold render_string.
  assert (strip_prefix open2 (trim s) = None) as ->.
  { destruct (strip_prefix open2 (trim s)) as [r|] eqn:E; [|done]. apply strip_prefix_Some in E.
    destruct (trim_within s) as (a & b & Hab). rewrite E, <- app_assoc in Hab.
    rewrite <- not_true_iff_false in Hs. destruct Hs. apply contains_spec. by exists a, (r ++ b). }
  simpl. unfold contains in Hs. destruct (split_once open2 s) eqn:E; [done|]. done.
Qed.

Lemma json_insert_fresh k v m : (k ∉ map fst m) -> json_insert k v m = m ++ [(k, v)].
Proof.
  induction m as [|[k' v'] m IH]; simpl; [done|]. rewrite not_elem_of_cons. intros [Hne Hm].
  rewrite bool_decide_false by done. by rewrite IH.
Qed.

(** Arguments without references are passed to the tool unchanged. *)
Theorem render_plain v c (Hv : plain_value v) : render v c = Ok v.
Proof.
  unfold render. generalize (as_json c) as root. intros root. revert Hv.
  induction v as [| | |s|l IH|m IH] using value_ind'; intros Hv; try done.
  - by apply render_string_plain.
  - simpl in *. match goal with |- rbind (?f l) _ = _ => assert (f l = Ok l) as ->; [|done] end.
    induction IH as [|x l Hx Hl IHl]; [done|]. destruct Hv as [Hxv Hlv]. rewrite Hx by done. simpl.
    by rewrite IHl.
  - simpl in *. destruct Hv as [Hn Hv].
    match goal with |- rbind (?f m []) _ = _ => assert (forall out, NoDup (map fst (out ++ m)) -> f m out = Ok (out ++ m)) as H end.
    { clear Hn. induction IH as [|[k x] m Hx Hm IHm]; intros out Hn; [by rewrite app_nil_r|].
      destruct Hv as [Hxv Hmv]. simpl in Hx. rewrite Hx by done. simpl.
      rewrite map_app in Hn. simpl in Hn.
      rewrite json_insert_fresh.
      - rewrite (IHm Hmv (out ++ [(k, x)])); by rewrite <- app_assoc, ?map_app.
      - apply NoDup_app in Hn as (_ & Hn & _). intros Hk. apply (Hn k Hk). by left. }
    by rewrite H.
Qed.

End Templates.

(** ** Evaluation *)

Section Examples.
Local Open Scope string_scope.
Local Existing Instance sample_serde.

(** Inside a loop over [item], itself inside a loop over [row]. *)
Definition loop_context : WorkflowContext :=
  push_item (lit "item") (Num (PosInt 7)) (push_item (lit "row") (Array [Null; Str (lit "x")])
    (record_step (lit "export") (from_value (Object [(lit "n", Num (PosInt 3))]))
      (WorkflowContext.context_new (Object [(lit "date", Str (lit "today"))])))).

Example render_ex :
  render (Object [(lit "a", Str (lit "{{row[1]}}")); (lit "b", Str (lit " {{ steps.export.output.n }} "));
                  (lit "c", Str (lit "n={{item}}, {{inputs.date}}")); (lit "d", Str (lit "{{inputs.missing.x}}"))])
    loop_context
  = Ok (Object [(lit "a", Str (lit "x")); (lit "b", Num (PosInt 3)); (lit "c", Str (lit "n=7, today")); (lit "d", Null)]).
Proof. by vm_compute. Qed.

(** The binding named [item] is not the innermost binding: the template and the JSON
    root (which JSONPath expressions are evaluated on) disagree. *)
Example item_differs :
  let c := push_item (lit "row") Null loop_context in
  render (Str (lit "{{item}}")) c = Ok (Num (PosInt 7)) /\ get_key (lit "item") (as_json c) = Some Null.
Proof. by vm_compute. Qed.

Lemma render_reference_witness :
  let t := lit "{{row[1]}}" in render (Str t) loop_context = Ok (Str (lit "x")).
Proof.
  assert (Hf : good_ident (lit "row")) by (split; [done|by repeat constructor]).
  assert (Hr : Forall good_token [Index 1]) by (repeat constructor; unfold in_u64; vm_compute; congruence).
  pose proof (render_reference (lit "row") [Index 1] loop_context Hf Hr) as H. vm_compute in H. vm_compute. exact H.
Defined.

Lemma known_root_unbound_witness :
  render (Str (reference (lit "env"))) loop_context = Err (UnknownPath (reference (lit "env")) (lit "env")).
Proof.
  apply (known_root_unbound (mkSpec Null []) (lit "s") (lit "env") loop_context); [by vm_compute|..];
    apply (bool_decide_unpack _); by vm_compute.
Defined.

Lemma render_plain_witness : render (Array [Str (lit "no braces"); Bool true]) loop_context = Ok (Array [Str (lit "no braces"); Bool true]).
Proof. apply render_plain. by vm_compute. Defined.

End Examples.
