(* ===== verification/WorkflowStores.v ===== *)
(** The two registries a workflow run shares with the rest of the process:
    [dcc-mcp-workflow/src/idempotency.rs] (the in-memory cache) and [approval.rs].

    Times are nanoseconds.  A one-shot channel is a numbered waiter and what it has
    received: an answer, or the loss of its sender. *)

From S2P Require Import Prelude Json WorkflowSpec.

Local Open Scope Z_scope.

(** ** Idempotency cache *)

Record CachedEntry : Type := mkCached { cached_value : Value; cached_expires_at : option Z }.

Abbreviation IdempotencyCache := (gmap (list Z) CachedEntry).

Definition compose_key (scope : IdempotencyScope) (workflow_id rendered : str) : str :=
  match scope with
  | ScopeGlobal => lit "G:" ++ rendered
  | ScopeWorkflow => lit "W:" ++ workflow_id ++ lit ":" ++ rendered
  end.

(** The latest [Instant]: 64 bits of seconds. *)
Definition instant_max : Z := (2 ^ 63 - 1) * 1000000000 + 999999999.
Definition instant_checked_add (now d : Z) : option Z := if now + d <=? instant_max then Some (now + d) else None.

Definition idem_get (scope : IdempotencyScope) (workflow_id rendered : str) (now : Z) (c : IdempotencyCache) : option Value :=
  entry ← c !! compose_key scope workflow_id rendered;
  match cached_expires_at entry with
  | Some exp => if exp <=? now then None else Some (cached_value entry)
  | None => Some (cached_value entry)
  end.

Definition idem_put (scope : IdempotencyScope) (workflow_id rendered : str) (v : Value) (ttl_secs : option Z) (now : Z)
    (c : IdempotencyCache) : IdempotencyCache :=
  let expires_at :=
    match ttl_secs with
    | Some n => if 0 <? n then instant_checked_add now (n * 1000000000) else None
    | None => None
    end in
  <[compose_key scope workflow_id rendered := mkCached v expires_at]> c.

Definition live (now : Z) (e : CachedEntry) : bool :=
  match cached_expires_at e with Some exp => now <? exp | None => true end.

Definition purge_expired (now : Z) (c : IdempotencyCache) : IdempotencyCache * nat :=
  let kept := base.filter (fun ke => live now (snd ke) = true) c in
  (kept, (size c - size kept)%nat).

(** ** Approval gate *)

Record ApprovalResponse : Type := mkResponse { approved : bool; reason : option str }.

Definition response_timeout : ApprovalResponse := mkResponse false (Some (lit "timeout")).
Definition response_cancelled : ApprovalResponse := mkResponse false (Some (lit "cancelled")).

(** [senders]: the waiter each key would answer; [channels]: what each waiter got so
    far - nothing, an answer or, when the sender was dropped, [None]. *)
Record ApprovalGate : Type := mkGate {
  senders : gmap (list Z * list Z) nat;
  channels : gmap nat (option ApprovalResponse);
  next_waiter : nat;
}.

Definition gate_new : ApprovalGate := mkGate ∅ ∅ 0.

(** Dropping the sender of a key, if it has one. *)
Definition drop_sender (key : list Z * list Z) (g : ApprovalGate) : ApprovalGate :=
  match senders g !! key with
  | Some w => mkGate (delete key (senders g)) (<[w := None]> (channels g)) (next_waiter g)
  | None => g
  end.

Definition wait_handle (key : list Z * list Z) (g : ApprovalGate) : ApprovalGate * nat :=
  let g := drop_sender key g in
  (mkGate (<[key := next_waiter g]> (senders g)) (channels g) (S (next_waiter g)), next_waiter g).

(** [listening]: the receiver still exists. *)
Definition gate_resolve (key : list Z * list Z) (r : ApprovalResponse) (listening : bool) (g : ApprovalGate) :
    ApprovalGate * bool :=
  match senders g !! key with
  | Some w =>
      (mkGate (delete key (senders g)) (if listening then <[w := Some r]> (channels g) else channels g)
         (next_waiter g), listening)
  | None => (g, false)
  end.

Definition gate_discard (key : list Z * list Z) (g : ApprovalGate) : ApprovalGate := drop_sender key g.

Definition pending_count (g : ApprovalGate) : nat := size (senders g).

(** ** Properties *)

(** A workflow identifier as [Uuid] prints it has no colon. *)
Definition uuid_text (id : str) : Prop := Forall (fun c => c <> 58) id.

Lemma colon_split (a a' b b' : str) :
  uuid_text a -> uuid_text a' -> a ++ 58 :: b = a' ++ 58 :: b' -> a = a' /\ b = b'.
Proof.
  intros Ha. revert a'. induction Ha as [|x a Hx Ha IH]; intros a' Ha' H.
  - destruct Ha' as [|y a' Hy Ha']; simpl in H; [by simplify_eq|]. congruence.
  - destruct Ha' as [|y a' Hy Ha']; simpl in H; [congruence|].
    injection H as -> H. destruct (IH a' Ha' H) as [-> ->]. done.
Qed.

(** Keys of different scopes, workflows or texts never meet. *)
Lemma compose_key_inj s s' w w' r r' :
  uuid_text w -> uuid_text w' -> compose_key s w r = compose_key s' w' r' ->
  s = s' /\ r = r' /\ (s = ScopeWorkflow -> w = w').
Proof.
  intros Hw Hw'. destruct s, s'; simpl; intros H; try (vm_compute in H; discriminate H).
  - injection H as H. apply colon_split in H as [-> ->]; done.
  - injection H as ->. done.
Qed.

(** A lookup finds the value last recorded under the same scope, text and (for keys
    of workflow scope) workflow while it has not expired; an entry recorded under
    any other scope, workflow or text does not change it. *)
Theorem cache_exact s s' w w' r r' v ttl now now' c
  (Hw : uuid_text w) (Hw' : uuid_text w') (Hnow : 0 <= now) :
  idem_get s' w' r' now' (idem_put s w r v ttl now c) =
    if decide (s = s' /\ r = r' /\ (s = ScopeWorkflow -> w = w')) then
      match ttl with
      | Some n =>
          if (0 <? n) && (now + n * 1000000000 <=? instant_max) && (now + n * 1000000000 <=? now') then None else Some v
      | None => Some v
      end
    else idem_get s' w' r' now' c.
Proof.
  unfold idem_get, idem_put. case_decide as H.
  - destruct H as (-> & -> & Hww).
    assert (compose_key s' w r' = compose_key s' w' r') as ->.
    { destruct s'; simpl; [by rewrite Hww|done]. }
    rewrite lookup_insert_eq. simpl. destruct ttl as [n|]; [|done].
    destruct (0 <? n); simpl; [|done]. unfold instant_checked_add. destruct (now + n * 1000000000 <=? instant_max); simpl; [|done].
    done.
  - rewrite lookup_insert_ne; [done|]. intros E. apply H. by apply compose_key_inj in E.
Qed.

Lemma cache_exact_witness :
  idem_get ScopeGlobal (lit "w2") (lit "k") 5 (idem_put ScopeGlobal (lit "w1") (lit "k") Null (Some 1) 0 ∅) = Some Null /\
  idem_get ScopeWorkflow (lit "w2") (lit "k") 5 (idem_put ScopeWorkflow (lit "w1") (lit "k") Null (Some 1) 0 ∅) = None.
Proof.
  assert (H1 : uuid_text (lit "w1")) by (by repeat constructor).
  assert (H2 : uuid_text (lit "w2")) by (by repeat constructor).
  rewrite !cache_exact by done. split; [by vm_compute|]. rewrite decide_False; [done|].
  intros (_ & _ & H). specialize (H eq_refl). by vm_compute in H.
Defined.

(** What a waiter receives is final, and comes from its own key. *)
Lemma wait_then_resolve key r g :
  let '(g1, w) := wait_handle key g in
  let '(g2, sent) := gate_resolve key r true g1 in
  sent = true /\ channels g2 !! w = Some (Some r) /\ senders g2 !! key = None.
Proof.
  unfold wait_handle, gate_resolve. simpl. rewrite lookup_insert_eq. simpl.
  by rewrite lookup_insert_eq, lookup_delete_eq.
Qed.
