(* ===== verification/Artefact.v ===== *)
(** The artefact store, [dcc-mcp-artefact/src/lib.rs]: bodies stored by their SHA-256, with
    the references of everyone who stored them, what a store promises as a class with its
    laws, and the in-memory backend.  The backend on a directory is [ArtefactFs.v].

    A clock is the sequence of the readings of one call; times are nanoseconds. *)

From S2P Require Import Prelude Text Json WorkflowSpec WorkflowContext.

Local Open Scope Z_scope.

(** ** Data *)

(** A file of the disk is read through the argument [disk] of the calls. *)
Inductive ArtefactBody : Type :=
| Inline (data : list Z)
| Path (p : str).

Record ArtefactFilter : Type := mkFilter {
  want_job : option str;
  want_mime : option str;
  created_since : option Z;
  want_session : option str;
  want_tool_call : option str;
  want_correlation : option str;
}.

Record ArtefactPutOptions : Type := mkOptions {
  opt_mime : option str;
  opt_display_name : option str;
  opt_producer_job_id : option str;
  opt_tool_call_id : option str;
  opt_session_id : option str;
  opt_correlation_id : option str;
  ttl_secs : option Z;
  opt_metadata : Value;
}.

Definition default_options : ArtefactPutOptions := mkOptions None None None None None None None Null.

Record ArtefactStoreLimits : Type := mkLimits {
  max_body_bytes : option Z;
  max_entries : option Z;
  max_total_bytes : option Z;
  default_ttl_secs : option Z;
}.

Inductive ArtefactError : Type :=
| InvalidUri (uri : str)
| LimitExceeded (size limit : Z)
| IoError
| SerdeError.

(** What a call does: it answers, or it panics. *)
Inductive answer (A : Type) : Type :=
| Answers (r : result ArtefactError A)
| Unwinds.
Arguments Answers {A} r.
Arguments Unwinds {A}.

(** The crate [chrono]: the last time there is, and the longest [Duration::seconds]. *)
Class Chrono : Type := { max_utc : Z; max_duration_secs : Z }.

Definition Clock : Type := nat -> Z.
Definition Disk : Type := str -> option (list Z).

Definition URI_PREFIX : str := lit "artefact://sha256/".
Definition make_uri_sha256 (hex : str) : str := URI_PREFIX ++ hex.
Definition parse_sha256_uri (u : str) : option str := strip_prefix URI_PREFIX u.

Definition sha256_hex_of (fr : FileRef) : option str := digest fr ≫= strip_prefix (lit "sha256:").

Definition is_expired_at (now : Z) (fr : FileRef) : bool := match expires_at fr with Some e => e <=? now | None => false end.

Definition into_bytes (disk : Disk) (body : ArtefactBody) : result ArtefactError (list Z) :=
  match body with
  | Inline b => Ok b
  | Path p => match disk p with Some b => Ok b | None => Err IoError end
  end.

(** [None]: [Duration::seconds] panics. *)
Definition expires_at_from_ttl {ch : Chrono} (now ttl : Z) : option (option Z) :=
  if i64_max <? ttl then Some None
  else if max_duration_secs <? ttl then None
  else let e := now + ttl * 1000000000 in Some (if e <=? max_utc then Some e else None).

Definition is_set {A} (o : option A) : bool := match o with Some _ => true | None => false end.

Definition has_logical_metadata (o : ArtefactPutOptions) : bool :=
  is_set (opt_mime o) || is_set (opt_display_name o) || is_set (opt_producer_job_id o) || is_set (opt_tool_call_id o)
  || is_set (opt_session_id o) || is_set (opt_correlation_id o) || is_set (ttl_secs o) || negb (is_null (opt_metadata o)).

(** The clock is read for the creation, and once more when there is a lifetime. *)
Definition make_file_ref {ch : Chrono} (created now : Z) (hex : str) (size : Z) (o : ArtefactPutOptions) (default_ttl : option Z) : option FileRef :=
  e ← match (match ttl_secs o with Some t => Some t | None => default_ttl end) with
      | Some t => expires_at_from_ttl now t
      | None => Some None
      end;
  Some (mkFileRef (make_uri_sha256 hex) (opt_mime o) (Some size) (opt_display_name o) (Some (lit "sha256:" ++ hex)) (opt_producer_job_id o)
          (opt_tool_call_id o) (opt_session_id o) (opt_correlation_id o) created e (opt_metadata o)).

Definition wanted {A} `{EqDecision A} (w o : option A) : bool := match w with Some _ => bool_decide (o = w) | None => true end.

Definition apply_filter (fr : FileRef) (f : ArtefactFilter) : bool :=
  wanted (want_job f) (producer_job_id fr) && wanted (want_mime f) (mime fr)
  && match created_since f with Some t => t <=? created_at fr | None => true end
  && wanted (want_session f) (session_id fr) && wanted (want_tool_call f) (tool_call_id fr) && wanted (want_correlation f) (correlation_id fr).

(** [PartialEq for FileRef]. *)
Definition ref_eqb (a b : FileRef) : bool :=
  bool_decide (uri a = uri b) && bool_decide (mime a = mime b) && bool_decide (size_bytes a = size_bytes b)
  && bool_decide (display_name a = display_name b) && bool_decide (digest a = digest b) && bool_decide (producer_job_id a = producer_job_id b)
  && bool_decide (tool_call_id a = tool_call_id b) && bool_decide (session_id a = session_id b)
  && bool_decide (correlation_id a = correlation_id b) && bool_decide (created_at a = created_at b)
  && bool_decide (expires_at a = expires_at b) && value_eqb (metadata a) (metadata b).

(** The first size of every URI counts. *)
Fixpoint unique_from (seen : gset str) (refs : list FileRef) : Z :=
  match refs with
  | [] => 0
  | fr :: refs => if decide (uri fr ∈ seen) then unique_from seen refs else default 0 (size_bytes fr) + unique_from ({[uri fr]} ∪ seen) refs
  end.
Definition total_unique_body_bytes : list FileRef -> Z := unique_from ∅.

Definition over_limits (limits : ArtefactStoreLimits) (refs : list FileRef) : bool :=
  match max_entries limits with Some m => m <? Z.of_nat (length refs) | None => false end
  || match max_total_bytes limits with Some m => m <? total_unique_body_bytes refs | None => false end.

Definition older (a b : FileRef) : bool := created_at a <=? created_at b.

Definition too_large (limits : ArtefactStoreLimits) (size : Z) : option Z :=
  m ← max_body_bytes limits; if m <? size then Some m else None.

(** ** What a store promises *)

(** [trait ArtefactStore], with the state made explicit. *)
Class ArtefactStore (S : Type) : Type := {
  put_with_options : Clock -> Disk -> S -> ArtefactBody -> ArtefactPutOptions -> S * answer FileRef;
  get : Clock -> S -> str -> S * result ArtefactError (option (list Z));
  head_ref : Clock -> S -> str -> S * result ArtefactError (option FileRef);
  delete_artefact : S -> str -> S * result ArtefactError unit;
  list_artefacts : Clock -> S -> ArtefactFilter -> S * result ArtefactError (list FileRef);
}.

Definition put {S} {st : ArtefactStore S} (t : Clock) (disk : Disk) (s : S) (b : ArtefactBody) : S * answer FileRef :=
  put_with_options t disk s b default_options.
Definition put_file {S} {st : ArtefactStore S} (t : Clock) (disk : Disk) (s : S) (p : str) (m : option str) : S * answer FileRef :=
  put_with_options t disk s (Path p) (mkOptions m None None None None None None Null).
Definition put_bytes {S} {st : ArtefactStore S} (t : Clock) (disk : Disk) (s : S) (b : list Z) (m : option str) : S * answer FileRef :=
  put_with_options t disk s (Inline b) (mkOptions m None None None None None None Null).
Definition resolve {S} {st : ArtefactStore S} (t : Clock) (s : S) (u : str) : S * result ArtefactError (option (list Z)) := get t s u.

(** What can be said of the state of a store: whether its bodies and references are in
    order, which references are recorded in it, and its limits. *)
Class StoreView (S : Type) : Type := {
  in_order : S -> Prop;
  keeps : S -> FileRef -> Prop;
  limits_of : S -> ArtefactStoreLimits;
}.

(** No limit on entries and on bytes; a limit on the size of one body and a default
    lifetime may be set. *)
Definition unbounded (l : ArtefactStoreLimits) : Prop := max_entries l = None /\ max_total_bytes l = None.

Definition sound {S} {view : StoreView S} (s : S) : Prop := unbounded (limits_of s) /\ in_order s.

(** What a store without limits on its entries and bytes keeps. Asking for a reference may
    lose others to the same body, but then it answers none. *)
Class ArtefactStoreLaws (S : Type) {st : ArtefactStore S} {view : StoreView S} {sha : Sha256} : Type := {
  put_answer t disk s b o s' fr : sound s -> put_with_options t disk s b o = (s', Answers (Ok fr)) ->
    (forall i, is_expired_at (t i) fr = false) -> keeps s' fr;
  put_addresses t disk s b o s' fr : sound s -> put_with_options t disk s b o = (s', Answers (Ok fr)) ->
    exists data, into_bytes disk b = Ok data /\ uri fr = make_uri_sha256 (sha256 data);
  put_sound t disk s b o : sound s -> sound (put_with_options t disk s b o).1;
  get_sound t s u : sound s -> sound (get t s u).1;
  head_sound t s u : sound s -> sound (head_ref t s u).1;
  delete_sound s u : sound s -> sound (delete_artefact s u).1;
  list_sound t s f : sound s -> sound (list_artefacts t s f).1;
  put_keeps t disk s b o fr : sound s -> keeps s fr -> (forall i, is_expired_at (t i) fr = false) ->
    keeps (put_with_options t disk s b o).1 fr;
  get_keeps t s u fr : sound s -> keeps s fr -> (forall i, is_expired_at (t i) fr = false) -> keeps (get t s u).1 fr;
  head_keeps t s u fr : sound s -> keeps s fr -> (forall i, is_expired_at (t i) fr = false) ->
    starts_with (uri fr) u = false \/ (head_ref t s u).2 <> Ok None -> keeps (head_ref t s u).1 fr;
  list_keeps t s f fr : sound s -> keeps s fr -> (forall i, is_expired_at (t i) fr = false) -> keeps (list_artefacts t s f).1 fr;
  delete_keeps s u fr : sound s -> keeps s fr -> starts_with (uri fr) u = false -> keeps (delete_artefact s u).1 fr;
  get_kept t s fr : sound s -> keeps s fr -> (forall i, is_expired_at (t i) fr = false) ->
    exists s' data, get t s (uri fr) = (s', Ok (Some data)) /\ uri fr = make_uri_sha256 (sha256 data);
}.

(** ** The in-memory backend *)

Section Memory.
Context {sha : Sha256} {ch : Chrono}.

(** The references to a body, and the body, by URI. *)
Abbreviation Entry := (list FileRef * list Z)%type.
Context {ho : HashOrder Entry}.

Record InMemoryArtefactStore : Type := mkMemory { inner : gmap str Entry; limits : ArtefactStoreLimits }.

Definition live_refs (now : Z) (refs : list FileRef) : list FileRef := base.filter (fun fr => is_expired_at now fr = false) refs.

Definition keep_live (now : Z) (e : Entry) : option Entry :=
  match live_refs now e.1 with [] => None | refs => Some (refs, e.2) end.

Definition cleanup_expired_locked (now : Z) (m : gmap str Entry) : gmap str Entry := omap (keep_live now) m.

(** [map.values().flat_map(|(refs, _)| refs.iter())]. *)
Definition all_refs (m : gmap str Entry) : list FileRef := flat_map (fun kv : str * Entry => kv.2.1) (hash_order m).

Fixpoint remove_first (fr : FileRef) (refs : list FileRef) : list FileRef :=
  match refs with
  | [] => []
  | c :: refs => if ref_eqb c fr then refs else c :: remove_first fr refs
  end.

Definition drop_ref (fr : FileRef) (m : gmap str Entry) : gmap str Entry :=
  match m !! uri fr with
  | Some (refs, b) => match remove_first fr refs with [] => delete (uri fr) m | refs => <[uri fr := (refs, b)]> m end
  | None => m
  end.

(** The references from the oldest; the loop ends when the limits hold or none is left. *)
Fixpoint evict (limits : ArtefactStoreLimits) (refs : list FileRef) (m : gmap str Entry) : gmap str Entry :=
  match refs with
  | [] => m
  | fr :: rest => if over_limits limits refs then evict limits rest (drop_ref fr m) else m
  end.

Definition enforce_retention_locked (limits : ArtefactStoreLimits) (now : Z) (m : gmap str Entry) : gmap str Entry :=
  let m := cleanup_expired_locked now m in
  evict limits (sort_by older (all_refs m)) m.

Definition is_plain (fr : FileRef) : bool :=
  negb (is_set (mime fr) || is_set (display_name fr) || is_set (producer_job_id fr) || is_set (tool_call_id fr) || is_set (session_id fr)
        || is_set (correlation_id fr) || is_set (expires_at fr)) && is_null (metadata fr).

(** The two critical sections of a call that stores. *)
Definition find_existing (now : Z) (u : str) (o : ArtefactPutOptions) (m : gmap str Entry) : gmap str Entry * option FileRef :=
  let m := cleanup_expired_locked now m in
  (m, match m !! u with
      | Some (refs, _) =>
          if has_logical_metadata o then None
          else match list_find (fun fr => is_plain fr = true) refs with Some (_, fr) => Some fr | None => hd_error refs end
      | None => None
      end).

Definition push_ref (limits : ArtefactStoreLimits) (now : Z) (fr : FileRef) (data : list Z) (m : gmap str Entry) : gmap str Entry :=
  enforce_retention_locked limits now
    (match m !! uri fr with
     | Some (refs, b) => <[uri fr := (refs ++ [fr], b)]> m
     | None => <[uri fr := ([fr], data)]> m
     end).

Definition memory_put (t : Clock) (disk : Disk) (s : InMemoryArtefactStore) (body : ArtefactBody) (o : ArtefactPutOptions) : InMemoryArtefactStore * answer FileRef :=
  match into_bytes disk body with
  | Err e => (s, Answers (Err e))
  | Ok data =>
      let size := Z.of_nat (length data) in
      match too_large (limits s) size with
      | Some m => (s, Answers (Err (LimitExceeded size m)))
      | None =>
          let hex := sha256 data in
          match find_existing (t 0%nat) (make_uri_sha256 hex) o (inner s) with
          | (m, Some fr) => (mkMemory m (limits s), Answers (Ok fr))
          | (m, None) =>
              match make_file_ref (t 1%nat) (t 2%nat) hex size o (default_ttl_secs (limits s)) with
              | None => (mkMemory m (limits s), Unwinds)
              | Some fr => (mkMemory (push_ref (limits s) (t 3%nat) fr data m) (limits s), Answers (Ok fr))
              end
          end
      end
  end.

Definition with_live (t : Clock) (s : InMemoryArtefactStore) : InMemoryArtefactStore :=
  mkMemory (cleanup_expired_locked (t 0%nat) (inner s)) (limits s).

Definition memory_get (t : Clock) (s : InMemoryArtefactStore) (u : str) : InMemoryArtefactStore * result ArtefactError (option (list Z)) :=
  let s := with_live t s in (s, Ok (snd <$> inner s !! u)).

Definition memory_head (t : Clock) (s : InMemoryArtefactStore) (u : str) : InMemoryArtefactStore * result ArtefactError (option FileRef) :=
  let s := with_live t s in (s, Ok (inner s !! u ≫= fun e => hd_error e.1)).

Definition memory_delete (s : InMemoryArtefactStore) (u : str) : InMemoryArtefactStore * result ArtefactError unit :=
  (mkMemory (delete u (inner s)) (limits s), Ok tt).

Definition memory_list (t : Clock) (s : InMemoryArtefactStore) (f : ArtefactFilter) : InMemoryArtefactStore * result ArtefactError (list FileRef) :=
  let s := with_live t s in (s, Ok (base.filter (fun fr => apply_filter fr f = true) (all_refs (inner s)))).

#[export] Instance memory_store : ArtefactStore InMemoryArtefactStore :=
  {| put_with_options := memory_put; get := memory_get; head_ref := memory_head; delete_artefact := memory_delete; list_artefacts := memory_list |}.
End Memory.

(** ** References and their life *)

Lemma is_set_false {A} (o : option A) : is_set o = false <-> o = None.
Proof. by destruct o. Qed.

Lemma make_uri_inj : Inj (=) (=) make_uri_sha256.
Proof. intros a b. apply app_inv_head. Qed.
#[export] Existing Instance make_uri_inj.

Lemma make_file_ref_uri {ch : Chrono} c n hex size o d fr : make_file_ref c n hex size o d = Some fr ->
  uri fr = make_uri_sha256 hex /\ digest fr = Some (lit "sha256:" ++ hex) /\ size_bytes fr = Some size.
Proof. unfold make_file_ref. intros H. destruct (match match ttl_secs o with Some t => Some t | None => d end with Some t => _ | None => _ end); [|done]. by simplify_eq/=. Qed.

Lemma make_file_ref_forever {ch : Chrono} c n hex size o fr : ttl_secs o = None -> make_file_ref c n hex size o None = Some fr -> expires_at fr = None.
Proof. unfold make_file_ref. intros -> H. by simplify_eq/=. Qed.

Section MemoryLaws.
Context {sha : Sha256} {ch : Chrono} {ho : HashOrder (list FileRef * list Z)}.

(** Every body is stored under its digest, with references of that URI. *)
Definition addressed (m : gmap str (list FileRef * list Z)) : Prop :=
  forall u refs b, m !! u = Some (refs, b) -> u = make_uri_sha256 (sha256 b) /\ Forall (fun fr => uri fr = u) refs.
Definition recorded (m : gmap str (list FileRef * list Z)) (fr : FileRef) : Prop := exists refs b, m !! uri fr = Some (refs, b) /\ fr ∈ refs.

Lemma evict_unbounded l refs m : unbounded l -> evict l refs m = m.
Proof. intros [H1 H2]. induction refs as [|fr refs IH]; [done|]. cbn [evict]. unfold over_limits. by rewrite H1, H2. Qed.

Lemma cleanup_lookup now m u : cleanup_expired_locked now m !! u = m !! u ≫= keep_live now.
Proof. apply lookup_omap. Qed.

Lemma keep_live_Some now e refs b : keep_live now e = Some (refs, b) -> refs = live_refs now e.1 /\ b = e.2 /\ refs <> [].
Proof. unfold keep_live. destruct (live_refs now e.1) eqn:E; [done|]. intros H. by simplify_eq/=. Qed.

Lemma cleanup_addressed now m : addressed m -> addressed (cleanup_expired_locked now m).
Proof.
  intros Hm u refs b. rewrite cleanup_lookup. destruct (m !! u) as [[refs0 b0]|] eqn:E; [|done]. cbn [mbind option_bind].
  intros (-> & -> & _)%keep_live_Some. destruct (Hm _ _ _ E) as [-> H]. split; [done|].
  rewrite Forall_forall in *. intros fr [_ Hfr]%list_elem_of_filter. auto.
Qed.

Lemma cleanup_recorded now m fr : recorded m fr -> is_expired_at now fr = false -> recorded (cleanup_expired_locked now m) fr.
Proof.
  intros (refs & b & H & Hin) He. unfold recorded. rewrite cleanup_lookup, H. cbn [mbind option_bind].
  assert (Hl : fr ∈ live_refs now refs) by by apply list_elem_of_filter. unfold keep_live. cbn [fst snd].
  destruct (live_refs now refs) as [|x l] eqn:E; [by apply not_elem_of_nil in Hl|]. by exists (x :: l), b.
Qed.

Lemma recorded_live now m fr : recorded (cleanup_expired_locked now m) fr -> is_expired_at now fr = false.
Proof.
  intros (refs & b & H & Hin). rewrite cleanup_lookup in H. destruct (m !! uri fr) as [e|]; [|done]. cbn [mbind option_bind] in H.
  apply keep_live_Some in H as (-> & _). by apply list_elem_of_filter in Hin as [? _].
Qed.

Lemma push_addressed l now fr data m : unbounded l -> uri fr = make_uri_sha256 (sha256 data) -> addressed m -> addressed (push_ref l now fr data m).
Proof.
  intros Hl Hu Hm. unfold push_ref, enforce_retention_locked. rewrite evict_unbounded by done. apply cleanup_addressed. intros u refs b.
  destruct (m !! uri fr) as [[refs0 b0]|] eqn:E; rewrite lookup_insert; (case_decide as H; [intros Heq; simplify_eq|by apply Hm]).
  - destruct (Hm _ _ _ E) as [Hb Hr]. split; [done|]. apply Forall_app. split; [done|]. by constructor.
  - split; [done|]. by constructor.
Qed.

Lemma push_recorded l now fr data m fr' : unbounded l -> (fr' = fr \/ recorded m fr') -> is_expired_at now fr' = false -> recorded (push_ref l now fr data m) fr'.
Proof.
  intros Hl Hr He. unfold push_ref, enforce_retention_locked. rewrite evict_unbounded by done. apply cleanup_recorded; [|done].
  unfold recorded. destruct Hr as [->|(refs & b & H & Hin)].
  - destruct (m !! uri fr) as [[refs0 b0]|] eqn:E; rewrite lookup_insert_eq; eexists _, _; (split; [done|]); set_solver.
  - destruct (decide (uri fr' = uri fr)) as [Hu|Hu].
    + rewrite <- Hu, H, lookup_insert_eq. eexists _, _. split; [done|]. by apply elem_of_app; left.
    + destruct (m !! uri fr) as [[refs0 b0]|] eqn:E; rewrite lookup_insert_ne by done; eauto.
Qed.

Definition memory_sound (s : InMemoryArtefactStore) : Prop := unbounded (limits s) /\ addressed (inner s).
Definition memory_keeps (s : InMemoryArtefactStore) (fr : FileRef) : Prop := recorded (inner s) fr.

(** A call that stores, case by case. *)
Lemma memory_put_cases t disk s b o (P : InMemoryArtefactStore * answer FileRef -> Prop) :
  (forall e, P (s, Answers (Err e))) ->
  (forall r, (forall fr, r <> Answers (Ok fr)) -> P (mkMemory (cleanup_expired_locked (t 0%nat) (inner s)) (limits s), r)) ->
  (forall data refs x fr, into_bytes disk b = Ok data -> has_logical_metadata o = false ->
    cleanup_expired_locked (t 0%nat) (inner s) !! make_uri_sha256 (sha256 data) = Some (refs, x) -> fr ∈ refs ->
    P (mkMemory (cleanup_expired_locked (t 0%nat) (inner s)) (limits s), Answers (Ok fr))) ->
  (forall data fr, into_bytes disk b = Ok data -> make_file_ref (t 1%nat) (t 2%nat) (sha256 data) (Z.of_nat (length data)) o (default_ttl_secs (limits s)) = Some fr ->
    P (mkMemory (push_ref (limits s) (t 3%nat) fr data (cleanup_expired_locked (t 0%nat) (inner s))) (limits s), Answers (Ok fr))) ->
  P (memory_put t disk s b o).
Proof.
  intros He Hc Hf Hp. unfold memory_put. destruct (into_bytes disk b) as [data|e] eqn:Eb; [|apply He].
  destruct (too_large _ _); [apply He|]. unfold find_existing. set (m := cleanup_expired_locked (t 0%nat) (inner s)) in *.
  assert (Hnew : P (match make_file_ref (t 1%nat) (t 2%nat) (sha256 data) (Z.of_nat (length data)) o (default_ttl_secs (limits s)) with
    | Some fr => (mkMemory (push_ref (limits s) (t 3%nat) fr data m) (limits s), Answers (Ok fr))
    | None => (mkMemory m (limits s), Unwinds) end)).
  { destruct (make_file_ref _ _ _ _ _ _) as [fr|] eqn:E; [by apply Hp|by apply Hc]. }
  destruct (m !! make_uri_sha256 (sha256 data)) as [[refs x]|] eqn:E; [|exact Hnew].
  destruct (has_logical_metadata o) eqn:Eo; [exact Hnew|]. destruct (list_find _ refs) as [[i fr]|] eqn:El.
  - apply list_find_Some in El as (El & _ & _). eapply Hf; [done..|]. by eapply list_elem_of_lookup_2.
  - destruct refs as [|fr refs]; [exact Hnew|]. eapply Hf; [done..|]. by left.
Qed.

Lemma memory_put_sound t disk s b o : memory_sound s -> memory_sound (memory_put t disk s b o).1.
Proof.
  intros [Hl Hm]. pose proof (cleanup_addressed (t 0%nat) _ Hm) as Hc. apply memory_put_cases; try done.
  intros data fr Hb Hf. split; [done|]. cbn [inner fst]. apply push_addressed; [done| |done]. by apply make_file_ref_uri in Hf as (? & _).
Qed.

Lemma memory_put_keeps t disk s b o fr : memory_sound s -> memory_keeps s fr -> (forall i, is_expired_at (t i) fr = false) -> memory_keeps (memory_put t disk s b o).1 fr.
Proof.
  intros [Hl Hm] Hk He. pose proof (cleanup_recorded _ _ _ Hk (He 0%nat)) as Hc. unfold memory_keeps. apply memory_put_cases; try done.
  intros data fr' _ _. apply push_recorded; auto.
Qed.

Lemma memory_put_answer t disk s b o s' fr : memory_sound s -> memory_put t disk s b o = (s', Answers (Ok fr)) ->
  (forall i, is_expired_at (t i) fr = false) -> memory_keeps s' fr.
Proof.
  intros [Hl Hm]. apply memory_put_cases; [congruence|intros r Hr H; congruence|..].
  - intros data refs x fr' _ _ E Hin H He. simplify_eq. destruct (cleanup_addressed _ _ Hm _ _ _ E) as [_ Hu].
    rewrite Forall_forall in Hu. unfold memory_keeps, recorded. rewrite (Hu _ Hin). eauto.
  - intros data fr' _ _ H He. simplify_eq. apply push_recorded; auto.
Qed.

Lemma memory_put_addresses t disk s b o s' fr : memory_sound s -> memory_put t disk s b o = (s', Answers (Ok fr)) ->
  exists data, into_bytes disk b = Ok data /\ uri fr = make_uri_sha256 (sha256 data).
Proof.
  intros [Hl Hm]. apply memory_put_cases; [congruence|intros r Hr H; congruence|..].
  - intros data refs x fr' Hb _ E Hin H. simplify_eq. exists data. split; [done|].
    destruct (cleanup_addressed _ _ Hm _ _ _ E) as [_ Hu]. rewrite Forall_forall in Hu. auto.
  - intros data fr' Hb Hf H. simplify_eq. exists data. split; [done|]. by apply make_file_ref_uri in Hf as (? & _).
Qed.

#[export] Instance memory_view : StoreView InMemoryArtefactStore := {| in_order s := addressed (inner s); keeps := memory_keeps; limits_of := limits |}.

#[export] Program Instance memory_laws : ArtefactStoreLaws InMemoryArtefactStore.
Next Obligation. apply memory_put_answer. Qed.
Next Obligation. apply memory_put_addresses. Qed.
Next Obligation. apply memory_put_sound. Qed.
Next Obligation. intros t s u [? ?]. split; [done|]. by apply cleanup_addressed. Qed.
Next Obligation. intros t s u [? ?]. split; [done|]. by apply cleanup_addressed. Qed.
Next Obligation. intros s u [? Hm]. split; [done|]. intros u' refs b. cbn. rewrite lookup_delete. case_decide; [done|]. apply Hm. Qed.
Next Obligation. intros t s f [? ?]. split; [done|]. by apply cleanup_addressed. Qed.
Next Obligation. apply memory_put_keeps. Qed.
Next Obligation. intros t s u fr _ Hk He. by apply cleanup_recorded. Qed.
Next Obligation. intros t s u fr _ Hk He _. by apply cleanup_recorded. Qed.
Next Obligation. intros t s f fr _ Hk He. by apply cleanup_recorded. Qed.
Next Obligation.
  intros s u fr _ (refs & b & H & Hin) Hu. exists refs, b. cbn. rewrite lookup_delete_ne; [done|]. intros ->.
  assert (starts_with (uri fr) (uri fr) = true) by (apply starts_with_spec; exists []; by rewrite app_nil_r). congruence.
Qed.
Next Obligation.
  intros t s fr [_ Hm] Hk He. apply (cleanup_recorded (t 0%nat)) in Hk as (refs & b & H & Hin); [|done].
  change (inner (with_live t s) !! uri fr = Some (refs, b)) in H. exists (with_live t s), b. split.
  - change (get t s (uri fr)) with (memory_get t s (uri fr)). unfold memory_get. cbv zeta. by rewrite H.
  - by destruct (cleanup_addressed _ _ Hm _ _ _ H).
Qed.

(** Asking for the reference of a URI keeps every live one. *)
Lemma memory_head_keeps t s u fr : memory_keeps s fr -> (forall i, is_expired_at (t i) fr = false) -> memory_keeps (memory_head t s u).1 fr.
Proof. intros Hk He. by apply cleanup_recorded. Qed.
End MemoryLaws.

(** ** Histories of calls *)

Inductive StoreCall : Type :=
| PutCall (disk : Disk) (body : ArtefactBody) (o : ArtefactPutOptions)
| GetCall (u : str)
| HeadCall (u : str)
| DeleteCall (u : str)
| ListCall (f : ArtefactFilter).

Definition call_store {S} {st : ArtefactStore S} (s : S) (c : Clock * StoreCall) : S :=
  match c.2 with
  | PutCall disk body o => (put_with_options c.1 disk s body o).1
  | GetCall u => (get c.1 s u).1
  | HeadCall u => (head_ref c.1 s u).1
  | DeleteCall u => (delete_artefact s u).1
  | ListCall f => (list_artefacts c.1 s f).1
  end.

Definition run_calls {S} {st : ArtefactStore S} : S -> list (Clock * StoreCall) -> S := foldl call_store.

(** A call that leaves a reference alone: it is over before the reference expires, it does
    not delete its URI, and it does not ask for the reference of its URI in vain. *)
Definition spares {S} {st : ArtefactStore S} (fr : FileRef) (s : S) (c : Clock * StoreCall) : Prop :=
  (forall i, is_expired_at (c.1 i) fr = false) /\
  match c.2 with
  | DeleteCall u => starts_with (uri fr) u = false
  | HeadCall u => starts_with (uri fr) u = false \/ (head_ref c.1 s u).2 <> Ok None
  | _ => True
  end.

(** Calls one after the other, each in the state it finds. *)
Fixpoint all_spare {S} {st : ArtefactStore S} (fr : FileRef) (s : S) (cs : list (Clock * StoreCall)) : Prop :=
  match cs with [] => True | c :: cs => spares fr s c /\ all_spare fr (call_store s c) cs end.

Lemma calls_keep {S} {st : ArtefactStore S} {view : StoreView S} {sha : Sha256} {laws : ArtefactStoreLaws S} (s : S) (fr : FileRef) (cs : list (Clock * StoreCall)) :
  sound s -> keeps s fr -> all_spare fr s cs -> sound (run_calls s cs) /\ keeps (run_calls s cs) fr.
Proof.
  revert s. induction cs as [|[t c] cs IH]; intros s Hs Hk Hc; [done|]. destruct Hc as [[Ht Hc] Hcs].
  apply IH; [..|exact Hcs]; destruct c; cbn -[keeps sound] in *.
  - by apply put_sound.
  - by apply get_sound.
  - by apply head_sound.
  - by apply delete_sound.
  - by apply list_sound.
  - by apply put_keeps.
  - by apply get_keeps.
  - by apply head_keeps.
  - by apply delete_keeps.
  - by apply list_keeps.
Qed.

(** C20: in a store that keeps the laws and has no limit on its entries and bytes: what was
    stored can be read back by the reference that was answered, whatever of the five calls
    is made in between, until the reference expires, its URI (or one that extends it) is
    deleted, or a request for the reference of such a URI answers that there is none, which
    a directory can do while the reference lives. *)
Theorem artefacts_kept {S} {st : ArtefactStore S} {view : StoreView S} {sha : Sha256} {laws : ArtefactStoreLaws S} (s s1 : S) (t t' : Clock) (disk : Disk)
    (body : ArtefactBody) (o : ArtefactPutOptions) (fr : FileRef) (cs : list (Clock * StoreCall))
    (Hl : unbounded (limits_of s)) (Ho : in_order s) (Hput : put_with_options t disk s body o = (s1, Answers (Ok fr)))
    (Hlive : forall i, is_expired_at (t i) fr = false /\ is_expired_at (t' i) fr = false) (Hcs : all_spare fr s1 cs) :
  exists s2 stored found, into_bytes disk body = Ok stored /\ get t' (run_calls s1 cs) (uri fr) = (s2, Ok (Some found)) /\ sha256 found = sha256 stored.
Proof.
  assert (Hs : sound s) by by split. destruct (put_addresses _ _ _ _ _ _ _ Hs Hput) as (stored & Hb & Hu).
  pose proof (put_sound t disk s body o Hs) as Hs1. rewrite Hput in Hs1. cbn [fst] in Hs1.
  assert (Hk : keeps s1 fr) by (eapply put_answer; [exact Hs|exact Hput|apply Hlive]).
  destruct (calls_keep _ _ _ Hs1 Hk Hcs) as [Hs2 Hk2]. destruct (get_kept t' _ _ Hs2 Hk2 (fun i => proj2 (Hlive i))) as (s2 & found & Hg & Hf).
  exists s2, stored, found. split; [done|]. split; [done|]. apply make_uri_inj. congruence.
Qed.

(** ** Retention *)

Section Retention.
Context {sha : Sha256} {ch : Chrono} {ho : HashOrder (list FileRef * list Z)}.
Abbreviation Entries := (gmap str (list FileRef * list Z)).

(** The bytes the bodies take. *)
Definition stored_bytes (m : Entries) : Z := foldr (fun kv a => Z.of_nat (length (kv.2.2 : list Z)) + a) 0 (map_to_list m).

(** Every reference has the URI and the size of its body; no two of them that compare equal differ. *)
Definition filed (m : Entries) : Prop :=
  map_Forall (fun u (e : list FileRef * list Z) => e.1 <> [] /\ Forall (fun fr => uri fr = u /\ size_bytes fr = Some (Z.of_nat (length e.2))) e.1) m.
Definition discerned (refs : list FileRef) : Prop := forall a b, a ∈ refs -> b ∈ refs -> ref_eqb a b = true <-> a = b.

Lemma all_refs_perm m : all_refs m ≡ₚ flat_map (fun kv : str * (list FileRef * list Z) => kv.2.1) (map_to_list m).
Proof. apply Permutation_flat_map, hash_order_perm. Qed.

Lemma elem_of_all_refs m fr : fr ∈ all_refs m <-> exists u refs b, m !! u = Some (refs, b) /\ fr ∈ refs.
Proof.
  rewrite all_refs_perm, list_elem_of_In, in_flat_map. split.
  - intros ([u [refs b]] & H & Hin). apply list_elem_of_In in H, Hin. apply elem_of_map_to_list in H. eauto.
  - intros (u & refs & b & H & Hin). exists (u, (refs, b)). rewrite <- !list_elem_of_In. by rewrite elem_of_map_to_list.
Qed.

Lemma all_refs_insert m u refs b : m !! u = None -> all_refs (<[u := (refs, b)]> m) ≡ₚ refs ++ all_refs m.
Proof. intros H. rewrite !all_refs_perm, map_to_list_insert by done. done. Qed.

Lemma all_refs_delete m u refs b : m !! u = Some (refs, b) -> all_refs m ≡ₚ refs ++ all_refs (delete u m).
Proof. intros H. rewrite <- (insert_delete_id m u (refs, b)) at 1 by done. by apply all_refs_insert, lookup_delete_eq. Qed.

Lemma remove_first_perm fr refs : discerned refs -> fr ∈ refs -> refs ≡ₚ fr :: remove_first fr refs.
Proof.
  intros Hd Hin. induction refs as [|c refs IH]; [by apply not_elem_of_nil in Hin|]. cbn [remove_first].
  assert (Hc : ref_eqb c fr = true <-> c = fr) by (apply Hd; [by left|done]).
  destruct (ref_eqb c fr); [by rewrite (proj1 Hc eq_refl)|]. apply elem_of_cons in Hin as [->|Hin]; [discriminate (proj2 Hc eq_refl)|].
  rewrite IH at 1; [apply Permutation_swap| |done]. intros a b Ha Hb. apply Hd; by right.
Qed.

Lemma discerned_sub l l' : discerned l -> l' ⊆ l -> discerned l'.
Proof. intros H Hs a b Ha Hb. apply H; set_solver. Qed.

Lemma drop_ref_exact fr m : filed m -> discerned (all_refs m) -> fr ∈ all_refs m -> filed (drop_ref fr m) /\ all_refs m ≡ₚ fr :: all_refs (drop_ref fr m).
Proof.
  intros Hm Hd (u & refs & b & H & Hin)%elem_of_all_refs. destruct (Hm _ _ H) as [_ Hr]. rewrite Forall_forall in Hr. cbn [fst snd] in Hr.
  destruct (Hr _ Hin) as [Hu _]. unfold drop_ref. rewrite Hu, H.
  assert (Hp : refs ≡ₚ fr :: remove_first fr refs).
  { apply remove_first_perm; [|done]. eapply discerned_sub; [exact Hd|]. intros x Hx. apply elem_of_all_refs. eauto. }
  pose proof (all_refs_delete _ _ _ _ H) as Ha. pose proof (Permutation_app_tail (all_refs (delete u m)) Hp) as Hp'.
  destruct (remove_first fr refs) as [|x l] eqn:E.
  - split; [by apply map_Forall_delete|]. by rewrite Ha, Hp'.
  - split.
    + apply map_Forall_insert_2; [|done]. split; [done|]. apply Forall_forall. intros y Hy. apply Hr. rewrite Hp. by right.
    + rewrite <- insert_delete_eq, all_refs_insert by apply lookup_delete_eq. by rewrite Ha, Hp'.
Qed.

Lemma unique_from_perm (f : str -> Z) seen l l' : l ≡ₚ l' -> (forall fr, fr ∈ l -> default 0 (size_bytes fr) = f (uri fr)) -> unique_from seen l = unique_from seen l'.
Proof.
  intros Hp. revert seen. induction Hp as [|x l l' Hp IH|x y l|l l' l'' H1 IH1 H2 IH2]; intros seen Hf; cbn [unique_from]; [done|..].
  - rewrite !(IH _ (fun fr H => Hf fr (list_elem_of_further _ _ _ H))). done.
  - rewrite !Hf by set_solver. destruct (decide (uri x = uri y)) as [E|E].
    + rewrite E. destruct (decide (uri y ∈ seen)); [done|]. by rewrite decide_True by set_solver.
    + destruct (decide (uri y ∈ seen)), (decide (uri x ∈ seen)).
      * done.
      * by rewrite decide_True by set_solver.
      * by rewrite decide_True by set_solver.
      * rewrite !decide_False by set_solver. replace ({[uri y]} ∪ ({[uri x]} ∪ seen)) with ({[uri x]} ∪ ({[uri y]} ∪ seen)) by set_solver. lia.
  - rewrite IH1 by done. apply IH2. intros fr H. apply Hf. by rewrite H1.
Qed.
Lemma unique_from_block seen u n refs rest : refs <> [] -> u ∉ seen -> Forall (fun fr => uri fr = u /\ size_bytes fr = Some n) refs ->
  unique_from seen (refs ++ rest) = n + unique_from ({[u]} ∪ seen) rest.
Proof.
  intros Hne Hu Hr. destruct Hr as [|fr refs [<- Hs] Hr]; [done|]. cbn [app unique_from]. rewrite decide_False, Hs by done. cbn [default from_option]. f_equal.
  clear Hne. induction Hr as [|x refs [Hx _] _ IH]; [done|]. cbn [app unique_from]. by rewrite decide_True by set_solver.
Qed.

Lemma stored_unique m refs : filed m -> refs ≡ₚ all_refs m -> total_unique_body_bytes refs = stored_bytes m.
Proof.
  intros Hm Hp. unfold total_unique_body_bytes, stored_bytes. rewrite all_refs_perm in Hp.
  rewrite (unique_from_perm (fun u => from_option (fun e : list FileRef * list Z => Z.of_nat (length e.2)) 0 (m !! u)) _ _ _ Hp).
  - clear Hp refs. assert (Hl : forall kv, kv ∈ map_to_list m -> kv.2.1 <> [] /\ Forall (fun fr => uri fr = kv.1 /\ size_bytes fr = Some (Z.of_nat (length kv.2.2))) kv.2.1).
    { intros [u e] H%elem_of_map_to_list. by apply Hm. }
    assert (Hs : forall kv, kv ∈ map_to_list m -> kv.1 ∉ (∅ : gset str)) by set_solver. revert Hl Hs. generalize (NoDup_fst_map_to_list m) (∅ : gset str).
    generalize (map_to_list m). induction l as [|[u [refs b]] l IH]; intros Hnd seen Hl Hs; [done|]. cbn [flat_map foldr fst snd].
    apply NoDup_cons in Hnd as [Hu Hnd]. destruct (Hl (u, (refs, b))) as [Hne Hr]; [by left|]. cbn [fst snd] in *.
    rewrite (unique_from_block _ u _ _ _ Hne (Hs (u, (refs, b)) (list_elem_of_here _ _)) Hr). f_equal. apply IH; [done| |].
    + intros kv H. apply Hl. by right.
    + intros kv H. specialize (Hs kv (list_elem_of_further _ _ _ H)). intros [Hk%elem_of_singleton|?]%elem_of_union; [|done].
      apply Hu. rewrite <- Hk. by apply (list_elem_of_fmap_2 fst).
  - intros fr Hin. rewrite Hp, <- all_refs_perm in Hin. apply elem_of_all_refs in Hin as (u & r & b & H & Hin).
    destruct (Hm _ _ H) as [_ Hr]. rewrite Forall_forall in Hr. destruct (Hr _ Hin) as [-> ->]. by rewrite H.
Qed.

Lemma cleanup_filed now m : filed m -> filed (cleanup_expired_locked now m).
Proof.
  intros Hm u [refs b]. rewrite cleanup_lookup. destruct (m !! u) as [[r b0]|] eqn:E; [|done]. cbn [mbind option_bind].
  intros (-> & -> & Hne)%keep_live_Some. split; [done|]. destruct (Hm _ _ E) as [_ Hr]. rewrite Forall_forall in *. cbn [fst snd] in *.
  intros fr [_ Hin]%list_elem_of_filter. auto.
Qed.

Lemma cleanup_refs now m fr : fr ∈ all_refs (cleanup_expired_locked now m) -> fr ∈ all_refs m.
Proof.
  rewrite !elem_of_all_refs. intros (u & refs & b & H & Hin). rewrite cleanup_lookup in H. destruct (m !! u) as [[r b0]|] eqn:E; [|done].
  apply keep_live_Some in H as (-> & _). apply list_elem_of_filter in Hin as [_ Hin]. eauto.
Qed.

Definition limits_ok (l : ArtefactStoreLimits) : Prop := (forall n, max_entries l = Some n -> 0 <= n) /\ (forall n, max_total_bytes l = Some n -> 0 <= n).

Lemma evict_exact l refs m : limits_ok l -> filed m -> discerned (all_refs m) -> refs ≡ₚ all_refs m ->
  filed (evict l refs m) /\ exists k, drop k refs ≡ₚ all_refs (evict l refs m) /\ over_limits l (drop k refs) = false /\ forall i, (i < k)%nat -> over_limits l (drop i refs) = true.
Proof.
  intros [He Ht]. revert m. induction refs as [|fr refs IH]; intros m Hm Hd Hp.
  - split; [done|]. exists 0%nat. split; [done|]. split; [|lia]. unfold over_limits. apply orb_false_iff. split.
    + destruct (max_entries l) eqn:E; [|done]. apply Z.ltb_ge. by apply He.
    + destruct (max_total_bytes l) eqn:E; [|done]. apply Z.ltb_ge. by apply Ht.
  - cbn [evict]. destruct (over_limits l (fr :: refs)) eqn:E.
    + destruct (drop_ref_exact fr m Hm Hd) as [Hm' Hp']; [rewrite <- Hp; by left|].
      rewrite Hp' in Hp. apply Permutation_cons_inv in Hp. destruct (IH (drop_ref fr m) Hm') as (Hf & k & Hk & Ho & Hi); [|done|].
      { eapply discerned_sub; [exact Hd|]. intros x Hx. rewrite Hp'. by right. }
      split; [done|]. exists (S k). split; [done|]. split; [done|]. intros [|i] Hik; [done|]. cbn [drop]. apply Hi. lia.
    + split; [done|]. exists 0%nat. split; [done|]. split; [done|lia].
Qed.

(** C22: what enforcing the limits leaves: the references that have not expired, less as many of
    the oldest as it takes to be within the limits, and not one more; the store then holds
    at most that many references and bytes. *)
Theorem retention_exact (l : ArtefactStoreLimits) (now : Z) (m : Entries) (Hl : limits_ok l) (Hm : filed m) (Hd : discerned (all_refs m)) :
  let live := sort_by older (all_refs (cleanup_expired_locked now m)) in
  let m' := enforce_retention_locked l now m in
  StronglySorted (fun a b => created_at a <= created_at b) live /\
  (exists k, all_refs m' ≡ₚ drop k live /\ over_limits l (drop k live) = false /\ forall i, (i < k)%nat -> over_limits l (drop i live) = true) /\
  (forall n, max_entries l = Some n -> Z.of_nat (length (all_refs m')) <= n) /\ (forall n, max_total_bytes l = Some n -> stored_bytes m' <= n).
Proof.
  intros live m'. pose proof (cleanup_filed now m Hm) as Hc. destruct (evict_exact l live _ Hl Hc) as (Hf & k & Hk & Ho & Hi).
  { eapply discerned_sub; [exact Hd|]. intros fr. apply cleanup_refs. }
  { apply sort_by_perm. }
  split; [|split; [|split]].
  - assert (Hs : StronglySorted (fun a b => older a b = true) live) by (apply (sort_by_sorted older); unfold older; intros; lia).
    clear Hk Ho Hi Hf. induction Hs as [|a x _ IH Ha]; [constructor|]. constructor; [done|]. eapply Forall_impl; [exact Ha|]. unfold older. cbn. lia.
  - exists k. split; [by rewrite Hk|done].
  - intros n Hn. apply orb_false_iff in Ho as [Ho _]. rewrite Hn, (Permutation_length Hk) in Ho. by apply Z.ltb_ge.
  - intros n Hn. apply orb_false_iff in Ho as [_ Ho]. rewrite Hn, (stored_unique _ _ Hf Hk) in Ho. by apply Z.ltb_ge.
Qed.
End Retention.

(** ** Uploads of a workflow step *)

(** [maybe_upload_inline_refs] of [dcc-mcp-workflow/src/executor/output.rs]: file references
    that a step wrote inline, or as a path, are stored.  [None]: a call of the store
    panics.  Each entry has a clock of its own. *)

(** The crate [base64], its standard alphabet. *)
Class Base64 : Type := b64_decode : str -> option (list Z).

Section Upload.
Context {S : Type} {st : ArtefactStore S} {serde : Serde} {b64 : Base64} (disk : Disk) (producer_job : str).

Definition with_producer_job (fr : FileRef) : FileRef :=
  match producer_job_id fr with
  | Some _ => fr
  | None => mkFileRef (uri fr) (mime fr) (size_bytes fr) (display_name fr) (digest fr) (Some producer_job) (tool_call_id fr) (session_id fr)
              (correlation_id fr) (created_at fr) (expires_at fr) (metadata fr)
  end.

Definition upload_body (t : Clock) (s : S) (entry : Value) (b : ArtefactBody) : S * option Value :=
  match put t disk s b with
  | (s, Answers (Ok fr)) => (s, Some (file_ref_to (with_producer_job fr)))
  | (s, Answers (Err _)) => (s, Some entry)
  | (s, Unwinds) => (s, None)
  end.

Definition string_at (k : str) (o : JsonMap) : option str := json_get k o ≫= as_str.

Definition upload_one (t : Clock) (s : S) (entry : Value) : S * option Value :=
  match entry with
  | Object o =>
      match string_at (lit "uri") o, string_at (lit "inline_b64") o, string_at (lit "path") o with
      | Some _, _, _ => (s, Some entry)
      | None, Some text, _ => match b64_decode text with Some data => upload_body t s entry (Inline data) | None => (s, Some entry) end
      | None, None, Some p => upload_body t s entry (Path p)
      | None, None, None => (s, Some entry)
      end
  | _ => (s, Some entry)
  end.

Fixpoint upload_all (ts : list Clock) (s : S) (entries : list Value) : S * option (list Value) :=
  match entries, ts with
  | e :: entries, t :: ts =>
      match upload_one t s e with
      | (s, Some e') => let '(s, r) := upload_all ts s entries in (s, cons e' <$> r)
      | (s, None) => (s, None)
      end
  | _, _ => (s, Some entries)
  end.

Definition upload_array (ts : list Clock) (s : S) (root : Value) : S * option Value :=
  match root with
  | Object o =>
      match json_get (lit "file_refs") o with
      | Some (Array l) => let '(s, r) := upload_all ts s l in (s, (fun l => Object (json_insert (lit "file_refs") (Array l) o)) <$> r)
      | _ => (s, Some root)
      end
  | _ => (s, Some root)
  end.

Definition maybe_upload_inline_refs (ts ts' : list Clock) (s : S) (output : Value) : S * option Value :=
  match upload_array ts s output with
  | (s, Some (Object o)) =>
      match json_get (lit "context") o with
      | Some ctx => let '(s, r) := upload_array ts' s ctx in (s, (fun v => Object (json_insert (lit "context") v o)) <$> r)
      | None => (s, Some (Object o))
      end
  | r => r
  end.

(** ** What is uploaded can be read *)

Context {view : StoreView S} {sha : Sha256} {laws : ArtefactStoreLaws S}.

(** A reference that is kept in the store, and does not expire at any of the times. *)
Definition outlives (ts : list Clock) (fr : FileRef) : Prop := forall t i, t ∈ ts -> is_expired_at (t i) fr = false.

(** The body an entry names that is no reference yet. *)
Definition body_of (entry : Value) : option ArtefactBody :=
  match entry with
  | Object o =>
      match string_at (lit "uri") o, string_at (lit "inline_b64") o, string_at (lit "path") o with
      | Some _, _, _ => None
      | None, Some text, _ => Inline <$> b64_decode text
      | None, None, p => Path <$> p
      end
  | _ => None
  end.

(** An entry after the upload: the reference to the body it named, or the entry as it was
    when it named none or the store refused it. *)
Definition uploaded (ts : list Clock) (s : S) (e e' : Value) : Prop :=
  match body_of e with
  | None => e' = e
  | Some b =>
      (e' = e /\ exists t s0 err, t ∈ ts /\ (put t disk s0 b).2 = Answers (Err err)) \/
      exists fr data, e' = file_ref_to (with_producer_job fr) /\ into_bytes disk b = Ok data /\ uri fr = make_uri_sha256 (sha256 data) /\
        keeps s fr /\ outlives ts fr
  end.

(** A store without limits on entries and bytes, and what it answers to plain puts at these
    times from now on: that outlives them. *)
Definition plain_put (ts : list Clock) (s s' : S) : Prop := exists t b, t ∈ ts /\ s' = (put t disk s b).1.
Definition ready (ts : list Clock) (s : S) : Prop :=
  sound s /\ forall s1 t b s2 fr, rtc (plain_put ts) s s1 -> t ∈ ts -> put t disk s1 b = (s2, Answers (Ok fr)) -> outlives ts fr.

Definition keeps_more (ts : list Clock) (s s' : S) : Prop := forall fr, keeps s fr -> outlives ts fr -> keeps s' fr.

Lemma uploaded_later ts s s' e e' : keeps_more ts s s' -> uploaded ts s e e' -> uploaded ts s' e e'.
Proof.
  intros H. unfold uploaded. destruct (body_of e); [|done]. intros [He|(fr & data & He & Hb & Hu & Hk & Ho)]; [by left|]. right. exists fr, data.
  do 3 (split; [done|]). split; [by apply H|done].
Qed.

Lemma upload_body_ok ts t s e b s' r : body_of e = Some b -> t ∈ ts -> ready ts s -> upload_body t s e b = (s', r) ->
  ready ts s' /\ keeps_more ts s s' /\ forall e', r = Some e' -> uploaded ts s' e e'.
Proof.
  intros Hb Ht [Hs Hl] E. pose proof (put_sound t disk s b default_options Hs) as Hs'. pose proof (put_keeps t disk s b default_options) as Hk.
  unfold upload_body in E. destruct (put t disk s b) as [s1 a] eqn:Ep. unfold put in Ep. rewrite Ep in Hs', Hk. cbn [fst] in Hs', Hk.
  assert (Hm : keeps_more ts s s1) by (intros fr H1 H2; apply Hk; auto).
  assert (Hr : ready ts s1).
  { split; [done|]. intros s2 t' b' s3 fr Hp. apply Hl. eapply rtc_l; [|exact Hp]. exists t, b. split; [done|]. unfold put. by rewrite Ep. }
  destruct a as [[fr|err]|]; injection E as <- <-; (split; [done|]; split; [done|]; intros e' [= <-]).
  - unfold uploaded. rewrite Hb. right. destruct (put_addresses _ _ _ _ _ _ _ Hs Ep) as (data & Hd & Hu). exists fr, data.
    assert (Ho : outlives ts fr) by (eapply Hl; [apply rtc_refl|exact Ht|exact Ep]). split; [done|]. split; [done|]. split; [done|]. split; [|done].
    eapply put_answer; [exact Hs|exact Ep|]. intros i. by apply Ho.
  - unfold uploaded. rewrite Hb. left. split; [done|]. exists t, s, err. split; [done|]. unfold put. by rewrite Ep.
Qed.

Lemma upload_one_body t s e : upload_one t s e = match body_of e with Some b => upload_body t s e b | None => (s, Some e) end.
Proof.
  destruct e as [| | | | |o]; try done. cbn [upload_one body_of]. destruct (string_at (lit "uri") o); [done|].
  destruct (string_at (lit "inline_b64") o) as [text|]; [by destruct (b64_decode text)|]. by destruct (string_at (lit "path") o).
Qed.

Lemma upload_one_ok ts t s e s' r : t ∈ ts -> ready ts s -> upload_one t s e = (s', r) ->
  ready ts s' /\ keeps_more ts s s' /\ forall e', r = Some e' -> uploaded ts s' e e'.
Proof.
  intros Ht Hs E. rewrite upload_one_body in E. destruct (body_of e) as [b|] eqn:Hb; [by eapply upload_body_ok|]. injection E as <- <-.
  split; [done|]. split; [by intros fr|]. intros e' [= <-]. unfold uploaded. by rewrite Hb.
Qed.

Lemma upload_all_ok ts us s l s' r : (length l <= length us)%nat -> us ⊆ ts -> ready ts s -> upload_all us s l = (s', r) ->
  ready ts s' /\ keeps_more ts s s' /\ forall l', r = Some l' -> Forall2 (uploaded ts s') l l'.
Proof.
  revert us s s' r. induction l as [|e l IH]; intros us s s' r Hn Hu Hs E.
  - assert (E' : (s, Some []) = (s', r)) by by destruct us. injection E' as <- <-. split; [done|]. split; [by intros fr|]. intros l' [= <-]. constructor.
  - destruct us as [|t us]; [cbn in Hn; lia|]. cbn [upload_all] in E. destruct (upload_one t s e) as [s1 r1] eqn:E1. destruct (upload_one_ok ts t s e s1 r1) as (H1 & H2 & H3); [set_solver|done|done|].
    destruct r1 as [e'|].
    + destruct (upload_all us s1 l) as [s2 r2] eqn:E2. injection E as <- <-. destruct (IH us s1 s2 r2) as (H4 & H5 & H6); [cbn in Hn; lia|set_solver|done|done|].
      split; [done|]. split; [intros fr Hk Ho; auto|]. intros l' Hl'. destruct r2 as [l2|]; [|done]. injection Hl' as <-.
      constructor; [by eapply uploaded_later; [|apply H3]|by apply H6].
    + injection E as <- <-. done.
Qed.

(** The entries of [file_refs]. *)
Definition refs_in (v : Value) : list Value := match v with Object o => match json_get (lit "file_refs") o with Some (Array l) => l | _ => [] end | _ => [] end.
Definition at_key (k : str) (v : Value) : option Value := match v with Object o => json_get k o | _ => None end.

Lemma upload_array_ok ts us s v s' r : (length (refs_in v) <= length us)%nat -> us ⊆ ts -> ready ts s -> upload_array us s v = (s', r) ->
  ready ts s' /\ keeps_more ts s s' /\ forall v', r = Some v' -> Forall2 (uploaded ts s') (refs_in v) (refs_in v') /\ forall k, k <> lit "file_refs" -> at_key k v' = at_key k v.
Proof.
  intros Hn Hu Hs E. assert (Hsame : refs_in v = [] -> (s, Some v) = (s', r) -> ready ts s' /\ keeps_more ts s s' /\
    forall v', r = Some v' -> Forall2 (uploaded ts s') (refs_in v) (refs_in v') /\ forall k, k <> lit "file_refs" -> at_key k v' = at_key k v).
  { intros Hnil [= <- <-]. split; [done|]. split; [by intros fr|]. intros v' [= <-]. rewrite Hnil. by split. }
  destruct v as [| | | | |o]; try (by apply Hsame). unfold upload_array in E. cbn [refs_in] in Hn, Hsame.
  destruct (json_get (lit "file_refs") o) as [[| | | |l|]|] eqn:Ej; try (by cbn [refs_in]; rewrite Ej; apply Hsame).
  destruct (upload_all us s l) as [s1 r1] eqn:E1. injection E as <- <-. destruct (upload_all_ok ts us s l s1 r1 Hn Hu Hs E1) as (H1 & H2 & H3).
  split; [done|]. split; [done|]. intros v' Hv. destruct r1 as [l'|]; [|done]. injection Hv as <-. split.
  - unfold refs_in. rewrite Ej, json_get_insert. by apply H3.
  - intros k Hk. cbn [at_key]. by apply json_get_insert_ne.
Qed.

End Upload.
