(* ===== verification/ArtefactFs.v ===== *)
(** The artefact store on a directory, [FilesystemArtefactStore] of
    [dcc-mcp-artefact/src/lib.rs]: [<hex>.bin] is a body, [<hex>.json] and
    [<hex>.<key>.json] are the references to it.

    The files are keyed by the path that is joined to the root, so that a name that leaves
    the root is another key; two spellings of one path are two keys.  Files can be
    missing or unreadable as references, but no operation on the directory fails. *)

From S2P Require Import Prelude Text Json WorkflowSpec WorkflowContext Artefact.

Local Open Scope Z_scope.

(** The JSON of references and options, derived by serde. *)
Class RefCodec : Type := {
  ref_text : FileRef -> list Z;
  parse_ref : list Z -> option FileRef;
  parse_ref_text fr : parse_ref (ref_text fr) = Some fr;
  options_text : ArtefactPutOptions -> list Z;
}.

(** ** Names *)

Definition json_ext : str := lit ".json".
Definition body_path (hex : str) : str := hex ++ lit ".bin".
Definition sidecar_path_for_key (hex : str) (key : option str) : str :=
  match key with Some k => hex ++ [ch_dot] ++ k ++ json_ext | None => hex ++ json_ext end.

(** The name of a file of the directory whose extension is [json]. *)
Definition is_sidecar_name (n : str) : bool :=
  negb (bool_decide (ch_slash ∈ n)) && match strip_suffix json_ext n with Some (_ :: _) => true | _ => false end.

Section Files.
Context {sha : Sha256} {ch : Chrono} {codec : RefCodec} {order : HashOrder (list Z)}.

Abbreviation Dir := (gmap str (list Z)).

Record FilesystemArtefactStore : Type := mkFiles { root_files : Dir; fs_limits : ArtefactStoreLimits }.

Definition logical_sidecar_key (o : ArtefactPutOptions) : option str :=
  if has_logical_metadata o then Some (take 16 (sha256 (options_text o))) else None.

(** ** Reading *)

(** [read_dir], in the order of the directory, and its files with the extension [json]. *)
Definition json_names (d : Dir) : list str := base.filter (fun n => is_sidecar_name n = true) (hash_order d).*1.

Definition sidecar_paths_for_hex (d : Dir) (hex : str) : list str :=
  sort_by (fun a b => bool_decide (str_le a b))
    (base.filter (fun n => n = hex ++ json_ext \/ starts_with (hex ++ [ch_dot]) n = true) (json_names d)).

Definition read_ref (d : Dir) (n : str) : option FileRef := d !! n ≫= parse_ref.

Definition read_sidecar_for_key (d : Dir) (hex : str) (key : option str) : result ArtefactError (option FileRef) :=
  match d !! sidecar_path_for_key hex key with
  | Some text => match parse_ref text with Some fr => Ok (Some fr) | None => Err SerdeError end
  | None => Ok None
  end.

Definition read_sidecar (d : Dir) (hex : str) : result ArtefactError (option FileRef) :=
  match read_sidecar_for_key d hex None with
  | Ok None => Ok (hd_error (omap (read_ref d) (sidecar_paths_for_hex d hex)))
  | r => r
  end.

Definition read_all_sidecars (d : Dir) : list FileRef := omap (read_ref d) (json_names d).

(** ** Expiry and retention *)

Definition drop_body (hex : str) (d : Dir) : Dir := if bool_decide (sidecar_paths_for_hex d hex = []) then delete (body_path hex) d else d.

Definition expire_one (now : Z) (d : Dir) (n : str) : Dir :=
  match read_ref d n with
  | Some fr =>
      if is_expired_at now fr then
        let d := delete n d in
        match sha256_hex_of fr with Some hex => drop_body hex d | None => d end
      else d
  | None => d
  end.

Definition cleanup_expired (now : Z) (d : Dir) : Dir := foldl (expire_one now) d (json_names d).

Definition remove_ref (fr : FileRef) (d : Dir) : Dir :=
  match sha256_hex_of fr with
  | Some hex =>
      let same n := match read_ref d n with Some c => ref_eqb c fr | None => false end in
      drop_body hex (match list_find (fun n => same n = true) (sidecar_paths_for_hex d hex) with Some (_, n) => delete n d | None => d end)
  | None => d
  end.

Fixpoint evict_files (limits : ArtefactStoreLimits) (refs : list FileRef) (d : Dir) : Dir :=
  match refs with
  | [] => d
  | fr :: rest => if over_limits limits refs then evict_files limits rest (remove_ref fr d) else d
  end.

Definition enforce_retention_limits (limits : ArtefactStoreLimits) (now : Z) (d : Dir) : Dir :=
  let d := cleanup_expired now d in
  evict_files limits (sort_by older (read_all_sidecars d)) d.

(** ** The calls *)

Definition write_body (hex : str) (data : list Z) (d : Dir) : Dir :=
  match d !! body_path hex with Some _ => d | None => <[body_path hex := data]> d end.

Definition write_sidecar (fr : FileRef) (hex : str) (key : option str) (d : Dir) : Dir := <[sidecar_path_for_key hex key := ref_text fr]> d.

(** Storing a body under its digest once no live reference has the name. *)
Definition store_new (t : Clock) (limits : ArtefactStoreLimits) (hex : str) (data : list Z) (o : ArtefactPutOptions) (d : Dir) : Dir * answer FileRef :=
  let d := write_body hex data d in
  match make_file_ref (t 2%nat) (t 3%nat) hex (Z.of_nat (length data)) o (default_ttl_secs limits) with
  | None => (d, Unwinds)
  | Some fr => (enforce_retention_limits limits (t 4%nat) (write_sidecar fr hex (logical_sidecar_key o) d), Answers (Ok fr))
  end.

Definition put_files (t : Clock) (disk : Disk) (limits : ArtefactStoreLimits) (d : Dir) (body : ArtefactBody) (o : ArtefactPutOptions) : Dir * answer FileRef :=
  let d := cleanup_expired (t 0%nat) d in
  match into_bytes disk body with
  | Err e => (d, Answers (Err e))
  | Ok data =>
      match too_large limits (Z.of_nat (length data)) with
      | Some m => (d, Answers (Err (LimitExceeded (Z.of_nat (length data)) m)))
      | None =>
          let hex := sha256 data in
          let key := logical_sidecar_key o in
          match read_sidecar_for_key d hex key with
          | Err e => (d, Answers (Err e))
          | Ok None => store_new t limits hex data o d
          | Ok (Some existing) =>
              if is_expired_at (t 1%nat) existing then store_new t limits hex data o (delete (sidecar_path_for_key hex key) d)
              else (d, Answers (Ok existing))
          end
      end
  end.

Definition delete_files (hex : str) (d : Dir) : Dir :=
  let d := delete (body_path hex) d in
  foldl (fun d n => delete n d) d (sidecar_paths_for_hex d hex).

Definition fs_put (t : Clock) (disk : Disk) (s : FilesystemArtefactStore) (body : ArtefactBody) (o : ArtefactPutOptions) : FilesystemArtefactStore * answer FileRef :=
  let '(d, r) := put_files t disk (fs_limits s) (root_files s) body o in (mkFiles d (fs_limits s), r).

Definition fs_get (t : Clock) (s : FilesystemArtefactStore) (u : str) : FilesystemArtefactStore * result ArtefactError (option (list Z)) :=
  match parse_sha256_uri u with
  | None => (s, Err (InvalidUri u))
  | Some hex =>
      let d := cleanup_expired (t 0%nat) (root_files s) in
      (mkFiles d (fs_limits s), Ok (if bool_decide (sidecar_paths_for_hex d hex = []) then None else d !! body_path hex))
  end.

Definition fs_head (t : Clock) (s : FilesystemArtefactStore) (u : str) : FilesystemArtefactStore * result ArtefactError (option FileRef) :=
  match parse_sha256_uri u with
  | None => (s, Err (InvalidUri u))
  | Some hex =>
      match read_sidecar (root_files s) hex with
      | Err e => (s, Err e)
      | Ok (Some fr) => if is_expired_at (t 0%nat) fr then (mkFiles (delete_files hex (root_files s)) (fs_limits s), Ok None) else (s, Ok (Some fr))
      | Ok None => (s, Ok None)
      end
  end.

Definition fs_delete (s : FilesystemArtefactStore) (u : str) : FilesystemArtefactStore * result ArtefactError unit :=
  match parse_sha256_uri u with
  | None => (s, Err (InvalidUri u))
  | Some hex => (mkFiles (delete_files hex (root_files s)) (fs_limits s), Ok tt)
  end.

Definition fs_list (t : Clock) (s : FilesystemArtefactStore) (f : ArtefactFilter) : FilesystemArtefactStore * result ArtefactError (list FileRef) :=
  let d := cleanup_expired (t 0%nat) (root_files s) in
  (mkFiles d (fs_limits s), Ok (base.filter (fun fr => apply_filter fr f = true) (read_all_sidecars d))).

#[export] Instance fs_store : ArtefactStore FilesystemArtefactStore :=
  {| put_with_options := fs_put; get := fs_get; head_ref := fs_head; delete_artefact := fs_delete; list_artefacts := fs_list |}.
End Files.

(** ** Names of digests *)

Definition digest64 (hex : str) : Prop := length hex = 64%nat /\ Forall lower_hex hex.
Definition hex_key (key : option str) : Prop := match key with Some k => Forall lower_hex k | None => True end.

Lemma lower_hex_char c : lower_hex c -> c <> ch_dot /\ c <> ch_slash.
Proof. intros [H|H]; unfold is_ascii_digit, in_range, ch_dot, ch_slash in *; lia. Qed.

Lemma hex_plain s c : Forall lower_hex s -> c ∈ s -> c <> ch_dot /\ c <> ch_slash.
Proof. intros Hs Hc. rewrite Forall_forall in Hs. by apply lower_hex_char, Hs. Qed.

(** What follows the digest in the name of a reference. *)
Definition sidecar_tail (key : option str) : str := match key with Some k => k ++ json_ext | None => drop 1 json_ext end.

Lemma sidecar_shape hex key : sidecar_path_for_key hex key = hex ++ [ch_dot] ++ sidecar_tail key.
Proof. by destruct key. Qed.

Lemma sidecar_is_name hex key : digest64 hex -> hex_key key -> is_sidecar_name (sidecar_path_for_key hex key) = true.
Proof.
  intros [Hl Hh] Hk. unfold is_sidecar_name. apply andb_true_iff. split.
  - apply negb_true_iff, bool_decide_eq_false. rewrite sidecar_shape. intros Hin. repeat apply elem_of_app in Hin as [Hin|Hin].
    + by destruct (hex_plain _ _ Hh Hin).
    + by apply list_elem_of_singleton in Hin.
    + destruct key as [k|]; [apply elem_of_app in Hin as [Hin|Hin]; [by destruct (hex_plain _ _ Hk Hin)|]|];
        apply (bool_decide_pack _) in Hin; by vm_compute in Hin.
  - assert (E : exists stem, sidecar_path_for_key hex key = (hex ++ stem) ++ json_ext).
    { destruct key as [k|]; [exists (ch_dot :: k)|exists []]; cbn [sidecar_path_for_key]; by rewrite <- !app_assoc. }
    destruct E as [stem ->]. rewrite (proj2 (strip_suffix_Some _ _ _) eq_refl). by destruct hex.
Qed.

Lemma sidecar_name_inj hex hex' rest rest' : digest64 hex -> digest64 hex' -> hex ++ rest = hex' ++ rest' -> hex = hex'.
Proof. intros [Hl _] [Hl' _] E. apply app_inj_1 in E as [E _]; [done|congruence]. Qed.

Lemma body_not_sidecar hex n : is_sidecar_name n = true -> body_path hex <> n.
Proof.
  unfold is_sidecar_name. intros [_ H]%andb_true_iff <-. destruct (strip_suffix json_ext (body_path hex)) as [stem|] eqn:E; [|done].
  apply strip_suffix_Some in E. apply (f_equal reverse) in E. unfold body_path in E. rewrite !reverse_app in E. by vm_compute in E.
Qed.

(** A prefix with a dot of a digest and its tail: it is the digest, or goes on after it. *)
Lemma dotted_prefix hex hex' r : digest64 hex -> starts_with (hex' ++ [ch_dot]) (hex ++ r) = true -> starts_with hex hex' = true.
Proof.
  intros [Hl Hh] [s E]%starts_with_spec. apply starts_with_spec. rewrite <- app_assoc in E.
  destruct (decide (length hex <= length hex')%nat) as [Hle|Hgt].
  - exists (drop (length hex) hex'). apply (f_equal (take (length hex))) in E. rewrite take_app_length, take_app_le in E by done.
    rewrite E at 1. by rewrite take_drop.
  - exfalso. assert (H : hex !! length hex' = Some ch_dot).
    { rewrite <- (lookup_app_l _ r) by lia. rewrite E, lookup_app_r by done. by rewrite Nat.sub_diag. }
    apply list_elem_of_lookup_2 in H. by destruct (hex_plain _ _ Hh H).
Qed.

Section FilesLaws.
Context {sha : Sha256} {ch : Chrono} {codec : RefCodec} {order : HashOrder (list Z)}.
Abbreviation Dir := (gmap str (list Z)).

Lemma sha_digest64 data : digest64 (sha256 data).
Proof. apply sha256_hex. Qed.

Lemma logical_key_hex o : hex_key (logical_sidecar_key o).
Proof. unfold logical_sidecar_key. destruct (has_logical_metadata o); [|done]. apply Forall_take, sha256_hex. Qed.

Lemma elem_of_json_names d n : n ∈ json_names d <-> is_sidecar_name n = true /\ is_Some (d !! n).
Proof.
  unfold json_names. rewrite list_elem_of_filter, hash_order_perm. f_equiv. split.
  - intros ([n' x] & -> & H)%list_elem_of_fmap. apply elem_of_map_to_list in H. by exists x.
  - intros [x H]. apply list_elem_of_fmap. exists (n, x). split; [done|]. by apply elem_of_map_to_list.
Qed.

Lemma elem_of_sidecar_paths d hex n :
  n ∈ sidecar_paths_for_hex d hex <-> starts_with (hex ++ [ch_dot]) n = true /\ is_sidecar_name n = true /\ is_Some (d !! n).
Proof.
  unfold sidecar_paths_for_hex. rewrite elem_of_sort_by, list_elem_of_filter, elem_of_json_names. split; [|tauto].
  intros [[->|H] ?]; [|done]. split; [|done]. apply starts_with_spec. exists (drop 1 json_ext). by rewrite <- app_assoc.
Qed.

(** The names and contents of a directory the store has written. *)
Definition filed_under (d : Dir) (n : str) (fr : FileRef) (hex : str) (key : option str) : Prop :=
  digest64 hex /\ hex_key key /\ n = sidecar_path_for_key hex key /\ uri fr = make_uri_sha256 hex /\ digest fr = Some (lit "sha256:" ++ hex) /\
  exists data, d !! body_path hex = Some data /\ sha256 data = hex.

Record housed (d : Dir) : Prop := {
  housed_refs n fr : is_sidecar_name n = true -> read_ref d n = Some fr -> exists hex key, filed_under d n fr hex key;
  housed_bodies hex data : digest64 hex -> d !! body_path hex = Some data -> sha256 data = hex;
}.

Definition stored (d : Dir) (fr : FileRef) : Prop := exists n, is_sidecar_name n = true /\ read_ref d n = Some fr.

Lemma filed_digest d n fr hex key : filed_under d n fr hex key -> sha256_hex_of fr = Some hex.
Proof. intros (_ & _ & _ & _ & E & _). unfold sha256_hex_of. rewrite E. cbn [mbind option_bind]. apply strip_prefix_app. Qed.

Lemma sidecar_listed d hex key : digest64 hex -> hex_key key -> is_Some (d !! sidecar_path_for_key hex key) -> sidecar_path_for_key hex key ∈ sidecar_paths_for_hex d hex.
Proof.
  intros H Hk Hs. apply elem_of_sidecar_paths. split; [|split; [by apply sidecar_is_name|done]].
  rewrite sidecar_shape. apply starts_with_spec. exists (sidecar_tail key). by rewrite <- app_assoc.
Qed.

Lemma read_ref_Some d n fr : read_ref d n = Some fr -> is_Some (d !! n).
Proof. unfold read_ref. by destruct (d !! n). Qed.

Lemma body_path_inj : Inj (=) (=) body_path.
Proof. intros a b. apply app_inj_2. done. Qed.

(** A change of the directory that loses references or bodies without references. *)
Lemma housed_shrink d d' : housed d ->
  (forall n, is_sidecar_name n = true -> d' !! n = None \/ d' !! n = d !! n) ->
  (forall hex, d' !! body_path hex = d !! body_path hex \/ d' !! body_path hex = None /\ sidecar_paths_for_hex d' hex = []) -> housed d'.
Proof.
  intros [Hr Hb] Hn Hbody. split.
  - intros n fr Hs Hfr. assert (E : read_ref d n = Some fr).
    { unfold read_ref in *. destruct (Hn n Hs) as [E|E]; rewrite E in Hfr; done. }
    destruct (Hr n fr Hs E) as (hex & key & Hf). pose proof Hf as (H1 & H2 & H3 & H4 & H5 & data & H6 & H7). exists hex, key.
    unfold filed_under. repeat (split; [done|]). exists data. split; [|done]. destruct (Hbody hex) as [->|[_ Hnil]]; [done|].
    apply read_ref_Some in Hfr. rewrite H3 in Hfr. pose proof (sidecar_listed _ _ _ H1 H2 Hfr) as Hin. rewrite Hnil in Hin. by apply not_elem_of_nil in Hin.
  - intros hex data Hd E. apply (Hb hex); [done|]. destruct (Hbody hex) as [<-|[E' _]]; [done|congruence].
Qed.

(** ** Every step keeps the directory in order *)

Lemma delete_sidecar n d : is_sidecar_name n = true -> housed d -> housed (delete n d).
Proof.
  intros Hn Hd. apply (housed_shrink d); [done| |].
  - intros n' _. rewrite lookup_delete. case_decide; auto.
  - intros hex. left. apply lookup_delete_ne. intros E. by apply (body_not_sidecar hex n).
Qed.

Lemma drop_body_sidecar hex d n : is_sidecar_name n = true -> drop_body hex d !! n = d !! n.
Proof. intros Hn. unfold drop_body. case_bool_decide; [|done]. apply lookup_delete_ne. by apply body_not_sidecar. Qed.

Lemma same_sidecars d d' hex : (forall n, is_sidecar_name n = true -> d' !! n = d !! n) -> sidecar_paths_for_hex d hex = [] -> sidecar_paths_for_hex d' hex = [].
Proof.
  intros He Hnil. destruct (sidecar_paths_for_hex d' hex) as [|n l] eqn:E; [done|]. exfalso.
  assert (Hin : n ∈ sidecar_paths_for_hex d' hex) by (rewrite E; by left). apply elem_of_sidecar_paths in Hin as (H1 & H2 & H3).
  rewrite He in H3 by done. assert (Hin : n ∈ sidecar_paths_for_hex d hex) by by apply elem_of_sidecar_paths.
  rewrite Hnil in Hin. by apply not_elem_of_nil in Hin.
Qed.

Lemma drop_body_housed hex d : housed d -> housed (drop_body hex d).
Proof.
  intros Hd. apply (housed_shrink d); [done| |].
  - intros n Hn. right. by apply drop_body_sidecar.
  - intros hex'. destruct (decide (hex' = hex)) as [->|Hne].
    + destruct (drop_body hex d !! body_path hex) eqn:E.
      * left. unfold drop_body in E. case_bool_decide; [by rewrite lookup_delete_eq in E|done].
      * unfold drop_body in E. case_bool_decide as Hnil; [right|by left]. split; [done|].
        apply (same_sidecars d); [|done]. intros n. apply drop_body_sidecar.
    + left. unfold drop_body. case_bool_decide; [|done]. apply lookup_delete_ne. intros ?%body_path_inj. congruence.
Qed.

Definition keeps_live (now : Z) (d d' : Dir) : Prop := forall fr, stored d fr -> is_expired_at now fr = false -> stored d' fr.

Lemma keeps_live_refl now d : keeps_live now d d.
Proof. by intros fr. Qed.

Lemma expire_one_ok now d n : is_sidecar_name n = true -> housed d -> housed (expire_one now d n) /\ keeps_live now d (expire_one now d n).
Proof.
  intros Hn Hd. unfold expire_one. pose proof (keeps_live_refl now d) as Hrefl. destruct (read_ref d n) as [fr|] eqn:E; [|done].
  destruct (is_expired_at now fr) eqn:Ex; [|done].
  assert (Hd1 : housed (delete n d)) by by apply delete_sidecar.
  assert (Hl : keeps_live now d (delete n d)).
  { intros fr' (n' & Hn' & Hfr) Hx. exists n'. split; [done|]. unfold read_ref. rewrite lookup_delete_ne; [exact Hfr|]. intros ->. congruence. }
  cbv zeta. destruct (sha256_hex_of fr) as [hex|]; [|done]. split; [by apply drop_body_housed|].
  intros fr' Hs Hx. destruct (Hl fr' Hs Hx) as (n' & Hn' & Hfr). exists n'. split; [done|]. unfold read_ref in *. by rewrite drop_body_sidecar.
Qed.

Lemma cleanup_ok now d : housed d -> housed (cleanup_expired now d) /\ keeps_live now d (cleanup_expired now d).
Proof.
  intros Hd. unfold cleanup_expired. assert (Hn : Forall (fun n => is_sidecar_name n = true) (json_names d)).
  { apply Forall_forall. intros n Hin. by apply elem_of_json_names in Hin as [? _]. }
  revert Hn. generalize (json_names d). intros l Hn. revert d Hd. induction Hn as [|n l Hn _ IH]; intros d Hd; [by pose proof (keeps_live_refl now d)|]. cbn [foldl].
  destruct (expire_one_ok now d n Hn Hd) as [H1 H2]. destruct (IH _ H1) as [H3 H4]. split; [done|]. intros fr Hs Hx. auto.
Qed.

Lemma evict_files_unbounded l refs d : unbounded l -> evict_files l refs d = d.
Proof. intros [H1 H2]. induction refs as [|fr refs IH]; [done|]. cbn [evict_files]. unfold over_limits. by rewrite H1, H2. Qed.

Lemma write_body_sidecar hex data d n : is_sidecar_name n = true -> write_body hex data d !! n = d !! n.
Proof. intros Hn. unfold write_body. destruct (d !! body_path hex); [done|]. apply lookup_insert_ne. by apply body_not_sidecar. Qed.

Lemma write_body_there data d : housed d -> exists x, write_body (sha256 data) data d !! body_path (sha256 data) = Some x /\ sha256 x = sha256 data.
Proof.
  intros Hd. unfold write_body. destruct (d !! body_path (sha256 data)) as [x|] eqn:E.
  - exists x. split; [done|]. apply (housed_bodies _ Hd); [apply sha_digest64|done].
  - exists data. by rewrite lookup_insert_eq.
Qed.

Lemma write_body_housed data d : housed d -> housed (write_body (sha256 data) data d).
Proof.
  intros Hd. pose proof Hd as [Hr Hb]. split.
  - intros n fr Hn Hfr. unfold read_ref in Hfr. rewrite write_body_sidecar in Hfr by done. destruct (Hr n fr Hn Hfr) as (hex & key & H1 & H2 & H3 & H4 & H5 & x & H6 & H7).
    exists hex, key. unfold filed_under. repeat (split; [done|]). exists x. split; [|done]. unfold write_body.
    destruct (d !! body_path (sha256 data)) eqn:E; [done|]. rewrite lookup_insert_ne; [done|]. congruence.
  - intros hex x Hh. unfold write_body. destruct (d !! body_path (sha256 data)) eqn:E; [by apply Hb|].
    rewrite lookup_insert. case_decide as Hp; [|by apply Hb]. apply body_path_inj in Hp. intros [= <-]. done.
Qed.

Lemma write_sidecar_housed fr hex key d : housed d -> digest64 hex -> hex_key key -> uri fr = make_uri_sha256 hex -> digest fr = Some (lit "sha256:" ++ hex) ->
  (exists x, d !! body_path hex = Some x /\ sha256 x = hex) -> housed (write_sidecar fr hex key d).
Proof.
  intros [Hr Hb] Hh Hk Hu Hg (x & Hx & Hs). pose proof (sidecar_is_name _ _ Hh Hk) as Hname. unfold write_sidecar.
  assert (Hbody : forall h, <[sidecar_path_for_key hex key := ref_text fr]> d !! body_path h = d !! body_path h).
  { intros h. apply lookup_insert_ne. intros E. by apply (body_not_sidecar h _ Hname). }
  split; [|intros h y; rewrite Hbody; apply Hb]. intros n fr' Hn Hfr. unfold filed_under. setoid_rewrite Hbody. unfold read_ref in Hfr.
  rewrite lookup_insert in Hfr. case_decide as E; [|by apply Hr]. cbn [mbind option_bind] in Hfr. rewrite parse_ref_text in Hfr. injection Hfr as <-. subst n.
  exists hex, key. repeat (split; [done|]). by exists x.
Qed.

(** ** The laws *)

Definition fs_sound (s : FilesystemArtefactStore) : Prop := unbounded (fs_limits s) /\ housed (root_files s).
Definition fs_keeps (s : FilesystemArtefactStore) (fr : FileRef) : Prop := stored (root_files s) fr.

Lemma store_new_ok t l data o d fr0 : unbounded l -> housed d -> d !! sidecar_path_for_key (sha256 data) (logical_sidecar_key o) = None ->
  housed (store_new t l (sha256 data) data o d).1 /\
  (stored d fr0 \/ (store_new t l (sha256 data) data o d).2 = Answers (Ok fr0) -> is_expired_at (t 4%nat) fr0 = false -> stored (store_new t l (sha256 data) data o d).1 fr0).
Proof.
  intros Hl Hd Hnone. unfold store_new. cbv zeta. set (d1 := write_body (sha256 data) data d).
  assert (Hd1 : housed d1) by by apply write_body_housed. pose proof (write_body_there data d Hd) as Hb.
  assert (Hk1 : stored d fr0 -> stored d1 fr0).
  { intros (n & Hn & Hfr). exists n. split; [done|]. unfold read_ref, d1. by rewrite write_body_sidecar. }
  destruct (make_file_ref _ _ _ _ _ _) as [fr|] eqn:E; [|cbn [fst snd]; naive_solver].
  apply make_file_ref_uri in E as (Hu & Hg & _). pose proof (sidecar_is_name _ _ (sha_digest64 data) (logical_key_hex o)) as Hname.
  set (d2 := write_sidecar fr (sha256 data) (logical_sidecar_key o) d1).
  assert (Hd2 : housed d2) by (apply write_sidecar_housed; auto using sha_digest64, logical_key_hex).
  cbn [fst snd]. unfold enforce_retention_limits. rewrite evict_files_unbounded by done. destruct (cleanup_ok (t 4%nat) d2 Hd2) as [Hc Hk].
  split; [done|]. intros Hs Hx. apply Hk; [|done]. destruct Hs as [Hs|Hs].
  - destruct (Hk1 Hs) as (n & Hn & Hfr). exists n. split; [done|]. unfold read_ref, d2, write_sidecar. rewrite lookup_insert_ne; [done|]. intros <-.
    unfold read_ref, d1 in Hfr. by rewrite write_body_sidecar, Hnone in Hfr.
  - injection Hs as <-. eexists. split; [exact Hname|]. unfold read_ref, d2, write_sidecar. rewrite lookup_insert_eq. apply parse_ref_text.
Qed.

Lemma read_sidecar_at d hex key fr : read_sidecar_for_key d hex key = Ok (Some fr) -> read_ref d (sidecar_path_for_key hex key) = Some fr.
Proof.
  unfold read_sidecar_for_key, read_ref. destruct (d !! sidecar_path_for_key hex key) as [text|]; [|done]. cbn [mbind option_bind].
  destruct (parse_ref text); [|done]. by intros [= ->].
Qed.

Lemma put_files_ok t disk l d body o fr0 : unbounded l -> housed d ->
  housed (put_files t disk l d body o).1 /\
  (stored d fr0 \/ (put_files t disk l d body o).2 = Answers (Ok fr0) -> (forall i, is_expired_at (t i) fr0 = false) -> stored (put_files t disk l d body o).1 fr0).
Proof.
  intros Hl Hd. unfold put_files. cbv zeta. destruct (cleanup_ok (t 0%nat) d Hd) as [Hc Hk]. set (d1 := cleanup_expired (t 0%nat) d) in *.
  assert (Hstay : forall r : answer FileRef, (forall fr, r <> Answers (Ok fr)) ->
    housed (d1, r).1 /\ (stored d fr0 \/ (d1, r).2 = Answers (Ok fr0) -> (forall i, is_expired_at (t i) fr0 = false) -> stored (d1, r).1 fr0)).
  { intros r Hr. split; [done|]. intros [Hs|Hs] Hx; [by apply Hk|by destruct (Hr fr0)]. }
  destruct (into_bytes disk body) as [data|e]; [|by apply Hstay]. destruct (too_large _ _); [by apply Hstay|].
  set (key := logical_sidecar_key o). pose proof (sidecar_is_name _ _ (sha_digest64 data) (logical_key_hex o)) as Hname.
  destruct (read_sidecar_for_key d1 (sha256 data) key) as [[existing|]|e] eqn:E; [| |by apply Hstay].
  - apply read_sidecar_at in E. destruct (is_expired_at (t 1%nat) existing) eqn:Ex.
    + destruct (store_new_ok t l data o (delete (sidecar_path_for_key (sha256 data) key) d1) fr0 Hl) as [H1 H2].
      { by apply delete_sidecar. }
      { by rewrite lookup_delete_eq. }
      split; [done|]. intros Hs Hx. apply H2; [|done]. destruct Hs as [Hs|Hs]; [left|by right].
      destruct (Hk _ Hs (Hx 0%nat)) as (n & Hn & Hfr). exists n. split; [done|]. unfold read_ref. rewrite lookup_delete_ne; [done|]. intros <-.
      rewrite Hfr in E. injection E as <-. specialize (Hx 1%nat). congruence.
    + split; [done|]. cbn [fst snd]. intros [Hs|Hs] Hx; [by apply Hk|]. injection Hs as <-. by exists (sidecar_path_for_key (sha256 data) key).
  - unfold read_sidecar_for_key in E. destruct (d1 !! sidecar_path_for_key (sha256 data) key) as [text|] eqn:E'.
    { by destruct (parse_ref text). }
    destruct (store_new_ok t l data o d1 fr0 Hl Hc E') as [H1 H2]. split; [done|]. intros [Hs|Hs] Hx; apply H2; auto.
Qed.

Lemma store_new_answer t l data o d fr : (store_new t l (sha256 data) data o d).2 = Answers (Ok fr) -> uri fr = make_uri_sha256 (sha256 data).
Proof.
  unfold store_new. cbv zeta. destruct (make_file_ref _ _ _ _ _ _) as [fr'|] eqn:E; [|done]. cbn [snd]. intros [= ->].
  by apply make_file_ref_uri in E as (? & _).
Qed.

Lemma put_files_addresses t disk l d body o fr : housed d -> (put_files t disk l d body o).2 = Answers (Ok fr) ->
  exists data, into_bytes disk body = Ok data /\ uri fr = make_uri_sha256 (sha256 data).
Proof.
  intros Hd. unfold put_files. cbv zeta. destruct (cleanup_ok (t 0%nat) d Hd) as [[Hr _] _]. set (d1 := cleanup_expired (t 0%nat) d) in *.
  destruct (into_bytes disk body) as [data|e]; [|done]. destruct (too_large _ _); [done|].
  destruct (read_sidecar_for_key d1 (sha256 data) (logical_sidecar_key o)) as [[existing|]|e] eqn:E; [| |done].
  - destruct (is_expired_at (t 1%nat) existing); [intros H; exists data; split; [done|]; by eapply store_new_answer|].
    cbn [snd]. intros [= ->]. exists data. split; [done|]. apply read_sidecar_at in E.
    destruct (Hr _ _ (sidecar_is_name _ _ (sha_digest64 data) (logical_key_hex o)) E) as (hex & key & H1 & _ & H3 & H4 & _).
    rewrite !sidecar_shape in H3. by rewrite (sidecar_name_inj _ _ _ _ (sha_digest64 data) H1 H3).
  - intros H. exists data. split; [done|]. by eapply store_new_answer.
Qed.

Lemma foldl_delete_lookup (l : list str) (d : Dir) n : foldl (fun (d : Dir) n => delete n d) d l !! n = if decide (n ∈ l) then None else d !! n.
Proof.
  revert d. induction l as [|m l IH]; intros d; [done|]. cbn [foldl]. rewrite IH. destruct (decide (n ∈ l)), (decide (n ∈ m :: l)) as [H|H]; try done.
  - by destruct H; right.
  - apply elem_of_cons in H as [->|]; [by rewrite lookup_delete_eq|done].
  - rewrite lookup_delete_ne; [done|]. intros ->. apply H. by left.
Qed.

(** What is left of a file after its URI, or another one, is deleted. *)
Lemma delete_files_exact hex d n : delete_files hex d !! n =
  if decide (n = body_path hex \/ starts_with (hex ++ [ch_dot]) n = true /\ is_sidecar_name n = true) then None else d !! n.
Proof.
  unfold delete_files. cbv zeta. rewrite foldl_delete_lookup. destruct (decide (n = body_path hex)) as [->|Hn].
  - rewrite lookup_delete_eq. rewrite (decide_True (P := _ \/ _)) by auto. by destruct (decide _).
  - rewrite lookup_delete_ne by done. destruct (decide (n ∈ _)) as [Hin|Hin]; rewrite elem_of_sidecar_paths, lookup_delete_ne in Hin by done.
    + rewrite decide_True; [done|]. right. tauto.
    + destruct (decide (n = body_path hex \/ _)) as [[?|[H1 H2]]|]; [done| |done]. destruct (d !! n) eqn:E; [|done]. destruct Hin. eauto.
Qed.

Lemma delete_files_housed hex d : housed d -> housed (delete_files hex d).
Proof.
  intros Hd. apply (housed_shrink d); [done| |].
  - intros n _. rewrite delete_files_exact. case_decide; auto.
  - intros hex'. destruct (decide (hex' = hex)) as [->|Hne].
    + right. rewrite delete_files_exact, decide_True by auto. split; [done|]. destruct (sidecar_paths_for_hex (delete_files hex d) hex) as [|n l] eqn:E; [done|].
      assert (Hin : n ∈ sidecar_paths_for_hex (delete_files hex d) hex) by (rewrite E; by left). apply elem_of_sidecar_paths in Hin as (H1 & H2 & [x H3]).
      rewrite delete_files_exact, decide_True in H3 by auto. done.
    + left. rewrite delete_files_exact, decide_False; [done|]. intros [?%body_path_inj|[_ H]]; [done|]. by apply (body_not_sidecar hex' _ H).
Qed.

Lemma delete_files_keeps hex d fr : housed d -> stored d fr -> starts_with (uri fr) (make_uri_sha256 hex) = false -> stored (delete_files hex d) fr.
Proof.
  intros Hd (n & Hn & Hfr) Hs. exists n. split; [done|]. unfold read_ref. rewrite delete_files_exact, decide_False; [done|].
  destruct (housed_refs _ Hd n fr Hn Hfr) as (h & key & H1 & H2 & -> & H4 & _). intros [E|[E _]].
  - by apply (body_not_sidecar hex _ Hn).
  - rewrite sidecar_shape in E. apply (dotted_prefix _ _ _ H1) in E. apply starts_with_spec in E as [r ->]. rewrite H4 in Hs.
    assert (starts_with (make_uri_sha256 h) (make_uri_sha256 (h ++ r)) = true); [|congruence]. apply starts_with_spec. exists r. unfold make_uri_sha256. by rewrite <- app_assoc.
Qed.

Lemma parse_make_uri hex : parse_sha256_uri (make_uri_sha256 hex) = Some hex.
Proof. apply strip_prefix_app. Qed.

Lemma parse_uri_Some u hex : parse_sha256_uri u = Some hex -> u = make_uri_sha256 hex.
Proof. apply strip_prefix_Some. Qed.

Lemma stored_body d fr : housed d -> stored d fr -> exists data, uri fr = make_uri_sha256 (sha256 data) /\
  d !! body_path (sha256 data) = Some data /\ sidecar_paths_for_hex d (sha256 data) <> [].
Proof.
  intros Hd (n & Hn & Hfr). destruct (housed_refs _ Hd n fr Hn Hfr) as (h & key & H1 & H2 & -> & H4 & _ & x & H6 & H7). exists x. rewrite H7.
  split; [done|]. split; [done|]. apply read_ref_Some in Hfr. pose proof (sidecar_listed _ _ _ H1 H2 Hfr) as Hin. intros E. rewrite E in Hin. by apply not_elem_of_nil in Hin.
Qed.

Lemma fs_get_kept t s fr : housed (root_files s) -> stored (root_files s) fr -> is_expired_at (t 0%nat) fr = false ->
  exists s' data, fs_get t s (uri fr) = (s', Ok (Some data)) /\ uri fr = make_uri_sha256 (sha256 data).
Proof.
  intros Hd Hs Hx. destruct (cleanup_ok (t 0%nat) _ Hd) as [Hc Hk]. destruct (stored_body _ _ Hc (Hk _ Hs Hx)) as (data & Hu & Hb & Hne).
  eexists _, data. split; [|done]. unfold fs_get. rewrite Hu, parse_make_uri. cbv zeta. by rewrite bool_decide_eq_false_2, Hb.
Qed.

Lemma fs_head_sound t s u : fs_sound s -> fs_sound (fs_head t s u).1.
Proof.
  intros [Hl Hd]. unfold fs_head. destruct (parse_sha256_uri u) as [hex|]; [|done]. destruct (read_sidecar _ _) as [[fr|]|e]; [|done..].
  destruct (is_expired_at _ _); [|done]. split; [done|]. by apply delete_files_housed.
Qed.

(** Only a request that answers none deletes, and what it deletes is named by its URI. *)
Lemma fs_head_keeps t s u fr : fs_sound s -> fs_keeps s fr -> starts_with (uri fr) u = false \/ (fs_head t s u).2 <> Ok None -> fs_keeps (fs_head t s u).1 fr.
Proof.
  intros [Hl Hd] Hk. unfold fs_head. destruct (parse_sha256_uri u) as [hex|] eqn:E; [|done]. apply parse_uri_Some in E as ->.
  destruct (read_sidecar _ _) as [[first|]|e]; [|done..]. destruct (is_expired_at _ _); [|done]. intros [Hu|Hu]; [|done].
  by apply delete_files_keeps.
Qed.

#[export] Instance fs_view : StoreView FilesystemArtefactStore := {| in_order s := housed (root_files s); keeps := fs_keeps; limits_of := fs_limits |}.

#[export] Program Instance fs_laws : ArtefactStoreLaws FilesystemArtefactStore.
Next Obligation.
  intros t disk s b o s' fr [Hl Hd] E Hx. cbn in E. unfold fs_put in E. destruct (put_files_ok t disk (fs_limits s) (root_files s) b o fr Hl Hd) as [_ H].
  destruct (put_files _ _ _ _ _ _) as [d r]. injection E as <- ->. apply H; [by right|done].
Qed.
Next Obligation.
  intros t disk s b o s' fr [Hl Hd] E. cbn in E. unfold fs_put in E. pose proof (put_files_addresses t disk (fs_limits s) (root_files s) b o fr Hd) as H.
  destruct (put_files _ _ _ _ _ _) as [d r]. injection E as <- ->. by apply H.
Qed.
Next Obligation.
  intros t disk s b o [Hl Hd]. cbn. unfold fs_put. destruct (put_files_ok t disk (fs_limits s) (root_files s) b o (mkFileRef [] None None None None None None None None 0 None Null) Hl Hd) as [H _].
  by destruct (put_files _ _ _ _ _ _) as [d r].
Qed.
Next Obligation. intros t s u [Hl Hd]. cbn. unfold fs_get. destruct (parse_sha256_uri u); [|done]. split; [done|]. by apply cleanup_ok. Qed.
Next Obligation. apply fs_head_sound. Qed.
Next Obligation. intros s u [Hl Hd]. cbn. unfold fs_delete. destruct (parse_sha256_uri u); [|done]. split; [done|]. by apply delete_files_housed. Qed.
Next Obligation. intros t s f [Hl Hd]. split; [done|]. by apply cleanup_ok. Qed.
Next Obligation.
  intros t disk s b o fr [Hl Hd] Hk Hx. cbn. unfold fs_put. destruct (put_files_ok t disk (fs_limits s) (root_files s) b o fr Hl Hd) as [_ H].
  destruct (put_files _ _ _ _ _ _) as [d r]. apply H; [by left|done].
Qed.
Next Obligation.
  intros t s u fr [Hl Hd] Hk Hx. cbn. unfold fs_get. destruct (parse_sha256_uri u); [|done]. by apply (cleanup_ok (t 0%nat) _ Hd).
Qed.
Next Obligation. intros t s u fr Hs Hk _. by apply fs_head_keeps. Qed.
Next Obligation. intros t s f fr [Hl Hd] Hk Hx. by apply (cleanup_ok (t 0%nat) _ Hd). Qed.
Next Obligation.
  intros s u fr [Hl Hd] Hk Hu. cbn. unfold fs_delete. destruct (parse_sha256_uri u) as [hex|] eqn:E; [|done]. apply parse_uri_Some in E as ->.
  by apply delete_files_keeps.
Qed.
Next Obligation. intros t s fr [Hl Hd] Hk Hx. by apply fs_get_kept. Qed.

(** ** Asking for a reference *)

Lemma expire_one_shrinks now d n n' : expire_one now d n !! n' = None \/ expire_one now d n !! n' = d !! n'.
Proof.
  unfold expire_one. destruct (read_ref d n) as [fr|]; [|by right]. destruct (is_expired_at now fr); [|by right]. cbv zeta.
  assert (H : delete n d !! n' = None \/ delete n d !! n' = d !! n') by (rewrite lookup_delete; case_decide; auto).
  destruct (sha256_hex_of fr) as [hex|]; [|done]. unfold drop_body. case_bool_decide; [|done]. rewrite lookup_delete. case_decide; auto.
Qed.

Lemma cleanup_shrinks now d n' : cleanup_expired now d !! n' = None \/ cleanup_expired now d !! n' = d !! n'.
Proof.
  unfold cleanup_expired. generalize (json_names d). intros l. revert d. induction l as [|n l IH]; intros d; [by right|]. cbn [foldl].
  destruct (IH (expire_one now d n)) as [H|H]; [by left|]. rewrite H. apply expire_one_shrinks.
Qed.

(** C40: asking a directory for the reference of a URI whose first reference has expired deletes
    the body and all its references, those that have not expired too: a body that could be
    read is gone.  The in-memory store keeps it ([memory_head_keeps]). *)
Theorem head_drops_live (t : Clock) (s : FilesystemArtefactStore) (fr first : FileRef) (hex : str) (Hs : fs_sound s) (Hk : fs_keeps s fr)
    (Hu : uri fr = make_uri_sha256 hex) (Hfr : is_expired_at (t 0%nat) fr = false)
    (Hfirst : read_sidecar (root_files s) hex = Ok (Some first)) (Hx : is_expired_at (t 0%nat) first = true) :
  (exists data, (get t s (uri fr)).2 = Ok (Some data)) /\
  (head_ref t s (uri fr)).2 = Ok None /\ forall t', (get t' (head_ref t s (uri fr)).1 (uri fr)).2 = Ok None.
Proof.
  destruct Hs as [_ Hd]. split; [|split].
  - destruct (fs_get_kept t s fr Hd Hk Hfr) as (s' & data & E & _). exists data. change (get t s (uri fr)) with (fs_get t s (uri fr)). by rewrite E.
  - cbn. unfold fs_head. by rewrite Hu, parse_make_uri, Hfirst, Hx.
  - intros t'. cbn. unfold fs_head. rewrite Hu, parse_make_uri, Hfirst, Hx. cbn [fst]. unfold fs_get. rewrite parse_make_uri. cbn [snd root_files]. f_equal.
    set (d := cleanup_expired (t' 0%nat) (delete_files hex (root_files s))). destruct (sidecar_paths_for_hex d hex) as [|n l] eqn:E; [done|]. exfalso.
    assert (Hin : n ∈ sidecar_paths_for_hex d hex) by (rewrite E; by left). apply elem_of_sidecar_paths in Hin as (H1 & H2 & [x H3]).
    destruct (cleanup_shrinks (t' 0%nat) (delete_files hex (root_files s)) n) as [H|H]; fold d in H; [congruence|].
    rewrite H3, delete_files_exact, decide_True in H by auto. done.
Qed.

(** A URI can name a file outside the directory, and deleting it removes that file: the
    digest is not checked. *)
Lemma delete_escapes (d : Dir) (l : ArtefactStoreLimits) (x : str) :
  (delete_artefact (mkFiles d l) (make_uri_sha256 (lit "../" ++ x))).2 = Ok tt /\
  root_files (delete_artefact (mkFiles d l) (make_uri_sha256 (lit "../" ++ x))).1 !! (lit "../" ++ x ++ lit ".bin") = None.
Proof.
  cbn -[lit make_uri_sha256]. unfold fs_delete. rewrite parse_make_uri. split; [done|]. cbn [fst root_files].
  rewrite delete_files_exact, decide_True; [done|]. left. unfold body_path. by rewrite <- app_assoc.
Qed.
End FilesLaws.

(** ** A concrete directory *)

Section Samples.

Definition opt_value (o : option str) : Value := match o with Some s => Str s | None => Null end.
Definition value_opt (v : Value) : option str := match v with Str s => Some s | _ => None end.
Definition opt_num (o : option Z) : Value := match o with Some z => Num (PosInt z) | None => Null end.
Definition num_opt (v : Value) : option Z := match v with Num (PosInt z) => Some z | _ => None end.

Definition ref_value (fr : FileRef) : Value :=
  Array [Str (uri fr); opt_value (mime fr); opt_num (size_bytes fr); opt_value (display_name fr); opt_value (digest fr); opt_value (producer_job_id fr);
         opt_value (tool_call_id fr); opt_value (session_id fr); opt_value (correlation_id fr); Num (PosInt (created_at fr)); opt_num (expires_at fr); metadata fr].

Definition value_ref (v : Value) : option FileRef :=
  match v with
  | Array [Str u; m; s; n; d; p; c; e; r; Num (PosInt t); x; w] =>
      Some (mkFileRef u (value_opt m) (num_opt s) (value_opt n) (value_opt d) (value_opt p) (value_opt c) (value_opt e) (value_opt r) t (num_opt x) w)
  | _ => None
  end.

Lemma value_ref_value fr : value_ref (ref_value fr) = Some fr.
Proof. destruct fr as [? [] [] [] [] [] [] [] [] ? [] ?]; reflexivity. Qed.

#[local] Existing Instance sample_sha.
#[local] Instance sample_chrono : Chrono := {| max_utc := 8210266876799999999999; max_duration_secs := 9223372036854775 |}.

Definition sample_ref_text (fr : FileRef) : list Z := code_text (ref_value fr).
Definition sample_parse_ref (s : list Z) : option FileRef := parse_code s ≫= value_ref.

Lemma sample_parse_text fr : sample_parse_ref (sample_ref_text fr) = Some fr.
Proof. unfold sample_parse_ref, sample_ref_text. rewrite parse_code_text. apply value_ref_value. Qed.

#[local] Instance sample_ref_codec : RefCodec :=
  {| ref_text := sample_ref_text; parse_ref := sample_parse_ref; parse_ref_text := sample_parse_text;
     options_text o := match opt_session_id o with Some s => s | None => [] end |}.

Definition at_second (s : Z) : Clock := fun _ => s * 1000000000.
Definition no_disk : Disk := fun _ => None.

(** References live for ten seconds unless they say otherwise. *)
Definition short_lived : ArtefactStoreLimits := mkLimits None None None (Some 10).
Definition empty_store : FilesystemArtefactStore := mkFiles ∅ short_lived.
Definition one_hour : ArtefactPutOptions := mkOptions None None None None (Some (lit "s")) None (Some 3600) Null.
Definition sample_body : ArtefactBody := Inline [1; 2; 3].

Definition first_put : FilesystemArtefactStore * answer FileRef := fs_put (at_second 0) no_disk empty_store sample_body default_options.
Definition second_put : FilesystemArtefactStore * answer FileRef := fs_put (at_second 1) no_disk first_put.1 sample_body one_hour.
Definition answered (p : FilesystemArtefactStore * answer FileRef) : FileRef :=
  match p.2 with Answers (Ok fr) => fr | _ => mkFileRef [] None None None None None None None None 0 None Null end.

Lemma empty_sound : fs_sound empty_store.
Proof. split; [done|]. split; done. Qed.

Lemma fs_put_sound t disk s b o : fs_sound s -> fs_sound (fs_put t disk s b o).1.
Proof. exact (put_sound (ArtefactStoreLaws := fs_laws) t disk s b o). Qed.
Lemma fs_put_answer t disk s b o s' fr : fs_sound s -> fs_put t disk s b o = (s', Answers (Ok fr)) -> (forall i, is_expired_at (t i) fr = false) -> fs_keeps s' fr.
Proof. exact (put_answer (ArtefactStoreLaws := fs_laws) t disk s b o s' fr). Qed.

Lemma first_sound : fs_sound first_put.1.
Proof. apply fs_put_sound, empty_sound. Qed.
Lemma second_sound : fs_sound second_put.1.
Proof. apply fs_put_sound, first_sound. Qed.

Lemma second_answers : fs_put (at_second 1) no_disk first_put.1 sample_body one_hour = (second_put.1, Answers (Ok (answered second_put))).
Proof. vm_cast_no_check (eq_refl second_put). Qed.

Lemma second_kept : fs_keeps second_put.1 (answered second_put).
Proof. apply (fs_put_answer _ _ _ _ _ _ _ first_sound second_answers). intros i. by vm_compute. Qed.

(** Half an hour with other calls in between; the first reference can be asked for while
    it lives. *)
Definition other_calls : list (Clock * StoreCall) :=
  [(at_second 5, HeadCall (make_uri_sha256 (sha256 [1; 2; 3])));
   (at_second 20, PutCall no_disk (Inline [7]) default_options); (at_second 30, GetCall (lit "artefact://sha256/x"));
   (at_second 35, HeadCall (make_uri_sha256 (sha256 [7])));
   (at_second 40, DeleteCall (make_uri_sha256 (sha256 [7]))); (at_second 50, ListCall (mkFilter None None None None None None))].

Lemma head_answers : match (fs_head (at_second 5) second_put.1 (make_uri_sha256 (sha256 [1; 2; 3]))).2 with Ok None => False | _ => True end.
Proof. by vm_compute. Qed.

Lemma calls_spare : all_spare (answered second_put) second_put.1 other_calls.
Proof.
  split; [split; [intros i; by vm_compute|right; intros E]|].
  { pose proof head_answers as H. change ((fs_head (at_second 5) second_put.1 (make_uri_sha256 (sha256 [1; 2; 3]))).2 = Ok None) in E. rewrite E in H. exact H. }
  split; [split; [intros i; by vm_compute|exact I]|]. split; [split; [intros i; by vm_compute|exact I]|].
  split; [split; [intros i; by vm_compute|left; by vm_compute]|]. split; [split; [intros i; by vm_compute|by vm_compute]|].
  split; [split; [intros i; by vm_compute|exact I]|]. exact I.
Qed.

Lemma half_an_hour i : is_expired_at (at_second 1 i) (answered second_put) = false /\ is_expired_at (at_second 1800 i) (answered second_put) = false.
Proof. split; by vm_compute. Qed.

Lemma artefacts_kept_witness :
  fs_sound first_put.1 /\
  exists s2 stored found, into_bytes no_disk sample_body = Ok stored /\
    get (at_second 1800) (run_calls second_put.1 other_calls) (uri (answered second_put)) = (s2, Ok (Some found)) /\ sha256 found = sha256 stored.
Proof.
  split; [exact first_sound|].
  exact (artefacts_kept (laws := fs_laws) first_put.1 second_put.1 (at_second 1) (at_second 1800) no_disk sample_body one_hour (answered second_put)
    other_calls (proj1 first_sound) (proj2 first_sound) second_answers half_an_hour calls_spare).
Defined.

Lemma first_read : read_sidecar (root_files second_put.1) (sha256 [1; 2; 3]) = Ok (Some (answered first_put)).
Proof. by vm_compute. Qed.
Lemma second_uri : uri (answered second_put) = make_uri_sha256 (sha256 [1; 2; 3]).
Proof. by vm_compute. Qed.
Lemma one_expired : is_expired_at (at_second 20 0%nat) (answered second_put) = false /\ is_expired_at (at_second 20 0%nat) (answered first_put) = true.
Proof. split; by vm_compute. Qed.

Lemma head_drops_live_witness :
  fs_keeps second_put.1 (answered second_put) /\
  (exists data, (get (at_second 20) second_put.1 (uri (answered second_put))).2 = Ok (Some data)) /\
  (head_ref (at_second 20) second_put.1 (uri (answered second_put))).2 = Ok None /\
  forall t', (get t' (head_ref (at_second 20) second_put.1 (uri (answered second_put))).1 (uri (answered second_put))).2 = Ok None.
Proof.
  split; [exact second_kept|].
  exact (head_drops_live (at_second 20) second_put.1 (answered second_put) (answered first_put) (sha256 [1; 2; 3]) second_sound second_kept
    second_uri (proj1 one_expired) first_read (proj2 one_expired)).
Defined.

(** Three references to two bodies, room for two. *)
Definition sample_ref (name : str) (t n : Z) : FileRef := mkFileRef (lit "artefact://sha256/" ++ name) None (Some n) None None None None None None t None Null.
Definition three_refs : gmap str (list FileRef * list Z) :=
  {[ lit "artefact://sha256/a" := ([sample_ref (lit "a") 1 3; sample_ref (lit "a") 5 3], [1; 2; 3]); lit "artefact://sha256/b" := ([sample_ref (lit "b") 2 1], [9]) ]}.

Lemma three_refs_listed fr : fr ∈ all_refs three_refs -> fr = sample_ref (lit "a") 1 3 \/ fr = sample_ref (lit "a") 5 3 \/ fr = sample_ref (lit "b") 2 1.
Proof.
  intros (u & refs & b & H & Hin)%elem_of_all_refs. unfold three_refs in H. apply lookup_insert_Some in H as [[_ [= <- _]]|[_ H]].
  - rewrite !elem_of_cons, elem_of_nil in Hin. tauto.
  - apply lookup_singleton_Some in H as [_ [= <- _]]. rewrite elem_of_cons, elem_of_nil in Hin. tauto.
Qed.

Lemma three_refs_discerned : discerned (all_refs three_refs).
Proof.
  intros a b Ha%three_refs_listed Hb%three_refs_listed.
  destruct Ha as [->| [->| ->]], Hb as [->| [->| ->]]; (split; intros H; [first [reflexivity|by vm_compute in H]|first [by vm_compute|discriminate H]]).
Qed.

Lemma retention_exact_witness :
  let l := mkLimits None (Some 2) (Some 3) None in
  limits_ok l /\ filed three_refs /\ discerned (all_refs three_refs) /\ stored_bytes (enforce_retention_locked l 10 three_refs) <= 3.
Proof.
  intros l. assert (Hl : limits_ok l) by (split; intros n [= <-]; lia).
  assert (Hf : filed three_refs).
  { apply map_Forall_insert_2; [|apply map_Forall_singleton]; (split; [done|repeat (apply Forall_cons_2; [by vm_compute|]); apply Forall_nil_2]). }
  split; [exact Hl|]. split; [exact Hf|]. split; [exact three_refs_discerned|].
  by apply (retention_exact l 10 three_refs Hl Hf three_refs_discerned).
Defined.

(** An in-memory store whose references never expire. *)
Definition forever (fr : FileRef) : Prop := expires_at fr = None.
Definition lasting (s : InMemoryArtefactStore) : Prop :=
  default_ttl_secs (limits s) = None /\ unbounded (limits s) /\ forall fr, fr ∈ all_refs (inner s) -> forever fr.

Lemma push_refs l now fr data m fr' : unbounded l -> fr' ∈ all_refs (push_ref l now fr data m) -> fr' = fr \/ fr' ∈ all_refs m.
Proof.
  intros Hl. unfold push_ref, enforce_retention_locked. rewrite evict_unbounded by done. intros H%cleanup_refs. revert H. rewrite !elem_of_all_refs.
  destruct (m !! uri fr) as [[refs b]|] eqn:E; intros (u & r & b' & H & Hin); apply lookup_insert_Some in H as [[_ [= <- _]]|[_ H]]; eauto 6.
  - apply elem_of_app in Hin as [Hin|Hin]; [right; eauto|]. left. by apply list_elem_of_singleton in Hin.
  - left. by apply list_elem_of_singleton in Hin.
Qed.

Lemma lasting_put t b s : lasting s -> lasting (memory_put t no_disk s b default_options).1 /\
  forall fr, (memory_put t no_disk s b default_options).2 = Answers (Ok fr) -> forever fr.
Proof.
  intros (Ht & Hu & Hf). assert (Hc : forall fr, fr ∈ all_refs (cleanup_expired_locked (t 0%nat) (inner s)) -> forever fr) by (intros fr H; by apply Hf, (cleanup_refs (t 0%nat))).
  apply memory_put_cases.
  - intros e. done.
  - intros r Hr. split; [done|]. intros fr E. by destruct (Hr fr).
  - intros data refs x fr _ _ E Hin. split; [done|]. intros fr' [= <-]. apply Hc, elem_of_all_refs. eauto.
  - intros data fr _ E. assert (Hfr : forever fr) by (rewrite Ht in E; by apply make_file_ref_forever in E).
    split; [|by intros fr' [= <-]]. split; [done|]. split; [done|]. cbn [inner fst]. intros fr' H. apply push_refs in H as [->|H]; auto.
Qed.

Lemma lasting_ready ts s : memory_sound s -> lasting s -> ready no_disk ts s.
Proof.
  intros Hs Hl. split; [done|]. intros s1 t b s2 fr Hp Ht E. assert (H1 : lasting s1).
  { clear E Ht. induction Hp as [|x y z (t' & b' & _ & ->) _ IH]; [done|]. apply IH; [by apply memory_put_sound|by apply lasting_put]. }
  destruct (lasting_put t b s1 H1) as [_ Hfr]. change (put t no_disk s1 b) with (memory_put t no_disk s1 b default_options) in E.
  rewrite E in Hfr. specialize (Hfr fr eq_refl). intros t' i _. unfold is_expired_at. by rewrite Hfr.
Qed.

#[local] Instance sample_b64 : Base64 := fun s => Some s.
#[local] Instance sample_file_serde : Serde := {| serde_text := sample_text; file_ref_from := value_ref; file_ref_to := ref_value |}.

Definition no_store : InMemoryArtefactStore := mkMemory ∅ (mkLimits None None None None).
Definition step_output : Value :=
  Object [(lit "file_refs", Array [Object [(lit "inline_b64", Str (lit "abc"))]; Str (lit "x")]); (lit "context", Object [(lit "file_refs", Array [Object [(lit "path", Str (lit "/p"))]])])].
Definition step_uploads : InMemoryArtefactStore * option Value := maybe_upload_inline_refs no_disk (lit "job") [at_second 1; at_second 2] [at_second 3] no_store step_output.

Lemma no_store_ready ts : ready no_disk ts no_store.
Proof. apply lasting_ready; [split; [done|]; by intros u refs b|]. split; [done|]. split; [done|]. by intros fr (u & refs & b & H & _)%elem_of_all_refs. Qed.

Lemma step_uploads_done : step_uploads = (step_uploads.1, Some (default Null step_uploads.2)).
Proof. vm_cast_no_check (eq_refl step_uploads). Qed.

End Samples.
