(* ===== verification/WorkflowRun.v ===== *)
(** The workflow executor, [dcc-mcp-workflow/src/executor/]: the driver of each kind of
    step, the policy wrapper, and the interleaving of parallel branches.

    A driver is a program: a finite tree of atomic actions on the state its clones
    share, in continuation-passing style, with a node for the branches it spawns.  An
    action is what the code does between two points where another task or the outside
    can act; its input says what the awaited future yielded.  [pstep] runs one action
    of one task, [exec] a schedule of such actions and of outside events.

    [jsonpath_rust] is the parameter [jsonpath]; the artefact store and the SQLite
    storage are not configured.  A tool is what its calls return. *)

From S2P Require Import Prelude Json WorkflowSpec WorkflowContext WorkflowStores.

Local Open Scope Z_scope.

(** ** Outcomes and events *)

(** The text of a failure: the arguments of its [format!]. *)
Inductive Failure : Type :=
| TemplateFailed (e : TemplateError)
| KeyTemplateFailed (e : TemplateError)
| CallFailed (e : str)
| ForeachItems (e : str)
| ForeachIteration (i : nat)
| ForeachUnexpected (s : WorkflowStatus)
| BranchOn (e : str)
| BranchBody
| BranchUnexpected (s : WorkflowStatus)
| ParallelFailed
| ApprovalDenied (r : str).

Inductive StepOutcome : Type :=
| StepOk
| StepCancelled
| StepFailed (e : Failure).

(** The [detail] of an update. *)
Inductive Detail : Type :=
| WorkflowStarted
| WorkflowResumed (preloaded_count : nat) (force_steps : list str)
| WorkflowTerminal
| StepSkippedResume (id : str)
| StepEnter (id : str)
| StepExit (id : str) (status : WorkflowStatus) (error : option Failure)
| ApproveRequested (id : str) (prompt : Value).

Inductive Event : Type :=
| Update (status : WorkflowStatus) (current : option str) (detail : Detail) (completed total : Z)
| CallStarted (step : str) (dcc : option str) (tool : str) (args : Value).

Section Executor.
Context {SD : Serde} {HO : HashOrder StepOutput}.

(** ** State *)

(** What the clones of [RunState] share, the flag of the root token, and the clock. *)
Record RunState : Type := mkRun {
  context : WorkflowContext;
  idempotency : IdempotencyCache;
  gate : ApprovalGate;
  cancelled : bool;
  completed : Z;
  outputs_snapshot : gmap str Value;
  events : list Event;
  clock : Z;
}.

(** What no step changes. *)
Record RunConfig : Type := mkConfig {
  workflow_id : str;
  root_job_id : str;
  total_steps : Z;
  preloaded_steps : gset str;
  default_approve_timeout : option Z;
}.

Definition on_context (f : WorkflowContext -> WorkflowContext) (s : RunState) : RunState :=
  mkRun (f (context s)) (idempotency s) (gate s) (cancelled s) (completed s) (outputs_snapshot s) (events s) (clock s).
Definition on_idempotency (f : IdempotencyCache -> IdempotencyCache) (s : RunState) : RunState :=
  mkRun (context s) (f (idempotency s)) (gate s) (cancelled s) (completed s) (outputs_snapshot s) (events s) (clock s).
Definition on_gate (f : ApprovalGate -> ApprovalGate) (s : RunState) : RunState :=
  mkRun (context s) (idempotency s) (f (gate s)) (cancelled s) (completed s) (outputs_snapshot s) (events s) (clock s).
Definition log_event (e : Event) (s : RunState) : RunState :=
  mkRun (context s) (idempotency s) (gate s) (cancelled s) (completed s) (outputs_snapshot s) (events s ++ [e]) (clock s).
Definition inc_completed (s : RunState) : RunState :=
  mkRun (context s) (idempotency s) (gate s) (cancelled s) ((completed s + 1) mod 2 ^ 32) (outputs_snapshot s)
    (events s) (clock s).
Definition record_output_snapshot (id : str) (v : Value) (s : RunState) : RunState :=
  mkRun (context s) (idempotency s) (gate s) (cancelled s) (completed s) (<[id := v]> (outputs_snapshot s))
    (events s) (clock s).
Definition set_cancelled (s : RunState) : RunState :=
  mkRun (context s) (idempotency s) (gate s) true (completed s) (outputs_snapshot s) (events s) (clock s).
Definition set_clock (now : Z) (s : RunState) : RunState :=
  mkRun (context s) (idempotency s) (gate s) (cancelled s) (completed s) (outputs_snapshot s) (events s) now.

(** ** Programs *)

(** What the awaited future yielded. *)
Inductive Input : Type :=
| Go
| Returned (r : result str Value)
| Elapsed.

Inductive prog : Type :=
| Ret (s : WorkflowStatus)
| Act (f : Input -> RunState -> option (RunState * prog))
| Par (branches : list prog) (k : list WorkflowStatus -> prog).

(** An action that is always possible: change the state, go on according to what it was. *)
Definition change (f : RunState -> RunState) (g : RunState -> prog) : prog :=
  Act (fun i st => match i with Go => Some (f st, g st) | _ => None end).
Definition act (f : RunState -> RunState) (p : prog) : prog := change f (fun _ => p).
Definition look (g : RunState -> prog) : prog := change (fun st => st) g.

Context (cfg : RunConfig) (jsonpath : str -> Value -> result str (list Value)).

Definition emit (status : WorkflowStatus) (current : option str) (d : Detail) (s : RunState) : RunState :=
  log_event (Update status current d (completed s) (total_steps cfg)) s.

(** ** Helpers, [helpers.rs] and [output.rs] *)

Definition eval_jsonpath (expr : str) (root : Value) : result str Value :=
  match jsonpath expr root with
  | Err e => Err e
  | Ok [] => Ok Null
  | Ok [v] => Ok v
  | Ok vs => Ok (Array vs)
  end.

Definition f64_is_zero (x : SpecFloat.spec_float) : bool :=
  match x with SpecFloat.S754_zero _ => true | _ => false end.

Definition is_truthy (v : Value) : bool :=
  match v with
  | Null => false
  | Bool b => b
  | Num _ => match as_f64 v with Some x => negb (f64_is_zero x) | None => false end
  | Str s => negb (bool_decide (s = []))
  | Array l => match l with [] => false | _ => true end
  | Object m => match m with [] => false | _ => true end
  end.

Definition classify_error (e : str) : str :=
  if contains (lit "timeout") e then lit "timeout"
  else if contains (lit "transient") e then lit "transient"
  else lit "error".

Definition with_producer (fr : FileRef) : FileRef :=
  match producer_job_id fr with
  | None => mkFileRef (uri fr) (mime fr) (size_bytes fr) (display_name fr) (digest fr) (Some (root_job_id cfg))
      (tool_call_id fr) (session_id fr) (correlation_id fr) (created_at fr) (expires_at fr) (metadata fr)
  | Some _ => fr
  end.

Definition ingest_output (v : Value) : StepOutput :=
  let o := from_value v in mkOutput (output o) (map with_producer (file_refs o)).

(** Record a step's output in the context, then in the snapshot. *)
Definition record_output (id : str) (o : StepOutput) (p : prog) : prog :=
  act (on_context (record_step id o)) (act (record_output_snapshot id (output o)) p).

(** ** The policy wrapper, [policy_wrapper.rs] *)

Definition attempts_allowed (s : Step) : nat :=
  Z.to_nat (Z.max (match retry (step_policy s) with Some r => max_attempts r | None => 1 end) 1).

Definition delay_before (s : Step) (attempt : Z) : Z :=
  match retry (step_policy s) with Some r => next_delay r attempt | None => 0 end.

Definition retryable (s : Step) (kind : str) : bool :=
  match retry (step_policy s) with Some r => is_retryable r kind | None => false end.

(** [ttl_secs] of the policy, and the store of a success. *)
Definition remember (s : Step) (key : option str) (o : StepOutput) (p : prog) : prog :=
  match key with
  | Some k =>
      act (fun st => on_idempotency
             (idem_put (idempotency_scope (step_policy s)) (workflow_id cfg) k (output o)
                (idempotency_ttl_secs (step_policy s)) (clock st)) st) p
  | None => p
  end.

(** The poll that starts a call, unless the run is cancelled by then. *)
Definition start_call (s : Step) (dcc : option str) (tool : str) (args : Value) (wait : prog)
    (k : StepOutcome -> prog) : prog :=
  Act (fun i st =>
    match i with
    | Go => if cancelled st then Some (st, k StepCancelled)
            else Some (log_event (CallStarted (step_id s) dcc tool args) st, wait)
    | _ => None
    end).

(** A future that cancellation interrupts: cancellation has precedence at every poll. *)
Definition select (stop : RunState -> RunState * prog) (f : Input -> RunState -> option (RunState * prog)) : prog :=
  Act (fun i st => if cancelled st then match i with Go => Some (stop st) | _ => None end else f i st).

(** The pending call: [again e] goes on after the error [e] that the policy retries,
    [k] ends the step. *)
Definition await_call (s : Step) (key : option str) (again : str -> prog) (k : StepOutcome -> prog) : prog :=
  select (fun st => (st, k StepCancelled))
    (fun i st =>
      match i with
      | Returned (Ok v) =>
          let o := ingest_output v in
          Some (st, record_output (step_id s) o (remember s key o (k StepOk)))
      | Returned (Err e) =>
          Some (st, if retryable s (classify_error e) then again e else k (StepFailed (CallFailed e)))
      | Elapsed =>
          match timeout (step_policy s) with
          | Some _ =>
              Some (st, if retryable s (lit "timeout") then again (lit "timeout")
                        else k (StepFailed (CallFailed (lit "timeout"))))
          | None => None
          end
      | Go => None
      end).

Definition attempt (s : Step) (dcc : option str) (tool : str) (args : Value) (key : option str)
    (again : str -> prog) (k : StepOutcome -> prog) : prog :=
  start_call s dcc tool args (await_call s key again k) k.

(** The delay before an attempt. *)
Definition pause (d : Z) (p : prog) (k : StepOutcome -> prog) : prog :=
  if 0 <? d then
    select (fun st => (st, k StepCancelled))
      (fun i st => match i with Elapsed => Some (st, p) | _ => None end)
  else p.

(** The retry loop: [remaining] attempts are left, the next one is number [n]. *)
Fixpoint attempts (s : Step) (dcc : option str) (tool : str) (args : Value) (key : option str)
    (remaining : nat) (n : Z) (last_err : option str) (k : StepOutcome -> prog) : prog :=
  match remaining with
  | O => k (StepFailed (CallFailed (default (lit "unknown") last_err)))
  | S remaining =>
      look (fun st =>
        if cancelled st then k StepCancelled
        else
          pause (if 1 <? n then delay_before s n else 0)
            (attempt s dcc tool args key (fun e => attempts s dcc tool args key remaining (n + 1) (Some e) k) k) k)
  end.

(** [run_with_policy]: render, look the key up, call. *)
Definition run_with_policy (s : Step) (dcc : option str) (tool : str) (raw_args : Value)
    (k : StepOutcome -> prog) : prog :=
  look (fun st =>
    match render raw_args (context st) with
    | Err e => k (StepFailed (TemplateFailed e))
    | Ok args =>
        match idempotency_key (step_policy s) with
        | None => attempts s dcc tool args None (attempts_allowed s) 1 None k
        | Some tpl =>
            look (fun st =>
              match render (Str tpl) (context st) with
              | Err e => k (StepFailed (KeyTemplateFailed e))
              | Ok rendered =>
                  let key := match rendered with Str t => t | other => json_to_string other end in
                  look (fun st =>
                    match idem_get (idempotency_scope (step_policy s)) (workflow_id cfg) key (clock st) (idempotency st) with
                    | Some cached => record_output (step_id s) (ingest_output cached) (k StepOk)
                    | None => attempts s dcc tool args (Some key) (attempts_allowed s) 1 None k
                    end)
              end)
        end
    end).

(** ** Approval, [run_approve] *)

Definition render_or_null (v : Value) (c : WorkflowContext) : Value :=
  match render v c with Ok v => v | Err _ => Null end.

Definition response_json (r : ApprovalResponse) : Value :=
  Object [(lit "approved", Bool (approved r));
          (lit "reason", match reason r with Some t => Str t | None => Null end)].

Definition finish_approve (id : str) (r : ApprovalResponse) (k : StepOutcome -> prog) : prog :=
  record_output id (from_value (response_json r))
    (k (if approved r then StepOk else StepFailed (ApprovalDenied (default (lit "unspecified") (reason r))))).

Definition await_approval (s : Step) (waiter : nat) (k : StepOutcome -> prog) : prog :=
  let key := (workflow_id cfg, step_id s) in
  let deadline := match timeout (step_policy s) with Some d => Some d | None => default_approve_timeout cfg end in
  select (fun st => (on_gate (gate_discard key) st, k StepCancelled))
    (fun i st =>
      match i with
      | Elapsed =>
          match deadline with
          | Some _ => Some (on_gate (gate_discard key) st, finish_approve (step_id s) response_timeout k)
          | None => None
          end
      | Go =>
          match channels (gate st) !! waiter with
          | Some (Some r) => Some (st, finish_approve (step_id s) r k)
          | Some None => Some (st, finish_approve (step_id s) response_cancelled k)
          | None => None
          end
      | Returned _ => None
      end).

Definition run_approve (s : Step) (prompt : str) (k : StepOutcome -> prog) : prog :=
  let key := (workflow_id cfg, step_id s) in
  look (fun st =>
    let rendered := render_or_null (Str prompt) (context st) in
    change (on_gate (fun g => fst (wait_handle key g)))
      (fun st => act (emit Running (Some (step_id s)) (ApproveRequested (step_id s) rendered))
                   (await_approval s (snd (wait_handle key (gate st))) k))).

(** ** Steps *)

Definition status_str (s : WorkflowStatus) : str :=
  lit (match s with
       | Pending => "pending" | Running => "running" | Completed => "completed"
       | Failed => "failed" | Cancelled => "cancelled" | Interrupted => "interrupted"
       end)%string.

Definition items_of (v : Value) : list Value :=
  match v with Array l => l | Null => [] | other => [other] end.

(** The outputs recorded so far, as the object of one iteration. *)
Definition iteration_snapshot (st : RunState) : Value :=
  Object (map (fun so => (fst so, output (snd so))) (hash_order (steps (context st)))).

(** The loop of [run_foreach]: [body] drives the child steps. *)
Fixpoint iterate (id name : str) (body : (WorkflowStatus -> prog) -> prog) (items : list Value) (i : nat)
    (agg : list Value) (k : StepOutcome -> prog) : prog :=
  match items with
  | [] =>
      let out := Object [(lit "iterations", Array agg)] in
      record_output id (from_value out) (k StepOk)
  | item :: items =>
      look (fun st =>
        if cancelled st then k StepCancelled
        else
          act (on_context (push_item name item))
            (body (fun status =>
               let pop p := act (on_context (drop_item name)) p in
               match status with
               | Completed =>
                   look (fun st => let snap := iteration_snapshot st in
                     pop (iterate id name body items (S i) (agg ++ [snap]) k))
               | Cancelled => pop (k StepCancelled)
               | Failed => pop (k (StepFailed (ForeachIteration i)))
               | other => pop (k (StepFailed (ForeachUnexpected other)))
               end)))
  end.

Definition is_status (s t : WorkflowStatus) : bool := bool_decide (s = t).

(** [run_parallel] once every branch has ended. *)
Definition join_branches (id : str) (k : StepOutcome -> prog) (results : list WorkflowStatus) : prog :=
  let out := Object [(lit "branch_results", Array (map (fun s => Str (status_str s)) results))] in
  record_output id (from_value out)
    (k (if existsb (is_status Cancelled) results then StepCancelled
        else if existsb (is_status Failed) results then StepFailed ParallelFailed
        else StepOk)).

(** [run_step] around the driver of the step's kind: what follows its outcome. *)
Definition leave_step (id : str) (k : StepOutcome -> prog) (o : StepOutcome) : prog :=
  match o with
  | StepOk => act inc_completed (act (emit Running (Some id) (StepExit id Completed None)) (k o))
  | StepCancelled => act (emit Cancelled (Some id) (StepExit id Cancelled None)) (k o)
  | StepFailed e => act (emit Failed (Some id) (StepExit id Failed (Some e))) (k o)
  end.

Definition branch_outcome (k : StepOutcome -> prog) (status : WorkflowStatus) : prog :=
  k (match status with
     | Completed => StepOk
     | Cancelled => StepCancelled
     | Failed => StepFailed BranchBody
     | other => StepFailed (BranchUnexpected other)
     end).

Definition next_step (rest : prog) (k : WorkflowStatus -> prog) (o : StepOutcome) : prog :=
  match o with
  | StepOk => rest
  | StepCancelled => k Cancelled
  | StepFailed _ => k Failed
  end.

Section Drive.
Context (run_one : Step -> (StepOutcome -> prog) -> prog).

(** [drive]. *)
Fixpoint drive_with (steps : list Step) (k : WorkflowStatus -> prog) : prog :=
  match steps with
  | [] => k Completed
  | s :: steps =>
      look (fun st =>
        if cancelled st then k Cancelled
        else run_one s (next_step (drive_with steps k) k))
  end.

(** The tasks [run_parallel] spawns, each driving one step. *)
Definition spawn_with (steps : list Step) : list prog := map (fun s => drive_with [s] Ret) steps.

Definition run_tool_step (s : Step) (tool : str) (args : Value) (k : StepOutcome -> prog) : prog :=
  run_with_policy s None tool args k.

Definition run_remote_step (s : Step) (dcc tool : str) (args : Value) (k : StepOutcome -> prog) : prog :=
  run_with_policy s (Some dcc) tool args k.

Definition run_foreach (id items name : str) (body : list Step) (k : StepOutcome -> prog) : prog :=
  look (fun st =>
    match eval_jsonpath items (as_json (context st)) with
    | Err e => k (StepFailed (ForeachItems e))
    | Ok v => iterate id name (drive_with body) (items_of v) 0 [] k
    end).

Definition run_parallel (id : str) (body : list Step) (k : StepOutcome -> prog) : prog :=
  Par (spawn_with body) (join_branches id k).

Definition run_branch (id on : str) (then_ else_ : list Step) (k : StepOutcome -> prog) : prog :=
  look (fun st =>
    match eval_jsonpath on (as_json (context st)) with
    | Err e => k (StepFailed (BranchOn e))
    | Ok v =>
        let out := Object [(lit "condition", v);
                           (lit "taken", Str (lit (if is_truthy v then "then" else "else")%string))] in
        record_output id (from_value out)
          (drive_with (if is_truthy v then then_ else else_) (branch_outcome k))
    end).

(** The driver of each kind of step. *)
Definition run_kind_with (s : Step) (kind : StepKind) (k : StepOutcome -> prog) : prog :=
  match kind with
  | Tool tool args => run_tool_step s tool args k
  | ToolRemote dcc tool args => run_remote_step s dcc tool args k
  | Foreach items name body => run_foreach (step_id s) items name body k
  | Parallel body => run_parallel (step_id s) body k
  | Approve prompt => run_approve s prompt k
  | Branch on then_ else_ => run_branch (step_id s) on then_ else_ k
  end.
End Drive.

Fixpoint run_step (s : Step) (k : StepOutcome -> prog) : prog :=
  match s with
  | mkStep id kind _ =>
      look (fun st =>
        if cancelled st then k StepCancelled
        else if bool_decide (id ∈ preloaded_steps cfg) then
          act (emit Running (Some id) (StepSkippedResume id)) (act inc_completed (k StepOk))
        else
          act (emit Running (Some id) (StepEnter id)) (run_kind_with run_step s kind (leave_step id k)))
  end.

Definition drive : list Step -> (WorkflowStatus -> prog) -> prog := drive_with run_step.

(** ** Interleaving *)

Definition returned (b : prog) : option WorkflowStatus := match b with Ret s => Some s | _ => None end.

(** One action of the task at [path], the branch numbers from the root; the join of
    branches that have all ended is an action of their parent. *)
Fixpoint pstep (path : list nat) (i : Input) (p : prog) (st : RunState) : option (RunState * prog) :=
  match path, p with
  | [], Act f => f i st
  | [], Par bs k => match i with Go => (fun rs => (st, k rs)) <$> mapM returned bs | _ => None end
  | n :: path, Par bs k =>
      b ← bs !! n;
      '(st', b') ← pstep path i b st;
      Some (st', Par (<[n := b']> bs) k)
  | _, _ => None
  end.

(** What happens next: an action of the run, or of the outside. *)
Inductive choice : Type :=
| Run (path : list nat) (i : Input)
| Cancel
| Respond (wf step : str) (r : ApprovalResponse)
| ClockTo (now : Z)
| ForeignPut (scope : IdempotencyScope) (wf key : str) (v : Value) (ttl : option Z).

Definition exec1 (c : choice) (x : RunState * prog) : option (RunState * prog) :=
  let (st, p) := x in
  match c with
  | Run path i => pstep path i p st
  | Cancel => Some (set_cancelled st, p)
  | Respond wf step r => Some (on_gate (fun g => fst (gate_resolve (wf, step) r true g)) st, p)
  | ClockTo now => if clock st <=? now then Some (set_clock now st, p) else None
  | ForeignPut scope wf key v ttl => Some (on_idempotency (idem_put scope wf key v ttl (clock st)) st, p)
  end.

Fixpoint exec (l : list choice) (x : RunState * prog) : option (RunState * prog) :=
  match l with
  | [] => Some x
  | c :: l => x' ← exec1 c x; exec l x'
  end.

(** The task [run] and [resume] spawn. *)
Definition run_prog (steps : list Step) : prog :=
  drive steps (fun terminal => act (emit terminal None WorkflowTerminal) (Ret terminal)).

End Executor.

(** ** Starting and resuming *)

Section Start.
Context {SD : Serde} {HO : HashOrder StepOutput}.
Context (parse_json_path : str -> option str) (jsonpath : str -> Value -> result str (list Value)).

(** [count_steps]; the sum wraps at 32 bits. *)
Fixpoint count_step (s : Step) : Z :=
  match s with
  | mkStep _ kind _ =>
      1 + (let sum := fix sum (steps : list Step) : Z :=
             match steps with [] => 0 | s :: steps => count_step s + sum steps end in
           match kind with
           | Foreach _ _ steps | Parallel steps => sum steps
           | Branch _ then_ else_ => sum then_ + sum else_
           | _ => 0
           end)
  end.

Definition count_steps (spec : WorkflowSpec) : Z :=
  foldr (fun s n => count_step s + n) 0 (spec_steps spec) mod 2 ^ 32.

Definition initial_state (cache : IdempotencyCache) (now : Z) (c : WorkflowContext) (snapshot : gmap str Value) : RunState :=
  mkRun c cache gate_new false 0 snapshot [] now.

(** [WorkflowExecutor::run]. *)
Definition run (spec : WorkflowSpec) (inputs : Value) (wf job : str) (cache : IdempotencyCache) (now : Z)
    (approve_timeout : option Z) : result ValidationError (RunState * prog) :=
  let? _ := validate parse_json_path spec in
  let cfg := mkConfig wf job (count_steps spec) ∅ approve_timeout in
  Ok (emit cfg Pending None WorkflowStarted (initial_state cache now (WorkflowContext.context_new inputs) ∅),
      run_prog cfg jsonpath (spec_steps spec)).

(** ** Resume, [resume.rs] *)

Record ResumeSnapshot : Type := mkSnapshot {
  snap_status : WorkflowStatus;
  snap_spec : option WorkflowSpec;
  snap_inputs : Value;
  completed_steps : list (str * Value);
}.

Record ResumeOptions : Type := mkOptions {
  force_steps : list str;
  expected_spec_hash : option str;
  strict : bool;
}.

Inductive WorkflowResumeError : Type :=
| NotResumable (wf : str) (status : WorkflowStatus)
| SpecChanged (wf expected actual : str)
| CorruptSpec (wf : str)
| Validation (e : ValidationError) (wf : str).

Definition ensure_resumable (wf : str) (snap : ResumeSnapshot) (has_force_steps : bool) : result WorkflowResumeError unit :=
  match snap_status snap with
  | Failed | Interrupted | Pending => Ok tt
  | Completed => if has_force_steps then Ok tt else Err (NotResumable wf Completed)
  | other => Err (NotResumable wf other)
  end.

Context (compute_spec_hash : WorkflowSpec -> str).

Definition check_spec_hash (wf : str) (spec : WorkflowSpec) (opts : ResumeOptions) : result WorkflowResumeError unit :=
  match expected_spec_hash opts with
  | None => Ok tt
  | Some expected =>
      let actual := compute_spec_hash spec in
      if bool_decide (actual = expected) then Ok tt
      else if strict opts then Err (SpecChanged wf expected actual) else Ok tt
  end.

(** The context rebuilt from the completed steps that are not forced. *)
Definition resumed_context (opts : ResumeOptions) (snap : ResumeSnapshot) : WorkflowContext :=
  foldl (fun c so => if bool_decide (fst so ∈ force_steps opts) then c else record_step (fst so) (from_value (snd so)) c)
    (WorkflowContext.context_new (snap_inputs snap)) (completed_steps snap).

Definition preloaded (opts : ResumeOptions) (snap : ResumeSnapshot) : gset str :=
  list_to_set (base.filter (fun id => id ∉ force_steps opts) (map fst (completed_steps snap))).

Definition resume (wf job : str) (opts : ResumeOptions) (snap : ResumeSnapshot) (cache : IdempotencyCache) (now : Z)
    (approve_timeout : option Z) : result WorkflowResumeError (RunState * prog) :=
  let? _ := ensure_resumable wf snap (negb (bool_decide (force_steps opts = []))) in
  match snap_spec snap with
  | None => Err (CorruptSpec wf)
  | Some spec =>
      let? _ := map_err (fun e => Validation e wf) (validate parse_json_path spec) in
      let? _ := check_spec_hash wf spec opts in
      let pre := preloaded opts snap in
      let cfg := mkConfig wf job (count_steps spec) pre approve_timeout in
      Ok (emit cfg Pending None (WorkflowResumed (size pre) (force_steps opts))
            (initial_state cache now (resumed_context opts snap) (list_to_map (reverse (completed_steps snap)))),
          run_prog cfg jsonpath (spec_steps spec))
  end.

End Start.

(** ** A sample run *)

Section Sample.
Local Existing Instance sample_serde.

(** A JSONPath evaluator for top-level keys. *)
Definition key_jsonpath (expr : str) (root : Value) : result str (list Value) :=
  match get_key expr root with Some v => Ok [v] | None => Ok [] end.

Definition retry_twice : StepPolicy :=
  mkStepPolicy (Some 1000000000) (Some (mkRetry 2 Fixed 0 0 f32_zero None)) None ScopeWorkflow None.

(** A tool that is retried once, then two parallel branches. *)
Definition sample_spec : WorkflowSpec :=
  mkSpec (Object [(lit "rows", Array [Bool true; Null])])
    [mkStep (lit "fetch") (Tool (lit "scene__fetch") (Str (lit "{{inputs.rows[0]}}"))) retry_twice;
     mkStep (lit "both")
       (Parallel [mkStep (lit "left") (Tool (lit "scene__left") Null) default_step_policy;
                  mkStep (lit "ask") (Approve (lit "ok?")) default_step_policy]) default_step_policy].

Definition go (n : nat) : list choice := repeat (Run [] Go) n.
Definition go_at (path : list nat) (n : nat) : list choice := repeat (Run path Go) n.

Definition sample_start : result ValidationError (RunState * prog) :=
  run (fun _ => None) key_jsonpath sample_spec (spec_inputs sample_spec) (lit "w") (lit "j") ∅ 0 None.

(** A call that fails once, both branches to their end, the join. *)
Definition fetch_schedule : list choice :=
  (go 6 ++ [Run [] (Returned (Err (lit "transient")))] ++ go 2 ++ [Run [] (Returned (Ok Null))] ++ go 7)%list.
Definition left_schedule : list choice :=
  (go_at [0%nat] 6 ++ [Run [0%nat] (Returned (Ok Null))] ++ go_at [0%nat] 4)%list.
Definition ask_schedule : list choice :=
  (go_at [1%nat] 6 ++ [Respond (lit "w") (lit "ask") (mkResponse true None)] ++ go_at [1%nat] 5)%list.
Definition full_schedule : list choice := (fetch_schedule ++ left_schedule ++ ask_schedule ++ go 6)%list.

Example sample_completes :
  match sample_start with
  | Ok x => (fun x => returned (snd x)) <$> exec full_schedule x = Some (Some Completed)
  | Err _ => False
  end.
Proof. by vm_compute. Qed.

(** Both answers denied: the join reports the failure, and the run fails. *)
Example sample_denied :
  match sample_start with
  | Ok x =>
      (fun x => returned (snd x))
      <$> exec (fetch_schedule ++ go_at [1%nat] 6 ++ [Respond (lit "w") (lit "ask") (mkResponse false None)]
                  ++ go_at [1%nat] 4 ++ left_schedule ++ go 5)%list x = Some (Some Failed)
  | Err _ => False
  end.
Proof. by vm_compute. Qed.

End Sample.
