(* ===== verification/WorkflowRunProps.v ===== *)
(** Theory of the executor's programs ([WorkflowRun.v]) - induction over their trees, the
    well-foundedness of their interleaved actions, what the drivers of all kinds of steps
    are closed under - and theorems on runs: termination under every schedule,
    cancellation, and the calls a resumed run makes. *)

From S2P Require Import Prelude Json WorkflowSpec WorkflowSpecProps WorkflowContext WorkflowStores WorkflowRun.

Local Open Scope Z_scope.

(** ** Induction *)

(** The continuations of an action. *)
Definition follows (f : Input -> RunState -> option (RunState * prog)) (p : prog) : Prop :=
  exists i st st', f i st = Some (st', p).

Section ProgInd.
Context (P : prog -> Prop).
Context (HRet : forall s, P (Ret s)).
Context (HAct : forall f, (forall p, follows f p -> P p) -> P (Act f)).
Context (HPar : forall bs k, Forall P bs -> (forall l, P (k l)) -> P (Par bs k)).

Fixpoint prog_rect' (p : prog) : P p :=
  match p with
  | Ret s => HRet s
  | Act f =>
      HAct f (fun p' H =>
        match H with
        | ex_intro _ i (ex_intro _ st (ex_intro _ st' E)) =>
            (match f i st as o return o = Some (st', p') -> P p' with
             | Some (st2, p2) => fun E => eq_ind p2 P (prog_rect' p2) p' (f_equal (fun o => match o with Some (_, q) => q | None => p2 end) E)
             | None => fun E => match eq_ind None (fun o => match o with None => True | Some _ => False end) I _ E with end
             end) E
        end)
  | Par bs k =>
      HPar bs k
        ((fix all (bs : list prog) : Forall P bs :=
            match bs with [] => Forall_nil_2 P | b :: bs => Forall_cons_2 P b bs (prog_rect' b) (all bs) end) bs)
        (fun l => prog_rect' (k l))
  end.
End ProgInd.

Lemma prog_ind' (P : prog -> Prop) :
  (forall s, P (Ret s)) -> (forall f, (forall p, follows f p -> P p) -> P (Act f)) ->
  (forall bs k, Forall P bs -> (forall l, P (k l)) -> P (Par bs k)) -> forall p, P p.
Proof. intros. by apply prog_rect'. Qed.

(** ** Termination *)

(** [p'] is what one action of some task makes of [p]. *)
Definition next (p' p : prog) : Prop := exists path i st st', pstep path i p st = Some (st', p').

(** One branch moves. *)
Definition next_branch (bs' bs : list prog) : Prop :=
  exists n b b', bs !! n = Some b /\ next b' b /\ bs' = <[n := b']> bs.

Lemma next_branches_acc bs : Forall (Acc next) bs -> Acc next_branch bs.
Proof.
  induction 1 as [|b bs Hb Hbs IH]; [constructor; intros bs' (n & b & b' & Hn & _); by rewrite lookup_nil in Hn|].
  clear Hbs. revert bs IH. induction Hb as [b _ IHb]. intros bs IH.
  induction IH as [bs Hbs IHbs].
  constructor. intros bs' ([|n] & b0 & b' & Hn & Hnext & ->); simpl in *.
  - simplify_eq. apply IHb; [done|]. by constructor.
  - apply IHbs. by exists n, b0, b'.
Qed.

Lemma next_wf p : Acc next p.
Proof.
  induction p as [s|f IH|bs k IHbs IHk] using prog_ind'.
  - constructor. intros p' (path & i & st & st' & H). by destruct path.
  - constructor. intros p' (path & i & st & st' & H). destruct path as [|n path]; [|done].
    apply IH. by exists i, st, st'.
  - apply next_branches_acc in IHbs. induction IHbs as [bs _ IHbs].
    constructor. intros p' (path & i & st & st' & H). destruct path as [|n path]; simpl in H.
    + destruct i; [|discriminate H..]. destruct (mapM returned bs) as [rs|]; [|done]. simpl in H. simplify_eq. apply IHk.
    + destruct (bs !! n) as [b|] eqn:Hn; [|done]. simpl in H.
      destruct (pstep path i b st) as [[st1 b']|] eqn:Hb; [|done]. simpl in H. simplify_eq.
      apply IHbs. exists n, b, b'. split; [done|]. split; [|done]. by exists path, i, st, st'.
Qed.

(** ** Predicates on the actions of a program *)

Section Always.
Context (A : (Input -> RunState -> option (RunState * prog)) -> Prop).

(** Every action the program can ever perform satisfies [A]. *)
Inductive always : prog -> Prop :=
| always_ret s : always (Ret s)
| always_act f : A f -> (forall p, follows f p -> always p) -> always (Act f)
| always_par bs k : Forall always bs -> (forall l, always (k l)) -> always (Par bs k).

(** The relation one action makes between states, and what holds along a run. *)
Context (R : RunState -> RunState -> Prop).
Context (HA : forall f i st st' p, A f -> f i st = Some (st', p) -> R st st') (Hrefl : forall st, R st st).

Lemma always_step path : forall i p st st' p',
  always p -> pstep path i p st = Some (st', p') -> R st st' /\ always p'.
Proof.
  induction path as [|n path IH]; intros i p st st' p' Hp H.
  - destruct Hp as [s|f Hf Hk|bs k Hbs Hk]; simpl in H; [done|..].
    + split; [by eapply HA|]. apply Hk. by exists i, st, st'.
    + destruct i; [|discriminate H..]. destruct (mapM returned bs); [|done]. simpl in H. simplify_eq. by split.
  - destruct Hp as [s|f Hf Hk|bs k Hbs Hk]; simpl in H; try done.
    destruct (bs !! n) as [b|] eqn:Hn; [|done]. simpl in H.
    destruct (pstep path i b st) as [[st1 b']|] eqn:Hb; [|done]. simpl in H. simplify_eq.
    destruct (IH i b st st' b') as [HR Hb']; [by eapply Forall_lookup_1|done|].
    split; [done|]. constructor; [|done]. by apply Forall_insert.
Qed.
End Always.

(** A program whose actions are all enabled in some state can move unless it ended. *)
Lemma always_enabled (A : (Input -> RunState -> option (RunState * prog)) -> Prop) st :
  (forall f, A f -> exists st' p, f Go st = Some (st', p)) ->
  forall p, always A p -> (exists s, p = Ret s) \/ exists path st' p', pstep path Go p st = Some (st', p').
Proof.
  intros HA. induction p as [s|f IH|bs k IHbs IHk] using prog_ind'; intros Hp.
  - left. by eexists.
  - right. inversion Hp as [|f' Hf Hk|]; subst. destruct (HA f Hf) as (st' & p & H). by exists [], st', p.
  - right. inversion Hp as [| |bs' k' Hbs Hk]; subst.
    assert (Hcase : (exists rs, mapM returned bs = Some rs) \/
      exists n b path st' b', bs !! n = Some b /\ pstep path Go b st = Some (st', b')).
    { clear IHk Hk Hp. induction IHbs as [|b bs Hb IHbs IH]; [left; by exists []|].
      apply Forall_cons in Hbs as [Hb0 Hbs]. destruct (Hb Hb0) as [[s ->]|(path & st' & b' & H)].
      - destruct (IH Hbs) as [[rs Hrs]|(n & b & path & st' & b' & Hn & H)].
        + left. exists (s :: rs). simpl. by rewrite Hrs.
        + right. by exists (S n), b, path, st', b'.
      - right. by exists 0%nat, b, path, st', b'. }
    destruct Hcase as [[rs Hrs]|(n & b & path & st' & b' & Hn & H)].
    + exists [], st, (k rs). simpl. by rewrite Hrs.
    + exists (n :: path), st', (Par (<[n := b']> bs) k). simpl. rewrite Hn. simpl. by rewrite H.
Qed.

(** ** What the drivers are closed under *)

(** The calls an event list starts. *)
Definition is_call (e : Event) : bool := match e with CallStarted _ _ _ _ => true | Update _ _ _ _ _ => false end.

(** A change of state that starts no call and does not touch the cancellation flag. *)
Definition quiet_step (st st' : RunState) : Prop :=
  cancelled st' = cancelled st /\
  exists evs, events st' = events st ++ evs /\ Forall (fun e => is_call e = false) evs.

Definition quiet (f : RunState -> RunState) : Prop := forall st, quiet_step st (f st).

Lemma quiet_id st : quiet_step st st.
Proof. split; [done|]. exists []. by rewrite app_nil_r. Qed.

Lemma quiet_same st st' : cancelled st' = cancelled st -> events st' = events st -> quiet_step st st'.
Proof. intros Hc He. split; [done|]. exists []. by rewrite app_nil_r. Qed.

Section Closure.
Context {SD : Serde} {HO : HashOrder StepOutput}.
Context (cfg : RunConfig) (jsonpath : str -> Value -> result str (list Value)).

Lemma quiet_context f : quiet (on_context f).
Proof. intros st. by apply quiet_same. Qed.
Lemma quiet_snapshot id v : quiet (record_output_snapshot id v).
Proof. intros st. by apply quiet_same. Qed.
Lemma quiet_completed : quiet inc_completed.
Proof. intros st. by apply quiet_same. Qed.
Lemma quiet_emit status id d : quiet (emit cfg status id d).
Proof. intros st. split; [done|]. eexists. split; [reflexivity|]. by repeat constructor. Qed.

Hint Resolve quiet_context quiet_snapshot quiet_completed quiet_emit : dcc.

(** A family of predicates with a budget, closed under the actions of the executor:
    [B] is what it demands of branches, a call of the step [s] costs [cost s], entering
    [s] pays for all its attempts, and only steps of [D] are entered. *)
Record closed (D : Step -> Prop) (cost : Step -> nat) (G : nat -> prog -> Prop) (B : prog -> Prop) : Prop := {
  c_mono n m p : (n <= m)%nat -> G n p -> G m p;
  c_change n f g : quiet f -> (forall st, G n (g st)) -> G n (change f g);
  c_select n stop f :
    (forall st, quiet_step st (fst (stop st)) /\ G n (snd (stop st))) ->
    (forall i st st' p, f i st = Some (st', p) -> quiet_step st st' /\ G n p) -> G n (select stop f);
  c_start n s dcc tool args wait k :
    D s -> G n wait -> G n (k StepCancelled) -> G (n + cost s)%nat (start_call s dcc tool args wait k);
  c_enter n s p : D s -> G (n + cost s * attempts_allowed s)%nat p ->
    G n (act (emit cfg Running (Some (step_id s)) (StepEnter (step_id s))) p);
  c_par n bs k : (forall b, b ∈ bs -> B b) -> (forall l, G n (k l)) -> G n (Par bs k);
}.

Section Drivers.
Context (D : Step -> Prop) (cost : Step -> nat).

Section One.
Context (G : nat -> prog -> Prop) (B : prog -> Prop) (C : closed D cost G B).

Lemma act_closed n f p : quiet f -> G n p -> G n (act f p).
Proof. intros Hf Hp. by apply (c_change _ _ _ _ C). Qed.

Lemma look_closed n g : (forall st, G n (g st)) -> G n (look g).
Proof. apply (c_change _ _ _ _ C). intros st. apply quiet_id. Qed.

Lemma record_output_closed n id o p : G n p -> G n (record_output id o p).
Proof. intros Hp. unfold record_output. by do 2 (apply act_closed; [auto with dcc|]). Qed.

(** *** The policy wrapper *)

Lemma remember_closed n s key o p : G n p -> G n (remember cfg s key o p).
Proof. intros Hp. destruct key; [|done]. apply act_closed; [intros st; by apply quiet_same|done]. Qed.

Lemma pause_closed n d p k : G n p -> G n (k StepCancelled) -> G n (pause d p k).
Proof.
  intros Hp Hk. unfold pause. destruct (0 <? d); [|done]. apply (c_select _ _ _ _ C).
  - intros st. split; [apply quiet_id|done].
  - intros [] st st' q H; simplify_eq. split; [apply quiet_id|done].
Qed.

Lemma attempt_closed n s dcc tool args key again k :
  D s -> (forall e, G n (again e)) -> (forall o, G n (k o)) ->
  G (n + cost s)%nat (attempt cfg s dcc tool args key again k).
Proof.
  intros HD Ha Hk. apply (c_start _ _ _ _ C); [done| |done]. apply (c_select _ _ _ _ C).
  - intros st. split; [apply quiet_id|apply Hk].
  - intros [|[v|e]|] st st' q H; cbv zeta in H; simplify_eq.
    + split; [apply quiet_id|]. by apply record_output_closed, remember_closed.
    + split; [apply quiet_id|]. by case_match.
    + destruct (timeout (step_policy s)); simplify_eq. split; [apply quiet_id|]. by case_match.
Qed.

Lemma attempts_closed n s dcc tool args key k :
  D s -> (forall o, G n (k o)) ->
  forall remaining i last, G (n + cost s * remaining)%nat (attempts cfg s dcc tool args key remaining i last k).
Proof.
  intros HD Hk. assert (Hm : forall m o, (n <= m)%nat -> G m (k o)) by (intros; by eapply (c_mono _ _ _ _ C)).
  induction remaining as [|r IH]; intros i last; simpl; [apply Hm; lia|].
  apply look_closed. intros st. destruct (cancelled st); [apply Hm; lia|].
  apply pause_closed; [|apply Hm; lia]. replace (n + cost s * S r)%nat with ((n + cost s * r) + cost s)%nat by lia.
  apply attempt_closed; [done| |intros; apply Hm; lia]. intros e. apply IH.
Qed.

Lemma policy_closed n s dcc tool args k :
  D s -> (forall o, G n (k o)) ->
  G (n + cost s * attempts_allowed s)%nat (run_with_policy cfg s dcc tool args k).
Proof.
  intros HD Hk.
  assert (Hm : forall o, G (n + cost s * attempts_allowed s)%nat (k o)).
  { intros o. eapply (c_mono _ _ _ _ C); [|apply Hk]. lia. }
  unfold run_with_policy. apply look_closed. intros st. case_match; [|apply Hm].
  case_match; [|by apply attempts_closed]. apply look_closed. intros st'. case_match; [|apply Hm].
  cbv zeta. apply look_closed. intros st2. case_match; [by apply record_output_closed|by apply attempts_closed].
Qed.

(** *** Approval *)

Lemma approve_closed n s prompt k : (forall o, G n (k o)) -> G n (run_approve cfg s prompt k).
Proof.
  intros Hk. apply look_closed. intros st. cbv zeta.
  assert (Hfin : forall r, G n (finish_approve (step_id s) r k)) by (intros r; apply record_output_closed, Hk).
  apply (c_change _ _ _ _ C); [intros st'; by apply quiet_same|]. intros st'.
  apply act_closed; [auto with dcc|]. apply (c_select _ _ _ _ C).
  - intros st1. split; [by apply quiet_same|apply Hk].
  - intros [|r|] st1 st2 q H; simplify_eq.
    + destruct (channels (gate st1) !! _) as [[r|]|]; simplify_eq; (split; [apply quiet_id|apply Hfin]).
    + case_match; simplify_eq. split; [by apply quiet_same|apply Hfin].
Qed.
End One.

(** *** Steps *)

Context (B : prog -> Prop) (GB : nat -> prog -> Prop) (CB : closed D cost GB B).
Context (HRet : forall s, GB 0%nat (Ret s)) (HB : forall p, GB 0%nat p -> B p).

(** Driving the step keeps every closed predicate of its continuation. *)
Definition driven (s : Step) : Prop :=
  forall G, closed D cost G B -> forall n k, (forall o, G n (k o)) -> G n (run_step cfg jsonpath s k).

Section Steps.
Context (G : nat -> prog -> Prop) (C : closed D cost G B).

Lemma leave_step_closed n id k : (forall o, G n (k o)) -> forall o, G n (leave_step cfg id k o).
Proof.
  intros Hk [| |e]; simpl; repeat (apply (act_closed G B C); [auto with dcc|]); apply Hk.
Qed.

Lemma drive_closed n steps k :
  Forall driven steps -> (forall s, G n (k s)) -> G n (drive_with (run_step cfg jsonpath) steps k).
Proof.
  intros Hs Hk. induction Hs as [|s steps Hs Hsteps IH]; simpl; [done|].
  apply (look_closed G B C). intros st. destruct (cancelled st); [done|].
  apply Hs; [done|]. by intros [| |e]; simpl.
Qed.

Lemma iterate_closed n id name body items k :
  (forall k, (forall s, G n (k s)) -> G n (body k)) -> (forall o, G n (k o)) ->
  forall i agg, G n (iterate id name body items i agg k).
Proof.
  intros Hb Hk. induction items as [|item items IH]; intros i agg; simpl.
  - apply (record_output_closed G B C), Hk.
  - apply (look_closed G B C). intros st. destruct (cancelled st); [done|].
    apply (act_closed G B C); [auto with dcc|]. apply Hb.
    intros [| | | | |]; try (apply (act_closed G B C); [auto with dcc|apply Hk]).
    apply (look_closed G B C). intros st'. apply (act_closed G B C); [auto with dcc|]. apply IH.
Qed.

Lemma join_closed n id k : (forall o, G n (k o)) -> forall l, G n (join_branches id k l).
Proof. intros Hk l. unfold join_branches. apply (record_output_closed G B C), Hk. Qed.
End Steps.

(** Entering a step and driving it. *)
Lemma run_kind_closed G (C : closed D cost G B) n s k :
  D s -> Forall (Forall driven) (bodies (step_kind s)) -> (forall o, G n (k o)) ->
  G n (act (emit cfg Running (Some (step_id s)) (StepEnter (step_id s)))
         (run_kind_with cfg jsonpath (run_step cfg jsonpath) s (step_kind s) k)).
Proof.
  intros HD Hb Hk. apply (c_enter _ _ _ _ C); [done|].
  set (m := (n + cost s * attempts_allowed s)%nat).
  assert (Hm : forall o, G m (k o)) by (intros o; eapply (c_mono _ _ _ _ C); [|apply Hk]; lia).
  destruct (step_kind s) as [tool args|dcc tool args|items name body|body|prompt|on th el]; simpl in *.
  1-2: by apply (policy_closed G B C).
  - apply Forall_cons in Hb as [Hb _]. apply (look_closed G B C). intros st.
    destruct (eval_jsonpath _ items _) as [v|e]; [|apply Hm].
    apply (iterate_closed G C); [|done]. intros k' Hk'. by apply (drive_closed G C).
  - apply Forall_cons in Hb as [Hb _]. apply (c_par _ _ _ _ C); [|by apply (join_closed G C)].
    intros b Hin. apply list_elem_of_fmap in Hin as (s' & -> & Hs').
    rewrite Forall_forall in Hb. apply HB. apply (drive_closed GB CB); [|done].
    constructor; [by apply Hb|constructor].
  - by apply (approve_closed G B C).
  - apply Forall_cons in Hb as [Ht [He _]%Forall_cons]. apply (look_closed G B C). intros st.
    destruct (eval_jsonpath _ on _) as [v|e]; [|apply Hm].
    apply (record_output_closed G B C), (drive_closed G C); [by destruct (is_truthy v)|].
    intros [| | | | |]; apply Hm.
Qed.

Lemma flatten_body id kind policy l s' x :
  l ∈ bodies kind -> s' ∈ l -> x ∈ flatten s' -> x ∈ flatten (mkStep id kind policy).
Proof.
  intros Hl Hs' Hx. simpl. right. rewrite !list_elem_of_In in *.
  destruct kind; simpl in Hl; try tauto; repeat (destruct Hl as [<-|Hl] || destruct Hl);
    rewrite ?in_app_iff, ?in_flat_map; eauto 6.
Qed.

(** The steps that may be entered are the ones a run does not skip. *)
Lemma run_step_closed s :
  (forall s', s' ∈ flatten s -> (step_id s' ∉ preloaded_steps cfg) -> D s') -> driven s.
Proof.
  induction s as [id kind policy IH] using step_ind'. intros HD G C n k Hk. simpl.
  apply (look_closed G B C). intros st. destruct (cancelled st); [apply Hk|].
  case_bool_decide as Hpre.
  - do 2 (apply (act_closed G B C); [auto with dcc|]). apply Hk.
  - apply (run_kind_closed G C n (mkStep id kind policy)).
    + apply HD; [by left|done].
    + simpl. rewrite Forall_forall in IH |- *. intros l Hl. specialize (IH l Hl).
      rewrite Forall_forall in IH |- *. intros s' Hs'. apply IH; [done|]. intros x Hx. apply HD.
      by eapply flatten_body.
    + by apply (leave_step_closed G C).
Qed.

Lemma run_steps_closed G n steps k :
  closed D cost G B -> (forall s', s' ∈ flat_map flatten steps -> (step_id s' ∉ preloaded_steps cfg) -> D s') ->
  (forall s, G n (k s)) -> G n (drive cfg jsonpath steps k).
Proof.
  intros C HD Hk. apply (drive_closed G C); [|done].
  apply Forall_forall. intros s Hs. apply run_step_closed. intros s' Hs'. apply HD.
  rewrite list_elem_of_In, in_flat_map in *. exists s. by rewrite <- !list_elem_of_In in *.
Qed.

Lemma run_prog_closed G n steps :
  closed D cost G B -> (forall s', s' ∈ flat_map flatten steps -> (step_id s' ∉ preloaded_steps cfg) -> D s') ->
  (forall s, G n (Ret s)) -> G n (run_prog cfg jsonpath steps).
Proof.
  intros C HD Hk. apply (run_steps_closed G n steps); [done|done|]. intros s. apply (act_closed G B C); [auto with dcc|done].
Qed.
End Drivers.
End Closure.

(** ** Runs *)

(** ** The actions of the executor *)

(** An action starts at most one call, of an allowed step and only when the run is not
    cancelled, or none at all; and a cancelled run is never blocked at it. *)
Definition safe (I : str -> Prop) (f : Input -> RunState -> option (RunState * prog)) : Prop :=
  (forall i st st' p, f i st = Some (st', p) ->
     quiet_step st st' \/
     (cancelled st = false /\ exists id dcc tool args, I id /\ st' = log_event (CallStarted id dcc tool args) st)) /\
  (forall st, cancelled st = true -> exists st' p, f Go st = Some (st', p)).

Section Safe.
Context {SD : Serde} {HO : HashOrder StepOutput}.
Context (cfg : RunConfig) (jsonpath : str -> Value -> result str (list Value)) (I : str -> Prop).

Abbreviation ok := (always (safe I)).

Lemma safe_closed : closed cfg (fun s => I (step_id s)) (fun _ => 0%nat) (fun _ => ok) ok.
Proof.
  split.
  - done.
  - intros _ f g Hf Hg. constructor.
    + split; [|intros st _; eauto]. intros [] st st' p H; simplify_eq. by left.
    + intros p ([] & st & st' & H); simplify_eq. apply Hg.
  - intros _ stop f Hs Hf. constructor.
    + split.
      * intros i st st' p H. left. destruct (cancelled st); [|by apply (Hf i st st' p)].
        destruct i; simplify_eq. destruct (Hs st) as [Hq _]. by rewrite H in Hq.
      * intros st ->. destruct (stop st) eqn:E. eauto.
    + intros p (i & st & st' & H). destruct (cancelled st); [|by apply (Hf i st st' p)].
      destruct i; simplify_eq. destruct (Hs st) as [_ Hk]. by rewrite H in Hk.
  - intros _ s dcc tool args wait k HI Hw Hk. constructor.
    + split; [|intros st ->; eauto]. intros [] st st' q H; simplify_eq.
      destruct (cancelled st) eqn:Ec; simplify_eq; [left; apply quiet_id|right]. split; [done|]. by eexists _, _, _, _.
    + intros q ([] & st & st' & H); simplify_eq. destruct (cancelled st); simplify_eq; [apply Hk|done].
  - intros _ s p HI Hp. constructor.
    + split; [|intros st _; eauto]. intros [] st st' q H; simplify_eq. left. apply quiet_emit.
    + by intros q ([] & st & st' & H); simplify_eq.
  - intros _ bs k Hbs Hk. constructor; [by apply Forall_forall|done].
Qed.

Lemma run_prog_ok steps :
  (forall s, s ∈ flat_map flatten steps -> (step_id s ∉ preloaded_steps cfg) -> I (step_id s)) ->
  ok (run_prog cfg jsonpath steps).
Proof.
  intros H. apply (run_prog_closed cfg jsonpath _ _ ok _ safe_closed (always_ret _) (fun _ Hp => Hp) _ 0%nat steps safe_closed H).
  constructor.
Qed.
End Safe.

(** ** Along a schedule *)

Definition calls (st : RunState) : list Event := base.filter (fun e => is_call e = true) (events st).

(** What one choice does: outside events start no call; an action starts an allowed
    one, and none once the run is cancelled. *)
Definition moves (I : str -> Prop) (st st' : RunState) : Prop :=
  (cancelled st = true -> cancelled st' = true /\ calls st' = calls st) /\
  (forall id dcc tool args, CallStarted id dcc tool args ∈ events st' ->
     CallStarted id dcc tool args ∈ events st \/ I id).

Lemma moves_refl I st : moves I st st.
Proof. split; auto. Qed.

Lemma quiet_calls st st' : quiet_step st st' -> calls st' = calls st.
Proof.
  intros (_ & evs & Hev & Hq). unfold calls. rewrite Hev, filter_app.
  replace (base.filter (fun e => is_call e = true) evs) with (@nil Event); [by rewrite app_nil_r|].
  clear Hev. induction Hq as [|e evs He Hq IH]; [done|]. rewrite filter_cons_False; [done|]. by rewrite He.
Qed.

Lemma quiet_moves I st st' : quiet_step st st' -> moves I st st'.
Proof.
  intros Hq. split.
  - intros Hc. split; [|by apply quiet_calls]. destruct Hq as [Hq _]. congruence.
  - intros id dcc tool args Hin. destruct Hq as (_ & evs & Hev & Hq). rewrite Hev in Hin.
    apply elem_of_app in Hin as [Hin|Hin]; [by left|]. rewrite Forall_forall in Hq. by apply Hq in Hin.
Qed.

Lemma safe_moves I f i st st' p : safe I f -> f i st = Some (st', p) -> moves I st st'.
Proof.
  intros [Hf _] H. destruct (Hf i st st' p H) as [Hq|(Hc & id & dcc & tool & args & HI & ->)].
  - by apply quiet_moves.
  - split; [congruence|]. simpl. intros id' dcc' tool' args' Hin.
    apply elem_of_app in Hin as [Hin|Hin]; [by left|]. right. apply list_elem_of_singleton in Hin. by simplify_eq.
Qed.

Lemma exec1_moves I c st p st' p' :
  always (safe I) p -> exec1 c (st, p) = Some (st', p') -> moves I st st' /\ always (safe I) p'.
Proof.
  intros Hp H. destruct c as [path i| |wf step r|now|scope wf key v ttl]; simpl in H.
  - by eapply (always_step (safe I) (moves I)); [apply safe_moves|apply moves_refl| |].
  - simplify_eq. split; [|done]. split; [|by left]. done.
  - simplify_eq. split; [|done]. by apply quiet_moves, quiet_same.
  - destruct (clock st <=? now); simplify_eq. split; [|done]. by apply quiet_moves, quiet_same.
  - simplify_eq. split; [|done]. by apply quiet_moves, quiet_same.
Qed.

Lemma moves_trans I st1 st2 st3 : moves I st1 st2 -> moves I st2 st3 -> moves I st1 st3.
Proof.
  intros [H1 H1'] [H2 H2']. split.
  - intros Hc. destruct (H1 Hc) as [Hc2 E2]. destruct (H2 Hc2) as [Hc3 E3]. split; congruence.
  - intros id dcc tool args Hin. destruct (H2' _ _ _ _ Hin) as [Hin2|]; [|by right]. by apply H1' in Hin2.
Qed.

Lemma exec_moves I l : forall st p st' p',
  always (safe I) p -> exec l (st, p) = Some (st', p') -> moves I st st' /\ always (safe I) p'.
Proof.
  induction l as [|c l IH]; intros st p st' p' Hp H; cbn [exec] in H.
  - simplify_eq. split; [apply moves_refl|done].
  - destruct (exec1 c (st, p)) as [[st1 p1]|] eqn:E; [|done]. simpl in H.
    destruct (exec1_moves I _ _ _ _ _ Hp E) as [M1 Hp1]. destruct (IH _ _ _ _ Hp1 H) as [M2 Hp2].
    split; [by eapply moves_trans|done].
Qed.

(** ** Termination *)

Definition is_run (c : choice) : bool := match c with Run _ _ => true | _ => false end.

Lemma exec1_outside c st p st' p' : exec1 c (st, p) = Some (st', p') -> is_run c = false -> p' = p.
Proof.
  destruct c as [path i| |wf step r|now|scope wf key v ttl]; simpl; intros H Hr; [done|..];
    [| |destruct (clock st <=? now)|]; by simplify_eq.
Qed.

(** The first action from [m] on finds the program of [m]. *)
Lemma first_action (ch : nat -> choice) (x : nat -> RunState * prog) :
  (forall n, exec1 (ch n) (x n) = Some (x (S n))) ->
  forall d m, is_run (ch (m + d)%nat) = true -> exists n, (m <= n)%nat /\ is_run (ch n) = true /\ snd (x n) = snd (x m).
Proof.
  intros Hx. induction d as [|d IH]; intros m Hd.
  - rewrite Nat.add_0_r in Hd. by exists m.
  - destruct (is_run (ch m)) eqn:Em; [by exists m|].
    destruct (IH (S m)) as (n & Hn & Hr & E); [by rewrite Nat.add_succ_l, <- Nat.add_succ_r|].
    exists n. split; [lia|]. split; [done|]. rewrite E. specialize (Hx m).
    destruct (x m) as [st p], (x (S m)) as [st' p']. by eapply exec1_outside.
Qed.

(** A run is a finite tree of actions, so an infinite schedule contains only finitely
    many of them; how many calls there can be is [WorkflowCalls.calls_per_entry]. *)
Lemma executor_terminates {SD : Serde} {HO : HashOrder StepOutput} (cfg : RunConfig)
    (jsonpath : str -> Value -> result str (list Value)) (steps : list Step)
    (ch : nat -> choice) (x : nat -> RunState * prog)
  (Hstart : snd (x 0%nat) = run_prog cfg jsonpath steps)
  (Hsched : forall n, exec1 (ch n) (x n) = Some (x (S n))) :
  ~ forall N, exists n, (N <= n)%nat /\ is_run (ch n) = true.
Proof.
  intros Hinf. assert (H : forall p m, Acc next p -> snd (x m) = p -> False); [|by eapply (H _ 0%nat (next_wf _))].
  intros p m Hacc. revert m. induction Hacc as [p _ IH]. intros m Hm.
  destruct (Hinf m) as (n0 & Hn0 & Hr0). destruct (first_action ch x Hsched (n0 - m) m) as (n & Hn & Hr & E).
  { by replace (m + (n0 - m))%nat with n0 by lia. }
  refine (IH (snd (x (S n))) _ (S n) eq_refl). specialize (Hsched n).
  destruct (ch n) as [path i| | | |]; [|discriminate Hr..].
  rewrite Hm in E. destruct (x n) as [st q], (x (S n)) as [st' q']. simpl in *. subst q. by exists path, i, st, st'.
Qed.

(** ** Cancellation *)

Section Runs.
Context {SD : Serde} {HO : HashOrder StepOutput}.
Context (cfg : RunConfig) (jsonpath : str -> Value -> result str (list Value)).

Lemma always_safe_ends I : forall p, Acc next p -> forall st, always (safe I) p -> cancelled st = true ->
  exists l st' s, Forall (fun c => exists path, c = Run path Go) l /\ exec l (st, p) = Some (st', Ret s).
Proof.
  induction 1 as [p _ IH]. intros st Hp Hc.
  destruct (always_enabled (safe I) st (fun f Hf => proj2 Hf st Hc) p Hp) as [[s ->]|(path & st' & p' & H)].
  - by exists [], st, s.
  - destruct (exec1_moves I (Run path Go) st p st' p' Hp H) as [[Hm _] Hp'].
    destruct (IH p' ltac:(by exists path, Go, st, st') st' Hp' (proj1 (Hm Hc))) as (l & st2 & s & Hl & El).
    exists (Run path Go :: l), st2, s. split; [constructor; [by exists path|done]|].
    simpl. rewrite H. exact El.
Qed.

(** C33: once a run is cancelled no tool call starts any more, whatever happens next,
    and the run comes to its end by its own actions alone, without waiting for a tool,
    a timer or an approval. *)
Theorem cancellation_stops (steps : list Step) st0 l st p
  (Hrun : exec l (st0, run_prog cfg jsonpath steps) = Some (st, p)) (Hc : cancelled st = true) :
  (forall l' st' p', exec l' (st, p) = Some (st', p') -> calls st' = calls st) /\
  (exists l' st' s, Forall (fun c => exists path, c = Run path Go) l' /\ exec l' (st, p) = Some (st', Ret s)).
Proof.
  pose proof (run_prog_ok cfg jsonpath (fun _ => True) steps (fun _ _ _ => I)) as Hok.
  destruct (exec_moves _ _ _ _ _ _ Hok Hrun) as [_ Hp]. split.
  - intros l' st' p' H. destruct (exec_moves _ _ _ _ _ _ Hp H) as [[Hm _] _]. by apply Hm.
  - by apply (always_safe_ends (fun _ => True)); [apply next_wf| |].
Qed.

End Runs.

(** ** Resume *)

(** C34: a resumed run calls tools only for steps of the stored specification, and for
    none of the steps stored as completed unless the caller forces it. *)
Theorem resume_skips {SD : Serde} {HO : HashOrder StepOutput} (parse_json_path : str -> option str)
    (jsonpath : str -> Value -> result str (list Value)) (spec_hash : WorkflowSpec -> str)
    (wf job : str) (opts : ResumeOptions) (snap : ResumeSnapshot) cache now approve_timeout x0 l st p
  (Hres : resume parse_json_path jsonpath spec_hash wf job opts snap cache now approve_timeout = Ok x0)
  (Hrun : exec l x0 = Some (st, p)) :
  exists spec, snap_spec snap = Some spec /\
    forall id dcc tool args, CallStarted id dcc tool args ∈ events st ->
      id ∈ map step_id (flat_map flatten (spec_steps spec)) /\
      ~ (id ∈ map fst (completed_steps snap) /\ (id ∉ force_steps opts)).
Proof.
  unfold resume in Hres. destruct (ensure_resumable wf snap _); [|done]. simpl in Hres.
  destruct (snap_spec snap) as [spec|]; [|done].
  destruct (validate parse_json_path spec); [|done]. simpl in Hres.
  destruct (check_spec_hash spec_hash wf spec opts); [|done]. simpl in Hres. simplify_eq.
  exists spec. split; [done|]. intros id dcc tool args Hin.
  set (I := fun id => id ∈ map step_id (flat_map flatten (spec_steps spec)) /\
    ~ (id ∈ map fst (completed_steps snap) /\ (id ∉ force_steps opts))).
  match type of Hrun with exec _ (_, run_prog ?c _ _) = _ => pose proof (run_prog_ok c jsonpath I (spec_steps spec)) as Hok end.
  assert (HI : forall s, s ∈ flat_map flatten (spec_steps spec) -> (step_id s ∉ preloaded opts snap) -> I (step_id s)).
  { intros s Hs Hpre. split; [by apply list_elem_of_fmap_2|]. intros [H1 H2]. apply Hpre.
    unfold preloaded. rewrite elem_of_list_to_set, list_elem_of_filter. done. }
  destruct (exec_moves I _ _ _ _ _ (Hok HI) Hrun) as [[_ Hm] _].
  destruct (Hm _ _ _ _ Hin) as [Hold|HIid]; [|done]. simpl in Hold.
  apply list_elem_of_singleton in Hold. done.
Qed.

(** ** Witnesses *)

Section Witnesses.
Local Existing Instance sample_serde.

Definition sample_cfg : RunConfig := mkConfig (lit "w") (lit "j") 4 ∅ None.
Definition sample_x0 : RunState * prog :=
  match sample_start with Ok x => x | Err _ => (initial_state ∅ 0 (WorkflowContext.context_new Null) ∅, Ret Failed) end.

(** A schedule and a test of where it leads, evaluated together. *)
Lemma exec_test (T : RunState * prog -> bool) l x :
  match exec l x with Some y => T y | None => false end = true -> exists y, exec l x = Some y /\ T y = true.
Proof. destruct (exec l x) as [y|]; [by exists y|done]. Qed.

(** Cancelled while the call is pending, the run still ends. *)
Lemma cancellation_stops_witness :
  exists st p, exec (go 6 ++ [Cancel]) sample_x0 = Some (st, p) /\ cancelled st = true /\
    exists l st' s, Forall (fun c => exists path, c = Run path Go) l /\ exec l (st, p) = Some (st', Ret s).
Proof.
  destruct (exec_test (fun y => cancelled (fst y)) (go 6 ++ [Cancel]) sample_x0) as ([st p] & E & Hc); [by vm_compute|].
  exists st, p. split; [exact E|]. split; [exact Hc|].
  exact (proj2 (cancellation_stops sample_cfg key_jsonpath (spec_steps sample_spec) _ (go 6 ++ [Cancel]) st p E Hc)).
Defined.

Definition sample_snapshot : ResumeSnapshot :=
  mkSnapshot Failed (Some sample_spec) (spec_inputs sample_spec) [(lit "fetch", Null)].
Definition sample_resume : result WorkflowResumeError (RunState * prog) :=
  resume (fun _ => None) key_jsonpath (fun _ => []) (lit "w") (lit "j") (mkOptions [] None true) sample_snapshot ∅ 0 None.
Definition resumed_x0 : RunState * prog := match sample_resume with Ok x => x | Err _ => sample_x0 end.

(** The sample resumed after [fetch]: only the tool of the branch is called. *)
Lemma resume_skips_witness :
  exists st p, exec (go 7 ++ go_at [0%nat] 6) resumed_x0 = Some (st, p) /\ length (calls st) = 1%nat /\
    ~ exists dcc tool args, CallStarted (lit "fetch") dcc tool args ∈ events st.
Proof.
  destruct (exec_test (fun y => bool_decide (length (calls (fst y)) = 1%nat)) (go 7 ++ go_at [0%nat] 6) resumed_x0)
    as ([st p] & Ex & Hc%bool_decide_eq_true); [by vm_compute|].
  assert (Er : sample_resume = Ok resumed_x0) by reflexivity.
  exists st, p. split; [exact Ex|]. split; [exact Hc|]. intros (dcc & tool & args & Hin).
  destruct (resume_skips _ _ _ _ _ _ _ _ _ _ _ _ _ _ Er Ex) as (spec & _ & H).
  destruct (H _ _ _ _ Hin) as [_ Hn]. apply Hn. split; [apply list_elem_of_In; by left|intros Hf; by apply not_elem_of_nil in Hf].
Defined.

End Witnesses.
