(* ===== verification/WorkflowCalls.v ===== *)
(** How often a workflow run calls its tools, and what its final status says about its
    steps: two more families of predicates on the executor's programs. *)

From S2P Require Import Prelude Naming Json WorkflowSpec WorkflowSpecProps WorkflowContext WorkflowStores WorkflowRun WorkflowRunProps.

(** ** Counting events *)

Definition count (p : Event -> bool) (l : list Event) : nat := length (base.filter (fun e => p e = true) l).

Definition calls_to (x : str) (e : Event) : bool :=
  match e with CallStarted id _ _ _ => bool_decide (id = x) | _ => false end.
Definition enters (x : str) (e : Event) : bool :=
  match e with Update _ _ (StepEnter id) _ _ => bool_decide (id = x) | _ => false end.

Lemma count_app p l1 l2 : count p (l1 ++ l2) = count p l1 + count p l2.
Proof. unfold count. by rewrite filter_app, length_app. Qed.

Lemma count_snoc p l e : count p (l ++ [e]) = count p l + (if p e then 1 else 0).
Proof.
  rewrite count_app. f_equal. unfold count. destruct (p e) eqn:E.
  - by rewrite filter_cons_True.
  - rewrite filter_cons_False; [done|congruence].
Qed.

Lemma count_quiet x st st' : quiet_step st st' ->
  count (calls_to x) (events st') = count (calls_to x) (events st) /\
  count (enters x) (events st) <= count (enters x) (events st').
Proof.
  intros (_ & evs & -> & Hq). rewrite !count_app. split; [|lia].
  assert (count (calls_to x) evs = 0) as ->; [|lia].
  induction Hq as [|e evs He Hq IH]; [done|]. unfold count in *. rewrite filter_cons_False; [done|].
  by destruct e.
Qed.

(** ** Calls are paid for by entries *)

Section Credit.
Context (x : str) (N : nat).

(** The balance between two states when the credit goes from [c] to [c']. *)
Definition balanced (c : nat) (st st' : RunState) (c' : nat) : Prop :=
  count (calls_to x) (events st') + c' + N * count (enters x) (events st)
  <= count (calls_to x) (events st) + c + N * count (enters x) (events st').

(** At most [c] calls of [x], and [N] more for each further entry of [x]. *)
Inductive credit : nat -> prog -> Prop :=
| credit_ret c s : credit c (Ret s)
| credit_act c f :
    (forall i st st' p, f i st = Some (st', p) -> exists c', balanced c st st' c' /\ credit c' p) -> credit c (Act f)
| credit_par c c0 cs bs k :
    Forall2 credit cs bs -> (forall l, credit c0 (k l)) -> sum_list cs + c0 <= c -> credit c (Par bs k).

Lemma credit_mono c c2 p : c <= c2 -> credit c p -> credit c2 p.
Proof.
  intros Hle Hp. destruct Hp as [c s|c f Hf|c c0 cs bs k Hbs Hk Hsum].
  - constructor.
  - constructor. intros i st st' p H. destruct (Hf i st st' p H) as (c' & Hb & Hc').
    exists c'. split; [|done]. unfold balanced in *. lia.
  - econstructor; [done|done|lia].
Qed.

Lemma credit_step path : forall c i p st st' p',
  credit c p -> pstep path i p st = Some (st', p') -> exists c', balanced c st st' c' /\ credit c' p'.
Proof.
  induction path as [|n path IH]; intros c i p st st' p' Hp H.
  - destruct Hp as [c s|c f Hf|c c0 cs bs k Hbs Hk Hsum]; cbn [pstep] in H; [done|by eapply Hf|].
    destruct i; [|discriminate H..]. destruct (mapM returned bs); [|done]. simpl in H. simplify_eq.
    exists c0. split; [|done]. unfold balanced. lia.
  - destruct Hp as [c s|c f Hf|c c0 cs bs k Hbs Hk Hsum]; cbn [pstep] in H; try done.
    destruct (bs !! n) as [b|] eqn:Hn; [|done]. cbn [mbind option_bind] in H.
    destruct (pstep path i b st) as [[st1 b']|] eqn:Hb; [|done]. cbn [mbind option_bind] in H. simplify_eq.
    destruct (Forall2_lookup_r _ _ _ _ _ Hbs Hn) as (c1 & Hc1 & Hcb).
    destruct (IH c1 i b st st' b' Hcb Hb) as (c1' & Hbal & Hcb').
    pose proof (sum_insert id cs n c1 c1' Hc1) as Hs. unfold id in Hs at 2 4.
    exists (sum_list (<[n := c1']> cs) + c0). split; [unfold balanced in *; lia|].
    econstructor; [by apply Forall2_insert|done|lia].
Qed.

Lemma credit_exec l : forall c st p st' p',
  credit c p -> exec l (st, p) = Some (st', p') -> exists c', balanced c st st' c' /\ credit c' p'.
Proof.
  induction l as [|ch l IH]; intros c st p st' p' Hp H; cbn [exec] in H.
  - simplify_eq. exists c. split; [unfold balanced; lia|done].
  - destruct (exec1 ch (st, p)) as [[st1 p1]|] eqn:E; [|done]. cbn [mbind option_bind] in H.
    assert (Hone : exists c1, balanced c st st1 c1 /\ credit c1 p1).
    { destruct (is_run ch) eqn:Er.
      - destruct ch as [path i| | | |]; [|discriminate Er..]. by eapply credit_step.
      - pose proof (exec1_outside _ _ _ _ _ E Er) as ->. exists c. split; [|done].
        destruct ch as [path i| |wf step r|now|scope wf key v ttl]; simpl in E; [discriminate Er|..];
          [| |destruct (clock st <=? now)%Z|]; simplify_eq; unfold balanced; simpl; lia. }
    destruct Hone as (c1 & Hb1 & Hc1). destruct (IH c1 st1 p1 st' p' Hc1 H) as (c2 & Hb2 & Hc2).
    exists c2. split; [|done]. unfold balanced in *. lia.
Qed.

Lemma balanced_quiet c st st' : quiet_step st st' -> balanced c st st' c.
Proof.
  intros Hq. destruct (count_quiet x _ _ Hq) as [Hc He]. unfold balanced. nia.
Qed.

Definition call_cost (s : Step) : nat := if bool_decide (step_id s = x) then 1 else 0.

Lemma credit_closed cfg :
  closed cfg (fun s => step_id s = x -> attempts_allowed s <= N) call_cost credit (credit 0).
Proof.
  split.
  - intros n m p. apply credit_mono.
  - intros n f g Hf Hg. constructor. intros [] st st' p H; simplify_eq.
    exists n. split; [by apply balanced_quiet|done].
  - intros n stop f Hs Hf. constructor. intros i st st' p H. exists n.
    destruct (cancelled st).
    + destruct i; simplify_eq. destruct (Hs st) as [Hq Hp]. rewrite H in Hq, Hp. split; [by apply balanced_quiet|done].
    + destruct (Hf i st st' p H) as [Hq Hp]. split; [by apply balanced_quiet|done].
  - intros n s dcc tool args wait k HD Hw Hk. constructor. intros [] st st' p H; simplify_eq.
    exists n. destruct (cancelled st); simplify_eq; [split; [unfold balanced; lia|done]|]. split; [|done].
    unfold balanced, call_cost. simpl. rewrite !count_snoc. simpl. case_bool_decide; lia.
  - intros n s p HD Hp. constructor. intros [] st st' q H; simplify_eq.
    exists (n + call_cost s * attempts_allowed s). split; [|done].
    unfold balanced, call_cost. simpl. rewrite !count_snoc. simpl.
    case_bool_decide as Hx; [specialize (HD Hx)|]; nia.
  - intros n bs k Hbs Hk. apply (credit_par _ n (replicate (length bs) 0)).
    + apply Forall2_replicate_l; [done|]. by apply Forall_forall.
    + done.
    + rewrite sum_list_replicate. lia.
Qed.

End Credit.

(** C8: in any run of an accepted specification, nested loops and parallel branches
    included, a step's tool is called at most [max_attempts] times for each time the
    step is entered, whatever the answers and the schedule. *)
Theorem calls_per_entry {SD : Serde} {HO : HashOrder StepOutput} (parse_json_path : str -> option str)
    (jsonpath : str -> Value -> result str (list Value)) (spec : WorkflowSpec) inputs wf job cache now approve_timeout
    x0 l st p (s : Step)
  (Hstart : run parse_json_path jsonpath spec inputs wf job cache now approve_timeout = Ok x0)
  (Hrun : exec l x0 = Some (st, p)) (Hs : s ∈ flat_map flatten (spec_steps spec)) :
  count (calls_to (step_id s)) (events st) <= attempts_allowed s * count (enters (step_id s)) (events st).
Proof.
  unfold run in Hstart. destruct (validate parse_json_path spec) as [[]|] eqn:Hval; [|done]. simpl in Hstart. simplify_eq.
  apply accepted_ids in Hval as Hnd. unfold ids_of in Hnd.
  assert (Huniq : forall s', s' ∈ flat_map flatten (spec_steps spec) -> step_id s' = step_id s -> s' = s).
  { intros s' Hs' Hid. apply list_elem_of_lookup in Hs as [i Hi], Hs' as [j Hj].
    assert (j = i) as ->; [|congruence].
    eapply NoDup_lookup; [exact Hnd|..]; rewrite list_lookup_fmap; [by rewrite Hj|]. rewrite Hi. simpl. by rewrite Hid. }
  match type of Hrun with exec _ (_, run_prog ?c _ _) = _ => set (cfg := c) in * end.
  pose proof (credit_closed (step_id s) (attempts_allowed s) cfg) as C.
  assert (Hc : credit (step_id s) (attempts_allowed s) 0 (run_prog cfg jsonpath (spec_steps spec))).
  { apply (run_prog_closed cfg jsonpath _ _ _ _ C (credit_ret _ _ 0) (fun _ Hp => Hp) _ 0 _ C).
    - intros s' Hs' _ Hid. by rewrite (Huniq s' Hs' Hid).
    - constructor. }
  destruct (credit_exec _ _ _ _ _ _ _ _ Hc Hrun) as (c' & Hb & _). unfold balanced in Hb. simpl in Hb. lia.
Qed.

(** ** A completed run completed its steps *)

(** The event that reports a step as done: run to its end, or skipped on resume. *)
Definition done_event (id : str) (e : Event) : bool :=
  match e with
  | Update _ _ (StepExit id' Completed _) _ _ | Update _ _ (StepSkippedResume id') _ _ => bool_decide (id' = id)
  | _ => false
  end.

Definition logged (id : str) (st : RunState) : Prop := exists e, e ∈ events st /\ done_event id e = true.

Section Owes.
Context (id : str).

(** No way to [Completed] without the event. *)
Inductive owes : prog -> Prop :=
| owes_ret s : s <> Completed -> owes (Ret s)
| owes_act f : (forall i st st' p, f i st = Some (st', p) -> logged id st' \/ owes p) -> owes (Act f)
| owes_par bs k : (forall l, owes (k l)) -> owes (Par bs k).

Lemma owes_pstep path i p st st' p' : owes p -> pstep path i p st = Some (st', p') -> logged id st' \/ owes p'.
Proof.
  intros Hp H. destruct path as [|n path], Hp as [s Hs|f Hf|bs k Hk]; cbn [pstep] in H; try done.
  - by eapply Hf.
  - destruct i; [|discriminate H..]. destruct (mapM returned bs); [|done]. simpl in H. simplify_eq. by right.
  - destruct (bs !! n); [|done]. cbn [mbind option_bind] in H.
    destruct (pstep path i _ st) as [[st1 b']|]; [|done]. cbn [mbind option_bind] in H. simplify_eq.
    right. by constructor.
Qed.

Lemma owes_look g : (forall st, owes (g st)) -> owes (look g).
Proof. intros Hg. constructor. intros [] st st' p H; simplify_eq. by right. Qed.

Lemma owes_emitting f p : (forall st, logged id (f st)) \/ owes p -> owes (act f p).
Proof. intros Hf. constructor. intros [] st st' q H; simplify_eq. destruct Hf; auto. Qed.

Lemma logged_emit cfg status d st :
  done_event id (Update status (Some id) d (completed st) (total_steps cfg)) = true ->
  logged id (emit cfg status (Some id) d st).
Proof. intros Hd. eexists. split; [|exact Hd]. simpl. apply elem_of_app. right. by left. Qed.

Lemma owes_closed cfg D : closed cfg D (fun _ => 0) (fun _ => owes) (fun _ => True).
Proof.
  split.
  - done.
  - intros _ f g _ Hg. constructor. intros [] st st' p H; simplify_eq. by right.
  - intros _ stop f Hs Hf. constructor. intros i st st' p H. right. destruct (cancelled st).
    + destruct i; simplify_eq. destruct (Hs st) as [_ Hp]. by rewrite H in Hp.
    + by apply (Hf i st st' p).
  - intros _ s dcc tool args wait k _ Hw Hk. constructor. intros [] st st' p H; simplify_eq.
    right. by destruct (cancelled st); simplify_eq.
  - intros _ s p _ Hp. apply owes_emitting. by right.
  - intros _ bs k _ Hk. by constructor.
Qed.

Lemma anything_closed cfg D : closed cfg D (fun _ => 0) (fun _ _ => True) (fun _ => True).
Proof. by split. Qed.

Section Steps.
Context {SD : Serde} {HO : HashOrder StepOutput}.
Context (cfg : RunConfig) (jsonpath : str -> Value -> result str (list Value)).

Lemma any_driven s : driven cfg jsonpath (fun _ => True) (fun _ => 0) (fun _ => True) s.
Proof. by apply (run_step_closed cfg jsonpath _ _ _ _ (anything_closed cfg _)). Qed.

(** The step itself reports, unless it ends otherwise. *)
Lemma run_step_owes s k :
  step_id s = id -> owes (k StepCancelled) -> (forall e, owes (k (StepFailed e))) -> owes (run_step cfg jsonpath s k).
Proof.
  intros Hid Hc Hf. destruct s as [id' kind policy]. simpl in Hid. subst id'. simpl.
  apply owes_look. intros st. destruct (cancelled st); [done|]. case_bool_decide.
  - apply owes_emitting. left. intros st'. apply logged_emit. simpl. by rewrite bool_decide_true.
  - apply (run_kind_closed cfg jsonpath _ _ _ _ (anything_closed cfg _) (fun _ => I) (fun _ _ => I) _
      (owes_closed cfg (fun _ => True)) 0 (mkStep id kind policy)); [done| |].
    + apply Forall_forall. intros l _. apply Forall_forall. intros s _. apply any_driven.
    + intros [| |e]; simpl.
      * apply owes_emitting. right. apply owes_emitting. left. intros st2. apply logged_emit. simpl.
        by rewrite bool_decide_true.
      * apply owes_emitting. by right.
      * apply owes_emitting. by right.
Qed.

Lemma drive_owes steps k :
  id ∈ map step_id steps -> owes (k Cancelled) -> owes (k Failed) -> owes (drive cfg jsonpath steps k).
Proof.
  intros Hin Hc Hf. unfold drive. induction steps as [|s steps IH]; [by apply not_elem_of_nil in Hin|].
  simpl. apply owes_look. intros st. destruct (cancelled st); [done|].
  apply elem_of_cons in Hin as [Hid|Hin].
  - by apply run_step_owes.
  - apply (any_driven s _ (owes_closed cfg _) 0). intros [| |e]; simpl; auto.
Qed.
End Steps.
End Owes.

Lemma exec1_grows I c st p st' p' :
  always (safe I) p -> exec1 c (st, p) = Some (st', p') -> exists evs, events st' = events st ++ evs.
Proof.
  intros Hp H. destruct c as [path i| |wf step r|now|scope wf key v ttl]; simpl in H.
  - apply (always_step (safe I) (fun st st' => exists evs, events st' = events st ++ evs)) with path i p p'; try done.
    + intros f j s s' q [Hf _] E. destruct (Hf j s s' q E) as [(_ & evs & -> & _)|(_ & d & dc & t & a & _ & ->)]; eauto.
    + intros s. exists []. by rewrite app_nil_r.
  - simplify_eq. exists []. by rewrite app_nil_r.
  - simplify_eq. exists []. by rewrite app_nil_r.
  - destruct (clock st <=? now)%Z; simplify_eq. exists []. by rewrite app_nil_r.
  - simplify_eq. exists []. by rewrite app_nil_r.
Qed.

Lemma owes_exec id l : forall st p st' p',
  always (safe (fun _ => True)) p -> logged id st \/ owes id p -> exec l (st, p) = Some (st', p') ->
  logged id st' \/ owes id p'.
Proof.
  induction l as [|c l IH]; intros st p st' p' Ha Hp H; cbn [exec] in H; [by simplify_eq|].
  destruct (exec1 c (st, p)) as [[st1 p1]|] eqn:E; [|done]. cbn [mbind option_bind] in H.
  destruct (exec1_moves _ _ _ _ _ _ Ha E) as [_ Ha1]. destruct (exec1_grows _ _ _ _ _ _ Ha E) as [evs Hev].
  apply (IH st1 p1); [done| |done]. destruct Hp as [(e & He & Hd)|Hp].
  - left. exists e. split; [|done]. rewrite Hev. apply elem_of_app. by left.
  - destruct (is_run c) eqn:Er.
    + destruct c as [path i| | | |]; [|discriminate Er..]. by eapply owes_pstep.
    + rewrite (exec1_outside _ _ _ _ _ E Er). by right.
Qed.

(** A run that ends as completed reported every top-level step as completed, or as
    skipped because its result was already stored; none failed, was cancelled or left out. *)
Theorem completed_means_all {SD : Serde} {HO : HashOrder StepOutput} (cfg : RunConfig)
    (jsonpath : str -> Value -> result str (list Value)) (steps : list Step) st0 l st
  (Hrun : exec l (st0, run_prog cfg jsonpath steps) = Some (st, Ret Completed)) :
  forall s, s ∈ steps -> logged (step_id s) st.
Proof.
  intros s Hs. pose proof (run_prog_ok cfg jsonpath (fun _ => True) steps (fun _ _ _ => I)) as Hok.
  assert (Ho : owes (step_id s) (run_prog cfg jsonpath steps)).
  { apply drive_owes; [by apply list_elem_of_fmap_2|..]; apply owes_emitting; right; by constructor. }
  destruct (owes_exec (step_id s) l _ _ _ _ Hok (or_intror Ho) Hrun) as [Hl|Hl]; [done|].
  inversion Hl. done.
Qed.

(** ** Witnesses *)

Section Witnesses.
Local Existing Instance sample_serde.

(** The call of [fetch] that failed once: two calls, one entry, two attempts allowed. *)
Lemma calls_per_entry_witness :
  exists st p, exec full_schedule sample_x0 = Some (st, p) /\ count (calls_to (lit "fetch")) (events st) = 2 /\
    count (calls_to (lit "fetch")) (events st) <= 2 * count (enters (lit "fetch")) (events st).
Proof.
  destruct (exec_test (fun y => bool_decide (count (calls_to (lit "fetch")) (events (fst y)) = 2)) full_schedule sample_x0)
    as ([st p] & E & Hc%bool_decide_eq_true); [by vm_compute|].
  exists st, p. split; [exact E|]. split; [exact Hc|].
  assert (Hs : run (fun _ => None) key_jsonpath sample_spec (spec_inputs sample_spec) (lit "w") (lit "j") ∅ 0%Z None
    = Ok sample_x0) by reflexivity.
  refine (calls_per_entry _ _ _ _ _ _ _ _ _ _ _ _ _
    (mkStep (lit "fetch") (Tool (lit "scene__fetch") (Str (lit "{{inputs.rows[0]}}"))) retry_twice) Hs E _).
  by left.
Defined.

Lemma completed_means_all_witness :
  exists st, exec full_schedule sample_x0 = Some (st, Ret Completed) /\ logged (lit "fetch") st /\ logged (lit "both") st.
Proof.
  destruct (exec_test (fun y => bool_decide (returned (snd y) = Some Completed)) full_schedule sample_x0)
    as ([st p] & E & Hp%bool_decide_eq_true); [by vm_compute|].
  destruct p as [s| |]; [|discriminate Hp..]. injection Hp as ->.
  exists st. split; [exact E|].
  pose proof (completed_means_all sample_cfg key_jsonpath (spec_steps sample_spec) _ full_schedule st E) as H.
  unfold sample_spec in H. cbn [spec_steps] in H. rewrite <- Forall_forall in H.
  apply Forall_cons in H as [H1 [H2 _]%Forall_cons]. by split.
Defined.

End Witnesses.
