(* ===== verification/Scheduler.v ===== *)
(** The scheduler, [dcc-mcp-scheduler/src/]: the placeholders of scheduled workflows
    ([template.rs]), then [spec.rs], [webhook.rs] and [service.rs].

    [interpolate] has one more than the length of its text as fuel: each turn consumes
    four characters or more.

    Third-party code is the class [Crates]: the cron and timezone parsers, HMAC-SHA256 in
    hexadecimal, the router's test for overlapping routes, the JSON parser.  A job sink
    is a function on a world.  Requests, cron tasks and completions of several threads
    interleave between the atomic operations on the tracker and the sink: [exec] runs a
    schedule of them.  Time is in nanoseconds. *)

From S2P Require Import Prelude Json Text.

Local Open Scope Z_scope.

Record RenderCtx : Type := mkCtx {
  payload : Value;
  ctx_schedule_id : str;
  ctx_workflow : str;
}.

Definition open2 : str := lit "{{".
Definition close2 : str := lit "}}".

(** ** Paths *)

Fixpoint lookup_segments (segs : list str) (cur : Value) : option Value :=
  match segs with
  | [] => Some cur
  | seg :: segs =>
      if bool_decide (seg = []) then None
      else
        cur ← match parse_u64 seg with
              | Some idx => match cur with Array l => l !! Z.to_nat idx | _ => None end
              | None => match cur with Object m => json_get seg m | _ => None end
              end;
        lookup_segments segs cur
  end.

Definition lookup_json (root : Value) (path : str) : option Value :=
  match path with
  | [] => Some root
  | _ => lookup_segments (split_char ch_dot path) root
  end.

Definition resolve (path : str) (ctx : RenderCtx) : option Value :=
  let path := trim path in
  match strip_prefix (lit "trigger.payload") path with
  | Some rest => lookup_json (payload ctx) (default [] (strip_prefix [ch_dot] rest))
  | None =>
      if bool_decide (path = lit "trigger.schedule_id") then Some (Str (ctx_schedule_id ctx))
      else if bool_decide (path = lit "trigger.workflow") then Some (Str (ctx_workflow ctx))
      else None
  end.

(** ** Rendering *)

Section Render.
Context {JT : JsonText}.

Definition show (v : Value) : str := match v with Str s => s | other => json_to_string other end.

Definition whole_placeholder (s : str) : option str :=
  inner ← strip_prefix open2 (trim s) ≫= strip_suffix close2;
  if contains open2 inner || contains close2 inner then None else Some (trim inner).

Definition replacement (path : str) (ctx : RenderCtx) : str :=
  match resolve path ctx with
  | Some v => show v
  | None => open2 ++ path ++ close2
  end.

Fixpoint interpolate_loop (fuel : nat) (rest : str) (ctx : RenderCtx) (out : str) : str :=
  match fuel with
  | O => out
  | S fuel =>
      match split_once open2 rest with
      | None => out ++ rest
      | Some (before, after) =>
          match split_once close2 after with
          | None => out ++ rest
          | Some (body, rest) => interpolate_loop fuel rest ctx (out ++ before ++ replacement (trim body) ctx)
          end
      end
  end.

Definition interpolate (s : str) (ctx : RenderCtx) : str := interpolate_loop (S (length s)) s ctx [].

Definition render_string (s : str) (ctx : RenderCtx) : Value :=
  match whole_placeholder s with
  | Some path => default (Str s) (resolve path ctx)
  | None => Str (interpolate s ctx)
  end.

Fixpoint render_value (input : Value) (ctx : RenderCtx) : Value :=
  match input with
  | Str s => render_string s ctx
  | Array arr => Array (map (fun v => render_value v ctx) arr)
  | Object m =>
      Object ((fix entries (m out : JsonMap) : JsonMap :=
        match m with
        | [] => out
        | (k, v) :: m => entries m (json_insert k (render_value v ctx) out)
        end) m [])
  | other => other
  end.

(** ** What a template means *)

(** A template as its author reads it: texts and references in turn. *)
Inductive piece : Type :=
| Text (s : str)
| Reference (path : str).

Definition source (p : piece) : str :=
  match p with Text s => s | Reference path => open2 ++ path ++ close2 end.
Definition meaning (ctx : RenderCtx) (p : piece) : str :=
  match p with Text s => s | Reference path => replacement (trim path) ctx end.

(** Texts have no opening brace, references no closing one. *)
Definition good_piece (p : piece) : Prop :=
  match p with
  | Text s => Forall (fun c => c <> 123) s
  | Reference path => Forall (fun c => c <> 125) path
  end.

Lemma interpolate_text fuel s rest ctx out :
  Forall (fun c => c <> 123) s -> interpolate_loop (S fuel) (s ++ rest) ctx out = interpolate_loop (S fuel) rest ctx (out ++ s).
Proof.
  intros Hs. simpl.
  assert (H : split_once open2 (s ++ rest) = (fun ab => (s ++ fst ab, snd ab)) <$> split_once open2 rest).
  { change open2 with [123; 123]. induction Hs as [|c s Hc Hs IH]; [simpl; by destruct (split_once _ rest) as [[]|]|].
    cbn [app split_once strip_prefix]. replace (123 =? c) with false by lia. rewrite IH.
    by destruct (split_once _ rest) as [[a b]|]. }
  rewrite H. destruct (split_once open2 rest) as [[a b]|]; simpl; [|by rewrite app_assoc].
  destruct (split_once close2 b) as [[c d]|]; simpl; by rewrite <- !app_assoc.
Qed.

Lemma interpolate_reference fuel path rest ctx out :
  Forall (fun c => c <> 125) path ->
  interpolate_loop (S fuel) (open2 ++ path ++ close2 ++ rest) ctx out
  = interpolate_loop fuel rest ctx (out ++ replacement (trim path) ctx).
Proof.
  intros Hp. cbn [interpolate_loop].
  change (split_once open2 (open2 ++ path ++ close2 ++ rest)) with (Some ([] : str, path ++ close2 ++ rest)).
  cbv iota beta. change close2 with [125; 125]. by rewrite (split_once_app 125 [125] path rest Hp).
Qed.

Lemma interpolate_pieces ps ctx : forall fuel out,
  Forall good_piece ps -> (length (flat_map source ps) < fuel)%nat ->
  interpolate_loop fuel (flat_map source ps) ctx out = out ++ flat_map (meaning ctx) ps.
Proof.
  induction ps as [|[s|path] ps IH]; intros fuel out Hg Hf; (destruct fuel as [|fuel]; [simpl in Hf; lia|]).
  - simpl. by rewrite app_nil_r.
  - apply Forall_cons in Hg as [Hs Hg]. simpl flat_map in *. rewrite length_app in Hf.
    rewrite interpolate_text, IH by (done || lia). by rewrite <- app_assoc.
  - apply Forall_cons in Hg as [Hp Hg]. simpl flat_map in *. simpl in Hf. rewrite !length_app in Hf. simpl in Hf.
    pose proof (interpolate_reference fuel path (flat_map source ps) ctx out Hp) as E.
    rewrite <- !app_assoc. simpl in E |- *. rewrite E, IH by (done || lia). by rewrite <- app_assoc.
Qed.

(** A text with embedded references is rendered piece by piece: texts unchanged, each
    reference by the text of what it resolves to, or by itself without the spaces
    around its path. *)
Theorem interpolate_meaning ps ctx (Hg : Forall good_piece ps) :
  interpolate (flat_map source ps) ctx = flat_map (meaning ctx) ps.
Proof. unfold interpolate. by rewrite interpolate_pieces by (done || lia). Qed.

(** Whatever follows [trigger.payload] without a dot is ignored: the reference yields the
    whole payload, where the documentation promises to leave it as it is. *)
Theorem payload_prefix_captures suffix ctx
  (Hs : Forall (fun c => c <> ch_dot /\ plain c) suffix) :
  resolve (lit "trigger.payload" ++ suffix) ctx = Some (payload ctx).
Proof.
  unfold resolve. rewrite trim_plain.
  - rewrite strip_prefix_app. destruct Hs as [|c s [Hc _] _]; [done|].
    assert (strip_prefix [ch_dot] (c :: s) = None) as ->; [|done].
    cbn [strip_prefix]. by replace (ch_dot =? c) with false by lia.
  - apply Forall_app. split; [by repeat constructor|]. eapply Forall_impl; [exact Hs|]. by intros ? [].
Qed.

End Render.

(** ** Evaluation *)

Section Examples.
Local Open Scope string_scope.
Local Existing Instance sample_text.

Definition upload_ctx : RenderCtx :=
  mkCtx (Object [(lit "file", Object [(lit "size", Num (PosInt 12))]); (lit "tags", Array [Str (lit "a"); Null])])
    (lit "on_upload") (lit "validate").

Example render_upload :
  render_value
    (Array [Str (lit " {{ trigger.payload.file.size }} "); Str (lit "{{trigger.payload.tags.0}}/{{trigger.workflow}}");
            Str (lit "{{trigger.payload.tags.1}}"); Str (lit "{{ other }} {{"); Str (lit "{{trigger.payload.nope}}")])
    upload_ctx
  = Array [Num (PosInt 12); Str (lit "a/validate"); Null; Str (lit "{{other}} {{"); Str (lit "{{trigger.payload.nope}}")].
Proof. by vm_compute. Qed.

Lemma interpolate_meaning_witness :
  interpolate (lit "{{trigger.workflow}}: {{trigger.payload.file.size}} bytes") upload_ctx = lit "validate: 12 bytes".
Proof.
  pose (ps := [Reference (lit "trigger.workflow"); Text (lit ": "); Reference (lit "trigger.payload.file.size"); Text (lit " bytes")]).
  assert (Hg : Forall good_piece ps) by (repeat constructor; by vm_compute).
  pose proof (interpolate_meaning ps upload_ctx Hg) as H. vm_compute in H. vm_compute. exact H.
Defined.

Lemma payload_prefix_captures_witness :
  resolve (lit "trigger.payload_id") upload_ctx = Some (payload upload_ctx).
Proof.
  assert (Hs : Forall (fun c => c <> ch_dot /\ plain c) (lit "_id")) by (repeat constructor; by vm_compute).
  exact (payload_prefix_captures (lit "_id") upload_ctx Hs).
Defined.

End Examples.

(** ** Schedules *)

(** ** Schedules, [spec.rs] *)

Inductive TriggerSpec : Type :=
| Cron (expression timezone : str) (jitter_secs : Z)
| Webhook (path : str) (secret_env : option str).

Record ScheduleSpec : Type := mkSchedule {
  id : str;
  workflow : str;
  inputs : Value;
  trigger : TriggerSpec;
  enabled : bool;
  max_concurrent : Z;
}.

(** The text of [Validation]: the arguments of its [format!]. *)
Inductive ScheduleProblem : Type :=
| EmptyId
| EmptyWorkflow (id : str)
| PathWithoutSlash (id : str).

Inductive SchedulerError : Type :=
| InvalidCron (expression message : str)
| InvalidTimezone (timezone : str)
| DuplicateId (id : str)
| Validation (p : ScheduleProblem).

Class Crates : Type := {
  cron_error : str -> option str;
  known_timezone : str -> bool;
  hmac_hex : list Z -> list Z -> str;
  hmac_hex_ascii secret body : Forall (fun c => is_ascii c = true) (hmac_hex secret body);
  parse_body : list Z -> result str Value;
  routes_overlap : str -> str -> bool;
  routes_overlap_refl p : routes_overlap p p = true;
}.

Inductive TriggerKind : Type := CronTrigger | WebhookTrigger.

Record TriggerFire : Type := mkFire {
  kind : TriggerKind;
  schedule_id : str;
  fire_workflow : str;
  fire_inputs : Value;
  fire_payload : Value;
  fired_at : Z;
}.

Section Scheduler.
Context {CR : Crates} {JT : JsonText}.

Definition validate (s : ScheduleSpec) : result SchedulerError unit :=
  if bool_decide (trim (id s) = []) then Err (Validation EmptyId)
  else if bool_decide (trim (workflow s) = []) then Err (Validation (EmptyWorkflow (id s)))
  else
    match trigger s with
    | Cron expression timezone _ =>
        match cron_error expression with
        | Some message => Err (InvalidCron expression message)
        | None => if known_timezone timezone then Ok tt else Err (InvalidTimezone timezone)
        end
    | Webhook path _ =>
        if bool_decide (trim path = []) || negb (starts_with [ch_slash] path)
        then Err (Validation (PathWithoutSlash (id s))) else Ok tt
    end.

(** [SchedulerConfig::from_specs]. *)
Fixpoint check_specs (schedules : list ScheduleSpec) (seen : gset str) : result SchedulerError unit :=
  match schedules with
  | [] => Ok tt
  | s :: schedules =>
      let? _ := validate s in
      if bool_decide (id s ∈ seen) then Err (DuplicateId (id s)) else check_specs schedules ({[id s]} ∪ seen)
  end.

Definition from_specs (schedules : list ScheduleSpec) : result SchedulerError (list ScheduleSpec) :=
  let? _ := check_specs schedules ∅ in Ok schedules.

(** ** Concurrency tracking *)

Abbreviation Tracker := (gmap str Z).

Definition in_flight (i : str) (t : Tracker) : Z := default 0 (t !! i).

Definition try_acquire (i : str) (max : Z) (t : Tracker) : Tracker * bool :=
  let n := in_flight i t in
  if max =? 0 then (<[i := (n + 1) mod 2 ^ 32]> t, true)
  else if max <=? n then (<[i := n]> t, false)
  else (<[i := (n + 1) mod 2 ^ 32]> t, true).

Definition release (i : str) (t : Tracker) : Tracker :=
  match t !! i with Some n => <[i := sat_sub n 1]> t | None => t end.

(** ** Signatures, [webhook.rs] *)

Definition compute_signature (secret body : list Z) : str := lit "sha256=" ++ hmac_hex secret body.

Definition constant_time_eq_ignore_prefix_case (expected got : str) : bool :=
  match split_once (lit "=") expected with
  | None => false
  | Some (a_prefix, a_hex) =>
      match split_once (lit "=") got with
      | None => false
      | Some (b_prefix, b_hex) =>
          if negb (eq_ignore_ascii_case a_prefix b_prefix) then false
          else if negb (bool_decide (length (bytes a_hex) = length (bytes b_hex))) then false
          else bool_decide (bytes a_hex = bytes b_hex)
      end
  end.

Definition verify_hub_signature_256 (secret body : list Z) (header_value : option str) : bool :=
  match header_value with
  | None => false
  | Some header => constant_time_eq_ignore_prefix_case (compute_signature secret body) header
  end.

(** ** Webhooks *)

Record WebhookState : Type := mkWebhook { hook_spec : ScheduleSpec; secret : option (list Z) }.

(** [build_webhook_router]: the routes, or [None] when the router panics. *)
Fixpoint add_routes (env : str -> option str) (schedules : list ScheduleSpec) (routes : list (str * WebhookState)) :
    option (list (str * WebhookState)) :=
  match schedules with
  | [] => Some routes
  | s :: schedules =>
      match enabled s, trigger s with
      | true, Webhook path secret_env =>
          let sec := var ← secret_env; bytes <$> env var in
          if existsb (fun r => routes_overlap (fst r) path) routes then None
          else add_routes env schedules (routes ++ [(path, mkWebhook s sec)])
      | _, _ => add_routes env schedules routes
      end
  end.

Definition build_webhook_router (env : str -> option str) (cfg : list ScheduleSpec) : option (list (str * WebhookState)) :=
  add_routes env cfg [].

Inductive Response : Type :=
| SecretMissing (var : str)
| InvalidSignature
| InvalidJson (message : str)
| MaxConcurrentExceeded (i : str) (in_flight max : Z)
| Enqueued (i workflow : str) (inputs : Value)
| SinkFailed (message : str).

Definition status (r : Response) : Z :=
  match r with
  | SecretMissing _ | SinkFailed _ => 500
  | InvalidSignature => 401
  | InvalidJson _ => 400
  | MaxConcurrentExceeded _ _ _ => 429
  | Enqueued _ _ _ => 202
  end.

(** [handle_webhook] up to the concurrency gate: the payload, or the refusal. *)
Definition check_request (h : WebhookState) (header : option str) (body : list Z) : result Response Value :=
  let? _ :=
    match trigger (hook_spec h) with
    | Webhook _ (Some var) =>
        match secret h with
        | None => Err (SecretMissing var)
        | Some key => if verify_hub_signature_256 key body header then Ok tt else Err InvalidSignature
        end
    | _ => Ok tt
    end in
  if bool_decide (body = []) then Ok (Object [])
  else map_err InvalidJson (parse_body body).

Definition make_fire (k : TriggerKind) (s : ScheduleSpec) (payload : Value) (now : Z) : TriggerFire :=
  mkFire k (id s) (workflow s) (render_value (inputs s) (mkCtx payload (id s) (workflow s))) payload now.

(** ** Interleaving *)

Section Sink.
Context {W : Type} (enqueue : TriggerFire -> W -> W * result str unit).

(** Where a thread is: between requests or wake-ups, past the gate with a slot, refused
    by the gate, or about to return the slot after the sink failed. *)
Inductive pc : Type :=
| Idle
| Acquired (k : TriggerKind) (s : ScheduleSpec) (payload : Value)
| Refused (k : TriggerKind) (s : ScheduleSpec)
| Failed (k : TriggerKind) (s : ScheduleSpec) (message : str).

(** [fires] and [terminals] record what the sink accepted and the host reported. *)
Record sys : Type := mkSys {
  counts : Tracker;
  world : W;
  threads : list pc;
  responses : list (nat * Response);
  fires : list TriggerFire;
  terminals : list str;
}.

Definition goto (t : nat) (p : pc) (y : sys) : sys :=
  mkSys (counts y) (world y) (<[t := p]> (threads y)) (responses y) (fires y) (terminals y).
Definition with_counts (c : Tracker) (y : sys) : sys :=
  mkSys c (world y) (threads y) (responses y) (fires y) (terminals y).
Definition respond (t : nat) (k : TriggerKind) (r : Response) (y : sys) : sys :=
  match k with
  | WebhookTrigger => mkSys (counts y) (world y) (threads y) (responses y ++ [(t, r)]) (fires y) (terminals y)
  | CronTrigger => y
  end.
Definition sunk (w : W) (l : list TriggerFire) (y : sys) : sys :=
  mkSys (counts y) w (threads y) (responses y) (fires y ++ l) (terminals y).
Definition reported (i : str) (y : sys) : sys :=
  mkSys (counts y) (world y) (threads y) (responses y) (fires y) (terminals y ++ [i]).

(** The gate. *)
Definition acquire (t : nat) (k : TriggerKind) (s : ScheduleSpec) (payload : Value) (y : sys) : sys :=
  let (c, granted) := try_acquire (id s) (max_concurrent s) (counts y) in
  goto t (if granted then Acquired k s payload else Refused k s) (with_counts c y).

(** A request or a wake-up of a cron task, on an idle thread. *)
Definition arrive (t : nat) (h : WebhookState) (header : option str) (body : list Z) (y : sys) : sys :=
  match check_request h header body with
  | Err r => respond t WebhookTrigger r y
  | Ok payload => acquire t WebhookTrigger (hook_spec h) payload y
  end.
Definition wake (t : nat) (s : ScheduleSpec) (y : sys) : sys := acquire t CronTrigger s (Object []) y.

(** The next operation of a thread that is past the gate. *)
Definition proceed (t : nat) (now : Z) (p : pc) (y : sys) : option sys :=
  match p with
  | Idle => None
  | Acquired k s payload =>
      let f := make_fire k s payload now in
      Some (match enqueue f (world y) with
            | (w, Ok _) => goto t Idle (respond t k (Enqueued (id s) (workflow s) (fire_inputs f)) (sunk w [f] y))
            | (w, Err e) => goto t (Failed k s e) (sunk w [] y)
            end)
  | Refused k s =>
      Some (goto t Idle
              (respond t k (MaxConcurrentExceeded (id s) (in_flight (id s) (counts y)) (max_concurrent s)) y))
  | Failed k s e => Some (goto t Idle (respond t k (SinkFailed e) (with_counts (release (id s) (counts y)) y)))
  end.

(** [SchedulerHandle::mark_terminal]. *)
Definition mark_terminal (i : str) (y : sys) : sys := reported i (with_counts (release i (counts y)) y).

Inductive choice : Type :=
| Request (t : nat) (h : WebhookState) (header : option str) (body : list Z)
| Tick (t : nat) (s : ScheduleSpec)
| Step (t : nat) (now : Z)
| Terminal (i : str).

Definition idle (t : nat) (y : sys) : option unit :=
  match threads y !! t with Some Idle => Some tt | _ => None end.

Definition exec1 (c : choice) (y : sys) : option sys :=
  match c with
  | Request t h header body => _ ← idle t y; Some (arrive t h header body y)
  | Tick t s => _ ← idle t y; Some (wake t s y)
  | Step t now => p ← threads y !! t; proceed t now p y
  | Terminal i => Some (mark_terminal i y)
  end.

Fixpoint exec (l : list choice) (y : sys) : option sys :=
  match l with
  | [] => Some y
  | c :: l => y' ← exec1 c y; exec l y'
  end.

Definition init (n : nat) (w : W) : sys := mkSys ∅ w (replicate n Idle) [] [] [].

End Sink.

(** ** Cron times *)

(** [upcoming(tz).next()] of the parsed expression. *)
Section Cron.
Context (upcoming : Z -> option Z).

(** The draw of [jitter_duration]: milliseconds up to its bound. *)
Definition jitter_bound (s : ScheduleSpec) : Z :=
  match trigger s with Cron _ _ secs => sat_mul u64_max secs 1000 * 1000000 | Webhook _ _ => 0 end.

Definition cron_delay (now next extra : Z) : Z :=
  let delay := Z.max (next - now) 0 + extra in
  if delay =? 0 then 1000000 else delay.

(** What one turn of the loop of [spawn_cron_task] meets: the two readings of the clock,
    the draw, by how much the timer is late, and whether the gate admits the fire. *)
Record Turn : Type := mkTurn { now1 : Z; now2 : Z; extra : Z; late : Z; admitted : bool }.

Definition wake_time (u : Turn) (next : Z) : Z := now2 u + cron_delay (now1 u) next (extra u) + late u.

(** The occurrences the turns wait for, with the time each is served and whether it fired;
    the loop ends when there is none. *)
Fixpoint cron_run (turns : list Turn) : list (Z * Z * bool) :=
  match turns with
  | [] => []
  | u :: turns =>
      match upcoming (now2 u) with
      | None => []
      | Some next => (next, wake_time u next, admitted u) :: cron_run turns
      end
  end.

(** Turns that follow one another: after a refusal the task sleeps another 500 ms. *)
Definition follows (u u' : Turn) : Prop :=
  forall next, upcoming (now2 u) = Some next ->
    wake_time u next + (if admitted u then 0 else 500000000) <= now1 u' <= now2 u'.
End Cron.

(** ** Ownership *)

(** Who holds the [Arc] of the inner state: handles, webhook routes (with their router)
    and running cron tasks. *)
Record Owners : Type := mkOwners { handles : nat; router : bool; tasks : list str }.

Definition is_cron (s : ScheduleSpec) : bool := match trigger s with Cron _ _ _ => true | _ => false end.
Definition is_webhook (s : ScheduleSpec) : bool := match trigger s with Webhook _ _ => true | _ => false end.

(** [SchedulerService::start]: the owners once every enabled trigger is set up. *)
Definition start (cfg : list ScheduleSpec) : Owners :=
  mkOwners 1 (existsb (fun s => enabled s && is_webhook s) cfg)
    (map id (base.filter (fun s => enabled s && is_cron s = true) cfg)).

(** Whether the inner state was dropped; its [Drop] would then abort the tasks. *)
Definition dropped (o : Owners) : bool :=
  bool_decide (handles o = 0%nat) && negb (router o) && bool_decide (tasks o = []).

Inductive owner_op : Type := CloneHandle | DropHandle | DropRouter | Shutdown.

Definition owner_exec (op : owner_op) (o : Owners) : Owners :=
  let o :=
    match op with
    | CloneHandle => mkOwners (if bool_decide (handles o = 0%nat) then 0 else S (handles o)) (router o) (tasks o)
    | DropHandle => mkOwners (pred (handles o)) (router o) (tasks o)
    | DropRouter => mkOwners (handles o) false (tasks o)
    | Shutdown => mkOwners (handles o) (router o) (if bool_decide (handles o = 0%nat) then tasks o else [])
    end in
  if dropped o then mkOwners (handles o) (router o) [] else o.

End Scheduler.
