(* ===== verification/SchedulerProps.v ===== *)
(** Theorems on the scheduler ([Scheduler.v]): accepted configurations, signatures, the
    answer to a request, admission under every interleaving, the times of cron fires,
    and what dropping the handle does not do. *)

From S2P Require Import Prelude Text Json Scheduler.

Local Open Scope Z_scope.

Section Configuration.
Context {CR : Crates} {JT : JsonText}.

(** ** Configurations *)

Definition spec_ok (s : ScheduleSpec) : Prop :=
  trim (id s) <> [] /\ trim (workflow s) <> [] /\
  match trigger s with
  | Cron expression timezone _ => cron_error expression = None /\ known_timezone timezone = true
  | Webhook path _ => trim path <> [] /\ exists rest, path = ch_slash :: rest
  end.

Lemma validate_schedule_spec s : validate s = Ok tt <-> spec_ok s.
Proof.
  unfold validate, spec_ok. case_bool_decide as Hi; [naive_solver|]. case_bool_decide as Hw; [naive_solver|].
  destruct (trigger s) as [expression timezone j|path env].
  - destruct (cron_error expression); [naive_solver|]. destruct (known_timezone timezone); naive_solver.
  - pose proof (starts_with_spec [ch_slash] path) as Hs. simpl in Hs.
    case_bool_decide as Hp; simpl; [naive_solver|]. destruct (starts_with [ch_slash] path); simpl.
    + split; [intros _; split_and!; [done..|by apply Hs]|done].
    + split; [done|]. intros (_ & _ & _ & Hr). by apply Hs in Hr.
Qed.

Lemma check_specs_spec l seen :
  check_specs l seen = Ok tt <-> Forall spec_ok l /\ NoDup (map id l) /\ forall i, i ∈ map id l -> (i ∉ seen).
Proof.
  revert seen. induction l as [|s l IH]; intros seen; simpl.
  - split; [|done]. intros _. split; [constructor|]. split; [constructor|]. intros i Hi. by apply not_elem_of_nil in Hi.
  - pose proof (validate_schedule_spec s) as Hs. rewrite Forall_cons, NoDup_cons. destruct (validate s) as [[]|e]; simpl; [|naive_solver].
    case_bool_decide as Hin.
    + split; [done|]. intros (_ & _ & H). destruct (H (id s)); [by left|done].
    + rewrite IH. setoid_rewrite elem_of_cons. setoid_rewrite elem_of_union. setoid_rewrite elem_of_singleton. naive_solver.
Qed.

(** A set of schedules is accepted exactly when each has an identifier, a workflow and a
    trigger that parses, and no two share an identifier.  The webhook paths are not
    compared: two accepted schedules on one path make the router panic. *)
Theorem from_specs_exact l :
  (from_specs l = Ok l <-> Forall spec_ok l /\ NoDup (map id l)) /\
  (forall s s' path e e' l1 l2 l3 env, l = l1 ++ s :: l2 ++ s' :: l3 -> enabled s = true -> enabled s' = true ->
     trigger s = Webhook path e -> trigger s' = Webhook path e' -> build_webhook_router env l = None).
Proof.
  split.
  - unfold from_specs. pose proof (check_specs_spec l ∅) as H. destruct (check_specs l ∅) as [[]|e]; simpl.
    + split; [intros _|done]. destruct (proj1 H eq_refl) as (H1 & H2 & _). done.
    + split; [done|]. intros [H1 H2]. discriminate (proj2 H (conj H1 (conj H2 (fun i _ => not_elem_of_empty i)))).
  - intros s s' path e e' l1 l2 l3 env -> He He' Ht Ht'. unfold build_webhook_router. generalize (@nil (str * WebhookState)).
    assert (Hconflict : forall l routes, (exists h, (path, h) ∈ routes) -> add_routes env (l ++ s' :: l3) routes = None).
    { induction l as [|x l IH]; intros routes (h & Hh); simpl.
      - rewrite He', Ht'. destruct (existsb _ routes) eqn:E; [done|]. rewrite <- not_true_iff_false in E. destruct E.
        apply existsb_exists. exists (path, h). rewrite <- list_elem_of_In. split; [done|]. apply routes_overlap_refl.
      - destruct (enabled x), (trigger x); try (apply IH; by exists h). case_match; [done|].
        apply IH. exists h. apply elem_of_app. by left. }
    induction l1 as [|x l1 IH]; intros routes; simpl.
    + rewrite He, Ht. case_match; [done|]. apply Hconflict. eexists. apply elem_of_app. right. by left.
    + destruct (enabled x), (trigger x); try apply IH. by case_match.
Qed.

(** ** Signatures *)

(** A request signature is accepted exactly when it is [sha256=], in any case, followed
    by the hexadecimal HMAC of the body under the secret, byte for byte.  (A header
    value that is text is ASCII.) *)
Theorem signature_exact secret body header
  (Hheader : forall h, header = Some h -> Forall (fun c => is_ascii c = true) h) :
  verify_hub_signature_256 secret body header = true <->
  exists prefix, header = Some (prefix ++ lit "=" ++ hmac_hex secret body) /\
    map ascii_lowercase prefix = lit "sha256".
Proof.
  pose proof (hmac_hex_ascii secret body) as Hhex.
  unfold verify_hub_signature_256. destruct header as [h|]; [|naive_solver].
  specialize (Hheader h eq_refl). unfold constant_time_eq_ignore_prefix_case, compute_signature.
  change (lit "sha256=" ++ hmac_hex secret body) with (lit "sha256" ++ [61] ++ hmac_hex secret body).
  rewrite (split_once_app 61 []) by (repeat constructor; done). cbv iota beta. change (lit "=") with [61].
  assert (Hprefix : forall prefix, map ascii_lowercase prefix = lit "sha256" -> Forall (fun c => c <> 61) prefix).
  { intros prefix E. apply Forall_forall. intros c Hc ->.
    assert (H61 : ascii_lowercase 61 ∈ map ascii_lowercase prefix) by (by apply list_elem_of_fmap_2). rewrite E in H61.
    by apply (bool_decide_unpack _) in H61 || (revert H61; vm_compute; set_solver). }
  split.
  - destruct (split_once [61] h) as [[a b]|] eqn:E; [|done].
    apply split_once_eq in E as ->. apply Forall_app in Hheader as [_ [_ Hb]%Forall_app].
    unfold eq_ignore_ascii_case. case_bool_decide as Ha; [|done]. simpl.
    rewrite !bytes_ascii by done. case_bool_decide; [|done]. simpl. rewrite bool_decide_eq_true. intros <-. by exists a.
  - intros (prefix & [= ->] & Hp). pose proof (split_once_app 61 [] prefix (hmac_hex secret body) (Hprefix prefix Hp)) as E. simpl app in E. rewrite E.
    unfold eq_ignore_ascii_case. rewrite Hp. by rewrite !bool_decide_true.
Qed.

End Configuration.

(** ** Admission *)

Section Admission.
Context {CR : Crates} {JT : JsonText} {W : Type} (enqueue : TriggerFire -> W -> W * result str unit).

Lemma in_flight_insert i j n t : in_flight i (<[j := n]> t) = if bool_decide (j = i) then n else in_flight i t.
Proof.
  unfold in_flight. case_bool_decide as Hj; [subst; by rewrite lookup_insert_eq|by rewrite lookup_insert_ne].
Qed.

(** Whether the gate has a slot. *)
Definition has_slot (j : str) (max : Z) (t : gmap str Z) : bool := (max =? 0) || (in_flight j t <? max).

Lemma in_flight_acquire i j max t :
  snd (try_acquire j max t) = has_slot j max t /\
  in_flight i (fst (try_acquire j max t)) =
    if has_slot j max t && bool_decide (j = i) then (in_flight i t + 1) mod 2 ^ 32 else in_flight i t.
Proof.
  unfold try_acquire, has_slot. destruct (max =? 0); [|rewrite Z.ltb_antisym; destruct (max <=? in_flight j t)]; simpl;
    (split; [done|]); rewrite in_flight_insert; case_bool_decide as Hj; by subst.
Qed.

Lemma in_flight_release i j t :
  (forall x, 0 <= in_flight x t) ->
  in_flight i (release j t) = if bool_decide (j = i) then Z.max (in_flight i t - 1) 0 else in_flight i t.
Proof.
  intros Hpos. unfold release, sat_sub. specialize (Hpos j). destruct (t !! j) as [n|] eqn:E.
  - rewrite in_flight_insert. case_bool_decide as Hj; [|done]. subst j. unfold in_flight. by rewrite E.
  - case_bool_decide as Hj; [|done]. subst j. unfold in_flight. by rewrite E.
Qed.

Lemma refusal_status h header body r : check_request h header body = Err r -> status r <> 202.
Proof.
  unfold check_request. intros H.
  destruct (trigger (hook_spec h)) as [|path [var|]]; [|destruct (secret h); [destruct (verify_hub_signature_256 _ _ _)|]|];
    simpl in H; try (by simplify_eq); case_bool_decide; try done;
    destruct (parse_body body); simpl in H; by simplify_eq.
Qed.

(** What one request does when nothing else happens before it is answered. *)
Theorem webhook_answer t h header body now y
  (Hidle : idle t y = Some tt) (Hpos : forall i, 0 <= in_flight i (counts y) < u32_max) :
  let s := hook_spec h in
  exists n y' r,
    exec enqueue (Request t h header body :: replicate n (Step t now)) y = Some y' /\ idle t y' = Some tt /\
    responses y' = responses y ++ [(t, r)] /\
    (forall i, in_flight i (counts y') = in_flight i (counts y) + (if (status r =? 202) && bool_decide (id s = i) then 1 else 0)) /\
    match check_request h header body with
    | Err refusal => r = refusal /\ world y' = world y /\ fires y' = fires y
    | Ok payload =>
        if negb (has_slot (id s) (max_concurrent s) (counts y))
        then r = MaxConcurrentExceeded (id s) (in_flight (id s) (counts y)) (max_concurrent s) /\
             world y' = world y /\ fires y' = fires y
        else
          let f := make_fire WebhookTrigger s payload now in
          world y' = fst (enqueue f (world y)) /\
          match snd (enqueue f (world y)) with
          | Ok _ => r = Enqueued (id s) (workflow s) (fire_inputs f) /\ fires y' = fires y ++ [f]
          | Err e => r = SinkFailed e /\ fires y' = fires y
          end
    end.
Proof.
  cbv zeta. unfold idle in Hidle. destruct (threads y !! t) as [[| | |]|] eqn:Et; [clear Hidle|discriminate Hidle..].
  assert (Hlt : (t < length (threads y))%nat) by (by eapply lookup_lt_Some).
  assert (Hn : forall i, (in_flight i (counts y) + 1) mod 2 ^ 32 = in_flight i (counts y) + 1).
  { intros i. specialize (Hpos i). unfold u32_max in Hpos. apply Z.mod_small. lia. }
  set (s := hook_spec h). cbn [exec exec1]. unfold idle at 1. rewrite Et. cbn [mbind option_bind]. unfold arrive. fold s.
  destruct (check_request h header body) as [payload|refusal] eqn:Ec.
  2: { exists 0%nat. eexists _, refusal. cbn [replicate exec respond mbind option_bind]. split; [reflexivity|].
       unfold idle. simpl. rewrite Et. split; [done|]. split; [done|]. split; [|done].
       intros i. apply refusal_status in Ec. replace (status refusal =? 202) with false by lia. simpl. lia. }
  unfold acquire. pose proof (fun i => in_flight_acquire i (id s) (max_concurrent s) (counts y)) as Ha.
  destruct (try_acquire (id s) (max_concurrent s) (counts y)) as [c granted]. simpl in Ha.
  rewrite (proj1 (Ha [])). destruct (has_slot (id s) (max_concurrent s) (counts y)); simpl negb; cbv iota.
  - assert (Hc : forall i, in_flight i c = in_flight i (counts y) + (if bool_decide (id s = i) then 1 else 0)).
    { intros i. rewrite (proj2 (Ha i)). simpl. rewrite Hn. case_bool_decide; lia. }
    destruct (enqueue (make_fire WebhookTrigger s payload now) (world y)) as [w [[]|e]] eqn:Ee.
    + exists 1%nat. eexists _, _. cbn [replicate exec exec1 goto threads with_counts].
      rewrite list_lookup_insert_eq by done.
      cbn [mbind option_bind proceed with_counts goto world]. rewrite Ee. cbn [mbind option_bind exec]. split; [reflexivity|].
      unfold idle. simpl. rewrite list_lookup_insert_eq by (by rewrite length_insert). split; [done|]. split; [reflexivity|].
      split; [|done]. exact Hc.
    + exists 2%nat. eexists _, _. cbn [replicate exec exec1 goto threads with_counts].
      rewrite list_lookup_insert_eq by done.
      cbn [mbind option_bind proceed with_counts goto world]. rewrite Ee.
      cbn [mbind option_bind exec exec1 goto threads sunk]. rewrite list_lookup_insert_eq by (by rewrite length_insert).
      cbn [mbind option_bind proceed exec]. split; [reflexivity|].
      unfold idle. simpl. rewrite list_lookup_insert_eq by (by rewrite !length_insert). split; [done|]. split; [reflexivity|].
      split; [|by rewrite app_nil_r]. intros i. change (status _ =? 202) with false. cbn [andb]. rewrite in_flight_release.
      * rewrite Hc. pose proof (Hpos i). case_bool_decide; lia.
      * intros x. rewrite Hc. pose proof (Hpos x). case_bool_decide; lia.
  - exists 1%nat. eexists _, _. cbn [replicate exec exec1 goto threads with_counts].
    rewrite list_lookup_insert_eq by done. cbn [mbind option_bind proceed exec]. split; [reflexivity|].
    unfold idle. simpl. rewrite list_lookup_insert_eq by (by rewrite length_insert). split; [done|]. split; [reflexivity|].
    simpl in Ha. rewrite (proj2 (Ha (id s))). split; [|done]. intros i. rewrite (proj2 (Ha i)). simpl. lia.
Qed.

(** *** Under every interleaving *)

(** The choices of a service over [cfg], each about a schedule of it. *)
Definition about (cfg : list ScheduleSpec) (c : choice) : Prop :=
  match c with Request _ h _ _ => hook_spec h ∈ cfg | Tick _ s => s ∈ cfg | _ => True end.

Definition spec_of (p : pc) : option ScheduleSpec :=
  match p with Idle => None | Acquired _ s _ | Refused _ s | Failed _ s _ => Some s end.

(** Slots in the hands of threads, fires accepted and completions reported, of one
    schedule. *)
Definition holds (i : str) (p : pc) : nat :=
  match p with Acquired _ s _ | Failed _ s _ => if bool_decide (id s = i) then 1 else 0 | _ => 0 end.
Definition held (i : str) (y : sys (W := W)) : Z := Z.of_nat (sum_list_with (holds i) (threads y)).
Definition fired (i : str) (y : sys (W := W)) : Z :=
  Z.of_nat (length (base.filter (fun f => schedule_id f = i) (fires y))).
Definition ended (i : str) (y : sys (W := W)) : Z :=
  Z.of_nat (length (base.filter (fun j => j = i) (terminals y))).

(** The host reports no completion of a schedule without a fire to complete. *)
Fixpoint honest (l : list choice) (y : sys) : Prop :=
  match l with
  | [] => True
  | c :: l =>
      match c with Terminal i => ended i y < fired i y | _ => True end /\
      match exec1 enqueue c y with Some y' => honest l y' | None => True end
  end.

Section OneSchedule.
Context (cfg : list ScheduleSpec) (Hids : NoDup (map id cfg)) (s : ScheduleSpec) (Hs : s ∈ cfg).
Context (Hmax : 0 < max_concurrent s <= u32_max).

Lemma same_spec s' : s' ∈ cfg -> id s' = id s -> s' = s.
Proof.
  intros Hs' E. apply list_elem_of_lookup in Hs as [n Hn], Hs' as [n' Hn'].
  assert (n' = n) as ->; [|congruence].
  eapply NoDup_lookup; [exact Hids|..]; rewrite list_lookup_fmap; [by rewrite Hn'|]. rewrite Hn. simpl. by rewrite E.
Qed.

(** The invariant; [exact] says that no slot was given back twice. *)
Record admission (exact : Prop) (y : sys) : Prop := {
  a_pos i : 0 <= in_flight i (counts y);
  a_max : in_flight (id s) (counts y) <= max_concurrent s;
  a_owed : held (id s) y + fired (id s) y <= in_flight (id s) (counts y) + ended (id s) y;
  a_exact : exact -> ended (id s) y <= fired (id s) y /\
    held (id s) y + fired (id s) y = in_flight (id s) (counts y) + ended (id s) y;
  a_specs p s' : p ∈ threads y -> spec_of p = Some s' -> s' ∈ cfg;
}.

(** One thread moves from [p] to [q]: what must be checked. *)
Lemma admission_move exact t p q y y' :
  admission exact y -> threads y !! t = Some p -> threads y' = <[t := q]> (threads y) ->
  (forall i, 0 <= in_flight i (counts y')) -> in_flight (id s) (counts y') <= max_concurrent s ->
  ended (id s) y' = ended (id s) y -> (forall s', spec_of q = Some s' -> s' ∈ cfg) ->
  fired (id s) y <= fired (id s) y' ->
  (let before := Z.of_nat (holds (id s) p) + fired (id s) y - in_flight (id s) (counts y) in
   let after := Z.of_nat (holds (id s) q) + fired (id s) y' - in_flight (id s) (counts y') in
   after <= before /\ (exact -> after = before)) ->
  admission exact y'.
Proof.
  intros [Hpos Hm Ho He Hsp] Hp Hq Hpos' Hm' Hend Hspec Hf [Hle Heq].
  pose proof (sum_insert (holds (id s)) _ _ _ q Hp) as Hsum.
  assert (Hheld : held (id s) y' + Z.of_nat (holds (id s) p) = held (id s) y + Z.of_nat (holds (id s) q)).
  { unfold held. rewrite Hq. lia. }
  split; [done|done|lia|intros Hex; specialize (He Hex); specialize (Heq Hex); lia|].
  intros p' s' Hin E. rewrite Hq in Hin. apply list_elem_of_lookup in Hin as [n Hn].
  apply list_lookup_insert_Some in Hn as [(-> & -> & _)|[_ Hn]]; [by apply Hspec|].
  apply (Hsp p'); [by eapply list_elem_of_lookup_2|done].
Qed.

Lemma acquire_admission exact t k s' payload y :
  admission exact y -> threads y !! t = Some Idle -> s' ∈ cfg -> admission exact (acquire t k s' payload y).
Proof.
  intros Hy Ht Hs'. unfold acquire.
  pose proof (fun i => in_flight_acquire i (id s') (max_concurrent s') (counts y)) as Ha.
  destruct (try_acquire (id s') (max_concurrent s') (counts y)) as [c granted]. simpl in Ha. rewrite (proj1 (Ha [])) in *.
  set (slot := has_slot (id s') (max_concurrent s') (counts y)) in *.
  pose proof (a_pos _ _ Hy) as Hpos. pose proof (a_max _ _ Hy) as Hm. pose proof (proj2 (Ha (id s))) as Hc.
  assert (Hin : slot = true -> id s' = id s -> in_flight (id s) (counts y) < max_concurrent s).
  { intros Hslot E. pose proof (same_spec s' Hs' E) as ->. unfold slot, has_slot in Hslot. bool_to_prop. lia. }
  apply (admission_move exact t Idle (if slot then Acquired k s' payload else Refused k s') y); simpl; try done.
  - intros i. rewrite (proj2 (Ha i)). destruct (slot && bool_decide (id s' = i)); [|apply Hpos]. apply Z.mod_pos_bound. lia.
  - rewrite Hc. destruct (slot && bool_decide (id s' = id s)) eqn:E; [|done]. bool_to_prop. rewrite bool_decide_eq_true in E.
    specialize (Hin (proj1 E) (proj2 E)). unfold u32_max in Hmax. specialize (Hpos (id s)). rewrite Z.mod_small; lia.
  - intros s2. destruct slot; simpl; congruence.
  - change (fired (id s) (goto t _ (with_counts c y))) with (fired (id s) y).
    rewrite Hc. destruct slot; simpl; [|done]. case_bool_decide as E; [|done].
    specialize (Hin eq_refl E). specialize (Hpos (id s)). unfold u32_max in Hmax. rewrite Z.mod_small; lia.
Qed.

(** The slot a thread holds is one of those counted, while the host is honest. *)
Lemma held_counted exact t p y :
  admission exact y -> threads y !! t = Some p -> exact -> Z.of_nat (holds (id s) p) <= in_flight (id s) (counts y).
Proof.
  intros Hy Ht Hex. destruct (a_exact _ _ Hy Hex) as [He Heq].
  pose proof (sum_insert (holds (id s)) _ _ _ Idle Ht) as Hsum. unfold held in Heq. simpl in Hsum. lia.
Qed.

Lemma proceed_admission exact t now p y y' :
  admission exact y -> threads y !! t = Some p -> proceed enqueue t now p y = Some y' -> admission exact y'.
Proof.
  intros Hy Ht H. pose proof (a_pos _ _ Hy) as Hpos. pose proof (a_max _ _ Hy) as Hm. pose proof (a_specs _ _ Hy p) as Hsp.
  pose proof (held_counted _ _ _ _ Hy Ht) as Hheld.
  destruct p as [|k s' payload|k s'|k s' e]; simpl in H; [done|..]; specialize (Hsp s' (list_elem_of_lookup_2 _ _ _ Ht) eq_refl).
  - destruct (enqueue (make_fire k s' payload now) (world y)) as [w [[]|e]]; simplify_eq.
    + assert (Hf : forall z : sys (W := W), fires z = fires y ++ [make_fire k s' payload now] ->
        fired (id s) z = fired (id s) y + (if bool_decide (id s' = id s) then 1 else 0)).
      { intros z Hz. unfold fired. rewrite Hz, filter_app, length_app.
        case_bool_decide as E; [rewrite filter_cons_True by done|rewrite filter_cons_False by done]; simpl; lia. }
      match goal with |- admission _ ?z => pose proof (Hf z ltac:(by destruct k)) as Hz end.
      apply (admission_move exact t (Acquired k s' payload) Idle y); try done; try (by destruct k).
      * rewrite Hz. case_bool_decide; lia.
      * rewrite Hz. simpl. replace (counts (respond _ _ _ _)) with (counts y) by (by destruct k).
        case_bool_decide; lia.
    + assert (Hf : fired (id s) (sunk w [] y) = fired (id s) y) by (unfold fired; simpl; by rewrite app_nil_r).
      apply (admission_move exact t (Acquired k s' payload) (Failed k s' e) y); try done.
      * intros s2 [= <-]. done.
      * change (fired (id s) y <= fired (id s) (sunk w [] y)). lia.
      * change (fired (id s) (goto t _ (sunk w [] y))) with (fired (id s) (sunk w [] y)). rewrite Hf. simpl. lia.
  - simplify_eq. by apply (admission_move exact t (Refused k s') Idle y); try done; destruct k.
  - simplify_eq.
    assert (Hc : forall z : sys (W := W), counts z = release (id s') (counts y) -> forall i,
      in_flight i (counts z) = if bool_decide (id s' = i) then Z.max (in_flight i (counts y) - 1) 0 else in_flight i (counts y)).
    { intros z -> i. by apply in_flight_release. }
    match goal with |- admission _ ?z => pose proof (Hc z ltac:(by destruct k)) as Hz end.
    apply (admission_move exact t (Failed k s' e) Idle y); try done; try (by destruct k).
    + intros i. rewrite Hz. specialize (Hpos i). case_bool_decide; lia.
    + rewrite Hz. case_bool_decide; lia.
    + rewrite Hz. simpl in *. specialize (Hpos (id s)).
      replace (fired (id s) (goto _ _ _)) with (fired (id s) y) by (by destruct k).
      case_bool_decide; [|lia]. split; [lia|]. intros Hex. specialize (Hheld Hex). lia.
Qed.

Lemma exec1_admission exact c y y' :
  admission exact y -> about cfg c -> exec1 enqueue c y = Some y' ->
  admission (exact /\ match c with Terminal i => ended i y < fired i y | _ => True end) y'.
Proof.
  intros Hy Hc H.
  assert (Hweak : forall P, admission exact y' -> admission (exact /\ P) y').
  { intros P [H1 H2 H3 H4 H5]. split; auto. intros [Hex _]. auto. }
  destruct c as [t h header body|t s'|t now|i]; simpl in *.
  - apply Hweak. unfold idle in H. destruct (threads y !! t) as [[| | |]|] eqn:Et; simpl in H; simplify_eq.
    unfold arrive. destruct (check_request h header body); [by apply acquire_admission|]. by destruct Hy.
  - apply Hweak. unfold idle in H. destruct (threads y !! t) as [[| | |]|] eqn:Et; simpl in H; simplify_eq.
    by apply acquire_admission.
  - apply Hweak. destruct (threads y !! t) as [p|] eqn:Et; [|done]. simpl in H. by eapply proceed_admission.
  - simplify_eq. destruct Hy as [Hpos Hm Ho He Hsp].
    assert (Hended : ended (id s) (mark_terminal i y) = ended (id s) y + (if bool_decide (i = id s) then 1 else 0)).
    { unfold ended. simpl. rewrite filter_app, length_app.
      case_bool_decide as E; [rewrite filter_cons_True by done|rewrite filter_cons_False by done]; simpl; lia. }
    pose proof (fun j => in_flight_release j i (counts y) Hpos) as Hr.
    split; simpl; rewrite ?Hr.
    + intros j. rewrite Hr. specialize (Hpos j). destruct (bool_decide (i = j)); lia.
    + case_bool_decide; lia.
    + rewrite Hended. change (held (id s) (mark_terminal i y)) with (held (id s) y).
      change (fired (id s) (mark_terminal i y)) with (fired (id s) y). case_bool_decide; lia.
    + intros [Hex Hlt]. rewrite Hended. change (held (id s) (mark_terminal i y)) with (held (id s) y).
      change (fired (id s) (mark_terminal i y)) with (fired (id s) y).
      destruct (He Hex) as [H1 H2]. case_bool_decide as E; [subst i|lia].
      assert (0 <= held (id s) y) by (unfold held; lia). lia.
    + exact Hsp.
Qed.

Lemma exec_admission l : forall exact y y',
  admission exact y -> Forall (about cfg) l -> exec enqueue l y = Some y' -> admission (exact /\ honest l y) y'.
Proof.
  induction l as [|c l IH]; intros exact y y' Hy Hl H; simpl in *.
  - simplify_eq. destruct Hy as [H1 H2 H3 H4 H5]. split; auto. intros [Hex _]. auto.
  - apply Forall_cons in Hl as [Hc Hl]. destruct (exec1 enqueue c y) as [y1|] eqn:E; [|done]. simpl in H.
    pose proof (IH _ _ _ (exec1_admission _ _ _ _ Hy Hc E) Hl H) as [H1 H2 H3 H4 H5].
    split; auto. intros (Hex & Hh & Hl'). apply H4. tauto.
Qed.

Lemma init_admission n w : admission True (init n w).
Proof.
  assert (E : forall i, in_flight i (counts (init n w)) = 0) by (intros i; unfold in_flight; simpl; by rewrite lookup_empty).
  assert (Hh : held (id s) (init n w) = 0).
  { unfold held. simpl. clear E. induction n as [|n IH]; [done|]. simpl. exact IH. }
  split; [intros i; by rewrite E|rewrite E; lia|by rewrite E, Hh|by rewrite E, Hh|].
  - intros p s' Hin Ep. apply elem_of_replicate in Hin as [-> _]. done.
Qed.

End OneSchedule.

(** C11: under every interleaving of requests, cron wake-ups, sink failures and completions, a
    schedule of an accepted configuration never has more fires at the sink than its limit
    and the completions reported so far; and while the host reports each completion once,
    the counter is exactly the slots in use: none is lost. *)
Theorem admission_bound (cfg : list ScheduleSpec) (n : nat) (w : W) l y (s : ScheduleSpec)
  (Hcfg : from_specs cfg = Ok cfg) (Hl : Forall (about cfg) l) (Hrun : exec enqueue l (init n w) = Some y)
  (Hs : s ∈ cfg) (Hmax : 0 < max_concurrent s <= u32_max) :
  in_flight (id s) (counts y) <= max_concurrent s /\
  fired (id s) y <= ended (id s) y + max_concurrent s /\
  (honest l (init n w) -> in_flight (id s) (counts y) = held (id s) y + fired (id s) y - ended (id s) y).
Proof.
  assert (Hids : NoDup (map id cfg)).
  { pose proof (check_specs_spec cfg ∅) as H. unfold from_specs in Hcfg. destruct (check_specs cfg ∅) as [[]|]; [|done].
    apply H. done. }
  pose proof (exec_admission cfg Hids s Hs Hmax l True _ _ (init_admission cfg s Hmax n w) Hl Hrun) as [H1 H2 H3 H4 _].
  assert (0 <= held (id s) y) by (unfold held; lia).
  split; [done|]. split; [lia|]. intros Hh. destruct (H4 (conj I Hh)). lia.
Qed.

End Admission.

(** ** Cron times *)

Section Times.
Context (upcoming : Z -> option Z) (occurs : Z -> Prop).

(** [upcoming t] is the first occurrence after [t]. *)
Definition first_after : Prop :=
  forall t n, upcoming t = Some n -> t < n /\ occurs n /\ forall m, occurs m -> t < m -> n <= m.

Context (Hup : first_after).

(** A turn with machine readings: the clock does not go back, timers are late only. *)
Definition turn_ok (bound : Z) (u : Turn) : Prop := now1 u <= now2 u /\ 0 <= extra u <= bound /\ 0 <= late u.

Fixpoint chained (turns : list Turn) : Prop :=
  match turns with
  | u :: ((u' :: _) as rest) => follows upcoming u u' /\ chained rest
  | _ => True
  end.

Lemma wake_after u next bound :
  turn_ok bound u -> upcoming (now2 u) = Some next -> next + extra u <= wake_time u next.
Proof.
  intros (H12 & He & Hl) Hn. apply Hup in Hn as (Hlt & _). unfold wake_time, cron_delay.
  destruct (_ =? 0) eqn:E; bool_to_prop; lia.
Qed.

Lemma cron_run_later bound turns t :
  Forall (turn_ok bound) turns -> chained turns -> (forall u, head turns = Some u -> t <= now2 u) ->
  Forall (fun x => t < fst (fst x)) (cron_run upcoming turns).
Proof.
  intros Hok. revert t. induction Hok as [|u turns Hu Hok IH]; intros t Hch Ht; simpl; [constructor|].
  specialize (Ht u eq_refl). destruct (upcoming (now2 u)) as [next|] eqn:En; [|constructor].
  pose proof (Hup _ _ En) as (Hlt & _). constructor; [simpl; lia|]. apply IH.
  - destruct turns as [|u' turns]; [done|]. apply Hch.
  - intros u' Hh. destruct turns as [|u2 turns]; [done|]. injection Hh as ->.
    destruct Hch as [Hf _]. specialize (Hf next En). pose proof (wake_after u next bound Hu En).
    destruct Hu as (? & ? & ?). destruct (admitted u); lia.
Qed.

(** Each fire of a cron schedule serves one occurrence, no earlier than it and the drawn
    jitter; the occurrences served increase strictly.  But the next occurrence is looked up
    only once a fire (and, after a refusal, half a second) is over: one that passes in
    between - in particular during the jitter - is never served. *)
Theorem cron_fires bound turns
  (Hok : Forall (turn_ok bound) turns) (Hch : chained turns) :
  Forall (fun x => occurs (fst (fst x)) /\ fst (fst x) <= snd (fst x)) (cron_run upcoming turns) /\
  StronglySorted (fun x y => fst (fst x) < fst (fst y)) (cron_run upcoming turns) /\
  forall l1 x y l2, cron_run upcoming turns = l1 ++ x :: y :: l2 -> snd (fst x) < fst (fst y).
Proof.
  induction Hok as [|u turns Hu Hok IH]; simpl.
  - split; [constructor|]. split; [constructor|]. intros [|? ?] x y l2 H; simpl in H; discriminate H.
  - destruct (upcoming (now2 u)) as [next|] eqn:En.
    2: { split; [constructor|]. split; [constructor|]. intros [|? ?] x y l2 H; simpl in H; discriminate H. }
    assert (Hch' : chained turns) by (destruct turns; [done|apply Hch]).
    destruct (IH Hch') as (H1 & H2 & H3). pose proof (wake_after u next bound Hu En) as Hw.
    pose proof (Hup _ _ En) as (Hlt & Ho & _).
    assert (Hnext : forall u', head turns = Some u' -> wake_time u next <= now2 u').
    { intros u' Hh. destruct turns as [|u2 turns]; [done|]. injection Hh as ->. destruct Hch as [Hf _].
      specialize (Hf next En). destruct (admitted u); lia. }
    pose proof (cron_run_later bound turns (wake_time u next) Hok Hch' Hnext) as Hlater.
    destruct Hu as (H12 & He & Hl). split; [|split].
    + constructor; [split; [done|simpl; lia]|done].
    + constructor; [done|]. eapply Forall_impl; [exact Hlater|]. simpl. lia.
    + intros [|z l1] x y l2 H; simpl in H; injection H as H0 H.
      * subst x. rewrite H in Hlater. apply Forall_cons in Hlater as [Hy _]. done.
      * by apply (H3 l1 x y l2).
Qed.

End Times.

(** ** Ownership *)

(** Running cron tasks keep the inner state alive, so that its [Drop] finds none to abort:
    whatever handles and routers are dropped, without [shutdown] every cron task of the
    service goes on running. *)
Theorem drop_cancels_nothing (cfg : list ScheduleSpec) (ops : list owner_op)
  (Hops : Shutdown ∉ ops) :
  tasks (foldl (fun o op => owner_exec op o) (start cfg) ops) = tasks (start cfg).
Proof.
  generalize (start cfg) as o. induction ops as [|op ops IH]; intros o; [done|]. simpl.
  apply not_elem_of_cons in Hops as [Hop Hops]. rewrite (IH Hops). unfold owner_exec.
  assert (Ht : tasks (match op with
    | CloneHandle => mkOwners (if bool_decide (handles o = 0%nat) then 0 else S (handles o)) (router o) (tasks o)
    | DropHandle => mkOwners (pred (handles o)) (router o) (tasks o)
    | DropRouter => mkOwners (handles o) false (tasks o)
    | Shutdown => mkOwners (handles o) (router o) (if bool_decide (handles o = 0%nat) then tasks o else [])
    end) = tasks o) by (by destruct op).
  destruct (dropped _) eqn:E; [|done]. unfold dropped in E. bool_to_prop. destruct E as [_ E].
  rewrite bool_decide_eq_true in E. simpl. congruence.
Qed.

(** ** Witnesses *)

Section Witnesses.

(** Crates to evaluate with: every expression parses, signatures are constant. *)
Definition sample_crates : Crates := {|
  cron_error _ := None;
  known_timezone _ := true;
  hmac_hex _ _ := lit "0af3";
  hmac_hex_ascii _ _ := proj1 (forallb_Forall is_ascii (lit "0af3")) eq_refl;
  parse_body b := Ok (Str b);
  routes_overlap p q := bool_decide (p = q);
  routes_overlap_refl p := bool_decide_eq_true_2 _ eq_refl;
|}.

Local Existing Instance sample_crates.
Local Existing Instance sample_text.

Definition upload : ScheduleSpec :=
  mkSchedule (lit "on_upload") (lit "validate") (Str (lit "{{trigger.payload}}"))
    (Webhook (lit "/hooks/upload") (Some (lit "SECRET"))) true 1.
Definition nightly : ScheduleSpec :=
  mkSchedule (lit "nightly") (lit "cleanup") Null (Cron (lit "0 0 3 * * *") (lit "UTC") 60) true 1.

Definition hook : WebhookState := mkWebhook upload (Some [1]).

(** A sink that accepts the first fire and fails afterwards. *)
Definition once (f : TriggerFire) (w : nat) : nat * result str unit :=
  (S w, if bool_decide (w = 0%nat) then Ok tt else Err (lit "full")).

Lemma from_specs_exact_witness :
  from_specs [upload; nightly] = Ok [upload; nightly] /\ build_webhook_router (fun _ => None) [upload; nightly; upload] = None.
Proof.
  split.
  - apply (from_specs_exact [upload; nightly]). split; [|by apply (bool_decide_unpack _); vm_compute].
    repeat constructor; try (by vm_compute). by exists (lit "hooks/upload").
  - refine (proj2 (from_specs_exact _) upload upload _ _ _ [] [nightly] [] _ eq_refl eq_refl eq_refl eq_refl eq_refl).
Defined.

Lemma signature_exact_witness :
  verify_hub_signature_256 [1] [2] (Some (lit "SHA256=0af3")) = true.
Proof.
  apply signature_exact; [intros h [= <-]; by apply (forallb_Forall is_ascii)|].
  exists (lit "SHA256"). by split.
Defined.

Lemma webhook_answer_witness :
  exists n y' r,
    exec once (Request 0 hook (Some (lit "sha256=0af3")) (lit "f.obj") :: replicate n (Step 0 7)) (init 1 0%nat) = Some y' /\
    responses y' = [(0%nat, r)] /\ r = Enqueued (lit "on_upload") (lit "validate") (Str (lit "f.obj")).
Proof.
  assert (Hpos : forall i, 0 <= in_flight i (counts (init 1 0%nat)) < u32_max).
  { intros i. unfold in_flight. simpl. rewrite lookup_empty. by vm_compute. }
  destruct (webhook_answer once 0 hook (Some (lit "sha256=0af3")) (lit "f.obj") 7 (init 1 0%nat) eq_refl Hpos)
    as (n & y' & r & He & _ & Hr & _ & H).
  exists n, y', r. split; [exact He|]. split; [exact Hr|].
  cbv zeta in H.
  assert (Hc : check_request hook (Some (lit "sha256=0af3")) (lit "f.obj") = Ok (Str (lit "f.obj"))) by (by vm_compute).
  rewrite Hc in H. apply H.
Defined.

(** Two requests and a completion: the second request comes while the slot is taken. *)
Definition two_requests : list choice :=
  [Request 0 hook (Some (lit "sha256=0af3")) []; Request 1 hook (Some (lit "sha256=0af3")) []; Step 0 1; Step 1 2;
   Terminal (lit "on_upload"); Tick 1 nightly; Step 1 3].

Lemma admission_bound_witness :
  exists y, exec once two_requests (init 2 0%nat) = Some y /\
    fired (lit "on_upload") y <= ended (lit "on_upload") y + 1 /\
    map (fun r => status (snd r)) (responses y) = [202; 429].
Proof.
  destruct (exec once two_requests (init 2 0%nat)) as [y|] eqn:E; [|vm_compute in E; discriminate E].
  exists y. split; [reflexivity|]. split; [|vm_compute in E; injection E as <-; by vm_compute].
  assert (Hcfg : from_specs [upload; nightly] = Ok [upload; nightly]) by (by vm_compute).
  assert (Hl : Forall (about [upload; nightly]) two_requests) by (repeat constructor).
  destruct (admission_bound once [upload; nightly] 2 0%nat two_requests y upload Hcfg Hl E ltac:(left) ltac:(by vm_compute))
    as (_ & H & _). exact H.
Defined.

(** Every five seconds, with a jitter of up to ten: the occurrences at 10 and 15 s are lost. *)
Definition every_five (t : Z) : option Z := Some ((t / 5000000000 + 1) * 5000000000).

Lemma cron_fires_witness :
  let turns := [mkTurn 1000000000 1000000000 9000000000 0 true; mkTurn 15500000000 15500000000 0 0 true] in
  map (fun x => fst (fst x)) (cron_run every_five turns) = [5000000000; 20000000000] /\
  Forall (fun x => fst (fst x) <= snd (fst x)) (cron_run every_five turns).
Proof.
  cbv zeta. split; [by vm_compute|].
  assert (Hup : first_after every_five (fun n => (5000000000 | n))).
  { intros t n Hn. injection Hn as <-.
    pose proof (Z.div_mod t 5000000000 ltac:(lia)). pose proof (Z.mod_pos_bound t 5000000000 ltac:(lia)).
    split; [lia|]. split; [by exists (t / 5000000000 + 1)|].
    intros m [k ->] Hlt. assert (t / 5000000000 < k) by (apply Z.div_lt_upper_bound; lia). lia. }
  pose proof (cron_fires every_five _ Hup 10000000000
    [mkTurn 1000000000 1000000000 9000000000 0 true; mkTurn 15500000000 15500000000 0 0 true]) as H.
  destruct H as (H & _).
  - repeat constructor; simpl; lia.
  - split; [|done]. intros next Hn. vm_compute in Hn. injection Hn as <-. vm_compute. split; discriminate.
  - eapply Forall_impl; [exact H|]. simpl. tauto.
Defined.

Lemma drop_cancels_nothing_witness :
  tasks (foldl (fun o op => owner_exec op o) (start [upload; nightly]) [DropHandle; DropRouter]) = [lit "nightly"].
Proof. rewrite drop_cancels_nothing; [by vm_compute|]. rewrite !not_elem_of_cons. by split_and!; try apply not_elem_of_nil. Defined.

End Witnesses.
