(* ===== verification/Shm.v ===== *)
(** Shared-memory buffers, [dcc-mcp-shm/src/buffer.rs].

    [ipckit::SharedMemory] is the class [Ipc]: named regions of bytes, reads and writes at
    an offset; [IpcLaws] states what the code relies on, [Regions] is a concrete instance.
    Several handles can map one region.  A byte is a number below 256, the header is
    little-endian; times are seconds.  A slice of an identifier that is not on a
    character boundary panics: [None]. *)

From S2P Require Import Prelude Json.

Local Open Scope Z_scope.

(** ** Shared memory *)

Class Ipc : Type := {
  os : Type;
  seg : Type;
  shm_create : str -> Z -> os -> os * result str seg;
  shm_open : str -> os -> result str seg;
  shm_size : seg -> os -> Z;
  shm_read : seg -> Z -> Z -> os -> result str (list Z);
  shm_write : seg -> Z -> list Z -> os -> os * result str unit;
  shm_unlink : str -> os -> os;
}.

(** [l] with [d] written at [off]. *)
Definition splice (off : Z) (d l : list Z) : list Z :=
  take (Z.to_nat off) l ++ d ++ drop (Z.to_nat off + length d) l.

(** The region a name or a handle denotes, and its bytes. *)
Class IpcLaws (ipc : Ipc) : Type := {
  named : os -> str -> option nat;
  region : seg -> nat;
  mem : os -> nat -> list Z;
  size_mem s o : shm_size s o = Z.of_nat (length (mem o (region s)));
  size_usize s o : shm_size s o <= usize_max;
  read_in s off len o :
    0 <= off -> 0 <= len -> off + len <= shm_size s o ->
    shm_read s off len o = Ok (take (Z.to_nat len) (drop (Z.to_nat off) (mem o (region s))));
  read_out s off len o : shm_size s o < off + len -> exists e, shm_read s off len o = Err e;
  write_in s off d o :
    0 <= off -> off + Z.of_nat (length d) <= shm_size s o ->
    exists o', shm_write s off d o = (o', Ok tt) /\ named o' = named o /\
      forall r, mem o' r = if bool_decide (r = region s) then splice off d (mem o r) else mem o r;
  write_out s off d o : shm_size s o < off + Z.of_nat (length d) -> exists e, shm_write s off d o = (o, Err e);
  create_new name n o :
    0 < n <= usize_max -> named o name = None ->
    exists o' s, shm_create name n o = (o', Ok s) /\ n <= shm_size s o' /\
      (forall name', named o' name' = if bool_decide (name' = name) then Some (region s) else named o name') /\
      (forall name', named o name' <> Some (region s)) /\
      (forall r, r <> region s -> mem o' r = mem o r);
  open_named name o r : named o name = Some r -> exists s, shm_open name o = Ok s /\ region s = r;
  open_missing name o : named o name = None -> exists e, shm_open name o = Err e;
  unlink_named name o : (forall name', named (shm_unlink name o) name' = if bool_decide (name' = name) then None else named o name')
    /\ forall r, mem (shm_unlink name o) r = mem o r;
}.

(** ** The header *)

Fixpoint le_bytes (n : nat) (z : Z) : list Z :=
  match n with O => [] | S n => z mod 256 :: le_bytes n (z / 256) end.
Definition le_value (l : list Z) : Z := foldr (fun b v => b + 256 * v) 0 l.

Record RegionHeader : Type := mkHeader {
  magic : Z;
  data_len : Z;
  capacity : Z;
  created_at_secs : Z;
  ttl_secs : Z;
  compressed : Z;
}.

Definition HEADER_MAGIC : Z := 15906713885269839105.
Definition HEADER_SIZE : Z := 48.
Definition SEGMENT_PREFIX : str := lit "ds_".
Definition MAX_SEGMENT_NAME_LEN : Z := 31.

(** [bytes_of] and [pod_read_unaligned]. *)
Definition header_bytes (h : RegionHeader) : list Z :=
  le_bytes 8 (magic h) ++ le_bytes 8 (data_len h) ++ le_bytes 8 (capacity h) ++ le_bytes 8 (created_at_secs h)
  ++ le_bytes 8 (ttl_secs h) ++ [compressed h] ++ replicate 7 0.

Definition field (i : nat) (l : list Z) : Z := le_value (take 8 (drop (8 * i) l)).

Definition header_from (l : list Z) : RegionHeader :=
  mkHeader (field 0 l) (field 1 l) (field 2 l) (field 3 l) (field 4 l) (nth 40 l 0).

(** ** Errors *)

Inductive ShmError : Type :=
| AlreadyExists (name : str)
| NotFound (name : str)
| BufferTooSmall (required available : Z)
| ChunkOutOfRange (index total : Z)
| IncompleteChunks (received total : Z)
| CompressionError (e : str)
| DecompressionError (e : str)
| PoolExhausted (capacity : Z)
| InvalidArgument (e : str)
| Internal (e : str).

(** ** Segment names *)

(** [&id[..n]]: the characters of the first [n] bytes. *)
Fixpoint byte_prefix (n : nat) (s : str) : option str :=
  match n, s with
  | O, _ => Some []
  | _, [] => None
  | _, c :: s => if (len_utf8 c <=? n)%nat then (fun p => c :: p) <$> byte_prefix (n - len_utf8 c) s else None
  end.

Definition segment_name (id : str) : option str :=
  let max_id_len := Z.to_nat (sat_sub MAX_SEGMENT_NAME_LEN (Z.of_nat (str_len SEGMENT_PREFIX))) in
  if (str_len id <=? max_id_len)%nat then Some (SEGMENT_PREFIX ++ id)
  else (fun p => SEGMENT_PREFIX ++ p) <$> byte_prefix max_id_len id.

Section Buffers.
Context {ipc : Ipc}.

(** ** Buffers *)

Record SharedBuffer : Type := mkBuffer { shm : seg; buf_capacity : Z; buf_id : str }.

Definition internal_error (what : string) (e : str) : ShmError := Internal (lit what ++ e).
Definition internal {A} (what : string) (r : result str A) : result ShmError A := map_err (internal_error what) r.

Definition read_header (s : seg) (o : os) : result ShmError RegionHeader :=
  if shm_size s o <? HEADER_SIZE then Err (Internal (lit "shm too small for header"))
  else
    let? b := internal "header read failed: " (shm_read s 0 HEADER_SIZE o) in
    let header := header_from b in
    if negb (magic header =? HEADER_MAGIC) then Err (Internal (lit "invalid magic bytes in header")) else Ok header.

Definition create_error (id e : str) : ShmError :=
  if contains (lit "already exists") e || contains (lit "AlreadyExists") e then AlreadyExists id else internal_error "SharedMemory::create failed: " e.
Definition open_error (name e : str) : ShmError :=
  if contains (lit "not found") e || contains (lit "NotFound") e then NotFound name else internal_error "SharedMemory::open failed: " e.

(** [SharedBuffer::create_with_ttl]; [None] is the panic of [segment_name]. *)
Definition create_with_ttl (id : str) (cap : Z) (ttl : option Z) (now : Z) (o : os) : option (os * result ShmError SharedBuffer) :=
  if cap =? 0 then Some (o, Err (InvalidArgument (lit "capacity must be greater than 0")))
  else
    let total := (HEADER_SIZE + cap) mod 2 ^ 64 in
    seg_name ← segment_name id;
    Some (match shm_create seg_name total o with
          | (o, Err e) => (o, Err (create_error id e))
          | (o, Ok s) =>
              let header := mkHeader HEADER_MAGIC 0 cap now (default 0 ttl) 0 in
              match shm_write s 0 (header_bytes header) o with
              | (o, Err e) => (o, Err (internal_error "header write failed: " e))
              | (o, Ok _) => (o, Ok (mkBuffer s cap id))
              end
          end).

Definition buffer_open (name id : str) (o : os) : result ShmError SharedBuffer :=
  let? s := map_err (open_error name) (shm_open name o) in
  if shm_size s o <? HEADER_SIZE then Err (InvalidArgument (lit "segment too small to be a SharedBuffer"))
  else
    let? b := internal "header read failed: " (shm_read s 0 HEADER_SIZE o) in
    let header := header_from b in
    if negb (magic header =? HEADER_MAGIC) then Err (Internal (lit "invalid magic bytes in header"))
    else Ok (mkBuffer s (capacity header) id).

(** The header [write] and [clear] store: the time fields are kept. *)
Definition next_header (b : SharedBuffer) (len : Z) (existing : RegionHeader) : RegionHeader :=
  mkHeader HEADER_MAGIC len (buf_capacity b) (created_at_secs existing) (ttl_secs existing) 0.

Definition buffer_write (b : SharedBuffer) (data : list Z) (o : os) : os * result ShmError Z :=
  let len := Z.of_nat (length data) in
  if buf_capacity b <? len then (o, Err (BufferTooSmall len (buf_capacity b)))
  else
    match read_header (shm b) o with
    | Err e => (o, Err e)
    | Ok existing =>
        match shm_write (shm b) 0 (header_bytes (next_header b len existing)) o with
        | (o, Err e) => (o, Err (internal_error "header write failed: " e))
        | (o, Ok _) =>
            match shm_write (shm b) HEADER_SIZE data o with
            | (o, Err e) => (o, Err (internal_error "data write failed: " e))
            | (o, Ok _) => (o, Ok len)
            end
        end
    end.

Definition buffer_read (b : SharedBuffer) (o : os) : result ShmError (list Z) :=
  let? header := read_header (shm b) o in
  let len := data_len header in
  if len =? 0 then Ok []
  else if shm_size (shm b) o <? (HEADER_SIZE + len) mod 2 ^ 64
  then Err (Internal (lit "header data_len exceeds shm size"))
  else internal "data read failed: " (shm_read (shm b) HEADER_SIZE len o).

Definition buffer_data_len (b : SharedBuffer) (o : os) : result ShmError Z :=
  let? header := read_header (shm b) o in Ok (data_len header).

Definition buffer_clear (b : SharedBuffer) (o : os) : os * result ShmError unit :=
  match read_header (shm b) o with
  | Err e => (o, Err e)
  | Ok existing =>
      match shm_write (shm b) 0 (header_bytes (next_header b 0 existing)) o with
      | (o, Err e) => (o, Err (internal_error "clear header write failed: " e))
      | (o, Ok _) => (o, Ok tt)
      end
  end.

Definition is_header_expired (now : Z) (h : RegionHeader) : bool :=
  if ttl_secs h =? 0 then false else ttl_secs h <? sat_sub now (created_at_secs h).

Definition is_expired (now : Z) (b : SharedBuffer) (o : os) : result ShmError bool :=
  let? header := read_header (shm b) o in Ok (is_header_expired now header).

(** ** Orphans *)

(** What [gc_orphans_scan] decides about a file of the directory.  The creation time is
    added to the epoch, which panics beyond 2^63 seconds. *)
Definition collectable (now max_age : Z) (fname : str) (o : os) : option bool :=
  if negb (starts_with SEGMENT_PREFIX fname) then Some false
  else
    match shm_open fname o with
    | Err _ => Some false
    | Ok s =>
        if shm_size s o <? HEADER_SIZE then Some false
        else
          match shm_read s 0 HEADER_SIZE o with
          | Err _ => Some false
          | Ok b =>
              let header := header_from b in
              if negb (magic header =? HEADER_MAGIC) then Some false
              else if i64_max <? created_at_secs header then None
              else
                Some (is_header_expired now header ||
                      ((ttl_secs header =? 0) && (max_age <? sat_sub now (created_at_secs header))))
          end
    end.

Fixpoint gc_orphans_scan (now max_age : Z) (dir : list str) (o : os) (removed : Z) : option (os * Z) :=
  match dir with
  | [] => Some (o, removed)
  | fname :: dir =>
      expired ← collectable now max_age fname o;
      if expired : bool then gc_orphans_scan now max_age dir (shm_unlink fname o) (removed + 1)
      else gc_orphans_scan now max_age dir o removed
  end.

(** ** Descriptors *)

Record BufferDescriptor : Type := mkDescriptor { d_id : str; d_name : str; d_capacity : Z; d_ttl_secs : Z }.

Definition from_buffer (b : SharedBuffer) (o : os) : option (result ShmError BufferDescriptor) :=
  match read_header (shm b) o with
  | Err e => Some (Err e)
  | Ok header => (fun name => Ok (mkDescriptor (buf_id b) name (buf_capacity b) (ttl_secs header))) <$> segment_name (buf_id b)
  end.

End Buffers.
