(* ===== verification/ShmProps.v ===== *)
(** Theorems on shared-memory buffers ([Shm.v]): the header's encoding, what a write makes
    every handle of the region read, and garbage collection. *)

From S2P Require Import Prelude Json Shm.

Local Open Scope Z_scope.

(** ** The header *)

Lemma le_bytes_length n z : length (le_bytes n z) = n.
Proof. revert z. induction n as [|n IH]; intros z; simpl; [done|]. by rewrite IH. Qed.

Lemma le_roundtrip n z : 0 <= z < 2 ^ (8 * Z.of_nat n) -> le_value (le_bytes n z) = z.
Proof.
  revert z. induction n as [|n IH]; intros z Hz; simpl.
  - change (8 * Z.of_nat 0) with 0 in Hz. simpl in Hz. lia.
  - replace (8 * Z.of_nat (S n)) with (8 + 8 * Z.of_nat n) in Hz by lia. rewrite Z.pow_add_r in Hz by lia.
    change (2 ^ 8) with 256 in Hz. rewrite IH.
    + pose proof (Z.div_mod z 256 ltac:(lia)). lia.
    + split; [apply Z.div_pos; lia|]. apply Z.div_lt_upper_bound; lia.
Qed.

Definition header_ok (h : RegionHeader) : Prop :=
  in_u64 (magic h) /\ in_u64 (data_len h) /\ in_u64 (capacity h) /\ in_u64 (created_at_secs h) /\ in_u64 (ttl_secs h) /\
  0 <= compressed h < 256.

Lemma header_bytes_length h : length (header_bytes h) = 48%nat.
Proof. unfold header_bytes. by rewrite !length_app, !le_bytes_length. Qed.

Lemma field_skip i a b : length a = 8%nat -> field (S i) (a ++ b) = field i b.
Proof.
  intros H. unfold field. replace (8 * S i)%nat with (length a + 8 * i)%nat by lia. by rewrite drop_app_add.
Qed.

Lemma field_here z b : in_u64 z -> field 0 (le_bytes 8 z ++ b) = z.
Proof.
  intros Hz. unfold field. change (8 * 0)%nat with 0%nat. rewrite drop_0.
  rewrite take_app_length' by (by rewrite le_bytes_length). apply le_roundtrip.
  unfold in_u64, u64_max in Hz. change (2 ^ (8 * Z.of_nat 8)) with 18446744073709551616. lia.
Qed.

(** A header of machine-width fields survives its 48 bytes of memory. *)
Lemma header_roundtrip h rest : header_ok h -> header_from (header_bytes h ++ rest) = h.
Proof.
  intros (H0 & H1 & H2 & H3 & H4 & H5). unfold header_from, header_bytes. rewrite <- !app_assoc.
  assert (Hn : nth 40 (le_bytes 8 (magic h) ++ le_bytes 8 (data_len h) ++ le_bytes 8 (capacity h)
    ++ le_bytes 8 (created_at_secs h) ++ le_bytes 8 (ttl_secs h) ++ [compressed h] ++ replicate 7 0 ++ rest) 0 = compressed h).
  { reflexivity. }
  rewrite Hn, !field_skip by apply le_bytes_length. rewrite !field_here by assumption. by destruct h.
Qed.

(** ** Reads and writes *)

Section Regions.
Context {ipc : Ipc} {laws : IpcLaws ipc}.

(** A region laid out as a buffer: its header and what follows. *)
Definition laid_out (o : os) (r : nat) (h : RegionHeader) (rest : list Z) : Prop :=
  mem o r = header_bytes h ++ rest /\ header_ok h /\ magic h = HEADER_MAGIC /\
  data_len h <= capacity h <= Z.of_nat (length rest) /\ HEADER_SIZE + Z.of_nat (length rest) < 2 ^ 64.

(** A handle on a buffer. *)
Definition handle_on (o : os) (b : SharedBuffer) (h : RegionHeader) (rest : list Z) : Prop :=
  laid_out o (region (shm b)) h rest /\ capacity h = buf_capacity b.

Lemma laid_out_size o s h rest : laid_out o (region s) h rest -> shm_size s o = HEADER_SIZE + Z.of_nat (length rest).
Proof.
  intros (Hm & _). rewrite size_mem, Hm, length_app, header_bytes_length. unfold HEADER_SIZE. lia.
Qed.

Lemma read_raw_header o s h rest :
  laid_out o (region s) h rest ->
  (shm_size s o <? HEADER_SIZE) = false /\ exists bs, shm_read s 0 HEADER_SIZE o = Ok bs /\ header_from bs = h.
Proof.
  intros Hl. pose proof (laid_out_size _ _ _ _ Hl) as Hsz. destruct Hl as (Hm & Hh & Hmagic & _).
  unfold HEADER_SIZE in *. split; [lia|]. eexists. rewrite read_in by lia. split; [reflexivity|].
  rewrite Hm. change (Z.to_nat 48) with 48%nat. change (Z.to_nat 0) with 0%nat.
  rewrite drop_0, take_app_length' by (by rewrite header_bytes_length).
  pose proof (header_roundtrip h [] Hh) as Hr. by rewrite app_nil_r in Hr.
Qed.

Lemma read_header_ok o s h rest : laid_out o (region s) h rest -> read_header s o = Ok h.
Proof.
  intros Hl. destruct (read_raw_header _ _ _ _ Hl) as (Hsz & bs & Hrd & Hh). destruct Hl as (_ & _ & Hmagic & _).
  unfold read_header. rewrite Hsz, Hrd. cbn [internal map_err rbind]. cbv zeta. by rewrite Hh, Hmagic.
Qed.

Lemma write_header_ok o s h h' rest :
  laid_out o (region s) h rest -> header_ok h' -> magic h' = HEADER_MAGIC -> data_len h' <= capacity h' <= Z.of_nat (length rest) ->
  exists o', shm_write s 0 (header_bytes h') o = (o', Ok tt) /\ named o' = named o /\
    laid_out o' (region s) h' rest /\ forall r, r <> region s -> mem o' r = mem o r.
Proof.
  intros Hl Hh' Hmagic Hcap. pose proof (laid_out_size _ _ _ _ Hl) as Hsz. destruct Hl as (Hm & _ & _ & _ & Hlt).
  destruct (write_in s 0 (header_bytes h') o) as (o' & Hw & Hn & Hmem).
  { lia. } { rewrite header_bytes_length, Hsz. unfold HEADER_SIZE. lia. }
  exists o'. split; [done|]. split; [done|]. split.
  - split; [|done]. rewrite Hmem, bool_decide_true by done. unfold splice. rewrite header_bytes_length, Hm.
    change (Z.to_nat 0 + 48)%nat with 48%nat. change (Z.to_nat 0) with 0%nat.
    rewrite take_0, drop_app_length' by (by rewrite header_bytes_length). done.
  - intros r Hr. by rewrite Hmem, bool_decide_false.
Qed.

Lemma write_data_ok o s h rest d :
  laid_out o (region s) h rest -> (length d <= length rest)%nat ->
  exists o', shm_write s HEADER_SIZE d o = (o', Ok tt) /\ named o' = named o /\
    laid_out o' (region s) h (d ++ drop (length d) rest) /\ forall r, r <> region s -> mem o' r = mem o r.
Proof.
  intros Hl Hd. pose proof (laid_out_size _ _ _ _ Hl) as Hsz. destruct Hl as (Hm & Hh & Hmagic & Hcap & Hlt).
  destruct (write_in s HEADER_SIZE d o) as (o' & Hw & Hn & Hmem).
  { by vm_compute. } { rewrite Hsz. lia. }
  assert (Hlen : length (d ++ drop (length d) rest) = length rest) by (rewrite length_app, length_drop; lia).
  exists o'. split; [done|]. split; [done|]. split.
  - split; [|by rewrite Hlen]. rewrite Hmem, bool_decide_true by done. unfold splice. rewrite Hm.
    change (Z.to_nat HEADER_SIZE) with 48%nat. rewrite take_app_length' by (by rewrite header_bytes_length).
    done.
  - intros r Hr. by rewrite Hmem, bool_decide_false.
Qed.

Lemma buffer_read_ok o b h rest :
  laid_out o (region (shm b)) h rest -> buffer_read b o = Ok (take (Z.to_nat (data_len h)) rest).
Proof.
  intros Hl. unfold buffer_read. rewrite (read_header_ok _ _ _ _ Hl). simpl.
  pose proof (laid_out_size _ _ _ _ Hl) as Hsz. destruct Hl as (Hm & Hh & _ & Hcap & Hlt).
  destruct Hh as (_ & Hd & _). unfold in_u64 in Hd. unfold HEADER_SIZE in *.
  destruct (data_len h =? 0) eqn:E0; bool_to_prop; [by rewrite E0|].
  rewrite Z.mod_small by lia. replace (shm_size (shm b) o <? 48 + data_len h) with false by lia.
  rewrite read_in by lia. simpl. rewrite Hm. change (Z.to_nat 48) with 48%nat.
  by rewrite drop_app_length' by (by rewrite header_bytes_length).
Qed.

Lemma next_header_ok b h (rest : list Z) len :
  header_ok h -> capacity h = buf_capacity b -> 0 <= len <= capacity h -> capacity h <= Z.of_nat (length rest) ->
  let h' := next_header b len h in header_ok h' /\ magic h' = HEADER_MAGIC /\ data_len h' <= capacity h' <= Z.of_nat (length rest).
Proof.
  intros (H0 & H1 & H2 & H3 & H4 & H5) Hc Hlen Hr. cbv zeta. unfold header_ok, next_header. simpl. rewrite <- Hc.
  unfold in_u64 in *. split_and!; try done; try lia; by vm_compute.
Qed.

Lemma buffer_write_ok b o h rest d :
  handle_on o b h rest -> Z.of_nat (length d) <= buf_capacity b ->
  exists o', buffer_write b d o = (o', Ok (Z.of_nat (length d))) /\ named o' = named o /\
    handle_on o' b (next_header b (Z.of_nat (length d)) h) (d ++ drop (length d) rest) /\
    forall r, r <> region (shm b) -> mem o' r = mem o r.
Proof.
  intros [Hl Hc] Hfit. unfold buffer_write. replace (_ <? _) with false by lia.
  rewrite (read_header_ok _ _ _ _ Hl). pose proof Hl as (Hm & Hh & Hmagic & Hcap & Hlt).
  destruct (next_header_ok b h rest (Z.of_nat (length d)) Hh Hc ltac:(lia) ltac:(lia)) as (Hh' & Hmagic' & Hcap').
  destruct (write_header_ok _ _ _ _ _ Hl Hh' Hmagic' Hcap') as (o1 & -> & Hn1 & Hl1 & Hf1).
  destruct (write_data_ok _ _ _ _ d Hl1 ltac:(lia)) as (o2 & -> & Hn2 & Hl2 & Hf2).
  exists o2. split; [reflexivity|]. split; [congruence|]. split; [by split|]. intros r Hr. by rewrite Hf2, Hf1.
Qed.

(** A write that fits is what every handle of the region reads afterwards, in any process;
    the creation time and the time to live survive it, and no other buffer changes.  One
    that does not fit changes nothing. *)
Theorem write_then_read b o h rest d
  (Hb : handle_on o b h rest) :
  if Z.of_nat (length d) <=? buf_capacity b then
    exists o' h', buffer_write b d o = (o', Ok (Z.of_nat (length d))) /\
      handle_on o' b h' (d ++ drop (length d) rest) /\
      created_at_secs h' = created_at_secs h /\ ttl_secs h' = ttl_secs h /\
      (forall b2, region (shm b2) = region (shm b) -> buffer_read b2 o' = Ok d) /\
      (forall b3 h3 rest3, laid_out o (region (shm b3)) h3 rest3 -> region (shm b3) <> region (shm b) ->
         buffer_read b3 o' = buffer_read b3 o)
  else buffer_write b d o = (o, Err (BufferTooSmall (Z.of_nat (length d)) (buf_capacity b))).
Proof.
  destruct (Z.of_nat (length d) <=? buf_capacity b) eqn:Efit; bool_to_prop.
  2: { unfold buffer_write. by replace (_ <? _) with true by lia. }
  destruct (buffer_write_ok _ _ _ _ d Hb Efit) as (o' & Hw & _ & Hb' & Hf). exists o'. eexists.
  split; [exact Hw|]. split; [exact Hb'|]. split; [done|]. split; [done|]. destruct Hb' as [Hl' _]. split.
  - intros b2 Hr. rewrite (buffer_read_ok o' b2 _ _ ltac:(rewrite Hr; exact Hl')). simpl.
    by rewrite Nat2Z.id, take_app_length.
  - intros b3 h3 rest3 Hl3 Hr. rewrite (buffer_read_ok o b3 _ _ Hl3). apply buffer_read_ok.
    destruct Hl3 as [Hm3 Hl3]. split; [|done]. by rewrite Hf.
Qed.

Lemma buffer_clear_ok b o h rest :
  handle_on o b h rest ->
  exists o', buffer_clear b o = (o', Ok tt) /\ named o' = named o /\ handle_on o' b (next_header b 0 h) rest /\
    forall r, r <> region (shm b) -> mem o' r = mem o r.
Proof.
  intros [Hl Hc]. unfold buffer_clear. rewrite (read_header_ok _ _ _ _ Hl). pose proof Hl as (Hm & Hh & Hmagic & Hcap & Hlt).
  assert (Hd : 0 <= data_len h) by apply Hh.
  destruct (next_header_ok b h rest 0 Hh Hc ltac:(lia) ltac:(lia)) as (Hh' & Hmagic' & Hcap').
  destruct (write_header_ok _ _ _ _ _ Hl Hh' Hmagic' Hcap') as (o1 & -> & Hn1 & Hl1 & Hf1).
  exists o1. split; [reflexivity|]. split; [done|]. split; [by split|done].
Qed.

(** Clearing empties a buffer for its readers, and leaves every byte of its data where it
    was. *)
Theorem clear_keeps_bytes b o h rest (Hb : handle_on o b h rest) :
  exists o' h', buffer_clear b o = (o', Ok tt) /\ handle_on o' b h' rest /\
    (forall b2, region (shm b2) = region (shm b) -> buffer_read b2 o' = Ok []) /\
    drop 48 (mem o' (region (shm b))) = drop 48 (mem o (region (shm b))).
Proof.
  destruct (buffer_clear_ok b o h rest Hb) as (o' & Hc & _ & Hb' & _). exists o'. eexists. split; [exact Hc|]. split; [exact Hb'|].
  destruct Hb as [[Hm _] _], Hb' as [Hl' _]. split.
  - intros b2 Hr. rewrite (buffer_read_ok o' b2 _ _ ltac:(rewrite Hr; exact Hl')). done.
  - destruct Hl' as [Hm' _]. rewrite Hm', Hm. by rewrite !drop_app_length' by (by rewrite header_bytes_length).
Qed.

(** ** Creation *)

Lemma create_ok id cap ttl now name o :
  segment_name id = Some name -> named o name = None -> 0 < cap -> in_u64 now -> in_u64 (default 0 ttl) -> HEADER_SIZE + cap < 2 ^ 64 ->
  exists o' b rest, create_with_ttl id cap ttl now o = Some (o', Ok b) /\ buf_id b = id /\ buf_capacity b = cap /\
    handle_on o' b (mkHeader HEADER_MAGIC 0 cap now (default 0 ttl) 0) rest /\
    (forall name', named o' name' = if bool_decide (name' = name) then Some (region (shm b)) else named o name') /\
    (forall name', named o name' <> Some (region (shm b))) /\ (forall r, r <> region (shm b) -> mem o' r = mem o r).
Proof.
  intros Hname Hfresh Hcap Hnow Httl Hmax.
  unfold create_with_ttl. replace (cap =? 0) with false by lia. rewrite Z.mod_small by (unfold HEADER_SIZE in *; lia).
  rewrite Hname. cbn [mbind option_bind].
  destruct (create_new name (HEADER_SIZE + cap) o) as (o1 & s & Hc & Hsz & Hnamed & Hnew & Hmem1);
    [unfold HEADER_SIZE, usize_max, u64_max in *; lia|done|].
  pose proof (size_usize s o1) as Hfits. unfold usize_max, u64_max in Hfits. rewrite Hc.
  set (h := mkHeader HEADER_MAGIC 0 cap now (default 0 ttl) 0).
  assert (Hh : header_ok h) by (unfold header_ok, in_u64, u64_max, HEADER_SIZE in *; simpl; split_and!; try lia; by vm_compute).
  destruct (write_in s 0 (header_bytes h) o1) as (o2 & Hw & Hn & Hmem).
  { lia. } { rewrite header_bytes_length. unfold HEADER_SIZE in *. lia. }
  rewrite Hw. set (rest := drop 48 (mem o1 (region s))).
  assert (Hlen : HEADER_SIZE + Z.of_nat (length rest) = shm_size s o1).
  { unfold rest. rewrite length_drop, size_mem. rewrite size_mem in Hsz. unfold HEADER_SIZE in *. lia. }
  exists o2, (mkBuffer s cap id), rest. split_and!; try done.
  - split; [|done]. split; [|split; [done|]; split; [done|]; simpl; lia]. rewrite Hmem, bool_decide_true by done. unfold splice.
    by rewrite header_bytes_length.
  - intros name'. by rewrite Hn, Hnamed.
  - intros r Hr. simpl in Hr. by rewrite Hmem, bool_decide_false, Hmem1.
Qed.

Lemma open_ok name id o r h rest :
  named o name = Some r -> laid_out o r h rest ->
  exists b, buffer_open name id o = Ok b /\ region (shm b) = r /\ buf_capacity b = capacity h.
Proof.
  intros Hn Hl. destruct (open_named _ _ _ Hn) as (s & Ho & <-). unfold buffer_open. rewrite Ho. cbn [rbind map_err].
  destruct (read_raw_header _ _ _ _ Hl) as (Hsz & bs & Hrd & Hhd). rewrite Hsz, Hrd. cbn [rbind internal map_err].
  cbv zeta. rewrite Hhd. destruct Hl as (_ & _ & -> & _). by exists (mkBuffer s (capacity h) id).
Qed.

(** A fresh buffer: its name is taken, its content empty, and opening the name - in this
    process or another - gives a handle on it with the capacity it was created with. *)
Theorem create_open id cap ttl now name o
  (Hname : segment_name id = Some name) (Hfresh : named o name = None)
  (Hcap : 0 < cap) (Hnow : in_u64 now) (Httl : in_u64 (default 0 ttl))
  (Hmax : HEADER_SIZE + cap < 2 ^ 64) :
  exists o' b, create_with_ttl id cap ttl now o = Some (o', Ok b) /\ buffer_read b o' = Ok [] /\
    (exists h rest, handle_on o' b h rest /\ ttl_secs h = default 0 ttl /\ created_at_secs h = now) /\
    (forall id', exists b2, buffer_open name id' o' = Ok b2 /\ region (shm b2) = region (shm b) /\ buf_capacity b2 = cap) /\
    from_buffer b o' = Some (Ok (mkDescriptor id name cap (default 0 ttl))).
Proof.
  destruct (create_ok id cap ttl now name o) as (o' & b & rest & Hc & Hid & Hcp & [Hl Hcb] & Hn & _); try assumption.
  exists o', b. split; [done|]. split; [by rewrite (buffer_read_ok _ _ _ _ Hl)|]. split; [by eexists _, rest|]. split.
  - intros id'. refine (open_ok name id' _ _ _ _ _ Hl). by rewrite Hn, bool_decide_true.
  - unfold from_buffer. by rewrite (read_header_ok _ _ _ _ Hl), Hid, Hname, Hcp.
Qed.

End Regions.

(** ** Garbage collection *)

Section Collection.
Context {ipc : Ipc} {laws : IpcLaws ipc}.

(** Past its time to live, or without one and older than the collector's age limit. *)
Definition stale (now max_age : Z) (h : RegionHeader) : bool :=
  if ttl_secs h =? 0 then created_at_secs h + max_age <? now else created_at_secs h + ttl_secs h <? now.

(** The buffer a name of the directory denotes, if it is one of ours. *)
Definition buffer_at (o : os) (fname : str) (h : option RegionHeader) : Prop :=
  match h with
  | Some h => starts_with SEGMENT_PREFIX fname = true /\ exists r rest, named o fname = Some r /\ laid_out o r h rest
  | None => starts_with SEGMENT_PREFIX fname = false \/ named o fname = None
  end.

Definition verdict (now max_age : Z) (h : option RegionHeader) : option bool :=
  match h with
  | None => Some false
  | Some h => if i64_max <? created_at_secs h then None else Some (stale now max_age h)
  end.

Lemma collectable_exact now max_age fname o h :
  0 <= max_age -> buffer_at o fname h -> collectable now max_age fname o = verdict now max_age h.
Proof.
  intros Hage Hb. unfold collectable. destruct h as [h|]; cbn [buffer_at verdict] in Hb |- *.
  - destruct Hb as (-> & r & rest & Hn & Hl). cbn [negb]. destruct (open_named _ _ _ Hn) as (s & -> & <-).
    destruct (read_raw_header _ _ _ _ Hl) as (-> & bs & -> & Hbs). cbv zeta. rewrite Hbs.
    destruct Hl as (_ & (_ & _ & _ & Hc & Ht & _) & -> & _). rewrite Z.eqb_refl. cbn [negb]. destruct (i64_max <? created_at_secs h); [done|].
    f_equal. unfold is_header_expired, stale, sat_sub. unfold in_u64 in *. destruct (ttl_secs h =? 0) eqn:E; simpl; lia.
  - destruct Hb as [->|Hn]; [done|]. destruct (negb _); [done|]. by destruct (open_missing _ _ Hn) as (e & ->).
Qed.

Lemma buffer_at_unlink o fname name h : fname <> name -> buffer_at o fname h -> buffer_at (shm_unlink name o) fname h.
Proof.
  intros Hne. destruct (unlink_named name o) as (Hn & Hm). destruct h as [h|]; simpl.
  - intros (Hs & r & rest & Hr & Hl & Hl2). split; [done|]. exists r, rest. rewrite Hn, bool_decide_false by done.
    split; [done|]. split; [by rewrite Hm|done].
  - rewrite Hn, bool_decide_false by done. done.
Qed.

Lemma gc_loop now max_age dir o (headers : str -> option RegionHeader) n :
  0 <= max_age -> NoDup dir -> (forall fname, fname ∈ dir -> buffer_at o fname (headers fname)) ->
  if forallb (fun fname => bool_decide (is_Some (verdict now max_age (headers fname)))) dir then
    let dead := base.filter (fun fname => verdict now max_age (headers fname) = Some true) dir in
    exists o', gc_orphans_scan now max_age dir o n = Some (o', n + Z.of_nat (length dead)) /\
      (forall name, named o' name = if bool_decide (name ∈ dead) then None else named o name) /\ (forall r, mem o' r = mem o r)
  else gc_orphans_scan now max_age dir o n = None.
Proof.
  intros Hage. revert o n. induction dir as [|f dir IH]; intros o n Hnd Hdir.
  - simpl. exists o. split; [by rewrite Z.add_0_r|]. done.
  - apply NoDup_cons in Hnd as (Hf & Hnd). cbn [forallb gc_orphans_scan].
    rewrite (collectable_exact _ _ _ _ _ Hage (Hdir f ltac:(left))).
    destruct (verdict now max_age (headers f)) as [[]|] eqn:Ev; cbn [mbind option_bind]; [| |done]; rewrite bool_decide_true by eauto; cbn [andb].
    + specialize (IH (shm_unlink f o) (n + 1) Hnd). destruct (forallb _ dir).
      * destruct IH as (o' & -> & Hn & Hm). { intros g Hg. apply buffer_at_unlink; [congruence|]. apply Hdir. by right. }
        destruct (unlink_named f o) as (Hu & Hum). cbv zeta. rewrite filter_cons_True by done. exists o'. split; [|split].
        -- simpl. do 2 f_equal. lia.
        -- intros name. rewrite Hn, Hu. destruct (decide (name = f)) as [->|Hne].
           { rewrite (bool_decide_true (f ∈ f :: _)) by left. rewrite (bool_decide_true (f = f)) by done. by destruct (bool_decide _). }
           rewrite (bool_decide_false (name = f)) by done. do 2 case_bool_decide; set_solver.
        -- intros r. by rewrite Hm, Hum.
      * apply IH. intros g Hg. apply buffer_at_unlink; [congruence|]. apply Hdir. by right.
    + specialize (IH o n Hnd ltac:(intros; apply Hdir; by right)). cbv zeta. rewrite filter_cons_False by (rewrite Ev; congruence).
      exact IH.
Qed.

(** A collection unlinks exactly the stale buffers of the directory and counts them; names
    of other programs, names that no longer open, and live buffers keep their regions.  But
    one header whose creation time does not fit the clock aborts the whole scan. *)
Theorem gc_exact now max_age dir o (headers : str -> option RegionHeader)
  (Hage : 0 <= max_age) (Hnd : NoDup dir) (Hdir : forall fname, fname ∈ dir -> buffer_at o fname (headers fname)) :
  (existsb (fun fname => match headers fname with Some h => i64_max <? created_at_secs h | None => false end) dir = true ->
   gc_orphans_scan now max_age dir o 0 = None) /\
  (existsb (fun fname => match headers fname with Some h => i64_max <? created_at_secs h | None => false end) dir = false ->
   exists o' dead, gc_orphans_scan now max_age dir o 0 = Some (o', Z.of_nat (length dead)) /\ NoDup dead /\
     (forall fname, fname ∈ dead <-> fname ∈ dir /\ exists h, headers fname = Some h /\ stale now max_age h = true) /\
     (forall name, named o' name = if bool_decide (name ∈ dead) then None else named o name) /\ (forall r, mem o' r = mem o r)).
Proof.
  pose proof (gc_loop now max_age dir o headers 0 Hage Hnd Hdir) as H.
  assert (Hb : forallb (fun fname => bool_decide (is_Some (verdict now max_age (headers fname)))) dir =
    negb (existsb (fun fname => match headers fname with Some h => i64_max <? created_at_secs h | None => false end) dir)).
  { clear. induction dir as [|f dir IH]; [done|]. cbn [forallb existsb]. rewrite IH, negb_orb. f_equal.
    unfold verdict. destruct (headers f); [|done]. by destruct (_ <? _). }
  rewrite Hb in H. split; intros He; rewrite He in H; simpl in H; [done|].
  destruct H as (o' & Hgc & Hn & Hm). eexists o', _. split; [exact Hgc|]. split; [by apply NoDup_filter|]. split; [|done].
  intros fname. rewrite list_elem_of_filter. split.
  - intros (Hv & Hin). split; [done|]. unfold verdict in Hv. destruct (headers fname) as [h|]; [|congruence].
    destruct (_ <? _); [congruence|]. injection Hv as Hv. eauto.
  - intros (Hin & h & Hh & Hs). split; [|done]. unfold verdict. rewrite Hh.
    assert (Hx := existsb_exists (fun fname => match headers fname with Some h => i64_max <? created_at_secs h | None => false end) dir).
    destruct (i64_max <? created_at_secs h) eqn:E; [|by rewrite Hs].
    rewrite He in Hx. destruct Hx as [_ Hx]. exfalso. enough (false = true) by congruence. apply Hx. exists fname.
    split; [by apply list_elem_of_In|]. by rewrite Hh.
Qed.

End Collection.

(** ** A concrete operating system *)

Module Regions.

(** Names in creation order, and the bytes of each region. *)
Record state : Type := mkState { names : list (str * nat); bytes_of : nat -> list Z }.

Definition clip (l : list Z) : list Z := if Z.of_nat (length l) <=? usize_max then l else [].
Definition contents (o : state) (r : nat) : list Z := clip (bytes_of o r).
Fixpoint find (name : str) (l : list (str * nat)) : option nat :=
  match l with [] => None | e :: l => if decide (fst e = name) then Some (snd e) else find name l end.
Definition lookup (name : str) (o : state) : option nat := find name (names o).

Definition make (name : str) (n : Z) (o : state) : state * result str nat :=
  match lookup name o with
  | Some _ => (o, Err (lit "already exists"))
  | None =>
      let r := S (max_list (snd <$> names o)) in
      (mkState ((name, r) :: names o) (fun r' => if bool_decide (r' = r) then replicate (Z.to_nat n) 0 else bytes_of o r'), Ok r)
  end.

Definition read (s : nat) (off len : Z) (o : state) : result str (list Z) :=
  if Z.of_nat (length (contents o s)) <? off + len then Err (lit "out of range")
  else Ok (take (Z.to_nat len) (drop (Z.to_nat off) (contents o s))).

Definition write (s : nat) (off : Z) (d : list Z) (o : state) : state * result str unit :=
  if Z.of_nat (length (contents o s)) <? off + Z.of_nat (length d) then (o, Err (lit "out of range"))
  else (mkState (names o) (fun r => if bool_decide (r = s) then splice off d (contents o s) else bytes_of o r), Ok tt).

End Regions.

#[export] Instance regions_ipc : Ipc := {|
  os := Regions.state;
  seg := nat;
  shm_create := Regions.make;
  shm_open name o := match Regions.lookup name o with Some r => Ok r | None => Err (lit "not found") end;
  shm_size s o := Z.of_nat (length (Regions.contents o s));
  shm_read := Regions.read;
  shm_write := Regions.write;
  shm_unlink name o := Regions.mkState (base.filter (fun e => fst e <> name) (Regions.names o)) (Regions.bytes_of o);
|}.

Lemma regions_find_In name l r : Regions.find name l = Some r -> r ∈ snd <$> l.
Proof.
  induction l as [|e l IH]; simpl; [done|]. rewrite elem_of_cons.
  destruct (decide (fst e = name)); [intros [= <-]; by left|auto].
Qed.

Lemma regions_find_filter name name' l :
  Regions.find name' (base.filter (fun e => fst e <> name) l) = if bool_decide (name' = name) then None else Regions.find name' l.
Proof.
  induction l as [|e l IH]; simpl; [by destruct (bool_decide _)|].
  destruct (decide (fst e = name)) as [He|He].
  - rewrite filter_cons_False by (intros X; by apply X). rewrite IH. destruct (bool_decide (name' = name)) eqn:E; [done|].
    apply bool_decide_eq_false in E. destruct (decide (fst e = name')); [congruence|done].
  - rewrite filter_cons_True by done. simpl. destruct (decide (fst e = name')) as [H|H]; [|done].
    rewrite bool_decide_false by congruence. done.
Qed.

Lemma clip_id l : Z.of_nat (length l) <= usize_max -> Regions.clip l = l.
Proof. intros H. unfold Regions.clip. by replace (_ <=? _) with true by lia. Qed.

Lemma clip_bound l : Z.of_nat (length (Regions.clip l)) <= usize_max.
Proof. unfold Regions.clip. destruct (_ <=? _) eqn:E; bool_to_prop; [lia|]. by vm_compute. Qed.

Lemma splice_length off d l : 0 <= off -> off + Z.of_nat (length d) <= Z.of_nat (length l) -> length (splice off d l) = length l.
Proof. intros. unfold splice. rewrite !length_app, length_take, length_drop. lia. Qed.

#[export] Instance regions_laws : IpcLaws regions_ipc.
Proof.
  refine {| named o name := Regions.lookup name o; region s := s; mem := Regions.contents |}; simpl.
  - done.
  - intros s o. apply clip_bound.
  - intros s off len o H1 H2 H3. unfold Regions.read. by replace (_ <? _) with false by lia.
  - intros s off len o H. unfold Regions.read. replace (_ <? _) with true by lia. eauto.
  - intros s off d o H1 H2. unfold Regions.write. replace (_ <? _) with false by lia. eexists. split; [done|]. split; [done|].
    intros r. unfold Regions.contents at 1. simpl. destruct (bool_decide (r = s)) eqn:E; [|done]. apply bool_decide_eq_true in E as ->.
    apply clip_id. rewrite splice_length by done. apply clip_bound.
  - intros s off d o H. unfold Regions.write. replace (_ <? _) with true by lia. eauto.
  - intros name n o Hn Hnew. unfold Regions.make. rewrite Hnew. do 2 eexists. split; [done|].
    assert (Hfresh : forall name' r, Regions.lookup name' o = Some r -> r <> S (max_list (snd <$> Regions.names o))).
    { intros name' r Hr ->. apply regions_find_In, max_list_elem_of_le in Hr. lia. }
    split; [|split; [|split]].
    + unfold Regions.contents. simpl. rewrite bool_decide_true by done. rewrite clip_id; rewrite length_replicate; lia.
    + intros name'. unfold Regions.lookup. simpl. destruct (decide (name = name')) as [->|].
      * by rewrite bool_decide_true.
      * by rewrite bool_decide_false by congruence.
    + intros name' Hr. by apply (Hfresh _ _ Hr).
    + intros r Hr. unfold Regions.contents. simpl. by rewrite bool_decide_false.
  - intros name o r Hr. rewrite Hr. eauto.
  - intros name o Hr. rewrite Hr. eauto.
  - intros name o. split; [|done]. intros name'. apply regions_find_filter.
Defined.

(** ** Examples *)

(** A four-byte buffer named [a], empty. *)
Definition sample_header : RegionHeader := mkHeader HEADER_MAGIC 0 4 1000 0 0.
Definition sample_os : os (Ipc := regions_ipc) :=
  Regions.mkState [(lit "ds_a", 1%nat)] (fun r => if (r =? 1)%nat then header_bytes sample_header ++ [7; 8; 9; 10] else []).
Definition sample_buffer : SharedBuffer (ipc := regions_ipc) := mkBuffer (ipc := regions_ipc) (1%nat : seg (Ipc := regions_ipc)) 4 (lit "a").

Lemma sample_laid_out : laid_out (ipc := regions_ipc) sample_os 1 sample_header [7; 8; 9; 10].
Proof. split; [by vm_compute|]. unfold header_ok, in_u64. simpl. split_and!; by vm_compute. Defined.

Lemma write_then_read_witness :
  exists o' h', buffer_write sample_buffer [1; 2] sample_os = (o', Ok 2) /\
    handle_on o' sample_buffer h' [1; 2; 9; 10] /\
    created_at_secs h' = 1000 /\ ttl_secs h' = 0 /\
    (forall b2, region (shm b2) = region (shm sample_buffer) -> buffer_read b2 o' = Ok [1; 2]) /\
    (forall b3 h3 rest3, laid_out sample_os (region (shm b3)) h3 rest3 -> region (shm b3) <> region (shm sample_buffer) ->
       buffer_read b3 o' = buffer_read b3 sample_os).
Proof.
  exact (write_then_read sample_buffer sample_os sample_header [7; 8; 9; 10] [1; 2] (conj sample_laid_out eq_refl)).
Defined.

Lemma clear_keeps_bytes_witness :
  exists o' h', buffer_clear sample_buffer sample_os = (o', Ok tt) /\ handle_on o' sample_buffer h' [7; 8; 9; 10] /\
    (forall b2, region (shm b2) = region (shm sample_buffer) -> buffer_read b2 o' = Ok []) /\
    drop 48 (mem o' (region (shm sample_buffer))) = drop 48 (mem (IpcLaws := regions_laws) sample_os (region (shm sample_buffer))).
Proof.
  exact (clear_keeps_bytes sample_buffer sample_os sample_header [7; 8; 9; 10] (conj sample_laid_out eq_refl)).
Defined.

Lemma create_open_witness :
  exists o' b, create_with_ttl (lit "b") 16 (Some 30) 2000 sample_os = Some (o', Ok b) /\ buffer_read b o' = Ok [] /\
    (exists h rest, handle_on o' b h rest /\ ttl_secs h = 30 /\ created_at_secs h = 2000) /\
    (forall id', exists b2, buffer_open (lit "ds_b") id' o' = Ok b2 /\ region (shm b2) = region (shm b) /\ buf_capacity b2 = 16) /\
    from_buffer b o' = Some (Ok (mkDescriptor (lit "b") (lit "ds_b") 16 30)).
Proof.
  apply (create_open (lit "b") 16 (Some 30) 2000 (lit "ds_b") sample_os);
    unfold in_u64; simpl; try split; by vm_compute.
Defined.

Lemma gc_exact_witness :
  exists o' dead, gc_orphans_scan 5000 3600 [lit "ds_a"; lit "other"] sample_os 0 = Some (o', Z.of_nat (length dead)) /\
    (lit "ds_a") ∈ dead.
Proof.
  assert (Hdir : forall fname, fname ∈ [lit "ds_a"; lit "other"] ->
    buffer_at (ipc := regions_ipc) sample_os fname (if decide (fname = lit "ds_a") then Some sample_header else None)).
  { intros fname H. apply list_elem_of_In in H as [<-|[<-|[]]].
    - split; [done|]. exists 1%nat, [7; 8; 9; 10]. split; [done|]. apply sample_laid_out.
    - by left. }
  destruct (gc_exact (ipc := regions_ipc) 5000 3600 [lit "ds_a"; lit "other"] sample_os _ ltac:(lia) ltac:(apply NoDup_ListNoDup; repeat constructor; set_solver) Hdir) as [_ H].
  destruct H as (o' & dead & Hgc & _ & Hd & _); [by vm_compute|]. exists o', dead. split; [exact Hgc|].
  apply Hd. split; [left|]. by exists sample_header.
Defined.
