(* ===== verification/ShmTransfer.v ===== *)
(** Buffer pools, chunked transfers and scene buffers, [dcc-mcp-shm/src/pool.rs],
    [chunked.rs], [compress.rs] and [scene.rs].

    LZ4 is the class [Lz4].  Random identifiers are a stream: [ids 0] is the first one drawn.
    Handles are not dropped in the model: regions live as long as the operating system keeps
    their names. *)

From S2P Require Import Prelude Text Json Shm.

Local Open Scope Z_scope.

(** ** Compression *)

(** [lz4_decode_at_most n] stops once [n] bytes are out. *)
Class Lz4 : Type := {
  lz4_encode : list Z -> result str (list Z);
  lz4_decode : list Z -> result str (list Z);
  lz4_decode_at_most : Z -> list Z -> result str (list Z);
}.

Section Compression.
Context {lz4 : Lz4}.

Definition compress (data : list Z) : result ShmError (list Z) := map_err CompressionError (lz4_encode data).
Definition decompress (data : list Z) : result ShmError (list Z) := map_err DecompressionError (lz4_decode data).

Definition decompress_with_limit (data : list Z) (max_output_bytes : Z) : result ShmError (list Z) :=
  let? out := map_err DecompressionError (lz4_decode_at_most (sat_add u64_max max_output_bytes 1) data) in
  if max_output_bytes <? Z.of_nat (length out)
  then Err (DecompressionError (lit "decompressed payload exceeds max_bytes=" ++ print_u64 max_output_bytes))
  else Ok out.

Definition should_compress (original_len compressed_len : Z) : bool := compressed_len <? original_len.

(** What is stored for a payload, and whether it is compressed. *)
Definition pack (use_compression : bool) (data : list Z) : result ShmError (list Z * bool) :=
  if use_compression then
    let? c := compress data in
    Ok (if should_compress (Z.of_nat (length data)) (Z.of_nat (length c)) then (c, true) else (data, false))
  else Ok (data, false).

End Compression.

(** ** Operations on shared memory *)

(** An operation that can fail, or panic ([None]). *)
Definition shm_m {ipc : Ipc} (A : Type) : Type := os -> option (os * result ShmError A).

Section Monad.
Context {ipc : Ipc}.

Definition shm_bind {A B} (m : shm_m A) (k : A -> shm_m B) : shm_m B := fun o =>
  '(o, r) ← m o; match r with Ok a => k a o | Err e => Some (o, Err e) end.
Definition pure {A} (r : result ShmError A) : shm_m A := fun o => Some (o, r).

End Monad.

Notation "'let!' x ':=' m 'in' k" := (shm_bind m (fun x => k))
  (at level 10, x pattern, m at level 100, k at level 200).

(** ** Chunks *)

Record ChunkInfo : Type := mkChunkInfo {
  index : Z;
  descriptor : BufferDescriptor;
  original_len : Z;
  stored_len : Z;
  is_compressed : bool;
}.

Record ChunkManifest : Type := mkManifest {
  transfer_id : str;
  total_bytes : Z;
  chunk_infos : list ChunkInfo;
  compression_enabled : bool;
}.

Definition DEFAULT_CHUNK_SIZE : Z := 268435456.

(** [slice::chunks]. *)
Fixpoint chunks_loop (fuel : nat) (n : nat) (l : list Z) : list (list Z) :=
  match fuel, l with
  | S fuel, _ :: _ => take n l :: chunks_loop fuel n (drop n l)
  | _, _ => []
  end.
Definition chunks (n : nat) (l : list Z) : list (list Z) := chunks_loop (length l) n l.

Section Transfers.
Context {ipc : Ipc} {lz4 : Lz4}.
Variables (ids : nat -> str) (clock : nat -> Z).

(** A fresh buffer, sized for [data], holding it. *)
Definition store (k : nat) (data : list Z) : shm_m (SharedBuffer * BufferDescriptor) :=
  let! buf := create_with_ttl (ids k) (Z.max (Z.of_nat (length data)) 1) None (clock k) in
  let! _ := fun o => Some (buffer_write buf data o) in
  let! d := fun o => (fun r => (o, r)) <$> from_buffer buf o in
  pure (Ok (buf, d)).

Fixpoint write_chunks (use_compression : bool) (k : nat) (cs : list (list Z)) : shm_m (list (SharedBuffer * ChunkInfo)) :=
  match cs with
  | [] => pure (Ok [])
  | chunk :: cs =>
      let! (to_write, compressed) := pure (pack use_compression chunk) in
      let! (buf, d) := store (S k) to_write in
      let! rest := write_chunks use_compression (S k) cs in
      pure (Ok ((buf, mkChunkInfo (Z.of_nat k) d (Z.of_nat (length chunk)) (Z.of_nat (length to_write)) compressed) :: rest))
  end.

(** The transfer takes [ids 0], its [k]-th chunk [ids (S k)]. *)
Definition write_chunked (data : list Z) (chunk_size : Z) (use_compression : bool) : shm_m (list SharedBuffer * ChunkManifest) :=
  if chunk_size =? 0 then pure (Err (InvalidArgument (lit "chunk_size must be > 0")))
  else
    let! stored := write_chunks use_compression 0 (chunks (Z.to_nat chunk_size) data) in
    pure (Ok (fst <$> stored, mkManifest (ids 0) (Z.of_nat (length data)) (snd <$> stored) use_compression)).

(** The bytes a descriptor's buffer holds, as [SharedBuffer::open] and [read] give them. *)
Definition fetch (d : BufferDescriptor) (o : os) : result ShmError (list Z) :=
  let? buf := buffer_open (d_name d) (d_id d) o in buffer_read buf o.

Fixpoint read_chunks (total i : Z) (infos : list ChunkInfo) (acc : list Z) (o : os) : result ShmError (list Z) :=
  match infos with
  | [] => Ok acc
  | c :: infos =>
      if negb (index c =? i) then Err (ChunkOutOfRange (index c) total)
      else
        let? raw := fetch (descriptor c) o in
        let? data := if is_compressed c then decompress raw else Ok raw in
        read_chunks total (i + 1) infos (acc ++ data) o
  end.

Definition read_chunked (m : ChunkManifest) (o : os) : result ShmError (list Z) :=
  let? data := read_chunks (Z.of_nat (length (chunk_infos m))) 0 (chunk_infos m) [] o in
  if negb (Z.of_nat (length data) =? total_bytes m)
  then Err (IncompleteChunks (Z.of_nat (length data)) (total_bytes m)) else Ok data.

(** ** Scene buffers *)

Inductive SceneDataKind : Type := Geometry | AnimationCache | Screenshot | Arbitrary.

Inductive StorageKind : Type :=
| Inline (d : BufferDescriptor)
| Chunked (m : ChunkManifest).

Record SceneBufferMeta : Type := mkMeta {
  meta_id : str;
  kind : SceneDataKind;
  meta_total_bytes : Z;
  source_dcc : option str;
  created_at : str;
}.

Record SharedSceneBuffer : Type := mkScene {
  meta : SceneBufferMeta;
  storage : StorageKind;
  inline_buf : option SharedBuffer;
  chunk_bufs : list SharedBuffer;
}.

Definition INLINE_THRESHOLD : Z := DEFAULT_CHUNK_SIZE.

Definition chrono_lite_now (secs : Z) : str := lit "unix:" ++ print_u64 secs.

End Transfers.

Section Scenes.
Context {ipc : Ipc} {lz4 : Lz4}.

(** The scene takes [ids 0]; the inline buffer or the transfer and its chunks the ones after. *)
Definition scene_write (ids : nat -> str) (clock : nat -> Z) (data : list Z) (k : SceneDataKind) (source : option str)
    (use_compression : bool) : shm_m SharedSceneBuffer :=
  let total := Z.of_nat (length data) in
  let next n := ids (S n) in
  let m := mkMeta (ids 0%nat) k total source (chrono_lite_now (clock 0%nat)) in
  if total <=? INLINE_THRESHOLD then
    let! (to_write, _) := pure (pack use_compression data) in
    let! (buf, d) := store next clock 0 to_write in
    pure (Ok (mkScene m (Inline d) (Some buf) []))
  else
    let! (bufs, manifest) := write_chunked next clock data DEFAULT_CHUNK_SIZE use_compression in
    pure (Ok (mkScene m (Chunked manifest) None bufs)).

(** An inline payload is taken for compressed when it decompresses to the recorded size. *)
Definition scene_read (s : SharedSceneBuffer) (o : os) : result ShmError (list Z) :=
  match storage s with
  | Inline d =>
      let? raw := fetch d o in
      match decompress raw with
      | Ok decompressed => if Z.of_nat (length decompressed) =? meta_total_bytes (meta s) then Ok decompressed else Ok raw
      | Err _ => Ok raw
      end
  | Chunked m => read_chunked m o
  end.

Definition is_inline (s : SharedSceneBuffer) : bool := match storage s with Inline _ => true | Chunked _ => false end.
Definition is_chunked (s : SharedSceneBuffer) : bool := match storage s with Chunked _ => true | Inline _ => false end.

End Scenes.

(** ** Pools *)

Section Pools.
Context {ipc : Ipc}.

Record Slot : Type := mkSlot { slot_buffer : SharedBuffer; in_use : bool }.
Record BufferPool : Type := mkPool { slots : list Slot; pool_capacity : Z; buffer_size : Z }.
Record PooledBuffer : Type := mkPooled { slot_index : nat; pooled : SharedBuffer }.

Fixpoint pool_slots (ids : nat -> str) (clock : nat -> Z) (size : Z) (i n : nat) : shm_m (list Slot) :=
  match n with
  | O => pure (Ok [])
  | S n =>
      let! buf := create_with_ttl (lit "p" ++ ids i ++ lit "-" ++ print_u64 (Z.of_nat i)) size None (clock i) in
      let! rest := pool_slots ids clock size (S i) n in
      pure (Ok (mkSlot buf false :: rest))
  end.

Definition pool_new (ids : nat -> str) (clock : nat -> Z) (cap size : Z) : shm_m BufferPool :=
  if cap =? 0 then pure (Err (InvalidArgument (lit "pool capacity must be > 0")))
  else if size =? 0 then pure (Err (InvalidArgument (lit "buffer_size must be > 0")))
  else let! sl := pool_slots ids clock size 0 (Z.to_nat cap) in pure (Ok (mkPool sl cap size)).

Fixpoint first_free (i : nat) (sl : list Slot) : option (nat * SharedBuffer) :=
  match sl with
  | [] => None
  | s :: sl => if negb (in_use s) then Some (i, slot_buffer s) else first_free (S i) sl
  end.

Definition set_in_use (b : bool) (s : Slot) : Slot := mkSlot (slot_buffer s) b.

Definition pool_acquire (p : BufferPool) : BufferPool * result ShmError PooledBuffer :=
  match first_free 0 (slots p) with
  | Some (i, buf) => (mkPool (alter (set_in_use true) i (slots p)) (pool_capacity p) (buffer_size p), Ok (mkPooled i buf))
  | None => (p, Err (PoolExhausted (pool_capacity p)))
  end.

(** [Drop for PooledBuffer]: a failed clear is ignored. *)
Definition pooled_drop (g : PooledBuffer) (p : BufferPool) (o : os) : BufferPool * os :=
  match slots p !! slot_index g with
  | Some s => (mkPool (alter (set_in_use false) (slot_index g) (slots p)) (pool_capacity p) (buffer_size p), fst (buffer_clear (slot_buffer s) o))
  | None => (p, o)
  end.

Definition available (p : BufferPool) : nat := length (base.filter (fun s => in_use s = false) (slots p)).

End Pools.
