(* ===== verification/ShmTransferProps.v ===== *)
(** Theorems on chunked transfers, scene buffers and buffer pools ([ShmTransfer.v]): what is
    read back from a transfer, and guards that never share a buffer. *)

From S2P Require Import Prelude Json Shm ShmProps ShmTransfer Text.

Local Open Scope Z_scope.

(** ** Chunks *)

Lemma chunks_loop_concat fuel n l : (0 < n)%nat -> (length l <= fuel)%nat -> concat (chunks_loop fuel n l) = l.
Proof.
  intros Hn. revert l. induction fuel as [|fuel IH]; intros [|x l] Hl; simpl in Hl; try done; [lia|].
  change (chunks_loop (S fuel) n (x :: l)) with (take n (x :: l) :: chunks_loop fuel n (drop n (x :: l))).
  cbn [concat]. rewrite IH; [apply take_drop|]. rewrite length_drop. simpl. lia.
Qed.

Lemma chunks_concat n l : (0 < n)%nat -> concat (chunks n l) = l.
Proof. intros Hn. by apply chunks_loop_concat. Qed.

Lemma chunks_loop_bound fuel n l c : c ∈ chunks_loop fuel n l -> (length c <= n /\ length c <= length l)%nat.
Proof.
  revert l. induction fuel as [|fuel IH]; intros [|x l] Hc; try (by apply elem_of_nil in Hc).
  change (chunks_loop (S fuel) n (x :: l)) with (take n (x :: l) :: chunks_loop fuel n (drop n (x :: l))) in Hc.
  apply elem_of_cons in Hc as [->|Hc]; [rewrite length_take; lia|]. apply IH in Hc. rewrite length_drop in Hc. lia.
Qed.

Lemma chunks_loop_count fuel n l :
  (0 < n)%nat -> (length l <= fuel)%nat -> length (chunks_loop fuel n l) = ((length l + n - 1) / n)%nat.
Proof.
  intros Hn. revert l. induction fuel as [|fuel IH]; intros l Hl.
  - replace (length l) with 0%nat by lia. symmetry. apply Nat.div_small. lia.
  - destruct l as [|x l]; [symmetry; apply Nat.div_small; simpl; lia|].
    change (chunks_loop (S fuel) n (x :: l)) with (take n (x :: l) :: chunks_loop fuel n (drop n (x :: l))).
    cbn [length]. rewrite IH by (rewrite length_drop; simpl in *; lia). rewrite length_drop. cbn [length].
    destruct (decide (n <= S (length l))%nat).
    + replace (S (length l) + n - 1)%nat with (S (length l) - n + n - 1 + 1 * n)%nat by lia. rewrite Nat.div_add by lia. lia.
    + replace (S (length l) - n)%nat with 0%nat by lia. rewrite Nat.div_small by lia. apply (Nat.div_unique _ _ _ (length l)%nat); lia.
Qed.

(** How many chunks of a size a length takes. *)
Definition chunk_count (len : nat) (size : Z) : nat := Z.to_nat ((Z.of_nat len + size - 1) / size).

Lemma chunks_count size l : 0 < size -> length (chunks (Z.to_nat size) l) = chunk_count (length l) size.
Proof.
  intros H. unfold chunks, chunk_count. rewrite chunks_loop_count by lia.
  rewrite <- (Z2Nat.id size) at 3 4 by lia. replace (Z.of_nat (length l) + Z.of_nat (Z.to_nat size) - 1) with (Z.of_nat (length l + Z.to_nat size - 1)) by lia.
  by rewrite <- Nat2Z.inj_div, Nat2Z.id.
Qed.

(** ** Storing and fetching *)

Lemma shm_bind_ok {ipc : Ipc} {A B} (m : shm_m A) (k : A -> shm_m B) o o' a : m o = Some (o', Ok a) -> shm_bind m k o = k a o'.
Proof. intros H. unfold shm_bind. by rewrite H. Qed.

Lemma pure_bind {ipc : Ipc} {A B} (r : result ShmError A) a (k : A -> shm_m B) o : r = Ok a -> shm_bind (pure r) k o = k a o.
Proof. by intros ->. Qed.

(** The documented behaviour of LZ4: encoding to memory succeeds and decoding undoes it. *)
Class Lz4Laws (lz4 : Lz4) : Prop := encode_decode d : exists c, lz4_encode d = Ok c /\ lz4_decode c = Ok d.

Lemma pack_ok {lz4 : Lz4} {laws : Lz4Laws lz4} use d :
  exists w b, pack use d = Ok (w, b) /\ (length w <= length d)%nat /\ if b : bool then decompress w = Ok d else w = d.
Proof.
  unfold pack, compress, decompress. destruct use; [|by exists d, false].
  destruct (encode_decode d) as (c & -> & Hd). cbn [rbind map_err]. unfold should_compress.
  destruct (_ <? _) eqn:E; bool_to_prop; [exists c, true|by exists d, false]. rewrite Hd. split; [done|]. split; [lia|done].
Qed.

Section Transfers.
Context {ipc : Ipc} {laws : IpcLaws ipc} {lz4 : Lz4} {lz4_laws : Lz4Laws lz4}.

(** A descriptor whose buffer holds [data]. *)
Definition holds (o : os) (d : BufferDescriptor) (data : list Z) : Prop :=
  exists r h rest, named o (d_name d) = Some r /\ laid_out o r h rest /\ take (Z.to_nat (data_len h)) rest = data.

Definition keeps (o o' : os) : Prop := forall d data, holds o d data -> holds o' d data.

Lemma fetch_ok o d data : holds o d data -> fetch d o = Ok data.
Proof.
  intros (r & h & rest & Hn & Hl & <-). unfold fetch. destruct (open_ok _ (d_id d) _ _ _ _ Hn Hl) as (b & -> & <- & _).
  cbn [rbind]. by apply buffer_read_ok.
Qed.

(** The identifiers [ids lo], ... drawn for a transfer: short, distinct, and not in use. *)
Definition drawn (ids : nat -> str) (lo n : nat) (o : os) : Prop :=
  (forall k, (lo <= k < lo + n)%nat -> (str_len (ids k) <= 28)%nat /\ named o (SEGMENT_PREFIX ++ ids k) = None) /\
  (forall j k, (lo <= j < lo + n)%nat -> (lo <= k < lo + n)%nat -> ids j = ids k -> j = k).

Lemma segment_name_short id : (str_len id <= 28)%nat -> segment_name id = Some (SEGMENT_PREFIX ++ id).
Proof. intros H. unfold segment_name. cbv zeta. replace (Z.to_nat _) with 28%nat by done. destruct (Nat.leb_spec (str_len id) 28); [done|lia]. Qed.

Context (ids : nat -> str) (clock : nat -> Z) (Hclock : forall k, in_u64 (clock k)).

Lemma store_ok k data o :
  (str_len (ids k) <= 28)%nat -> named o (SEGMENT_PREFIX ++ ids k) = None -> Z.of_nat (length data) <= i64_max ->
  exists o' b d, store ids clock k data o = Some (o', Ok (b, d)) /\ holds o' d data /\ keeps o o' /\
    (forall name, name <> SEGMENT_PREFIX ++ ids k -> named o' name = named o name).
Proof.
  intros Hid Hfresh Hlen. unfold store, shm_bind. set (cap := Z.max (Z.of_nat (length data)) 1).
  unfold i64_max, in_u64 in *.
  destruct (create_ok (ids k) cap None (clock k) _ o (segment_name_short _ Hid) Hfresh) as (o1 & b & rest & -> & Hbid & Hbc & Hb & Hn & Hnew & Hmem);
    [lia|apply Hclock|by vm_compute|unfold HEADER_SIZE; lia|]. cbn [mbind option_bind].
  destruct (buffer_write_ok b o1 _ rest data Hb ltac:(rewrite Hbc; lia)) as (o2 & -> & Hn2 & [Hl2 _] & Hmem2). cbn [mbind option_bind].
  unfold from_buffer. rewrite (read_header_ok _ _ _ _ Hl2), Hbid, (segment_name_short _ Hid). cbn [fmap option_fmap option_map mbind option_bind].
  eexists o2, b, _. split; [reflexivity|]. split; [|split].
  - exists (region (shm b)). eexists _, _. split; [cbn [d_name]; by rewrite Hn2, Hn, bool_decide_true|]. split; [exact Hl2|].
    cbn [next_header data_len]. by rewrite Nat2Z.id, take_app_length.
  - intros d data' (r & h & rest' & Hr & (Hm & Hl) & Hd). exists r, h, rest'. rewrite Hn2, Hn.
    rewrite bool_decide_false by congruence. split; [done|]. split; [|done]. split; [|done].
    assert (r <> region (shm b)) by (intros ->; by apply (Hnew _ Hr)). by rewrite Hmem2, Hmem.
  - intros name Hne. by rewrite Hn2, Hn, bool_decide_false.
Qed.

Lemma write_chunks_ok use cs k o :
  drawn ids (S k) (length cs) o -> Forall (fun c => Z.of_nat (length c) <= i64_max) cs ->
  exists o' l, write_chunks ids clock use k cs o = Some (o', Ok l) /\ keeps o o' /\ length l = length cs /\
    (forall total acc, read_chunks total (Z.of_nat k) (snd <$> l) acc o' = Ok (acc ++ concat cs)) /\
    Forall2 (fun c i => original_len i = Z.of_nat (length c) /\ stored_len i <= original_len i) cs (snd <$> l).
Proof.
  revert k o. induction cs as [|c cs IH]; intros k o [Hd Hinj] Hcs.
  - exists o, []. split; [done|]. split; [by intros ?|]. split; [done|]. split; [|constructor]. intros. simpl. by rewrite app_nil_r.
  - apply Forall_cons in Hcs as [Hc Hcs]. cbn [write_chunks length] in *.
    destruct (pack_ok use c) as (w & b & Hp & Hw & Hb). rewrite (pure_bind _ _ _ _ Hp). cbv beta iota.
    destruct (Hd (S k) ltac:(lia)) as [Hid Hfresh].
    destruct (store_ok (S k) w o Hid Hfresh ltac:(lia)) as (o1 & buf & d & Hs & Hh & Hk & Hn).
    rewrite (shm_bind_ok _ _ _ _ _ Hs). cbv beta iota.
    destruct (IH (S k) o1) as (o2 & l & Hwr & Hk2 & Hlen & Hrd & Hall).
    { split; [|intros i j ? ?; apply Hinj; lia]. intros j Hj. destruct (Hd j ltac:(lia)) as [Hjid Hjf]. split; [done|].
      rewrite Hn; [done|]. intros E. apply app_inv_head in E. apply Hinj in E; lia. }
    { done. }
    rewrite (shm_bind_ok _ _ _ _ _ Hwr). cbv beta iota. eexists o2, _. split; [reflexivity|].
    split; [intros ? ? ?; by apply Hk2, Hk|]. split; [simpl; by rewrite Hlen|]. split.
    + intros total acc. cbn [fmap list_fmap snd read_chunks index descriptor is_compressed].
      rewrite Z.eqb_refl. cbn [negb]. rewrite (fetch_ok _ _ _ (Hk2 _ _ Hh)). cbn [rbind].
      replace (Z.of_nat k + 1) with (Z.of_nat (S k)) by lia.
      assert (Hdec : (if b then decompress w else Ok w) = Ok c) by (destruct b; [done|by rewrite Hb]).
      rewrite Hdec. cbn [rbind concat]. by rewrite Hrd, app_assoc.
    + constructor; [simpl; lia|exact Hall].
Qed.

Lemma write_chunked_ok data chunk_size use o :
  0 < chunk_size -> Z.of_nat (length data) <= i64_max -> drawn ids 1 (length (chunks (Z.to_nat chunk_size) data)) o ->
  exists o' bufs m, write_chunked ids clock data chunk_size use o = Some (o', Ok (bufs, m)) /\ keeps o o' /\
    read_chunked m o' = Ok data /\ total_bytes m = Z.of_nat (length data) /\
    Forall2 (fun c i => original_len i = Z.of_nat (length c) /\ stored_len i <= original_len i) (chunks (Z.to_nat chunk_size) data) (chunk_infos m).
Proof.
  intros Hsz Hlen Hd. unfold write_chunked. replace (chunk_size =? 0) with false by lia.
  destruct (write_chunks_ok use (chunks (Z.to_nat chunk_size) data) 0 o Hd) as (o' & l & Hw & Hk & Hl & Hrd & Hall).
  { apply Forall_forall. intros c Hc. apply chunks_loop_bound in Hc. lia. }
  rewrite (shm_bind_ok _ _ _ _ _ Hw). cbv beta iota. eexists o', _, _. split; [reflexivity|]. split; [done|].
  split; [|split; [done|exact Hall]]. unfold read_chunked. cbn [chunk_infos total_bytes].
  rewrite (Hrd _ []). cbn [rbind app]. rewrite chunks_concat by lia. by rewrite Z.eqb_refl.
Qed.

End Transfers.

(** A payload of any length, cut into chunks of any positive size, compressed or not, is
    written as the fewest chunks that hold it, each stored in no more bytes than it has, and
    the manifest reads back the payload byte for byte; buffers that existed keep what they
    held. *)
Theorem chunked_roundtrip {ipc : Ipc} {laws : IpcLaws ipc} {lz4 : Lz4} {lz4_laws : Lz4Laws lz4} ids clock data chunk_size use o
  (Hclock : forall k, in_u64 (clock k)) (Hsz : 0 < chunk_size) (Hlen : Z.of_nat (length data) <= i64_max)
  (Hids : drawn ids 1 (chunk_count (length data) chunk_size) o) :
  exists o' bufs m, write_chunked ids clock data chunk_size use o = Some (o', Ok (bufs, m)) /\
    read_chunked m o' = Ok data /\
    length (chunk_infos m) = chunk_count (length data) chunk_size /\
    (forall i, i ∈ chunk_infos m -> stored_len i <= original_len i <= chunk_size) /\
    (forall d content, holds o d content -> fetch d o' = Ok content).
Proof.
  rewrite <- (chunks_count chunk_size data Hsz) in Hids.
  destruct (write_chunked_ok ids clock Hclock data chunk_size use o Hsz Hlen Hids) as (o' & bufs & m & Hw & Hk & Hr & _ & Hall).
  exists o', bufs, m. split; [done|]. split; [done|]. split; [|split].
  - rewrite <- (Forall2_length _ _ _ Hall). by apply chunks_count.
  - intros i Hi. apply list_elem_of_lookup in Hi as [n Hi]. destruct (Forall2_lookup_r _ _ _ _ _ Hall Hi) as (c & Hc & Ho & Hs).
    apply list_elem_of_lookup_2, chunks_loop_bound in Hc. lia.
  - intros d content Hd. apply fetch_ok, Hk, Hd.
Qed.

(** A manifest is read only if its chunks are in order and their bytes add up: whatever is
    returned has the recorded length and the indexes count from zero. *)
Theorem manifest_checked {ipc : Ipc} {lz4 : Lz4} m o data (Hread : read_chunked m o = Ok data) :
  Z.of_nat (length data) = total_bytes m /\ index <$> chunk_infos m = Z.of_nat <$> seq 0 (length (chunk_infos m)).
Proof.
  unfold read_chunked in Hread. destruct (read_chunks _ _ _ _ _) as [d|e] eqn:E; [|discriminate]. cbn [rbind] in Hread.
  destruct (negb _) eqn:En; [discriminate|]. injection Hread as ->. split; [lia|]. clear En.
  assert (H : forall total infos acc k d, read_chunks total (Z.of_nat k) infos acc o = Ok d -> index <$> infos = Z.of_nat <$> seq k (length infos)).
  { clear. intros total infos. induction infos as [|i infos IH]; intros acc k d; [done|]. cbn [read_chunks].
    destruct (negb _) eqn:Ei; [discriminate|]. destruct (fetch _ _) as [raw|]; cbn [rbind]; [|discriminate].
    destruct (if is_compressed i then _ else _) as [x|]; cbn [rbind]; [|discriminate].
    replace (Z.of_nat k + 1) with (Z.of_nat (S k)) by lia. intros Hr. apply IH in Hr. cbn [fmap list_fmap length seq].
    f_equal; [lia|exact Hr]. }
  exact (H _ _ _ 0%nat _ E).
Qed.

(** What is read back from a scene: the payload, unless it was stored inline and
    uncompressed and happens itself to be a compressed stream of a payload of its own
    length - then that payload is returned instead. *)
Theorem scene_read_back {ipc : Ipc} {laws : IpcLaws ipc} {lz4 : Lz4} {lz4_laws : Lz4Laws lz4} ids clock data k source use o
  (Hclock : forall k, in_u64 (clock k)) (Hlen : Z.of_nat (length data) <= i64_max)
  (Hids : drawn ids 1 (S (chunk_count (length data) DEFAULT_CHUNK_SIZE)) o) :
  exists o' s, scene_write ids clock data k source use o = Some (o', Ok s) /\
    is_chunked s = (INLINE_THRESHOLD <? Z.of_nat (length data)) /\ meta_total_bytes (meta s) = Z.of_nat (length data) /\
    scene_read s o' = Ok (
      if is_chunked s then data
      else match pack use data, lz4_decode data with
           | Ok (_, false), Ok other => if (length other =? length data)%nat then other else data
           | _, _ => data
           end).
Proof.
  unfold scene_write. set (m := mkMeta _ _ _ _ _). rewrite Z.leb_antisym. destruct Hids as [Hd Hinj].
  destruct (INLINE_THRESHOLD <? Z.of_nat (length data)) eqn:Ebig; cbn [negb].
  - rewrite <- (chunks_count DEFAULT_CHUNK_SIZE data) in Hd, Hinj by done.
    destruct (write_chunked_ok (fun n => ids (S n)) clock Hclock data DEFAULT_CHUNK_SIZE use o) as (o' & bufs & man & Hw & _ & Hr & _);
      [by vm_compute|done| |].
    { split; [intros j Hj; apply Hd; lia|]. intros i j Hi Hj E. apply Hinj in E; lia. }
    rewrite (shm_bind_ok _ _ _ _ _ Hw). cbv beta iota. eexists o', _. split; [reflexivity|]. cbn [is_chunked storage]. by split_and!.
  - destruct (pack_ok use data) as (w & b & Hp & Hw & Hb). rewrite (pure_bind _ _ _ _ Hp). cbv beta iota.
    destruct (Hd 1%nat ltac:(lia)) as [Hid Hfresh].
    destruct (store_ok (fun n => ids (S n)) clock Hclock 0 w o Hid Hfresh ltac:(lia)) as (o1 & buf & d & Hs & Hh & _).
    rewrite (shm_bind_ok _ _ _ _ _ Hs). cbv beta iota. eexists o1, _. split; [reflexivity|]. split; [done|]. split; [done|].
    unfold scene_read. cbn [storage is_chunked meta]. rewrite (fetch_ok _ _ _ Hh). cbn [rbind]. unfold m. cbn [meta_total_bytes].
    destruct b.
    + rewrite Hb, Hp. rewrite Z.eqb_refl. by destruct (lz4_decode data).
    + subst w. rewrite Hp. unfold decompress. destruct (lz4_decode data) as [x|]; cbn [map_err]; [|done].
      destruct (Nat.eqb_spec (length x) (length data)), (Z.eqb_spec (Z.of_nat (length x)) (Z.of_nat (length data))); try done; lia.
Qed.

(** ** Examples *)

(** A toy codec: a run as its length and value, anything else as it is. *)
Definition sample_encode (d : list Z) : list Z :=
  match d with
  | x :: _ => if bool_decide (d = replicate (length d) x) then [1; Z.of_nat (length d); x] else 0 :: d
  | [] => [0]
  end.
Definition sample_decode (c : list Z) : result str (list Z) :=
  match c with
  | 0 :: d => Ok d
  | [1; n; x] => Ok (replicate (Z.to_nat n) x)
  | _ => Err (lit "corrupt")
  end.

#[export] Instance sample_lz4 : Lz4 := {|
  lz4_encode d := Ok (sample_encode d);
  lz4_decode := sample_decode;
  lz4_decode_at_most n c := map_err id (let? d := sample_decode c in Ok (take (Z.to_nat n) d));
|}.

#[export] Instance sample_lz4_laws : Lz4Laws sample_lz4.
Proof.
  intros d. exists (sample_encode d). split; [done|]. destruct d as [|x d]; [done|]. unfold sample_encode.
  destruct (bool_decide (x :: d = replicate (length (x :: d)) x)) eqn:E; [|done]. apply bool_decide_eq_true in E.
  unfold lz4_decode, sample_lz4, sample_decode. rewrite Nat2Z.id. by rewrite <- E.
Defined.

Definition sample_ids (k : nat) : str := replicate (S k) 97.
Definition empty_os : os (Ipc := regions_ipc) := Regions.mkState [] (fun _ => []).

Lemma sample_drawn n : (n <= 20)%nat -> drawn sample_ids 1 n empty_os.
Proof.
  intros Hn. split.
  - intros k Hk. split; [|done]. unfold sample_ids. rewrite str_len_ascii by (by apply Forall_replicate). rewrite length_replicate. lia.
  - intros j k _ _ E. apply (f_equal length) in E. unfold sample_ids in E. rewrite !length_replicate in E. lia.
Defined.

Lemma chunked_roundtrip_witness :
  exists o' bufs m, write_chunked sample_ids (fun _ => 1000) [5; 5; 5; 5; 5; 1; 2] 3 true empty_os = Some (o', Ok (bufs, m)) /\
    read_chunked m o' = Ok [5; 5; 5; 5; 5; 1; 2] /\ length (chunk_infos m) = 3%nat /\
    (forall i, i ∈ chunk_infos m -> stored_len i <= original_len i <= 3) /\
    (forall d content, holds empty_os d content -> fetch d o' = Ok content).
Proof.
  apply (chunked_roundtrip sample_ids (fun _ => 1000) [5; 5; 5; 5; 5; 1; 2] 3 true empty_os).
  - intros _. by split.
  - done.
  - by vm_compute.
  - apply sample_drawn. vm_compute. lia.
Defined.

Lemma manifest_checked_witness :
  Z.of_nat (length ([] : list Z)) = 0 /\ index <$> ([] : list ChunkInfo) = Z.of_nat <$> seq 0 0.
Proof. exact (manifest_checked (mkManifest [] 0 [] false) empty_os [] eq_refl). Defined.

(** Three bytes that are themselves a stream for three others. *)
Lemma scene_read_back_witness :
  exists o' s, scene_write sample_ids (fun _ => 1000) [1; 3; 9] Screenshot None true empty_os = Some (o', Ok s) /\
    is_chunked s = false /\ meta_total_bytes (meta s) = 3 /\ scene_read s o' = Ok [9; 9; 9].
Proof.
  destruct (scene_read_back sample_ids (fun _ => 1000) [1; 3; 9] Screenshot None true empty_os) as (o' & s & Hw & Hc & Ht & Hr).
  - intros _. by split.
  - by vm_compute.
  - apply sample_drawn. vm_compute. lia.
  - exists o', s. split; [exact Hw|]. change (is_chunked s = false) in Hc. rewrite Hc in Hr. split; [exact Hc|]. split; [exact Ht|]. exact Hr.
Defined.

(** ** Buffer pools *)

Section Pools.
Context {ipc : Ipc} {laws : IpcLaws ipc}.

(** ** Clients of a pool *)

(** Clients take guards, write through them and drop them; a guard is named by its place
    among the live ones. *)
Inductive pool_op : Type :=
| PAcquire
| PWrite (j : nat) (data : list Z)
| PDrop (j : nat).

Record pool_state : Type := mkPoolState { the_pool : BufferPool; guards : list PooledBuffer; the_os : os }.

Definition pool_step (s : pool_state) (op : pool_op) : pool_state :=
  match op with
  | PAcquire =>
      match pool_acquire (the_pool s) with
      | (p, Ok g) => mkPoolState p (g :: guards s) (the_os s)
      | (p, Err _) => mkPoolState p (guards s) (the_os s)
      end
  | PWrite j data =>
      match guards s !! j with
      | Some g => mkPoolState (the_pool s) (guards s) (fst (buffer_write (pooled g) data (the_os s)))
      | None => s
      end
  | PDrop j =>
      match guards s !! j with
      | Some g => let '(p, o) := pooled_drop g (the_pool s) (the_os s) in mkPoolState p (delete j (guards s)) o
      | None => s
      end
  end.

Definition pool_run : pool_state -> list pool_op -> pool_state := foldl pool_step.

(** ** The invariant *)

(** Every slot's buffer is laid out in a region of its own; a free slot's is empty. *)
Definition slots_ok (o : os) (sl : list Slot) : Prop :=
  NoDup ((fun s => region (shm (slot_buffer s))) <$> sl) /\
  forall i s, sl !! i = Some s -> exists h rest, handle_on o (slot_buffer s) h rest /\ (in_use s = false -> data_len h = 0).

(** The slots in use are those of the live guards, each held once. *)
Definition pool_inv (s : pool_state) : Prop :=
  slots_ok (the_os s) (slots (the_pool s)) /\
  NoDup (slot_index <$> guards s) /\
  (forall g, g ∈ guards s -> exists sl, slots (the_pool s) !! slot_index g = Some sl /\ slot_buffer sl = pooled g) /\
  (forall i sl, slots (the_pool s) !! i = Some sl -> in_use sl = true <-> i ∈ slot_index <$> guards s).

Lemma first_free_spec k sl :
  match first_free k sl with
  | Some (i, buf) => exists s, sl !! (i - k)%nat = Some s /\ (k <= i)%nat /\ slot_buffer s = buf /\ in_use s = false
  | None => forall i s, sl !! i = Some s -> in_use s = true
  end.
Proof.
  revert k. induction sl as [|s sl IH]; intros k; cbn [first_free]; [by intros i s|].
  destruct (in_use s) eqn:Eu; cbn [negb].
  - specialize (IH (S k)). destruct (first_free (S k) sl) as [[i buf]|].
    + destruct IH as (s' & Hs & Hle & Hb). exists s'. replace (i - k)%nat with (S (i - S k)) by lia. split; [done|]. split; [lia|done].
    + intros [|i] s'; simpl; [congruence|apply IH].
  - exists s. by rewrite Nat.sub_diag.
Qed.

Lemma regions_alter b i (sl : list Slot) :
  (fun s => region (shm (slot_buffer s))) <$> alter (set_in_use b) i sl = (fun s => region (shm (slot_buffer s))) <$> sl.
Proof. revert i. induction sl as [|s sl IH]; intros [|i]; simpl; try done. f_equal. apply IH. Qed.

Lemma alter_lookup b i (sl : list Slot) j s :
  alter (set_in_use b) i sl !! j = Some s ->
  exists s0, sl !! j = Some s0 /\ slot_buffer s = slot_buffer s0 /\ in_use s = if decide (i = j) then b else in_use s0.
Proof.
  intros H. destruct (decide (i = j)) as [->|Hne].
  - rewrite list_lookup_alter_eq in H. destruct (sl !! j) as [s0|]; [|done]. injection H as <-. by exists s0.
  - rewrite list_lookup_alter_ne in H by done. by exists s.
Qed.

(** Writing or clearing one slot's region leaves the other slots alone. *)
Lemma slots_frame o o' sl i s h' rest' :
  slots_ok o sl -> sl !! i = Some s -> (forall r, r <> region (shm (slot_buffer s)) -> mem o' r = mem o r) ->
  handle_on o' (slot_buffer s) h' rest' -> (in_use s = false -> data_len h' = 0) -> slots_ok o' sl.
Proof.
  intros [Hnd Hsl] Hi Hmem Hh Hz. split; [done|]. intros j s2 Hj. destruct (decide (i = j)) as [<-|Hne].
  - assert (s2 = s) as -> by congruence. eauto.
  - destruct (Hsl _ _ Hj) as (h & rest & [(Hm & Hl) Hc] & Hz2). exists h, rest. split; [|done]. split; [|done]. split; [|done].
    rewrite Hmem; [done|]. intros E. apply Hne.
    refine (NoDup_lookup _ _ _ (region (shm (slot_buffer s))) Hnd _ _); rewrite list_lookup_fmap; [by rewrite Hi|rewrite Hj; simpl; by rewrite E].
Qed.

Lemma slots_alter o sl b i :
  slots_ok o sl -> (forall s h rest, b = false -> sl !! i = Some s -> handle_on o (slot_buffer s) h rest -> data_len h = 0) ->
  slots_ok o (alter (set_in_use b) i sl).
Proof.
  intros [Hnd Hsl] Hz. split; [by rewrite regions_alter|]. intros j s Hj. destruct (alter_lookup _ _ _ _ _ Hj) as (s0 & Hj0 & -> & ->).
  destruct (Hsl _ _ Hj0) as (h & rest & Hh & Hz2). exists h, rest. split; [done|]. destruct (decide (i = j)) as [->|]; [|done]. eauto.
Qed.

Lemma acquire_inv s : pool_inv s -> pool_inv (pool_step s PAcquire).
Proof.
  intros (Hs & Hnd & Hg & Hu). unfold pool_step, pool_acquire. pose proof (first_free_spec 0 (slots (the_pool s))) as Hf.
  destruct (first_free 0 (slots (the_pool s))) as [[i buf]|]; [|by split].
  destruct Hf as (sl & Hi & _ & <- & Hfree). rewrite Nat.sub_0_r in Hi.
  assert (Hni : i ∉ slot_index <$> guards s) by (intros H; apply (Hu _ _ Hi) in H; congruence).
  split; [by apply slots_alter|]. split; [by apply NoDup_cons|]. cbn [the_pool slots guards]. split.
  - intros g [->|Hin]%elem_of_cons.
    + exists (set_in_use true sl). cbn [slot_index pooled]. by rewrite list_lookup_alter_eq, Hi.
    + destruct (Hg _ Hin) as (s1 & H1 & H2). destruct (decide (i = slot_index g)) as [Heq|Hne].
      * exfalso. apply Hni. apply list_elem_of_fmap. by exists g.
      * exists s1. by rewrite list_lookup_alter_ne.
  - intros j s1 Hj. destruct (alter_lookup _ _ _ _ _ Hj) as (s0 & Hj0 & _ & ->). cbn [fmap list_fmap slot_index].
    rewrite elem_of_cons, <- (Hu _ _ Hj0). destruct (decide (i = j)) as [->|Hne]; [by split; [left|]|]. split; [by right|]. intros [->|]; done.
Qed.

Lemma write_inv s j data : pool_inv s -> pool_inv (pool_step s (PWrite j data)).
Proof.
  intros (Hs & Hnd & Hg & Hu). cbn [pool_step]. destruct (guards s !! j) as [g|] eqn:Ej; [|by split_and!].
  assert (Hin := list_elem_of_lookup_2 _ _ _ Ej). destruct (Hg _ Hin) as (sl & Hi & Hb).
  split; [|by split_and!]. cbn [the_pool the_os]. destruct Hs as [Hrd Hsl]. destruct (Hsl _ _ Hi) as (h & rest & Hh & _). rewrite Hb in Hh.
  destruct (decide (Z.of_nat (length data) <= buf_capacity (pooled g))) as [Hfit|Hbig].
  - destruct (buffer_write_ok _ _ _ _ data Hh Hfit) as (o' & -> & _ & Hh' & Hmem). cbn [fst]. rewrite <- Hb in Hh', Hmem.
    refine (slots_frame _ _ _ _ _ _ _ (conj Hrd Hsl) Hi Hmem Hh' _). intros Hfree.
    assert (in_use sl = true) by (apply (Hu _ _ Hi), list_elem_of_fmap; by exists g). congruence.
  - unfold buffer_write. replace (_ <? _) with true by lia. by split.
Qed.

Lemma drop_inv s j : pool_inv s -> pool_inv (pool_step s (PDrop j)).
Proof.
  intros (Hs & Hnd & Hg & Hu). cbn [pool_step]. destruct (guards s !! j) as [g|] eqn:Ej; [|by split_and!].
  assert (Hin := list_elem_of_lookup_2 _ _ _ Ej). destruct (Hg _ Hin) as (sl & Hi & Hb). unfold pooled_drop. rewrite Hi.
  destruct Hs as [Hrd Hsl]. destruct (Hsl _ _ Hi) as (h & rest & Hh & _).
  destruct (buffer_clear_ok _ _ _ _ Hh) as (o' & -> & _ & Hh' & Hmem). cbn [fst].
  assert (Hp : slot_index <$> guards s ≡ₚ slot_index g :: (slot_index <$> delete j (guards s))).
  { change (slot_index g :: (slot_index <$> delete j (guards s))) with (slot_index <$> (g :: delete j (guards s))).
    by apply fmap_Permutation, delete_Permutation. }
  rewrite Hp in Hnd. apply NoDup_cons in Hnd as [Hni Hnd]. split; [|split; [done|split]]; cbn [the_pool the_os slots guards].
  - apply slots_alter.
    + by refine (slots_frame _ _ _ _ _ _ _ (conj Hrd Hsl) Hi Hmem Hh' _).
    + intros s1 h1 rest1 _ H1 [(Hm1 & Hok1 & _) _]. assert (s1 = sl) as -> by congruence. destruct Hh' as [(Hm2 & Hok2 & _) _].
      rewrite Hm1 in Hm2. apply (f_equal header_from) in Hm2. rewrite !header_roundtrip in Hm2 by done. by rewrite Hm2.
  - intros g' Hg'. assert (Hg'2 : g' ∈ guards s) by (rewrite (delete_Permutation _ _ _ Ej); by right).
    destruct (Hg _ Hg'2) as (s1 & H1 & H2). exists s1. split; [|done]. rewrite list_lookup_alter_ne; [done|].
    intros E. apply Hni. rewrite E. apply list_elem_of_fmap. by exists g'.
  - intros i s1 Hi1. destruct (alter_lookup _ _ _ _ _ Hi1) as (s0 & Hi0 & _ & ->). destruct (decide (slot_index g = i)) as [<-|Hne].
    + split; [done|]. intros H. by exfalso.
    + rewrite (Hu _ _ Hi0), Hp, elem_of_cons. split; [intros [->|]; done|by right].
Qed.

Lemma run_inv ops s : pool_inv s -> pool_inv (pool_run s ops).
Proof.
  revert s. induction ops as [|[|j d|j] ops IH]; intros s Hs; [done|apply IH, acquire_inv, Hs|apply IH, write_inv, Hs|apply IH, drop_inv, Hs].
Qed.

(** ** Counting *)

Lemma used_count (sl : list Slot) k (l : list nat) :
  NoDup l -> (forall i s, sl !! i = Some s -> in_use s = true <-> (k + i)%nat ∈ l) ->
  (forall i, i ∈ l -> (k <= i < k + length sl)%nat) ->
  (length (base.filter (fun s => in_use s = false) sl) + length l = length sl)%nat.
Proof.
  revert k l. induction sl as [|s sl IH]; intros k l Hnd Hu Hb.
  - destruct l as [|i l]; [done|]. specialize (Hb i ltac:(left)). simpl in Hb. lia.
  - pose proof (Hu 0%nat s eq_refl) as Hs. rewrite Nat.add_0_r in Hs. destruct (in_use s) eqn:E.
    + rewrite filter_cons_False by congruence. assert (Hk : k ∈ l) by (by apply Hs).
      apply elem_of_Permutation in Hk as [l' Hp]. rewrite Hp in Hnd. apply NoDup_cons in Hnd as [Hni Hnd].
      rewrite Hp. cbn [length]. specialize (IH (S k) l' Hnd). rewrite Nat.add_succ_r. f_equal. apply IH.
      * intros i s1 Hi. rewrite (Hu (S i) s1 Hi), Hp, elem_of_cons. replace (k + S i)%nat with (S k + i)%nat by lia.
        split; [intros [?|?]; [lia|done]|by right].
      * intros i Hi. specialize (Hb i ltac:(rewrite Hp; by right)). cbn [length] in Hb.
        assert (i <> k) by congruence. lia.
    + rewrite filter_cons_True by done. cbn [length Nat.add]. f_equal. apply (IH (S k) l Hnd).
      * intros i s1 Hi. rewrite (Hu (S i) s1 Hi). by replace (k + S i)%nat with (S k + i)%nat by lia.
      * intros i Hi. specialize (Hb i Hi). cbn [length] in Hb. assert (i <> k) by (intros ->; apply Hs in Hi; congruence). lia.
Qed.

Lemma available_inv s : pool_inv s -> (available (the_pool s) + length (guards s) = length (slots (the_pool s)))%nat.
Proof.
  intros (_ & Hnd & Hg & Hu). rewrite <- (length_fmap slot_index (guards s)). apply (used_count _ 0); [done|exact Hu|].
  intros i Hi. apply list_elem_of_fmap in Hi as (g & -> & Hin). destruct (Hg _ Hin) as (sl & Hi & _). apply lookup_lt_Some in Hi. lia.
Qed.

Lemma step_shape s op :
  length (slots (the_pool (pool_step s op))) = length (slots (the_pool s)) /\
  pool_capacity (the_pool (pool_step s op)) = pool_capacity (the_pool s).
Proof.
  destruct op as [|j d|j]; cbn [pool_step].
  - unfold pool_acquire. destruct (first_free _ _) as [[]|]; [|done]. cbn [the_pool slots pool_capacity]. by rewrite length_alter.
  - by destruct (guards s !! j).
  - destruct (guards s !! j) as [g|]; [|done]. unfold pooled_drop. destruct (slots (the_pool s) !! _); [|done].
    cbn [the_pool slots pool_capacity]. by rewrite length_alter.
Qed.

Lemma run_shape ops s :
  length (slots (the_pool (pool_run s ops))) = length (slots (the_pool s)) /\
  pool_capacity (the_pool (pool_run s ops)) = pool_capacity (the_pool s).
Proof.
  revert s. induction ops as [|op ops IH]; intros s; [done|]. cbn [pool_run foldl]. destruct (IH (pool_step s op)) as [H1 H2], (step_shape s op).
  unfold pool_run in *. split; congruence.
Qed.

(** ** Live guards *)

Lemma guard_region s g :
  pool_inv s -> g ∈ guards s ->
  ((fun s => region (shm (slot_buffer s))) <$> slots (the_pool s)) !! slot_index g = Some (region (shm (pooled g))).
Proof. intros (_ & _ & Hg & _) Hin. destruct (Hg _ Hin) as (sl & Hi & <-). by rewrite list_lookup_fmap, Hi. Qed.

Lemma guards_disjoint s : pool_inv s -> NoDup ((fun g => region (shm (pooled g))) <$> guards s).
Proof.
  intros Hs. pose proof Hs as ((Hrd & _) & Hnd & Hg & _). apply NoDup_fmap_2_strong; [|by apply NoDup_fmap_1 in Hnd].
  intros g1 g2 H1 H2 E. assert (Hi : slot_index g1 = slot_index g2).
  { refine (NoDup_lookup _ _ _ _ Hrd (guard_region _ _ Hs H1) _). rewrite E. by apply guard_region. }
  destruct (Hg _ H1) as (s1 & L1 & B1), (Hg _ H2) as (s2 & L2 & B2). destruct g1, g2; cbn in *. congruence.
Qed.

(** ** Creation *)

Definition pool_id (ids : nat -> str) (i : nat) : str := lit "p" ++ ids i ++ lit "-" ++ print_u64 (Z.of_nat i).

Lemma pool_slots_ok ids clock size i n o :
  (forall k, in_u64 (clock k)) -> 0 < size -> HEADER_SIZE + size < 2 ^ 64 -> drawn (pool_id ids) i n o ->
  exists o' sl, pool_slots ids clock size i n o = Some (o', Ok sl) /\ length sl = n /\ (forall s, s ∈ sl -> in_use s = false) /\
    slots_ok o' sl /\ (forall name r, named o name = Some r -> named o' name = Some r /\ mem o' r = mem o r) /\
    (forall s name, s ∈ sl -> named o name <> Some (region (shm (slot_buffer s)))).
Proof.
  intros Hclock Hsz Hmax. revert i o. induction n as [|n IH]; intros i o [Hd Hinj].
  - exists o, []. split; [done|]. split; [done|]. split; [by intros s ?%elem_of_nil|]. split; [by split; [apply NoDup_nil|]|]. split; [done|by intros s name ?%elem_of_nil].
  - cbn [pool_slots]. fold (pool_id ids i). destruct (Hd i ltac:(lia)) as [Hid Hfresh].
    destruct (create_ok (pool_id ids i) size None (clock i) _ o (segment_name_short _ Hid) Hfresh) as (o1 & b & rest & Hc & _ & _ & Hb & Hn & Hnew & Hmem);
      [done|apply Hclock|by vm_compute|done|].
    rewrite (shm_bind_ok _ _ _ _ _ Hc). assert (Hkeep : forall name r, named o name = Some r -> named o1 name = Some r /\ mem o1 r = mem o r).
    { intros name r Hr. rewrite Hn, bool_decide_false by congruence. split; [done|]. apply Hmem. intros ->. by apply (Hnew name Hr). }
    destruct (IH (S i) o1) as (o2 & sl & Hp & Hlen & Hfree & Hs & Hk2 & Hn2).
    { split; [|intros j k ? ?; apply Hinj; lia]. intros j Hj. destruct (Hd j ltac:(lia)) as [Hjid Hjf]. split; [done|].
      rewrite Hn, bool_decide_false; [done|]. intros E. apply app_inv_head in E. apply Hinj in E; lia. }
    assert (Hnb : named o1 (SEGMENT_PREFIX ++ pool_id ids i) = Some (region (shm b))) by (by rewrite Hn, bool_decide_true).
    rewrite (shm_bind_ok _ _ _ _ _ Hp). eexists o2, _. split; [reflexivity|]. split; [simpl; by rewrite Hlen|].
    split; [intros s [->|Hin]%elem_of_cons; [done|by apply Hfree]|]. split; [|split].
    + destruct Hs as [Hnd Hsl]. split.
      * cbn [fmap list_fmap slot_buffer]. apply NoDup_cons. split; [|done]. intros Hin. apply list_elem_of_fmap in Hin as (s & Hr & Hs).
        apply (Hn2 s (SEGMENT_PREFIX ++ pool_id ids i) Hs). by rewrite Hnb, Hr.
      * intros [|j] s Hj; [|by apply Hsl in Hj]. injection Hj as <-. exists (mkHeader HEADER_MAGIC 0 size (clock i) 0 0), rest. split; [|done]. cbn [slot_buffer].
        destruct Hb as [[Hm Hl] Hcap]. split; [|done]. split; [|exact Hl]. by destruct (Hk2 _ _ Hnb) as [_ ->].
    + intros name r Hr. destruct (Hkeep _ _ Hr) as [H1 H2], (Hk2 _ _ (proj1 (Hkeep _ _ Hr))) as [H3 H4]. by rewrite H4.
    + intros s name [->|Hin]%elem_of_cons; [apply Hnew|]. intros Hr. apply (Hn2 s name Hin). by apply Hkeep.
Qed.

End Pools.

(** C18: a new pool has all its buffers free.  Whatever its clients then do - acquire, write
    through guards, drop guards, in any order - the free slots and the live guards add up to
    the capacity, no two live guards share a region, and an acquisition either hands out an
    empty buffer that no live guard holds, or reports exhaustion, which it does exactly when
    every slot has a guard. *)
Theorem pool_exclusive {ipc : Ipc} {laws : IpcLaws ipc} ids clock cap size o
  (Hclock : forall k, in_u64 (clock k)) (Hcap : 0 < cap) (Hsz : 0 < size) (Hmax : HEADER_SIZE + size < 2 ^ 64)
  (Hids : drawn (pool_id ids) 0 (Z.to_nat cap) o) :
  exists o' p, pool_new ids clock cap size o = Some (o', Ok p) /\ available p = Z.to_nat cap /\
    forall ops, let s := pool_run (mkPoolState p [] o') ops in
      (available (the_pool s) + length (guards s) = Z.to_nat cap)%nat /\
      NoDup ((fun g => region (shm (pooled g))) <$> guards s) /\
      match pool_acquire (the_pool s) with
      | (_, Ok g) => (length (guards s) < Z.to_nat cap)%nat /\ buffer_read (pooled g) (the_os s) = Ok [] /\
          forall g', g' ∈ guards s -> region (shm (pooled g')) <> region (shm (pooled g))
      | (_, Err e) => length (guards s) = Z.to_nat cap /\ e = PoolExhausted cap
      end.
Proof.
  destruct (pool_slots_ok ids clock size 0 (Z.to_nat cap) o Hclock Hsz Hmax Hids) as (o' & sl & Hp & Hlen & Hfree & Hs & _).
  unfold pool_new. replace (cap =? 0) with false by lia. replace (size =? 0) with false by lia. rewrite (shm_bind_ok _ _ _ _ _ Hp).
  exists o', (mkPool sl cap size). split; [done|]. set (s0 := mkPoolState _ _ _).
  assert (H0 : pool_inv s0).
  { split; [done|]. split; [apply NoDup_nil; done|]. split; [by intros g ?%elem_of_nil|]. intros i s Hi. cbn in Hi.
    apply list_elem_of_lookup_2 in Hi. rewrite (Hfree _ Hi). split; [done|by intros ?%elem_of_nil]. }
  pose proof (available_inv _ H0) as Ha. simpl in Ha. rewrite Nat.add_0_r in Ha. fold (s0 : pool_state). split; [by rewrite Ha|].
  intros ops. cbv zeta. destruct (run_shape ops s0) as [Hsl Hpc]. apply (run_inv ops) in H0. set (s := pool_run s0 ops) in *.
  change (length (slots (the_pool s0))) with (length sl) in Hsl. change (pool_capacity (the_pool s0)) with cap in Hpc.
  pose proof (available_inv _ H0) as Hav. rewrite Hsl, Hlen in Hav. split; [done|].
  split; [by apply guards_disjoint|]. unfold pool_acquire. pose proof (first_free_spec 0 (slots (the_pool s))) as Hf.
  destruct (first_free 0 _) as [[i buf]|].
  - destruct Hf as (s1 & Hi & _ & <- & Hfree1). rewrite Nat.sub_0_r in Hi. cbn [pooled]. split; [|split].
    + apply list_elem_of_lookup_2 in Hi. destruct (available (the_pool s)) eqn:E; [|lia]. exfalso. apply nil_length_inv in E.
      assert (Hx : s1 ∈ base.filter (fun s => in_use s = false) (slots (the_pool s))) by (by apply list_elem_of_filter).
      rewrite E in Hx. by apply elem_of_nil in Hx.
    + destruct H0 as ((_ & Hslots) & _). destruct (Hslots _ _ Hi) as (h & rest & [Hl _] & Hz). rewrite (buffer_read_ok _ _ _ _ Hl).
      by rewrite (Hz Hfree1).
    + intros g Hg E. pose proof (guard_region _ _ H0 Hg) as Hr. destruct H0 as ((Hrd & _) & _ & _ & Hu).
      assert (i = slot_index g) as ->.
      { refine (NoDup_lookup _ _ _ _ Hrd _ Hr). by rewrite list_lookup_fmap, Hi, E. }
      assert (in_use s1 = true) by (apply (Hu _ _ Hi), list_elem_of_fmap; by exists g). congruence.
  - split; [|by rewrite Hpc]. enough (available (the_pool s) = 0%nat) by lia. unfold available.
    destruct (base.filter _ _) as [|x l] eqn:E; [done|]. exfalso.
    assert (Hx : x ∈ base.filter (fun s => in_use s = false) (slots (the_pool s))) by (rewrite E; left).
    apply list_elem_of_filter in Hx as [Hx1 Hx2]. apply list_elem_of_lookup in Hx2 as [j Hj]. rewrite (Hf _ _ Hj) in Hx1. done.
Qed.

(** After two acquisitions of a pool of two, a third is refused; one drop makes room. *)
Lemma pool_exclusive_witness :
  exists o' p, pool_new sample_ids (fun _ => 1000) 2 64 empty_os = Some (o', Ok p) /\ available p = 2%nat /\
    (let s := pool_run (mkPoolState p [] o') [PAcquire; PWrite 0 [1; 2; 3]; PAcquire; PAcquire; PDrop 1] in
     NoDup ((fun g => region (shm (pooled g))) <$> guards s) /\ (available (the_pool s) + length (guards s))%nat = 2%nat).
Proof.
  destruct (pool_exclusive (ipc := regions_ipc) sample_ids (fun _ => 1000) 2 64 empty_os) as (o' & p & Hn & Ha & H).
  - intros _. by split.
  - lia.
  - lia.
  - by vm_compute.
  - split.
    + intros k Hk. assert (k = 0%nat \/ k = 1%nat) as [-> | ->] by lia; split; try done; vm_compute; lia.
    + intros j k Hj Hk E. assert (j = 0%nat \/ j = 1%nat) as [-> | ->] by lia; assert (k = 0%nat \/ k = 1%nat) as [-> | ->] by lia; try done.
  - exists o', p. split; [exact Hn|]. split; [exact Ha|]. destruct (H [PAcquire; PWrite 0 [1; 2; 3]; PAcquire; PAcquire; PDrop 1]) as (H1 & H2 & _).
    split; [exact H2|exact H1].
Defined.
