(* ===== verification/Capability.v ===== *)
(** Capability records, [dcc-mcp-gateway-core/src/capability/record.rs]: slugs, the
    normalised summary, search tokens, and when a tool can be called.

    A [Uuid] is its 128-bit number; its text is the class [UuidText], with the format the
    [uuid] crate documents. *)

From S2P Require Import Prelude Text Json Naming GatewayNaming.

Local Open Scope Z_scope.

(** ** Identifiers *)

Abbreviation Uuid := Z.

Class UuidText : Type := {
  simple : Uuid -> str;
  hyphenated : Uuid -> str;
  parse_uuid : str -> option Uuid;
  simple_spec id : length (simple id) = 32%nat /\ Forall (fun c => in_range 48 57 c || in_range 97 102 c = true) (simple id);
}.

Definition nil_uuid : Uuid := 0.

(** ** Slugs *)

Section Slugs.
Context {uu : UuidText}.

Definition SCHEMA_AVAILABLE : str := lit "schema:available".

Definition tool_slug (dcc_type : str) (instance_id : Uuid) (backend_tool : str) : str :=
  dcc_type ++ [ch_dot] ++ instance_short simple instance_id ++ [ch_dot] ++ backend_tool.

Definition parse_slug (slug : str) : option (str * str * str) :=
  '(dcc, rest) ← split_once [ch_dot] slug;
  '(id8, tool) ← split_once [ch_dot] rest;
  if bool_decide (dcc = []) || bool_decide (tool = []) then None
  else if (str_len id8 <? 4)%nat || (36 <? str_len id8)%nat then None
  else if contains [ch_dash] id8 then (fun _ => (dcc, id8, tool)) <$> parse_uuid id8
  else if negb (forallb is_ascii_hexdigit id8) then None
  else Some (dcc, id8, tool).

Definition is_valid_dcc_bucket (dcc_type : str) : bool :=
  negb (bool_decide (dcc_type = [])) && is_cursor_safe_alphabet dcc_type && negb (contains [ch_dot] dcc_type).

End Slugs.

(** ** Metadata *)

Record CapabilityAnnotations : Type := mkAnnotations {
  title : option str;
  read_only_hint : option bool;
  destructive_hint : option bool;
  idempotent_hint : option bool;
  open_world_hint : option bool;
}.

Definition annotations_is_empty (a : CapabilityAnnotations) : bool :=
  match a with mkAnnotations None None None None None => true | _ => false end.

Record CapabilityMetadata : Type := mkMetadata {
  affinity : option str;
  execution : option str;
  timeout_hint_secs : option Z;
  job_strategy : option str;
  enforce_thread_affinity : option bool;
  risk : option str;
  tool_role : option str;
}.

Definition metadata_is_empty (m : CapabilityMetadata) : bool :=
  match m with mkMetadata None None None None None None None => true | _ => false end.

Record CapabilityGroupInfo : Type := mkGroup {
  group_name : str;
  group_description : str;
  group_tools : list str;
  default_active : bool;
  active : option bool;
}.

#[export] Instance annotations_eq_dec : EqDecision CapabilityAnnotations.
Proof. solve_decision. Defined.
#[export] Instance metadata_eq_dec : EqDecision CapabilityMetadata.
Proof. solve_decision. Defined.
#[export] Instance group_eq_dec : EqDecision CapabilityGroupInfo.
Proof. solve_decision. Defined.

(** ** Records *)

Record CapabilityRecord : Type := mkCapability {
  slug : str;
  backend_tool : str;
  callable_id : str;
  skill_name : option str;
  summary : str;
  tags : list str;
  search_tokens : list str;
  rank_layer : option str;
  rank_path_source : option str;
  dcc_type : str;
  instance_id : Uuid;
  has_schema : bool;
  loaded : bool;
  annotations : option CapabilityAnnotations;
  metadata : option CapabilityMetadata;
  available_groups : list CapabilityGroupInfo;
  tool_group : option str;
  discovery_only : bool;
}.

#[export] Instance capability_eq_dec : EqDecision CapabilityRecord.
Proof. solve_decision. Defined.

Definition MAX_SUMMARY_LEN : nat := 160.

(** The loop of [normalise_summary], then the spaces it leaves at the end. *)
Fixpoint summary_loop (raw out : str) (prev_space : bool) : str :=
  match raw with
  | [] => out
  | ch :: raw =>
      if is_whitespace ch then
        if negb prev_space && negb (bool_decide (out = [])) then summary_loop raw (out ++ [32]) true
        else summary_loop raw out prev_space
      else
        let out := out ++ [ch] in
        if (MAX_SUMMARY_LEN <=? str_len out)%nat then out else summary_loop raw out false
  end.

Definition trim_end_spaces (s : str) : str := reverse (trim_start_while (fun c => c =? 32) (reverse s)).

Definition normalise_summary (raw : str) : str :=
  let out := trim_end_spaces (summary_loop raw [] false) in
  if (MAX_SUMMARY_LEN <? length raw)%nat then out ++ lit "..." else out.

Fixpoint tokens_loop (tokens : list str) (seen : gset str) (out : list str) : list str :=
  match tokens with
  | [] => out
  | raw :: tokens =>
      let token := trim (join_str [32] (split_whitespace raw)) in
      if (str_len token <? 2)%nat || (64 <? str_len token)%nat then tokens_loop tokens seen out
      else
        let key := to_ascii_lowercase_str token in
        let out := if decide (key ∈ seen) then out else out ++ [token] in
        if (64 <=? length out)%nat then out else tokens_loop tokens ({[key]} ∪ seen) out
  end.

Definition normalise_search_tokens (tokens : list str) : list str := tokens_loop tokens ∅ [].

(** [CapabilityRecord::new]. *)
Definition record_new (tool_slug backend_tool callable_id : str) (skill_name : option str) (summary : str) (tags : list str)
    (dcc_type : str) (instance_id : Uuid) (has_schema loaded : bool) (tool_group : option str) : CapabilityRecord :=
  mkCapability tool_slug backend_tool callable_id skill_name (normalise_summary summary) tags [] None None dcc_type
    instance_id has_schema loaded None None [] tool_group false.

Definition filter_opt {A} (p : A -> bool) (o : option A) : option A :=
  match o with Some a => if p a then Some a else None | None => None end.

Definition with_surface_metadata (r : CapabilityRecord) (a : option CapabilityAnnotations) (m : option CapabilityMetadata) : CapabilityRecord :=
  mkCapability (slug r) (backend_tool r) (callable_id r) (skill_name r) (summary r) (tags r) (search_tokens r) (rank_layer r)
    (rank_path_source r) (dcc_type r) (instance_id r) (has_schema r) (loaded r)
    (filter_opt (fun a => negb (annotations_is_empty a)) a) (filter_opt (fun m => negb (metadata_is_empty m)) m)
    (available_groups r) (tool_group r) (discovery_only r).

Definition with_available_groups (r : CapabilityRecord) (groups : list CapabilityGroupInfo) : CapabilityRecord :=
  mkCapability (slug r) (backend_tool r) (callable_id r) (skill_name r) (summary r) (tags r) (search_tokens r) (rank_layer r)
    (rank_path_source r) (dcc_type r) (instance_id r) (has_schema r) (loaded r) (annotations r) (metadata r)
    (base.filter (fun g => group_name g <> []) groups) (tool_group r) (discovery_only r).

Definition with_search_tokens (r : CapabilityRecord) (tokens : list str) : CapabilityRecord :=
  mkCapability (slug r) (backend_tool r) (callable_id r) (skill_name r) (summary r) (tags r) (normalise_search_tokens tokens)
    (rank_layer r) (rank_path_source r) (dcc_type r) (instance_id r) (has_schema r) (loaded r) (annotations r) (metadata r)
    (available_groups r) (tool_group r) (discovery_only r).

Definition non_empty (s : str) : bool := negb (bool_decide (s = [])).

Definition with_rank_policy (r : CapabilityRecord) (layer path_source : option str) : CapabilityRecord :=
  mkCapability (slug r) (backend_tool r) (callable_id r) (skill_name r) (summary r) (tags r) (search_tokens r)
    (filter_opt non_empty layer) (filter_opt non_empty path_source) (dcc_type r) (instance_id r) (has_schema r) (loaded r)
    (annotations r) (metadata r) (available_groups r) (tool_group r) (discovery_only r).

Definition with_discovery_only (r : CapabilityRecord) (d : bool) : CapabilityRecord :=
  mkCapability (slug r) (backend_tool r) (callable_id r) (skill_name r) (summary r) (tags r) (search_tokens r) (rank_layer r)
    (rank_path_source r) (dcc_type r) (instance_id r) (has_schema r) (loaded r) (annotations r) (metadata r)
    (available_groups r) (tool_group r) d.

Definition from_skill_tool {uu : UuidText} (skill tool_name description dcc : str) (group : option str) : CapabilityRecord :=
  mkCapability (tool_slug dcc nil_uuid tool_name) tool_name tool_name (Some skill) (normalise_summary description) [] [] None None
    dcc nil_uuid false false None None [] group false.

(** The assignments of [build_unloaded_records]. *)
Definition at_instance {uu : UuidText} (r : CapabilityRecord) (id : Uuid) : CapabilityRecord :=
  mkCapability (tool_slug (dcc_type r) id (backend_tool r)) (backend_tool r) (callable_id r) (skill_name r) (summary r) (tags r)
    (search_tokens r) (rank_layer r) (rank_path_source r) (dcc_type r) id (has_schema r) (loaded r) (annotations r) (metadata r)
    (available_groups r) (tool_group r) (discovery_only r).

Definition group_active (r : CapabilityRecord) (name : str) : bool :=
  existsb (fun g => bool_decide (group_name g = name) && bool_decide (active g = Some true)) (available_groups r).

Definition is_callable (r : CapabilityRecord) : bool :=
  if discovery_only r then false
  else if negb (loaded r) then false
  else match tool_group r with None => true | Some name => group_active r name end.

Definition disabled_by_group (r : CapabilityRecord) : option str :=
  if negb (loaded r) then None else filter_opt (fun name => negb (group_active r name)) (tool_group r).

(** [sort_by(|a, b| a.tool_slug.cmp(&b.tool_slug))]. *)
Definition slug_le (a b : CapabilityRecord) : bool := bool_decide (str_le (slug a) (slug b)).
Definition sort_by_slug (l : list CapabilityRecord) : list CapabilityRecord := sort_by slug_le l.

(** ** Slugs, read back *)

Lemma bucket_plain dcc : is_valid_dcc_bucket dcc = true -> dcc <> [] /\ Forall (fun c => c <> ch_dot) dcc.
Proof.
  unfold is_valid_dcc_bucket. rewrite !andb_true_iff, !negb_true_iff. intros ((H1 & _) & H2). apply bool_decide_eq_false in H1.
  split; [done|]. apply Forall_forall. intros c Hc ->. apply list_elem_of_split in Hc as (a & b & ->).
  enough (contains [ch_dot] (a ++ ch_dot :: b) = true) by congruence. apply contains_spec. by exists a, b.
Qed.

Lemma slug_parts {uu : UuidText} dcc id tool :
  is_valid_dcc_bucket dcc = true -> tool <> [] -> parse_slug (tool_slug dcc id tool) = Some (dcc, instance_short simple id, tool).
Proof.
  intros Hd Ht. destruct (bucket_plain _ Hd) as [Hne Hdots]. unfold parse_slug, tool_slug.
  rewrite (split_once_app ch_dot []) by done. cbn [mbind option_bind].
  rewrite (split_once_app ch_dot []) by (by apply (instance_short_ne simple simple_spec)). cbn [mbind option_bind].
  rewrite !bool_decide_false by done. cbn [orb].
  destruct (instance_short_hex simple simple_spec id) as [Hl Hh].
  assert (Hlen : str_len (instance_short simple id) = 8%nat).
  { rewrite str_len_ascii, Hl; [done|]. eapply Forall_impl; [exact Hh|]. apply hexdigit_ascii. }
  rewrite Hlen. cbn [Nat.ltb Nat.leb orb].
  assert (Hdash : contains [ch_dash] (instance_short simple id) = false).
  { apply not_true_iff_false. intros Hc. apply contains_spec in Hc as (a & b & E).
    pose proof (instance_short_ne simple simple_spec ch_dash id eq_refl) as Hn. rewrite E in Hn.
    apply Forall_app in Hn as [_ Hn]. by apply Forall_cons in Hn as [Hn _]. }
  rewrite Hdash. by rewrite (proj2 (forallb_Forall _ _) Hh).
Qed.

(** A slug of a valid bucket reads back as the bucket, the eight digits of the instance and
    the tool name, whatever dots the name has: two slugs are equal only when these three are. *)
Theorem slug_roundtrip {uu : UuidText} dcc id tool dcc' id' tool'
  (Hd : is_valid_dcc_bucket dcc = true) (Ht : tool <> []) (Hd' : is_valid_dcc_bucket dcc' = true) (Ht' : tool' <> []) :
  parse_slug (tool_slug dcc id tool) = Some (dcc, instance_short simple id, tool) /\
  (tool_slug dcc id tool = tool_slug dcc' id' tool' <->
   dcc = dcc' /\ instance_short simple id = instance_short simple id' /\ tool = tool').
Proof.
  pose proof (slug_parts dcc id tool Hd Ht) as H1. pose proof (slug_parts dcc' id' tool' Hd' Ht') as H2.
  split; [done|]. split.
  - intros E. rewrite E, H2 in H1. injection H1 as -> -> ->. done.
  - intros (-> & E & ->). unfold tool_slug. by rewrite E.
Qed.

(** ** Summaries *)

(** The loop without its limit. *)
Fixpoint collapse (raw out : str) (prev_space : bool) : str :=
  match raw with
  | [] => out
  | ch :: raw =>
      if is_whitespace ch then
        if negb prev_space && negb (bool_decide (out = [])) then collapse raw (out ++ [32]) true else collapse raw out prev_space
      else collapse raw (out ++ [ch]) false
  end.

Lemma collapse_app raw out ps : exists t, collapse raw out ps = out ++ t.
Proof.
  revert out ps. induction raw as [|c raw IH]; intros out ps; simpl; [exists []; by rewrite app_nil_r|].
  destruct (is_whitespace c); [destruct (_ && _)|].
  - destruct (IH (out ++ [32]) true) as [t ->]. exists ([32] ++ t). by rewrite app_assoc.
  - apply IH.
  - destruct (IH (out ++ [c]) false) as [t ->]. exists ([c] ++ t). by rewrite app_assoc.
Qed.

(** Either the limit was not reached, or the result stops at the first character that
    reaches it. *)
Lemma summary_loop_cut (raw out : str) (ps : bool) :
  (str_len out <= (if ps then 160 else 159))%nat ->
  (summary_loop raw out ps = collapse raw out ps /\ (str_len (summary_loop raw out ps) <= 164)%nat) \/
  (exists p c t, summary_loop raw out ps = p ++ [c] /\ is_whitespace c = false /\ collapse raw out ps = p ++ [c] ++ t /\
     (160 <= str_len (p ++ [c]) <= 164)%nat).
Proof.
  revert out ps. induction raw as [|c raw IH]; intros out ps Hout; cbn [summary_loop collapse]; cbv zeta.
  - left. split; [done|]. destruct ps; lia.
  - destruct (is_whitespace c) eqn:Ew.
    + destruct (negb ps && _) eqn:Eb; [|by apply IH]. apply IH. rewrite str_len_app. destruct ps; [done|]. change (str_len [32]) with 1%nat. lia.
    + change MAX_SUMMARY_LEN with 160%nat. assert (Hc : (len_utf8 c <= 4)%nat) by (unfold len_utf8; repeat case_match; lia).
      assert (Hl : str_len (out ++ [c]) = (str_len out + len_utf8 c)%nat) by (rewrite str_len_app; unfold str_len; simpl; lia).
      destruct (160 <=? str_len (out ++ [c]))%nat eqn:El.
      * right. destruct (collapse_app raw (out ++ [c]) false) as [t Ht]. exists out, c, t. apply Nat.leb_le in El.
        split; [done|]. split; [done|]. split; [by rewrite Ht, <- app_assoc|]. destruct ps; lia.
      * apply IH. apply Nat.leb_gt in El. lia.
Qed.

Lemma trim_end_spaces_app s n : (forall t c, s = t ++ [c] -> c <> 32) -> trim_end_spaces (s ++ replicate n 32) = s.
Proof.
  intros Hs. unfold trim_end_spaces. rewrite reverse_app, reverse_replicate.
  induction n as [|n IH]; simpl; [|exact IH]. rewrite trim_start_while_id; [apply reverse_involutive|].
  intros c t E. apply (f_equal reverse) in E. rewrite reverse_involutive, reverse_cons in E. apply Z.eqb_neq. by apply (Hs _ _ E).
Qed.

(** What [collapse] has written when [ws] are the complete words and [cur] the begun one. *)
Definition written (ws : list str) (cur : str) : str :=
  match cur with
  | [] => match ws with [] => [] | _ => join_str [32] ws ++ [32] end
  | _ => join_str [32] (ws ++ [cur])
  end.

Lemma join_str_snoc ws w : ws <> [] -> join_str [32] (ws ++ [w]) = join_str [32] ws ++ [32] ++ w.
Proof.
  induction ws as [|x ws IH]; [done|]. intros _. destruct ws as [|y ws]; [done|].
  change (join_str [32] ((x :: y :: ws) ++ [w])) with (x ++ [32] ++ join_str [32] ((y :: ws) ++ [w])).
  rewrite IH by done. change (join_str [32] (x :: y :: ws)) with (x ++ [32] ++ join_str [32] (y :: ws)). by rewrite <- !app_assoc.
Qed.

Lemma written_snoc ws cur c : written ws (cur ++ [c]) = written ws cur ++ [c].
Proof.
  destruct cur as [|x cur].
  - simpl app at 1. unfold written. destruct ws as [|w ws]; [done|]. rewrite join_str_snoc by done. by rewrite <- app_assoc.
  - unfold written. simpl app at 1. destruct ws as [|w ws]; [done|]. rewrite !join_str_snoc by done. by rewrite <- !app_assoc.
Qed.

Lemma written_space ws cur : cur <> [] -> written (ws ++ [cur]) [] = written ws cur ++ [32].
Proof. intros H. unfold written. destruct cur; [done|]. by destruct (ws ++ _) eqn:E; [destruct ws|]. Qed.

Lemma collapse_words raw ws cur :
  exists n, collapse raw (written ws cur) (bool_decide (cur = []) && negb (bool_decide (ws = []))) =
    join_str [32] (ws ++ split_whitespace_loop raw cur) ++ replicate n 32.
Proof.
  revert ws cur. induction raw as [|c raw IH]; intros ws cur; cbn [collapse split_whitespace_loop].
  - destruct cur as [|x cur].
    + rewrite app_nil_r. destruct ws; [by exists 0%nat|by exists 1%nat].
    + exists 0%nat. by rewrite app_nil_r.
  - destruct (is_whitespace c).
    + destruct cur as [|x cur].
      * rewrite bool_decide_true by done. destruct ws as [|w ws]; [apply (IH [] [])|]. apply (IH (w :: ws) []).
      * rewrite bool_decide_false by done. cbn [andb negb]. rewrite bool_decide_false.
        2: { unfold written. destruct ws as [|w ws]; [done|]. rewrite join_str_snoc by done. by destruct (join_str _ _). }
        cbn [negb]. rewrite <- written_space by done. destruct (IH (ws ++ [x :: cur]) []) as [n Hn]. exists n.
        rewrite bool_decide_true in Hn by done. rewrite bool_decide_false in Hn by (by destruct ws). cbn [andb negb] in Hn.
        rewrite Hn. by rewrite <- app_assoc.
    + destruct (IH ws (cur ++ [c])) as [n Hn]. exists n. rewrite written_snoc in Hn. rewrite bool_decide_false in Hn by (by destruct cur).
      exact Hn.
Qed.

Lemma words_plain raw cur : Forall plain cur -> Forall (fun w => w <> [] /\ Forall plain w) (split_whitespace_loop raw cur).
Proof.
  revert cur. induction raw as [|c raw IH]; intros cur Hcur; cbn [split_whitespace_loop].
  - destruct cur as [|x cur]; [constructor|]. by constructor.
  - destruct (is_whitespace c) eqn:E.
    + destruct cur; [by apply IH|]. constructor; [done|]. by apply IH.
    + apply IH, Forall_app. split; [done|]. by repeat constructor.
Qed.

Lemma join_last ws t c : Forall (fun w => w <> [] /\ Forall plain w) ws -> join_str [32] ws = t ++ [c] -> plain c.
Proof.
  intros Hws. destruct ws as [|w ws _] using rev_ind; [by destruct t|]. apply Forall_app in Hws as [_ Hw].
  apply Forall_cons in Hw as [[Hne Hw] _]. destruct w as [|x w _] using rev_ind; [done|]. apply Forall_app in Hw as [_ Hw].
  apply Forall_cons in Hw as [Hx _]. destruct ws as [|y ws].
  - simpl. intros E. by apply app_inj_tail in E as [_ <-].
  - rewrite join_str_snoc by done. rewrite !app_assoc. intros E. by apply app_inj_tail in E as [_ <-].
Qed.

Lemma spaces_prefix full n p c t : c <> 32 -> full ++ replicate n 32 = (p ++ [c]) ++ t -> p ++ [c] `prefix_of` full.
Proof.
  intros Hc E. apply app_eq_inv in E as [(k & Hk & Hs)|(k & Hk & Hs)].
  - by exists k.
  - destruct k as [|x k _] using rev_ind; [rewrite app_nil_r in Hk; by rewrite Hk|]. rewrite app_assoc in Hk.
    apply app_inj_tail in Hk as [_ <-]. exfalso. apply Hc.
    assert (Hin : c ∈ replicate n 32) by (rewrite Hs; set_solver). by apply elem_of_replicate in Hin as [-> _].
Qed.

(** The summary of a description is its words joined by single spaces, cut at the first
    character that makes it 160 bytes or more; but the ellipsis depends on the number of
    characters of the description as it came, so that a short text of wide characters is
    cut without one, and a text that only blanks make long has one though nothing is cut. *)
Theorem summary_exact raw :
  let full := join_str [32] (split_whitespace raw) in
  exists cut, normalise_summary raw = cut ++ (if (160 <? length raw)%nat then lit "..." else []) /\
    cut `prefix_of` full /\ (cut <> full -> 160 <= str_len cut)%nat /\ (str_len cut <= 164)%nat.
Proof.
  cbv zeta. set (full := join_str _ _). assert (Hw : Forall (fun w => w <> [] /\ Forall plain w) (split_whitespace raw)) by (by apply words_plain).
  assert (Hlast : forall t c, full = t ++ [c] -> c <> 32).
  { intros t c E ->. pose proof (join_last _ _ _ Hw E) as Hp. done. }
  destruct (collapse_words raw [] []) as [n Hn]. simpl in Hn. fold (split_whitespace raw) in Hn. fold full in Hn.
  exists (trim_end_spaces (summary_loop raw [] false)). split.
  { unfold normalise_summary. change MAX_SUMMARY_LEN with 160%nat. destruct (160 <? length raw)%nat; [done|by rewrite app_nil_r]. }
  destruct (summary_loop_cut raw [] false) as [[Hs Hlen]|(p & c & t & Hs & Hc & Ht & Hlen)]; [simpl; lia| |].
  - rewrite Hs, Hn, trim_end_spaces_app by done. split; [done|]. split; [done|]. rewrite Hs, Hn, str_len_app in Hlen. lia.
  - rewrite Hs. assert (Hnt : trim_end_spaces (p ++ [c]) = p ++ [c]).
    { rewrite <- (app_nil_r (p ++ [c])) at 1. apply (trim_end_spaces_app _ 0). intros t' c' E. apply app_inj_tail in E as [_ <-].
      intros ->. done. }
    rewrite Hnt. split; [|split; [lia|lia]]. rewrite Hn in Ht. rewrite app_assoc in Ht.
    apply (spaces_prefix full n p c t); [by intros ->|exact Ht].
Qed.

(** ** Examples *)

(** The sixteen hexadecimal digits of each half of the number, most significant first. *)
Definition hex_value (s : str) : option Z :=
  foldl (fun acc c => a ← acc; d ← hex_nibble c; Some (16 * a + d)) (Some 0) s.

#[export] Instance sample_uuids : UuidText := {|
  simple := hex_digits 32;
  hyphenated id :=
    let d := hex_digits 32 id in
    join_str [ch_dash] [take 8 d; take 4 (drop 8 d); take 4 (drop 12 d); take 4 (drop 16 d); drop 20 d];
  parse_uuid s := if (length s =? 32)%nat then hex_value s else None;
  simple_spec := hex_digits_spec 32;
|}.

Definition maya_id : Uuid := 227737578075324018944797741376085696512.

Lemma slug_roundtrip_witness :
  parse_slug (tool_slug (lit "maya") maya_id (lit "geo.create_sphere")) =
    Some (lit "maya", lit "ab54a97f", lit "geo.create_sphere").
Proof.
  rewrite (proj1 (slug_roundtrip (lit "maya") maya_id (lit "geo.create_sphere") (lit "maya") maya_id (lit "x")
    eq_refl ltac:(done) eq_refl ltac:(done))). reflexivity.
Defined.

Example short_wide : normalise_summary (replicate 90 955) = replicate 80 955.
Proof. vm_compute. reflexivity. Qed.

Example long_blank : normalise_summary (lit "ok" ++ replicate 200 32) = lit "ok...".
Proof. vm_compute. reflexivity. Qed.
