(* ===== verification/CapPolicy.v ===== *)
(** The gateway policy, [dcc-mcp-gateway-core/src/policy.rs]: which records may be searched,
    described and called, and which skills loaded. *)

From S2P Require Import Prelude Text Json Naming GatewayNaming Capability.

Local Open Scope Z_scope.

(** ** Operations and denials *)

Inductive GatewayPolicyOperation : Type := OpSearch | OpDescribe | OpLoadSkill | OpCall.

Definition operation_str (o : GatewayPolicyOperation) : str :=
  match o with OpSearch => lit "search" | OpDescribe => lit "describe" | OpLoadSkill => lit "load_skill" | OpCall => lit "call" end.

Inductive GatewayPolicyDenyReason : Type := ReadOnly | DccAllowlist | SkillAllowlist | ToolAllowlist.

Definition reason_str (r : GatewayPolicyDenyReason) : str :=
  match r with
  | ReadOnly => lit "read-only"
  | DccAllowlist => lit "dcc-allowlist"
  | SkillAllowlist => lit "skill-allowlist"
  | ToolAllowlist => lit "tool-allowlist"
  end.

#[export] Instance operation_eq_dec : EqDecision GatewayPolicyOperation.
Proof. solve_decision. Defined.

Record GatewayPolicyDenial : Type := mkDenial {
  reason : GatewayPolicyDenyReason;
  operation : GatewayPolicyOperation;
  message : str;
  denial_read_only : bool;
  denial_dcc_type : option str;
  denial_skill_name : option str;
  denial_tool_slug : option str;
}.

Record GatewayPolicy : Type := mkPolicy {
  read_only : bool;
  allowed_dcc_types : list str;
  allowed_skill_names : list str;
  allowed_skill_families : list str;
  allowed_tool_slugs : list str;
  allowed_tool_slug_prefixes : list str;
}.

Definition default_policy : GatewayPolicy := mkPolicy false [] [] [] [] [].

Definition is_nil {A} (l : list A) : bool := match l with [] => true | _ => false end.

Definition is_unrestricted (p : GatewayPolicy) : bool :=
  negb (read_only p) && is_nil (allowed_dcc_types p) && is_nil (allowed_skill_names p) && is_nil (allowed_skill_families p)
  && is_nil (allowed_tool_slugs p) && is_nil (allowed_tool_slug_prefixes p).

(** ** Lists *)

Definition allows_dcc (p : GatewayPolicy) (dcc : str) : bool :=
  is_nil (allowed_dcc_types p) || existsb (fun allowed => eq_ignore_ascii_case allowed dcc) (allowed_dcc_types p).

Definition family_matches (name family : str) : bool :=
  let family := to_ascii_lowercase_str family in
  bool_decide (name = family) || starts_with family name.

Definition allows_skill (p : GatewayPolicy) (skill : option str) : bool :=
  if is_nil (allowed_skill_names p) && is_nil (allowed_skill_families p) then true
  else
    match skill with
    | None => false
    | Some skill =>
        let skill_lc := to_ascii_lowercase_str skill in
        existsb (fun allowed => eq_ignore_ascii_case allowed skill) (allowed_skill_names p)
        || existsb (family_matches skill_lc) (allowed_skill_families p)
    end.

Definition allows_tool_slug (p : GatewayPolicy) (tool_slug : str) : bool :=
  if is_nil (allowed_tool_slugs p) && is_nil (allowed_tool_slug_prefixes p) then true
  else
    let slug_lc := to_ascii_lowercase_str tool_slug in
    existsb (fun allowed => eq_ignore_ascii_case allowed tool_slug) (allowed_tool_slugs p)
    || existsb (family_matches slug_lc) (allowed_tool_slug_prefixes p).

(** ** Enforcement *)

Definition opt_or {A} (a b : option A) : option A := match a with Some _ => a | None => b end.

Definition denial (p : GatewayPolicy) (r : GatewayPolicyDenyReason) (o : GatewayPolicyOperation) (dcc skill tool : option str) :
    GatewayPolicyDenial :=
  let subject := default (lit "operation") (opt_or tool (opt_or skill dcc)) in
  mkDenial r o (lit "Gateway policy denied " ++ operation_str o ++ lit " for " ++ subject ++ lit ": " ++ reason_str r)
    (read_only p) dcc skill tool.

Definition enforce_record (p : GatewayPolicy) (o : GatewayPolicyOperation) (r : CapabilityRecord) : result GatewayPolicyDenial unit :=
  let deny reason := Err (denial p reason o (Some (dcc_type r)) (skill_name r) (Some (slug r))) in
  if negb (allows_dcc p (dcc_type r)) then deny DccAllowlist
  else if negb (allows_skill p (skill_name r)) then deny SkillAllowlist
  else if negb (allows_tool_slug p (slug r)) then deny ToolAllowlist
  else if bool_decide (o = OpCall) && read_only p then
    if negb (bool_decide ((annotations r ≫= read_only_hint) = Some true)) then deny ReadOnly else Ok tt
  else Ok tt.

Fixpoint enforce_skills (p : GatewayPolicy) (o : GatewayPolicyOperation) (dcc : option str) (skills : list str) :
    result GatewayPolicyDenial unit :=
  match skills with
  | [] => Ok tt
  | s :: skills =>
      if negb (allows_skill p (Some s)) then Err (denial p SkillAllowlist o dcc (Some s) None) else enforce_skills p o dcc skills
  end.

Definition enforce_skill_operation (p : GatewayPolicy) (o : GatewayPolicyOperation) (dcc : option str) (skills : list str) :
    result GatewayPolicyDenial unit :=
  if read_only p && bool_decide (o = OpLoadSkill) then Err (denial p ReadOnly o dcc None None)
  else if match dcc with Some d => negb (allows_dcc p d) | None => false end then Err (denial p DccAllowlist o dcc None None)
  else enforce_skills p o dcc skills.

(** ** Theorems *)

(** What a policy means: every list that is not empty admits the names it gives, exactly or
    by prefix, without regard to case. *)
Definition listed (exact prefixes : list str) (name : option str) : Prop :=
  (exact = [] /\ prefixes = []) \/
  exists n, name = Some n /\
    ((exists a, a ∈ exact /\ to_ascii_lowercase_str a = to_ascii_lowercase_str n) \/
     (exists f, f ∈ prefixes /\ to_ascii_lowercase_str f `prefix_of` to_ascii_lowercase_str n)).

Definition admits (p : GatewayPolicy) (o : GatewayPolicyOperation) (r : CapabilityRecord) : Prop :=
  listed (allowed_dcc_types p) [] (Some (dcc_type r)) /\
  listed (allowed_skill_names p) (allowed_skill_families p) (skill_name r) /\
  listed (allowed_tool_slugs p) (allowed_tool_slug_prefixes p) (Some (slug r)) /\
  (o = OpCall -> read_only p = true -> exists a, annotations r = Some a /\ read_only_hint a = Some true).

Lemma is_nil_spec {A} (l : list A) : is_nil l = true <-> l = [].
Proof. by destruct l. Qed.

Lemma exact_spec l n :
  existsb (fun allowed => eq_ignore_ascii_case allowed n) l = true <->
  exists a, a ∈ l /\ to_ascii_lowercase_str a = to_ascii_lowercase_str n.
Proof.
  rewrite existsb_exists. unfold eq_ignore_ascii_case. setoid_rewrite bool_decide_eq_true. setoid_rewrite list_elem_of_In. done.
Qed.

Lemma family_spec l n :
  existsb (family_matches (to_ascii_lowercase_str n)) l = true <->
  exists f, f ∈ l /\ to_ascii_lowercase_str f `prefix_of` to_ascii_lowercase_str n.
Proof.
  rewrite existsb_exists. unfold family_matches. setoid_rewrite orb_true_iff. setoid_rewrite bool_decide_eq_true.
  setoid_rewrite starts_with_spec. setoid_rewrite list_elem_of_In. split.
  - intros (f & Hf & [Hn|[t Ht]]); exists f; (split; [done|]); [by rewrite Hn|by exists t].
  - intros (f & Hf & [t Ht]). exists f. split; [done|]. right. by exists t.
Qed.

Lemma allows_dcc_spec p d : allows_dcc p d = true <-> listed (allowed_dcc_types p) [] (Some d).
Proof.
  unfold allows_dcc, listed. rewrite orb_true_iff, is_nil_spec, exact_spec. split.
  - intros [H|H]; [by left|]. right. exists d. split; [done|]. by left.
  - intros [[H _]|(n & [= <-] & [H|(f & Hf & _)])]; [by left|by right|]. by apply elem_of_nil in Hf.
Qed.

Lemma lists_spec exact prefixes n :
  (if is_nil exact && is_nil prefixes then true
   else match n with
        | None => false
        | Some n => existsb (fun allowed => eq_ignore_ascii_case allowed n) exact || existsb (family_matches (to_ascii_lowercase_str n)) prefixes
        end) = true <-> listed exact prefixes n.
Proof.
  unfold listed. destruct (is_nil exact && is_nil prefixes) eqn:E.
  - apply andb_true_iff in E as [E1 E2]. apply is_nil_spec in E1, E2. split; [by left|done].
  - assert (Hne : ~ (exact = [] /\ prefixes = [])) by (intros [-> ->]; done). destruct n as [n|].
    + rewrite orb_true_iff, exact_spec, family_spec. split.
      * intros H. right. by exists n.
      * intros [H|(n' & [= <-] & H)]; done.
    + split; [done|]. intros [H|(n' & Hn & _)]; done.
Qed.

Lemma allows_skill_spec p n : allows_skill p n = true <-> listed (allowed_skill_names p) (allowed_skill_families p) n.
Proof. apply lists_spec. Qed.

Lemma allows_tool_slug_spec p t : allows_tool_slug p t = true <-> listed (allowed_tool_slugs p) (allowed_tool_slug_prefixes p) (Some t).
Proof. apply (lists_spec _ _ (Some t)). Qed.

Lemma enforce_admits p o r : enforce_record p o r = Ok tt <-> admits p o r.
Proof.
  unfold enforce_record, admits. rewrite <- allows_dcc_spec, <- allows_skill_spec, <- allows_tool_slug_spec.
  destruct (allows_dcc p _); cbn [negb]; [|split; [done|by intros (H & _)]].
  destruct (allows_skill p _); cbn [negb]; [|split; [done|by intros (_ & H & _)]].
  destruct (allows_tool_slug p _); cbn [negb]; [|split; [done|by intros (_ & _ & H & _)]].
  assert (Hh : (annotations r ≫= read_only_hint) = Some true <-> exists a, annotations r = Some a /\ read_only_hint a = Some true).
  { destruct (annotations r) as [a|]; simpl; split; [eauto|by intros (a' & [= <-] & H)|done|by intros (a' & H & _)]. }
  destruct (bool_decide (o = OpCall)) eqn:Eo; cbn [andb].
  - apply bool_decide_eq_true in Eo. destruct (read_only p); [|split; [done|done]].
    destruct (bool_decide (_ = Some true)) eqn:Er; cbn [negb].
    + apply bool_decide_eq_true in Er. split; [|done]. intros _. split_and!; try done. intros _ _. by apply Hh.
    + apply bool_decide_eq_false in Er. split; [done|]. intros (_ & _ & _ & H). exfalso. apply Er, Hh. by apply H.
  - apply bool_decide_eq_false in Eo. split; [|done]. intros _. by split_and!.
Qed.

(** A record is let through exactly when each list that is not empty names it, and a call
    under a read-only policy exactly when the backend declared the tool read-only; search and
    description do not look at that flag.  A refusal gives the first list that refuses, in
    the order DCC, skill, tool, read-only. *)
Theorem enforce_exact p o r :
  match enforce_record p o r with
  | Ok _ => admits p o r
  | Err d => ~ admits p o r /\ operation d = o /\ denial_tool_slug d = Some (slug r) /\
      match reason d with
      | DccAllowlist => ~ listed (allowed_dcc_types p) [] (Some (dcc_type r))
      | SkillAllowlist => listed (allowed_dcc_types p) [] (Some (dcc_type r)) /\
          ~ listed (allowed_skill_names p) (allowed_skill_families p) (skill_name r)
      | ToolAllowlist => listed (allowed_skill_names p) (allowed_skill_families p) (skill_name r) /\
          ~ listed (allowed_tool_slugs p) (allowed_tool_slug_prefixes p) (Some (slug r))
      | ReadOnly => o = OpCall /\ read_only p = true /\ admits p OpDescribe r
      end
  end.
Proof.
  pose proof (enforce_admits p o r) as Ha. pose proof (enforce_admits p OpDescribe r) as Hdesc.
  destruct (enforce_record p o r) as [[]|d] eqn:E; [by apply Ha|]. split; [intros H; apply Ha in H; discriminate|].
  pose proof (allows_dcc_spec p (dcc_type r)) as Hd. pose proof (allows_skill_spec p (skill_name r)) as Hs.
  pose proof (allows_tool_slug_spec p (slug r)) as Ht. unfold enforce_record in E, Hdesc.
  destruct (allows_dcc p _); cbn [negb] in *; [|injection E as <-; split; [done|]; split; [done|]; cbn; intros H; apply Hd in H; discriminate].
  destruct (allows_skill p _); cbn [negb] in *.
  2: { injection E as <-. split; [done|]. split; [done|]. cbn. split; [by apply Hd|]. intros H; apply Hs in H; discriminate. }
  destruct (allows_tool_slug p _); cbn [negb] in *.
  2: { injection E as <-. split; [done|]. split; [done|]. cbn. split; [by apply Hs|]. intros H; apply Ht in H; discriminate. }
  destruct (bool_decide (o = OpCall)) eqn:Eo; cbn [andb] in E; [|discriminate]. destruct (read_only p) eqn:Er; [|discriminate].
  destruct (negb _); [|discriminate]. injection E as <-. apply bool_decide_eq_true in Eo. cbn [denial operation reason denial_tool_slug].
  split_and!; try done. by apply Hdesc.
Qed.

(** Loading skills: refused by a read-only policy, then by the DCC, then at the first skill
    that is not listed. *)
Theorem enforce_skill_exact p o dcc skills :
  enforce_skill_operation p o dcc skills = Ok tt <->
  (o = OpLoadSkill -> read_only p = false) /\
  (forall d, dcc = Some d -> listed (allowed_dcc_types p) [] (Some d)) /\
  (forall s, s ∈ skills -> listed (allowed_skill_names p) (allowed_skill_families p) (Some s)).
Proof.
  unfold enforce_skill_operation. assert (Hs : enforce_skills p o dcc skills = Ok tt <->
    forall s, s ∈ skills -> listed (allowed_skill_names p) (allowed_skill_families p) (Some s)).
  { induction skills as [|s skills IH]; cbn [enforce_skills]; [split; [by intros _ s ?%elem_of_nil|done]|].
    destruct (allows_skill p (Some s)) eqn:E; cbn [negb].
    - rewrite IH. apply lists_spec in E. split; [intros H s' [->|?]%elem_of_cons; auto|]. intros H s' Hs'. apply H. by right.
    - split; [done|]. intros H. specialize (H s ltac:(left)). apply lists_spec in H. unfold allows_skill in E. congruence. }
  destruct (bool_decide (o = OpLoadSkill)) eqn:Eo.
  - apply bool_decide_eq_true in Eo. destruct (read_only p); cbn [andb].
    + split; [done|]. intros [H _]. by specialize (H Eo).
    + destruct dcc as [d|]; [|rewrite Hs; naive_solver]. pose proof (allows_dcc_spec p d) as Hd. destruct (allows_dcc p d); cbn [negb].
      * rewrite Hs. split; [intros H; split_and!; try done; intros d' [= <-]; by apply Hd|by intros (_ & _ & H)].
      * split; [done|]. intros (_ & H & _). by specialize (proj2 Hd (H d eq_refl)).
  - apply bool_decide_eq_false in Eo. rewrite andb_false_r. destruct dcc as [d|]; [|rewrite Hs; naive_solver].
    pose proof (allows_dcc_spec p d) as Hd. destruct (allows_dcc p d); cbn [negb].
    + rewrite Hs. split; [intros H; split_and!; try done; intros d' [= <-]; by apply Hd|by intros (_ & _ & H)].
    + split; [done|]. intros (_ & H & _). by specialize (proj2 Hd (H d eq_refl)).
Qed.

(** A family admits by prefix: one meant for a package also admits any skill whose name
    merely begins like it. *)
Example family_overreach :
  allows_skill (mkPolicy false [] [] [lit "maya"] [] []) (Some (lit "mayahem")) = true.
Proof. reflexivity. Qed.
