(* ===== verification/CapIndex.v ===== *)
(** The state of the capability index, [dcc-mcp-gateway-core/src/capability/index.rs]: one
    slice of records per live instance, the records of unloaded skills, and a bounded list
    of tombstones.  A [BTreeMap] is a list in key order.  The theorems: it is a map
    from instances to slices whatever the history of calls, its [changed] flags are sound,
    and what a fingerprint distinguishes. *)

From S2P Require Import Prelude Naming GatewayNaming Json Text Capability.

Local Open Scope Z_scope.

(** ** Fingerprints *)

(** What [Hash] feeds to a hasher: strings, discriminants of options, flags, numbers. *)
Inductive fed : Type :=
| FStr (s : str)
| FDiscr (d : Z)
| FBool (b : bool)
| FU32 (z : Z).

#[export] Instance fed_eq_dec : EqDecision fed.
Proof. solve_decision. Defined.

Class Hasher : Type := finish : list fed -> Z.

Definition feed_opt {A} (f : A -> list fed) (o : option A) : list fed :=
  match o with None => [FDiscr 0] | Some a => FDiscr 1 :: f a end.
Definition feed_str (s : str) : list fed := [FStr s].
Definition feed_bool (b : bool) : list fed := [FBool b].
Definition feed_u32 (z : Z) : list fed := [FU32 z].

(** The derived [Hash]. *)
Definition feed_annotations (a : CapabilityAnnotations) : list fed :=
  feed_opt feed_str (title a) ++ feed_opt feed_bool (read_only_hint a) ++ feed_opt feed_bool (destructive_hint a)
  ++ feed_opt feed_bool (idempotent_hint a) ++ feed_opt feed_bool (open_world_hint a).
Definition feed_metadata (m : CapabilityMetadata) : list fed :=
  feed_opt feed_str (affinity m) ++ feed_opt feed_str (execution m) ++ feed_opt feed_u32 (timeout_hint_secs m)
  ++ feed_opt feed_str (job_strategy m) ++ feed_opt feed_bool (enforce_thread_affinity m) ++ feed_opt feed_str (risk m)
  ++ feed_opt feed_str (tool_role m).

Definition feed_group (g : CapabilityGroupInfo) : list fed :=
  feed_str (group_name g) ++ feed_bool (default_active g) ++ feed_opt feed_bool (active g).

Definition feed_record (r : CapabilityRecord) : list fed :=
  feed_str (slug r) ++ feed_opt feed_str (skill_name r) ++ feed_bool (has_schema r) ++ feed_str (summary r)
  ++ feed_bool (loaded r) ++ feed_opt feed_str (tool_group r) ++ feed_opt feed_annotations (annotations r)
  ++ feed_opt feed_metadata (metadata r) ++ flat_map feed_group (available_groups r) ++ flat_map feed_str (tags r)
  ++ flat_map feed_str (search_tokens r) ++ feed_opt feed_str (rank_layer r) ++ feed_opt feed_str (rank_path_source r).

Definition compute_fingerprint {h : Hasher} (records : list CapabilityRecord) : Z := finish (flat_map feed_record records).

(** ** The state *)

Record InstanceSlice : Type := mkSlice { slice_records : list CapabilityRecord; slice_fingerprint : Z }.
Record InstanceTombstone : Type := mkTombstone { tomb_id : Uuid; tomb_dcc_type : str; previous_status : str }.

Record CapabilityIndexState : Type := mkIndex {
  per_instance : list (Uuid * InstanceSlice);
  tombstones : list InstanceTombstone;
  unloaded : list CapabilityRecord;
}.

Definition empty_index : CapabilityIndexState := mkIndex [] [] [].

Record IndexSnapshot : Type := mkSnapshot { snap_records : list CapabilityRecord; snap_fingerprints : gmap Uuid Z }.

Definition MAX_INSTANCE_TOMBSTONES : nat := 256.

(** [BTreeMap]. *)
Fixpoint bt_get {V} (k : Uuid) (m : list (Uuid * V)) : option V :=
  match m with [] => None | (k', v) :: m => if k =? k' then Some v else bt_get k m end.
Fixpoint bt_insert {V} (k : Uuid) (v : V) (m : list (Uuid * V)) : list (Uuid * V) :=
  match m with
  | [] => [(k, v)]
  | (k', v') :: m => if k <? k' then (k, v) :: (k', v') :: m else if k =? k' then (k, v) :: m else (k', v') :: bt_insert k v m
  end.
Definition bt_remove {V} (k : Uuid) (m : list (Uuid * V)) : list (Uuid * V) := base.filter (fun kv => fst kv <> k) m.

Definition without_tombstone (id : Uuid) (t : list InstanceTombstone) : list InstanceTombstone :=
  base.filter (fun row => tomb_id row <> id) t.

Definition upsert_instance (id : Uuid) (records : list CapabilityRecord) (fp : Z) (s : CapabilityIndexState) :
    CapabilityIndexState * (option Z * bool) :=
  match records with
  | [] =>
      let previous := slice_fingerprint <$> bt_get id (per_instance s) in
      (mkIndex (bt_remove id (per_instance s)) (tombstones s) (unloaded s), (previous, bool_decide (is_Some previous)))
  | _ =>
      let s := mkIndex (per_instance s) (without_tombstone id (tombstones s)) (unloaded s) in
      match bt_get id (per_instance s) with
      | Some current =>
          if (slice_fingerprint current =? fp) && bool_decide (slice_records current = records)
          then (s, (Some (slice_fingerprint current), false))
          else (mkIndex (bt_insert id (mkSlice records fp) (per_instance s)) (tombstones s) (unloaded s), (Some (slice_fingerprint current), true))
      | None => (mkIndex (bt_insert id (mkSlice records fp) (per_instance s)) (tombstones s) (unloaded s), (None, true))
      end
  end.

Definition remove_instance (id : Uuid) (s : CapabilityIndexState) : CapabilityIndexState * bool :=
  (mkIndex (bt_remove id (per_instance s)) (tombstones s) (unloaded s), bool_decide (is_Some (bt_get id (per_instance s)))).

Definition push_tombstone (row : InstanceTombstone) (t : list InstanceTombstone) : list InstanceTombstone :=
  let t := without_tombstone (tomb_id row) t in
  (if (length t =? MAX_INSTANCE_TOMBSTONES)%nat then drop 1 t else t) ++ [row].

Definition remove_instance_with_status (id : Uuid) (status : str) (s : CapabilityIndexState) : CapabilityIndexState * (bool * bool) :=
  let removed := bt_get id (per_instance s) in
  let live := mkIndex (bt_remove id (per_instance s)) (tombstones s) (unloaded s) in
  let from_slice := slice ← removed; dcc_type <$> head (slice_records slice) in
  let from_tombstone := tomb_dcc_type <$> head (base.filter (fun row => tomb_id row = id) (tombstones s)) in
  match (match from_slice with Some d => Some d | None => from_tombstone end) with
  | None => (live, (bool_decide (is_Some removed), false))
  | Some dcc =>
      (mkIndex (per_instance live) (push_tombstone (mkTombstone id dcc status) (tombstones s)) (unloaded s),
       (bool_decide (is_Some removed), true))
  end.

Definition instance_tombstone {uu : UuidText} (dcc hint : str) (s : CapabilityIndexState) : option InstanceTombstone :=
  let prefix := to_ascii_lowercase_str hint in
  let matches row :=
    eq_ignore_ascii_case (tomb_dcc_type row) dcc &&
    match parse_uuid hint with
    | None => starts_with prefix (simple (tomb_id row))
    | Some id => tomb_id row =? id
    end in
  match base.filter (fun row => matches row = true) (reverse (tombstones s)) with
  | [row] => Some row
  | _ => None
  end.

Definition instance_ids (s : CapabilityIndexState) : list Uuid := fst <$> per_instance s.

Definition live_records (s : CapabilityIndexState) : list CapabilityRecord :=
  flat_map (fun kv => slice_records (snd kv)) (per_instance s).

Definition snapshot (s : CapabilityIndexState) : IndexSnapshot :=
  mkSnapshot (sort_by_slug (live_records s ++ unloaded s))
    (list_to_map ((fun kv => (fst kv, slice_fingerprint (snd kv))) <$> per_instance s)).

Definition fingerprint_for (id : Uuid) (s : CapabilityIndexState) : option Z := slice_fingerprint <$> bt_get id (per_instance s).
Definition total_records (s : CapabilityIndexState) : nat := length (live_records s).
Definition instance_count (s : CapabilityIndexState) : nat := length (per_instance s).

Definition set_unloaded_records (records : list CapabilityRecord) (s : CapabilityIndexState) : CapabilityIndexState * bool :=
  let records := sort_by_slug records in
  if bool_decide (unloaded s = records) then (s, false) else (mkIndex (per_instance s) (tombstones s) records, true).

Definition find_by_slug (tool_slug : str) (snap : IndexSnapshot) : option CapabilityRecord :=
  head (base.filter (fun r => slug r = tool_slug) (snap_records snap)).

(** ** Calls *)

Inductive index_op : Type :=
| Upsert (id : Uuid) (records : list CapabilityRecord) (fp : Z)
| Remove (id : Uuid)
| RemoveWithStatus (id : Uuid) (status : str)
| SetUnloaded (records : list CapabilityRecord).

(** The state after a call, and the [changed] flag the owner of the state counts. *)
Definition index_step (op : index_op) (s : CapabilityIndexState) : CapabilityIndexState * bool :=
  match op with
  | Upsert id records fp => let '(s, (_, changed)) := upsert_instance id records fp s in (s, changed)
  | Remove id => remove_instance id s
  | RemoveWithStatus id status => let '(s, (_, changed)) := remove_instance_with_status id status s in (s, changed)
  | SetUnloaded records => set_unloaded_records records s
  end.

Definition index_run (ops : list index_op) (s : CapabilityIndexState) : CapabilityIndexState :=
  foldl (fun s op => fst (index_step op s)) s ops.

(** ** Theorems *)

(** ** Ordered maps *)

Abbreviation key_sorted := (fun m => StronglySorted Z.lt (fst <$> m)).

Lemma bt_get_map {V} k (m : list (Uuid * V)) : bt_get k m = (list_to_map m : gmap Uuid V) !! k.
Proof.
  induction m as [|[k' v] m IH]; cbn [bt_get]; [done|]. cbn [list_to_map foldr fst snd].
  destruct (Z.eqb_spec k k') as [->|H]; simpl; [by rewrite lookup_insert_eq|by rewrite lookup_insert_ne].
Qed.

Lemma bt_insert_keys {V} k v (m : list (Uuid * V)) x : x ∈ fst <$> bt_insert k v m <-> x = k \/ x ∈ fst <$> m.
Proof.
  induction m as [|[k' v'] m IH]; simpl; [set_solver|]. destruct (k <? k'); simpl; [set_solver|].
  destruct (Z.eqb_spec k k') as [->|]; simpl; set_solver.
Qed.

Lemma bt_insert_sorted {V} k v (m : list (Uuid * V)) : key_sorted m -> key_sorted (bt_insert k v m).
Proof.
  induction m as [|[k' v'] m IH]; cbn [bt_insert fmap list_fmap fst]; intros H; [repeat constructor|].
  apply StronglySorted_inv in H as [Hm Hk]. destruct (Z.ltb_spec k k').
  - cbn [fmap list_fmap fst]. constructor; [by constructor|]. constructor; [done|]. eapply Forall_impl; [exact Hk|]. simpl. lia.
  - destruct (Z.eqb_spec k k') as [->|]; cbn [fmap list_fmap fst]; constructor; try done; [by apply IH|].
    apply Forall_forall. intros x Hx. apply bt_insert_keys in Hx as [->|Hx]; [lia|]. by apply (proj1 (Forall_forall _ _) Hk).
Qed.

Lemma bt_insert_map {V} k v (m : list (Uuid * V)) :
  key_sorted m -> list_to_map (bt_insert k v m) = <[k := v]> (list_to_map m : gmap Uuid V).
Proof.
  induction m as [|[k' v'] m IH]; cbn [bt_insert]; intros H; [done|]. cbn [fmap list_fmap fst] in H.
  apply StronglySorted_inv in H as [Hm Hk]. destruct (Z.ltb_spec k k'); [done|].
  destruct (Z.eqb_spec k k') as [->|]; cbn [list_to_map foldr fst snd].
  - by rewrite insert_insert_eq.
  - change (foldr _ _ (bt_insert k v m)) with (list_to_map (bt_insert k v m) : gmap Uuid V). rewrite IH by done. by rewrite insert_insert_ne.
Qed.

Lemma bt_remove_map {V} k (m : list (Uuid * V)) : list_to_map (bt_remove k m) = base.delete k (list_to_map m : gmap Uuid V).
Proof.
  unfold bt_remove. induction m as [|[k' v] m IH]; [symmetry; apply delete_empty|]. rewrite filter_cons. cbn [fst].
  destruct (decide (k' <> k)) as [H|H]; cbn [list_to_map foldr fst snd].
  - change (foldr _ _ (base.filter _ m)) with (list_to_map (base.filter (fun kv => kv.1 <> k) m) : gmap Uuid V). rewrite IH. by rewrite delete_insert_ne.
  - assert (k' = k) as -> by (destruct (decide (k' = k)); done). rewrite IH. by rewrite delete_insert_eq.
Qed.

Lemma bt_remove_sorted {V} k (m : list (Uuid * V)) : key_sorted m -> key_sorted (bt_remove k m).
Proof.
  unfold bt_remove. induction m as [|[k' v] m IH]; [done|]. cbn [fmap list_fmap fst]. intros H. apply StronglySorted_inv in H as [Hm Hk].
  rewrite filter_cons. cbn [fst]. destruct (decide _); [|by apply IH]. cbn [fmap list_fmap fst]. constructor; [by apply IH|].
  apply Forall_forall. intros x Hx. apply list_elem_of_fmap in Hx as (kv & -> & Hx). apply list_elem_of_filter in Hx as [_ Hx].
  apply (proj1 (Forall_forall _ _) Hk). by apply list_elem_of_fmap_2.
Qed.

Lemma bt_remove_absent {V} k (m : list (Uuid * V)) : bt_get k m = None -> bt_remove k m = m.
Proof.
  unfold bt_remove. induction m as [|[k' v] m IH]; [done|]. cbn [bt_get]. destruct (Z.eqb_spec k k') as [->|]; [done|].
  intros H. rewrite filter_cons_True by (simpl; congruence). by rewrite IH.
Qed.

Lemma bt_insert_same {V} k v (m : list (Uuid * V)) : key_sorted m -> bt_get k m = Some v -> bt_insert k v m = m.
Proof.
  induction m as [|[k' v'] m IH]; [done|]. cbn [bt_get bt_insert fmap list_fmap fst]. intros H. apply StronglySorted_inv in H as [Hm Hk].
  destruct (Z.eqb_spec k k') as [->|Hne].
  - intros [= ->]. by rewrite Z.ltb_irrefl.
  - intros Hg. destruct (Z.ltb_spec k k'); [|by rewrite IH]. exfalso. rewrite bt_get_map in Hg.
    apply elem_of_list_to_map_2 in Hg. assert (Hin : k ∈ fst <$> m) by (apply list_elem_of_fmap; by exists (k, v)).
    apply (proj1 (Forall_forall _ _) Hk) in Hin. lia.
Qed.

(** ** Invariant *)

Definition live (s : CapabilityIndexState) : gmap Uuid InstanceSlice := list_to_map (per_instance s).

Record index_inv (s : CapabilityIndexState) : Prop := {
  inv_sorted : key_sorted (per_instance s);
  inv_slices : forall id slice, live s !! id = Some slice -> slice_records slice <> [];
  inv_tombs : NoDup (tomb_id <$> tombstones s);
  inv_bound : (length (tombstones s) <= MAX_INSTANCE_TOMBSTONES)%nat;
  inv_gone : forall id, id ∈ tomb_id <$> tombstones s -> live s !! id = None;
  inv_unloaded : sort_by_slug (unloaded s) = unloaded s;
}.

Lemma slug_le_total x y : slug_le x y = true \/ slug_le y x = true.
Proof. unfold slug_le. destruct (total str_le (slug x) (slug y)); [left|right]; by apply bool_decide_eq_true. Qed.

Lemma slug_le_trans x y z : slug_le x y = true -> slug_le y z = true -> slug_le x z = true.
Proof. unfold slug_le. rewrite !bool_decide_eq_true. by transitivity (slug y). Qed.

Lemma sort_by_slug_idem l : sort_by_slug (sort_by_slug l) = sort_by_slug l.
Proof. apply sort_by_id, sort_by_sorted; [apply slug_le_total|apply slug_le_trans]. Qed.

Lemma without_tombstone_NoDup id t : NoDup (tomb_id <$> t) -> NoDup (tomb_id <$> without_tombstone id t).
Proof.
  intros H. eapply sublist_NoDup; [exact H|]. apply fmap_sublist, sublist_filter.
Qed.

Lemma elem_of_without id t x : x ∈ tomb_id <$> without_tombstone id t <-> x ∈ tomb_id <$> t /\ x <> id.
Proof.
  unfold without_tombstone. rewrite !list_elem_of_fmap. setoid_rewrite list_elem_of_filter. naive_solver.
Qed.

Lemma without_length id t : (length (without_tombstone id t) <= length t)%nat.
Proof. apply length_filter. Qed.

Lemma push_tombstone_spec row t :
  NoDup (tomb_id <$> t) -> (length t <= MAX_INSTANCE_TOMBSTONES)%nat ->
  NoDup (tomb_id <$> push_tombstone row t) /\ (length (push_tombstone row t) <= MAX_INSTANCE_TOMBSTONES)%nat /\
  forall x, x ∈ tomb_id <$> push_tombstone row t -> x = tomb_id row \/ x ∈ tomb_id <$> t.
Proof.
  intros Hnd Hlen. unfold push_tombstone. set (u := without_tombstone (tomb_id row) t).
  assert (Hu : NoDup (tomb_id <$> u)) by (by apply without_tombstone_NoDup). pose proof (without_length (tomb_id row) t) as Hul. fold u in Hul.
  set (w := if (length u =? MAX_INSTANCE_TOMBSTONES)%nat then drop 1 u else u).
  assert (Hw : w `sublist_of` u /\ (length w < MAX_INSTANCE_TOMBSTONES)%nat).
  { unfold w. destruct (Nat.eqb_spec (length u) MAX_INSTANCE_TOMBSTONES) as [E|E].
    - split; [apply sublist_drop|]. rewrite length_drop, E. unfold MAX_INSTANCE_TOMBSTONES. lia.
    - split; [done|]. lia. }
  destruct Hw as [Hsub Hwl]. assert (Hin : forall x, x ∈ tomb_id <$> w -> x ∈ tomb_id <$> t /\ x <> tomb_id row).
  { intros x Hx. apply elem_of_without. eapply elem_of_sublist; [exact Hx|]. by apply fmap_sublist. }
  rewrite fmap_app. split; [|split].
  - apply NoDup_app. split; [eapply sublist_NoDup; [exact Hu|by apply fmap_sublist]|]. split; [|by apply NoDup_singleton].
    intros x Hx Hx2. apply Hin in Hx as [_ Hx]. apply list_elem_of_singleton in Hx2. done.
  - rewrite length_app. simpl. lia.
  - intros x [Hx|Hx]%elem_of_app; [right; by apply Hin|left; by apply list_elem_of_singleton in Hx].
Qed.

Lemma bt_remove_None {V} k (m : list (Uuid * V)) : bt_get k m = None -> (list_to_map m : gmap Uuid V) !! k = None.
Proof. by rewrite bt_get_map. Qed.

(** Leaving an instance. *)
Lemma inv_removed id s : index_inv s -> index_inv (mkIndex (bt_remove id (per_instance s)) (tombstones s) (unloaded s)).
Proof.
  intros [H1 H2 H3 H4 H5 H6]. split; unfold live in *; cbn [per_instance tombstones unloaded] in *; [by apply bt_remove_sorted|..|done|done| |done].
  - intros i sl. rewrite bt_remove_map. intros [_ Hs]%lookup_delete_Some. by apply (H2 i).
  - intros i Hi. rewrite bt_remove_map. apply lookup_delete_None. right. by apply H5.
Qed.

(** Joining, or changing, with some record. *)
Lemma inv_joined id recs fp s :
  recs <> [] -> index_inv s ->
  index_inv (mkIndex (bt_insert id (mkSlice recs fp) (per_instance s)) (without_tombstone id (tombstones s)) (unloaded s)).
Proof.
  intros Hne [H1 H2 H3 H4 H5 H6].
  split; unfold live in *; cbn [per_instance tombstones unloaded] in *; [by apply bt_insert_sorted| |by apply without_tombstone_NoDup| | |done].
  - intros i sl. rewrite bt_insert_map by done. intros [[_ <-]|[_ Hs]]%lookup_insert_Some; [done|by apply (H2 i)].
  - pose proof (without_length id (tombstones s)). lia.
  - intros i [Hi Hne']%elem_of_without. rewrite bt_insert_map by done. rewrite lookup_insert_ne by done. by apply H5.
Qed.

(** ** Every call *)

(** What a call does to the map. *)
Definition index_spec (op : index_op) (m : gmap Uuid InstanceSlice) : gmap Uuid InstanceSlice :=
  match op with
  | Upsert id [] _ => base.delete id m
  | Upsert id recs fp => <[id := mkSlice recs fp]> m
  | Remove id | RemoveWithStatus id _ => base.delete id m
  | SetUnloaded _ => m
  end.

Definition unloaded_spec (op : index_op) (l : list CapabilityRecord) : list CapabilityRecord :=
  match op with SetUnloaded recs => sort_by_slug recs | _ => l end.

Lemma slice_eta sl recs fp : slice_fingerprint sl = fp -> slice_records sl = recs -> sl = mkSlice recs fp.
Proof. destruct sl. simpl. by intros -> ->. Qed.

Lemma without_absent id t : id ∉ tomb_id <$> t -> without_tombstone id t = t.
Proof.
  unfold without_tombstone. induction t as [|r t IH]; [done|]. cbn [fmap list_fmap]. rewrite not_elem_of_cons. intros [H1 H2].
  rewrite filter_cons_True by congruence. by rewrite IH.
Qed.

Lemma upsert_same id recs fp s :
  index_inv s -> bt_get id (per_instance s) = Some (mkSlice recs fp) ->
  bt_insert id (mkSlice recs fp) (per_instance s) = per_instance s /\ without_tombstone id (tombstones s) = tombstones s.
Proof.
  intros Hi Hg. split; [apply bt_insert_same; [apply Hi|done]|]. apply without_absent. intros Hin.
  apply (inv_gone _ Hi) in Hin. rewrite bt_get_map in Hg. unfold live in Hin. congruence.
Qed.

(** The state [upsert_instance] leaves, whichever branch it took. *)
Lemma upsert_state id recs fp s :
  index_inv s -> recs <> [] ->
  fst (upsert_instance id recs fp s) =
    mkIndex (bt_insert id (mkSlice recs fp) (per_instance s)) (without_tombstone id (tombstones s)) (unloaded s).
Proof.
  intros Hi Hne. unfold upsert_instance. destruct recs as [|r recs]; [done|]. cbv zeta. cbn [per_instance tombstones unloaded].
  destruct (bt_get id (per_instance s)) as [sl|] eqn:E; [|done].
  destruct (_ && _) eqn:Eb; [|done]. apply andb_true_iff in Eb as [E1 E2]. apply Z.eqb_eq in E1. apply bool_decide_eq_true in E2.
  pose proof (slice_eta _ _ _ E1 E2) as ->. destruct (upsert_same _ _ _ _ Hi E) as [-> Ht]. done.
Qed.

Lemma with_status_state id status s :
  let s' := fst (remove_instance_with_status id status s) in
  per_instance s' = bt_remove id (per_instance s) /\ unloaded s' = unloaded s /\
  (tombstones s' = tombstones s \/ exists dcc, tombstones s' = push_tombstone (mkTombstone id dcc status) (tombstones s)).
Proof.
  cbv zeta. unfold remove_instance_with_status. cbv zeta.
  set (dcc := match (slice ← _; _) with Some d => Some d | None => _ end). destruct dcc as [dcc|]; cbn.
  - split; [done|]. split; [done|]. right. by exists dcc.
  - split; [done|]. split; [done|]. by left.
Qed.

Lemma index_step_inv op s :
  index_inv s ->
  let s' := fst (index_step op s) in
  index_inv s' /\ live s' = index_spec op (live s) /\ unloaded s' = unloaded_spec op (unloaded s).
Proof.
  intros Hi. cbv zeta. destruct op as [id recs fp|id|id status|recs]; cbn [index_step].
  - destruct (upsert_instance id recs fp s) as [s' [pv ch]] eqn:E. cbn [fst]. destruct recs as [|r recs].
    + cbn [upsert_instance] in E. cbv zeta in E. injection E as <- _ _. split; [by apply inv_removed|]. split; [apply bt_remove_map|done].
    + pose proof (upsert_state id (r :: recs) fp s Hi ltac:(done)) as Hs. rewrite E in Hs. cbn [fst] in Hs. subst s'.
      split; [by apply inv_joined|]. split; [|done]. unfold live. cbn [per_instance]. apply bt_insert_map, Hi.
  - split; [by apply inv_removed|]. split; [apply bt_remove_map|done].
  - pose proof (with_status_state id status s) as Hs. destruct (remove_instance_with_status id status s) as [s' [pv ch]]. cbn [fst] in Hs.
    destruct Hs as (Hp & Hu & Ht). cbn [fst]. assert (Hl : live s' = base.delete id (live s)) by (unfold live; rewrite Hp; apply bt_remove_map).
    split; [|split; [done|by rewrite Hu]]. pose proof (inv_removed id s Hi) as [H1 H2 H3 H4 H5 H6]. unfold live in *.
    cbn [per_instance tombstones unloaded] in *. destruct Ht as [Ht|[dcc Ht]].
    + split; unfold live; rewrite ?Hp, ?Ht, ?Hu; done.
    + destruct (push_tombstone_spec (mkTombstone id dcc status) (tombstones s) H3 H4) as (P1 & P2 & P3).
      split; unfold live; rewrite ?Hp, ?Ht, ?Hu; try done. intros i Hin. apply P3 in Hin as [->|Hin]; [|by apply H5].
      cbn [tomb_id]. rewrite bt_remove_map. by rewrite lookup_delete_eq.
  - unfold set_unloaded_records. cbv zeta. destruct (bool_decide _) eqn:E; cbn [fst].
    + apply bool_decide_eq_true in E. split; [done|]. split; [done|]. done.
    + destruct Hi as [H1 H2 H3 H4 H5 H6]. split; [|done]. split; try done. apply sort_by_slug_idem.
Qed.

Lemma empty_inv : index_inv empty_index.
Proof.
  split; unfold live; cbn; [apply SSorted_nil|by intros id sl Hs; rewrite lookup_empty in Hs|apply NoDup_nil_2|lia| |done].
  intros id Hin. by apply not_elem_of_nil in Hin.
Qed.

Lemma index_run_inv ops s :
  index_inv s ->
  index_inv (index_run ops s) /\ live (index_run ops s) = foldl (fun m op => index_spec op m) (live s) ops /\
  unloaded (index_run ops s) = foldl (fun l op => unloaded_spec op l) (unloaded s) ops.
Proof.
  revert s. induction ops as [|op ops IH]; intros s Hi; [done|]. destruct (index_step_inv op s Hi) as (H1 & H2 & H3).
  cbn [foldl index_run]. rewrite <- H2, <- H3. by apply (IH (fst (index_step op s))).
Qed.

Lemma key_sorted_NoDup {V} (m : list (Uuid * V)) : key_sorted m -> NoDup (fst <$> m).
Proof.
  intros H. induction H as [|k l Hl IH Hk]; constructor; [|done]. intros Hin. apply (proj1 (Forall_forall _ _) Hk) in Hin. lia.
Qed.

(** C30: whatever the calls, the index is the map that they describe: a slice per live
    instance, and a snapshot that has exactly the records of the live slices and of the
    unloaded skills, in slug order, with the fingerprint of each slice; the tombstones stay
    within their bound, at most one per instance, none for a live one. *)
Theorem index_refines (ops : list index_op) :
  let s := index_run ops empty_index in
  let m := foldl (fun m op => index_spec op m) ∅ ops in
  (forall id, bt_get id (per_instance s) = m !! id) /\
  snap_fingerprints (snapshot s) = slice_fingerprint <$> m /\
  snap_records (snapshot s) ≡ₚ
    flat_map (fun kv => slice_records (snd kv)) (map_to_list m) ++ foldl (fun l op => unloaded_spec op l) [] ops /\
  StronglySorted (fun x y => slug_le x y = true) (snap_records (snapshot s)) /\
  NoDup (tomb_id <$> tombstones s) /\ (length (tombstones s) <= MAX_INSTANCE_TOMBSTONES)%nat /\
  (forall id, id ∈ tomb_id <$> tombstones s -> m !! id = None).
Proof.
  cbv zeta. destruct (index_run_inv ops empty_index empty_inv) as (Hi & Hl & Hu). set (s := index_run ops empty_index) in *.
  change (live empty_index) with (∅ : gmap Uuid InstanceSlice) in Hl. change (unloaded empty_index) with ([] : list CapabilityRecord) in Hu.
  rewrite <- Hl, <- Hu. split; [intros id; apply bt_get_map|]. split; [|split; [|split]].
  - unfold snapshot. cbn [snap_fingerprints]. unfold live.
    rewrite <- list_to_map_fmap. f_equal.
  - unfold snapshot. cbn [snap_records]. unfold sort_by_slug. rewrite sort_by_perm. apply Permutation_app_tail. unfold live_records.
    apply Permutation_flat_map. unfold live. symmetry. apply map_to_list_to_map. apply key_sorted_NoDup, Hi.
  - apply sort_by_sorted; [apply slug_le_total|apply slug_le_trans].
  - split; [apply Hi|]. split; [apply Hi|]. apply Hi.
Qed.

(** A call that does not report a change has changed nothing, so the version the owner
    counts from these flags moves whenever the state does. *)
Theorem changed_sound (ops : list index_op) (op : index_op)
  (Hsame : snd (index_step op (index_run ops empty_index)) = false) :
  fst (index_step op (index_run ops empty_index)) = index_run ops empty_index.
Proof.
  destruct (index_run_inv ops empty_index empty_inv) as (Hi & _ & _). revert Hi Hsame. generalize (index_run ops empty_index). intros s Hi.
  assert (Heta : forall p, p = per_instance s -> mkIndex p (tombstones s) (unloaded s) = s) by (intros p ->; by destruct s).
  destruct op as [id recs fp|id|id status|recs]; cbn [index_step].
  - unfold upsert_instance. destruct recs as [|r recs]; cbv zeta; cbn [fst snd].
    + intros H%bool_decide_eq_false. apply Heta, bt_remove_absent. destruct (bt_get _ _); [|done]. exfalso. apply H. by eexists.
    + cbn [per_instance tombstones unloaded]. destruct (bt_get id (per_instance s)) as [sl|] eqn:E; [|done].
      destruct (_ && _) eqn:Eb; [|done]. intros _. apply andb_true_iff in Eb as [E1 E2]. apply Z.eqb_eq in E1. apply bool_decide_eq_true in E2.
      pose proof (slice_eta _ _ _ E1 E2) as ->. destruct (upsert_same _ _ _ _ Hi E) as [_ Ht]. cbn [fst]. rewrite Ht. by destruct s.
  - unfold remove_instance. cbn [fst snd]. intros H%bool_decide_eq_false. apply Heta, bt_remove_absent. destruct (bt_get _ _); [|done].
    exfalso. apply H. by eexists.
  - unfold remove_instance_with_status. cbv zeta. destruct (bt_get id (per_instance s)) as [sl|] eqn:E; cbn [mbind option_bind].
    + assert (Hne : slice_records sl <> []) by (apply (inv_slices _ Hi id); unfold live; rewrite <- bt_get_map; exact E).
      destruct (slice_records sl) as [|r l]; [done|]. cbn [head fmap option_fmap option_map]. done.
    + set (dcc := tomb_dcc_type <$> _). destruct dcc as [dcc|]; cbn [fst snd]; [done|]. intros _. apply Heta. by apply bt_remove_absent.
  - unfold set_unloaded_records. cbv zeta. destruct (bool_decide _); cbn [fst snd]; done.
Qed.

(** ** Fingerprints *)

(** A prefix code: what was fed determines the value and where it ends. *)
Definition prefix_code {A B} (f : A -> list fed) (view : A -> B) : Prop :=
  forall a a' x y, f a ++ x = f a' ++ y <-> view a = view a' /\ x = y.

Lemma code_atom {A} (c : A -> fed) : (forall a a', c a = c a' -> a = a') -> prefix_code (fun a => [c a]) id.
Proof.
  intros Hc a a' x y. simpl. split; [|by intros [-> ->]]. intros [= Ha ->]. by rewrite (Hc _ _ Ha).
Qed.

Lemma code_opt {A B} (f : A -> list fed) (view : A -> B) : prefix_code f view -> prefix_code (feed_opt f) (option_map view).
Proof.
  intros Hf [a|] [a'|] x y; simpl; (split; [|intros [E ->]; try done]).
  - intros [= E]. by apply Hf in E as [-> ->].
  - injection E as E. f_equal. by apply Hf.
  - done.
  - done.
  - by intros [= ->].
Qed.

Lemma code_app {A A1 A2} (f1 f2 : A -> list fed) (v1 : A -> A1) (v2 : A -> A2) :
  prefix_code f1 v1 -> prefix_code f2 v2 -> prefix_code (fun a => f1 a ++ f2 a) (fun a => (v1 a, v2 a)).
Proof.
  intros H1 H2 a a' x y. cbn beta. rewrite <- !app_assoc. split.
  - intros E. apply H1 in E as [E1 E]. apply H2 in E as [E2 ->]. by rewrite E1, E2.
  - intros [[= E1 E2] ->]. apply H1. split; [done|]. by apply H2.
Qed.

Lemma code_comp {A A' B} (g : A -> A') (f : A' -> list fed) (view : A' -> B) :
  prefix_code f view -> prefix_code (fun a => f (g a)) (fun a => view (g a)).
Proof. intros H a a' x y. apply H. Qed.

Lemma code_view {A B C} (f : A -> list fed) (v1 : A -> B) (v2 : A -> C) :
  prefix_code f v1 -> (forall a a', v1 a = v1 a' <-> v2 a = v2 a') -> prefix_code f v2.
Proof. intros H Hv a a' x y. rewrite <- Hv. apply H. Qed.

Lemma code_str : prefix_code feed_str id.
Proof. apply (code_atom FStr). by intros ? ? [= ->]. Qed.
Lemma code_bool : prefix_code feed_bool id.
Proof. apply (code_atom FBool). by intros ? ? [= ->]. Qed.
Lemma code_u32 : prefix_code feed_u32 id.
Proof. apply (code_atom FU32). by intros ? ? [= ->]. Qed.

Lemma option_map_id {A} (o : option A) : option_map id o = o.
Proof. by destruct o. Qed.

Lemma code_opt_id {A} (f : A -> list fed) : prefix_code f id -> prefix_code (feed_opt f) id.
Proof. intros H. eapply code_view; [by apply (code_opt f id)|]. intros a a'. by rewrite !option_map_id. Qed.

(** The field [g] of a record, fed by [f]. *)
Lemma code_field {A A'} (g : A -> A') (f : A' -> list fed) : prefix_code f id -> prefix_code (fun a => f (g a)) g.
Proof. intros H. by apply (code_comp g f id). Qed.

Create HintDb codes.
#[local] Hint Resolve code_str code_bool code_u32 code_opt_id : codes.
Ltac fields := repeat (apply code_app; [apply code_field; auto with codes|]); apply code_field; auto with codes.

Lemma code_annotations : prefix_code feed_annotations id.
Proof.
  apply (code_view _ (fun a => (title a, (read_only_hint a, (destructive_hint a, (idempotent_hint a, open_world_hint a)))))).
  - unfold feed_annotations. fields.
  - intros [] []. simpl. split; [by intros [= -> -> -> -> ->]|by intros [= -> -> -> -> ->]].
Qed.

Lemma code_metadata : prefix_code feed_metadata id.
Proof.
  apply (code_view _ (fun m => (affinity m, (execution m, (timeout_hint_secs m, (job_strategy m, (enforce_thread_affinity m,
    (risk m, tool_role m)))))))).
  - unfold feed_metadata. fields.
  - intros [] []. simpl. split; [by intros [= -> -> -> -> -> -> ->]|by intros [= -> -> -> -> -> -> ->]].
Qed.
#[local] Hint Resolve code_annotations code_metadata : codes.

(** What a group, and a record, contribute. *)
Definition group_view (g : CapabilityGroupInfo) : str * bool * option bool := (group_name g, default_active g, active g).

Record hashed_view : Type := mkView {
  hv_slug : str; hv_skill : option str; hv_schema : bool; hv_summary : str; hv_loaded : bool; hv_group : option str;
  hv_annotations : option CapabilityAnnotations; hv_metadata : option CapabilityMetadata;
  hv_groups : list (str * bool * option bool);
  hv_words : list str;
  hv_layer : option str; hv_path : option str;
}.

Definition record_view (r : CapabilityRecord) : hashed_view :=
  mkView (slug r) (skill_name r) (has_schema r) (summary r) (loaded r) (tool_group r) (annotations r) (metadata r)
    (group_view <$> available_groups r) (tags r ++ search_tokens r) (rank_layer r) (rank_path_source r).

Lemma words_code t t' d d' x x' :
  flat_map feed_str t ++ FDiscr d :: x = flat_map feed_str t' ++ FDiscr d' :: x' <-> t = t' /\ d = d' /\ x = x'.
Proof.
  revert t'. induction t as [|a t IH]; intros [|a' t']; simpl.
  - split; [by intros [= -> ->]|by intros (_ & -> & ->)].
  - split; [done|by intros (? & _)].
  - split; [done|by intros (? & _)].
  - split.
    + intros [= -> E]. apply IH in E as (-> & -> & ->). done.
    + intros ([= -> ->] & -> & ->). done.
Qed.

Lemma words_no_group t d x s b y : flat_map feed_str t ++ FDiscr d :: x <> FStr s :: FBool b :: y.
Proof. destruct t as [|a [|a' t]]; done. Qed.

Lemma groups_code g g' t t' d d' x x' :
  flat_map feed_group g ++ flat_map feed_str t ++ FDiscr d :: x = flat_map feed_group g' ++ flat_map feed_str t' ++ FDiscr d' :: x' <->
  group_view <$> g = group_view <$> g' /\ t = t' /\ d = d' /\ x = x'.
Proof.
  revert g'. induction g as [|a g IH]; intros [|a' g'].
  - cbn [flat_map app fmap list_fmap]. rewrite words_code. naive_solver.
  - cbn [flat_map app fmap list_fmap]. split; [|by intros (? & _)]. intros E. exfalso. revert E. apply words_no_group.
  - cbn [flat_map app fmap list_fmap]. split; [|by intros (? & _)]. intros E. symmetry in E. exfalso. revert E. apply words_no_group.
  - cbn [flat_map fmap list_fmap]. rewrite <- !app_assoc. unfold feed_group at 1 3. cbn [feed_str feed_bool app]. split.
    + intros [= E1 E2 E]. apply (code_opt_id feed_bool code_bool) in E as [E3 E]. apply IH in E as (Eg & -> & -> & ->).
      rewrite Eg. unfold group_view. simpl in E3. by rewrite E1, E2, E3.
    + intros ([= E1 E2 E3 Eg] & Ht & Hd & Hx). rewrite E1, E2, E3. do 3 f_equal. by apply IH.
Qed.

Lemma record_front_code :
  prefix_code (fun r => feed_str (slug r) ++ feed_opt feed_str (skill_name r) ++ feed_bool (has_schema r) ++ feed_str (summary r)
    ++ feed_bool (loaded r) ++ feed_opt feed_str (tool_group r) ++ feed_opt feed_annotations (annotations r) ++ feed_opt feed_metadata (metadata r))
    (fun r => (slug r, (skill_name r, (has_schema r, (summary r, (loaded r, (tool_group r, (annotations r, metadata r)))))))).
Proof. fields. Qed.

Lemma feed_opt_head {A} (f : A -> list fed) (o : option A) :
  exists d x, feed_opt f o = FDiscr d :: x.
Proof. destruct o; simpl; by eexists _, _. Qed.

Lemma record_code : prefix_code feed_record record_view.
Proof.
  intros r r' x y. pose proof (record_front_code r r') as Hf. cbn beta in Hf.
  assert (Hsplit : forall r x, feed_record r ++ x =
    (feed_str (slug r) ++ feed_opt feed_str (skill_name r) ++ feed_bool (has_schema r) ++ feed_str (summary r)
      ++ feed_bool (loaded r) ++ feed_opt feed_str (tool_group r) ++ feed_opt feed_annotations (annotations r) ++ feed_opt feed_metadata (metadata r))
    ++ flat_map feed_group (available_groups r) ++ flat_map feed_str (tags r ++ search_tokens r)
    ++ (feed_opt feed_str (rank_layer r) ++ feed_opt feed_str (rank_path_source r) ++ x)).
  { clear. intros r x. unfold feed_record. rewrite flat_map_app, <- !app_assoc. done. }
  rewrite !Hsplit. rewrite Hf.
  pose proof (code_opt_id feed_str code_str (rank_layer r) (rank_layer r')) as Hl.
  pose proof (code_opt_id feed_str code_str (rank_path_source r) (rank_path_source r') x y) as Hp.
  set (u := feed_opt feed_str (rank_path_source r) ++ x) in *. set (v := feed_opt feed_str (rank_path_source r') ++ y) in *.
  specialize (Hl u v). destruct (feed_opt_head feed_str (rank_layer r)) as (d & z & Ed).
  destruct (feed_opt_head feed_str (rank_layer r')) as (d' & z' & Ed'). rewrite Ed, Ed' in Hl |- *. cbn [app] in Hl |- *. rewrite groups_code.
  assert (Hc : d = d' /\ z ++ u = z' ++ v <-> FDiscr d :: z ++ u = FDiscr d' :: z' ++ v) by (split; [by intros [-> ->]|by intros [= -> ->]]).
  rewrite Hc, Hl, Hp. unfold record_view, id. split.
  - intros ([= E1 E2 E3 E4 E5 E6 E7 E8] & Eg & Ew & El & Ep & ->). split; [|done]. by rewrite E1, E2, E3, E4, E5, E6, E7, E8, Eg, Ew, El, Ep.
  - intros ([= E1 E2 E3 E4 E5 E6 E7 E8 Eg Ew El Ep] & ->). by rewrite E1, E2, E3, E4, E5, E6, E7, E8.
Qed.

Lemma feed_record_head r : exists s t, feed_record r = FStr s :: t.
Proof. unfold feed_record. simpl. by eexists _, _. Qed.

Lemma fingerprint_exact_aux l l' : flat_map feed_record l = flat_map feed_record l' <-> record_view <$> l = record_view <$> l'.
Proof.
  revert l'. induction l as [|r l IH]; intros [|r' l'].
  - done.
  - cbn [flat_map fmap list_fmap]. destruct (feed_record_head r') as (s & t & ->). done.
  - cbn [flat_map fmap list_fmap]. destruct (feed_record_head r) as (s & t & ->). done.
  - cbn [flat_map fmap list_fmap]. rewrite (record_code r r'), IH. split; [by intros [-> ->]|intros E; by apply (inj2 (::)) in E].
Qed.

(** Two slices feed the hasher the same data exactly when they agree, record by record, on
    the hashed fields.  The tags and the search tokens are hashed one after the other, so a
    word that moves from one list to the other changes nothing, and neither do the
    description and the tools of a group, the backend tool, the callable identifier, the
    type, the instance and the discovery flag, except through the slug. *)
Theorem fingerprint_exact (l l' : list CapabilityRecord) :
  flat_map feed_record l = flat_map feed_record l' <-> record_view <$> l = record_view <$> l'.
Proof. apply fingerprint_exact_aux. Qed.

(** ** Examples *)

Definition sample_record (tags tokens : list str) : CapabilityRecord :=
  mkCapability (tool_slug (lit "maya") maya_id (lit "render")) (lit "render") (lit "render") None (lit "Render") tags tokens None None
    (lit "maya") maya_id true true None None [] None false.

(** An alias that becomes a tag is served to nobody until something else changes. *)
Example same_feed : flat_map feed_record [sample_record [] [lit "export"]] = flat_map feed_record [sample_record [lit "export"] []].
Proof. reflexivity. Qed.

Lemma changed_sound_witness :
  let ops := [Upsert maya_id [sample_record [] []] 7; SetUnloaded []] in
  fst (index_step (Upsert maya_id [sample_record [] []] 7) (index_run ops empty_index)) = index_run ops empty_index.
Proof. cbv zeta. apply (changed_sound [Upsert maya_id [sample_record [] []] 7; SetUnloaded []]). vm_compute. reflexivity. Defined.
