(* ===== verification/CapBuilder.v ===== *)
(** From a backend's tool list to the records of its instance,
    [dcc-mcp-gateway-core/src/capability/builder.rs] and [refresh.rs].  Then its theorems. *)

From S2P Require Import Prelude Naming GatewayNaming Json Text Capability CapIndex.

Local Open Scope Z_scope.

(** ** Input *)

Record McpToolAnnotations : Type := mkToolAnnotations { hints : CapabilityAnnotations; deferred_hint : option bool }.

Record McpTool : Type := mkTool {
  name : str;
  description : str;
  input_schema : Value;
  tool_annotations : option McpToolAnnotations;
  meta : option JsonMap;
}.

(** [from_value::<Vec<CapabilityGroupInfo>>], and Unicode's table of letters and digits. *)
Class BuilderEnv : Type := {
  groups_from_value : Value -> option (list CapabilityGroupInfo);
  is_alphanumeric : Z -> bool;
}.

Record BuildOutcome : Type := mkOutcome { records : list CapabilityRecord; fingerprint : Z; skipped : nat }.

Definition as_array (v : Value) : option (list Value) := match v with Array l => Some l | _ => None end.
Definition as_object (v : Value) : option JsonMap := match v with Object m => Some m | _ => None end.

(** [Option::and_then], to the left. *)
#[local] Notation "o |> f" := (@mbind option _ _ _ f o) (at level 50, left associativity).

(** [Option::or_else]. *)
Definition or_else {A} (a b : option A) : option A := match a with Some _ => a | None => b end.

Section Builder.
Context {uu : UuidText} {h : Hasher} {env : BuilderEnv}.

(** ** Names *)

Definition BACKEND_JOB_STATUS_TOOL : str := lit "jobs_get_status".
Definition is_backend_job_tool (name : str) : bool := bool_decide (name = BACKEND_JOB_STATUS_TOOL).

Definition backend_job_status_tool : McpTool :=
  let typed t rest := Object ((lit "type", Str (lit t)) :: rest) in
  mkTool BACKEND_JOB_STATUS_TOOL (lit "Poll an async job owned by this DCC instance.")
    (typed "object"%string
      [(lit "properties", Object
         [(lit "job_id", typed "string"%string [(lit "description", Str (lit "Job UUID returned by an async call"))]);
          (lit "include_logs", typed "boolean"%string [(lit "default", Bool false)]);
          (lit "include_result", typed "boolean"%string [(lit "default", Bool true)])]);
       (lit "required", Array [Str (lit "job_id")]);
       (lit "additionalProperties", Bool false)])
    None None.

Definition should_skip (name : str) : bool :=
  if bool_decide (name = []) then true
  else if (match validate_tool_name name with Ok _ => false | Err _ => true end) then true
  else if starts_with (lit "__skill__") name || contains (lit "__skill__") name then true
  else is_local_tool name || (is_core_tool name && negb (is_backend_job_tool name)).

Definition is_discovery_only_tool (backend_tool : str) : bool :=
  bool_decide (to_ascii_lowercase_str backend_tool = lit "dcc_capability_manifest").

Definition extract_skill_and_bare (name : str) : option str * str :=
  match decode_skill_tool_name name with
  | Some (skill, action) => (Some skill, action)
  | None =>
      match split_once (lit "__") name with
      | Some (skill, action) =>
          if non_empty skill && non_empty action then (Some skill, action) else (None, extract_bare_tool_name [] name)
      | None => (None, extract_bare_tool_name [] name)
      end
  end.

(** ** Tags *)

(** [str::split] on a predicate. *)
Fixpoint split_where (p : Z -> bool) (s cur : str) : list str :=
  match s with
  | [] => [cur]
  | c :: s => if p c then cur :: split_where p s [] else split_where p s (cur ++ [c])
  end.

Definition tokenise (text : str) : list str :=
  map to_ascii_lowercase_str
    (base.filter (fun s => (non_empty s && (2 <? str_len s)%nat) = true) (split_where (fun c => negb (is_alphanumeric c)) text [])).

(** [retain(|t| seen.insert(t.clone()))]. *)
Fixpoint retain_first (seen : gset str) (l : list str) : list str :=
  match l with
  | [] => []
  | t :: l => if decide (t ∈ seen) then retain_first seen l else t :: retain_first ({[t]} ∪ seen) l
  end.

Definition hint_tags (a : CapabilityAnnotations) : list str :=
  match title a with Some t => tokenise t | None => [] end
  ++ (if bool_decide (read_only_hint a = Some true) then [lit "read-only"] else [])
  ++ (if bool_decide (idempotent_hint a = Some true) then [lit "idempotent"] else [])
  ++ (if bool_decide (destructive_hint a = Some true) then [lit "destructive"] else []).

Definition extract_tags (annotations : option McpToolAnnotations) (meta : option JsonMap) : list str :=
  retain_first ∅
    (match annotations with Some ann => hint_tags (hints ann) | None => [] end
     ++ match meta |> json_get (lit "dcc.tags") |> as_array with Some t => omap as_str t | None => [] end).

(** ** Schemas *)

Definition has_meaningful_schema (schema : Value) : bool :=
  match as_object schema with
  | None => false
  | Some obj =>
      match json_get (lit "properties") obj |> as_object with Some (_ :: _) => true | _ => false end
      || match json_get (lit "required") obj |> as_array with Some (_ :: _) => true | _ => false end
  end.

Definition dcc_meta (meta : option JsonMap) : option JsonMap := meta |> json_get (lit "dcc") |> as_object.

Definition meta_declares_schema (meta : option JsonMap) : bool :=
  default false (dcc_meta meta |> json_get (lit "has_schema") |> as_bool).

(** ** Search tokens *)

Definition prefixed (prefix value : str) : str :=
  if bool_decide (prefix = []) || starts_with (lit "alias:") value || starts_with (lit "schema:") value || starts_with (lit "required:") value
  then value else prefix ++ value.

Definition append_search_values (value : Value) (prefix : str) (out : list str) : list str :=
  match value with
  | Str s => out ++ map (prefixed prefix) (base.filter (fun s => s <> []) (map trim (split_char 44 s)))
  | Array items => out ++ map (prefixed prefix) (base.filter (fun s => s <> []) (map trim (omap as_str items)))
  | _ => out
  end.

Definition meta_search_values (meta : JsonMap) (keys : list str) (nested_prefix : str) : list str :=
  match json_get (lit "dcc") meta |> as_object with
  | None => []
  | Some dcc =>
      foldl (fun out key => match json_get key dcc with Some value => append_search_values value nested_prefix out | None => out end) [] keys
  end.

Definition push_schema_token (out : list str) (prefix value : str) : list str :=
  let value := trim value in
  if bool_decide (value = []) then out else out ++ [prefixed prefix value].

Definition short_description (description : str) : str := join_str [32] (take 8 (split_whitespace description)).

Definition str_leb (a b : str) : bool := bool_decide (str_le a b).

(** The loop over the sorted property names; [rec] is the call one level deeper. *)
Fixpoint collect_names (rec : Value -> list str -> list str) (props : JsonMap) (names : list str) (out : list str) : list str :=
  match names with
  | [] => out
  | name :: names =>
      let out := push_schema_token out (lit "schema:") name in
      match json_get name props with
      | None => collect_names rec props names out
      | Some prop =>
          let out :=
            match as_object prop |> json_get (lit "description") |> as_str with
            | Some d => push_schema_token out (lit "schema:") (short_description d)
            | None => out
            end in
          let out := rec prop out in
          if (48 <=? length out)%nat then out else collect_names rec props names out
      end
  end.

(** [levels] is [3 - depth]: the guard [depth > 2] is [levels = 0]. *)
Fixpoint collect_schema_search_tokens (levels : nat) (schema : Value) (out : list str) : list str :=
  match levels with
  | O => out
  | S levels =>
      if (48 <=? length out)%nat then out
      else match as_object schema with
      | None => out
      | Some obj =>
          let out :=
            match json_get (lit "required") obj |> as_array with
            | Some req => foldl (fun out field => push_schema_token out (lit "required:") field) out (omap as_str req)
            | None => out
            end in
          match json_get (lit "properties") obj |> as_object with
          | None => out
          | Some props => collect_names (collect_schema_search_tokens levels) props (sort_by str_leb (map fst props)) out
          end
      end
  end.

Definition schema_search_tokens (schema : Value) : list str := collect_schema_search_tokens 3 schema [].

Definition extract_search_tokens (tool : McpTool) : list str :=
  match meta tool with
  | Some meta =>
      meta_search_values meta [lit "searchAliases"; lit "search_aliases"; lit "aliases"] (lit "alias:")
      ++ meta_search_values meta [lit "searchTokens"; lit "search_tokens"] []
  | None => []
  end ++ schema_search_tokens (input_schema tool).

(** ** Metadata *)

Definition extract_rank_policy (meta : option JsonMap) : option str * option str :=
  match dcc_meta meta with
  | None => (None, None)
  | Some dcc =>
      let value camel snake := filter_opt non_empty (or_else (json_get camel dcc) (json_get snake dcc) |> as_str) in
      (value (lit "rankLayer") (lit "rank_layer"), value (lit "rankPathSource") (lit "rank_path_source"))
  end.

Definition extract_annotations (annotations : option McpToolAnnotations) : option CapabilityAnnotations := hints <$> annotations.

Definition extract_metadata (meta : option JsonMap) : option CapabilityMetadata :=
  dcc ← dcc_meta meta;
  let get2 a b := or_else (json_get a dcc) (json_get b dcc) in
  Some (mkMetadata
    (json_get (lit "affinity") dcc |> as_str)
    (json_get (lit "execution") dcc |> as_str)
    (filter_opt (fun v => v <? 2 ^ 32) (get2 (lit "timeoutHintSecs") (lit "timeout_hint_secs") |> as_u64))
    (get2 (lit "jobStrategy") (lit "job_strategy") |> as_str)
    (get2 (lit "enforceThreadAffinity") (lit "enforce_thread_affinity") |> as_bool)
    (json_get (lit "risk") dcc |> as_str)
    (get2 (lit "toolRole") (lit "tool_role") |> as_str)).

Definition skill_name_from_meta (meta : option JsonMap) : option str :=
  filter_opt non_empty
    (dcc ← dcc_meta meta;
     or_else (json_get (lit "skill") dcc) (or_else (json_get (lit "skillName") dcc) (json_get (lit "skill_name") dcc)) |> as_str).

Definition extract_tool_group_from_meta (meta : option JsonMap) : option str :=
  filter_opt non_empty
    (dcc ← dcc_meta meta;
     or_else (json_get (lit "group") dcc) (or_else (json_get (lit "tool_group") dcc) (json_get (lit "toolGroup") dcc)) |> as_str).

Definition extract_available_groups_from_meta (meta : option JsonMap) : list CapabilityGroupInfo :=
  match dcc ← dcc_meta meta; or_else (json_get (lit "available_groups") dcc) (json_get (lit "groups") dcc) with
  | None => []
  | Some v => default [] (groups_from_value v)
  end.

(** ** Records *)

(** The body of the loop for a tool that is kept. *)
Definition build_record (instance_id : Uuid) (dcc_type : str) (tool : McpTool) : CapabilityRecord :=
  let name_skill := fst (extract_skill_and_bare (name tool)) in
  let skill_name := or_else (skill_name_from_meta (meta tool)) name_skill in
  let has_schema := has_meaningful_schema (input_schema tool) || meta_declares_schema (meta tool) in
  let summary :=
    if bool_decide (description tool = []) && has_schema then name tool ++ lit " (" ++ SCHEMA_AVAILABLE ++ lit ")" else description tool in
  let '(layer, path) := extract_rank_policy (meta tool) in
  with_discovery_only
    (with_rank_policy
       (with_search_tokens
          (with_available_groups
             (with_surface_metadata
                (record_new (tool_slug dcc_type instance_id (name tool)) (name tool) (name tool) skill_name summary
                   (extract_tags (tool_annotations tool) (meta tool)) dcc_type instance_id has_schema true
                   (extract_tool_group_from_meta (meta tool)))
                (extract_annotations (tool_annotations tool)) (extract_metadata (meta tool)))
             (extract_available_groups_from_meta (meta tool)))
          (extract_search_tokens tool))
       layer path)
    (is_discovery_only_tool (name tool)).

Definition build_records_from_backend (instance_id : Uuid) (dcc_type : str) (backend_tools : list McpTool) : BuildOutcome :=
  if negb (is_valid_dcc_bucket dcc_type) then mkOutcome [] 0 0
  else
    let '(recs, skipped) :=
      foldl (fun '(recs, skipped) tool =>
        if should_skip (name tool) then (recs, S skipped) else (recs ++ [build_record instance_id dcc_type tool], skipped))
        ([], 0%nat) backend_tools in
    let recs := sort_by_slug recs in
    mkOutcome recs (compute_fingerprint recs) skipped.

(** ** Refresh *)

Record UnloadedCapabilityHint : Type := mkHint {
  hint_skill : str;
  hint_tool : str;
  hint_summary : str;
  hint_tokens : list str;
  hint_layer : option str;
  hint_path : option str;
  hint_groups : list CapabilityGroupInfo;
  hint_group : option str;
}.

Record RefreshBuildOutcome : Type := mkRefresh {
  all_records : list CapabilityRecord;
  all_fingerprint : Z;
  loaded_count : nat;
  unloaded_count : nat;
  skipped_count : nat;
}.

Definition is_unchanged (r : RefreshBuildOutcome) (previous : option Z) : bool :=
  negb (bool_decide (all_records r = [])) && bool_decide (previous = Some (all_fingerprint r)).

Definition build_unloaded_record (instance_id : Uuid) (dcc_type : str) (hint : UnloadedCapabilityHint) : option CapabilityRecord :=
  if bool_decide (hint_tool hint = []) then None
  else Some (at_instance
    (with_rank_policy
       (with_search_tokens
          (with_available_groups
             (from_skill_tool (hint_skill hint) (hint_tool hint) (hint_summary hint) dcc_type (hint_group hint))
             (hint_groups hint))
          (hint_tokens hint))
       (hint_layer hint) (hint_path hint))
    instance_id).

Definition build_unloaded_records (hints : list UnloadedCapabilityHint) (instance_id : Uuid) (dcc_type : str) : list CapabilityRecord :=
  omap (build_unloaded_record instance_id dcc_type) hints.

Definition build_refresh_records (loaded : BuildOutcome) (hints : list UnloadedCapabilityHint) (instance_id : Uuid) (dcc_type : str)
    : RefreshBuildOutcome :=
  let recs := records loaded ++ build_unloaded_records hints instance_id dcc_type in
  let recs := sort_by_slug recs in
  mkRefresh recs (compute_fingerprint recs) (length (records loaded)) (length recs - length (records loaded)) (skipped loaded).

(** [refresh_instance] of [dcc-mcp-gateway/src/gateway/capability/refresh.rs], given what the
    backend answered ([None] when it could not be reached); no other task writes between
    the fingerprint that is read and the upsert, under the instance's refresh gate. *)
Definition refresh_instance (id : Uuid) (dcc_type : str) (fetched : option (list McpTool * list UnloadedCapabilityHint))
    (s : CapabilityIndexState) : CapabilityIndexState * bool :=
  match fetched with
  | None => (s, false)
  | Some (tools, hints) =>
      let tools := if negb (existsb (fun t => is_backend_job_tool (name t)) tools) then tools ++ [backend_job_status_tool] else tools in
      let refresh := build_refresh_records (build_records_from_backend id dcc_type tools) hints id dcc_type in
      if is_unchanged refresh (fingerprint_for id s) then (s, false)
      else (fst (upsert_instance id (all_records refresh) (all_fingerprint refresh) s), true)
  end.

End Builder.

(** ** Theorems *)

(** ** Search tokens *)

Abbreviation token_key := to_ascii_lowercase_str.
Definition token_of (raw : str) : str := trim (join_str [32] (split_whitespace raw)).
Definition token_fits (t : str) : Prop := (2 <= str_len t <= 64)%nat.

Lemma tokens_loop_spec tokens seen out :
  (forall k, k ∈ seen <-> k ∈ token_key <$> out) -> NoDup (token_key <$> out) -> Forall token_fits out -> (length out < 64)%nat ->
  let res := tokens_loop tokens seen out in
  NoDup (token_key <$> res) /\ Forall token_fits res /\ (length res <= 64)%nat /\ out `prefix_of` res /\
  ((length res < 64)%nat -> forall raw, raw ∈ tokens -> token_fits (token_of raw) -> token_key (token_of raw) ∈ token_key <$> res) /\
  (forall t, t ∈ res -> t ∈ out \/ exists raw, raw ∈ tokens /\ t = token_of raw).
Proof.
  revert seen out. induction tokens as [|raw tokens IH]; intros seen out Hseen Hnd Hfit Hlen; cbn [tokens_loop].
  - split; [done|]. split; [done|]. split; [lia|]. split; [done|]. split; [by intros _ r Hr%elem_of_nil|]. intros t Ht. by left.
  - fold (token_of raw). destruct ((str_len (token_of raw) <? 2)%nat || (64 <? str_len (token_of raw))%nat) eqn:Esize.
    + destruct (IH seen out Hseen Hnd Hfit Hlen) as (H1 & H2 & H3 & H4 & H5 & H6). split; [done|]. split; [done|]. split; [done|].
      split; [done|]. split.
      * intros Hl r [->|Hr]%elem_of_cons Hf; [|by apply H5]. unfold token_fits in Hf. apply orb_true_iff in Esize as [E|E]; apply Nat.ltb_lt in E; lia.
      * intros t [Ht|(r & Hr & ->)]%H6; [by left|]. right. exists r. split; [by apply elem_of_cons; right|done].
    + assert (Hraw : token_fits (token_of raw)).
      { unfold token_fits. apply orb_false_iff in Esize as [E1 E2]. apply Nat.ltb_ge in E1, E2. lia. }
      cbv zeta. set (key := token_key (token_of raw)). set (out' := if decide (key ∈ seen) then out else out ++ [token_of raw]).
      assert (Hout : NoDup (token_key <$> out') /\ Forall token_fits out' /\ (length out' <= 64)%nat /\ out `prefix_of` out' /\
        (forall k, k ∈ ({[key]} ∪ seen : gset str) <-> k ∈ token_key <$> out') /\ (forall t, t ∈ out' -> t ∈ out \/ t = token_of raw)).
      { unfold out'. destruct (decide (key ∈ seen)) as [Hin|Hin].
        - split; [done|]. split; [done|]. split; [lia|]. split; [done|]. split; [|by intros t; left].
          intros k. rewrite <- Hseen. set_solver.
        - split; [|split; [|split; [|split; [|split]]]].
          + rewrite fmap_app. apply NoDup_app. split; [done|]. split; [|by apply NoDup_singleton].
            intros k Hk Hk2%list_elem_of_singleton. subst k. by apply Hin, Hseen.
          + apply Forall_app. split; [done|]. by apply Forall_singleton.
          + rewrite length_app. simpl. lia.
          + by exists [token_of raw].
          + intros k. rewrite fmap_app, elem_of_union, elem_of_singleton, elem_of_app, Hseen. simpl. rewrite list_elem_of_singleton.
            unfold key. tauto.
          + intros t [Ht|Ht%list_elem_of_singleton]%elem_of_app; [by left|by right]. }
      clearbody out'. destruct Hout as (O1 & O2 & O3 & O4 & O5 & O6). destruct (64 <=? length out')%nat eqn:El.
      * apply Nat.leb_le in El. split; [done|]. split; [done|]. split; [done|]. split; [done|]. split; [lia|].
        intros t [Ht| ->]%O6; [by left|]. right. exists raw. split; [by apply elem_of_cons; left|done].
      * apply Nat.leb_gt in El. destruct (IH ({[key]} ∪ seen) out' O5 O1 O2 El) as (H1 & H2 & H3 & H4 & H5 & H6).
        split; [done|]. split; [done|]. split; [done|]. split; [by etransitivity|]. split.
        -- intros Hl r [->|Hr]%elem_of_cons Hf; [|by apply H5]. destruct H4 as [t ->]. rewrite fmap_app. apply elem_of_app. left.
           apply O5. set_solver.
        -- intros t [[Ht| ->]%O6|(r & Hr & ->)]%H6; [by left| |].
           ++ right. exists raw. split; [by apply elem_of_cons; left|done].
           ++ right. exists r. split; [by apply elem_of_cons; right|done].
Qed.

(** The search tokens of a record: at most 64, of two to 64 bytes each, no two equal up to
    case, each with its blanks collapsed; and, unless the limit was reached, every token of
    such a size is among them. *)
Theorem search_tokens_exact (tokens : list str) :
  let res := normalise_search_tokens tokens in
  NoDup (token_key <$> res) /\ Forall token_fits res /\ (length res <= 64)%nat /\
  ((length res < 64)%nat -> forall raw, raw ∈ tokens -> token_fits (token_of raw) -> token_key (token_of raw) ∈ token_key <$> res) /\
  (forall t, t ∈ res -> exists raw, raw ∈ tokens /\ t = token_of raw).
Proof.
  destruct (tokens_loop_spec tokens ∅ []) as (H1 & H2 & H3 & _ & H5 & H6); [intros k; set_solver|constructor|constructor|simpl; lia|].
  cbv zeta. unfold normalise_search_tokens. split; [done|]. split; [done|]. split; [done|]. split; [done|].
  intros t [Ht%elem_of_nil|Ht]%H6; done.
Qed.

Section Builder_lemmas.
Context {uu : UuidText} {h : Hasher} {env : BuilderEnv}.

(** ** Tags *)

Lemma retain_first_spec seen l :
  NoDup (retain_first seen l) /\ forall t, t ∈ retain_first seen l <-> t ∈ l /\ t ∉ seen.
Proof.
  revert seen. induction l as [|x l IH]; intros seen; cbn [retain_first]; [split; [constructor|set_solver]|].
  destruct (decide (x ∈ seen)) as [Hx|Hx].
  - destruct (IH seen) as [H1 H2]. split; [done|]. intros t. rewrite H2. set_solver.
  - destruct (IH ({[x]} ∪ seen)) as [H1 H2]. split.
    + constructor; [|done]. rewrite H2. set_solver.
    + intros t. rewrite elem_of_cons, H2. destruct (decide (t = x)) as [->|]; set_solver.
Qed.

(** ** The records of a tool list *)

Abbreviation kept := (base.filter (fun t => should_skip (name t) = false)).

Lemma build_loop id dcc tools recs n :
  foldl (fun '(recs, skipped) tool =>
    if should_skip (name tool) then (recs, S skipped) else (recs ++ [build_record id dcc tool], skipped)) (recs, n) tools =
  (recs ++ map (build_record id dcc) (kept tools), (n + (length tools - length (kept tools)))%nat).
Proof.
  revert recs n. induction tools as [|t tools IH]; intros recs n; cbn [foldl]; [by rewrite app_nil_r, Nat.add_0_r|].
  pose proof (length_filter (fun t => should_skip (name t) = false) tools) as Hl.
  destruct (should_skip (name t)) eqn:E.
  - rewrite IH, filter_cons_False by congruence. f_equal. simpl. lia.
  - rewrite IH, filter_cons_True by done. rewrite <- app_assoc. f_equal.
Qed.

Lemma build_record_slug id dcc t :
  let r := build_record id dcc t in
  slug r = tool_slug dcc id (name t) /\ backend_tool r = name t /\ callable_id r = name t /\ loaded r = true /\ instance_id r = id /\
  Capability.dcc_type r = dcc.
Proof. unfold build_record. destruct (extract_rank_policy (meta t)) as [layer path]. done. Qed.

Lemma should_skip_name nm : should_skip nm = false -> nm <> [] /\ validate_tool_name nm = Ok tt.
Proof.
  unfold should_skip. rewrite bool_decide_decide. destruct (decide (nm = [])); [done|].
  destruct (validate_tool_name nm) as [[]|]; [done|done].
Qed.

Lemma build_records_valid id dcc tools :
  is_valid_dcc_bucket dcc = true ->
  build_records_from_backend id dcc tools =
    mkOutcome (sort_by_slug (map (build_record id dcc) (kept tools)))
      (compute_fingerprint (sort_by_slug (map (build_record id dcc) (kept tools)))) (length tools - length (kept tools)).
Proof. intros Hd. unfold build_records_from_backend. rewrite Hd. cbn [negb]. rewrite build_loop. done. Qed.

(** The slice built for a cursor-safe type has one record per tool that is not skipped, in
    slug order, and every tool is either there or counted as skipped; each record is loaded,
    has a name that [tools/list] allows, and its slug reads back as the type, the instance
    and that name. *)
Theorem build_slice_exact (id : Uuid) (dcc : str) (tools : list McpTool) (Hd : is_valid_dcc_bucket dcc = true) :
  let out := build_records_from_backend id dcc tools in
  records out ≡ₚ map (build_record id dcc) (kept tools) /\
  StronglySorted (fun x y => slug_le x y = true) (records out) /\
  (length (records out) + skipped out = length tools)%nat /\
  Forall (fun r => loaded r = true /\ validate_tool_name (backend_tool r) = Ok tt /\
    parse_slug (slug r) = Some (dcc, instance_short simple id, backend_tool r)) (records out).
Proof.
  cbv zeta. rewrite (build_records_valid id dcc tools Hd). cbn [records skipped].
  assert (Hperm : sort_by_slug (map (build_record id dcc) (kept tools)) ≡ₚ map (build_record id dcc) (kept tools)) by apply sort_by_perm.
  split; [done|]. split; [apply sort_by_sorted; [apply slug_le_total|apply slug_le_trans]|]. split.
  - rewrite (Permutation_length Hperm), length_map. pose proof (length_filter (fun t => should_skip (name t) = false) tools). lia.
  - rewrite Hperm. apply Forall_forall. intros r Hr. apply list_elem_of_In, in_map_iff in Hr as (t & <- & Ht).
    apply list_elem_of_In, list_elem_of_filter in Ht as [Hs _]. apply should_skip_name in Hs as [Hne Hv].
    destruct (build_record_slug id dcc t) as (-> & -> & _ & -> & _). split; [done|]. split; [done|]. by apply slug_parts.
Qed.

(** ** Refresh *)

Lemma unloaded_slug id dcc hint r :
  build_unloaded_record id dcc hint = Some r -> slug r = tool_slug dcc id (hint_tool hint) /\ loaded r = false /\ hint_tool hint <> [].
Proof. unfold build_unloaded_record. rewrite bool_decide_decide. destruct (decide _); [done|]. intros [= <-]. done. Qed.

Lemma refresh_counts loaded hints id dcc :
  let r := build_refresh_records loaded hints id dcc in
  all_records r ≡ₚ records loaded ++ build_unloaded_records hints id dcc /\
  unloaded_count r = length (build_unloaded_records hints id dcc) /\ all_fingerprint r = compute_fingerprint (all_records r).
Proof.
  cbv zeta. unfold build_refresh_records. cbn. split; [apply sort_by_perm|]. split; [|done].
  unfold sort_by_slug. rewrite sort_by_length, length_app. lia.
Qed.

Lemma filter_slug_sorted s (l : list CapabilityRecord) :
  base.filter (fun r => slug r = s) (sort_by_slug l) = base.filter (fun r => slug r = s) l.
Proof.
  assert (Heq : forall l : list CapabilityRecord, base.filter (fun r => slug r = s) l = base.filter (fun r => bool_decide (slug r = s) = true) l).
  { intros l'. apply list_filter_iff. intros r. by rewrite bool_decide_eq_true. }
  rewrite !Heq. apply sort_by_stable. intros x y. rewrite !bool_decide_eq_true. unfold slug_le. intros -> ->.
  apply bool_decide_eq_true. reflexivity.
Qed.

(** A skill that is not loaded may announce a tool that a loaded one already serves, under
    the same slug; looking the slug up in the slice then finds the loaded record, and an
    unloaded one only when no tool that is kept has that slug. *)
Theorem loaded_wins (id : Uuid) (dcc : str) (tools : list McpTool) (hints : list UnloadedCapabilityHint) (s : str)
  (Hd : is_valid_dcc_bucket dcc = true) :
  let out := build_refresh_records (build_records_from_backend id dcc tools) hints id dcc in
  match find_by_slug s (mkSnapshot (all_records out) ∅) with
  | Some r =>
      slug r = s /\
      loaded r = bool_decide (s ∈ (fun t => tool_slug dcc id (name t)) <$> kept tools)
  | None =>
      ~ (s ∈ ((fun t => tool_slug dcc id (name t)) <$> kept tools)) /\
      Forall (fun hint => hint_tool hint <> [] -> tool_slug dcc id (hint_tool hint) <> s) hints
  end.
Proof.
  cbv zeta. unfold find_by_slug. cbn [snap_records]. unfold build_refresh_records. cbn [all_records].
  rewrite filter_slug_sorted, filter_app. rewrite (build_records_valid id dcc tools Hd). cbn [records]. rewrite filter_slug_sorted.
  set (l1 := base.filter _ (map _ _)). set (l2 := base.filter _ (build_unloaded_records _ _ _)).
  assert (H1 : Forall (fun r => slug r = s /\ loaded r = true) l1).
  { apply Forall_forall. intros r [Hs Hr]%list_elem_of_filter. split; [done|]. apply list_elem_of_In, in_map_iff in Hr as (t & <- & _).
    by destruct (build_record_slug id dcc t) as (_ & _ & _ & -> & _). }
  assert (H2 : Forall (fun r => slug r = s /\ loaded r = false) l2).
  { apply Forall_forall. intros r [Hs Hr]%list_elem_of_filter. split; [done|]. apply list_elem_of_omap in Hr as (hint & _ & Hr).
    by apply unloaded_slug in Hr as (_ & -> & _). }
  assert (E1 : (s ∈ ((fun t => tool_slug dcc id (name t)) <$> kept tools)) <-> l1 <> []).
  { split.
    - intros (t & Hs & Ht)%list_elem_of_fmap E. apply (elem_of_nil (build_record id dcc t)). rewrite <- E. apply list_elem_of_filter.
      split; [by destruct (build_record_slug id dcc t) as (-> & _)|]. apply list_elem_of_In, in_map, list_elem_of_In. done.
    - destruct l1 as [|r l1'] eqn:E; [done|]. intros _. assert (Hr : r ∈ l1) by (rewrite E; by left). unfold l1 in Hr.
      apply list_elem_of_filter in Hr as [Hs Hr]. apply list_elem_of_In, in_map_iff in Hr as (t & <- & Ht).
      apply list_elem_of_fmap. exists t. split; [|by apply list_elem_of_In]. rewrite <- Hs. by destruct (build_record_slug id dcc t) as (-> & _). }
  destruct l1 as [|r l1'] eqn:El1.
  - cbn [app]. destruct l2 as [|r l2'] eqn:El2; cbn [head].
    + split; [intros Hin; by apply E1 in Hin|]. apply Forall_forall. intros hint Hh Hne Hs. apply (elem_of_nil (at_instance
        (with_rank_policy (with_search_tokens (with_available_groups
          (from_skill_tool (hint_skill hint) (hint_tool hint) (hint_summary hint) dcc (hint_group hint)) (hint_groups hint)) (hint_tokens hint))
          (hint_layer hint) (hint_path hint)) id)).
      rewrite <- El2. apply list_elem_of_filter. split; [done|]. apply list_elem_of_omap. exists hint. split; [done|].
      unfold build_unloaded_record. by rewrite bool_decide_false.
    + apply Forall_cons in H2 as [[H2 H2'] _]. split; [done|]. rewrite bool_decide_false; [done|]. intros Hin. by apply E1 in Hin.
  - cbn [app head]. apply Forall_cons in H1 as [[H1 H1'] _]. split; [done|]. rewrite bool_decide_true; [done|]. by apply E1.
Qed.

(** ** A whole refresh *)

(** The fingerprint of every slice is that of its records. *)
Definition honest (s : CapabilityIndexState) : Prop :=
  forall id sl, live s !! id = Some sl -> slice_fingerprint sl = compute_fingerprint (slice_records sl).

(** Two slices that differ in what is hashed, and still have one fingerprint. *)
Definition collision (l l' : list CapabilityRecord) : Prop :=
  record_view <$> l <> record_view <$> l' /\ compute_fingerprint l = compute_fingerprint l'.

Definition with_job_tool (tools : list McpTool) : list McpTool :=
  if negb (existsb (fun t => is_backend_job_tool (name t)) tools) then tools ++ [backend_job_status_tool] else tools.

Lemma job_tool_kept tools : exists t, t ∈ kept (with_job_tool tools) /\ name t = BACKEND_JOB_STATUS_TOOL.
Proof.
  unfold with_job_tool. destruct (existsb _ tools) eqn:E; cbn [negb].
  - apply existsb_exists in E as (t & Ht & Hn). unfold is_backend_job_tool in Hn. apply bool_decide_eq_true in Hn. exists t.
    split; [|done]. apply list_elem_of_filter. rewrite Hn. split; [vm_compute; reflexivity|by apply list_elem_of_In].
  - exists backend_job_status_tool. split; [|done]. apply list_elem_of_filter. split; [vm_compute; reflexivity|]. set_solver.
Qed.

Lemma collision_or_view l l' : compute_fingerprint l = compute_fingerprint l' -> record_view <$> l = record_view <$> l' \/ collision l l'.
Proof. intros H. destruct (decide (flat_map feed_record l = flat_map feed_record l')) as [E|E].
  - left. by apply fingerprint_exact_aux.
  - right. split; [|done]. by rewrite <- fingerprint_exact_aux.
Qed.

(** A refresh of a backend that answers leaves the slice of its instance with records that
    agree with the fresh ones on every hashed field, unless the hash collides, and with the
    job status tool among them; it touches no other instance, and reports a change exactly
    when it stored the fresh slice.  A backend that does not answer changes nothing. *)
Theorem refresh_exact (id : Uuid) (dcc : str) (fetched : option (list McpTool * list UnloadedCapabilityHint)) (s : CapabilityIndexState)
  (Hi : index_inv s) (Hh : honest s) (Hd : is_valid_dcc_bucket dcc = true) :
  let '(s', changed) := refresh_instance id dcc fetched s in
  index_inv s' /\ honest s' /\ (forall other, other <> id -> live s' !! other = live s !! other) /\
  match fetched with
  | None => s' = s /\ changed = false
  | Some (tools, hints) =>
      let fresh := all_records (build_refresh_records (build_records_from_backend id dcc (with_job_tool tools)) hints id dcc) in
      exists sl, live s' !! id = Some sl /\
        tool_slug dcc id BACKEND_JOB_STATUS_TOOL ∈ slug <$> fresh /\
        (record_view <$> slice_records sl = record_view <$> fresh \/ collision (slice_records sl) fresh) /\
        (if changed then slice_records sl = fresh else s' = s)
  end.
Proof.
  unfold refresh_instance. destruct fetched as [[tools hints]|]; [|split; [done|]; split; [done|]; split; [done|]; by split].
  fold (with_job_tool tools). cbv zeta. set (out := build_refresh_records _ hints id dcc).
  assert (Hjob : tool_slug dcc id BACKEND_JOB_STATUS_TOOL ∈ slug <$> all_records out).
  { destruct (job_tool_kept tools) as (t & Ht & Hn). destruct (refresh_counts (build_records_from_backend id dcc (with_job_tool tools)) hints id dcc) as (Hp & _).
    fold out in Hp. rewrite Hp, (build_records_valid id dcc _ Hd). cbn [records]. unfold sort_by_slug. rewrite sort_by_perm.
    rewrite fmap_app. apply elem_of_app. left. apply list_elem_of_fmap. exists (build_record id dcc t). split.
    - destruct (build_record_slug id dcc t) as (-> & _). by rewrite Hn.
    - apply list_elem_of_In, in_map. by apply list_elem_of_In. }
  assert (Hne : all_records out <> []) by (intros E; rewrite E in Hjob; by apply elem_of_nil in Hjob).
  assert (Hfp : all_fingerprint out = compute_fingerprint (all_records out)) by (unfold out; apply refresh_counts).
  unfold is_unchanged. rewrite bool_decide_false by done. cbn [negb andb]. destruct (bool_decide _) eqn:E.
  - apply bool_decide_eq_true in E. unfold fingerprint_for in E. rewrite bt_get_map in E. fold (live s) in E.
    destruct (live s !! id) as [sl|] eqn:Es; [|done]. cbn [fmap option_fmap option_map] in E. injection E as E.
    split; [done|]. split; [done|]. split; [done|]. exists sl. split; [done|]. split; [done|]. split; [|done].
    apply collision_or_view. rewrite <- (Hh id sl Es), E. done.
  - rewrite upsert_state by done. destruct (inv_joined id (all_records out) (all_fingerprint out) s Hne Hi) as [].
    split; [by apply inv_joined|]. assert (Hl : live (mkIndex (bt_insert id (mkSlice (all_records out) (all_fingerprint out)) (per_instance s))
      (without_tombstone id (tombstones s)) (unloaded s)) = <[id := mkSlice (all_records out) (all_fingerprint out)]> (live s)).
    { unfold live. cbn [per_instance]. apply bt_insert_map, Hi. }
    unfold honest. rewrite Hl. split; [|split].
    + intros i sl [[_ <-]|[_ Hs]]%lookup_insert_Some; [done|]. by apply (Hh i).
    + intros other Ho. by rewrite lookup_insert_ne by done.
    + exists (mkSlice (all_records out) (all_fingerprint out)). rewrite lookup_insert_eq. split; [done|]. split; [done|]. split; [by left|done].
Qed.

End Builder_lemmas.

(** ** Examples *)

#[export] Instance sample_env : BuilderEnv := {| groups_from_value _ := None; is_alphanumeric c := is_ascii_alphanumeric c |}.
#[export] Instance sample_hasher : Hasher := fun l => Z.of_nat (length l).

Definition sphere_tool (m : JsonMap) : McpTool :=
  mkTool (lit "create_sphere") (lit "Create a sphere") (Object [(lit "required", Array [Str (lit "radius")])]) None (Some m).
Definition stub_tool : McpTool := mkTool (lit "__skill__rig") [] Null None None.
Definition sphere_hint : UnloadedCapabilityHint := mkHint (lit "modeling") (lit "create_sphere") (lit "later") [] None None [] None.

Lemma build_slice_exact_witness :
  (fun r => (slug r, search_tokens r)) <$> records (build_records_from_backend maya_id (lit "maya") [sphere_tool []; stub_tool]) =
    [(lit "maya.ab54a97f.create_sphere", [lit "required:radius"])] /\
  (length (records (build_records_from_backend maya_id (lit "maya") [sphere_tool []; stub_tool])) +
   skipped (build_records_from_backend maya_id (lit "maya") [sphere_tool []; stub_tool]) = 2)%nat.
Proof.
  split; [vm_compute; reflexivity|].
  apply (build_slice_exact maya_id (lit "maya") [sphere_tool []; stub_tool]). reflexivity.
Defined.

Lemma loaded_wins_witness :
  (loaded <$> find_by_slug (lit "maya.ab54a97f.create_sphere") (mkSnapshot (all_records
    (build_refresh_records (build_records_from_backend maya_id (lit "maya") [sphere_tool []]) [sphere_hint] maya_id (lit "maya"))) ∅)) = Some true.
Proof.
  pose proof (loaded_wins maya_id (lit "maya") [sphere_tool []] [sphere_hint] (lit "maya.ab54a97f.create_sphere") eq_refl) as H.
  vm_compute in H |- *. reflexivity.
Defined.

(** The same word, once as a tag and once as an alias. *)
Definition as_tag : JsonMap := [(lit "dcc.tags", Array [Str (lit "export")])].
Definition as_token : JsonMap := [(lit "dcc", Object [(lit "searchTokens", Str (lit "export"))])].

Example moved_word_unseen :
  let plain m := mkTool (lit "create_sphere") [] Null None (Some m) in
  let s := fst (refresh_instance maya_id (lit "maya") (Some ([plain as_tag], [])) empty_index) in
  refresh_instance maya_id (lit "maya") (Some ([plain as_token], [])) s = (s, false).
Proof. vm_compute. reflexivity. Qed.

Lemma refresh_exact_witness :
  live (fst (refresh_instance maya_id (lit "maya") None empty_index)) = ∅ /\
  exists sl, live (fst (refresh_instance maya_id (lit "maya") (Some ([sphere_tool []], [])) empty_index)) !! maya_id = Some sl.
Proof.
  split; [reflexivity|].
  pose proof (refresh_exact maya_id (lit "maya") (Some ([sphere_tool []], [])) empty_index empty_inv
    ltac:(intros id sl Hs; unfold live in Hs; cbn in Hs; by rewrite lookup_empty in Hs) eq_refl) as H.
  destruct (refresh_instance _ _ _ _) as [s' ch]. destruct H as (_ & _ & _ & sl & Hsl & _). exists sl. exact Hsl.
Defined.
