(* ===== verification/SearchPolicy.v ===== *)
(** The ranking policy and the fallback route of the gateway's search,
    [dcc-mcp-gateway-search/src/policy.rs] and [fallback.rs]. *)

From Stdlib Require Import SpecFloat.
From S2P Require Import Prelude Text Json.

Local Open Scope Z_scope.

(** ** Layers and sources *)

Definition LAYER_DOMAIN : str := lit "domain".
Definition LAYER_THIN_HARNESS : str := lit "thin-harness".
Definition LAYER_INFRASTRUCTURE : str := lit "infrastructure".
Definition LAYER_EXAMPLE : str := lit "example".
Definition PATH_SOURCE_BUNDLED : str := lit "bundled".
Definition PATH_SOURCE_PLATFORM : str := lit "platform".

(** A decimal literal: the double nearest to [m / d]. *)
Definition dec (m d : Z) : spec_float := SFdiv 53 1024 (f64 m 0) (f64 d 0).

Definition LAYER_MULT_INFRASTRUCTURE : spec_float := dec 35 100.
Definition LAYER_MULT_THIN_HARNESS : spec_float := dec 20 100.
Definition PATH_SOURCE_MULT_BUNDLED : spec_float := dec 70 100.
Definition PATH_SOURCE_MULT_PLATFORM : spec_float := dec 85 100.

(** [x.round() as u32]: halves away from zero, the conversion saturating. *)
Definition round_as_u32 (x : spec_float) : Z :=
  match x with
  | S754_finite s m e =>
      let v := if 0 <=? e then Z.pos m * 2 ^ e else (2 * Z.pos m + 2 ^ (- e)) / (2 * 2 ^ (- e)) in
      if s then 0 else Z.min (2 ^ 32 - 1) v
  | S754_infinity false => 2 ^ 32 - 1
  | _ => 0
  end.

Record RankPolicy : Type := mkRankPolicy { exact_name : bool; explicit_layer : bool }.

(** [label.map(str::trim).filter(|v| !v.is_empty())]. *)
Definition trimmed (o : option str) : option str :=
  match o with Some v => let v := trim v in if bool_decide (v = []) then None else Some v | None => None end.

Definition layer_multiplier (layer : option str) (explicit : bool) : option spec_float :=
  if explicit then Some (f64 1 0)
  else match trimmed layer with
  | Some value =>
      if eq_ignore_ascii_case value LAYER_EXAMPLE then None
      else if eq_ignore_ascii_case value LAYER_INFRASTRUCTURE then Some LAYER_MULT_INFRASTRUCTURE
      else if eq_ignore_ascii_case value LAYER_THIN_HARNESS then Some LAYER_MULT_THIN_HARNESS
      else Some (f64 1 0)
  | None => Some (f64 1 0)
  end.

Definition path_source_multiplier (source : option str) : spec_float :=
  match trimmed source with
  | Some value =>
      if eq_ignore_ascii_case value PATH_SOURCE_BUNDLED then PATH_SOURCE_MULT_BUNDLED
      else if eq_ignore_ascii_case value PATH_SOURCE_PLATFORM then PATH_SOURCE_MULT_PLATFORM
      else f64 1 0
  | None => f64 1 0
  end.

Definition apply_rank_policy (raw_score : Z) (layer path_source : option str) (policy : RankPolicy) : option Z :=
  if exact_name policy then Some raw_score
  else
    layer ← layer_multiplier layer (explicit_layer policy);
    let multiplier := f64_mul layer (path_source_multiplier path_source) in
    let adjusted := round_as_u32 (f64_mul (f64 raw_score 0) multiplier) in
    Some (if 0 <? raw_score then Z.max adjusted 1 else 0).

(** ** The fallback *)

Definition FALLBACK_SKILL : str := lit "dcc-cua".
Definition FALLBACK_MIN_CONFIDENT_SCORE : Z := 16.
Definition FALLBACK_MIN_QUERY_LEN : nat := 3.

Inductive FallbackTrigger : Type := NoCandidate | LowConfidence | NoExecutableInterface.

Definition reason_code (t : FallbackTrigger) : str :=
  match t with
  | NoCandidate => lit "no_candidate"
  | LowConfidence => lit "low_confidence"
  | NoExecutableInterface => lit "no_executable_interface"
  end.

Record FallbackPolicy : Type := mkFallbackPolicy { min_confident_score : Z; min_query_len : nat; fallback_enabled : bool }.
Definition default_policy : FallbackPolicy := mkFallbackPolicy FALLBACK_MIN_CONFIDENT_SCORE FALLBACK_MIN_QUERY_LEN true.

Definition is_fallback_target (candidate : option str) : bool :=
  match candidate with Some value => eq_ignore_ascii_case (trim value) FALLBACK_SKILL | None => false end.

Definition evaluate_fallback (query_len : nat) (top_score : option Z) (top_has_interface : bool) (policy : FallbackPolicy) : option FallbackTrigger :=
  if negb (fallback_enabled policy) || (query_len <? min_query_len policy)%nat then None
  else match top_score with
  | None => Some NoCandidate
  | Some score =>
      if score <? min_confident_score policy then Some LowConfidence
      else if negb top_has_interface then Some NoExecutableInterface else None
  end.

Inductive CuaRuntimeState : Type := Ready | NotResponding | Unverified | Missing | Incompatible | Unknown.

Definition is_usable (s : CuaRuntimeState) : bool := match s with Ready => true | _ => false end.
Definition is_actionable (s : CuaRuntimeState) : bool := match s with Ready | Unverified => true | _ => false end.

Definition blocker (s : CuaRuntimeState) : str :=
  match s with
  | Ready => lit "dcc-cua is ready"
  | Unverified => lit "dcc-cua is present but liveness was not checked; run `dcc-mcp-cli components status dcc-cua` and `dcc-cua ping` before use"
  | NotResponding => lit "dcc-cua is installed but not responding; run `dcc-mcp-cli components ensure dcc-cua --yes` when repair is authorized"
  | Missing => lit "dcc-cua is not installed; install it with `dcc-mcp-cli components ensure dcc-cua --yes` when authorized"
  | Incompatible => lit "the installed dcc-cua is incompatible with this target; reinstall it from the official manifest"
  | Unknown => lit "the dcc-cua runtime could not be probed; run `dcc-mcp-cli components status dcc-cua` to inspect it"
  end.

Definition preflight_commands : list str :=
  [lit "dcc-mcp-cli components status dcc-cua"; lit "dcc-mcp-cli components ensure dcc-cua --yes"; lit "dcc-cua manifest"; lit "dcc-cua ping"].

Record SearchFallback : Type := mkFallback {
  fallback_skill : str;
  reason : str;
  runtime : CuaRuntimeState;
  blocked : bool;
  blocked_reason : option str;
  message : str;
  preflight : list str;
}.

Definition trigger_text (t : FallbackTrigger) : str :=
  match t with
  | NoCandidate => lit "nothing in the catalog matched this request, so there is no scriptable interface to call"
  | LowConfidence => lit "the closest matches are lexical near-misses rather than a real interface for this request"
  | NoExecutableInterface => lit "the closest match is documentation-only and declares no callable tool"
  end.

Definition em_dash : str := [8212].

Definition build_fallback (trigger : FallbackTrigger) (runtime : CuaRuntimeState) : SearchFallback :=
  let why := trigger_text trigger in
  let '(blocked, blocked_reason, message) :=
    if is_actionable runtime then
      let tail :=
        if is_usable runtime then []
        else lit " Run the official preflight before use " ++ em_dash ++ [32] ++ blocker runtime ++ lit "." in
      (false, None, why ++ lit "; route the task to `" ++ FALLBACK_SKILL ++ lit "` (project-owned UI control)." ++ tail)
    else
      (true, Some (lit "cua_runtime_unavailable"),
       why ++ lit "; the only permitted route is `" ++ FALLBACK_SKILL ++ lit "`, which is currently unusable " ++ em_dash ++ [32]
       ++ blocker runtime ++ lit ". Do not substitute another provider; repair the route or report the blocker.") in
  mkFallback FALLBACK_SKILL (reason_code trigger) runtime blocked blocked_reason message preflight_commands.

Definition FORBIDDEN_SUBSTITUTES : list str :=
  [lit "codex-computer-use"; lit "openai-computer-use"; lit "computer-use"; lit "@oai/sky"; lit "browser-plugin"].

(** Whatever the reason and the state of the runtime, the advice names the project's own
    route and no other provider, says why it was needed, and is blocked, with its reason,
    exactly when the runtime is neither ready nor merely unverified. *)
Theorem fallback_contract (trigger : FallbackTrigger) (state : CuaRuntimeState) :
  let f := build_fallback trigger state in
  fallback_skill f = FALLBACK_SKILL /\ contains FALLBACK_SKILL (message f) = true /\
  (forall s, s ∈ FORBIDDEN_SUBSTITUTES -> contains s (message f) = false /\ Forall (fun c => contains s c = false) (preflight f)) /\
  reason f = reason_code trigger /\ runtime f = state /\ blocked f = negb (is_actionable state) /\
  bool_decide (is_Some (blocked_reason f)) = blocked f /\ (is_usable state = true -> contains (blocker Unverified) (message f) = false).
Proof.
  assert (H : forallb (fun s => negb (contains s (message (build_fallback trigger state))) && forallb (fun c => negb (contains s c)) preflight_commands)
    FORBIDDEN_SUBSTITUTES = true) by (destruct trigger, state; vm_compute; reflexivity).
  cbv zeta. split; [by destruct trigger, state|]. split; [by destruct trigger, state; vm_compute|]. split.
  { intros s Hs. rewrite forallb_forall in H. specialize (H s ltac:(by apply list_elem_of_In)). apply andb_true_iff in H as [H1 H2].
    split; [by apply negb_true_iff|]. replace (preflight (build_fallback trigger state)) with preflight_commands by (by destruct trigger, state).
    apply Forall_forall. intros c Hc. rewrite forallb_forall in H2. apply negb_true_iff, H2. by apply list_elem_of_In. }
  by destruct trigger, state; vm_compute.
Qed.

(** ** Multipliers in hundredths *)

(** The decimal the two coefficients stand for, over ten thousand. *)
Definition layer_hundredths (layer : option str) (explicit : bool) : option Z :=
  if explicit then Some 100
  else match trimmed layer with
  | Some v =>
      if eq_ignore_ascii_case v LAYER_EXAMPLE then None
      else if eq_ignore_ascii_case v LAYER_INFRASTRUCTURE then Some 35
      else if eq_ignore_ascii_case v LAYER_THIN_HARNESS then Some 20 else Some 100
  | None => Some 100
  end.
Definition source_hundredths (source : option str) : Z :=
  match trimmed source with
  | Some v => if eq_ignore_ascii_case v PATH_SOURCE_BUNDLED then 70 else if eq_ignore_ascii_case v PATH_SOURCE_PLATFORM then 85 else 100
  | None => 100
  end.

Definition nearest_check (m : spec_float) (hl hs n : Z) : bool :=
  let r := round_as_u32 (f64_mul (f64 n 0) m) in
  (2 * Z.abs (10000 * r - n * (hl * hs)) <=? 10000) && (r <=? n) && (0 <=? r).

(** Holds on the next [n] integers from [z]. *)
Fixpoint check_from (p : Z -> bool) (n : nat) (z : Z) : bool :=
  match n with O => true | S n => p z && check_from p n (z + 1) end.

Lemma check_from_spec p n z : check_from p n z = true -> forall i, z <= i < z + Z.of_nat n -> p i = true.
Proof.
  revert z. induction n as [|n IH]; cbn [check_from]; intros z H i Hi; [lia|]. apply andb_true_iff in H as [H1 H2].
  destruct (decide (i = z)) as [->|]; [done|]. apply (IH (z + 1)); [done|lia].
Qed.

Lemma nearest_all l s hl hs n :
  check_from (nearest_check (f64_mul l s) hl hs) 2048 0 = true -> 0 <= n < 2048 ->
  let r := round_as_u32 (f64_mul (f64 n 0) (f64_mul l s)) in 2 * Z.abs (10000 * r - n * (hl * hs)) <= 10000 /\ 0 <= r <= n.
Proof.
  intros H Hn. apply (check_from_spec _ _ _) with (i := n) in H; [|lia]. unfold nearest_check in H.
  cbv zeta in *. lia.
Qed.

Lemma layer_known layer explicit :
  match layer_multiplier layer explicit, layer_hundredths layer explicit with
  | Some l, Some hl =>
      (l, hl) = (f64 1 0, 100) \/ (l, hl) = (LAYER_MULT_INFRASTRUCTURE, 35) \/ (l, hl) = (LAYER_MULT_THIN_HARNESS, 20)
  | None, None => True
  | _, _ => False
  end.
Proof.
  unfold layer_multiplier, layer_hundredths. destruct explicit; [by left|]. destruct (trimmed layer) as [v|]; [|by left].
  destruct (eq_ignore_ascii_case v LAYER_EXAMPLE); [done|]. destruct (eq_ignore_ascii_case v LAYER_INFRASTRUCTURE); [by right; left|].
  destruct (eq_ignore_ascii_case v LAYER_THIN_HARNESS); [by right; right|by left].
Qed.

Lemma source_known source :
  let p := (path_source_multiplier source, source_hundredths source) in
  p = (f64 1 0, 100) \/ p = (PATH_SOURCE_MULT_BUNDLED, 70) \/ p = (PATH_SOURCE_MULT_PLATFORM, 85).
Proof.
  cbv zeta. unfold path_source_multiplier, source_hundredths. destruct (trimmed source) as [v|]; [|by left].
  destruct (eq_ignore_ascii_case v PATH_SOURCE_BUNDLED); [by right; left|].
  destruct (eq_ignore_ascii_case v PATH_SOURCE_PLATFORM); [by right; right|by left].
Qed.

(** A score below 2048 is multiplied by the decimal product of the two coefficients and
    rounded to a nearest integer, never below one for a match: the doubles decide only
    which way an exact half goes.  The result never exceeds the raw score, an exact name
    keeps it, and an example is hidden unless named or asked for. *)
Theorem rank_policy_exact (raw : Z) (layer source : option str) (policy : RankPolicy) (Hraw : 0 <= raw < 2048) :
  match apply_rank_policy raw layer source policy with
  | Some score =>
      if exact_name policy then score = raw
      else exists hl r, layer_hundredths layer (explicit_layer policy) = Some hl /\
        2 * Z.abs (10000 * r - raw * (hl * source_hundredths source)) <= 10000 /\
        score = (if 0 <? raw then Z.max r 1 else 0) /\ score <= raw
  | None => exact_name policy = false /\ layer_hundredths layer (explicit_layer policy) = None
  end.
Proof.
  unfold apply_rank_policy. destruct (exact_name policy) eqn:Ee; [done|].
  assert (Hmul : forall l s hl hs, check_from (nearest_check (f64_mul l s) hl hs) 2048 0 = true ->
    exists hl' r, Some hl = Some hl' /\ 2 * Z.abs (10000 * r - raw * (hl' * hs)) <= 10000 /\
      (if 0 <? raw then Z.max (round_as_u32 (f64_mul (f64 raw 0) (f64_mul l s))) 1 else 0) = (if 0 <? raw then Z.max r 1 else 0) /\
      (if 0 <? raw then Z.max (round_as_u32 (f64_mul (f64 raw 0) (f64_mul l s))) 1 else 0) <= raw).
  { intros l s hl hs H. destruct (nearest_all l s hl hs raw H Hraw) as [H1 H2].
    exists hl, (round_as_u32 (f64_mul (f64 raw 0) (f64_mul l s))). split; [done|]. split; [done|]. split; [done|].
    destruct (Z.ltb_spec 0 raw); lia. }
  pose proof (layer_known layer (explicit_layer policy)) as Hlayers. pose proof (source_known source) as Hsources.
  destruct (layer_multiplier _ _) as [l|], (layer_hundredths _ _) as [hl|]; try done. cbn [mbind option_bind].
  revert Hsources. generalize (path_source_multiplier source), (source_hundredths source). intros s hs Hsources. apply Hmul.
  destruct Hlayers as [E|[E|E]]; apply pair_equal_spec in E as [-> ->]; destruct Hsources as [E|[E|E]]; apply pair_equal_spec in E as [-> ->]; vm_compute; reflexivity.
Qed.

Lemma rank_policy_exact_witness :
  apply_rank_policy 45 None (Some (lit " Bundled ")) (mkRankPolicy false false) = Some 31 /\
  exists hl r, layer_hundredths None false = Some hl /\ 2 * Z.abs (10000 * r - 45 * (hl * 70)) <= 10000 /\ 31 = Z.max r 1.
Proof.
  split; [vm_compute; reflexivity|].
  pose proof (rank_policy_exact 45 None (Some (lit " Bundled ")) (mkRankPolicy false false) ltac:(lia)) as H.
  replace (apply_rank_policy 45 None (Some (lit " Bundled ")) (mkRankPolicy false false)) with (Some 31) in H by (vm_compute; reflexivity).
  destruct H as (hl & r & H1 & H2 & H3 & _). exists hl, r. split; [exact H1|]. split; [exact H2|exact H3].
Defined.
