(* ===== verification/SearchRank.v ===== *)
(** The scorers of the gateway's search, [dcc-mcp-gateway-search/src/query.rs], [record.rs]
    and [ranking.rs].  The [nucleo-matcher] crate is the parameter [Nucleo]. *)

From S2P Require Import Prelude Text Json.

Local Open Scope Z_scope.

(** ** Records and queries *)

(** The trait [SearchRecord]. *)
Class SearchRecord (R : Type) : Type := {
  r_tool_slug : R -> str;
  r_backend_tool : R -> str;
  r_summary : R -> str;
  r_skill_name : R -> option str;
  r_tags : R -> list str;
  r_search_tokens : R -> list str;
  r_search_aliases : R -> list str;
  r_dcc_type : R -> str;
  r_instance_id : R -> Z;
  r_loaded : R -> bool;
  r_tool_role : R -> option str;
  r_rank_layer : R -> option str;
  r_rank_path_source : R -> option str;
  r_rank_scope : R -> Z;
  r_interface_count : R -> option Z;
}.

Inductive SearchMode : Type := Fuzzy | Exact | Hybrid.

Record SearchQuery : Type := mkQuery {
  query : str;
  q_dcc_type : option str;
  dcc_types : list str;
  q_instance_id : option Z;
  q_tags : list str;
  tags_any : list str;
  exclude_tags : list str;
  loaded_only : option bool;
  scene_hint : option str;
  min_score : option Z;
  skill_hint : option str;
  or_queries : list str;
  limit : option Z;
  offset : option Z;
  mode : SearchMode;
}.

Definition DEFAULT_LIMIT : Z := 25.
Definition MAX_LIMIT : Z := 100.

Record ScoreBreakdown : Type := mkBreakdown { bd_score : Z; bd_reasons : list str }.
Definition no_score : ScoreBreakdown := mkBreakdown 0 [].

Definition u32_max : Z := 2 ^ 32 - 1.
(** [u32::saturating_add]. *)
Definition sat_add (a b : Z) : Z := Z.min u32_max (a + b).

Definition add_reason (reasons : list str) (reason : str) : list str :=
  if existsb (fun r => bool_decide (r = reason)) reasons then reasons else reasons ++ [reason].

Definition add_component (amount : Z) (reason : string) (b : ScoreBreakdown) : ScoreBreakdown :=
  if amount =? 0 then b else mkBreakdown (sat_add (bd_score b) amount) (add_reason (bd_reasons b) (lit reason)).

Abbreviation lower := to_ascii_lowercase_str.
(** [tags.iter().any(|t| t.to_ascii_lowercase() == q)]. *)
Definition has_tag (q : str) (tags : list str) : bool := existsb (fun t => bool_decide (lower t = q)) tags.

Section Scorers.
Context {R : Type} {SR : SearchRecord R}.

Definition add_scene (scene : option str) (r : R) (out : ScoreBreakdown) : ScoreBreakdown :=
  match scene with
  | Some hint => if contains hint (lower (r_summary r)) || has_tag hint (r_tags r) then add_component 2 "scene_hint" out else out
  | None => out
  end.

(** ** Substrings *)

(** [SubstringScorer::explain]. *)
Definition substring_explain (r : R) (q : str) (scene : option str) : ScoreBreakdown :=
  let out :=
    if bool_decide (q = []) then no_score
    else
      let tool_lower := lower (r_backend_tool r) in
      let out :=
        if bool_decide (tool_lower = q) then add_component 10 "tool_exact" no_score
        else if contains q tool_lower then add_component 6 "tool_substring" no_score else no_score in
      let out := if has_tag q (r_tags r) then add_component 5 "tag_exact" out else out in
      let out := match r_skill_name r with Some s => if contains q (lower s) then add_component 4 "skill_substring" out else out | None => out end in
      if contains q (lower (r_summary r)) then add_component 2 "summary_substring" out else out in
  add_scene scene r out.

(** ** Lexical scores *)

Definition or_opt {A} (a b : option A) : option A := match a with Some _ => a | None => b end.

Definition search_token_text (token : str) : str :=
  default token (or_opt (strip_prefix (lit "alias:") token) (or_opt (strip_prefix (lit "schema:") token) (strip_prefix (lit "required:") token))).

(** The loop of [search_tokens_joined]: a token after an empty one is not separated. *)
Definition search_tokens_joined (tokens : list str) : str :=
  foldl (fun out t => (if bool_decide (out = []) then out else out ++ [32]) ++ search_token_text t) [] tokens.

(** The maximal runs of characters that satisfy [p]. *)
Fixpoint runs (p : Z -> bool) (s cur : str) : list str :=
  match s with
  | [] => match cur with [] => [] | _ => [cur] end
  | c :: s => if p c then runs p s (cur ++ [c]) else match cur with [] => runs p s [] | _ => cur :: runs p s [] end
  end.

Definition relaxed_multiword_haystack_score (r : R) (q : str) : Z :=
  let q := trim q in
  if negb (existsb is_whitespace q) then 0
  else if (str_len q <? 8)%nat then 0
  else
    let words_in hay l := foldl (fun hay t => hay ++ [32] ++ t) hay l in
    let hay := words_in (lower (r_backend_tool r)) (lower (r_summary r) :: match r_skill_name r with Some s => [lower s] | None => [] end) in
    let hay := words_in hay (map lower (r_tags r)) in
    let hay := words_in hay (map (fun t => lower (search_token_text t)) (r_search_tokens r)) in
    let hay := words_in hay (map lower (r_search_aliases r)) in
    let words := base.filter (fun w => (2 <= str_len w)%nat) (split_whitespace q) in
    if (length words <? 2)%nat then 0
    else
      let hay_tokens := map lower (runs is_ascii_alphanumeric hay []) in
      let hits w :=
        let wl := lower w in
        if contains wl hay then true
        else existsb (fun t => starts_with wl t || ((3 <=? str_len wl)%nat && contains wl t)) hay_tokens in
      let matched := Z.of_nat (length (base.filter (fun w => hits w = true) words)) in
      if matched =? 0 then 0 else Z.min (matched * 5) 30.

(** [search_tokens]: runs of ASCII letters and digits, cut before a capital that follows a
    small letter or a digit. *)
Fixpoint search_tokens_loop (value current : str) (prev_lower : bool) : list str :=
  match value with
  | [] => match current with [] => [] | _ => [lower current] end
  | ch :: value =>
      if is_ascii_alphanumeric ch then
        let small := is_ascii_lowercase ch || is_ascii_digit ch in
        if prev_lower && is_ascii_uppercase ch && negb (bool_decide (current = []))
        then lower current :: search_tokens_loop value [ch] small
        else search_tokens_loop value (current ++ [ch]) small
      else match current with [] => search_tokens_loop value [] false | _ => lower current :: search_tokens_loop value [] false end
  end.
Definition query_tokens (value : str) : list str := search_tokens_loop value [] false.

Definition token_weight (qtok ctok : str) (exact prefix substring : Z) : Z :=
  if bool_decide (ctok = qtok) then exact else if starts_with qtok ctok then prefix else if contains qtok ctok then substring else 0.

(** The loop over the query's tokens; a token without a match ends it with nothing. *)
Fixpoint token_total (qtoks ctoks : list str) (exact prefix substring total : Z) : Z :=
  match qtoks with
  | [] => total
  | qtok :: qtoks =>
      let token_score := foldr Z.max 0 (map (fun ctok => token_weight qtok ctok exact prefix substring) ctoks) in
      if token_score =? 0 then 0 else token_total qtoks ctoks exact prefix substring (total + token_score)
  end.

Definition token_match_score (query candidate : str) (exact prefix substring : Z) : Z :=
  if bool_decide (query = []) || bool_decide (candidate = []) then 0
  else
    let candidate_lower := lower candidate in
    if bool_decide (candidate_lower = query) then exact
    else if contains query candidate_lower then substring
    else
      match query_tokens query, query_tokens candidate with
      | [], _ | _, [] => 0
      | qtoks, ctoks => token_total qtoks ctoks exact prefix substring 0
      end.

(** ** Fuzzy scores *)

Definition FUZZY_FIELD_CAP : Z := 10.
Definition PREFIX_BONUS : Z := 4.
Definition EXACT_BONUS : Z := 20.
Definition FUZZY_QUANTISE_DIVISOR : Z := 32.
Definition AMBIGUOUS_SHORT_QUERY_LEN : nat := 3.
Definition META_TOOL_DIVISOR : Z := 3.
Definition ESCAPE_HATCH_DIVISOR : Z := 4.

(** [Pattern::new(q, Ignore, Smart, Fuzzy).score(haystack)]. *)
Class Nucleo : Type := {
  pattern_score : str -> str -> option Z;
  pattern_score_u32 q haystack s : pattern_score q haystack = Some s -> 0 <= s <= u32_max;
}.

Definition is_meta_tool (backend_tool : str) : bool :=
  let l := lower backend_tool in
  bool_decide (l = lit "project_resume") || bool_decide (l = lit "project_checkpoint") || starts_with (lit "recipes__") l
  || starts_with (lit "diagnostics__") l || bool_decide (l = lit "dcc_capability_manifest").

Context {nu : Nucleo}.

Definition score_field (q haystack : str) (cap : Z) (exact_override : bool) : Z :=
  if bool_decide (haystack = []) then 0
  else
    let raw := default 0 (pattern_score q haystack) in
    if raw =? 0 then 0
    else if exact_override then cap else Z.max 1 (Z.min (raw / FUZZY_QUANTISE_DIVISOR) cap).

(** The best field of a list, as the loops with a running maximum. *)
Definition best_field (q : str) (cap : Z) (fields : list str) : Z :=
  foldl (fun best f => let s := score_field q f cap false in if best <? s then s else best) 0 fields.

Definition is_alias (t : str) : bool := starts_with (lit "alias:") t.
Definition is_schema (t : str) : bool := starts_with (lit "schema:") t || starts_with (lit "required:") t.

(** The five lexical scores, in order: tool, summary, aliases, schema, other tokens. *)
Definition lexical_scores (r : R) (q : str) : list (Z * string) :=
  let alias_tokens :=
    let joined := join_str [32] (r_search_aliases r) in
    let prefixed := search_tokens_joined (base.filter (fun t => is_alias t = true) (r_search_tokens r)) in
    if bool_decide (prefixed = []) then joined
    else (if bool_decide (joined = []) then joined else joined ++ [32]) ++ prefixed in
  let schema_tokens := search_tokens_joined (base.filter (fun t => is_schema t = true) (r_search_tokens r)) in
  let generic_tokens := search_tokens_joined (base.filter (fun t => is_alias t || is_schema t = false) (r_search_tokens r)) in
  [(token_match_score q (r_backend_tool r) 18 12 8, "tool_lexical"%string);
   (token_match_score q (r_summary r) 8 5 3, "summary_lexical"%string);
   (token_match_score q alias_tokens 14 10 6, "alias_lexical"%string);
   (token_match_score q schema_tokens 12 8 5, "schema_lexical"%string);
   (token_match_score q generic_tokens 10 7 4, "search_token_lexical"%string)].

Definition add_all (components : list (Z * string)) (out : ScoreBreakdown) : ScoreBreakdown :=
  foldl (fun out c => add_component (fst c) (snd c) out) out components.

(** The lexical part, and the deterministic score the short-query guard looks at. *)
Definition lexical_part (r : R) (q : str) : ScoreBreakdown * Z :=
  let scores := lexical_scores r q in
  let deterministic := foldr Z.add 0 (map fst scores) in
  let out := add_all scores no_score in
  if deterministic =? 0 then
    let multiword := relaxed_multiword_haystack_score r q in
    (add_component multiword "multi_token_lexical" out, Z.max deterministic multiword)
  else (out, deterministic).

(** The fuzzy scores, in order: tool, its bonus, skill, tags, summary, schema, aliases. *)
Definition fuzzy_scores (r : R) (q : str) : list (Z * string) :=
  let tool_lower := lower (r_backend_tool r) in
  let exact_tool := bool_decide (tool_lower = q) in
  let prefix_tool := negb exact_tool && starts_with q tool_lower in
  let schema_fields :=
    omap (strip_prefix (lit "schema:")) (r_tags r)
    ++ map search_token_text (base.filter (fun t => is_schema t = true) (r_search_tokens r)) in
  let alias_fields := r_search_aliases r ++ omap (strip_prefix (lit "alias:")) (r_search_tokens r) in
  [(score_field q (r_backend_tool r) FUZZY_FIELD_CAP exact_tool, "tool_fuzzy"%string);
   (if exact_tool then (EXACT_BONUS, "tool_exact"%string) else (if prefix_tool then PREFIX_BONUS else 0, "tool_prefix"%string));
   (match r_skill_name r with Some s => score_field q s 7 false | None => 0 end, "skill_fuzzy"%string);
   (best_field q 6 (base.filter (fun t => starts_with (lit "schema:") t = false) (r_tags r)), "tag_fuzzy"%string);
   (score_field q (r_summary r) 5 false, "summary_fuzzy"%string);
   (best_field q 4 schema_fields, "schema_fuzzy"%string);
   (best_field q 5 alias_fields, "alias_fuzzy"%string)].

(** A divided score, never below one. *)
Definition demote (divisor : Z) (reason : string) (out : ScoreBreakdown) : ScoreBreakdown :=
  mkBreakdown (Z.max 1 (bd_score out / divisor)) (add_reason (bd_reasons out) (lit reason)).

(** What follows the scores: the meta-tools that the name does not call for are dropped
    ([None]), the others, and the escape hatches, divided. *)
Definition demotions (r : R) (q : str) (out : ScoreBreakdown) : option ScoreBreakdown :=
  out ← (if (0 <? bd_score out) && is_meta_tool (r_backend_tool r) then
           if token_match_score q (r_backend_tool r) 18 12 8 =? 0 then None else Some (demote META_TOOL_DIVISOR "meta_tool_demoted" out)
         else Some out);
  Some (if (0 <? bd_score out) && bool_decide (r_tool_role r = Some (lit "escape_hatch")) && negb (contains q (lower (r_backend_tool r)))
        then demote ESCAPE_HATCH_DIVISOR "escape_hatch_demoted" out else out).

(** [FuzzyScorer::explain]. *)
Definition fuzzy_explain (r : R) (q : str) (scene : option str) : ScoreBreakdown :=
  if bool_decide (q = []) then add_scene scene r no_score
  else
    let '(out, deterministic) := lexical_part r q in
    if (str_len q =? AMBIGUOUS_SHORT_QUERY_LEN)%nat && (deterministic =? 0) then no_score
    else match demotions r q (add_all (fuzzy_scores r q) out) with
    | None => no_score
    | Some out => add_scene scene r out
    end.

End Scorers.
