(* ===== verification/SearchEngine.v ===== *)
(** The search pipeline: filter, score, sort, paginate, and the judgement of the fallback,
    [dcc-mcp-gateway-search/src/engine.rs]. *)

From S2P Require Import Prelude Text Json SearchPolicy SearchRank.

Local Open Scope Z_scope.

Record SearchHit (R : Type) : Type := mkHit { hit_record : R; rank : Z; score : Z; match_reasons : list str }.
Arguments mkHit {R}.
Arguments hit_record {R}.
Arguments rank {R}.
Arguments score {R}.
Arguments match_reasons {R}.

Record SearchPage (R : Type) : Type := mkPage {
  hits : list (SearchHit R);
  total : Z;
  page_offset : Z;
  page_limit : Z;
  fallback : option SearchFallback;
}.
Arguments mkPage {R}.
Arguments hits {R}.
Arguments total {R}.
Arguments page_offset {R}.
Arguments page_limit {R}.
Arguments fallback {R}.

Section Engine.
Context {R : Type} {SR : SearchRecord R} {nu : Nucleo}.

(** ** Filters *)

(** [l.iter().map(|t| t.trim().to_ascii_lowercase()).filter(|t| !t.is_empty())]. *)
Definition normal_list (l : list str) : list str := base.filter (fun t => t <> []) (map (fun t => lower (trim t)) l).

(** The filters of [rank_all], which [count_candidates] repeats. *)
Definition is_candidate (q : SearchQuery) (r : R) : bool :=
  let dcc_filter := lower <$> trimmed (q_dcc_type q) in
  let dcc_types := normal_list (dcc_types q) in
  let tags_any := normal_list (tags_any q) in
  ((bool_decide (dcc_filter = None) && bool_decide (dcc_types = []))
   || match dcc_filter with Some f => eq_ignore_ascii_case (r_dcc_type r) f | None => false end
   || existsb (fun d => eq_ignore_ascii_case (r_dcc_type r) d) dcc_types)
  && match q_instance_id q with Some iid => r_instance_id r =? iid | None => true end
  && (negb (bool_decide (loaded_only q = Some true)) || r_loaded r)
  && forallb (fun t => has_tag t (r_tags r)) (normal_list (q_tags q))
  && (bool_decide (tags_any = []) || existsb (fun t => has_tag t (r_tags r)) tags_any)
  && negb (existsb (fun ex => has_tag ex (r_tags r)) (normal_list (exclude_tags q))).

Definition candidates (records : list R) (q : SearchQuery) : list R := base.filter (fun r => is_candidate q r = true) records.
Definition count_candidates (records : list R) (q : SearchQuery) : nat := length (candidates records q).

(** ** Clauses *)

Definition clauses (q : SearchQuery) : list str :=
  let qnorm := lower (trim (query q)) in
  foldl (fun clauses o =>
      let t := lower (trim o) in
      if negb (bool_decide (t = [])) && negb (existsb (fun c => bool_decide (c = t)) clauses) then clauses ++ [t] else clauses)
    (if bool_decide (qnorm = []) then [] else [qnorm]) (or_queries q).

Definition is_layer (tag : str) : bool :=
  let t := lower (trim tag) in
  existsb (fun l => bool_decide (t = l)) [LAYER_DOMAIN; LAYER_THIN_HARNESS; LAYER_INFRASTRUCTURE; LAYER_EXAMPLE].

(** ** Scores *)

(** [max_by] on the scores: the last of the greatest. *)
Definition best_breakdown (l : list ScoreBreakdown) : ScoreBreakdown :=
  match l with
  | [] => no_score
  | b :: l => foldl (fun best b => if bd_score best <=? bd_score b then b else best) b l
  end.

Definition is_exact_name (clauses : list str) (r : R) : bool :=
  existsb (fun clause => eq_ignore_ascii_case (r_backend_tool r) clause
    || match r_skill_name r with Some name => eq_ignore_ascii_case name clause | None => false end) clauses.

(** The closure of [rank_multi] for one candidate. *)
Definition rank_one (explain : R -> str -> option str -> ScoreBreakdown) (clauses : list str) (scene : option str) (explicit_layer : bool) (r : R)
    : option (SearchHit R) :=
  let has_clauses := negb (bool_decide (clauses = [])) in
  let breakdown := if has_clauses then best_breakdown (map (fun c => explain r c scene) clauses) else no_score in
  let exact_name := is_exact_name clauses r in
  score ← apply_rank_policy (bd_score breakdown) (r_rank_layer r) (r_rank_path_source r) (mkRankPolicy exact_name explicit_layer);
  let hit := mkHit r 0 (if exact_name then u32_max else score) (bd_reasons breakdown) in
  if negb has_clauses || (0 <? SearchEngine.score hit) then Some hit else None.

Definition rank_multi (candidates : list R) (explain : R -> str -> option str -> ScoreBreakdown) (clauses : list str) (scene : option str)
    (explicit_layer : bool) : list (SearchHit R) :=
  omap (rank_one explain clauses scene explicit_layer) candidates.

Definition apply_skill_hint_boost (hint : option str) (hit : SearchHit R) : SearchHit R :=
  match trimmed hint with
  | None => hit
  | Some h =>
      let h := lower h in
      if (str_len h <? 2)%nat then hit
      else if match r_skill_name (hit_record hit) with Some s => contains h (lower s) | None => false end
      then mkHit (hit_record hit) (rank hit) (sat_add (score hit) 8) (add_reason (match_reasons hit) (lit "skill_hint"))
      else hit
  end.

(** ** Order *)

(** [sort_by]: greater score, greater scope, smaller slug first. *)
Definition hit_le (a b : SearchHit R) : bool :=
  if score b <? score a then true else if score a <? score b then false
  else if r_rank_scope (hit_record b) <? r_rank_scope (hit_record a) then true
  else if r_rank_scope (hit_record a) <? r_rank_scope (hit_record b) then false
  else bool_decide (str_le (r_tool_slug (hit_record a)) (r_tool_slug (hit_record b))).

Definition set_rank (h : SearchHit R) (n : Z) : SearchHit R := mkHit (hit_record h) n (score h) (match_reasons h).
Definition number (l : list (SearchHit R)) : list (SearchHit R) := imap (fun idx h => set_rank h (Z.of_nat idx + 1)) l.

Definition explain_for (m : SearchMode) : R -> str -> option str -> ScoreBreakdown :=
  match m with Fuzzy | Hybrid => fuzzy_explain | Exact => substring_explain end.

Definition keep_score (q : SearchQuery) (h : SearchHit R) : bool :=
  match min_score q with
  | Some min => bool_decide (clauses q = []) || (min <=? score h)
  | None => true
  end.

(** The hits before they are sorted. *)
Definition scored (records : list R) (q : SearchQuery) : list (SearchHit R) :=
  let scene := lower <$> scene_hint q in
  base.filter (fun h => keep_score q h = true)
    (map (apply_skill_hint_boost (skill_hint q))
       (rank_multi (candidates records q) (explain_for (mode q)) (clauses q) scene (existsb is_layer (q_tags q)))).

Definition rank_all (records : list R) (q : SearchQuery) : list (SearchHit R) := number (sort_by hit_le (scored records q)).

(** ** Pages *)

Definition effective_limit (limit : option Z) : Z :=
  match limit with
  | None => DEFAULT_LIMIT
  | Some n => if n =? 0 then DEFAULT_LIMIT else Z.min n MAX_LIMIT
  end.

Definition paginate (l : list (SearchHit R)) (q : SearchQuery) (fallback : option SearchFallback) : SearchPage R :=
  let total := Z.of_nat (length l) mod 2 ^ 32 in
  let effective := effective_limit (limit q) in
  let offset := Z.min (default 0 (offset q)) total in
  let stop := Z.min (sat_add offset effective) total in
  let page := if offset <? total then take (Z.to_nat (stop - offset)) (drop (Z.to_nat offset) l) else [] in
  mkPage page total offset effective fallback.

Definition search_page (records : list R) (q : SearchQuery) : SearchPage R := paginate (rank_all records q) q None.
Definition search (records : list R) (q : SearchQuery) : list (SearchHit R) := hits (search_page records q).

(** ** The fallback *)

Definition fallback_query_text (q : SearchQuery) : str :=
  let trimmed := trim (query q) in
  if bool_decide (trimmed = []) then join_str [32] (base.filter (fun c => c <> []) (map trim (or_queries q))) else trimmed.

Definition classify (l : list (SearchHit R)) (text : str) (candidates_considered : nat) (policy : FallbackPolicy) : option FallbackTrigger :=
  if (candidates_considered =? 0)%nat then None
  else
    let len := length (trim text) in
    match head l with
    | Some top =>
        let r := hit_record top in
        if is_fallback_target (r_skill_name r) || is_fallback_target (Some (r_tool_slug r)) || is_fallback_target (Some (r_backend_tool r))
        then None
        else
          let has_interface := negb (bool_decide (r_interface_count r = Some 0)) in
          evaluate_fallback len (Some (score top)) has_interface policy
    | None => evaluate_fallback len None true policy
    end.

Definition resolve_fallback_among (l : list (SearchHit R)) (text : str) (candidates_considered : nat) (probe : CuaRuntimeState) : option SearchFallback :=
  (fun t => build_fallback t probe) <$> classify l text candidates_considered default_policy.

(** [resolve_fallback]: the candidates are the hits. *)
Definition resolve_fallback (l : list (SearchHit R)) (text : str) (probe : CuaRuntimeState) : option SearchFallback :=
  resolve_fallback_among l text (length l) probe.

Definition search_page_with_fallback (records : list R) (q : SearchQuery) (probe : CuaRuntimeState) : SearchPage R :=
  let hits := rank_all records q in
  paginate hits q (resolve_fallback_among hits (fallback_query_text q) (count_candidates records q) probe).

End Engine.
