(* ===== verification/SearchEngineProps.v ===== *)
(** Theorems on the search: the scores and their reasons ([SearchRank.v]); what a ranking
    contains and in which order, with filters and clauses by their meaning; what the pages
    cover, where exact names come, when the fallback fires ([SearchEngine.v]). *)

From S2P Require Import Prelude Json Text SearchPolicy SearchRank SearchEngine.

Local Open Scope Z_scope.

(** ** Scores and their reasons *)

Record bd_ok (b : ScoreBreakdown) : Prop := {
  bd_range : 0 <= bd_score b <= u32_max;
  bd_explained : bd_score b = 0 <-> bd_reasons b = [];
  bd_distinct : NoDup (bd_reasons b);
}.

Lemma no_score_ok : bd_ok no_score.
Proof. split; simpl; [unfold u32_max; lia|done|constructor]. Qed.

Lemma add_reason_spec l r : NoDup l -> NoDup (add_reason l r) /\ add_reason l r <> [].
Proof.
  intros Hl. unfold add_reason. destruct (existsb _ l) eqn:E.
  - split; [done|]. by destruct l.
  - split; [|by destruct l]. apply NoDup_app. split; [done|]. split; [|apply NoDup_singleton].
    intros x Hx ->%list_elem_of_singleton. apply not_true_iff_false in E. apply E, existsb_exists. exists r.
    split; [by apply list_elem_of_In|by apply bool_decide_eq_true].
Qed.

Lemma add_component_ok n s b : 0 <= n -> bd_ok b -> bd_ok (add_component n s b).
Proof.
  intros Hn Hb. unfold add_component. destruct (Z.eqb_spec n 0); [done|]. destruct Hb as [H1 H2 H3].
  destruct (add_reason_spec (bd_reasons b) (lit s) H3) as [H4 H5]. split; cbn [bd_score bd_reasons]; [|split; [|done]|done].
  - unfold sat_add, u32_max in *. lia.
  - unfold sat_add, u32_max in *. lia.
Qed.

Lemma add_component_mono n s b : 0 <= n -> bd_ok b -> bd_score b <= bd_score (add_component n s b).
Proof.
  intros Hn [H1 _ _]. unfold add_component. destruct (Z.eqb_spec n 0); [done|]. cbn [bd_score]. unfold sat_add. lia.
Qed.

Create HintDb scores.
#[export] Hint Resolve no_score_ok add_component_ok : scores.

Lemma add_all_ok l b : Forall (fun c => 0 <= fst c) l -> bd_ok b -> bd_ok (add_all l b).
Proof.
  unfold add_all. revert b. induction l as [|c l IH]; intros b Hl Hb; [done|]. apply Forall_cons in Hl as [Hc Hl].
  cbn [foldl]. apply IH; [done|]. by apply add_component_ok.
Qed.

Lemma demote_ok d s b : 0 < d -> 0 < bd_score b -> bd_ok b -> bd_ok (demote d s b).
Proof.
  intros Hd Hs [H1 H2 H3]. destruct (add_reason_spec (bd_reasons b) (lit s) H3) as [H4 H5]. split; cbn [bd_score bd_reasons demote].
  - assert (bd_score b / d <= bd_score b) by (apply Z.div_le_upper_bound; nia). unfold u32_max in *. lia.
  - split; [lia|done].
  - done.
Qed.

Section Scorer_lemmas.
Context {R : Type} {SR : SearchRecord R}.

Lemma add_scene_ok scene (r : R) b : bd_ok b -> bd_ok (add_scene scene r b).
Proof. intros Hb. unfold add_scene. destruct scene; [|done]. destruct (_ || _); [|done]. apply add_component_ok; [lia|done]. Qed.

(** The exact mode is a table: the points of a record are those of the fields that contain
    the query, ten for the whole name of the tool, six for a part of it, five for a tag,
    four for the skill, two for the summary and two for the scene; its reasons are the
    fields that gave points. *)
Theorem substring_exact (r : R) (q : str) (scene : option str) (Hq : q <> []) :
  let name := lower (r_backend_tool r) in
  let part (b : bool) (n : Z) (s : string) := if b then [(n, lit s)] else [] in
  let points :=
    (if bool_decide (name = q) then [(10, lit "tool_exact")] else part (contains q name) 6 "tool_substring"%string)
    ++ part (has_tag q (r_tags r)) 5 "tag_exact"%string
    ++ part (match r_skill_name r with Some s => contains q (lower s) | None => false end) 4 "skill_substring"%string
    ++ part (contains q (lower (r_summary r))) 2 "summary_substring"%string
    ++ part (match scene with Some s => contains s (lower (r_summary r)) || has_tag s (r_tags r) | None => false end) 2 "scene_hint"%string in
  bd_score (substring_explain r q scene) = foldr Z.add 0 (map fst points) /\ bd_reasons (substring_explain r q scene) = map snd points.
Proof.
  cbv zeta. unfold substring_explain, add_scene. rewrite (bool_decide_false _ Hq). cbv zeta.
  destruct (bool_decide (lower (r_backend_tool r) = q)); [|destruct (contains q (lower (r_backend_tool r)))];
    destruct (has_tag q (r_tags r)); destruct (r_skill_name r) as [sk|]; try destruct (contains q (lower sk));
    destruct (contains q (lower (r_summary r)));
    (destruct scene as [sc|]; [destruct (contains sc (lower (r_summary r)) || has_tag sc (r_tags r))|]); vm_compute; done.
Qed.

(** ** Lexical scores *)

Lemma foldr_max_nonneg (l : list Z) : 0 <= foldr Z.max 0 l.
Proof. induction l; simpl; lia. Qed.

Lemma foldr_max_bound (l : list Z) n : 0 <= n -> Forall (fun x => x <= n) l -> foldr Z.max 0 l <= n.
Proof. intros Hn. induction 1; simpl; lia. Qed.

Lemma token_total_bound qs cs e p s t :
  0 <= s <= p -> p <= e -> 0 <= t -> 0 <= token_total qs cs e p s t <= t + e * Z.of_nat (length qs).
Proof.
  intros Hs Hp. revert t. induction qs as [|qt qs IH]; intros t Ht; cbn [token_total length]; [lia|]. cbv zeta.
  set (w := foldr Z.max 0 _). assert (Hw : 0 <= w <= e).
  { split; [apply foldr_max_nonneg|]. apply foldr_max_bound; [lia|]. apply Forall_forall. intros x Hx.
    apply list_elem_of_In, in_map_iff in Hx as (c & <- & _). unfold token_weight. repeat case_match; lia. }
  destruct (w =? 0); [nia|]. specialize (IH (t + w)). nia.
Qed.

Lemma search_tokens_length v cur ps : (length (search_tokens_loop v cur ps) <= S (length v))%nat.
Proof.
  revert cur ps. induction v as [|c v IH]; intros cur ps; cbn [search_tokens_loop]; [destruct cur; simpl; lia|].
  destruct (is_ascii_alphanumeric c); [destruct (_ && _)|destruct cur]; cbn [length];
    match goal with |- context [search_tokens_loop v ?a ?b] => specialize (IH a b) end; lia.
Qed.

(** The sums of the scorer, written with a plain [+] on 32-bit integers, stay far from
    overflow: a field gives at most its exact weight per token of the query. *)
Lemma token_match_bound q c e p s :
  0 <= s <= p -> p <= e -> 0 <= token_match_score q c e p s <= e * (Z.of_nat (length q) + 1).
Proof.
  intros Hs Hp. unfold token_match_score. destruct (_ || _); [nia|]. cbv zeta. destruct (bool_decide _); [nia|].
  destruct (contains _ _); [nia|]. destruct (query_tokens q) as [|qt qs] eqn:E; [nia|].
  destruct (query_tokens c); [nia|]. rewrite <- E. pose proof (search_tokens_length q [] false) as Hl. fold (query_tokens q) in Hl.
  pose proof (token_total_bound (query_tokens q) (l :: l0) e p s 0 Hs Hp ltac:(lia)). nia.
Qed.

Context {nu : Nucleo}.

Lemma score_field_range q h cap b : 1 <= cap -> 0 <= score_field q h cap b <= cap.
Proof.
  intros Hc. unfold score_field. destruct (bool_decide _); [lia|]. cbv zeta.
  destruct (default 0 (pattern_score q h) =? 0); [lia|]. destruct b; lia.
Qed.

Lemma best_field_range q cap l : 1 <= cap -> 0 <= best_field q cap l <= cap.
Proof.
  intros Hc. unfold best_field. set (f := fun best x => _). enough (H : forall b, 0 <= b <= cap -> 0 <= foldl f b l <= cap) by (apply H; lia).
  induction l as [|x l IH]; intros b Hb; [done|]. cbn [foldl]. apply IH. pose proof (score_field_range q x cap false Hc). unfold f. cbv zeta.
  destruct (_ <? _); lia.
Qed.

Lemma lexical_nonneg (r : R) q : Forall (fun c => 0 <= fst c <= 18 * (Z.of_nat (length q) + 1)) (lexical_scores r q).
Proof.
  unfold lexical_scores. cbv zeta.
  repeat (apply Forall_cons; split; [cbn [fst];
    match goal with |- context [token_match_score q ?c ?e ?p ?s] => pose proof (token_match_bound q c e p s ltac:(lia) ltac:(lia)); lia end|]).
  constructor.
Qed.

Lemma multiword_range (r : R) q : 0 <= relaxed_multiword_haystack_score r q <= 30.
Proof.
  unfold relaxed_multiword_haystack_score. cbv zeta. destruct (negb _); [lia|]. destruct (_ <? _)%nat; [lia|].
  destruct (length _ <? 2)%nat; [lia|]. destruct (_ =? 0); lia.
Qed.

Lemma fuzzy_nonneg (r : R) q : Forall (fun c => 0 <= fst c) (fuzzy_scores r q).
Proof.
  unfold fuzzy_scores. cbv zeta. repeat (apply Forall_cons; split).
  - apply score_field_range. unfold FUZZY_FIELD_CAP. lia.
  - destruct (bool_decide _); [done|]. destruct (_ && _); done.
  - destruct (r_skill_name r); [|done]. cbn [fst]. apply score_field_range. lia.
  - apply best_field_range. lia.
  - apply score_field_range. lia.
  - apply best_field_range. lia.
  - apply best_field_range. lia.
  - constructor.
Qed.

Lemma lexical_part_ok (r : R) q : bd_ok (fst (lexical_part r q)).
Proof.
  unfold lexical_part. cbv zeta. assert (Ha : bd_ok (add_all (lexical_scores r q) no_score)).
  { apply add_all_ok; [|apply no_score_ok]. eapply Forall_impl; [apply lexical_nonneg|]. simpl. lia. }
  destruct (_ =? 0); [|done]. apply add_component_ok; [|done]. apply multiword_range.
Qed.

Lemma demoted_ok (x y : bool) d s b : 0 < d -> bd_ok b -> bd_ok (if (0 <? bd_score b) && x && y then demote d s b else b).
Proof.
  intros Hd Hb. destruct (0 <? bd_score b) eqn:E; [|done]. apply Z.ltb_lt in E. destruct x, y; try done. by apply demote_ok.
Qed.

Lemma demotions_ok (r : R) q b b' : demotions r q b = Some b' -> bd_ok b -> bd_ok b'.
Proof.
  unfold demotions. intros H Hb. destruct ((0 <? bd_score b) && is_meta_tool _) eqn:E.
  - destruct (_ =? 0); [done|]. cbn [mbind option_bind] in H. apply andb_true_iff in E as [E _]. apply Z.ltb_lt in E.
    apply (inj Some) in H as <-. apply demoted_ok; [done|]. by apply demote_ok.
  - cbn [mbind option_bind] in H. apply (inj Some) in H as <-. by apply demoted_ok.
Qed.

Lemma substring_ok (r : R) q scene : bd_ok (substring_explain r q scene).
Proof.
  unfold substring_explain. cbv zeta. apply add_scene_ok. destruct (bool_decide (q = [])); [apply no_score_ok|].
  repeat match goal with |- bd_ok (if ?b then _ else _) => destruct b | |- bd_ok (match r_skill_name r with _ => _ end) => destruct (r_skill_name r)
    | |- bd_ok (add_component _ _ _) => apply add_component_ok; [lia|] | |- bd_ok no_score => apply no_score_ok end.
Qed.

Lemma fuzzy_ok (r : R) q scene : bd_ok (fuzzy_explain r q scene).
Proof.
  unfold fuzzy_explain. destruct (bool_decide _); [apply add_scene_ok, no_score_ok|].
  pose proof (lexical_part_ok r q) as Hl. destruct (lexical_part r q) as [out det]. cbn [fst] in Hl.
  destruct (_ && _); [apply no_score_ok|]. destruct (demotions _ _ _) as [b|] eqn:E; [|apply no_score_ok].
  apply add_scene_ok. eapply demotions_ok; [exact E|]. apply add_all_ok; [apply fuzzy_nonneg|done].
Qed.

Lemma explain_ok m (r : R) q scene : bd_ok (explain_for m r q scene).
Proof. destruct m; [apply fuzzy_ok|apply substring_ok|apply fuzzy_ok]. Qed.

End Scorer_lemmas.

(** ** The pipeline *)

Section Engine_lemmas.
Context {R : Type} {SR : SearchRecord R} {nu : Nucleo}.

(** ** The order *)

Lemma hit_le_total (x y : SearchHit R) : hit_le x y = true \/ hit_le y x = true.
Proof.
  unfold hit_le. destruct (Z.ltb_spec (score y) (score x)), (Z.ltb_spec (score x) (score y)); try (left; done); try (right; done).
  destruct (Z.ltb_spec (r_rank_scope (hit_record y)) (r_rank_scope (hit_record x))),
    (Z.ltb_spec (r_rank_scope (hit_record x)) (r_rank_scope (hit_record y))); try (left; done); try (right; done).
  destruct (base.total str_le (r_tool_slug (hit_record x)) (r_tool_slug (hit_record y))); [left|right]; by apply bool_decide_eq_true.
Qed.

Lemma hit_le_spec (x y : SearchHit R) :
  hit_le x y = true <->
  score y < score x \/ (score x = score y /\
    (r_rank_scope (hit_record y) < r_rank_scope (hit_record x) \/
     (r_rank_scope (hit_record x) = r_rank_scope (hit_record y) /\ str_le (r_tool_slug (hit_record x)) (r_tool_slug (hit_record y))))).
Proof.
  unfold hit_le. destruct (Z.ltb_spec (score y) (score x)), (Z.ltb_spec (score x) (score y)); try lia.
  destruct (Z.ltb_spec (r_rank_scope (hit_record y)) (r_rank_scope (hit_record x))),
    (Z.ltb_spec (r_rank_scope (hit_record x)) (r_rank_scope (hit_record y))); try lia.
  rewrite bool_decide_eq_true. split; [intros ?; right; split; [lia|right; split; [lia|done]]|].
  intros [?|[_ [?|[_ ?]]]]; [lia|lia|done].
Qed.

Lemma hit_le_trans (x y z : SearchHit R) : hit_le x y = true -> hit_le y z = true -> hit_le x z = true.
Proof.
  rewrite !hit_le_spec. intros [H1|(H1 & [H2|[H2 H3]])] [H4|(H4 & [H5|[H5 H6]])]; try (left; lia); right; (split; [lia|]); try (left; lia).
  right. split; [lia|]. by transitivity (r_tool_slug (hit_record y)).
Qed.

(** ** Ranks *)

Lemma number_lookup (l : list (SearchHit R)) i h :
  number l !! i = Some h <-> exists h', l !! i = Some h' /\ h = set_rank h' (Z.of_nat i + 1).
Proof.
  unfold number. rewrite list_lookup_imap. destruct (l !! i) as [h'|]; simpl.
  - split; [intros [= <-]; by exists h'|by intros (? & [= <-] & ->)].
  - split; [done|by intros (? & ? & _)].
Qed.

Lemma number_length (l : list (SearchHit R)) : length (number l) = length l.
Proof. apply length_imap. Qed.

Lemma rank_all_lookup (records : list R) q i h :
  rank_all records q !! i = Some h <->
  exists h', sort_by hit_le (scored records q) !! i = Some h' /\ h = set_rank h' (Z.of_nat i + 1).
Proof. apply number_lookup. Qed.

Lemma rank_all_length (records : list R) q : length (rank_all records q) = length (scored records q).
Proof. unfold rank_all. by rewrite number_length, sort_by_length. Qed.

(** ** Scores of hits *)

Lemma best_breakdown_ok l : Forall bd_ok l -> bd_ok (best_breakdown l).
Proof.
  destruct l as [|b l]; [intros _; apply no_score_ok|]. intros Hl. apply Forall_cons in Hl as [Hb Hl]. cbn [best_breakdown].
  revert b Hb. induction Hl as [|x l Hx Hl IH]; intros b Hb; [done|]. cbn [foldl]. apply IH. by destruct (_ <=? _).
Qed.

Lemma round_as_u32_range x : 0 <= round_as_u32 x <= u32_max.
Proof.
  unfold round_as_u32, u32_max. destruct x as [s|[]| |[] m e]; try lia. cbv zeta. split; [|lia]. apply Z.min_glb; [lia|].
  destruct (0 <=? e) eqn:E; [apply Z.mul_nonneg_nonneg; [lia|apply Z.pow_nonneg; lia]|].
  apply Z.div_pos; [|apply Z.mul_pos_pos; [lia|apply Z.pow_pos_nonneg; lia]].
  apply Z.add_nonneg_nonneg; [lia|apply Z.pow_nonneg; lia].
Qed.

Lemma rank_policy_range raw layer source p s :
  0 <= raw <= u32_max -> apply_rank_policy raw layer source p = Some s -> 0 <= s <= u32_max /\ (0 < s <-> 0 < raw).
Proof.
  intros Hraw. unfold apply_rank_policy. destruct (SearchPolicy.exact_name p); [intros [= <-]; lia|].
  destruct (layer_multiplier _ _) as [l|]; [|done]. cbn [mbind option_bind]. cbv zeta. intros H. apply (inj Some) in H as <-.
  match goal with |- context [round_as_u32 ?x] => pose proof (round_as_u32_range x) as Hr; revert Hr; generalize (round_as_u32 x) end.
  intros z Hz. destruct (Z.ltb_spec 0 raw); unfold u32_max in *; lia.
Qed.

Abbreviation scene_of q := (lower <$> scene_hint q).

(** What a hit says: its reasons are distinct and it has some exactly when its score is
    above zero, unless the name alone brought it. *)
Definition hit_ok (q : SearchQuery) (h : SearchHit R) : Prop :=
  rank h = 0 /\ 0 <= score h <= u32_max /\ NoDup (match_reasons h) /\
  (clauses q <> [] -> 0 < score h) /\ (is_exact_name (clauses q) (hit_record h) = true -> score h = u32_max) /\
  (is_exact_name (clauses q) (hit_record h) = false -> (0 < score h <-> match_reasons h <> [])).

Lemma rank_one_spec q r h :
  rank_one (explain_for (mode q)) (clauses q) (scene_of q) (existsb is_layer (q_tags q)) r = Some h ->
  hit_record h = r /\ hit_ok q h.
Proof.
  unfold rank_one. cbv zeta. set (b := if negb _ then best_breakdown _ else no_score).
  assert (Hb : bd_ok b).
  { unfold b. destruct (negb _); [|apply no_score_ok]. apply best_breakdown_ok, Forall_forall. intros x Hx.
    apply list_elem_of_In, in_map_iff in Hx as (c & <- & _). apply explain_ok. }
  destruct (apply_rank_policy _ _ _ _) as [s|] eqn:E; [|done]. cbn [mbind option_bind]. destruct Hb as [H1 H2 H3].
  destruct (rank_policy_range _ _ _ _ _ H1 E) as [Hs Hpos].
  set (h' := mkHit r 0 (if is_exact_name (clauses q) r then u32_max else s) (bd_reasons b)).
  destruct (negb (negb _) || _) eqn:Ek; [|done]. intros H. apply (inj Some) in H as <-. split; [done|].
  unfold hit_ok, h'. cbn [rank score match_reasons hit_record].
  split; [done|]. split; [destruct (is_exact_name _ _); unfold u32_max in *; lia|]. split; [done|]. split.
  - intros Hc. rewrite (bool_decide_false _ Hc) in Ek. cbn [negb orb] in Ek. apply Z.ltb_lt in Ek. exact Ek.
  - split; intros ->; [done|]. rewrite Hpos. destruct H2 as [H2 H2']. split; [intros ? ?; specialize (H2' ltac:(done)); lia|].
    intros Hr. destruct (decide (bd_score b = 0)) as [E0|]; [|lia]. by specialize (H2 E0).
Qed.

Lemma boost_spec q hint h :
  hit_ok q h -> hit_ok q (apply_skill_hint_boost hint h) /\ hit_record (apply_skill_hint_boost hint h) = hit_record h /\
  score h <= score (apply_skill_hint_boost hint h).
Proof.
  intros Hh. unfold apply_skill_hint_boost. destruct (trimmed hint) as [t|]; [|done]. cbv zeta. destruct (_ <? _)%nat; [done|].
  destruct (match r_skill_name _ with Some s => _ | None => _ end); [|done]. destruct Hh as (H1 & H2 & H3 & H4 & H5 & H6).
  destruct (add_reason_spec (match_reasons h) (lit "skill_hint") H3) as [H7 H8].
  unfold hit_ok. cbn [rank score match_reasons hit_record]. unfold sat_add, u32_max in *.
  split; [|split; [done|lia]]. split; [done|]. split; [lia|]. split; [done|]. split; [intros ?; specialize (H4 ltac:(done)); lia|].
  split; [intros ?; specialize (H5 ltac:(done)); lia|]. intros _. split; [done|lia].
Qed.

Lemma elem_of_scored records q h :
  h ∈ scored records q ->
  hit_record h ∈ candidates records q /\ hit_ok q h /\ (clauses q <> [] -> forall m, min_score q = Some m -> m <= score h).
Proof.
  unfold scored. cbv zeta. intros [Hk Hh]%list_elem_of_filter. apply list_elem_of_In, in_map_iff in Hh as (h0 & <- & Hh).
  apply list_elem_of_In in Hh. unfold rank_multi in Hh. apply list_elem_of_omap in Hh as (r & Hr & E).
  apply rank_one_spec in E as [<- Hok]. destruct (boost_spec q (skill_hint q) h0 Hok) as (H1 & H2 & _). rewrite H2.
  split; [done|]. split; [done|]. intros Hc m Hm. unfold keep_score in Hk. rewrite Hm, (bool_decide_false _ Hc) in Hk. simpl in Hk. lia.
Qed.

(** The records of the hits, with their multiplicities, are among the candidates. *)
Lemma scored_submseteq records q : hit_record <$> scored records q ⊆+ records.
Proof.
  assert (H : hit_record <$> scored records q ⊆+ candidates records q).
  { unfold scored. cbv zeta. etransitivity; [apply sublist_submseteq, fmap_sublist, sublist_filter|].
    unfold rank_multi. generalize (candidates records q). intros l. induction l as [|r l IH]; [done|]. cbn [omap list_omap].
    destruct (rank_one _ _ _ _ r) as [h|] eqn:E; [|by apply submseteq_cons].
    apply rank_one_spec in E as [Er Hok]. cbn [map fmap list_fmap]. destruct (boost_spec q (skill_hint q) h Hok) as (_ & -> & _). rewrite Er.
    by apply submseteq_skip. }
  etransitivity; [exact H|]. apply sublist_submseteq, sublist_filter.
Qed.

(** ** What a query asks for *)

(** A clause is a non-blank text of the query, trimmed and in lower case. *)
Definition asked (q : SearchQuery) (c : str) : Prop :=
  exists w, (w = query q \/ w ∈ or_queries q) /\ trim w <> [] /\ c = lower (trim w).

(** A tag of the record is the tag [w], up to its case and the blanks around [w]. *)
Definition carries (r : R) (w : str) : Prop := exists t, t ∈ r_tags r /\ lower t = lower (trim w).

(** The filters; a blank one asks for nothing. *)
Record in_scope (q : SearchQuery) (r : R) : Prop := {
  scope_dcc : (forall w, q_dcc_type q = Some w \/ w ∈ dcc_types q -> trim w = []) \/
    (exists w, (q_dcc_type q = Some w \/ w ∈ dcc_types q) /\ trim w <> [] /\ lower (r_dcc_type r) = lower (trim w));
  scope_instance : forall i, q_instance_id q = Some i -> r_instance_id r = i;
  scope_loaded : loaded_only q = Some true -> r_loaded r = true;
  scope_all : forall w, w ∈ q_tags q -> trim w <> [] -> carries r w;
  scope_any : (forall w, w ∈ tags_any q -> trim w = []) \/ (exists w, w ∈ tags_any q /\ trim w <> [] /\ carries r w);
  scope_none : forall w, w ∈ exclude_tags q -> trim w <> [] -> ~ carries r w;
}.

(** The tool or the skill has exactly the name asked for. *)
Definition named (q : SearchQuery) (r : R) : Prop :=
  exists c, asked q c /\ (lower (r_backend_tool r) = c \/ exists s, r_skill_name r = Some s /\ lower s = c).

(** The skill asked for is part of the record's. *)
Definition hinted (q : SearchQuery) (r : R) : Prop :=
  exists w s, skill_hint q = Some w /\ (2 <= str_len (lower (trim w)))%nat /\ r_skill_name r = Some s /\ contains (lower (trim w)) (lower s) = true.

(** A tag asked for is one of the four layers. *)
Definition layer_asked (q : SearchQuery) : Prop :=
  exists w, w ∈ q_tags q /\ lower (trim w) ∈ [LAYER_DOMAIN; LAYER_THIN_HARNESS; LAYER_INFRASTRUCTURE; LAYER_EXAMPLE].

(** The explanation of the record: none without a query, a greatest among those of the
    clauses otherwise. *)
Definition explained (q : SearchQuery) (r : R) (b : ScoreBreakdown) : Prop :=
  ((forall c, ~ asked q c) /\ b = no_score) \/
  (exists c, asked q c /\ b = explain_for (mode q) r c (scene_of q) /\
     forall c', asked q c' -> bd_score (explain_for (mode q) r c' (scene_of q)) <= bd_score b).

(** The score before the hint: the greatest there is for an exact name, else what the rank
    policy makes of the explanation, which hides some records. *)
Definition weighed (q : SearchQuery) (r : R) (b : ScoreBreakdown) (base : Z) : Prop :=
  (named q r /\ base = u32_max) \/
  (~ named q r /\ exists e, (e = true <-> layer_asked q) /\
     apply_rank_policy (bd_score b) (r_rank_layer r) (r_rank_path_source r) (mkRankPolicy false e) = Some base).

(** The hit of a record, not numbered yet. *)
Definition answer (q : SearchQuery) (r : R) (h : SearchHit R) : Prop :=
  hit_record h = r /\ rank h = 0 /\
  exists b base, explained q r b /\ weighed q r b base /\
    ((hinted q r /\ score h = Z.min u32_max (base + 8) /\ match_reasons h = add_reason (bd_reasons b) (lit "skill_hint")) \/
     (~ hinted q r /\ score h = base /\ match_reasons h = bd_reasons b)) /\
    ((exists c, asked q c) -> 0 < base /\ forall m, min_score q = Some m -> m <= score h).

Lemma lower_nil s : lower s = [] <-> s = [].
Proof. unfold to_ascii_lowercase_str. split; [apply map_eq_nil|by intros ->]. Qed.

Lemma eq_ignore_spec a b : eq_ignore_ascii_case a b = true <-> lower a = lower b.
Proof. unfold eq_ignore_ascii_case. by rewrite bool_decide_eq_true. Qed.

Lemma eq_ignore_lower a b : eq_ignore_ascii_case a (lower b) = true <-> lower a = lower b.
Proof. by rewrite eq_ignore_spec, ascii_lowercase_idem. Qed.

Lemma trimmed_spec o w : trimmed o = Some w <-> exists v, o = Some v /\ w = trim v /\ w <> [].
Proof.
  unfold trimmed. destruct o as [v|]; [|by split; [|intros (? & ? & _)]]. cbv zeta.
  case_bool_decide as E; split.
  - done.
  - intros (? & [= <-] & -> & H). done.
  - intros [= <-]. by exists v.
  - by intros (? & [= <-] & -> & _).
Qed.

Lemma elem_of_normal_list l t : t ∈ normal_list l <-> exists w, w ∈ l /\ trim w <> [] /\ t = lower (trim w).
Proof.
  unfold normal_list. rewrite list_elem_of_filter. split.
  - intros [Ht (w & -> & Hw)%list_elem_of_fmap]. exists w. split; [done|]. split; [|done]. by rewrite lower_nil in Ht.
  - intros (w & Hw & Hne & ->). split; [by rewrite lower_nil|]. apply list_elem_of_fmap. by exists w.
Qed.

Lemma normal_list_nil l : normal_list l = [] <-> forall w, w ∈ l -> trim w = [].
Proof.
  split.
  - intros E w Hw. destruct (decide (trim w = [])) as [|Hne]; [done|]. assert (H : lower (trim w) ∈ normal_list l) by (apply elem_of_normal_list; by exists w).
    rewrite E in H. by apply not_elem_of_nil in H.
  - intros H. destruct (normal_list l) as [|t ts] eqn:E; [done|]. assert (Ht : t ∈ normal_list l) by (rewrite E; left).
    apply elem_of_normal_list in Ht as (w & Hw & Hne & _). by specialize (H w Hw).
Qed.

Lemma has_tag_spec q (r : R) : has_tag q (r_tags r) = true <-> exists t, t ∈ r_tags r /\ lower t = q.
Proof.
  unfold has_tag. rewrite existsb_exists. split; intros (t & Ht & E); exists t; (split; [by apply list_elem_of_In|]); [by apply bool_decide_eq_true in E|by apply bool_decide_eq_true].
Qed.

Lemma existsb_normal (p : str -> bool) l : existsb p (normal_list l) = true <-> exists w, w ∈ l /\ trim w <> [] /\ p (lower (trim w)) = true.
Proof.
  rewrite existsb_exists. split.
  - intros (t & Ht & Hp). apply list_elem_of_In, elem_of_normal_list in Ht as (w & Hw & Hne & ->). by exists w.
  - intros (w & Hw & Hne & Hp). exists (lower (trim w)). split; [|done]. apply list_elem_of_In, elem_of_normal_list. by exists w.
Qed.

Lemma dcc_filter_spec q (r : R) :
  ((bool_decide (lower <$> trimmed (q_dcc_type q) = None) && bool_decide (normal_list (dcc_types q) = []))
   || match lower <$> trimmed (q_dcc_type q) with Some f => eq_ignore_ascii_case (r_dcc_type r) f | None => false end
   || existsb (fun d => eq_ignore_ascii_case (r_dcc_type r) d) (normal_list (dcc_types q))) = true <->
  (forall w, q_dcc_type q = Some w \/ w ∈ dcc_types q -> trim w = []) \/
  (exists w, (q_dcc_type q = Some w \/ w ∈ dcc_types q) /\ trim w <> [] /\ lower (r_dcc_type r) = lower (trim w)).
Proof.
  rewrite !orb_true_iff, andb_true_iff, !bool_decide_eq_true, existsb_normal, normal_list_nil. split.
  - intros [[[H1 H2]|H]|(w & Hw & Hne & E)].
    + left. intros w [Hw|Hw]; [|by apply H2]. destruct (decide (trim w = [])) as [|Hne]; [done|].
      assert (E : trimmed (q_dcc_type q) = Some (trim w)) by (apply trimmed_spec; by exists w). by rewrite E in H1.
    + right. destruct (trimmed (q_dcc_type q)) as [t|] eqn:E; [|done]. apply trimmed_spec in E as (w & Hw & -> & Hne).
      exists w. split; [by left|]. split; [done|]. by apply eq_ignore_lower.
    + right. exists w. split; [by right|]. split; [done|]. by apply eq_ignore_lower.
  - intros [H|(w & [Hw|Hw] & Hne & E)].
    + left; left. split; [|intros w Hw; apply H; by right]. destruct (trimmed (q_dcc_type q)) as [t|] eqn:E; [|done].
      apply trimmed_spec in E as (w & Hw & -> & Hne). destruct Hne. apply H. by left.
    + left; right. assert (E' : trimmed (q_dcc_type q) = Some (trim w)) by (apply trimmed_spec; by exists w). rewrite E'. by apply eq_ignore_lower.
    + right. exists w. split; [done|]. split; [done|]. by apply eq_ignore_lower.
Qed.

Lemma is_candidate_spec q (r : R) : is_candidate q r = true <-> in_scope q r.
Proof.
  unfold is_candidate. cbv zeta. rewrite !andb_true_iff, dcc_filter_spec, forallb_forall, negb_true_iff, (orb_true_iff (bool_decide (normal_list _ = []))), bool_decide_eq_true, existsb_normal, normal_list_nil.
  rewrite <- not_true_iff_false, existsb_normal. setoid_rewrite has_tag_spec. split.
  - intros (((((H1 & H2) & H3) & H4) & H5) & H6). split; [done| | | |done|].
    + intros i Hi. rewrite Hi in H2. by apply Z.eqb_eq.
    + intros Hl. rewrite Hl in H3. by rewrite bool_decide_true in H3.
    + intros w Hw Hne. apply H4, list_elem_of_In, elem_of_normal_list. by exists w.
    + intros w Hw Hne Hc. apply H6. by exists w.
  - intros [H1 H2 H3 H4 H5 H6]. split; [split; [split; [split; [split; [done|]|]|]|done]|].
    + destruct (q_instance_id q) as [i|]; [|done]. by apply Z.eqb_eq, H2.
    + destruct (bool_decide_reflect (loaded_only q = Some true)) as [E|E]; [|done]. by rewrite H3.
    + intros t Ht. apply list_elem_of_In, elem_of_normal_list in Ht as (w & Hw & Hne & ->). by apply H4.
    + intros (w & Hw & Hne & Hc). by apply (H6 w).
Qed.

Lemma elem_of_clauses q c : c ∈ clauses q <-> asked q c.
Proof.
  unfold clauses, asked. cbv zeta.
  assert (H : forall l (acc : list str), c ∈ foldl (fun clauses o => let t := lower (trim o) in
      if negb (bool_decide (t = [])) && negb (existsb (fun c => bool_decide (c = t)) clauses) then clauses ++ [t] else clauses) acc l <->
    c ∈ acc \/ exists w, w ∈ l /\ trim w <> [] /\ c = lower (trim w)).
  { induction l as [|o l IH]; intros acc; cbn [foldl].
    - split; [by left|]. intros [H|(w & H & _)]; [done|by apply not_elem_of_nil in H].
    - rewrite IH. cbv zeta. setoid_rewrite elem_of_cons. destruct (negb _ && negb _) eqn:E.
      + apply andb_true_iff in E as [E _]. rewrite negb_true_iff, bool_decide_eq_false, lower_nil in E.
        rewrite elem_of_app, list_elem_of_singleton. naive_solver.
      + apply andb_false_iff in E as [E|E]; rewrite negb_false_iff in E.
        * rewrite bool_decide_eq_true, lower_nil in E. naive_solver.
        * apply existsb_exists in E as (c' & Hc & E). apply bool_decide_eq_true in E as ->. apply list_elem_of_In in Hc. naive_solver. }
  rewrite H. case_bool_decide as E; rewrite lower_nil in E.
  - setoid_rewrite elem_of_nil. naive_solver.
  - setoid_rewrite list_elem_of_singleton. naive_solver.
Qed.

Lemma clauses_nil q : clauses q = [] <-> forall c, ~ asked q c.
Proof.
  setoid_rewrite <- elem_of_clauses. destruct (clauses q) as [|c l].
  { split; [|done]. by intros _ c ?%not_elem_of_nil. }
  split; [done|]. intros H. destruct (H c). by left.
Qed.

Lemma asked_lower q c : asked q c -> lower c = c.
Proof. intros (w & _ & _ & ->). apply ascii_lowercase_idem. Qed.

Lemma is_exact_name_spec q (r : R) : is_exact_name (clauses q) r = true <-> named q r.
Proof.
  unfold is_exact_name, named. rewrite existsb_exists. split.
  - intros (c & Hc & E). apply list_elem_of_In, elem_of_clauses in Hc. exists c. split; [done|]. pose proof (asked_lower q c Hc) as Hl.
    apply orb_true_iff in E as [E|E]; [left|right; destruct (r_skill_name r) as [s|]; [exists s; split; [done|]|done]];
      apply eq_ignore_spec in E; by rewrite E.
  - intros (c & Hc & E). exists c. pose proof (asked_lower q c Hc) as Hl. split; [by apply list_elem_of_In, elem_of_clauses|]. apply orb_true_iff.
    destruct E as [E|(s & -> & E)]; [left|right]; apply eq_ignore_spec; by rewrite E.
Qed.

Lemma best_breakdown_spec l : l <> [] -> best_breakdown l ∈ l /\ forall b, b ∈ l -> bd_score b <= bd_score (best_breakdown l).
Proof.
  destruct l as [|b l]; [done|]. intros _. cbn [best_breakdown]. revert b.
  induction l as [|x l IH]; intros b; cbn [foldl].
  - split; [by left|]. intros y ->%list_elem_of_singleton. done.
  - destruct (IH (if bd_score b <=? bd_score x then x else b)) as [H1 H2]. split.
    + apply elem_of_cons in H1 as [H1|H1]; [|by right; right]. rewrite H1. destruct (_ <=? _); [by right; left|by left].
    + assert (Hm : bd_score b <= bd_score (if bd_score b <=? bd_score x then x else b) /\ bd_score x <= bd_score (if bd_score b <=? bd_score x then x else b))
        by (destruct (Z.leb_spec (bd_score b) (bd_score x)); lia).
      specialize (H2 _ ltac:(by left)) as H3. intros y [->|[->|Hy]%elem_of_cons]%elem_of_cons; [lia|lia|]. apply H2. by right.
Qed.

Abbreviation breakdown q r :=
  (if negb (bool_decide (clauses q = [])) then best_breakdown (map (fun c => explain_for (mode q) r c (scene_of q)) (clauses q)) else no_score).

Lemma explained_breakdown q (r : R) : explained q r (breakdown q r).
Proof.
  unfold explained. rewrite <- clauses_nil. destruct (bool_decide_reflect (clauses q = [])) as [E|E]; cbn [negb]; [by left|right].
  destruct (best_breakdown_spec (map (fun c => explain_for (mode q) r c (scene_of q)) (clauses q))) as [H1 H2]; [by destruct (clauses q)|].
  apply list_elem_of_fmap in H1 as (c & H1 & Hc). exists c. split; [by apply elem_of_clauses|]. split; [done|].
  intros c' Hc'%elem_of_clauses. apply H2, list_elem_of_fmap. by exists c'.
Qed.

Lemma explained_score q (r : R) b b' : explained q r b -> explained q r b' -> bd_score b = bd_score b'.
Proof.
  intros [[Hn ->]|(c & Hc & -> & H)] [[Hn' ->]|(c' & Hc' & -> & H')]; [done|by destruct (Hn c')|by destruct (Hn' c)|].
  specialize (H _ Hc'). specialize (H' _ Hc). lia.
Qed.

Lemma layer_asked_spec q : existsb is_layer (q_tags q) = true <-> layer_asked q.
Proof.
  unfold layer_asked. rewrite existsb_exists. split; intros (w & Hw & E); exists w; (split; [by apply list_elem_of_In|]).
  - unfold is_layer in E. cbv zeta in E. apply existsb_exists in E as (l & Hl & E). apply bool_decide_eq_true in E as ->. by apply list_elem_of_In.
  - unfold is_layer. cbv zeta. apply existsb_exists. eexists. split; [by apply list_elem_of_In|]. by apply bool_decide_eq_true.
Qed.

Lemma boost_cases q (h : SearchHit R) :
  let h' := apply_skill_hint_boost (skill_hint q) h in
  (hinted q (hit_record h) /\ h' = mkHit (hit_record h) (rank h) (Z.min u32_max (score h + 8)) (add_reason (match_reasons h) (lit "skill_hint"))) \/
  (~ hinted q (hit_record h) /\ h' = h).
Proof.
  cbv zeta. unfold apply_skill_hint_boost. destruct (trimmed (skill_hint q)) as [t|] eqn:E.
  - apply trimmed_spec in E as (w & Hw & -> & Hne). cbv zeta. destruct (Nat.ltb_spec (str_len (lower (trim w))) 2) as [Hl|Hl].
    + right. split; [|done]. intros (w' & s & Hw' & Hl' & _). rewrite Hw in Hw'. apply (inj Some) in Hw' as <-. lia.
    + destruct (r_skill_name (hit_record h)) as [s|] eqn:Es.
      * destruct (contains _ (lower s)) eqn:Ec; [left|right]; (split; [|done]); [by exists w, s|].
        intros (w' & s' & Hw' & _ & Hs' & Hc). rewrite Hw in Hw'. rewrite Es in Hs'. apply (inj Some) in Hw' as <-, Hs' as <-. congruence.
      * right. split; [|done]. intros (w' & s' & _ & _ & Hs' & _). by rewrite Es in Hs'.
  - right. split; [|done]. intros (w & s & Hw & Hl & _). assert (Ht : trim w = []).
    { destruct (decide (trim w = [])) as [|Hne]; [done|]. assert (H : trimmed (skill_hint q) = Some (trim w)) by (apply trimmed_spec; by exists w). congruence. }
    rewrite Ht in Hl. cbn in Hl. lia.
Qed.

(** What the search makes of one record. *)
Definition hit_of (q : SearchQuery) (r : R) : option (SearchHit R) :=
  if is_candidate q r then
    h ← rank_one (explain_for (mode q)) (clauses q) (scene_of q) (existsb is_layer (q_tags q)) r;
    let h' := apply_skill_hint_boost (skill_hint q) h in if keep_score q h' then Some h' else None
  else None.

Lemma scored_hit_of records q : scored records q = omap (hit_of q) records.
Proof.
  unfold scored, rank_multi, candidates. cbv zeta. induction records as [|r l IH]; [done|].
  cbn [omap list_omap]. unfold hit_of at 1. rewrite filter_cons. destruct (is_candidate q r); cbn [decide decide_rel];
    [|destruct (decide (false = true)) as [?|_]; [done|exact IH]].
  destruct (decide (true = true)) as [_|?]; [|done]. cbn [omap list_omap].
  destruct (rank_one _ _ _ _ r) as [h|]; cbn [mbind option_bind]; [|exact IH]. cbn [map]. rewrite filter_cons.
  destruct (keep_score q _); [destruct (decide (true = true)) as [_|?]; [|done]; by f_equal|].
  destruct (decide (false = true)) as [?|_]; [done|exact IH].
Qed.

Lemma weighed_score q (r : R) b b' base : bd_score b = bd_score b' -> weighed q r b base -> weighed q r b' base.
Proof. unfold weighed. by intros ->. Qed.

Lemma rank_one_weighed q (r : R) h :
  rank_one (explain_for (mode q)) (clauses q) (scene_of q) (existsb is_layer (q_tags q)) r = Some h <->
  exists base, weighed q r (breakdown q r) base /\ (clauses q <> [] -> 0 < base) /\ h = mkHit r 0 base (bd_reasons (breakdown q r)).
Proof.
  unfold rank_one, weighed. cbv zeta. setoid_rewrite <- is_exact_name_spec. set (b := breakdown q r). set (x := is_exact_name (clauses q) r).
  set (e := existsb is_layer (q_tags q)).
  assert (He : forall e', (e' = true <-> layer_asked q) -> e' = e).
  { intros e' H. rewrite <- layer_asked_spec in H. fold e in H. destruct e, e'; try done; naive_solver. }
  assert (Hk : forall base, negb (negb (bool_decide (clauses q = []))) || (0 <? base) = true <-> (clauses q <> [] -> 0 < base)).
  { intros base. rewrite negb_involutive, orb_true_iff, bool_decide_eq_true, Z.ltb_lt. destruct (decide (clauses q = [])); naive_solver. }
  destruct x eqn:Ex.
  - cbn [apply_rank_policy SearchPolicy.exact_name mbind option_bind score]. split.
    + destruct (_ || _) eqn:E; [|done]. intros H. apply (inj Some) in H as <-. exists u32_max. split; [by left|]. split; [by apply (proj1 (Hk _))|done].
    + intros (base & [[_ ->]|[? _]] & _ & ->); [|done]. replace (0 <? u32_max) with true by done. by rewrite orb_true_r.
  - destruct (apply_rank_policy _ _ _ _) as [s|] eqn:E; cbn [mbind option_bind score].
    + split.
      * destruct (_ || _) eqn:E'; [|done]. intros H. apply (inj Some) in H as <-. exists s.
        split; [|split; [by apply (proj1 (Hk _))|done]]. right. split; [done|]. exists e. split; [apply layer_asked_spec|done].
      * intros (base & [[? _]|(_ & e' & H & Ha)] & Hb & ->); [done|]. rewrite (He e' H), E in Ha. apply (inj Some) in Ha as <-.
        apply (proj2 (Hk _)) in Hb. by rewrite Hb.
    + split; [done|]. intros (base & [[? _]|(_ & e' & H & Ha)] & _); [done|]. rewrite (He e' H) in Ha. congruence.
Qed.

Lemma asked_some q : (exists c, asked q c) <-> clauses q <> [].
Proof.
  split.
  - intros [c Hc] E. by apply (proj1 (clauses_nil q) E c).
  - destruct (clauses q) as [|c l] eqn:E; [done|]. intros _. exists c. apply elem_of_clauses. rewrite E. by left.
Qed.

Lemma keep_score_spec q (h : SearchHit R) : keep_score q h = true <-> (clauses q <> [] -> forall m, min_score q = Some m -> m <= score h).
Proof.
  unfold keep_score. destruct (min_score q) as [m|].
  - rewrite orb_true_iff, bool_decide_eq_true, Z.leb_le. destruct (decide (clauses q = [])); naive_solver.
  - naive_solver.
Qed.

Lemma hit_of_answer q (r : R) h : hit_of q r = Some h -> in_scope q r /\ answer q r h.
Proof.
  unfold hit_of. destruct (is_candidate q r) eqn:Ec; [|done]. apply is_candidate_spec in Ec.
  destruct (rank_one _ _ _ _ r) as [h0|] eqn:E; cbn [mbind option_bind]; [|done]. apply rank_one_weighed in E as (base & Hw & Hpos & ->).
  destruct (keep_score q _) eqn:Ek; [|done]. intros H. apply (inj Some) in H as <-. rewrite keep_score_spec in Ek. split; [done|].
  unfold answer. setoid_rewrite asked_some. pose proof (explained_breakdown q r) as Hb.
  destruct (boost_cases q (mkHit r 0 base (bd_reasons (breakdown q r)))) as [[Hh E]|[Hh E]]; cbn [hit_record rank score match_reasons] in *;
    rewrite E in *; cbn [hit_record rank score match_reasons] in *; (split; [done|]); (split; [done|]); exists (breakdown q r), base;
    (split; [done|]); (split; [done|]).
  - split; [by left|]. intros Hc. split; [by apply Hpos|by apply Ek].
  - split; [by right|]. intros Hc. split; [by apply Hpos|by apply Ek].
Qed.

Lemma answer_hit_of q (r : R) h : in_scope q r -> answer q r h -> is_Some (hit_of q r).
Proof.
  intros Hs (_ & _ & b & base & Hb & Hw & Hr & Hc). unfold hit_of. apply is_candidate_spec in Hs as ->.
  pose proof (explained_score q r _ _ Hb (explained_breakdown q r)) as Hsc. apply (weighed_score q r _ _ _ Hsc) in Hw. rewrite asked_some in Hc.
  rewrite (proj2 (rank_one_weighed q r (mkHit r 0 base (bd_reasons (breakdown q r))))) by (exists base; split; [done|]; split; [intros ?; by apply Hc|done]).
  cbn [mbind option_bind]. cbv zeta.
  assert (Hk : keep_score q (apply_skill_hint_boost (skill_hint q) (mkHit r 0 base (bd_reasons (breakdown q r)))) = true).
  { apply keep_score_spec. intros Hne m Hm. destruct (Hc Hne) as [_ H]. specialize (H m Hm).
    destruct (boost_cases q (mkHit r 0 base (bd_reasons (breakdown q r)))) as [[Hh ->]|[Hh ->]]; cbn [hit_record score] in *;
      destruct Hr as [(Hh' & E & _)|(Hh' & E & _)]; try done; lia. }
  rewrite Hk. by eexists.
Qed.

(** The score says why. *)
Lemma answer_explained q (r : R) h :
  answer q r h ->
  0 <= score h <= u32_max /\ NoDup (match_reasons h) /\
  ((exists c, asked q c) -> 0 < score h /\ (~ named q r -> match_reasons h <> [])) /\
  ((forall c, ~ asked q c) -> (hinted q r /\ score h = 8 /\ match_reasons h = [lit "skill_hint"]) \/ (~ hinted q r /\ score h = 0 /\ match_reasons h = [])).
Proof.
  intros (_ & _ & b & base & Hb & Hw & Hr & Hc).
  assert (Hok : bd_ok b) by (destruct Hb as [[_ ->]|(c & _ & -> & _)]; [apply no_score_ok|apply explain_ok]).
  assert (Hbase : 0 <= base <= u32_max /\ (~ named q r -> 0 < base <-> 0 < bd_score b)).
  { destruct Hw as [[Hn ->]|(Hn & e & _ & E)]; [split; [unfold u32_max; lia|done]|].
    apply rank_policy_range in E as [H1 H2]; [done|apply Hok]. }
  destruct Hbase as [Hbase Hpos]. destruct Hok as [H1 H2 H3]. destruct (add_reason_spec (bd_reasons b) (lit "skill_hint") H3) as [H4 H5].
  assert (Hreason : 0 < bd_score b -> bd_reasons b <> []) by (intros H E; apply H2 in E; lia).
  destruct Hr as [(Hh & -> & ->)|(Hh & -> & ->)]; unfold u32_max in *.
  - split; [lia|]. split; [done|]. split.
    + intros Ha. destruct (Hc Ha) as [? _]. split; [lia|done].
    + intros Hn. left. split; [done|]. destruct Hb as [[_ ->]|(c & Ha & _)]; [|by destruct (Hn c)]. cbn [bd_score bd_reasons no_score] in *.
      destruct Hw as [[(c & Ha & _) _]|(Hx & _)]; [by destruct (Hn c)|]. specialize (Hpos Hx). split; [lia|done].
  - split; [lia|]. split; [done|]. split.
    + intros Ha. destruct (Hc Ha) as [? _]. split; [lia|]. intros Hx. apply Hreason, Hpos; [done|lia].
    + intros Hn. right. split; [done|]. destruct Hb as [[_ ->]|(c & Ha & _)]; [|by destruct (Hn c)]. cbn [bd_score bd_reasons no_score] in *.
      destruct Hw as [[(c & Ha & _) _]|(Hx & _)]; [by destruct (Hn c)|]. specialize (Hpos Hx). split; [lia|done].
Qed.


(** ** Pages *)

Definition at_offset (q : SearchQuery) (o : Z) : SearchQuery :=
  mkQuery (query q) (q_dcc_type q) (dcc_types q) (q_instance_id q) (q_tags q) (tags_any q) (exclude_tags q) (loaded_only q)
    (scene_hint q) (min_score q) (skill_hint q) (or_queries q) (limit q) (Some o) (mode q).

Lemma paginate_hits (l : list (SearchHit R)) q f :
  Z.of_nat (length l) < 2 ^ 32 -> 0 <= default 0 (offset q) -> 0 <= effective_limit (limit q) ->
  hits (paginate l q f) = take (Z.to_nat (effective_limit (limit q))) (drop (Z.to_nat (default 0 (offset q))) l) /\
  total (paginate l q f) = Z.of_nat (length l).
Proof.
  intros Hl Ho He. unfold paginate. cbv zeta. cbn [hits total]. rewrite Z.mod_small by lia. split; [|done].
  set (o := default 0 (offset q)) in *. set (e := effective_limit (limit q)) in *. set (n := length l) in *.
  destruct (Z.ltb_spec (Z.min o (Z.of_nat n)) (Z.of_nat n)) as [H|H].
  - rewrite (Z.min_l o) by lia. replace (Z.min (sat_add o e) (Z.of_nat n)) with (Z.min (o + e) (Z.of_nat n)) by (unfold sat_add, u32_max; lia).
    destruct (Z.le_ge_cases (o + e) (Z.of_nat n)).
    + rewrite Z.min_l by lia. f_equal. lia.
    + rewrite Z.min_r by lia. rewrite !take_ge; [done|rewrite length_drop; fold n; lia|rewrite length_drop; fold n; lia].
  - rewrite drop_ge by (fold n; lia). by destruct (Z.to_nat e).
Qed.

Lemma effective_limit_range q : 0 <= default 0 (limit q) -> 1 <= effective_limit (limit q) <= MAX_LIMIT.
Proof.
  unfold effective_limit, DEFAULT_LIMIT, MAX_LIMIT. destruct (limit q) as [n|]; simpl default; [|lia]. intros Hn.
  destruct (Z.eqb_spec n 0); lia.
Qed.

Lemma chunks_take {A} (l : list A) e n : concat (map (fun k => take e (drop (k * e) l)) (seq 0 n)) = take (n * e) l.
Proof.
  induction n as [|n IH]; [done|]. rewrite seq_S, map_app, concat_app, IH. cbn [map concat plus]. rewrite app_nil_r.
  replace (S n * e)%nat with (n * e + e)%nat by lia. by rewrite take_take_drop.
Qed.

Lemma rank_all_bound (records : list R) q : (length (rank_all records q) <= length records)%nat.
Proof.
  rewrite rank_all_length. pose proof (submseteq_length _ _ (scored_submseteq records q)) as H. by rewrite length_fmap in H.
Qed.

(** Reading the pages one after the other gives the whole ranking, each hit once and in
    its place, whatever the limit asked for; every page reports the same total, and holds
    at most a hundred hits. *)
Theorem pages_cover (records : list R) (q : SearchQuery) (n : nat)
  (Hlen : Z.of_nat (length records) < 2 ^ 32) (Hlimit : 0 <= default 0 (limit q))
  (Hn : Z.of_nat (length (rank_all records q)) <= Z.of_nat n * effective_limit (limit q)) :
  let page k := search_page records (at_offset q (Z.of_nat k * effective_limit (limit q))) in
  concat (map (fun k => hits (page k)) (seq 0 n)) = rank_all records q /\
  forall k, total (page k) = Z.of_nat (length (rank_all records q)) /\ (length (hits (page k)) <= 100)%nat.
Proof.
  cbv zeta. pose proof (effective_limit_range q Hlimit) as He. unfold MAX_LIMIT in He. pose proof (rank_all_bound records q) as Hb.
  assert (Hpage : forall k,
    hits (search_page records (at_offset q (Z.of_nat k * effective_limit (limit q)))) =
      take (Z.to_nat (effective_limit (limit q))) (drop (k * Z.to_nat (effective_limit (limit q))) (rank_all records q)) /\
    total (search_page records (at_offset q (Z.of_nat k * effective_limit (limit q)))) = Z.of_nat (length (rank_all records q))).
  { intros k. unfold search_page. change (rank_all records (at_offset q _)) with (rank_all records q).
    set (q' := at_offset q _). assert (Ho : 0 <= default 0 (offset q')) by (unfold q'; cbn [at_offset offset default]; apply Z.mul_nonneg_nonneg; lia).
    assert (Hl : 0 <= effective_limit (limit q')) by (unfold q'; cbn [at_offset limit]; lia).
    assert (Hn32 : Z.of_nat (length (rank_all records q)) < 2 ^ 32) by (clear - Hb Hlen; lia).
    destruct (paginate_hits (rank_all records q) q' None Hn32 Ho Hl) as [H1 H2]. rewrite H1, H2. unfold q'.
    cbn [at_offset offset limit default]. split; [|done]. do 2 f_equal. unfold id. rewrite Z2Nat.inj_mul by lia. by rewrite Nat2Z.id. }
  split.
  - erewrite map_ext; [|intros k; apply (Hpage k)]. rewrite chunks_take. apply take_ge. nia.
  - intros k. destruct (Hpage k) as [-> ->]. split; [done|]. rewrite length_take. lia.
Qed.

(** ** Exact names *)

Lemma rank_one_exact q r :
  is_exact_name (clauses q) r = true ->
  exists h, rank_one (explain_for (mode q)) (clauses q) (scene_of q) (existsb is_layer (q_tags q)) r = Some h /\ score h = u32_max.
Proof.
  intros Hx. unfold rank_one. cbv zeta. rewrite Hx. unfold apply_rank_policy. cbn [SearchPolicy.exact_name mbind option_bind].
  cbn [score]. replace (0 <? u32_max) with true by done. rewrite orb_true_r. by eexists.
Qed.

Lemma exact_name_first_aux (records : list R) (q : SearchQuery) (r : R)
  (Hr : r ∈ records) (Hc : is_candidate q r = true) (Hx : is_exact_name (clauses q) r = true) (Hm : default 0 (min_score q) <= u32_max) :
  exists i h, rank_all records q !! i = Some h /\ hit_record h = r /\ score h = u32_max /\
    forall j h', (j <= i)%nat -> rank_all records q !! j = Some h' -> score h' = u32_max.
Proof.
  destruct (rank_one_exact q r Hx) as (h0 & E & Hs). pose proof (rank_one_spec _ _ _ E) as [Hrec Hok].
  destruct (boost_spec q (skill_hint q) h0 Hok) as (Hok' & Hrec' & Hle).
  set (h1 := apply_skill_hint_boost (skill_hint q) h0) in *.
  assert (Hs1 : score h1 = u32_max) by (destruct Hok' as (_ & H2 & _); unfold u32_max in *; lia).
  assert (Hin : h1 ∈ scored records q).
  { unfold scored. cbv zeta. apply list_elem_of_filter. split.
    - unfold keep_score. destruct (min_score q) as [m|]; [|done]. cbn [default] in Hm. rewrite Hs1. apply orb_true_iff. right. by apply Z.leb_le.
    - apply list_elem_of_In, in_map, list_elem_of_In. unfold rank_multi. apply list_elem_of_omap. exists r. split; [|done].
      unfold candidates. by apply list_elem_of_filter. }
  assert (Hsort : h1 ∈ sort_by hit_le (scored records q)) by (by apply elem_of_sort_by).
  apply list_elem_of_lookup in Hsort as (i & Hi). exists i, (set_rank h1 (Z.of_nat i + 1)).
  assert (Hl : rank_all records q !! i = Some (set_rank h1 (Z.of_nat i + 1))) by (apply rank_all_lookup; by exists h1).
  split; [done|]. split; [by cbn [set_rank hit_record]; rewrite Hrec', Hrec|]. split; [done|].
  intros j h' Hj Hh'. apply rank_all_lookup in Hh' as (h2 & Hh2 & ->). cbn [set_rank score].
  assert (Hok2 : hit_ok q h2).
  { apply list_elem_of_lookup_2, elem_of_sort_by, elem_of_scored in Hh2 as (_ & H & _). exact H. }
  destruct Hok2 as (_ & Hrange & _). destruct (decide (j = i)) as [->|Hne]; [by rewrite Hi in Hh2; apply (inj Some) in Hh2 as <-|].
  assert (Hle2 : hit_le h2 h1 = true).
  { apply (sorted_lookup (fun x y => hit_le x y = true) (sort_by hit_le (scored records q)) j i); [|lia|done|done].
    apply sort_by_sorted; [apply hit_le_total|apply hit_le_trans]. }
  apply hit_le_spec in Hle2. lia.
Qed.

(** A candidate whose tool or skill has exactly the name asked for is always a hit, with
    the greatest score there is, whatever its text, its layer and its source; only hits of
    that score come before it. *)
Theorem exact_name_first (records : list R) (q : SearchQuery) (r : R)
  (Hr : r ∈ records) (Hc : is_candidate q r = true) (Hx : is_exact_name (clauses q) r = true) (Hm : default 0 (min_score q) <= u32_max) :
  exists i h, rank_all records q !! i = Some h /\ hit_record h = r /\ score h = u32_max /\
    forall j h', (j <= i)%nat -> rank_all records q !! j = Some h' -> score h' = u32_max.
Proof. by apply exact_name_first_aux. Qed.

(** ** The fallback *)

(** The advice is given exactly when a query of at least three characters, with some record
    in scope, finds nothing, or finds at the top, other than the route itself, a score below
    sixteen or a record that declares no interface; it never changes the hits. *)
Theorem fallback_exact (records : list R) (q : SearchQuery) (probe : CuaRuntimeState) :
  let l := rank_all records q in
  let page := search_page_with_fallback records q probe in
  hits page = hits (search_page records q) /\ total page = total (search_page records q) /\
  forall f, fallback page = Some f <->
    exists t, f = build_fallback t probe /\ candidates records q <> [] /\ (3 <= length (trim (fallback_query_text q)))%nat /\
      match head l with
      | None => t = NoCandidate
      | Some top =>
          (forall s, (r_skill_name (hit_record top) = Some s \/ s = r_tool_slug (hit_record top) \/ s = r_backend_tool (hit_record top)) ->
             eq_ignore_ascii_case (trim s) FALLBACK_SKILL = false) /\
          ((score top < 16 /\ t = LowConfidence) \/
           (16 <= score top /\ r_interface_count (hit_record top) = Some 0 /\ t = NoExecutableInterface))
      end.
Proof.
  cbv zeta. unfold search_page_with_fallback, search_page. split; [done|]. split; [done|]. intros f.
  unfold paginate. cbn [fallback]. unfold resolve_fallback_among, classify, count_candidates.
  set (c := candidates records q). set (n := length (trim (fallback_query_text q))). set (l := rank_all records q).
  destruct (Nat.eqb_spec (length c) 0) as [Hc|Hc].
  { split; [done|]. intros (t & _ & H & _). by apply length_zero_iff_nil in Hc. }
  assert (Hne : c <> []) by (by destruct c). unfold evaluate_fallback. cbn [default_policy fallback_enabled min_query_len min_confident_score negb orb].
  unfold FALLBACK_MIN_QUERY_LEN, FALLBACK_MIN_CONFIDENT_SCORE.
  destruct (head l) as [top|]; cbv zeta.
  - destruct (is_fallback_target (r_skill_name (hit_record top)) || _ || _) eqn:Et.
    + split; [done|]. intros (t & _ & _ & _ & Hs & _). exfalso. rewrite !orb_true_iff in Et. destruct Et as [[Et|Et]|Et]; unfold is_fallback_target in Et.
      * destruct (r_skill_name (hit_record top)) as [s|] eqn:E; [|done]. cbv iota in Et. rewrite (Hs s) in Et; [done|by left].
      * rewrite (Hs (r_tool_slug (hit_record top))) in Et; [done|by right; left].
      * rewrite (Hs (r_backend_tool (hit_record top))) in Et; [done|by right; right].
    + assert (Hs : forall s, (r_skill_name (hit_record top) = Some s \/ s = r_tool_slug (hit_record top) \/ s = r_backend_tool (hit_record top)) ->
        eq_ignore_ascii_case (trim s) FALLBACK_SKILL = false).
      { rewrite !orb_false_iff in Et. destruct Et as [[E1 E2] E3]. intros s [Hs|[-> | ->]]; [|done|done]. by rewrite Hs in E1. }
      destruct (Nat.ltb_spec n 3); [split; [done|intros (t & _ & _ & ? & _); lia]|]. destruct (Z.ltb_spec (score top) 16).
      * split; [intros E; apply (inj Some) in E as <-; exists LowConfidence; split; [done|]; split; [done|]; split; [done|]; split; [done|by left]|].
        intros (t & -> & _ & _ & _ & [[_ ->]|[? _]]); [done|lia].
      * rewrite bool_decide_decide. destruct (decide (r_interface_count (hit_record top) = Some 0)) as [Hi|Hi]; cbn [negb].
        -- split; [intros E; apply (inj Some) in E as <-; exists NoExecutableInterface; split; [done|]; split; [done|]; split; [done|]; split; [done|by right]|].
           intros (t & -> & _ & _ & _ & [[? _]|(_ & _ & ->)]); [lia|done].
        -- split; [done|]. intros (t & _ & _ & _ & _ & [[? _]|(_ & ? & _)]); [lia|done].
  - destruct (Nat.ltb_spec n 3); [split; [done|intros (t & _ & _ & ? & _); lia]|].
    split; [intros E; apply (inj Some) in E as <-; by exists NoCandidate|]. by intros (t & -> & _ & _ & ->).
Qed.

End Engine_lemmas.
