(* ===== verification/SearchCapability.v ===== *)
(** The search of the gateway's index, [dcc-mcp-gateway-core/src/capability/search.rs]:
    capability records as search records, and what a refresh makes findable. *)

From S2P Require Import Prelude Text Json Naming GatewayNaming Capability CapIndex CapBuilder SearchPolicy SearchRank SearchEngine SearchEngineProps.

Local Open Scope Z_scope.

(** [impl SearchRecord for CapabilityRecord]; the methods it leaves out keep the defaults of
    the trait. *)
#[export] Instance capability_search_record : SearchRecord CapabilityRecord := {|
  r_tool_slug := slug;
  r_backend_tool := backend_tool;
  r_summary := summary;
  r_skill_name := skill_name;
  r_tags := tags;
  r_search_tokens := search_tokens;
  r_search_aliases _ := [];
  r_dcc_type := Capability.dcc_type;
  r_instance_id := instance_id;
  r_loaded := loaded;
  r_tool_role r := m ← metadata r; tool_role m;
  r_rank_layer := rank_layer;
  r_rank_path_source := rank_path_source;
  r_rank_scope _ := 0;
  r_interface_count _ := Some 1;
|}.

Definition snapshot_search {nu : Nucleo} (snap : IndexSnapshot) (q : SearchQuery) : list (SearchHit CapabilityRecord) :=
  search (snap_records snap) q.
Definition snapshot_search_page {nu : Nucleo} (snap : IndexSnapshot) (q : SearchQuery) : SearchPage CapabilityRecord :=
  search_page (snap_records snap) q.
Definition snapshot_search_page_with_fallback {nu : Nucleo} (snap : IndexSnapshot) (q : SearchQuery) (probe : CuaRuntimeState)
    : SearchPage CapabilityRecord :=
  search_page_with_fallback (snap_records snap) q probe.

(** [SearchQuery { query, ..Default::default() }]. *)
Definition plain_query (text : str) : SearchQuery := mkQuery text None [] None [] [] [] None None None None [] None None Fuzzy.

(** ** What a refresh makes findable *)

Lemma tool_name_plain o s : tool_name_loop o s = Ok tt -> Forall plain s.
Proof.
  revert o. induction s as [|c s IH]; intros o; [constructor|]. cbn [tool_name_loop]. cbv zeta. destruct (negb (is_ascii c)); [done|].
  destruct (negb _) eqn:E; [done|]. intros H. constructor; [|by apply (IH _ H)]. apply negb_false_iff in E. unfold plain, is_whitespace, in_range.
  unfold is_ascii_alphanumeric, ch_underscore, ch_dash in E.
  unfold is_ascii_lowercase, is_ascii_uppercase, is_ascii_digit, in_range in E. lia.
Qed.

Lemma valid_name_plain s : validate_tool_name s = Ok tt -> Forall plain s.
Proof. unfold validate_tool_name. destruct s as [|c s]; [done|]. destruct (_ <? _)%nat; [done|]. apply tool_name_plain. Qed.

Section Findable.
Context {uu : UuidText} {h : Hasher} {env : BuilderEnv} {nu : Nucleo}.

(** The records of a live slice are in the snapshot. *)
Lemma snapshot_has s id sl r : index_inv s -> live s !! id = Some sl -> r ∈ slice_records sl -> r ∈ snap_records (snapshot s).
Proof.
  intros Hi Hs Hr. unfold snapshot. cbn [snap_records]. unfold sort_by_slug. apply elem_of_sort_by, elem_of_app. left.
  unfold live_records. apply list_elem_of_In, in_flat_map. exists (id, sl). split; [|by apply list_elem_of_In].
  apply list_elem_of_In. by apply elem_of_list_to_map_2.
Qed.

Lemma plain_clauses nm : Forall plain nm -> nm <> [] -> clauses (plain_query nm) = [lower nm].
Proof.
  intros Hp Hne. unfold clauses. cbn [plain_query query or_queries foldl]. rewrite trim_plain by done. cbv zeta.
  rewrite bool_decide_false; [done|]. by destruct nm.
Qed.

(** C26: from a backend's list to an agent's query: once a refresh has stored the tools of an
    instance, asking for a tool it publishes, by its name and without filters, finds it,
    with the greatest score, and only exact matches come before it. *)
Theorem published_tool_found (id : Uuid) (dcc : str) (tools : list McpTool) (hints : list UnloadedCapabilityHint) (t : McpTool)
  (s s' : CapabilityIndexState) (Hi : index_inv s) (Hd : is_valid_dcc_bucket dcc = true)
  (Hrefresh : refresh_instance id dcc (Some (tools, hints)) s = (s', true)) (Ht : t ∈ tools) (Hskip : should_skip (name t) = false) :
  exists i hit, rank_all (snap_records (snapshot s')) (plain_query (name t)) !! i = Some hit /\
    slug (hit_record hit) = tool_slug dcc id (name t) /\ loaded (hit_record hit) = true /\ score hit = u32_max /\
    forall j hit', (j <= i)%nat -> rank_all (snap_records (snapshot s')) (plain_query (name t)) !! j = Some hit' -> score hit' = u32_max.
Proof.
  destruct (should_skip_name _ Hskip) as [Hne Hv]. pose proof (valid_name_plain _ Hv) as Hplain.
  set (r := build_record id dcc t). destruct (build_record_slug id dcc t) as (Hslug & Hname & _ & Hloaded & _). fold r in Hslug, Hname, Hloaded.
  assert (Hr : r ∈ snap_records (snapshot s')).
  { unfold refresh_instance in Hrefresh. fold (with_job_tool tools) in Hrefresh. cbv zeta in Hrefresh. set (out := build_refresh_records _ hints id dcc) in *.
    destruct (is_unchanged _ _); [done|]. apply pair_equal_spec in Hrefresh as [Hs _].
    assert (Hin : r ∈ all_records out).
    { destruct (refresh_counts (build_records_from_backend id dcc (with_job_tool tools)) hints id dcc) as (Hp & _). fold out in Hp.
      rewrite Hp, (build_records_valid id dcc _ Hd). cbn [records]. apply elem_of_app. left. unfold sort_by_slug. apply elem_of_sort_by.
      apply list_elem_of_In, in_map, list_elem_of_In, list_elem_of_filter. split; [done|]. unfold with_job_tool. destruct (negb _); [|done].
      apply elem_of_app. by left. }
    assert (Hne' : all_records out <> []) by (intros E; rewrite E in Hin; by apply elem_of_nil in Hin).
    rewrite upsert_state in Hs by done. apply (snapshot_has s' id (mkSlice (all_records out) (all_fingerprint out))); [|subst s'|done].
    - subst s'. by apply inv_joined.
    - unfold live. cbn [per_instance]. rewrite bt_insert_map by apply Hi. apply lookup_insert_eq. }
  pose proof (plain_clauses _ Hplain Hne) as Hc.
  destruct (exact_name_first_aux (snap_records (snapshot s')) (plain_query (name t)) r Hr) as (i & hit & Hl & Hrec & Hs & Hfirst).
  - reflexivity.
  - rewrite Hc. cbn [is_exact_name existsb]. apply orb_true_iff. left. apply orb_true_iff. left. cbn [r_backend_tool capability_search_record].
    rewrite Hname. unfold eq_ignore_ascii_case. apply bool_decide_eq_true. symmetry. apply ascii_lowercase_idem.
  - cbn. unfold u32_max. lia.
  - exists i, hit. split; [done|]. rewrite Hrec. split; [done|]. split; [done|]. split; [done|]. exact Hfirst.
Qed.

End Findable.

(** ** Examples *)

(** A matcher that only knows substrings. *)
#[export] Instance sample_nucleo : Nucleo.
Proof.
  refine {| pattern_score q haystack := if contains (lower q) (lower haystack) then Some 64 else None |}.
  intros q haystack s. destruct (contains _ _); [|done]. intros [= <-]. unfold u32_max. lia.
Defined.

Definition row (nm sum : string) (layer : option string) : CapabilityRecord :=
  mkCapability (tool_slug (lit "maya") maya_id (lit nm)) (lit nm) (lit nm) None (lit sum) [] [] (option_map lit layer) None
    (lit "maya") maya_id true true None None [] None false.

Definition rows : list CapabilityRecord :=
  [row "create_sphere" "Create a sphere." None; row "delete" "Delete nodes, a sphere too." None; row "sphere" "Demo." (Some "example"%string);
   row "render" "Render." None].

Lemma substring_exact_witness :
  bd_score (substring_explain (row "create_sphere" "Create a sphere." None) (lit "sphere") None) = 8 /\
  bd_reasons (substring_explain (row "create_sphere" "Create a sphere." None) (lit "sphere") None) = [lit "tool_substring"; lit "summary_substring"].
Proof.
  destruct (substring_exact (row "create_sphere" "Create a sphere." None) (lit "sphere") None ltac:(done)) as [H1 H2].
  rewrite H1, H2. split; vm_compute; reflexivity.
Defined.

Definition two_per_page : SearchQuery := mkQuery (lit "sphere") None [] None [] [] [] None None None None [] (Some 2) None Exact.

Lemma pages_cover_witness :
  concat (map (fun k => hits (search_page rows (at_offset two_per_page (Z.of_nat k * effective_limit (limit two_per_page))))) (seq 0 2)) = rank_all rows two_per_page /\
  (fun h => (backend_tool (hit_record h), rank h)) <$> rank_all rows two_per_page = [(lit "sphere", 1); (lit "create_sphere", 2); (lit "delete", 3)].
Proof.
  split; [|vm_compute; reflexivity].
  exact (proj1 (pages_cover rows two_per_page 2 ltac:(done) ltac:(done) ltac:(vm_compute; done))).
Defined.

(** The example layer is hidden from neutral queries, yet its exact name is found first. *)
Lemma exact_name_first_witness :
  exists i h, rank_all rows (plain_query (lit "Sphere ")) !! i = Some h /\ backend_tool (hit_record h) = lit "sphere" /\ score h = u32_max.
Proof.
  destruct (exact_name_first rows (plain_query (lit "Sphere ")) (row "sphere" "Demo." (Some "example"%string))
    ltac:(right; right; left) ltac:(vm_compute; reflexivity) ltac:(vm_compute; reflexivity) ltac:(done)) as (i & h & H1 & H2 & H3 & _).
  exists i, h. split; [exact H1|]. split; [rewrite H2; reflexivity|exact H3].
Defined.

Lemma published_tool_found_witness :
  let s' := fst (refresh_instance maya_id (lit "maya") (Some ([sphere_tool []], [])) empty_index) in
  exists i hit, rank_all (snap_records (snapshot s')) (plain_query (lit "create_sphere")) !! i = Some hit /\
    slug (hit_record hit) = lit "maya.ab54a97f.create_sphere" /\ score hit = u32_max.
Proof.
  cbv zeta. destruct (refresh_instance maya_id (lit "maya") (Some ([sphere_tool []], [])) empty_index) as [s' ch] eqn:E.
  destruct ch; [|vm_compute in E; discriminate]. cbn [fst].
  destruct (published_tool_found maya_id (lit "maya") [sphere_tool []] [] (sphere_tool []) empty_index s' empty_inv
    eq_refl E ltac:(left) ltac:(vm_compute; reflexivity)) as (i & hit & H1 & H2 & _ & H3 & _).
  exists i, hit. split; [exact H1|]. split; [rewrite H2; reflexivity|exact H3].
Defined.

(** Nothing matches, so the advice is given; a name that is served gets none. *)
Example fallback_given :
  fallback (snapshot_search_page_with_fallback (mkSnapshot rows ∅) (plain_query (lit "paint the fence")) Ready) = Some (build_fallback NoCandidate Ready) /\
  fallback (snapshot_search_page_with_fallback (mkSnapshot rows ∅) (plain_query (lit "render")) Ready) = None.
Proof. split; vm_compute; reflexivity. Qed.

(** A scene hint alone lists a record the query does not match at all. *)
Example scene_only :
  (fun h => (backend_tool (hit_record h), score h)) <$>
    rank_all rows (mkQuery (lit "xyzzy") None [] None [] [] [] None (Some (lit "nodes")) None None [] None None Fuzzy) = [(lit "delete", 2)].
Proof. vm_compute. reflexivity. Qed.
