(* ===== verification/SearchCache.v ===== *)
(** The search service of the gateway: the shared index with its revision
    ([dcc-mcp-gateway/src/gateway/capability/index.rs]), the cache of results
    ([capability/search_cache.rs]), the search of a snapshot under a policy
    ([capability_service.rs]) and the cached search of the handlers
    ([handlers/rest_impl.rs], [tools/mod.rs]). *)

From S2P Require Import Prelude Text Json Naming GatewayNaming Capability CapPolicy CapIndex CapBuilder SearchPolicy SearchRank SearchEngine SearchCapability.

Local Open Scope Z_scope.

(** ** Keys *)

Definition mode_debug (m : SearchMode) : str := match m with Fuzzy => lit "Fuzzy" | Exact => lit "Exact" | Hybrid => lit "Hybrid" end.
Definition bool_display (b : bool) : str := if b then lit "true" else lit "false".

(** A list of words, sorted and joined; an empty list has no part in the key. *)
Definition words_field (l : list str) : option str := match l with [] => None | _ => Some (join_str [44] (sort_by str_leb l)) end.

(** The parts in the order in which they are pushed. *)
Definition key_fields {uu : UuidText} (q : SearchQuery) : list (str * option str) :=
  [(lit "q", Some (query q));
   (lit "dts", words_field (dcc_types q));
   (lit "dt", q_dcc_type q);
   (lit "iid", hyphenated <$> q_instance_id q);
   (lit "o", print_u64 <$> offset q);
   (lit "l", print_u64 <$> limit q);
   (lit "lo", bool_display <$> loaded_only q);
   (lit "t", words_field (q_tags q));
   (lit "ta", words_field (tags_any q));
   (lit "et", words_field (exclude_tags q));
   (lit "sh", scene_hint q);
   (lit "ms", print_u64 <$> min_score q);
   (lit "sk", skill_hint q);
   (lit "oq", words_field (or_queries q));
   (lit "m", Some (mode_debug (mode q)))].

Definition part (f : str * option str) : option str := (fun v => fst f ++ [61] ++ v) <$> snd f.

(** [SearchCacheKey::from_query]. *)
Definition from_query {uu : UuidText} (q : SearchQuery) : str := join_str [124] (omap part (key_fields q)).

(** ** The cache *)

(** The [lru] crate: what a cache holds after each of its operations. *)
Class Lru (K V : Type) : Type := {
  lru : Type;
  lru_new : nat -> lru;
  lru_get : K -> lru -> lru * option V;
  lru_put : K -> V -> lru -> lru;
  lru_pop : K -> lru -> lru;
  lru_clear : lru -> lru;
  holds : lru -> K -> V -> Prop;
  new_holds n k v : ~ holds (lru_new n) k v;
  get_holds k t k' v : holds (fst (lru_get k t)) k' v -> holds t k' v;
  get_some k t v : snd (lru_get k t) = Some v -> holds t k v;
  put_holds k v t k' v' : holds (lru_put k v t) k' v' -> (k' = k /\ v' = v) \/ holds t k' v';
  pop_holds k t k' v : holds (lru_pop k t) k' v -> holds t k' v;
  clear_holds t k v : ~ holds (lru_clear t) k v;
}.

Record CachedSearchResult : Type := mkCached { body : list Z; inserted_at : Z; index_generation : str }.

Definition DEFAULT_CAPACITY : nat := 256.
(** Sixty seconds, in nanoseconds. *)
Definition DEFAULT_TTL : Z := 60 * 10 ^ 9.

Section Cache.
Context {L : Lru str CachedSearchResult}.

Record SearchCache : Type := mkCache { cache : lru; ttl : Z; cache_generation : Z }.

Definition cache_new (capacity : nat) (ttl : Z) : SearchCache := mkCache (lru_new capacity) ttl 0.

(** [SearchCache::get_with_index_gen] at time [now]. *)
Definition get_with_index_gen (key : str) (current_index_gen : option str) (now : Z) (c : SearchCache) : SearchCache * option (list Z) :=
  match lru_get key (cache c) with
  | (t, None) => (mkCache t (ttl c) (cache_generation c), None)
  | (t, Some entry) =>
      if ttl c <=? now - inserted_at entry then (mkCache (lru_pop key t) (ttl c) (cache_generation c), None)
      else if match current_index_gen with Some g => negb (bool_decide (index_generation entry = g)) | None => false end
      then (mkCache (lru_pop key t) (ttl c) (cache_generation c), None)
      else (mkCache t (ttl c) (cache_generation c), Some (body entry))
  end.

Definition cache_put (key : str) (bytes : list Z) (gen : str) (now : Z) (c : SearchCache) : SearchCache :=
  mkCache (lru_put key (mkCached bytes now gen) (cache c)) (ttl c) (cache_generation c).

Definition invalidate (c : SearchCache) : SearchCache * Z :=
  let g := (cache_generation c + 1) mod 2 ^ 64 in (mkCache (lru_clear (cache c)) (ttl c) g, g).

End Cache.
Arguments SearchCache {L}.

(** ** Searching a snapshot under a policy *)

Definition allowed (p : GatewayPolicy) (op : GatewayPolicyOperation) (r : CapabilityRecord) : bool :=
  match enforce_record p op r with Ok _ => true | Err _ => false end.

Definition search_snapshot_hits_for_policy {nu : Nucleo} (snap : IndexSnapshot) (q : SearchQuery) (p : GatewayPolicy)
    : list (SearchHit CapabilityRecord) :=
  base.filter (fun hit => allowed p OpSearch (hit_record hit) = true) (snapshot_search snap q).

Definition apply_search_mode_downgrade (q : SearchQuery) : SearchQuery :=
  match mode q with
  | Hybrid =>
      mkQuery (query q) (q_dcc_type q) (dcc_types q) (q_instance_id q) (q_tags q) (tags_any q) (exclude_tags q) (loaded_only q)
        (scene_hint q) (min_score q) (skill_hint q) (or_queries q) (limit q) (offset q) Fuzzy
  | _ => q
  end.

(** ** The cached search *)

(** A record after its JSON: three fields are never written. *)
Definition wire_record (r : CapabilityRecord) : CapabilityRecord :=
  mkCapability (slug r) (backend_tool r) (callable_id r) (skill_name r) (summary r) (tags r) [] None None (Capability.dcc_type r)
    (instance_id r) (has_schema r) (loaded r) (annotations r) (metadata r) (available_groups r) (tool_group r) (discovery_only r).
Definition wire_hit (h : SearchHit CapabilityRecord) : SearchHit CapabilityRecord :=
  mkHit (wire_record (hit_record h)) (rank h) (score h) (match_reasons h).

(** [serde_json::to_vec] and [from_slice] of a list of hits. *)
Class HitJson : Type := {
  to_vec : list (SearchHit CapabilityRecord) -> option (list Z);
  from_slice : list Z -> option (list (SearchHit CapabilityRecord));
  from_to_vec l bytes : to_vec l = Some bytes -> from_slice bytes = Some (map wire_hit l);
}.

Section Service.
Context {uu : UuidText} {nu : Nucleo} {L : Lru str CachedSearchResult} {HJ : HitJson}.
Context (seed : Uuid) (policy : GatewayPolicy).

(** [format!("{}:{revision:016x}", seed.simple())]. *)
Definition generation_string (revision : Z) : str := simple seed ++ [58] ++ hex_digits 16 revision.

(** A mutation of the index, then the bump of the revision once the lock is released; a
    search, from the reading of the generation to the storing of its hits. *)
Inductive task : Type :=
| WIdle (op : index_op)
| WBump
| WDone (changed : bool)
| RStart (q : SearchQuery)
| RLookup (q : SearchQuery) (gen : str)
| RSnapshot (q : SearchQuery)
| RLoad (q : SearchQuery) (snap : IndexSnapshot)
| RStore (q : SearchQuery) (gen : str) (hits : list (SearchHit CapabilityRecord))
| RDone (hit : bool) (gen : str) (hits : list (SearchHit CapabilityRecord)).

Record world : Type := mkWorld {
  index : CapabilityIndexState;
  revision : Z;
  (* the tasks that hold the index for reading *)
  readers : nat;
  shared : SearchCache;
}.

Definition bump (r : Z) : Z := (r + 1) mod 2 ^ 64.

(** The cached hits of a body, unless there are none. *)
Definition cached_hits (bytes : option (list Z)) : option (list (SearchHit CapabilityRecord)) :=
  b ← bytes; match default [] (from_slice b) with [] => None | hits => Some hits end.

(** One atomic step of a task at time [now]; [None] when it has to wait or is done. *)
Definition task_step (now : Z) (t : task) (w : world) : option (world * task) :=
  match t with
  | WIdle op =>
      if (readers w =? 0)%nat then
        let '(s, changed) := index_step op (index w) in
        Some (mkWorld s (revision w) 0 (shared w), if changed then WBump else WDone false)
      else None
  | WBump => Some (mkWorld (index w) (bump (revision w)) (readers w) (shared w), WDone true)
  | WDone _ => None
  | RStart q => Some (w, RLookup (apply_search_mode_downgrade q) (generation_string (revision w)))
  | RLookup q gen =>
      let '(c, found) := get_with_index_gen (from_query q) (Some gen) now (shared w) in
      let w := mkWorld (index w) (revision w) (readers w) c in
      Some (w, match cached_hits found with Some hits => RDone true gen hits | None => RSnapshot q end)
  | RSnapshot q => Some (mkWorld (index w) (revision w) (S (readers w)) (shared w), RLoad q (snapshot (index w)))
  | RLoad q snap =>
      Some (mkWorld (index w) (revision w) (readers w - 1) (shared w),
            RStore q (generation_string (revision w)) (search_snapshot_hits_for_policy snap q policy))
  | RStore q gen hits =>
      let c := match to_vec hits with Some bytes => cache_put (from_query q) bytes gen now (shared w) | None => shared w end in
      Some (mkWorld (index w) (revision w) (readers w) c, RDone false gen hits)
  | RDone _ _ _ => None
  end.

(** ** Interleavings *)

Record config : Type := mkConfig { the_world : world; tasks : list task }.

(** Any task that can moves, at any time. *)
Inductive cstep : config -> config -> Prop :=
| Cstep i t now w ts w' t' :
    ts !! i = Some t -> task_step now t w = Some (w', t') -> cstep (mkConfig w ts) (mkConfig w' (<[i := t']> ts)).

Definition waiting (t : task) : Prop := match t with WIdle _ | RStart _ => True | _ => False end.

Definition initial (c : config) : Prop :=
  revision (the_world c) = 0 /\ readers (the_world c) = 0%nat /\ Forall waiting (tasks c) /\
  exists capacity ttl, shared (the_world c) = cache_new capacity ttl.

(** A run: the configurations one after the other. *)
Definition is_run (tr : list config) : Prop :=
  (exists c, tr !! 0%nat = Some c /\ initial c) /\
  forall n c c', tr !! n = Some c -> tr !! S n = Some c' -> cstep c c'.

End Service.
