(* ===== verification/SearchCacheProps.v ===== *)
(** Theorems on the search service ([SearchCache.v]). *)

From S2P Require Import Prelude Text Json Naming GatewayNaming Capability CapPolicy CapIndex CapBuilder SearchPolicy SearchRank SearchEngine SearchEngineProps SearchCapability SearchCache.

Local Open Scope Z_scope.

(** ** Generations *)

Lemma hex_digits_inj n a b :
  0 <= a < 16 ^ Z.of_nat n -> 0 <= b < 16 ^ Z.of_nat n -> hex_digits n a = hex_digits n b -> a = b.
Proof.
  revert a b. induction n as [|n IH]; intros a b Ha Hb; [simpl in *; lia|]. cbn [hex_digits]. cbv zeta.
  rewrite Nat2Z.inj_succ, Z.pow_succ_r in Ha, Hb by lia. intros E. apply app_inj_tail in E as [E1 E2].
  apply IH in E1; [|split; [apply Z.div_pos; lia|apply Z.div_lt_upper_bound; lia]|split; [apply Z.div_pos; lia|apply Z.div_lt_upper_bound; lia]].
  pose proof (Z.mod_pos_bound a 16 ltac:(lia)). pose proof (Z.mod_pos_bound b 16 ltac:(lia)).
  assert (a mod 16 = b mod 16) by (destruct (Z.ltb_spec (a mod 16) 10), (Z.ltb_spec (b mod 16) 10); lia).
  rewrite (Z.div_mod a 16), (Z.div_mod b 16) by lia. congruence.
Qed.

Section Service_lemmas.
Context {uu : UuidText} {nu : Nucleo} {L : Lru str CachedSearchResult} {HJ : HitJson}.
Context (seed : Uuid) (policy : GatewayPolicy).

Lemma generation_inj a b : 0 <= a < 2 ^ 64 -> 0 <= b < 2 ^ 64 -> generation_string seed a = generation_string seed b -> a = b.
Proof.
  intros Ha Hb E. unfold generation_string in E. apply app_inv_head in E. apply app_inv_head in E.
  apply (hex_digits_inj 16); [change (16 ^ Z.of_nat 16) with (2 ^ 64); lia..|done].
Qed.

(** ** The cache *)

Lemma get_gen_spec key g now (c : SearchCache) :
  let '(c', found) := get_with_index_gen key g now c in
  (forall k e, holds (cache c') k e -> holds (cache c) k e) /\
  match found with
  | Some bytes => exists e, holds (cache c) key e /\ bytes = body e /\ now - inserted_at e < ttl c /\
      (forall g', g = Some g' -> index_generation e = g')
  | None => True
  end.
Proof.
  unfold get_with_index_gen. pose proof (get_holds key (cache c)) as Hh. pose proof (get_some key (cache c)) as Hs.
  destruct (lru_get key (cache c)) as [t [e|]]; cbn [fst snd] in *; [|by split].
  assert (Hpop : forall k e', holds (lru_pop key t) k e' -> holds (cache c) k e') by (intros k e' H; by apply Hh, (pop_holds key)).
  destruct (Z.leb_spec (ttl c) (now - inserted_at e)); [by split|].
  destruct (match g with Some _ => _ | None => _ end) eqn:E; [by split|]. split; [done|].
  exists e. split; [by apply Hs|]. split; [done|]. split; [done|]. intros g' ->. apply negb_false_iff, bool_decide_eq_true in E. done.
Qed.

(** ** Runs *)

Abbreviation Config := (@config L).
Abbreviation step := (cstep seed policy).
Abbreviation gen_of c := (generation_string seed (revision (the_world c))).
Abbreviation result_of c q := (search_snapshot_hits_for_policy (snapshot (index (the_world c))) q policy).

Definition is_done (t : task) : bool := match t with WDone true => true | _ => false end.
Definition dones (c : Config) : nat := length (base.filter (fun t => is_done t = true) (tasks c)).
Definition is_load (t : task) : bool := match t with RLoad _ _ => true | _ => false end.
Definition loads (c : Config) : nat := length (base.filter (fun t => is_load t = true) (tasks c)).

(** The number of tasks that satisfy [p], when one of them changes. *)
Lemma count_insert (p : task -> bool) ts i t t' :
  ts !! i = Some t ->
  (length (base.filter (fun t => p t = true) (<[i := t']> ts)) + (if p t then 1 else 0) =
   length (base.filter (fun t => p t = true) ts) + (if p t' then 1 else 0))%nat.
Proof.
  revert i. induction ts as [|x ts IH]; intros i Hi; [done|]. destruct i as [|i]; simpl in Hi.
  - injection Hi as ->. change (<[0%nat := t']> (t :: ts)) with (t' :: ts). rewrite !filter_cons.
    destruct (p t), (p t'); repeat case_decide; try done; simpl; lia.
  - change (<[S i := t']> (x :: ts)) with (x :: <[i := t']> ts). rewrite !filter_cons. specialize (IH i Hi).
    destruct (decide (p x = true)); cbn [length]; lia.
Qed.

(** What holds of every configuration by itself. *)
Record config_ok (total : nat) (c : Config) : Prop := {
  ok_tasks : length (tasks c) = total;
  ok_revision : revision (the_world c) = Z.of_nat (dones c);
  ok_readers : readers (the_world c) = loads c;
  ok_snapshot : forall i q snap, tasks c !! i = Some (RLoad q snap) -> snap = snapshot (index (the_world c));
}.

Lemma dones_bound (c : Config) : (dones c <= length (tasks c))%nat.
Proof. apply length_filter. Qed.

Lemma loads_zero (c : Config) : loads c = 0%nat -> forall i q snap, tasks c !! i <> Some (RLoad q snap).
Proof.
  intros H i q snap Hi. unfold loads in H. apply length_zero_iff_nil in H.
  assert (Hin : RLoad q snap ∈ base.filter (fun t => is_load t = true) (tasks c)).
  { apply list_elem_of_filter. split; [done|]. by eapply list_elem_of_lookup_2. }
  rewrite H in Hin. by apply elem_of_nil in Hin.
Qed.

Lemma step_ok total c c' : Z.of_nat total < 2 ^ 64 -> config_ok total c -> step c c' -> config_ok total c'.
Proof.
  intros Htotal [H1 H2 H3 H4] Hs. destruct Hs as [i t now w ts w' t' Hi Hs]. cbn [the_world tasks] in *.
  pose proof (count_insert is_done ts i t t' Hi) as Hd. pose proof (count_insert is_load ts i t t' Hi) as Hl.
  pose proof (dones_bound (mkConfig w ts)) as Hb. unfold dones, loads in *. cbn [the_world tasks] in *.
  assert (Hsnap : index w' = index w -> is_load t' = false \/ (exists q, t' = RLoad q (snapshot (index w))) ->
    forall j q snap, <[i := t']> ts !! j = Some (RLoad q snap) -> snap = snapshot (index w')).
  { intros -> Ht' j q snap. destruct (decide (j = i)) as [->|Hj].
    - rewrite list_lookup_insert_eq by (by apply lookup_lt_is_Some; eexists). intros [= ->]. destruct Ht' as [|[q' [= -> ->]]]; done.
    - rewrite list_lookup_insert_ne by done. apply H4. }
  destruct t as [op| |ch|q|q gen|q|q snap|q gen hs|hit gen hs]; cbn [task_step] in Hs; try done.
  - destruct (Nat.eqb_spec (readers w) 0) as [Hr|]; [|done]. destruct (index_step op (index w)) as [s changed].
    injection Hs as <- <-. cbn [is_done is_load] in *.
    split; cbn [the_world tasks revision readers index]; unfold dones, loads; cbn [tasks]; [by rewrite length_insert| | |].
    + destruct changed; cbn [is_done] in Hd; rewrite H2; f_equal; lia.
    + destruct changed; cbn [is_load] in Hl; lia.
    + intros j q snap Hj. exfalso. destruct (decide (j = i)) as [->|Hne].
      * rewrite list_lookup_insert_eq in Hj by (by apply lookup_lt_is_Some; eexists). by destruct changed.
      * rewrite list_lookup_insert_ne in Hj by done. apply (loads_zero (mkConfig w ts)) in Hj; [done|]. unfold loads. cbn [tasks]. lia.
  - injection Hs as <- <-. cbn [is_done is_load] in *.
    split; cbn [the_world tasks revision readers index]; unfold dones, loads; cbn [tasks]; [by rewrite length_insert| |lia|by apply Hsnap; [|left]].
    pose proof (length_filter (fun t => is_done t = true) (<[i := WDone true]> ts)) as Hb'. rewrite length_insert in Hb'.
    unfold bump. rewrite H2. rewrite Z.mod_small; lia.
  - injection Hs as <- <-. cbn [is_done is_load] in *.
    split; cbn [the_world tasks]; unfold dones, loads; cbn [tasks]; [by rewrite length_insert|lia|lia|by apply Hsnap; [|left]].
  - destruct (get_with_index_gen _ _ _ _) as [cc found]. injection Hs as <- <-.
    assert (Ht : forall p : task -> bool, (forall g hs, p (RDone true g hs) = false) -> p (RSnapshot q) = false ->
      p (match cached_hits found with Some hs => RDone true gen hs | None => RSnapshot q end) = false) by (intros p Hp1 Hp2; by destruct (cached_hits found)).
    rewrite (Ht is_done), (Ht is_load) in * by done. cbn [is_done is_load] in *.
    split; cbn [the_world tasks revision readers index]; unfold dones, loads; cbn [tasks]; [by rewrite length_insert|lia|lia|].
    apply Hsnap; [done|by left].
  - injection Hs as <- <-. cbn [is_done is_load] in *.
    split; cbn [the_world tasks revision readers index]; unfold dones, loads; cbn [tasks]; [by rewrite length_insert|lia|lia|].
    apply Hsnap; [done|right; by exists q].
  - injection Hs as <- <-. cbn [is_done is_load] in *.
    split; cbn [the_world tasks revision readers index]; unfold dones, loads; cbn [tasks]; [by rewrite length_insert|lia|lia|by apply Hsnap; [|left]].
  - injection Hs as <- <-. cbn [is_done is_load] in *.
    split; cbn [the_world tasks revision readers index]; unfold dones, loads; cbn [tasks]; [by rewrite length_insert|lia|lia|by apply Hsnap; [|left]].
Qed.

(** ** Every configuration of a run *)

Context (tr : list Config) (Hrun : is_run seed policy tr) (Hsize : forall c, tr !! 0%nat = Some c -> Z.of_nat (length (tasks c)) < 2 ^ 64).

Lemma initial_ok (c : Config) : initial c -> config_ok (length (tasks c)) c.
Proof.
  intros (H1 & H2 & H3 & _). assert (Hz : forall p : task -> bool, (forall t, waiting t -> p t = false) ->
    length (base.filter (fun t => p t = true) (tasks c)) = 0%nat).
  { intros p Hp. induction H3 as [|t ts Ht Hts IH]; [done|]. rewrite filter_cons_False; [done|]. by rewrite Hp. }
  split; [done|..].
  - rewrite H1. unfold dones. rewrite Hz; [done|]. by intros [].
  - rewrite H2. unfold loads. rewrite Hz; [done|]. by intros [].
  - intros i q snap Hi. exfalso. apply list_elem_of_lookup_2 in Hi. by apply (proj1 (Forall_forall _ _) H3) in Hi.
Qed.

Lemma run_ok : exists total, Z.of_nat total < 2 ^ 64 /\ forall n c, tr !! n = Some c -> config_ok total c.
Proof.
  destruct Hrun as ((c0 & Hc0 & Hinit) & Hsteps). exists (length (tasks c0)). specialize (Hsize c0 Hc0). split; [done|].
  induction n as [|n IH]; intros c Hc; [rewrite Hc0 in Hc; injection Hc as <-; by apply initial_ok|].
  destruct (tr !! n) as [c'|] eqn:E; [|apply lookup_ge_None in E; apply lookup_lt_Some in Hc; lia].
  by apply (step_ok _ c' c Hsize (IH c' eq_refl)), (Hsteps n).
Qed.

Lemma done_stays m n c c' j b :
  (m <= n)%nat -> tr !! m = Some c -> tr !! n = Some c' -> tasks c !! j = Some (WDone b) -> tasks c' !! j = Some (WDone b).
Proof.
  intros Hmn Hc. revert c'. induction Hmn as [|n Hmn IH]; intros c' Hc' Hj; [by rewrite Hc in Hc'; injection Hc' as <-|].
  destruct (tr !! n) as [c''|] eqn:E; [|apply lookup_ge_None in E; apply lookup_lt_Some in Hc'; lia].
  specialize (IH c'' eq_refl Hj). destruct Hrun as [_ Hsteps]. pose proof (Hsteps n c'' c' E Hc') as Hs.
  destruct Hs as [i t now w ts w' t' Hi Hs]. cbn [tasks] in *. destruct (decide (j = i)) as [->|Hne].
  - rewrite Hi in IH. injection IH as ->. done.
  - by rewrite list_lookup_insert_ne.
Qed.

(** A set of tasks that only grows and keeps its size stays the same. *)
Lemma count_equal (p : task -> bool) ts ts' :
  Forall2 (fun t t' => p t = true -> p t' = true) ts ts' ->
  (length (base.filter (fun t => p t = true) ts) <= length (base.filter (fun t => p t = true) ts'))%nat /\
  (length (base.filter (fun t => p t = true) ts') = length (base.filter (fun t => p t = true) ts) ->
   Forall2 (fun t t' => p t' = true -> p t = true) ts ts').
Proof.
  induction 1 as [|t t' ts ts' Ht Hts [IH1 IH2]]; [split; [done|constructor]|]. rewrite !filter_cons.
  destruct (decide (p t = true)) as [H1|H1], (decide (p t' = true)) as [H2|H2]; cbn [length].
  - split; [lia|]. intros E. constructor; [done|]. apply IH2. lia.
  - tauto.
  - split; [lia|]. intros E. exfalso. lia.
  - split; [lia|]. intros E. constructor; [done|]. by apply IH2.
Qed.

Lemma same_dones m n c c' :
  tr !! m = Some c -> tr !! n = Some c' -> revision (the_world c) = revision (the_world c') ->
  forall j, tasks c !! j = Some (WDone true) -> tasks c' !! j = Some (WDone true).
Proof.
  intros Hm Hn Hrev j Hj. destruct (Nat.le_gt_cases m n) as [H|H]; [by apply (done_stays m n c c')|].
  destruct run_ok as (total & _ & Hok). destruct (Hok m c Hm) as [T1 R1 _ _], (Hok n c' Hn) as [T2 R2 _ _].
  assert (Hall : Forall2 (fun t t' => is_done t = true -> is_done t' = true) (tasks c') (tasks c)).
  { apply Forall2_same_length_lookup_2; [lia|]. intros k t t' Ht Ht' Hd. destruct t as [| |[]| | | | | |]; try done.
    by rewrite (done_stays n m c' c k true ltac:(lia) Hn Hm Ht) in Ht'; injection Ht' as <-. }
  destruct (count_equal is_done _ _ Hall) as [_ Heq]. unfold dones in *. specialize (Heq ltac:(lia)).
  destruct (tasks c' !! j) as [t|] eqn:E; [|apply lookup_ge_None in E; apply lookup_lt_Some in Hj; lia].
  pose proof (Forall2_lookup_lr _ _ _ j t (WDone true) Heq E Hj) as Hd. specialize (Hd eq_refl). by destruct t as [| |[]| | | | | |].
Qed.

(** ** What tasks and entries remember *)

Abbreviation dg := apply_search_mode_downgrade.

(** Task [i] begins to search for [q0] after configuration [cm], the [m]-th, and before the
    [n]-th. *)
Definition began (n i m : nat) (cm : Config) (q0 : SearchQuery) : Prop :=
  (m < n)%nat /\ tr !! m = Some cm /\ tasks cm !! i = Some (RStart q0) /\
  exists c', tr !! S m = Some c' /\ tasks c' !! i = Some (RLookup (dg q0) (gen_of cm)).

Definition entry_ok (n : nat) (k : str) (e : CachedSearchResult) : Prop :=
  exists m cm q, (m <= n)%nat /\ tr !! m = Some cm /\ from_query q = k /\ index_generation e = gen_of cm /\
    from_slice (body e) = Some (map wire_hit (result_of cm q)).

(** The hits of the query [q] on the index of a configuration after the [m]-th. *)
Definition fresh_from (m n : nat) (q : SearchQuery) (g : str) (hs : list (SearchHit CapabilityRecord)) : Prop :=
  exists k ck, (m <= k <= n)%nat /\ tr !! k = Some ck /\ g = gen_of ck /\ hs = result_of ck q.

Definition task_ok (n i : nat) (t : task) : Prop :=
  match t with
  | WIdle _ | WBump | WDone _ | RStart _ => True
  | RLookup q g => exists m cm q0, began n i m cm q0 /\ q = dg q0 /\ g = gen_of cm
  | RSnapshot q | RLoad q _ => exists m cm q0, began n i m cm q0 /\ q = dg q0
  | RStore q g hs => exists m cm q0, began n i m cm q0 /\ q = dg q0 /\ fresh_from m n q g hs
  | RDone true g hs => exists m cm q0 k ck q, began n i m cm q0 /\ (k <= n)%nat /\ tr !! k = Some ck /\ from_query q = from_query (dg q0) /\
      g = gen_of cm /\ g = gen_of ck /\ hs = map wire_hit (result_of ck q)
  | RDone false g hs => exists m cm q0, began n i m cm q0 /\ fresh_from m n (dg q0) g hs
  end.

Lemma began_S n i m cm q0 : began n i m cm q0 -> began (S n) i m cm q0.
Proof. intros (H & H'). split; [lia|done]. Qed.

Lemma fresh_S m n q g hs : fresh_from m n q g hs -> fresh_from m (S n) q g hs.
Proof. intros (k & ck & H & H'). exists k, ck. split; [lia|done]. Qed.

Lemma task_ok_S n i t : task_ok n i t -> task_ok (S n) i t.
Proof.
  destruct t as [op| |ch|q|q gen|q|q snap|q gen hs|[] gen hs]; try done; cbn [task_ok].
  - intros (m & cm & q0 & H & H'). exists m, cm, q0. split; [by apply began_S|done].
  - intros (m & cm & q0 & H & H'). exists m, cm, q0. split; [by apply began_S|done].
  - intros (m & cm & q0 & H & H'). exists m, cm, q0. split; [by apply began_S|done].
  - intros (m & cm & q0 & H & H' & Hf). exists m, cm, q0. split; [by apply began_S|]. split; [done|by apply fresh_S].
  - intros (m & cm & q0 & k & ck & q & H & Hk & H'). exists m, cm, q0, k, ck, q. split; [by apply began_S|]. split; [lia|done].
  - intros (m & cm & q0 & H & Hf). exists m, cm, q0. split; [by apply began_S|by apply fresh_S].
Qed.

Lemma entry_ok_S n k e : entry_ok n k e -> entry_ok (S n) k e.
Proof. intros (m & cm & q & H & H'). exists m, cm, q. split; [lia|done]. Qed.

Definition entries_ok (n : nat) (c : Config) : Prop := forall k e, holds (cache (shared (the_world c))) k e -> entry_ok n k e.

Lemma hits_some bytes hs : cached_hits bytes = Some hs -> exists b, bytes = Some b /\ from_slice b = Some hs.
Proof.
  unfold cached_hits. destruct bytes as [b|]; [|done]. cbn. destruct (from_slice b) as [[|h l]|] eqn:E; [done| |done].
  intros [= <-]. by exists b.
Qed.

(** The task that moves. *)
Lemma moved_ok n c i t now w' t' :
  tr !! n = Some c -> tr !! S n = Some (mkConfig w' (<[i := t']> (tasks c))) -> config_ok (length (tasks c)) c ->
  tasks c !! i = Some t -> task_step seed policy now t (the_world c) = Some (w', t') ->
  entries_ok n c -> task_ok n i t -> entries_ok (S n) (mkConfig w' (<[i := t']> (tasks c))) /\ task_ok (S n) i t'.
Proof.
  intros Hn HSn Hok Hi Hs He Ht. assert (Hlen : (i < length (tasks c))%nat) by (by apply lookup_lt_Some in Hi).
  assert (He' : shared w' = shared (the_world c) -> entries_ok (S n) (mkConfig w' (<[i := t']> (tasks c)))).
  { intros E k e. cbn [the_world]. rewrite E. intros H. by apply entry_ok_S, He. }
  destruct t as [op| |ch|q|q gen|q|q snap|q gen hs|hit gen hs]; cbn [task_step] in Hs; try done.
  - destruct (Nat.eqb_spec (readers (the_world c)) 0); [|done]. destruct (index_step op _) as [s changed]. injection Hs as <- <-.
    split; [by apply He'|by destruct changed].
  - injection Hs as <- <-. split; [by apply He'|done].
  - injection Hs as <- <-. split; [by apply He'|]. exists n, c, q. split; [|done]. repeat (split; [first [lia|done]|]).
    eexists. split; [exact HSn|]. cbn [tasks]. by rewrite list_lookup_insert_eq.
  - pose proof (get_gen_spec (from_query q) (Some gen) now (shared (the_world c))) as Hget.
    destruct (get_with_index_gen _ _ _ _) as [cc found]. injection Hs as <- <-. destruct Hget as [Hcc Hfound].
    split; [intros k e H; by apply entry_ok_S, He, Hcc|]. destruct Ht as (m & cm & q0 & Hb & -> & ->).
    destruct (cached_hits found) as [hs|] eqn:E; [|exists m, cm, q0; split; [by apply began_S|done]].
    apply hits_some in E as (b & -> & Hb'). destruct Hfound as (e & Hh & -> & _ & Hg). specialize (Hg _ eq_refl).
    destruct (He _ _ Hh) as (k & ck & q & Hk & Hck & Hq & Hgen & Hbody). rewrite Hbody in Hb'. apply (inj Some) in Hb' as <-.
    exists m, cm, q0, k, ck, q. split; [by apply began_S|]. split; [lia|]. split; [done|]. split; [done|]. split; [done|].
    split; [congruence|done].
  - injection Hs as <- <-. split; [by apply He'|]. destruct Ht as (m & cm & q0 & Hb & ->). exists m, cm, q0. split; [by apply began_S|done].
  - injection Hs as <- <-. split; [by apply He'|]. destruct Ht as (m & cm & q0 & Hb & ->). exists m, cm, q0. split; [by apply began_S|].
    split; [done|]. exists n, c. rewrite (ok_snapshot _ _ Hok i _ snap Hi). split; [destruct Hb as [? _]; lia|done].
  - injection Hs as <- <-. destruct Ht as (m & cm & q0 & Hb & -> & Hf).
    split; [|exists m, cm, q0; split; [by apply began_S|by apply fresh_S]].
    intros k e. cbn [the_world shared]. destruct (to_vec hs) as [bytes|] eqn:Eb; [|intros H; by apply entry_ok_S, He].
    unfold cache_put. cbn [cache]. intros [[-> ->]|H]%put_holds; [|by apply entry_ok_S, He].
    destruct Hf as (j & cj & Hj & Hcj & -> & ->). exists j, cj, (dg q0). split; [lia|]. split; [done|]. split; [done|]. split; [done|].
    by apply from_to_vec.
Qed.

Lemma everything_ok n c : tr !! n = Some c -> entries_ok n c /\ forall i t, tasks c !! i = Some t -> task_ok n i t.
Proof.
  revert c. induction n as [|n IH]; intros c Hc.
  - destruct Hrun as ((c0 & Hc0 & _ & _ & Hw & cap & tl & Hcache) & _). rewrite Hc0 in Hc. apply (inj Some) in Hc as <-. split.
    + intros k e H. rewrite Hcache in H. by apply new_holds in H.
    + intros i t Hi. apply list_elem_of_lookup_2 in Hi. apply (proj1 (Forall_forall _ _) Hw) in Hi. by destruct t.
  - destruct (tr !! n) as [c1|] eqn:E; [|apply lookup_ge_None in E; apply lookup_lt_Some in Hc; lia].
    destruct (IH c1 eq_refl) as [He Ht]. destruct run_ok as (total & _ & Hok). pose proof (Hok n c1 E) as Hok1.
    destruct Hrun as [_ Hsteps]. pose proof (Hsteps n c1 c E Hc) as Hs. destruct Hs as [i t now w ts w' t' Hi Hs].
    rewrite <- (ok_tasks _ _ Hok1) in Hok1. 
    destruct (moved_ok n (mkConfig w ts) i t now w' t' E Hc Hok1 Hi Hs He (Ht i t Hi)) as [He' Ht']. split; [exact He'|].
    intros j tj. cbn [tasks]. destruct (decide (j = i)) as [->|Hne].
    + rewrite list_lookup_insert_eq by (by apply lookup_lt_Some in Hi). by intros [= <-].
    + rewrite list_lookup_insert_ne by done. intros Hj. by apply task_ok_S, Ht.
Qed.

End Service_lemmas.

(** ** Freshness *)

Section Fresh.
Context {uu : UuidText} {nu : Nucleo} {L : Lru str CachedSearchResult} {HJ : HitJson}.

(** The hits of a query on the index of a configuration. *)
Definition searched (policy : GatewayPolicy) (c : @config L) (q : SearchQuery) : list (SearchHit CapabilityRecord) :=
  search_snapshot_hits_for_policy (snapshot (index (the_world c))) q policy.

(** C19: in any interleaving of searches and of mutations of the index, started with an empty
    cache, a search answers with the hits, on the index as it was at some moment of the run, of
    a query with the same cache key as its own (its own query when the answer was not cached);
    the index of that moment has every mutation whose revision bump was over when the search
    began. *)
Theorem cached_search_fresh (seed : Uuid) (policy : GatewayPolicy) (tr : list (@config L)) n c i hit g hs :
  is_run seed policy tr -> (forall c, tr !! 0%nat = Some c -> Z.of_nat (length (tasks c)) < 2 ^ 64) ->
  tr !! n = Some c -> tasks c !! i = Some (RDone hit g hs) ->
  exists m cm q0 k ck q,
    (m < n)%nat /\ tr !! m = Some cm /\ tasks cm !! i = Some (RStart q0) /\
    (k <= n)%nat /\ tr !! k = Some ck /\ g = generation_string seed (revision (the_world ck)) /\
    from_query q = from_query (apply_search_mode_downgrade q0) /\
    (if hit then hs = map wire_hit (searched policy ck q)
     else hs = searched policy ck q /\ q = apply_search_mode_downgrade q0 /\ (m <= k)%nat) /\
    forall j, tasks cm !! j = Some (WDone true) -> tasks ck !! j = Some (WDone true).
Proof.
  intros Hrun Hsize Hn Hi. destruct (everything_ok seed policy tr Hrun Hsize n c Hn) as [_ Ht]. specialize (Ht i _ Hi). destruct hit.
  - destruct Ht as (m & cm & q0 & k & ck & q & (Hm & Hcm & Hq0 & _) & Hk & Hck & Hkey & Hg1 & Hg2 & ->).
    exists m, cm, q0, k, ck, q. repeat (split; [done|]). apply (same_dones seed policy tr Hrun Hsize m k); [done..|].
    destruct (run_ok seed policy tr Hrun Hsize) as (total & Htotal & Hok).
    destruct (Hok m cm Hcm) as [T1 R1 _ _], (Hok k ck Hck) as [T2 R2 _ _].
    pose proof (dones_bound cm). pose proof (dones_bound ck). apply (generation_inj seed); [lia..|congruence].
  - destruct Ht as (m & cm & q0 & (Hm & Hcm & Hq0 & _) & k & ck & Hk & Hck & -> & ->).
    exists m, cm, q0, k, ck, (apply_search_mode_downgrade q0). split; [done|]. split; [done|]. split; [done|]. split; [lia|].
    repeat (split; [done|]). split; [by split; [|split; [|lia]]|]. intros j. by apply (done_stays seed policy tr Hrun m k); [lia|..].
Qed.

End Fresh.

(** ** Keys *)

Lemma split_join (c : Z) (l : list str) : l <> [] -> Forall (Forall (fun x => x <> c)) l -> split_char c (join_str [c] l) = l.
Proof.
  intros Hne H. induction H as [|s l Hs Hl IH]; [done|]. destruct l as [|s' l]; [cbn [join_str]; by apply split_char_absent|].
  change (join_str [c] (s :: s' :: l)) with (s ++ c :: join_str [c] (s' :: l)). specialize (IH ltac:(done)). clear Hne Hl. 
  induction Hs as [|x s Hx Hs IHs]; cbn [app split_char]; [by rewrite Z.eqb_refl, IH|].
  rewrite (proj2 (Z.eqb_neq x c)) by done. by rewrite IHs.
Qed.

Lemma join_inj (c : Z) (l l' : list str) :
  l <> [] -> l' <> [] -> Forall (Forall (fun x => x <> c)) l -> Forall (Forall (fun x => x <> c)) l' ->
  join_str [c] l = join_str [c] l' -> l = l'.
Proof. intros Hl Hl' Hs Hs' E. rewrite <- (split_join c l), <- (split_join c l') by done. by rewrite E. Qed.

Lemma join_no (c : Z) (sep : list Z) (l : list str) :
  Forall (fun x => x <> c) sep -> Forall (Forall (fun x => x <> c)) l -> Forall (fun x => x <> c) (join_str sep l).
Proof.
  intros Hsep H. induction H as [|s l Hs Hl IH]; [constructor|]. destruct l as [|s' l]; [done|].
  change (join_str sep (s :: s' :: l)) with (s ++ sep ++ join_str sep (s' :: l)). by repeat apply Forall_app_2.
Qed.

Lemma sorted_words_eq l l' : sort_by str_leb l = sort_by str_leb l' <-> l ≡ₚ l'.
Proof.
  assert (Ht : forall x y, str_leb x y = true \/ str_leb y x = true).
  { intros x y. unfold str_leb. rewrite !bool_decide_eq_true. apply (base.total str_le). }
  assert (Hr : forall x y z, str_leb x y = true -> str_leb y z = true -> str_leb x z = true).
  { intros x y z. unfold str_leb. rewrite !bool_decide_eq_true. by etrans. }
  split.
  - intros E. by rewrite <- (sort_by_perm str_leb l), <- (sort_by_perm str_leb l'), E.
  - intros E. apply (StronglySorted_unique_strong (fun x y => str_leb x y = true)); [|by apply sort_by_sorted..|by rewrite !sort_by_perm].
    intros x y _ _. unfold str_leb. rewrite !bool_decide_eq_true. apply str_le_antisym.
Qed.

Definition no_bar (s : str) : Prop := Forall (fun c => c <> 124) s.
Definition plain_word (s : str) : Prop := Forall (fun c => c <> 44) s /\ no_bar s.

Lemma words_field_perm l l' : l ≡ₚ l' -> words_field l = words_field l'.
Proof.
  intros E. unfold words_field. destruct l as [|x l]; [apply Permutation_nil_l in E; by subst l'|].
  destruct l' as [|x' l']; [by apply Permutation_nil_r in E|]. by rewrite (proj2 (sorted_words_eq _ _) E).
Qed.

Lemma words_field_eq l l' : Forall plain_word l -> Forall plain_word l' -> words_field l = words_field l' <-> l ≡ₚ l'.
Proof.
  intros Hl Hl'. split.
  - unfold words_field. destruct l as [|x l], l' as [|x' l']; try done. intros E. apply (inj Some) in E. apply sorted_words_eq.
    assert (Hs : forall y k, Forall plain_word (y :: k) -> sort_by str_leb (y :: k) <> [] /\ Forall (Forall (fun c => c <> 44)) (sort_by str_leb (y :: k))).
    { intros y k H. split; [intros E0; by pose proof (sort_by_length str_leb (y :: k)) as E1; rewrite E0 in E1|].
      apply Forall_forall. intros w Hw%elem_of_sort_by. by apply (proj1 (Forall_forall _ _) H). }
    destruct (Hs x l Hl), (Hs x' l' Hl'). by apply (join_inj 44).
  - apply words_field_perm.
Qed.

Lemma words_field_no_bar l v : Forall plain_word l -> words_field l = Some v -> no_bar v.
Proof.
  unfold words_field. destruct l as [|x l]; [done|]. intros H E. apply (inj Some) in E as <-. apply join_no; [repeat constructor; lia|].
  apply Forall_forall. intros w Hw%elem_of_sort_by. by apply (proj1 (Forall_forall _ _) H).
Qed.

Lemma print_u64_inj a b : in_u64 a -> in_u64 b -> print_u64 a = print_u64 b -> a = b.
Proof. intros Ha Hb E. apply (inj Some). by rewrite <- !print_u64_parse, E. Qed.

Lemma print_u64_no_bar a : in_u64 a -> no_bar (print_u64 a).
Proof.
  intros [H _]. pose proof (print_loop_digits 20 a H) as Hd. unfold digits in Hd. eapply Forall_impl; [exact Hd|]. cbn. lia.
Qed.

(** The parts tell which field each comes from. *)
Lemma parts_inj (l l' : list (str * option str)) :
  map fst l = map fst l' -> NoDup (map fst l) -> Forall (fun f => Forall (fun c => c <> 61) (fst f)) l -> omap part l = omap part l' -> l = l'.
Proof.
  assert (Hpart : forall t t' v v' : str, Forall (fun c => c <> 61) t -> Forall (fun c => c <> 61) t' -> t ++ [61] ++ v = t' ++ [61] ++ v' -> t = t' /\ v = v').
  { intros t t' v v' Ht Ht' E. pose proof (split_once_app 61 [] t v Ht) as H1. pose proof (split_once_app 61 [] t' v' Ht') as H2.
    rewrite E in H1. cbn [app] in *. rewrite H1 in H2. by injection H2. }
  assert (Hout : forall t v (l : list (str * option str)), Forall (fun c => c <> 61) t -> Forall (fun f => Forall (fun c => c <> 61) (fst f)) l ->
    t ∉ map fst l -> t ++ [61] ++ v ∉ omap part l).
  { intros t v k Ht Hk Hnot Hin. apply list_elem_of_omap in Hin as ([t' [v'|]] & Hin & E); [|done]. cbn in E. injection E as E.
    pose proof (proj1 (Forall_forall _ _) Hk _ Hin) as Ht'. symmetry in E. apply (Hpart t t' v v' Ht Ht') in E as [-> ->].
    apply Hnot. by apply (list_elem_of_fmap_2 fst _ (t', Some v')). }
  revert l'. induction l as [|[t o] l IH]; intros [|[t' o'] l'] Htags Hnd Hne E; try done. cbn in Htags. injection Htags as <- Htags.
  apply Forall_cons in Hne as [Ht Hne]. cbn [map fst] in Hnd. apply NoDup_cons in Hnd as [Hnot Hnd]. cbn [fst] in Ht.
  assert (Hne' : Forall (fun f : str * option str => Forall (fun c => c <> 61) (fst f)) l').
  { apply Forall_map. rewrite <- Htags. by apply Forall_map. }
  cbn [omap list_omap part fst snd] in E. destruct o as [v|], o' as [v'|]; cbn in E.
  - injection E as E1 E2. apply app_inv_head in E1. injection E1 as ->. f_equal. by apply IH.
  - exfalso. apply (Hout t v l'); [done..|by rewrite <- Htags|]. change (omap part l') with (list_omap _ _ part l') in *. rewrite <- E. by left.
  - exfalso. apply (Hout t v' l); [done..|]. rewrite E. by left.
  - f_equal. by apply IH.
Qed.

(** Queries that may share their answer: the order of the words of a list does not matter. *)
Record same_search (q q' : SearchQuery) : Prop := {
  same_query : query q = query q';
  same_dcc : q_dcc_type q = q_dcc_type q';
  same_dccs : dcc_types q ≡ₚ dcc_types q';
  same_instance : q_instance_id q = q_instance_id q';
  same_tags : q_tags q ≡ₚ q_tags q';
  same_any : tags_any q ≡ₚ tags_any q';
  same_excluded : exclude_tags q ≡ₚ exclude_tags q';
  same_loaded : loaded_only q = loaded_only q';
  same_scene : scene_hint q = scene_hint q';
  same_min : min_score q = min_score q';
  same_skill : skill_hint q = skill_hint q';
  same_or : or_queries q ≡ₚ or_queries q';
  same_limit : limit q = limit q';
  same_offset : offset q = offset q';
  same_mode : mode q = mode q';
}.

Definition opt_all {A} (P : A -> Prop) (o : option A) : Prop := match o with Some x => P x | None => True end.
Definition is_uuid (id : Uuid) : Prop := 0 <= id < 2 ^ 128.

(** No text has the separators of the key; the numbers are 64-bit. *)
Record clean_query (q : SearchQuery) : Prop := {
  clean_text : no_bar (query q);
  clean_dcc : opt_all no_bar (q_dcc_type q);
  clean_dccs : Forall plain_word (dcc_types q);
  clean_instance : opt_all is_uuid (q_instance_id q);
  clean_tags : Forall plain_word (q_tags q);
  clean_any : Forall plain_word (tags_any q);
  clean_excluded : Forall plain_word (exclude_tags q);
  clean_scene : opt_all no_bar (scene_hint q);
  clean_min : opt_all in_u64 (min_score q);
  clean_skill : opt_all no_bar (skill_hint q);
  clean_or : Forall plain_word (or_queries q);
  clean_limit : opt_all in_u64 (limit q);
  clean_offset : opt_all in_u64 (offset q);
}.

Lemma fmap_inj_on {A B} (P : A -> Prop) (f : A -> B) (o o' : option A) :
  (forall a b, P a -> P b -> f a = f b -> a = b) -> opt_all P o -> opt_all P o' -> f <$> o = f <$> o' -> o = o'.
Proof. intros Hf. destruct o as [a|], o' as [b|]; cbn; intros Ha Hb E; try done. injection E as E. f_equal. by apply Hf. Qed.

Section Keys.
Context {uu : UuidText}.
Context (hyphenated_inj : forall a b, is_uuid a -> is_uuid b -> hyphenated a = hyphenated b -> a = b)
  (hyphenated_text : forall a, is_uuid a -> no_bar (hyphenated a)).

Lemma fields_no_bar q : clean_query q -> Forall (fun f => opt_all no_bar (snd f)) (key_fields q).
Proof.
  assert (Hmap : forall {A} (P : A -> Prop) (f : A -> str) (o : option A), (forall a, P a -> no_bar (f a)) -> opt_all P o -> opt_all no_bar (f <$> o))
    by (intros A P f [a|] Hf Ha; [by apply Hf|done]).
  assert (Hwords : forall l, Forall plain_word l -> opt_all no_bar (words_field l))
    by (intros l Hl; destruct (words_field l) eqn:E; [by eapply words_field_no_bar|done]).
  intros []. unfold key_fields. rewrite !Forall_cons. cbn [snd opt_all].
  repeat split; eauto using print_u64_no_bar.
  - apply (Hmap _ (fun _ => True)); [|by destruct (loaded_only q)]. intros [] _; unfold no_bar; apply (bool_decide_unpack _); vm_compute; exact I.
  - unfold no_bar. destruct (mode q); apply (bool_decide_unpack _); vm_compute; exact I.
Qed.

Lemma parts_no_bar q : clean_query q -> Forall no_bar (omap part (key_fields q)).
Proof.
  intros Hq. apply Forall_forall. intros w Hw. apply list_elem_of_omap in Hw as ([t o] & Hin & E). unfold part in E. cbn [fst snd] in E.
  pose proof (proj1 (Forall_forall _ _) (fields_no_bar q Hq) _ Hin) as Hv. cbn [snd] in Hv.
  destruct o as [v|]; [|done]. apply (inj Some) in E as <-.
  assert (Htag : no_bar t) by (unfold key_fields in Hin; repeat (apply elem_of_cons in Hin as [[= -> _]|Hin]; [repeat constructor; lia|]); by apply elem_of_nil in Hin).
  apply Forall_app. split; [done|]. apply Forall_cons. split; [lia|done].
Qed.

(** Without the separators of the key in their texts, two queries have the same cache key
    exactly when they are the same up to the order of the words of their lists. *)
Theorem key_exact (q q' : SearchQuery) : clean_query q -> clean_query q' -> from_query q = from_query q' <-> same_search q q'.
Proof.
  intros Hq Hq'. split.
  - intros E. unfold from_query in E. apply (join_inj 124) in E; [|done|done|by apply parts_no_bar|by apply parts_no_bar].
    apply parts_inj in E; [|done|unfold key_fields; cbn [map fst]; apply (bool_decide_unpack _); vm_compute; exact I|unfold key_fields; repeat constructor; cbn; lia].
    destruct Hq, Hq'. unfold key_fields in E. injection E as E1 E2 E3 E4 E5 E6 E7 E8 E9 E10 E11 E12 E13 E14 E15.
    split; try done; try (by apply words_field_eq); try (by eapply (fmap_inj_on in_u64 print_u64); [apply print_u64_inj|..]).
    + by apply (fmap_inj_on is_uuid hyphenated).
    + apply (fmap_inj_on (fun _ => True) bool_display); [by intros [] []|by destruct (loaded_only q)|by destruct (loaded_only q')|done].
    + by destruct (mode q), (mode q').
  - intros [H1 H2 H3 H4 H5 H6 H7 H8 H9 H10 H11 H12 H13 H14 H15]. unfold from_query, key_fields. apply words_field_perm in H3, H5, H6, H7, H12.
    by rewrite H1, H2, H3, H4, H5, H6, H7, H8, H9, H10, H11, H12, H13, H14, H15.
Qed.

End Keys.

(** ** The policy *)

Section Policy.
Context {uu : UuidText} {nu : Nucleo} {L : Lru str CachedSearchResult} {HJ : HitJson}.

(** A search under a policy returns, in the order of the ranking, the allowed hits among
    those of the page asked for: the page is cut first, so that allowed hits after it are not
    returned even when the page is left with fewer hits than its limit. *)
Theorem policy_search_exact (snap : IndexSnapshot) (q : SearchQuery) (p : GatewayPolicy)
  (Hlen : Z.of_nat (length (snap_records snap)) < 2 ^ 32) (Hlimit : 0 <= default 0 (limit q)) (Hoffset : 0 <= default 0 (offset q)) :
  let ranked := rank_all (snap_records snap) q in
  let found := search_snapshot_hits_for_policy snap q p in
  sublist found ranked /\
  forall h, h ∈ found <-> allowed p OpSearch (hit_record h) = true /\
    exists i, ranked !! i = Some h /\ default 0 (offset q) <= Z.of_nat i < default 0 (offset q) + effective_limit (limit q).
Proof.
  cbv zeta. pose proof (rank_all_bound (snap_records snap) q) as Hb. pose proof (effective_limit_range q Hlimit) as [He _].
  assert (Hn : Z.of_nat (length (rank_all (snap_records snap) q)) < 2 ^ 32) by (clear - Hb Hlen; lia).
  destruct (paginate_hits (rank_all (snap_records snap) q) q None Hn Hoffset ltac:(clear - He; lia)) as [Hh _].
  unfold search_snapshot_hits_for_policy, snapshot_search, search, search_page. rewrite Hh. split.
  - etrans; [apply sublist_filter|]. etrans; [apply sublist_take|apply sublist_drop].
  - intros h. rewrite list_elem_of_filter. apply and_iff_compat_l. rewrite list_elem_of_lookup. split.
    + intros [i [Hi Hlt]%lookup_take_Some]. rewrite lookup_drop in Hi. eexists. split; [exact Hi|]. lia.
    + intros (i & Hi & Hr). exists (Nat.sub i (Z.to_nat (default 0%Z (offset q)))). apply lookup_take_Some. rewrite lookup_drop. split; [|lia].
      rewrite <- Hi. f_equal. lia.
Qed.

Lemma allowed_wire p op r : op <> OpCall -> allowed p op (wire_record r) = allowed p op r.
Proof. intros Hop. unfold allowed, enforce_record, wire_record. cbn. by rewrite (bool_decide_false (op = OpCall)) by done. Qed.

(** Whatever is cached and however searches and mutations interleave, no answer has a
    hit that the policy does not let a search show. *)
Theorem answers_allowed (seed : Uuid) (policy : GatewayPolicy) (tr : list (@config L)) n c i hit g hs h :
  is_run seed policy tr -> (forall c, tr !! 0%nat = Some c -> Z.of_nat (length (tasks c)) < 2 ^ 64) ->
  tr !! n = Some c -> tasks c !! i = Some (RDone hit g hs) -> h ∈ hs -> allowed policy OpSearch (hit_record h) = true.
Proof.
  intros Hrun Hsize Hn Hi Hh. destruct (everything_ok seed policy tr Hrun Hsize n c Hn) as [_ Ht]. specialize (Ht i _ Hi).
  assert (Hs : forall snap q, h ∈ search_snapshot_hits_for_policy snap q policy -> allowed policy OpSearch (hit_record h) = true)
    by (intros snap q Hin; by apply list_elem_of_filter in Hin as [? _]).
  destruct hit.
  - destruct Ht as (m & cm & q0 & k & ck & q & _ & _ & _ & _ & _ & _ & ->). apply list_elem_of_fmap in Hh as (h' & -> & Hin).
    cbn [wire_hit hit_record]. rewrite allowed_wire by done. by apply list_elem_of_filter in Hin as [? _].
  - destruct Ht as (m & cm & q0 & _ & k & ck & _ & _ & _ & ->). by eapply Hs.
Qed.

End Policy.

(** ** Sample instances *)

(** A cache as a list, the last used first, at most [capacity] entries. *)
Section List_lru.
Context {K V : Type} {dec : EqDecision K}.

Definition other (k : K) (e : K * V) : Prop := fst e <> k.
Definition ll_pop (k : K) (t : nat * list (K * V)) : nat * list (K * V) := (fst t, base.filter (other k) (snd t)).
Definition ll_find (k : K) (l : list (K * V)) : option (K * V) := head (base.filter (fun e => fst e = k) l).
Definition ll_get (k : K) (t : nat * list (K * V)) : (nat * list (K * V)) * option V :=
  match ll_find k (snd t) with
  | Some e => ((fst t, e :: base.filter (other k) (snd t)), Some (snd e))
  | None => (t, None)
  end.
Definition ll_put (k : K) (v : V) (t : nat * list (K * V)) : nat * list (K * V) := (fst t, take (fst t) ((k, v) :: base.filter (other k) (snd t))).

Lemma ll_find_elem k l e : ll_find k l = Some e -> fst e = k /\ e ∈ l.
Proof. unfold ll_find. intros H. apply head_Some_elem_of in H. by apply list_elem_of_filter in H. Qed.

#[export] Instance list_lru : Lru K V.
Proof.
  refine {| lru := nat * list (K * V); lru_new n := (n, []); lru_get := ll_get; lru_put := ll_put; lru_pop := ll_pop;
    lru_clear t := (fst t, []); holds t k v := (k, v) ∈ snd t |}.
  - intros n k v. apply not_elem_of_nil.
  - intros k [n l] k' v. unfold ll_get. destruct (ll_find k l) as [e|] eqn:E; cbn [fst snd]; rewrite E; [|done]. cbn [fst snd].
    intros [->|H]%elem_of_cons; [by apply ll_find_elem in E as [_ ?]|by apply list_elem_of_filter in H as [_ ?]].
  - intros k [n l] v. unfold ll_get. cbn [fst snd]. destruct (ll_find k l) as [e|] eqn:E; [|done]. cbn [snd]. intros [= <-].
    apply ll_find_elem in E as [<- ?]. by destruct e.
  - intros k v [n l] k' v' H. cbn [ll_put snd fst] in H. assert (Hi : (k', v') ∈ (k, v) :: base.filter (other k) l) by (by eapply elem_of_sublist, sublist_take).
    apply elem_of_cons in Hi as [[= -> ->]|Hi]; [by left|]. right. by apply list_elem_of_filter in Hi as [_ ?].
  - intros k [n l] k' v H. cbn in H. by apply list_elem_of_filter in H as [_ ?].
  - intros [n l] k v. apply not_elem_of_nil.
Defined.
End List_lru.

#[export] Instance hit_eq_dec : EqDecision (SearchHit CapabilityRecord).
Proof. solve_decision. Defined.

(** A serializer that knows one list of hits. *)
Definition table_json (known : list (SearchHit CapabilityRecord)) : HitJson.
Proof.
  refine {| to_vec l := if decide (l = known) then Some [91] else None; from_slice bytes := if decide (bytes = [91]) then Some (map wire_hit known) else None |}.
  intros l bytes. case_decide as H; [|done]. intros [= <-]. by subst l.
Defined.

(** ** Schedules *)

Section Play.
Context {uu : UuidText} {nu : Nucleo} {L : Lru str CachedSearchResult} {HJ : HitJson}.
Context (seed : Uuid) (policy : GatewayPolicy).

(** The run in which the given tasks move at the given times. *)
Fixpoint play (sched : list (nat * Z)) (c : @config L) : option (list (@config L)) :=
  match sched with
  | [] => Some [c]
  | (i, now) :: sched =>
      t ← tasks c !! i; '(w, t') ← task_step seed policy now t (the_world c);
      rest ← play sched (mkConfig w (<[i := t']> (tasks c))); Some (c :: rest)
  end.

Lemma play_steps sched c tr :
  play sched c = Some tr -> tr !! 0%nat = Some c /\ forall n a b, tr !! n = Some a -> tr !! S n = Some b -> cstep seed policy a b.
Proof.
  revert c tr. induction sched as [|[i now] sched IH]; intros c tr; cbn [play]; [intros [= <-]; split; [done|]; by intros [|n] a b|].
  destruct (tasks c !! i) as [t|] eqn:Ei; [|done]. cbn [mbind option_bind].
  destruct (task_step seed policy now t (the_world c)) as [[w t']|] eqn:Es; [|done]. cbn [mbind option_bind].
  destruct (play sched _) as [rest|] eqn:E; [|done]. cbn [mbind option_bind]. intros H. apply (inj Some) in H as <-.
  destruct (IH _ _ E) as [H0 Hn]. split; [done|]. intros [|n] a b Ha Hb; [|by apply (Hn n)]. cbn in Ha. change (rest !! 0%nat = Some b) in Hb. rewrite H0 in Hb.
  apply (inj Some) in Ha as <-, Hb as <-. destruct c as [w0 ts]. by eapply Cstep.
Qed.

Lemma play_run sched c tr : initial c -> play sched c = Some tr -> is_run seed policy tr.
Proof. intros Hc H. destruct (play_steps _ _ _ H) as [H0 Hs]. split; [by exists c|done]. Qed.

End Play.

(** ** Examples *)

Definition sphere_query : SearchQuery := plain_query (lit "sphere").
Definition render_policy : GatewayPolicy := mkPolicy false [] [] [] [tool_slug (lit "maya") maya_id (lit "delete")] [].

(** The instance's tools are stored while two agents ask for the same words; the second one
    is answered from the cache. *)
Definition upsert_rows : index_op := Upsert maya_id rows 7.
Definition start : @config list_lru :=
  mkConfig (mkWorld empty_index 0 0 (cache_new DEFAULT_CAPACITY DEFAULT_TTL)) [WIdle upsert_rows; RStart sphere_query; RStart sphere_query].
Definition schedule : list (nat * Z) :=
  [(0%nat, 1); (1%nat, 2); (0%nat, 3); (1%nat, 4); (1%nat, 5); (1%nat, 6); (1%nat, 7); (2%nat, 8); (2%nat, 9)].
Definition known_hits : list (SearchHit CapabilityRecord) :=
  search_snapshot_hits_for_policy (snapshot (fst (index_step upsert_rows empty_index))) sphere_query CapPolicy.default_policy.
Definition sample_run : list (@config list_lru) :=
  default [] (@play _ _ _ (table_json known_hits) maya_id CapPolicy.default_policy schedule start).

Lemma start_initial : initial start.
Proof. split; [done|]. split; [done|]. split; [|by exists DEFAULT_CAPACITY, DEFAULT_TTL]. by repeat constructor. Defined.

Lemma sample_is_run : @is_run _ _ _ (table_json known_hits) maya_id CapPolicy.default_policy sample_run.
Proof.
  apply (@play_run _ _ _ (table_json known_hits) maya_id CapPolicy.default_policy schedule start); [exact start_initial|]. unfold sample_run.
  assert (H : bool_decide (is_Some (@play _ _ _ (table_json known_hits) maya_id CapPolicy.default_policy schedule start)) = true)
    by (vm_compute; reflexivity).
  apply bool_decide_eq_true in H as [tr ->]. done.
Qed.

Lemma sample_length : (fun c => length (tasks c)) <$> sample_run !! 0%nat = Some 3%nat.
Proof. vm_compute. reflexivity. Qed.

Lemma sample_size : forall c : @config list_lru, sample_run !! 0%nat = Some c -> Z.of_nat (length (tasks c)) < 2 ^ 64.
Proof. intros c H. pose proof sample_length as L. rewrite H in L. cbn [fmap option_fmap option_map] in L. apply (inj Some) in L as ->. done. Qed.

Lemma last_state :
  (fun c => (fun t => match t with RDone h _ l => Some (h, map (fun x => backend_tool (hit_record x)) l) | _ => None end) <$> tasks c) <$> sample_run !! 9%nat =
    Some [None; Some (false, [lit "sphere"; lit "create_sphere"; lit "delete"]); Some (true, [lit "sphere"; lit "create_sphere"; lit "delete"])].
Proof. vm_compute. reflexivity. Qed.

Definition is_hit (t : task) : bool := match t with RDone true _ _ => true | _ => false end.

Lemma is_hit_true t : is_hit t = true -> exists g hs, t = RDone true g hs.
Proof. destruct t; try discriminate 1. destruct hit; [eauto|discriminate 1]. Qed.

Lemma sample_hit : (match sample_run !! 9%nat with Some c => is_hit <$> tasks c !! 2%nat | None => None end) = Some true.
Proof. vm_compute. reflexivity. Qed.

Lemma sample_answer : exists c g hs, sample_run !! 9%nat = Some c /\ tasks c !! 2%nat = Some (RDone true g hs).
Proof.
  pose proof sample_hit as B. destruct (sample_run !! 9%nat) as [c|]; [|discriminate B].
  destruct (tasks c !! 2%nat) as [t|] eqn:Hi; [|discriminate B]. apply (inj Some) in B. apply is_hit_true in B as (g & hs & ->). eauto.
Qed.

#[local] Instance SearchMode_eq_dec : EqDecision SearchMode.
Proof. solve_decision. Defined.
#[local] Instance SearchQuery_eq_dec : EqDecision SearchQuery.
Proof. solve_decision. Defined.

Definition waits_for (q : SearchQuery) (c : @config list_lru) : bool :=
  match tasks c !! 2%nat with Some (RStart q') => bool_decide (q' = q) | _ => true end.

Lemma sample_waits : forallb (waits_for sphere_query) sample_run = true.
Proof. vm_compute. reflexivity. Qed.

Lemma cached_search_fresh_witness :
  exists c g hs ck q, sample_run !! 9%nat = Some c /\ tasks c !! 2%nat = Some (RDone true g hs) /\ ck ∈ sample_run /\
    from_query q = from_query sphere_query /\ hs = map wire_hit (searched CapPolicy.default_policy ck q).
Proof.
  destruct sample_answer as (c & g & hs & Hc & Hi).
  destruct (@cached_search_fresh _ _ _ (table_json known_hits) maya_id CapPolicy.default_policy sample_run 9 c 2 true g hs sample_is_run sample_size Hc Hi)
    as (m & cm & q0 & k & ck & q & Hm & Hcm & Hq0 & Hk & Hck & _ & Hkey & Hhs & _).
  exists c, g, hs, ck, q. split; [exact Hc|]. split; [exact Hi|]. split; [by apply list_elem_of_lookup_2 in Hck|]. split; [|exact Hhs].
  apply list_elem_of_lookup_2 in Hcm. pose proof (proj1 (forallb_Forall _ _) sample_waits) as Hw. apply (proj1 (Forall_forall _ _) Hw) in Hcm.
  unfold waits_for in Hcm. rewrite Hq0 in Hcm. apply bool_decide_eq_true in Hcm. by rewrite Hkey, Hcm.
Defined.

Lemma answers_allowed_witness :
  exists c g hs, sample_run !! 9%nat = Some c /\ tasks c !! 2%nat = Some (RDone true g hs) /\
    forall h, h ∈ hs -> allowed CapPolicy.default_policy OpSearch (hit_record h) = true.
Proof.
  destruct sample_answer as (c & g & hs & Hc & Hi). exists c, g, hs. split; [exact Hc|]. split; [exact Hi|]. intros h Hh.
  exact (@answers_allowed _ _ _ (table_json known_hits) maya_id CapPolicy.default_policy sample_run 9 c 2 true g hs h sample_is_run sample_size Hc Hi Hh).
Defined.

(** The only allowed tool is third in the ranking: a page of two is empty. *)
Definition two_fuzzy : SearchQuery := mkQuery (lit "sphere") None [] None [] [] [] None None None None [] (Some 2) None Fuzzy.

Lemma policy_search_exact_witness :
  map (fun h => backend_tool (hit_record h)) (base.filter (fun h => allowed render_policy OpSearch (hit_record h) = true) (rank_all rows two_fuzzy)) = [lit "delete"] /\
  forall h, ~ h ∈ search_snapshot_hits_for_policy (mkSnapshot rows ∅) two_fuzzy render_policy.
Proof.
  split; [vm_compute; reflexivity|]. intros h.
  destruct (policy_search_exact (mkSnapshot rows ∅) two_fuzzy render_policy ltac:(vm_compute; done) ltac:(vm_compute; done) ltac:(vm_compute; done)) as [_ H].
  rewrite H. intros (Ha & i & Hi & Hr). change (0 <= Z.of_nat i < 0 + 2) in Hr. change (rank_all rows two_fuzzy !! i = Some h) in Hi.
  assert (Hall : Forall (fun h => allowed render_policy OpSearch (hit_record h) = false) (take 2 (rank_all rows two_fuzzy)))
    by (vm_compute; repeat first [apply Forall_nil_2|apply Forall_cons_2|reflexivity]).
  assert (Hlt : (i < 2)%nat) by (clear - Hr; lia).
  assert (Ht : take 2 (rank_all rows two_fuzzy) !! i = Some h) by (by rewrite lookup_take_lt).
  pose proof (Forall_lookup_1 _ _ i h Hall Ht) as Hf. cbv beta in Hf. rewrite Hf in Ha. discriminate Ha.
Defined.

(** The text of a sample identifier, digits apart. *)
Lemma dashed_split (d : str) :
  Forall (fun c => c <> 45) d ->
  split_char 45 (join_str [ch_dash] [take 8 d; take 4 (drop 8 d); take 4 (drop 12 d); take 4 (drop 16 d); drop 20 d]) =
    [take 8 d; take 4 (drop 8 d); take 4 (drop 12 d); take 4 (drop 16 d); drop 20 d].
Proof.
  intros Hd. apply split_join; [done|]. rewrite !Forall_cons. repeat split; auto using Forall_take, Forall_drop.
Qed.

Lemma five_parts (l : str) : l = take 8 l ++ take 4 (drop 8 l) ++ take 4 (drop 12 l) ++ take 4 (drop 16 l) ++ drop 20 l.
Proof.
  assert (H : forall n, drop n l = take 4 (drop n l) ++ drop (n + 4) l) by (intros n; by rewrite <- drop_drop, take_drop).
  pose proof (H 8%nat) as H8. pose proof (H 12%nat) as H12. pose proof (H 16%nat) as H16. cbn [Nat.add] in *.
  by rewrite <- H16, <- H12, <- H8, take_drop.
Qed.

Lemma sample_digits (P : Z -> Prop) a : (forall c, in_range 48 57 c || in_range 97 102 c = true -> P c) -> Forall P (hex_digits 32 a).
Proof. intros HP. eapply Forall_impl; [exact (proj2 (hex_digits_spec 32 a))|exact HP]. Qed.

Lemma sample_hyphenated_inj (a b : Uuid) : is_uuid a -> is_uuid b -> hyphenated a = hyphenated b -> a = b.
Proof.
  intros Ha Hb E. apply (f_equal (split_char 45)) in E. cbn [hyphenated sample_uuids] in E. cbv zeta in E.
  assert (Hd : forall c, in_range 48 57 c || in_range 97 102 c = true -> c <> 45) by (unfold in_range; lia).
  rewrite !dashed_split in E by (by apply sample_digits). apply (hex_digits_inj 32); [exact Ha|exact Hb|].
  rewrite (five_parts (hex_digits 32 a)), (five_parts (hex_digits 32 b)). 
  revert E. generalize (hex_digits 32 a) as d, (hex_digits 32 b) as d'. intros d d' E. injection E as E1 E2 E3 E4 E5. congruence.
Qed.

Lemma sample_hyphenated_text (a : Uuid) : is_uuid a -> no_bar (hyphenated a).
Proof.
  intros _. cbn [hyphenated sample_uuids]. cbv zeta.
  assert (Hd : Forall (fun c => c <> 124) (hex_digits 32 a)) by (apply sample_digits; unfold in_range; lia).
  revert Hd. generalize (hex_digits 32 a) as d. intros d Hd. apply join_no; [apply (bool_decide_unpack _); vm_compute; exact I|].
  rewrite !Forall_cons. repeat split; auto using Forall_take, Forall_drop.
Qed.

Definition tagged (l : list str) (o : option Z) (text : str) : SearchQuery :=
  mkQuery text None [] None l [] [] None None None None [] None o Fuzzy.

Lemma tagged_clean l o text : Forall plain_word l -> opt_all in_u64 o -> no_bar text -> clean_query (tagged l o text).
Proof. by split. Qed.

Lemma key_exact_witness :
  from_query (tagged [lit "rig"; lit "anim"] (Some 5) (lit "walk")) = from_query (tagged [lit "anim"; lit "rig"] (Some 5) (lit "walk")) /\
  from_query (tagged [lit "rig"; lit "anim"] (Some 5) (lit "walk")) <> from_query (tagged [lit "rig"; lit "anim"] None (lit "walk")).
Proof.
  assert (Hw : Forall plain_word [lit "rig"; lit "anim"]) by (repeat apply Forall_cons_2; try apply Forall_nil_2; split; apply (bool_decide_unpack _); vm_compute; exact I).
  assert (Ht : no_bar (lit "walk")) by (apply (bool_decide_unpack _); vm_compute; exact I).
  assert (H5 : opt_all in_u64 (Some 5)) by (unfold in_u64, u64_max; cbn; lia).
  split.
  - apply (key_exact sample_hyphenated_inj sample_hyphenated_text); [by apply tagged_clean|apply tagged_clean; [by rewrite (Permutation_swap (lit "rig") (lit "anim") [])|done..]|].
    split; try done. apply Permutation_swap.
  - intros E. apply (key_exact sample_hyphenated_inj sample_hyphenated_text) in E; [|by apply tagged_clean..]. by destruct E.
Defined.

(** A bar in the words: two queries that differ share their key, and so their cached hits. *)
Example keys_collide : from_query (tagged [] None (lit "walk|o=5")) = from_query (tagged [] (Some 5) (lit "walk")).
Proof. vm_compute. reflexivity. Qed.
