(* ===== verification/ActionRegistry.v ===== *)
(** The registry of tools: [dcc-mcp-actions/src/registry/] ([meta.rs], [mod.rs]).

    A [DashMap] is a [gmap]; where the code iterates over one, the order is the class
    [HashOrder].  A method is atomic. *)

From S2P Require Import Prelude Text Json Naming.

(** ** Metadata *)

(** [dcc-mcp-models/src/skill_metadata/execution.rs]. *)
Inductive ThreadAffinity : Type := AnyThread | MainThread.

#[export] Instance affinity_eq_dec : EqDecision ThreadAffinity.
Proof. solve_decision. Defined.

(** [ToolMeta], the fields that this crate reads; the annotations are the JSON they are
    serialized to. *)
Record ToolMeta : Type := mkMeta {
  name : str;
  description : str;
  category : str;
  tags : list str;
  search_aliases : list str;
  dcc : str;
  input_schema : Value;
  skill_name : option str;
  group : str;
  enabled : bool;
  thread_affinity : ThreadAffinity;
  enforce_thread_affinity : bool;
  annotations : Value;
}.

Definition with_enabled (b : bool) (m : ToolMeta) : ToolMeta :=
  mkMeta (name m) (description m) (category m) (tags m) (search_aliases m) (dcc m) (input_schema m) (skill_name m) (group m) b
    (thread_affinity m) (enforce_thread_affinity m) (annotations m).

(** [impl RegistryEntry for ToolMeta]. *)
Definition search_tags (m : ToolMeta) : list str :=
  base.filter (fun t => t <> []) ([name m; category m; dcc m; description m] ++ tags m ++ search_aliases m).

(** ** The registry *)

Definition ANY_DCC : str := lit "any".

Record ToolRegistry : Type := mkRegistry {
  actions : gmap str ToolMeta;
  dcc_actions : gmap str (gmap str ToolMeta);
}.

Definition registry_new : ToolRegistry := mkRegistry ∅ ∅.

Definition is_valid_tool (m : ToolMeta) : bool := match validate_tool_name (name m) with Ok _ => true | Err _ => false end.

Definition register_action (m : ToolMeta) (r : ToolRegistry) : ToolRegistry :=
  if is_valid_tool m then
    mkRegistry (<[name m := m]> (actions r))
      (<[dcc m := <[name m := m]> (default ∅ (dcc_actions r !! dcc m))]> (dcc_actions r))
  else r.

(** The entry of one DCC. *)
Definition dcc_entry (r : ToolRegistry) (d n : str) : option ToolMeta := m ← dcc_actions r !! d; m !! n.

Definition get_action (n : str) (dcc_name : option str) (r : ToolRegistry) : option ToolMeta :=
  match dcc_name with
  | Some d =>
      let exact := dcc_entry r d n in
      if bool_decide (is_Some exact) || bool_decide (d = ANY_DCC) then exact else dcc_entry r ANY_DCC n
  | None => actions r !! n
  end.

(** The tools in scope, by name: those of the DCC over those of [any]. *)
Definition scoped (dcc_name : option str) (r : ToolRegistry) : gmap str ToolMeta :=
  match dcc_name with
  | Some d =>
      let any := default ∅ (dcc_actions r !! ANY_DCC) in
      if bool_decide (d = ANY_DCC) then any else default ∅ (dcc_actions r !! d) ∪ any
  | None => actions r
  end.

Definition meta_matches (category_filter : option str) (wanted : list str) (m : ToolMeta) : bool :=
  match category_filter with
  | Some c => bool_decide (c = []) || bool_decide (category m = c)
  | None => true
  end && forallb (fun t => bool_decide (t ∈ tags m)) wanted.

(** [Vec::dedup]. *)
Fixpoint dedup (l : list str) : list str :=
  match l with
  | [] => []
  | x :: l' => match dedup l' with (y :: _) as l'' => if bool_decide (x = y) then l'' else x :: l'' | [] => [x] end
  end.

Definition str_le_bool (a b : str) : bool := bool_decide (str_le a b).

Section Lists.
Context {HO : HashOrder ToolMeta}.

Definition list_actions (dcc_name : option str) (r : ToolRegistry) : list ToolMeta := map snd (hash_order (scoped dcc_name r)).
Definition list_actions_for_dcc (d : str) (r : ToolRegistry) : list str := map name (list_actions (Some d) r).
Definition search_actions (category_filter : option str) (wanted : list str) (dcc_name : option str) (r : ToolRegistry) : list ToolMeta :=
  base.filter (fun m => meta_matches category_filter wanted m = true) (list_actions dcc_name r).
Definition count_actions (category_filter : option str) (wanted : list str) (dcc_name : option str) (r : ToolRegistry) : nat :=
  length (search_actions category_filter wanted dcc_name r).
Definition get_categories (dcc_name : option str) (r : ToolRegistry) : list str :=
  dedup (sort_by str_le_bool (map category (base.filter (fun m => category m <> []) (list_actions dcc_name r)))).
Definition get_tags (dcc_name : option str) (r : ToolRegistry) : list str :=
  dedup (sort_by str_le_bool (flat_map tags (list_actions dcc_name r))).
Definition list_actions_enabled (dcc_name : option str) (r : ToolRegistry) : list ToolMeta :=
  base.filter (fun m => enabled m = true) (list_actions dcc_name r).
Definition list_actions_by_skill (s : str) (r : ToolRegistry) : list ToolMeta :=
  base.filter (fun m => skill_name m = Some s) (list_actions None r).
Definition list_actions_in_group (g : str) (r : ToolRegistry) : list ToolMeta :=
  base.filter (fun m => group m = g) (list_actions None r).

(** [impl Registry<ToolMeta>::search]. *)
Definition registry_search (query : str) (limit : option nat) (r : ToolRegistry) : list ToolMeta :=
  let q := to_ascii_lowercase_str query in
  let results := base.filter (fun m => existsb (fun t => contains q (to_ascii_lowercase_str t)) (search_tags m) = true) (list_actions None r) in
  match limit with Some n => take n results | None => results end.

(** [list_groups]: each name once, in the order of the table. *)
Definition list_groups (r : ToolRegistry) : list str :=
  foldl (fun seen m => if bool_decide (group m = []) || bool_decide (group m ∈ seen) then seen else seen ++ [group m]) [] (list_actions None r).

(** ** Removal *)

Definition unregister (n : str) (dcc_name : option str) (r : ToolRegistry) : ToolRegistry * bool :=
  match dcc_name with
  | Some d =>
      let removed := bool_decide (is_Some (dcc_entry r d n)) in
      let dccs := alter (base.delete n) d (dcc_actions r) in
      let still_referenced := existsb (fun dm => bool_decide (is_Some (snd dm !! n))) (map_to_list dccs) in
      (mkRegistry (if still_referenced then actions r else base.delete n (actions r)) dccs, removed)
  | None =>
      (mkRegistry (base.delete n (actions r)) (base.delete (M := gmap str ToolMeta) n <$> dcc_actions r), bool_decide (is_Some (actions r !! n)))
  end.

Definition unregister_skill (s : str) (r : ToolRegistry) : ToolRegistry * nat :=
  let names := map fst (base.filter (fun e => skill_name (snd e) = Some s) (hash_order (actions r))) in
  (foldl (fun r n => fst (unregister n None r)) r names, length names).

Definition register_batch (l : list ToolMeta) (r : ToolRegistry) : ToolRegistry := foldl (fun r m => register_action m r) r l.

(** ** Flags *)

(** Sets the flag of the entries that satisfy [p] and do not have it; how many of the
    global ones changed. *)
Definition set_where (p : ToolMeta -> bool) (b : bool) (r : ToolRegistry) : ToolRegistry * nat :=
  let change m := p m && negb (Bool.eqb (enabled m) b) in
  let set m := if change m then with_enabled b m else m in
  (mkRegistry (set <$> actions r) (fmap (M := gmap str) set <$> dcc_actions r),
   size (base.filter (B := gmap str ToolMeta) (fun e => change (snd e) = true) (actions r))).

Definition set_group_enabled (g : str) (b : bool) (r : ToolRegistry) : ToolRegistry * nat :=
  set_where (fun m => bool_decide (group m = g)) b r.
Definition set_skill_group_enabled (s g : str) (b : bool) (r : ToolRegistry) : ToolRegistry * nat :=
  set_where (fun m => bool_decide (skill_name m = Some s) && bool_decide (group m = g)) b r.
Definition set_action_enabled (n : str) (b : bool) (r : ToolRegistry) : ToolRegistry * bool :=
  match actions r !! n with
  | None => (r, false)
  | Some _ => (mkRegistry (alter (with_enabled b) n (actions r)) (alter (M := gmap str ToolMeta) (with_enabled b) n <$> dcc_actions r), true)
  end.

(** ** Calls *)

Inductive reg_op : Type :=
| Register (m : ToolMeta)
| RegisterBatch (l : list ToolMeta)
| Unregister (n : str) (dcc_name : option str)
| UnregisterSkill (s : str)
| ResetAll
| SetGroup (g : str) (b : bool)
| SetSkillGroup (s g : str) (b : bool)
| SetAction (n : str) (b : bool).

(** The registry after a call, and what it returns ([1] for [true]). *)
Definition reg_step (op : reg_op) (r : ToolRegistry) : ToolRegistry * nat :=
  match op with
  | Register m => (register_action m r, 0)
  | RegisterBatch l => (register_batch l r, 0)
  | Unregister n d => let '(r, b) := unregister n d r in (r, Nat.b2n b)
  | UnregisterSkill s => unregister_skill s r
  | ResetAll => (registry_new, 0)
  | SetGroup g b => set_group_enabled g b r
  | SetSkillGroup s g b => set_skill_group_enabled s g b r
  | SetAction n b => let '(r, ok) := set_action_enabled n b r in (r, Nat.b2n ok)
  end.

Definition reg_run (ops : list reg_op) : ToolRegistry := foldl (fun r op => fst (reg_step op r)) registry_new ops.

End Lists.

(** ** What the registry stores *)

(** The tools of each DCC by name, and what was registered last under each name. *)
Record tool_table : Type := mkTable { by_dcc : gmap (str * str) ToolMeta; latest : gmap str ToolMeta }.

Definition other_name (n : str) (e : (str * str) * ToolMeta) : Prop := snd (fst e) <> n.
Definition of_skill (s : str) (e : str * ToolMeta) : Prop := skill_name (snd e) = Some s.
Definition name_outside (gone : gmap str ToolMeta) (e : (str * str) * ToolMeta) : Prop := ~ is_Some (gone !! snd (fst e)).

#[export] Instance other_name_dec n e : Decision (other_name n e).
Proof. unfold other_name. apply _. Defined.
#[export] Instance of_skill_dec s e : Decision (of_skill s e).
Proof. unfold of_skill. apply _. Defined.
#[export] Instance name_outside_dec gone e : Decision (name_outside gone e).
Proof. unfold name_outside. apply _. Defined.

Definition table_register (t : tool_table) (m : ToolMeta) : tool_table :=
  if is_valid_tool m then mkTable (<[(dcc m, name m) := m]> (by_dcc t)) (<[name m := m]> (latest t)) else t.

Definition table_flag (p : ToolMeta -> bool) (b : bool) (t : tool_table) : tool_table * nat :=
  let set m := if p m then with_enabled b m else m in
  (mkTable (set <$> by_dcc t) (set <$> latest t),
   size (base.filter (B := gmap str ToolMeta) (fun e => p (snd e) = true /\ enabled (snd e) <> b) (latest t))).

Definition table_step (op : reg_op) (t : tool_table) : tool_table * nat :=
  match op with
  | Register m => (table_register t m, 0)
  | RegisterBatch l => (foldl table_register t l, 0)
  | Unregister n (Some d) =>
      let rest := base.delete (d, n) (by_dcc t) in
      (mkTable rest (if bool_decide (map_Forall (fun k _ => snd k <> n) rest) then base.delete n (latest t) else latest t),
       Nat.b2n (bool_decide (is_Some (by_dcc t !! (d, n)))))
  | Unregister n None =>
      (mkTable (base.filter (other_name n) (by_dcc t)) (base.delete n (latest t)), Nat.b2n (bool_decide (is_Some (latest t !! n))))
  | UnregisterSkill s =>
      let gone := base.filter (of_skill s) (latest t) in
      (mkTable (base.filter (name_outside gone) (by_dcc t)) (latest t ∖ gone), size gone)
  | ResetAll => (mkTable ∅ ∅, 0)
  | SetGroup g b => table_flag (fun m => bool_decide (group m = g)) b t
  | SetSkillGroup s g b => table_flag (fun m => bool_decide (skill_name m = Some s) && bool_decide (group m = g)) b t
  | SetAction n b =>
      (mkTable (map_imap (fun k m => Some (if bool_decide (snd k = n) then with_enabled b m else m)) (by_dcc t))
         (alter (with_enabled b) n (latest t)),
       Nat.b2n (bool_decide (is_Some (latest t !! n))))
  end.

Record stores (r : ToolRegistry) (t : tool_table) : Prop := {
  st_latest : latest t = actions r;
  st_dcc d n : by_dcc t !! (d, n) = dcc_entry r d n;
  st_known n : is_Some (actions r !! n) <-> exists d, is_Some (dcc_entry r d n);
  st_named d n m : dcc_entry r d n = Some m -> name m = n /\ dcc m = d /\ validate_tool_name n = Ok tt;
  st_global n m : actions r !! n = Some m -> name m = n /\ validate_tool_name n = Ok tt;
}.

Lemma valid_tool m : is_valid_tool m = true <-> validate_tool_name (name m) = Ok tt.
Proof. unfold is_valid_tool. destruct (validate_tool_name (name m)) as [[]|e]; split; done. Qed.

Lemma dcc_entry_register m r d n :
  is_valid_tool m = true -> dcc_entry (register_action m r) d n = if bool_decide ((dcc m, name m) = (d, n)) then Some m else dcc_entry r d n.
Proof.
  intros Hv. unfold register_action, dcc_entry. rewrite Hv. cbn [dcc_actions].
  destruct (decide (dcc m = d)) as [<-|Hd].
  - rewrite lookup_insert_eq. cbn [mbind option_bind]. destruct (decide (name m = n)) as [<-|Hn].
    + by rewrite lookup_insert_eq, bool_decide_true.
    + rewrite lookup_insert_ne, bool_decide_false by congruence. by destruct (dcc_actions r !! dcc m).
  - rewrite lookup_insert_ne, bool_decide_false by congruence. done.
Qed.

Lemma register_stores m r t : stores r t -> stores (register_action m r) (table_register t m).
Proof.
  intros [H1 H2 H3 H4 H5]. unfold table_register. destruct (is_valid_tool m) eqn:Hv; [|unfold register_action; rewrite Hv; by split].
  pose proof (proj1 (valid_tool m) Hv) as Hname.
  assert (Ha : actions (register_action m r) = <[name m := m]> (actions r)) by (unfold register_action; by rewrite Hv).
  split; cbn [latest by_dcc].
  - by rewrite Ha, H1.
  - intros d n. rewrite dcc_entry_register by done. case_bool_decide as E; [by rewrite E, lookup_insert_eq|by rewrite lookup_insert_ne].
  - intros n. rewrite Ha. destruct (decide (name m = n)) as [<-|Hn].
    + rewrite lookup_insert_eq. split; [|done]. intros _. exists (dcc m). rewrite dcc_entry_register, bool_decide_true by done. done.
    + rewrite lookup_insert_ne, H3 by done. apply exist_proper. intros d. rewrite dcc_entry_register, bool_decide_false by congruence. done.
  - intros d n m'. rewrite dcc_entry_register by done. case_bool_decide as E; [|apply H4]. intros [= <-]. by injection E as <- <-.
  - intros n m'. rewrite Ha. intros [[<- <-]|[_ E]]%lookup_insert_Some; [done|by apply H5].
Qed.

Lemma dcc_entry_alter (r : ToolRegistry) (a : gmap str ToolMeta) g d n d' :
  dcc_entry (mkRegistry a (alter (base.delete n) d (dcc_actions r))) d' g =
    if bool_decide (d = d' /\ n = g) then None else dcc_entry r d' g.
Proof.
  unfold dcc_entry. cbn [dcc_actions]. destruct (decide (d = d')) as [<-|Hd].
  - rewrite lookup_alter_eq. destruct (dcc_actions r !! d) as [M|]; cbn; [|by case_bool_decide].
    destruct (decide (n = g)) as [<-|Hn]; [by rewrite lookup_delete_eq, bool_decide_true|].
    rewrite lookup_delete_ne, bool_decide_false by tauto. done.
  - rewrite lookup_alter_ne, bool_decide_false by tauto. done.
Qed.

Lemma dcc_entry_fmap (r : ToolRegistry) (a : gmap str ToolMeta) (f : gmap str ToolMeta -> gmap str ToolMeta) d n :
  dcc_entry (mkRegistry a (f <$> dcc_actions r)) d n = m ← dcc_actions r !! d; f m !! n.
Proof. unfold dcc_entry. cbn [dcc_actions]. rewrite lookup_fmap. by destruct (dcc_actions r !! d). Qed.

Lemma dcc_entry_delete (r : ToolRegistry) (a : gmap str ToolMeta) g d n :
  dcc_entry (mkRegistry a (base.delete (M := gmap str ToolMeta) n <$> dcc_actions r)) d g = if bool_decide (n = g) then None else dcc_entry r d g.
Proof.
  rewrite dcc_entry_fmap. unfold dcc_entry. destruct (dcc_actions r !! d) as [M|]; cbn; [|by case_bool_decide].
  case_bool_decide as E; [subst g; apply lookup_delete_eq|by apply lookup_delete_ne].
Qed.

(** A sub-table: the entries whose names are kept. *)
Lemma stores_delete r t n :
  stores r t -> stores (fst (unregister n None r)) (mkTable (base.filter (other_name n) (by_dcc t)) (base.delete n (latest t))).
Proof.
  intros [H1 H2 H3 H4 H5]. cbn [unregister fst]. split; cbn [latest by_dcc actions].
  - by rewrite H1.
  - intros d g. rewrite dcc_entry_delete. case_bool_decide as E.
    + subst g. apply map_lookup_filter_None. right. intros m _ Hn. by apply Hn.
    + rewrite <- H2. apply option_eq. intros m. rewrite map_lookup_filter_Some. unfold other_name. cbn. split; [by intros [? _]|intros ?; split; congruence].
  - intros g. destruct (decide (n = g)) as [<-|Hn].
    + rewrite lookup_delete_eq. split; [by intros [??]|]. intros (d & Hd). rewrite dcc_entry_delete, bool_decide_true in Hd by done. by destruct Hd.
    + rewrite lookup_delete_ne, H3 by done. apply exist_proper. intros d. by rewrite dcc_entry_delete, bool_decide_false.
  - intros d g m. rewrite dcc_entry_delete. case_bool_decide; [done|]. apply H4.
  - intros g m [_ E]%lookup_delete_Some. by apply H5.
Qed.

Lemma referenced_iff (m : gmap str (gmap str ToolMeta)) n :
  existsb (fun dm => bool_decide (is_Some (snd dm !! n))) (map_to_list m) = true <-> exists d M, m !! d = Some M /\ is_Some (M !! n).
Proof.
  rewrite existsb_exists. split.
  - intros ([d M] & Hin & H). apply list_elem_of_In, elem_of_map_to_list in Hin. apply bool_decide_eq_true in H. by exists d, M.
  - intros (d & M & Hd & H). exists (d, M). split; [by apply list_elem_of_In, elem_of_map_to_list|]. by apply bool_decide_eq_true.
Qed.

Lemma entry_iff (r : ToolRegistry) d n : is_Some (dcc_entry r d n) <-> exists M, dcc_actions r !! d = Some M /\ is_Some (M !! n).
Proof.
  unfold dcc_entry. destruct (dcc_actions r !! d) as [M|]; cbn; [|split; [by intros [??]|by intros (? & ? & _)]].
  split; [by exists M|]. by intros (M' & [= <-] & H).
Qed.

Lemma stores_delete_one r t d n :
  stores r t -> stores (fst (unregister n (Some d) r)) (fst (table_step (Unregister n (Some d)) t)) /\
    Nat.b2n (snd (unregister n (Some d) r)) = snd (table_step (Unregister n (Some d)) t).
Proof.
  intros [H1 H2 H3 H4 H5]. cbn [unregister table_step fst snd]. rewrite <- H2. split; [|done].
  set (dccs := alter (base.delete n) d (dcc_actions r)). set (rest := base.delete (d, n) (by_dcc t)).
  set (r' := mkRegistry (actions r) dccs).
  assert (He : forall d' g, dcc_entry r' d' g = rest !! (d', g)).
  { intros d' g. unfold r', dccs, rest. rewrite dcc_entry_alter. case_bool_decide as E.
    - destruct E as [-> ->]. by rewrite lookup_delete_eq.
    - rewrite lookup_delete_ne by (intros [= -> ->]; by apply E). by rewrite H2. }
  assert (Href : existsb (fun dm => bool_decide (is_Some (snd dm !! n))) (map_to_list dccs) = negb (bool_decide (map_Forall (fun k _ => snd k <> n) rest))).
  { apply eq_true_iff_eq. rewrite referenced_iff, negb_true_iff, bool_decide_eq_false. split.
    - intros (d' & M & Hd' & Hm) Hall. assert (Hs : is_Some (dcc_entry r' d' n)) by (apply entry_iff; by exists M). rewrite He in Hs.
      destruct Hs as [m Hs]. by apply (Hall _ _ Hs).
    - intros Hnot. apply map_not_Forall in Hnot as ([d' g] & m & Hm & Hn); [|apply _]. cbn in Hn. apply dec_stable in Hn. subst g.
      rewrite <- He in Hm. assert (Hs : is_Some (dcc_entry r' d' n)) by (by exists m). by apply entry_iff in Hs as (M & ? & ?); exists d', M. }
  assert (Hsub : forall d' g m, rest !! (d', g) = Some m -> dcc_entry r d' g = Some m) by (intros d' g m [_ E]%lookup_delete_Some; by rewrite <- H2).
  assert (Hkept : forall g, g <> n -> (exists d', is_Some (rest !! (d', g))) <-> exists d', is_Some (dcc_entry r d' g)).
  { intros g Hg. apply exist_proper. intros d'. unfold rest. by rewrite lookup_delete_ne, H2 by congruence. }
  rewrite Href, H1. clear Href. set (all := map_Forall (fun k _ => snd k <> n) rest).
  assert (He' : forall A d' g, dcc_entry (mkRegistry A dccs) d' g = rest !! (d', g)) by (intros A; exact He).
  split; cbn [latest by_dcc actions].
  - by case_bool_decide.
  - intros d' g. by rewrite He'.
  - intros g. setoid_rewrite He'. destruct (decide (g = n)) as [->|Hg].
    + case_bool_decide as Hall; cbn [negb].
      * rewrite lookup_delete_eq. split; [by intros [??]|]. intros (d' & m & Hm). by apply Hall in Hm.
      * apply map_not_Forall in Hall as ([d' g] & m & Hm & Hn); [|apply _]. cbn in Hn. apply dec_stable in Hn. subst g. rewrite H3. split; intros _; [by exists d', m|].
        exists d', m. by apply Hsub.
    + rewrite Hkept, <- H3 by done. case_bool_decide; cbn [negb]; [by rewrite lookup_delete_ne|done].
  - intros d' g m. rewrite He'. intros Hm. by apply H4, Hsub.
  - intros g m. case_bool_decide; cbn [negb]; [intros [_ E]%lookup_delete_Some|]; by apply H5.
Qed.

(** Several names at once. *)
Lemma unregister_all_state l r :
  let r' := foldl (fun r n => fst (unregister n None r)) r l in
  (forall n, actions r' !! n = if bool_decide (n ∈ l) then None else actions r !! n) /\
  (forall d n, dcc_entry r' d n = if bool_decide (n ∈ l) then None else dcc_entry r d n).
Proof.
  cbv zeta. revert r. induction l as [|x l IH]; intros r; [split; intros; by rewrite bool_decide_false by apply not_elem_of_nil|].
  cbn [foldl]. destruct (IH (fst (unregister x None r))) as [IH1 IH2]. split; [intros n; rewrite IH1|intros d n; rewrite IH2].
  - cbn [unregister fst actions]. rewrite (bool_decide_ext (n ∈ x :: l) (n = x \/ n ∈ l)) by apply elem_of_cons.
    destruct (decide (n ∈ l)) as [Hl|Hl]; [by rewrite !bool_decide_true by tauto|]. rewrite (bool_decide_false (n ∈ l)) by done.
    destruct (decide (n = x)) as [->|Hx]; [by rewrite bool_decide_true, lookup_delete_eq by tauto|].
    by rewrite bool_decide_false, lookup_delete_ne by (congruence || tauto).
  - cbn [unregister fst]. rewrite dcc_entry_delete, (bool_decide_ext (n ∈ x :: l) (n = x \/ n ∈ l)) by apply elem_of_cons.
    destruct (decide (n ∈ l)) as [Hl|Hl]; [by rewrite !bool_decide_true by tauto|]. rewrite (bool_decide_false (n ∈ l)) by done.
    destruct (decide (n = x)) as [->|Hx]; [by rewrite !bool_decide_true by tauto|]. by rewrite !bool_decide_false by (congruence || tauto).
Qed.

Lemma stores_keep r t r' t' (keep : str -> bool) :
  stores r t -> (forall n, actions r' !! n = if keep n then actions r !! n else None) ->
  (forall d n, dcc_entry r' d n = if keep n then dcc_entry r d n else None) ->
  latest t' = actions r' -> (forall d n, by_dcc t' !! (d, n) = if keep n then by_dcc t !! (d, n) else None) -> stores r' t'.
Proof.
  intros [H1 H2 H3 H4 H5] Ha Hd Hl Hb. split; [done|..].
  - intros d n. by rewrite Hb, Hd, H2.
  - intros n. setoid_rewrite Hd. rewrite Ha. destruct (keep n); [apply H3|]. split; [by intros [??]|by intros (d & ? & ?)].
  - intros d n m. rewrite Hd. destruct (keep n); [apply H4|done].
  - intros n m. rewrite Ha. destruct (keep n); [apply H5|done].
Qed.

(** An update of every entry that depends on its name only. *)
Lemma stores_update r t r' t' (f : str -> ToolMeta -> ToolMeta) :
  (forall n m, name (f n m) = name m /\ dcc (f n m) = dcc m) ->
  stores r t -> (forall n, actions r' !! n = f n <$> actions r !! n) -> (forall d n, dcc_entry r' d n = f n <$> dcc_entry r d n) ->
  latest t' = actions r' -> (forall d n, by_dcc t' !! (d, n) = f n <$> by_dcc t !! (d, n)) -> stores r' t'.
Proof.
  intros Hf [H1 H2 H3 H4 H5] Ha Hd Hl Hb. split; [done|..].
  - intros d n. by rewrite Hb, Hd, H2.
  - intros n. rewrite Ha, fmap_is_Some, H3. apply exist_proper. intros d. by rewrite Hd, fmap_is_Some.
  - intros d n m. rewrite Hd. intros (m' & H & ->)%fmap_Some. destruct (Hf n m') as [-> ->]. by apply H4.
  - intros n m. rewrite Ha. intros (m' & H & ->)%fmap_Some. destruct (Hf n m') as [-> _]. by apply H5.
Qed.

Lemma set_where_stores p b r t :
  stores r t -> stores (fst (set_where p b r)) (fst (table_flag p b t)) /\ snd (set_where p b r) = snd (table_flag p b t).
Proof.
  intros Hst. pose proof Hst as [H1 H2 H3 H4 H5].
  set (change := fun m => p m && negb (Bool.eqb (enabled m) b)).
  assert (Hset : forall m, (if p m then with_enabled b m else m) = if change m then with_enabled b m else m).
  { intros m. unfold change. destruct (p m); [|done]. destruct (Bool.eqb (enabled m) b) eqn:E; [|done]. apply eqb_prop in E.
    subst b. by destruct m. }
  split.
  - apply (stores_update r t _ _ (fun _ m => if change m then with_enabled b m else m)); [intros _ m; by destruct (change m)|done|..].
    + intros n. cbn [set_where fst actions]. cbv zeta. by rewrite lookup_fmap.
    + intros d n. cbn [set_where fst]. cbv zeta. rewrite dcc_entry_fmap. unfold dcc_entry. destruct (dcc_actions r !! d); [|done]. cbn. by rewrite lookup_fmap.
    + cbn [table_flag set_where fst latest actions]. cbv zeta. rewrite H1. apply map_fmap_ext. intros n m _. apply Hset.
    + intros d n. cbn [table_flag fst by_dcc]. rewrite lookup_fmap. destruct (by_dcc t !! (d, n)); [|done]. cbn. by rewrite Hset.
  - cbn [set_where table_flag snd]. rewrite H1. f_equal. apply map_filter_ext. intros n m _. cbn [snd].
    rewrite andb_true_iff, negb_true_iff, eqb_false_iff. done.
Qed.

Section Refinement.
Context {HO : HashOrder ToolMeta}.

Definition table_run (ops : list reg_op) : tool_table := foldl (fun t op => fst (table_step op t)) (mkTable ∅ ∅) ops.

Lemma skill_names_spec s r :
  let names := map fst (base.filter (fun e => skill_name (snd e) = Some s) (hash_order (actions r))) in
  let gone := base.filter (of_skill s) (actions r) in
  (forall n, n ∈ names <-> is_Some (gone !! n)) /\ length names = size gone.
Proof.
  cbv zeta. assert (Hp : base.filter (fun e => skill_name (snd e) = Some s) (hash_order (actions r)) ≡ₚ map_to_list (base.filter (of_skill s) (actions r))).
  { rewrite hash_order_perm. apply NoDup_Permutation.
    - apply NoDup_filter, NoDup_map_to_list.
    - apply NoDup_map_to_list.
    - intros [n m]. rewrite list_elem_of_filter, !elem_of_map_to_list, map_lookup_filter_Some. unfold of_skill. cbn. tauto. }
  split.
  - intros n. rewrite list_elem_of_fmap. setoid_rewrite Hp. split.
    + intros ([n' m] & -> & Hin). apply elem_of_map_to_list in Hin. by exists m.
    + intros [m Hm]. exists (n, m). split; [done|]. by apply elem_of_map_to_list.
  - rewrite length_map, Hp. apply length_map_to_list.
Qed.

Lemma unregister_skill_stores s r t :
  stores r t -> stores (fst (unregister_skill s r)) (fst (table_step (UnregisterSkill s) t)) /\
    snd (unregister_skill s r) = snd (table_step (UnregisterSkill s) t).
Proof.
  intros Hst. pose proof (st_latest _ _ Hst) as H1. cbn [table_step fst snd]. rewrite H1. unfold unregister_skill. cbn [fst snd].
  destruct (skill_names_spec s r) as [Hn Hlen]. set (names := map fst _) in *. set (gone := base.filter (of_skill s) (actions r)) in *.
  destruct (unregister_all_state names r) as [Ha Hd]. split; [|done].
  apply (stores_keep r t _ _ (fun n => negb (bool_decide (is_Some (gone !! n))))); [done|..].
  - intros n. rewrite Ha, (bool_decide_ext (n ∈ names) (is_Some (gone !! n))) by apply Hn. by case_bool_decide.
  - intros d n. rewrite Hd, (bool_decide_ext (n ∈ names) (is_Some (gone !! n))) by apply Hn. by case_bool_decide.
  - cbn [latest]. apply map_eq. intros n. rewrite Ha, (bool_decide_ext (n ∈ names) (is_Some (gone !! n))) by apply Hn. rewrite lookup_difference.
    case_bool_decide as E; [by destruct E as [m ->]|by apply eq_None_not_Some in E as ->].
  - intros d n. cbn [by_dcc]. case_bool_decide as E; cbn [negb].
    + apply map_lookup_filter_None. right. intros m _ H. by apply H.
    + apply option_eq. intros m. rewrite map_lookup_filter_Some. unfold name_outside. cbn. tauto.
Qed.

Lemma set_action_stores n b r t :
  stores r t -> stores (fst (set_action_enabled n b r)) (fst (table_step (SetAction n b) t)) /\
    Nat.b2n (snd (set_action_enabled n b r)) = snd (table_step (SetAction n b) t).
Proof.
  intros Hst. pose proof Hst as [H1 H2 H3 H4 H5]. cbn [table_step fst snd]. rewrite H1. unfold set_action_enabled.
  set (f := fun (g : str) m => if bool_decide (g = n) then with_enabled b m else m).
  assert (Hf : forall g m, name (f g m) = name m /\ dcc (f g m) = dcc m) by (intros g m; unfold f; by case_bool_decide).
  assert (Halter : forall (m : gmap str ToolMeta) g, alter (with_enabled b) n m !! g = f g <$> m !! g).
  { intros m g. unfold f. destruct (decide (g = n)) as [->|Hg].
    - rewrite bool_decide_true by done. apply lookup_alter_eq.
    - rewrite bool_decide_false, lookup_alter_ne by congruence. by destruct (m !! g). }
  assert (Himap : forall d g, map_imap (fun k m => Some (if bool_decide (snd k = n) then with_enabled b m else m)) (by_dcc t) !! (d, g) = f g <$> by_dcc t !! (d, g)).
  { intros d g. rewrite map_lookup_imap. by destruct (by_dcc t !! (d, g)). }
  destruct (actions r !! n) as [m|] eqn:E; cbn [fst snd].
  - split; [|by rewrite bool_decide_true]. apply (stores_update r t _ _ f Hf Hst); [|..|done|done].
    + intros g. cbn [actions]. apply Halter.
    + intros d g. rewrite dcc_entry_fmap. unfold dcc_entry. destruct (dcc_actions r !! d); [|done]. apply Halter.
  - split; [|by rewrite bool_decide_false by (by intros [??])].
    assert (Hnone : forall d, dcc_entry r d n = None).
    { intros d. apply eq_None_not_Some. intros H. assert (Hs : is_Some (actions r !! n)) by (apply H3; by exists d). rewrite E in Hs. by destruct Hs. }
    apply (stores_update r t _ _ f Hf Hst); [| |cbn [latest]|done].
    + intros g. unfold f. destruct (decide (g = n)) as [->|]; [by rewrite E|]. rewrite bool_decide_false by done. by destruct (actions r !! g).
    + intros d g. unfold f. destruct (decide (g = n)) as [->|]; [by rewrite Hnone|]. rewrite bool_decide_false by done. by destruct (dcc_entry r d g).
    + apply map_eq. intros g. rewrite Halter. unfold f. destruct (decide (g = n)) as [->|]; [by rewrite E|].
      rewrite bool_decide_false by done. by destruct (actions r !! g).
Qed.

Lemma empty_stores : stores registry_new (mkTable ∅ ∅).
Proof.
  assert (He : forall d n, dcc_entry registry_new d n = None) by (intros d n; unfold dcc_entry; cbn; by rewrite lookup_empty).
  split; cbn [latest by_dcc actions].
  - done.
  - intros d n. by rewrite He, lookup_empty.
  - intros n. cbn. rewrite lookup_empty. split; [by intros [??]|]. intros (d & m & H). by rewrite He in H.
  - intros d n m H. by rewrite He in H.
  - intros n m H. cbn in H. by rewrite lookup_empty in H.
Qed.

Lemma step_stores op r t :
  stores r t -> stores (fst (reg_step op r)) (fst (table_step op t)) /\ snd (reg_step op r) = snd (table_step op t).
Proof.
  intros Hst. destruct op as [m|l|n [d|]|s| |g b|s g b|n b]; cbn [reg_step].
  - split; [|done]. by apply register_stores.
  - split; [|done]. cbn [table_step fst]. unfold register_batch. revert r t Hst.
    induction l as [|m l IH]; intros r t Hst; [done|]. cbn [foldl]. by apply IH, register_stores.
  - destruct (stores_delete_one r t d n Hst) as [H1 H2]. destruct (unregister n (Some d) r). by split.
  - pose proof (stores_delete r t n Hst) as H. cbn [unregister table_step fst snd] in *. split; [done|]. by rewrite (st_latest _ _ Hst).
  - by apply unregister_skill_stores.
  - split; [apply empty_stores|done].
  - by apply set_where_stores.
  - by apply set_where_stores.
  - destruct (set_action_stores n b r t Hst) as [H1 H2]. destruct (set_action_enabled n b r). by split.
Qed.

Lemma run_stores ops : stores (reg_run ops) (table_run ops).
Proof.
  induction ops as [|op ops IH] using rev_ind.
  - apply empty_stores.
  - unfold reg_run, table_run in *. rewrite !foldl_app. cbn [foldl]. by apply step_stores.
Qed.

(** C28: whatever calls a registry has had, it holds, for each DCC and name, the tool registered
    there and not removed since, and, for each name that some DCC has, what was registered
    last under it: with the flags as they were set. Every further call returns what these
    two tables say. *)
Theorem registry_refines (ops : list reg_op) (op : reg_op) (n : str) (d : str) :
  let r := reg_run ops in
  let t := table_run ops in
  get_action n None r = latest t !! n /\
  get_action n (Some d) r = (if bool_decide (is_Some (by_dcc t !! (d, n))) then by_dcc t !! (d, n) else by_dcc t !! (ANY_DCC, n)) /\
  (is_Some (latest t !! n) <-> exists d, is_Some (by_dcc t !! (d, n))) /\
  snd (reg_step op r) = snd (table_step op t).
Proof.
  cbv zeta. pose proof (run_stores ops) as Hst. pose proof Hst as [H1 H2 H3 _ _]. split; [by rewrite H1|]. split; [|split].
  - cbn [get_action]. rewrite !H2. case_bool_decide as E; cbn [orb]; [done|]. case_bool_decide as Ed; [by subst d|done].
  - rewrite H1, H3. apply exist_proper. intros d'. by rewrite H2.
  - by apply step_stores.
Qed.

End Refinement.

(** ** Listings *)

Lemma dedup_spec l :
  StronglySorted (fun x y => str_le_bool x y = true) l ->
  StronglySorted (fun x y => str_le x y /\ x <> y) (dedup l) /\ forall x, x ∈ dedup l <-> x ∈ l.
Proof.
  induction 1 as [|x l Hl [IH1 IH2] Hx]; [split; [constructor|reflexivity]|]. cbn [dedup].
  assert (Hle : Forall (fun y => str_le x y) (dedup l)).
  { apply Forall_forall. intros y Hy%IH2. apply (proj1 (Forall_forall _ _) Hx) in Hy. by apply bool_decide_eq_true in Hy. }
  destruct (dedup l) as [|y l'] eqn:E.
  - split; [repeat constructor|]. intros z. rewrite !elem_of_cons, <- IH2. reflexivity.
  - case_bool_decide as Exy.
    + subst y. split; [exact IH1|]. intros z. rewrite IH2, elem_of_cons, <- IH2, elem_of_cons. tauto.
    + split; [|intros z; rewrite (elem_of_cons _ z x), (elem_of_cons _ z x), IH2; tauto]. constructor; [exact IH1|].
      apply Forall_cons in Hle as [Hxy Hle]. constructor; [done|]. apply StronglySorted_inv in IH1 as [_ Hy].
      apply Forall_forall. intros z Hz. apply (proj1 (Forall_forall _ _) Hy) in Hz as [Hyz Hne]. split; [by etrans|].
      intros ->. apply Hne. by apply str_le_antisym.
Qed.

Section Listings.
Context {HO : HashOrder ToolMeta}.

Lemma scoped_lookup dcc_name r n : scoped dcc_name r !! n = get_action n dcc_name r.
Proof.
  destruct dcc_name as [d|]; [|done]. cbn [scoped get_action]. unfold dcc_entry.
  case_bool_decide as Ed; [rewrite orb_true_r; subst d; by destruct (dcc_actions r !! ANY_DCC)|]. rewrite orb_false_r, lookup_union.
  destruct (dcc_actions r !! d) as [M|], (dcc_actions r !! ANY_DCC) as [A|]; cbn; rewrite ?lookup_empty;
    try (destruct (M !! n)); try (destruct (A !! n)); done.
Qed.

Lemma get_action_name ops dcc_name n m : get_action n dcc_name (reg_run ops) = Some m -> name m = n.
Proof.
  pose proof (run_stores ops) as [_ _ _ H4 H5]. destruct dcc_name as [d|]; cbn [get_action]; [|apply H5].
  destruct (_ || _); intros H; by apply H4 in H as [? _].
Qed.

Lemma sorted_words (l : list str) : StronglySorted (fun x y => str_le_bool x y = true) (sort_by str_le_bool l).
Proof.
  apply sort_by_sorted; unfold str_le_bool.
  - intros x y. rewrite !bool_decide_eq_true. apply (base.total str_le).
  - intros x y z. rewrite !bool_decide_eq_true. by etrans.
Qed.

(** What is listed is what can be looked up: in a scope, a tool is listed exactly when a
    lookup of its name in that scope returns it, each name once, and a filtered list has
    exactly the listed tools that satisfy the filter; the categories and the tags are those
    of the listed tools, in strictly increasing order. *)
Theorem listing_exact (ops : list reg_op) (dcc_name : option str) :
  let r := reg_run ops in
  let cats := get_categories dcc_name r in
  let words := get_tags dcc_name r in
  NoDup (map name (list_actions dcc_name r)) /\
  (forall m, m ∈ list_actions dcc_name r <-> get_action (name m) dcc_name r = Some m) /\
  (forall c wanted m, m ∈ search_actions c wanted dcc_name r <->
     m ∈ list_actions dcc_name r /\ (forall x, c = Some x -> x = [] \/ category m = x) /\ forall t, t ∈ wanted -> t ∈ tags m) /\
  StronglySorted (fun x y => str_le x y /\ x <> y) cats /\
  (forall c, c ∈ cats <-> c <> [] /\ exists m, m ∈ list_actions dcc_name r /\ category m = c) /\
  StronglySorted (fun x y => str_le x y /\ x <> y) words /\
  (forall t, t ∈ words <-> exists m, m ∈ list_actions dcc_name r /\ t ∈ tags m).
Proof.
  cbv zeta. set (r := reg_run ops).
  assert (Hin : forall m, m ∈ list_actions dcc_name r <-> get_action (name m) dcc_name r = Some m).
  { intros m. unfold list_actions. rewrite list_elem_of_fmap. setoid_rewrite hash_order_perm. split.
    - intros ([n m'] & -> & H). apply elem_of_map_to_list in H. cbn [snd]. rewrite scoped_lookup in H. by rewrite (get_action_name ops _ _ _ H).
    - intros H. exists (name m, m). split; [done|]. apply elem_of_map_to_list. by rewrite scoped_lookup. }
  split; [|split; [done|]].
  { unfold list_actions. rewrite hash_order_perm, map_map.
    replace (map (fun e => name (snd e)) (map_to_list (scoped dcc_name r))) with (map fst (map_to_list (scoped dcc_name r))); [apply NoDup_fst_map_to_list|].
    apply map_ext_in. intros [n m] H. apply list_elem_of_In, elem_of_map_to_list in H. rewrite scoped_lookup in H. cbn. symmetry. by apply (get_action_name ops dcc_name). }
  split; [|split; [|split; [|split]]].
  - intros c wanted m. unfold search_actions. rewrite list_elem_of_filter. unfold meta_matches. rewrite andb_true_iff, forallb_forall.
    assert (H1 : match c with Some c => bool_decide (c = []) || bool_decide (category m = c) | None => true end = true <->
      forall x, c = Some x -> x = [] \/ category m = x).
    { destruct c as [x|]; [|by split]. rewrite orb_true_iff, !bool_decide_eq_true. split; [by intros H y [= <-]|by intros H; apply H]. }
    assert (H2 : (forall t, In t wanted -> bool_decide (t ∈ tags m) = true) <-> forall t, t ∈ wanted -> t ∈ tags m).
    { setoid_rewrite bool_decide_eq_true. split; intros H t Ht; apply H; by apply list_elem_of_In. }
    rewrite H1, H2. tauto.
  - apply dedup_spec, sorted_words.
  - intros c. unfold get_categories. rewrite (proj2 (dedup_spec _ (sorted_words _))), elem_of_sort_by, list_elem_of_fmap.
    setoid_rewrite list_elem_of_filter. split; [by intros (m & -> & H & Hm); split; [|exists m]|]. intros (Hc & m & Hm & <-). by exists m.
  - apply dedup_spec, sorted_words.
  - intros t. unfold get_tags. rewrite (proj2 (dedup_spec _ (sorted_words _))), elem_of_sort_by.
    rewrite list_elem_of_In, in_flat_map. setoid_rewrite <- list_elem_of_In. done.
Qed.

End Listings.

(** ** Examples *)

Definition sample_tool (n d g : string) (skill : option string) : ToolMeta :=
  mkMeta (lit n) (lit "A tool.") (lit "geometry") [lit "mesh"] [] (lit d) Null (option_map lit skill) (lit g) true AnyThread false Null.

(** The tool of the last DCC stays in the global table after it left that DCC. *)
Example stale_global :
  let ops := [Register (sample_tool "sphere" "blender" "" None); Register (sample_tool "sphere" "maya" "" None);
              Unregister (lit "sphere") (Some (lit "maya"))] in
  dcc <$> get_action (lit "sphere") None (reg_run ops) = Some (lit "maya") /\
  get_action (lit "sphere") (Some (lit "maya")) (reg_run ops) = None.
Proof. split; vm_compute; reflexivity. Qed.

(** Unloading a skill removes the tool of another skill that has the same name, and leaves
    its own when the other one was loaded last. *)
Example skill_takes_other :
  let ops := [Register (sample_tool "sphere" "blender" "" (Some "b"%string)); Register (sample_tool "sphere" "maya" "" (Some "m"%string))] in
  get_action (lit "sphere") (Some (lit "blender")) (reg_run (ops ++ [UnregisterSkill (lit "m")])) = None /\
  (skill_name <$> get_action (lit "sphere") (Some (lit "blender")) (reg_run (ops ++ [UnregisterSkill (lit "b")]))) = Some (Some (lit "b")).
Proof. split; vm_compute; reflexivity. Qed.
