(* ===== verification/ActionValidator.v ===== *)
(** Validation of the parameters of a tool: [dcc-mcp-actions/src/validator/mod.rs] and
    [validation_strategy.rs], with [is_default_schema] of [dispatcher.rs].  Then its
    theorems. *)

From Stdlib Require Import SpecFloat.
From S2P Require Import Prelude Json Text ActionRegistry.

Local Open Scope Z_scope.

(** ** Types *)

Definition is_u64 (v : Value) : bool := match as_u64 v with Some _ => true | None => false end.
Definition is_i64 (v : Value) : bool := match as_i64 v with Some _ => true | None => false end.
Definition is_f64 (v : Value) : bool := match v with Num (Float _) => true | _ => false end.

Definition one_type (value : Value) (t : str) : bool :=
  if bool_decide (t = lit "string") then is_string value
  else if bool_decide (t = lit "number") then is_f64 value || is_i64 value || is_u64 value
  else if bool_decide (t = lit "integer") then is_i64 value || is_u64 value
  else if bool_decide (t = lit "boolean") then is_boolean value
  else if bool_decide (t = lit "array") then is_array value
  else if bool_decide (t = lit "object") then is_object value
  else if bool_decide (t = lit "null") then is_null value
  else true.

Definition type_matches (value : Value) (expected : list str) : bool := existsb (one_type value) expected.

Definition json_type_name (value : Value) : str :=
  match value with
  | Null => lit "null"
  | Bool _ => lit "boolean"
  | Num n => if is_f64 (Num n) then lit "number" else lit "integer"
  | Str _ => lit "string"
  | Array _ => lit "array"
  | Object _ => lit "object"
  end.

Definition expected_types (o : JsonMap) : list str :=
  match json_get (lit "type") o with
  | Some (Str s) => [s]
  | Some (Array l) => omap as_str l
  | _ => []
  end.

Definition type_ok (value : Value) (o : JsonMap) : bool :=
  match expected_types o with [] => true | expected => type_matches value expected end.

(** ** Errors *)

Record ValidationError : Type := mkError { path : str; message : str }.

(** The texts of numbers and of lists of words in messages. *)
Class ErrorText : Type := {
  display_f64 : spec_float -> str;
  debug_words : list str -> str;
  error_json :: JsonText;
}.

Section Validator.
Context {et : ErrorText}.

Definition when (b : bool) (p m : str) : list ValidationError := if b then [mkError p m] else [].

Definition enum_errors (p : str) (value : Value) (o : JsonMap) : list ValidationError :=
  match json_get (lit "enum") o with
  | Some (Array variants) =>
      when (negb (existsb (fun v => value_eqb v value) variants)) p
        (lit "value must be one of: " ++ join_str (lit ", ") (map json_to_string variants))
  | _ => []
  end.

Definition string_errors (p : str) (value : Value) (o : JsonMap) : list ValidationError :=
  match value with
  | Str s =>
      let n := Z.of_nat (length s) in
      match json_get (lit "maxLength") o ≫= as_u64 with
      | Some max => when (max <? n) p (lit "string length " ++ print_u64 n ++ lit " exceeds maxLength " ++ print_u64 max)
      | None => []
      end ++
      match json_get (lit "minLength") o ≫= as_u64 with
      | Some min => when (n <? min) p (lit "string length " ++ print_u64 n ++ lit " is less than minLength " ++ print_u64 min)
      | None => []
      end
  | _ => []
  end.

Definition number_errors (p : str) (value : Value) (o : JsonMap) : list ValidationError :=
  match as_f64 value with
  | Some n =>
      match json_get (lit "minimum") o ≫= as_f64 with
      | Some min => when (f64_lt n min) p (display_f64 n ++ lit " is less than minimum " ++ display_f64 min)
      | None => []
      end ++
      match json_get (lit "maximum") o ≫= as_f64 with
      | Some max => when (f64_gt n max) p (display_f64 n ++ lit " exceeds maximum " ++ display_f64 max)
      | None => []
      end
  | None => []
  end.

Definition length_errors (p : str) (value : Value) (o : JsonMap) : list ValidationError :=
  match value with
  | Array l =>
      let n := Z.of_nat (length l) in
      match json_get (lit "minItems") o ≫= as_u64 with
      | Some min => when (n <? min) p (lit "array length " ++ print_u64 n ++ lit " is less than minItems " ++ print_u64 min)
      | None => []
      end ++
      match json_get (lit "maxItems") o ≫= as_u64 with
      | Some max => when (max <? n) p (lit "array length " ++ print_u64 n ++ lit " exceeds maxItems " ++ print_u64 max)
      | None => []
      end
  | _ => []
  end.

Definition has_key (k : str) (m : JsonMap) : bool := bool_decide (k ∈ map fst m).

Definition required_errors (p : str) (m o : JsonMap) : list ValidationError :=
  match json_get (lit "required") o with
  | Some (Array required) =>
      flat_map (fun field => when (negb (has_key field m)) p (lit "missing required field '" ++ field ++ lit "'")) (omap as_str required)
  | _ => []
  end.

Definition known_props (o : JsonMap) : list str :=
  match json_get (lit "properties") o with Some (Object props) => map fst props | _ => [] end.

Definition additional_errors (p : str) (m o : JsonMap) : list ValidationError :=
  match json_get (lit "additionalProperties") o with
  | Some (Bool false) =>
      flat_map (fun key => when (negb (bool_decide (key ∈ known_props o))) p (lit "unexpected additional property '" ++ key ++ lit "'")) (map fst m)
  | _ => []
  end.

Definition item_path (p : str) (i : nat) : str := p ++ lit "[" ++ print_u64 (Z.of_nat i) ++ lit "]".
Definition key_path (p key : str) : str := p ++ lit "." ++ key.

Fixpoint validate_value (p : str) (value schema : Value) : list ValidationError :=
  match schema with
  | Object o =>
      if type_ok value o then
        enum_errors p value o ++ string_errors p value o ++ number_errors p value o ++ length_errors p value o ++
        match value with
        | Array l =>
            match json_get (lit "items") o with
            | Some items =>
                (fix go i l := match l with [] => [] | x :: l => validate_value (item_path p i) x items ++ go (S i) l end) 0%nat l
            | None => []
            end
        | Object m =>
            required_errors p m o ++
            match json_get (lit "properties") o with
            | Some (Object props) =>
                flat_map (fun kv => match json_get (fst kv) props with Some sub => validate_value (key_path p (fst kv)) (snd kv) sub | None => [] end) m
            | _ => []
            end ++
            additional_errors p m o
        | _ => []
        end
      else [mkError p (lit "expected type " ++ debug_words (expected_types o) ++ lit ", got " ++ json_type_name value)]
  | _ => []
  end.

(** [ToolValidator::validate_input]. *)
Definition validate_input (meta : ToolMeta) (params : Value) : list ValidationError := validate_value (lit "params") params (input_schema meta).

(** [ValidationResult::into_result]. *)
Definition into_result (errors : list ValidationError) : result str unit :=
  match errors with
  | [] => Ok tt
  | _ => Err (join_str (lit "; ") (map (fun e => path e ++ lit ": " ++ message e) errors))
  end.

(** ** Strategies *)

Definition constraint_keys : list str :=
  [lit "anyOf"; lit "oneOf"; lit "allOf"; lit "not"; lit "if"; lit "then"; lit "else"; lit "enum"; lit "const"].

Definition is_default_schema (schema : Value) : bool :=
  match schema with
  | Object o =>
      if match json_get (lit "required") o with Some (Array l) => negb (length l =? 0)%nat | _ => false end then false
      else if match json_get (lit "properties") o with Some (Object m) => negb (length m =? 0)%nat | _ => false end then false
      else negb (existsb (fun k => has_key k o) constraint_keys)
  | _ => false
  end.

Definition is_empty_schema (schema : Value) : bool :=
  is_null schema || match schema with Object [] => true | _ => false end || is_default_schema schema.

(** [select_strategy(meta, skip).validate(params)]: whether the check was skipped. *)
Definition strategy_validate (meta : option ToolMeta) (skip : bool) (params : Value) : result str bool :=
  match meta with
  | None => Ok true
  | Some meta =>
      if is_empty_schema (input_schema meta) && skip then Ok true
      else match into_result (validate_input meta params) with Ok _ => Ok false | Err e => Err e end
  end.

End Validator.

(** ** Theorems *)

(** ** Induction over the parts of a value *)

Definition is_part (x v : Value) : Prop := match v with Array l => x ∈ l | Object m => exists k, (k, x) ∈ m | _ => False end.

Lemma value_parts_ind (P : Value -> Prop) : (forall v, (forall x, is_part x v -> P x) -> P v) -> forall v, P v.
Proof.
  intros H v. induction v as [|b|n|s|l IH|m IH] using value_ind'; apply H; try done.
  - intros x Hx. by apply (proj1 (Forall_forall _ _) IH).
  - intros x [k Hx]. by apply (proj1 (Forall_forall _ _) IH (k, x)).
Qed.

(** ** What a schema asks of a value and of its parts *)

Inductive pstep : Type := Item (i : nat) | Key (k : str).

Definition path_step (p : str) (s : pstep) : str := match s with Item i => item_path p i | Key k => key_path p k end.

(** [visits v s st v' s']: the part of [v] found by following [st] is [v'], and the schema
    [s] asks of it what [s'] says. *)
Inductive visits : Value -> Value -> list pstep -> Value -> Value -> Prop :=
| Visit_here v s : visits v s [] v s
| Visit_item l o items i x st v' s' :
    type_ok (Array l) o = true -> json_get (lit "items") o = Some items -> l !! i = Some x -> visits x items st v' s' ->
    visits (Array l) (Object o) (Item i :: st) v' s'
| Visit_key m o props k x sub st v' s' :
    type_ok (Object m) o = true -> json_get (lit "properties") o = Some (Object props) -> (k, x) ∈ m -> json_get k props = Some sub ->
    visits x sub st v' s' -> visits (Object m) (Object o) (Key k :: st) v' s'.

(** What a schema asks of a value, its items and properties apart. *)
Record satisfies_keywords (v : Value) (o : JsonMap) : Prop := {
  sat_type : type_ok v o = true;
  sat_enum l : json_get (lit "enum") o = Some (Array l) -> exists x, x ∈ l /\ value_eqb x v = true;
  sat_max_length s n : v = Str s -> json_get (lit "maxLength") o = Some (Num (PosInt n)) -> Z.of_nat (length s) <= n;
  sat_min_length s n : v = Str s -> json_get (lit "minLength") o = Some (Num (PosInt n)) -> n <= Z.of_nat (length s);
  sat_minimum x b lo : as_f64 v = Some x -> json_get (lit "minimum") o = Some b -> as_f64 b = Some lo -> f64_lt x lo = false;
  sat_maximum x b hi : as_f64 v = Some x -> json_get (lit "maximum") o = Some b -> as_f64 b = Some hi -> f64_lt hi x = false;
  sat_min_items l n : v = Array l -> json_get (lit "minItems") o = Some (Num (PosInt n)) -> n <= Z.of_nat (length l);
  sat_max_items l n : v = Array l -> json_get (lit "maxItems") o = Some (Num (PosInt n)) -> Z.of_nat (length l) <= n;
  sat_required m l f : v = Object m -> json_get (lit "required") o = Some (Array l) -> Str f ∈ l -> f ∈ map fst m;
  sat_additional m k : v = Object m -> json_get (lit "additionalProperties") o = Some (Bool false) -> k ∈ map fst m -> k ∈ known_props o;
}.

Definition satisfies (v s : Value) : Prop := forall o, s = Object o -> satisfies_keywords v o.

Section Validator_lemmas.
Context {et : ErrorText}.

(** The errors of a value, those of its items and properties apart. *)
Definition local_errors (p : str) (v : Value) (o : JsonMap) : list ValidationError :=
  enum_errors p v o ++ string_errors p v o ++ number_errors p v o ++ length_errors p v o ++
  match v with Object m => required_errors p m o ++ additional_errors p m o | _ => [] end.

Lemma when_nil b p m : when b p m = [] <-> b = false.
Proof. unfold when. by destruct b. Qed.

Lemma when_path b p m e : e ∈ when b p m -> path e = p.
Proof. unfold when. destruct b; [|by intros ?%elem_of_nil]. intros ->%list_elem_of_singleton. done. Qed.

Lemma get_u64 (o : option Value) n : o ≫= as_u64 = Some n <-> o = Some (Num (PosInt n)).
Proof. split; [|by intros ->]. destruct o as [[| |[x|x|x]| | |]|]; try done. by intros [= ->]. Qed.

Lemma flat_map_nil {A B} (f : A -> list B) l : flat_map f l = [] <-> forall x, x ∈ l -> f x = [].
Proof.
  induction l as [|a l IH]; cbn [flat_map]; [split; [by intros _ x ?%elem_of_nil|done]|].
  split.
  - intros [H1 H2]%app_nil x [->|Hx]%elem_of_cons; [done|]. by apply IH.
  - intros H. apply app_nil. split; [by apply H; left|]. apply IH. intros x Hx. apply H. by right.
Qed.

Lemma enum_nil p v o : enum_errors p v o = [] <-> forall l, json_get (lit "enum") o = Some (Array l) -> exists x, x ∈ l /\ value_eqb x v = true.
Proof.
  unfold enum_errors. destruct (json_get _ o) as [[| | | |l|]|]; try (split; [by intros _ ? ?|done]).
  rewrite when_nil, negb_false_iff, existsb_exists. split.
  - intros (x & Hx & He) l' [= <-]. exists x. by rewrite list_elem_of_In.
  - intros H. destruct (H l eq_refl) as (x & Hx & He). exists x. by rewrite <- list_elem_of_In.
Qed.

Lemma bound_nil (o : option Z) (test : Z -> bool) p m :
  match o with Some n => when (test n) p (m n) | None => [] end = [] <-> forall n, o = Some n -> test n = false.
Proof.
  destruct o as [n|]; [|split; [by intros _ ?|done]]. rewrite when_nil. split; [by intros H ? [= <-]|by intros H; apply H].
Qed.

Lemma app_nil_iff {A} (a b : list A) : a ++ b = [] <-> a = [] /\ b = [].
Proof. apply app_nil. Qed.

Lemma string_nil p v o :
  string_errors p v o = [] <->
    (forall s n, v = Str s -> json_get (lit "maxLength") o = Some (Num (PosInt n)) -> Z.of_nat (length s) <= n) /\
    (forall s n, v = Str s -> json_get (lit "minLength") o = Some (Num (PosInt n)) -> n <= Z.of_nat (length s)).
Proof.
  destruct v as [| | |s| |]; cbn [string_errors]; try (by split; [split; intros|]). cbv zeta.
  rewrite app_nil_iff, !bound_nil. setoid_rewrite get_u64. split.
  - intros [H1 H2]. split; intros s' n [= <-] H; [apply H1 in H|apply H2 in H]; lia.
  - intros [H1 H2]. split; intros n H; apply Z.ltb_ge; [by apply (H1 s)|by apply (H2 s)].
Qed.

Lemma length_nil p v o :
  length_errors p v o = [] <->
    (forall l n, v = Array l -> json_get (lit "minItems") o = Some (Num (PosInt n)) -> n <= Z.of_nat (length l)) /\
    (forall l n, v = Array l -> json_get (lit "maxItems") o = Some (Num (PosInt n)) -> Z.of_nat (length l) <= n).
Proof.
  destruct v as [| | | |l|]; cbn [length_errors]; try (by split; [split; intros|]). cbv zeta.
  rewrite app_nil_iff, !bound_nil. setoid_rewrite get_u64. split.
  - intros [H1 H2]. split; intros s' n [= <-] H; [apply H1 in H|apply H2 in H]; lia.
  - intros [H1 H2]. split; intros n H; apply Z.ltb_ge; [by apply (H1 l)|by apply (H2 l)].
Qed.

Lemma number_nil p v o :
  number_errors p v o = [] <->
    (forall x b lo, as_f64 v = Some x -> json_get (lit "minimum") o = Some b -> as_f64 b = Some lo -> f64_lt x lo = false) /\
    (forall x b hi, as_f64 v = Some x -> json_get (lit "maximum") o = Some b -> as_f64 b = Some hi -> f64_lt hi x = false).
Proof.
  unfold number_errors. destruct (as_f64 v) as [x|]; [|split; [by split; intros|done]]. rewrite app_nil_iff.
  assert (Hb : forall (k : str) (test : spec_float -> bool) m,
    match json_get k o ≫= as_f64 with Some n => when (test n) p (m n) | None => [] end = [] <->
      forall b lo, json_get k o = Some b -> as_f64 b = Some lo -> test lo = false).
  { intros k test m. destruct (json_get k o) as [b|]; cbn; [|split; [by intros _ ??|done]]. destruct (as_f64 b) as [lo|] eqn:E.
    - rewrite when_nil. split; [intros H b' lo' [= <-] E'; rewrite E in E'; by injection E' as <-|]. intros H. by apply (H b lo).
    - split; [|done]. intros _ b' lo' [= <-] E'. by rewrite E in E'. }
  rewrite (Hb _ (fun n => f64_lt x n)), (Hb _ (fun n => f64_gt x n)). split.
  - intros [H1 H2]. split; intros x' b lo [= <-]; [apply H1|apply H2].
  - intros [H1 H2]. split; intros b lo; [by apply H1|by apply H2].
Qed.

Lemma required_nil p m o :
  required_errors p m o = [] <-> forall l f, json_get (lit "required") o = Some (Array l) -> Str f ∈ l -> f ∈ map fst m.
Proof.
  unfold required_errors. destruct (json_get _ o) as [[| | | |l|]|]; try (split; [by intros _ ? ?|done]).
  rewrite flat_map_nil. split.
  - intros H l' f [= <-] Hf. assert (Hin : f ∈ omap as_str l) by (apply list_elem_of_omap; by exists (Str f)). apply H in Hin.
    apply when_nil, negb_false_iff, bool_decide_eq_true in Hin. done.
  - intros H f Hf. apply list_elem_of_omap in Hf as (x & Hx & E). destruct x as [| | |s| |]; try done. injection E as ->.
    apply when_nil, negb_false_iff, bool_decide_eq_true. by apply (H l).
Qed.

Lemma additional_nil p m o :
  additional_errors p m o = [] <-> forall k, json_get (lit "additionalProperties") o = Some (Bool false) -> k ∈ map fst m -> k ∈ known_props o.
Proof.
  unfold additional_errors. destruct (json_get _ o) as [[|[]| | | |]|]; try (split; [by intros _ ? ?|done]).
  rewrite flat_map_nil. split.
  - intros H k _ Hk. apply H in Hk. by apply when_nil, negb_false_iff, bool_decide_eq_true in Hk.
  - intros H k Hk. apply when_nil, negb_false_iff, bool_decide_eq_true. by apply H.
Qed.

(** The errors at a node. *)
Definition own_errors (p : str) (v : Value) (o : JsonMap) : list ValidationError :=
  if type_ok v o then local_errors p v o
  else [mkError p (lit "expected type " ++ debug_words (expected_types o) ++ lit ", got " ++ json_type_name v)].

Lemma own_nil p v o : own_errors p v o = [] <-> satisfies_keywords v o.
Proof.
  unfold own_errors. destruct (type_ok v o) eqn:Et; [|split; [done|]; intros []; congruence].
  unfold local_errors. rewrite !app_nil_iff, enum_nil, string_nil, number_nil, length_nil.
  assert (Hobj : match v with Object m => required_errors p m o ++ additional_errors p m o | _ => [] end = [] <->
    (forall m l f, v = Object m -> json_get (lit "required") o = Some (Array l) -> Str f ∈ l -> f ∈ map fst m) /\
    (forall m k, v = Object m -> json_get (lit "additionalProperties") o = Some (Bool false) -> k ∈ map fst m -> k ∈ known_props o)).
  { destruct v as [| | | | |m]; try (by split; [split; intros|]). rewrite app_nil_iff, required_nil, additional_nil. split.
    - intros [H1 H2]. split; intros m'; [intros l f [= <-]; apply H1|intros k [= <-]; apply H2].
    - intros [H1 H2]. split; [by intros l f; apply H1|by intros k; apply H2]. }
  rewrite Hobj. clear Hobj. split.
  - by intros (H1 & (H2 & H3) & (H4 & H5) & (H6 & H7) & H8 & H9).
  - intros []. by repeat split.
Qed.

Lemma own_path p v o e : e ∈ own_errors p v o -> path e = p.
Proof.
  unfold own_errors. destruct (type_ok v o); [|by intros ->%list_elem_of_singleton]. unfold local_errors.
  assert (Hb : forall (ob : option spec_float) test m, e ∈ match ob with Some n => when (test n) p (m n) | None => [] end -> path e = p)
    by (intros [n|] test m; [apply when_path|by intros ?%elem_of_nil]).
  assert (Hz : forall (ob : option Z) test m, e ∈ match ob with Some n => when (test n) p (m n) | None => [] end -> path e = p)
    by (intros [n|] test m; [apply when_path|by intros ?%elem_of_nil]).
  assert (Hf : forall (f : str -> list ValidationError) l, (forall x, e ∈ f x -> path e = p) -> e ∈ flat_map f l -> path e = p).
  { intros f l H Hin. apply list_elem_of_In, in_flat_map in Hin as (x & _ & Hx). apply (H x). by apply list_elem_of_In. }
  assert (Hnil : e ∈ @nil ValidationError -> path e = p) by (by intros ?%elem_of_nil).
  rewrite !elem_of_app. intros [H|[H|[H|[H|H]]]].
  - unfold enum_errors in H. destruct (json_get _ o) as [[| | | |l|]|]; auto. by apply when_path in H.
  - unfold string_errors in H. destruct v; auto. cbv zeta in H. apply elem_of_app in H as [H|H]; by apply Hz in H.
  - unfold number_errors in H. destruct (as_f64 v); auto. apply elem_of_app in H as [H|H]; by apply Hb in H.
  - unfold length_errors in H. destruct v; auto. cbv zeta in H. apply elem_of_app in H as [H|H]; by apply Hz in H.
  - destruct v; auto. apply elem_of_app in H as [H|H].
    + unfold required_errors in H. destruct (json_get _ o) as [[| | | |l|]|]; auto. eapply Hf; [|exact H]. intros x. apply when_path.
    + unfold additional_errors in H. destruct (json_get _ o) as [[|[]| | | |]|]; auto. eapply Hf; [|exact H]. intros x. apply when_path.
Qed.

(** The items of an array, from the [i]-th on. *)
Lemma items_errors (f : nat -> Value -> list ValidationError) e l i :
  e ∈ (fix go i l := match l with [] => [] | x :: l => f i x ++ go (S i) l end) i l <-> exists j x, l !! j = Some x /\ e ∈ f (i + j)%nat x.
Proof.
  revert i. induction l as [|x l IH]; intros i; [split; [by intros ?%elem_of_nil|by intros (? & ? & ? & _)]|].
  rewrite elem_of_app, IH. split.
  - intros [H|(j & y & Hj & H)]; [exists 0%nat, x; by rewrite Nat.add_0_r|exists (S j), y; by rewrite Nat.add_succ_r].
  - intros ([|j] & y & Hj & H); [left; rewrite Nat.add_0_r in H; by injection Hj as ->|right; exists j, y; by rewrite Nat.add_succ_r in H].
Qed.

(** The errors of the parts of a value. *)
Definition part_error (p : str) (v : Value) (o : JsonMap) (e : ValidationError) : Prop :=
  match v with
  | Array l => exists items i x, json_get (lit "items") o = Some items /\ l !! i = Some x /\ e ∈ validate_value (item_path p i) x items
  | Object m =>
      exists props k x sub, json_get (lit "properties") o = Some (Object props) /\ (k, x) ∈ m /\ json_get k props = Some sub /\
        e ∈ validate_value (key_path p k) x sub
  | _ => False
  end.

Lemma key_errors p m o e :
  e ∈ match json_get (lit "properties") o with
      | Some (Object props) =>
          flat_map (fun kv => match json_get (fst kv) props with Some sub => validate_value (key_path p (fst kv)) (snd kv) sub | None => [] end) m
      | _ => []
      end <-> part_error p (Object m) o e.
Proof.
  assert (Hnil : e ∈ @nil ValidationError <-> False) by (split; [by intros ?%elem_of_nil|done]).
  cbn [part_error]. destruct (json_get _ o) as [[| | | | |props]|]; try (rewrite Hnil; split; [done|by intros (? & ? & ? & ? & ? & _)]).
  rewrite list_elem_of_In, in_flat_map. split.
  - intros ([k x] & Hin & He). cbn [fst snd] in He. destruct (json_get k props) as [sub|] eqn:E; [|done].
    exists props, k, x, sub. by rewrite !list_elem_of_In.
  - intros (props' & k & x & sub & [= <-] & Hin & E & He). exists (k, x). cbn [fst snd]. rewrite E, <- !list_elem_of_In. done.
Qed.

Lemma node_errors e p v o : e ∈ validate_value p v (Object o) <-> e ∈ own_errors p v o \/ (type_ok v o = true /\ part_error p v o e).
Proof.
  unfold own_errors. destruct v as [| | | |l|m]; cbn [validate_value]; destruct (type_ok _ o); try (cbn; tauto); try (split; [by left|by intros [?|[? _]]]).
  - unfold local_errors. rewrite !elem_of_app. assert (He : e ∈ match json_get (lit "items") o with
      | Some items => (fix go i l := match l with [] => [] | x :: l => validate_value (item_path p i) x items ++ go (S i) l end) 0%nat l
      | None => [] end <-> part_error p (Array l) o e).
    { cbn [part_error]. destruct (json_get (lit "items") o) as [items|]; [|split; [by intros ?%elem_of_nil|by intros (? & ? & ? & ? & _)]].
      rewrite (items_errors (fun i x => validate_value (item_path p i) x items)). cbn [Nat.add]. split.
      - intros (j & x & Hj & H). by exists items, j, x.
      - intros (items' & j & x & [= <-] & Hj & H). by exists j, x. }
    rewrite He. assert (e ∈ @nil ValidationError <-> False) by (split; [by intros ?%elem_of_nil|done]). tauto.
  - unfold local_errors. rewrite !elem_of_app, key_errors. tauto.
Qed.

Lemma visits_cases v o st v' s' :
  visits v (Object o) st v' s' <->
    (st = [] /\ v' = v /\ s' = Object o) \/
    (type_ok v o = true /\ exists stp st' x sub, st = stp :: st' /\ visits x sub st' v' s' /\
       ((exists l i, v = Array l /\ stp = Item i /\ json_get (lit "items") o = Some sub /\ l !! i = Some x) \/
        (exists m props k, v = Object m /\ stp = Key k /\ json_get (lit "properties") o = Some (Object props) /\ (k, x) ∈ m /\ json_get k props = Some sub))).
Proof.
  split.
  - intros H. inversion H; subst; [by left|right; split; [done|]..].
    + do 4 eexists. split; [done|]. split; [done|]. left. by do 2 eexists.
    + do 4 eexists. split; [done|]. split; [done|]. right. by do 3 eexists.
  - intros [(-> & -> & ->)|(Ht & stp & st' & x & sub & -> & Hv & [(l & i & -> & -> & H1 & H2)|(m & props & k & -> & -> & H1 & H2 & H3)])].
    + constructor.
    + by eapply Visit_item.
    + by eapply Visit_key.
Qed.

Lemma elem_of_errors e p v s :
  e ∈ validate_value p v s <-> exists st v' o, visits v s st v' (Object o) /\ e ∈ own_errors (foldl path_step p st) v' o.
Proof.
  revert p s. induction v as [v IH] using value_parts_ind. intros p s.
  assert (Hs : (exists o, s = Object o) \/ validate_value p v s = [] /\ forall st v' o, ~ visits v s st v' (Object o)).
  { destruct s as [| | | | |o]; [..|by left; exists o]; right; (split; [by destruct v|]); intros st v' o H; inversion H. }
  destruct Hs as [[o ->]|[-> Hno]]; [|split; [by intros ?%elem_of_nil|intros (st & v' & o & H & _); by apply Hno in H]].
  rewrite node_errors. split.
  - intros [H|[Ht H]]; [exists [], v, o; split; [constructor|done]|]. destruct v as [| | | |l|m]; try done; cbn [part_error] in H.
    + destruct H as (items & i & x & Hi & Hx & H). apply IH in H as (st & v' & o' & Hv & He); [|by eapply list_elem_of_lookup_2].
      exists (Item i :: st), v', o'. split; [by eapply Visit_item|done].
    + destruct H as (props & k & x & sub & Hp & Hx & Hk & H). apply IH in H as (st & v' & o' & Hv & He); [|by exists k].
      exists (Key k :: st), v', o'. split; [by eapply Visit_key|done].
  - intros (st & v' & o' & Hv & He). apply visits_cases in Hv as [(-> & -> & [= ->])|(Ht & stp & st' & x & sub & -> & Hv & Hw)]; [by left|].
    right. split; [done|]. cbn [foldl] in He. destruct Hw as [(l & i & -> & -> & H1 & H2)|(m & props & k & -> & -> & H1 & H2 & H3)]; cbn [part_error].
    + exists sub, i, x. split; [done|]. split; [done|]. apply IH; [by eapply list_elem_of_lookup_2|]. by exists st', v', o'.
    + exists props, k, x, sub. repeat (split; [done|]). apply IH; [by exists k|]. by exists st', v', o'.
Qed.

(** C27: parameters are accepted exactly when every part of them that the schema reaches
    satisfies the keywords asked of it there; and each error names the path of a part that
    does not, as it is reached from the parameters. *)
Theorem validation_exact (meta : ToolMeta) (params : Value) :
  (into_result (validate_input meta params) = Ok tt <->
     forall st v s, visits params (input_schema meta) st v s -> satisfies v s) /\
  (forall e, e ∈ validate_input meta params ->
     exists st v s, visits params (input_schema meta) st v s /\ path e = foldl path_step (lit "params") st /\ ~ satisfies v s) /\
  (forall st v s, visits params (input_schema meta) st v s -> ~ satisfies v s ->
     exists e, e ∈ validate_input meta params /\ path e = foldl path_step (lit "params") st).
Proof.
  unfold validate_input. set (l := validate_value _ _ _).
  assert (Hown : forall st v o, visits params (input_schema meta) st v (Object o) -> own_errors (foldl path_step (lit "params") st) v o <> [] ->
    exists e, e ∈ l /\ path e = foldl path_step (lit "params") st).
  { intros st v o Hv Hne. destruct (own_errors _ v o) as [|e es] eqn:E; [done|]. exists e.
    assert (He : e ∈ own_errors (foldl path_step (lit "params") st) v o) by (rewrite E; by left).
    split; [|by apply own_path in He]. apply elem_of_errors. by exists st, v, o. }
  assert (Hback : forall e, e ∈ l -> exists st v o, visits params (input_schema meta) st v (Object o) /\
    path e = foldl path_step (lit "params") st /\ ~ satisfies v (Object o)).
  { intros e He. apply elem_of_errors in He as (st & v & o & Hv & He). exists st, v, o. split; [done|]. split; [by apply own_path in He|].
    intros Hs. specialize (Hs o eq_refl). rewrite <- (own_nil (foldl path_step (lit "params") st)) in Hs. rewrite Hs in He. by apply elem_of_nil in He. }
  split; [|split].
  - assert (Hr : into_result l = Ok tt <-> l = []) by (unfold into_result; by destruct l). rewrite Hr. split.
    + intros E st v s Hv o ->. rewrite <- (own_nil (foldl path_step (lit "params") st)).
      destruct (own_errors _ v o) as [|e es] eqn:Eo; [done|]. exfalso. destruct (Hown st v o Hv) as (e' & He' & _); [by rewrite Eo|].
      rewrite E in He'. by apply elem_of_nil in He'.
    + intros H. destruct l as [|e es]; [done|]. exfalso. destruct (Hback e ltac:(left)) as (st & v & o & Hv & _ & Hn). by apply Hn, (H st).
  - intros e He. apply Hback in He as (st & v & o & Hv & Hp & Hn). by exists st, v, (Object o).
  - intros st v s Hv Hn. destruct s as [| | | | |o]; try (exfalso; by apply Hn). apply (Hown st v o Hv). rewrite own_nil.
    intros Hs. apply Hn. by intros o' [= <-].
Qed.

End Validator_lemmas.

(** ** When the check is skipped *)

Lemma nonempty_array (v : option Value) :
  match v with Some (Array l) => negb (length l =? 0)%nat | _ => false end = false <-> forall x l, v <> Some (Array (x :: l)).
Proof.
  destruct v as [[| | | |[|y l]|]|]; cbn; split; try done. by intros H; edestruct H.
Qed.

Lemma nonempty_object (v : option Value) :
  match v with Some (Object m) => negb (length m =? 0)%nat | _ => false end = false <-> forall x m, v <> Some (Object (x :: m)).
Proof.
  destruct v as [[| | | | |[|y m]]|]; cbn; split; try done. by intros H; edestruct H.
Qed.

Lemma default_schema_iff (o : JsonMap) :
  is_default_schema (Object o) = true <->
    (forall x l, json_get (lit "required") o <> Some (Array (x :: l))) /\
    (forall x m, json_get (lit "properties") o <> Some (Object (x :: m))) /\ forall k, k ∈ constraint_keys -> k ∉ map fst o.
Proof.
  assert (Hk : negb (existsb (fun k => has_key k o) constraint_keys) = true <-> forall k, k ∈ constraint_keys -> k ∉ map fst o).
  { rewrite negb_true_iff, <- not_true_iff_false, existsb_exists. split.
    - intros H k Hk Hin. apply H. exists k. split; [by apply list_elem_of_In|by apply bool_decide_eq_true].
    - intros H (k & Hk & Hb). apply bool_decide_eq_true in Hb. by apply (H k); [apply list_elem_of_In|]. }
  unfold is_default_schema. rewrite <- nonempty_array, <- nonempty_object, <- Hk.
  destruct (match json_get (lit "required") o with Some _ => _ | None => _ end); [by split; [|intros (? & _)]|].
  destruct (match json_get (lit "properties") o with Some _ => _ | None => _ end); [by split; [|intros (_ & ? & _)]|]. tauto.
Qed.

(** With the flag set, parameters are not checked at all exactly when the schema is null, or
    is an object that requires no field, declares no property and has none of nine combining
    keywords; whatever it says of the type, of lengths and bounds, of items or of
    additional properties is then ignored. *)
Theorem skip_exact {et : ErrorText} (meta : ToolMeta) (params : Value) :
  strategy_validate (Some meta) true params = Ok true <->
    input_schema meta = Null \/
    exists o, input_schema meta = Object o /\
      (forall x l, json_get (lit "required") o <> Some (Array (x :: l))) /\
      (forall x m, json_get (lit "properties") o <> Some (Object (x :: m))) /\
      forall k, k ∈ constraint_keys -> k ∉ map fst o.
Proof.
  cbn [strategy_validate]. rewrite andb_true_r.
  assert (He : is_empty_schema (input_schema meta) = true <-> input_schema meta = Null \/ exists o, input_schema meta = Object o /\
      (forall x l, json_get (lit "required") o <> Some (Array (x :: l))) /\
      (forall x m, json_get (lit "properties") o <> Some (Object (x :: m))) /\ forall k, k ∈ constraint_keys -> k ∉ map fst o).
  { unfold is_empty_schema. destruct (input_schema meta) as [| | | | |o]; try (split; [by intros ?|by intros [?|(? & ? & _)]]); [by split; [left|]|].
    assert (Hempty : match o with [] => true | _ => false end || is_default_schema (Object o) = true <-> is_default_schema (Object o) = true)
      by (destruct o; [by vm_compute|done]).
    assert (Heq : is_null (Object o) || match Object o with Object [] => true | _ => false end || is_default_schema (Object o) =
      match o with [] => true | _ => false end || is_default_schema (Object o)) by (by destruct o).
    rewrite Heq, Hempty, default_schema_iff. split; [intros H; right; by exists o|by intros [?|(o' & [= <-] & H)]]. }
  rewrite <- He. destruct (is_empty_schema _); [done|]. split; [|done]. by destruct (into_result _).
Qed.

(** ** Examples *)

#[export] Instance plain_texts : ErrorText := {| display_f64 _ := lit "f"; debug_words l := join_str (lit ",") l; error_json := sample_text |}.

Definition with_schema (s : Value) : ToolMeta :=
  mkMeta (lit "sphere") [] [] [] [] (lit "maya") s None [] true AnyThread false Null.

Definition sphere_schema : Value :=
  Object [(lit "type", Str (lit "object")); (lit "required", Array [Str (lit "radius")]);
          (lit "properties", Object [(lit "radius", Object [(lit "type", Str (lit "number")); (lit "minimum", Num (PosInt 0))]);
                                     (lit "tags", Object [(lit "items", Object [(lit "maxLength", Num (PosInt 2))])])])].

Example sphere_paths :
  map path (validate_input (with_schema sphere_schema)
    (Object [(lit "radius", Num (NegInt (-1))); (lit "tags", Array [Str (lit "ok"); Str (lit "long")])])) =
    [lit "params.radius"; lit "params.tags[1]"].
Proof. vm_compute. reflexivity. Qed.

(** A schema that allows no property at all is not checked. *)
Definition closed_schema : Value := Object [(lit "type", Str (lit "object")); (lit "additionalProperties", Bool false)].

Example closed_ignored :
  strategy_validate (Some (with_schema closed_schema)) true (Object [(lit "x", Null)]) = Ok true /\
  length (validate_input (with_schema closed_schema) (Object [(lit "x", Null)])) = 1%nat.
Proof. split; vm_compute; reflexivity. Qed.
