(* ===== verification/EventBus.v ===== *)
(** The event bus: [dcc-mcp-actions/src/events.rs], without the Python bindings.

    A callback is a function on a world [W]; it may panic.  Callbacks that call the bus
    they are called by are not modelled.  The iteration order of the table of subscribers
    is the class [HashOrder]. *)

From S2P Require Import Prelude Text Json.

Local Open Scope Z_scope.

(** ** Names and envelopes *)

Definition EVENT_SCHEMA_VERSION : Z := 1.

Definition VETOABLE_EVENTS : list str := [lit "skill.loading"; lit "tool.dispatched"; lit "resource.subscribed"; lit "client.initialize"].
Definition is_vetoable_event (name : str) : bool := bool_decide (name ∈ VETOABLE_EVENTS).

Definition subscription_matches (pattern event_name : str) : bool :=
  if bool_decide (pattern = event_name) || bool_decide (pattern = lit "*") then true
  else match strip_suffix (lit ".*") pattern with
       | None => false
       | Some prefix =>
           if bool_decide (prefix = []) then true
           else match strip_prefix prefix event_name with Some (c :: _) => c =? ch_dot | _ => false end
       end.

Record EventEnvelope : Type := mkEnvelope {
  schema_version : Z;
  event_name : str;
  event_id : str;
  timestamp_ns : Z;
  source : Value;
  correlation : Value;
  attributes : Value;
}.

Definition object_or_empty (v : Value) : Value := if is_object v then v else Object [].

(** [{:x}]: at most sixteen digits for a 64-bit number. *)
Definition hex_char (d : Z) : Z := if d <? 10 then 48 + d else 87 + d.
Fixpoint print_hex_loop (fuel : nat) (n : Z) : str :=
  match fuel with
  | O => []
  | S fuel => if n <? 16 then [hex_char n] else print_hex_loop fuel (n / 16) ++ [hex_char (n mod 16)]
  end.
Definition print_hex (n : Z) : str := print_hex_loop 16 n.

Record EventVeto : Type := mkVeto { code : str; reason : str }.

(** [EventVeto::with_code]: blank texts are replaced. *)
Definition with_code (c r : str) : EventVeto :=
  mkVeto (match trim c with [] => lit "vetoed" | _ => c end) (match trim r with [] => lit "event vetoed" | _ => r end).

(** ** The bus *)

(** What a before hook answers. *)
Inductive hook_answer : Type :=
| Allow
| Refuse (v : EventVeto)
| HookPanic (msg : str).

Section Bus.
Context {W : Type}.

(** A subscriber changes the world, and may panic after it did. *)
Abbreviation Callback := (EventEnvelope -> W -> W).
Abbreviation BeforeHook := (EventEnvelope -> W -> W * hook_answer).

Record EventBus : Type := mkBus {
  next_id : Z;
  next_event_id : Z;
  subscribers : gmap str (list (Z * Callback));
  before_subscribers : gmap str (list (Z * BeforeHook));
}.

Definition bus_new : EventBus := mkBus 0 0 ∅ ∅.

Definition wrapping_succ (n : Z) : Z := (n + 1) mod 2 ^ 64.

(** [fetch_add(1) + 1]: the addition wraps in the counter; the returned sum is checked only
    in debug builds. *)
Definition subscribe_event (name : str) (cb : Callback) (b : EventBus) : EventBus * Z :=
  let id := wrapping_succ (next_id b) in
  (mkBus id (next_event_id b) (<[name := default [] (subscribers b !! name) ++ [(id, cb)]]> (subscribers b)) (before_subscribers b), id).

Definition without_id {A} (id : Z) (l : list (Z * A)) : list (Z * A) := base.filter (fun e => fst e <> id) l.

Definition unsubscribe_event (name : str) (id : Z) (b : EventBus) : EventBus * bool :=
  match subscribers b !! name with
  | Some l =>
      (mkBus (next_id b) (next_event_id b) (<[name := without_id id l]> (subscribers b)) (before_subscribers b),
       (length (without_id id l) <? length l)%nat)
  | None => (b, false)
  end.

Definition ensure_vetoable_event (name : str) : result EventVeto unit :=
  if is_vetoable_event name then Ok tt
  else Err (with_code (lit "unsupported_veto_event") (lit "event '" ++ name ++ lit "' does not support before hooks")).

(** [EventBus::before]. *)
Definition before (name : str) (hook : BeforeHook) (b : EventBus) : EventBus * result EventVeto Z :=
  match ensure_vetoable_event name with
  | Err v => (b, Err v)
  | Ok _ =>
      let id := wrapping_succ (next_id b) in
      (mkBus id (next_event_id b) (subscribers b) (<[name := default [] (before_subscribers b !! name) ++ [(id, hook)]]> (before_subscribers b)), Ok id)
  end.

Definition unsubscribe_before (name : str) (id : Z) (b : EventBus) : EventBus * bool :=
  match before_subscribers b !! name with
  | Some l =>
      (mkBus (next_id b) (next_event_id b) (subscribers b) (<[name := without_id id l]> (before_subscribers b)),
       (length (without_id id l) <? length l)%nat)
  | None => (b, false)
  end.

Definition has_subscribers (name : str) (b : EventBus) : bool :=
  existsb (fun e => negb (length (snd e) =? 0)%nat && subscription_matches (fst e) name) (map_to_list (subscribers b)).
Definition has_before_subscribers (name : str) (b : EventBus) : bool :=
  match before_subscribers b !! name with Some (_ :: _) => true | _ => false end.
Definition subscription_count (b : EventBus) : nat :=
  sum_list (map (fun e => length (snd e)) (map_to_list (subscribers b))) + sum_list (map (fun e => length (snd e)) (map_to_list (before_subscribers b))).

(** [EventBus::make_event] at time [now]. *)
Definition make_event (name : str) (src corr attrs : Value) (now : Z) (b : EventBus) : EventBus * EventEnvelope :=
  let seq := wrapping_succ (next_event_id b) in
  (mkBus (next_id b) seq (subscribers b) (before_subscribers b),
   mkEnvelope EVENT_SCHEMA_VERSION name (lit "ev_" ++ print_hex now ++ lit "_" ++ print_hex seq) now (object_or_empty src)
     (object_or_empty corr) (object_or_empty attrs)).

(** The subscribers of an event, in the order in which they are called. *)
Definition listeners {HO : HashOrder (list (Z * Callback))} (name : str) (b : EventBus) : list (Z * Callback) :=
  flat_map snd (base.filter (fun e => subscription_matches (fst e) name = true) (hash_order (subscribers b))).

(** [publish_event]: the panics of the callbacks are caught. *)
Definition publish_event {HO : HashOrder (list (Z * Callback))} (e : EventEnvelope) (b : EventBus) (w : W) : W :=
  foldl (fun w l => snd l e w) w (listeners (event_name e) b).

Definition emit {HO : HashOrder (list (Z * Callback))} (name : str) (src corr attrs : Value) (now : Z) (b : EventBus) (w : W) : EventBus * W :=
  let '(b, e) := make_event name src corr attrs now b in (b, publish_event e b w).

Fixpoint run_hooks (hooks : list (Z * BeforeHook)) (e : EventEnvelope) (w : W) : W * result EventVeto unit :=
  match hooks with
  | [] => (w, Ok tt)
  | (_, hook) :: hooks =>
      match hook e w with
      | (w, Allow) => run_hooks hooks e w
      | (w, Refuse v) => (w, Err v)
      | (w, HookPanic msg) => (w, Err (with_code (lit "before_hook_panic") (lit "before hook for '" ++ event_name e ++ lit "' panicked: " ++ msg)))
      end
  end.

Definition check_before_event (e : EventEnvelope) (b : EventBus) (w : W) : W * result EventVeto unit :=
  match ensure_vetoable_event (event_name e) with
  | Err v => (w, Err v)
  | Ok _ => run_hooks (default [] (before_subscribers b !! event_name e)) e w
  end.

(** [make_vetoable_event], then the hooks. *)
Definition before_event (name : str) (src corr attrs : Value) (now : Z) (b : EventBus) (w : W) : EventBus * W * result EventVeto EventEnvelope :=
  match ensure_vetoable_event name with
  | Err v => (b, w, Err v)
  | Ok _ =>
      let '(b, e) := make_event name src corr attrs now b in
      match check_before_event e b w with
      | (w, Ok _) => (b, w, Ok e)
      | (w, Err v) => (b, w, Err v)
      end
  end.

End Bus.
Arguments EventBus W : clear implicits.
