(* ===== verification/ActionDispatch.v ===== *)
(** The dispatcher of tools: [dcc-mcp-actions/src/dispatcher.rs], and the pipeline of
    middleware around it: [pipeline/mod.rs], [audit.rs], [timing.rs].

    A handler is a function on a world [W], as callbacks of the bus are; handlers that
    panic or call the dispatcher again are not modelled.  The clock gives, for each event
    of a call, the milliseconds since its start and the time. *)

From S2P Require Import Prelude Text Json ActionRegistry ActionValidator EventBus.

Local Open Scope Z_scope.

(** ** Errors *)

Inductive DispatchError : Type :=
| HandlerNotFound (name : str)
| MetadataNotFound (name : str)
| ValidationFailed (msg : str)
| HandlerError (msg : str)
| ActionDisabled (action group : str)
| ThreadAffinityViolation (action : str) (declared actual : ThreadAffinity)
| Vetoed (action code reason : str).

Definition affinity_text (a : ThreadAffinity) : str := match a with AnyThread => lit "any" | MainThread => lit "main" end.

(** [impl Display for DispatchError]. *)
Definition error_text (e : DispatchError) : str :=
  match e with
  | HandlerNotFound name => lit "no handler registered for action '" ++ name ++ lit "'"
  | MetadataNotFound name => lit "no metadata found for action '" ++ name ++ lit "'"
  | ValidationFailed msg => lit "validation failed: " ++ msg
  | HandlerError msg => lit "handler error: " ++ msg
  | ActionDisabled action group =>
      lit "action '" ++ action ++ lit "' is disabled (group '" ++ group ++ lit "' is inactive — call activate_tool_group first)"
  | ThreadAffinityViolation action declared actual =>
      lit "THREAD_AFFINITY_VIOLATION: action '" ++ action ++ lit "' declared thread_affinity=" ++ affinity_text declared ++
        lit " but ran on " ++ affinity_text actual
  | Vetoed action code reason => lit "EVENT_VETOED: action '" ++ action ++ lit "' was vetoed (" ++ code ++ lit "): " ++ reason
  end.

Definition dispatch_error_kind (e : DispatchError) : str :=
  match e with
  | HandlerNotFound _ => lit "handler_not_found"
  | MetadataNotFound _ => lit "metadata_not_found"
  | ValidationFailed _ => lit "validation_failed"
  | HandlerError _ => lit "handler_error"
  | ActionDisabled _ _ => lit "action_disabled"
  | ThreadAffinityViolation _ _ _ => lit "thread_affinity_violation"
  | Vetoed _ _ _ => lit "event_vetoed"
  end.

Record DispatchResult : Type := mkResult { action : str; output : Value; validation_skipped : bool }.

(** [output.get("success").and_then(as_bool).unwrap_or(true)]. *)
Definition tool_result_success (output : Value) : bool :=
  default true (match output with Object m => json_get (lit "success") m ≫= as_bool | _ => None end).

(** ** Events of a call *)

Record Clock : Type := mkClock { duration_ms : Z; wall_ns : Z }.

Definition tool_event_payload (action_name : str) (meta : option ToolMeta) (ms : Z) (attrs : JsonMap) : Value * Value :=
  let attrs := json_insert (lit "tool_slug") (Str action_name) attrs in
  let attrs := json_insert (lit "tool_name") (Str action_name) attrs in
  let attrs := json_insert (lit "duration_ms") (Num (PosInt ms)) attrs in
  match meta with
  | None => (Object [], Object attrs)
  | Some meta =>
      let source := match dcc meta with [] => [] | d => [(lit "dcc_type", Str d)] end in
      let attrs := match dcc meta with [] => attrs | d => json_insert (lit "dcc_type") (Str d) attrs end in
      let attrs := match skill_name meta with Some s => json_insert (lit "skill_name") (Str s) attrs | None => attrs end in
      let attrs := match group meta with [] => attrs | g => json_insert (lit "group") (Str g) attrs end in
      (Object source, Object (json_insert (lit "annotations") (annotations meta) attrs))
  end.

Definition failed_attributes (e : DispatchError) : JsonMap :=
  [(lit "result_success", Bool false); (lit "error_kind", Str (dispatch_error_kind e)); (lit "error_message", Str (error_text e))] ++
  match e with Vetoed _ code reason => [(lit "veto_code", Str code); (lit "veto_reason", Str reason)] | _ => [] end.

(** ** The dispatcher *)

Section Dispatch.
Context {W : Type} {et : ErrorText} {HO : HashOrder (list (Z * (EventEnvelope -> W -> W)))}.

Definition HandlerFn : Type := Value -> W -> W * result str Value.

Record ToolDispatcher : Type := mkDispatcher {
  registry : ToolRegistry;
  handlers : gmap str HandlerFn;
  event_bus : EventBus W;
  skip_empty_schema_validation : bool;
}.

Definition dispatcher_new (r : ToolRegistry) : ToolDispatcher := mkDispatcher r ∅ bus_new true.

Definition with_bus (b : EventBus W) (d : ToolDispatcher) : ToolDispatcher := mkDispatcher (registry d) (handlers d) b (skip_empty_schema_validation d).
Definition register_handler (name : str) (f : HandlerFn) (d : ToolDispatcher) : ToolDispatcher :=
  mkDispatcher (registry d) (<[name := f]> (handlers d)) (event_bus d) (skip_empty_schema_validation d).
Definition remove_handler (name : str) (d : ToolDispatcher) : ToolDispatcher * bool :=
  (mkDispatcher (registry d) (base.delete name (handlers d)) (event_bus d) (skip_empty_schema_validation d), bool_decide (is_Some (handlers d !! name))).

Definition emit_tool_event (name action_name : str) (meta : option ToolMeta) (clk : Clock) (attrs : JsonMap) (b : EventBus W) (w : W) : EventBus W * W :=
  if negb (has_subscribers name b) then (b, w)
  else let '(src, attrs) := tool_event_payload action_name meta (duration_ms clk) attrs in emit name src (Object []) attrs (wall_ns clk) b w.

Definition emit_tool_failed (action_name : str) (meta : option ToolMeta) (e : DispatchError) (clk : Clock) (b : EventBus W) (w : W) : EventBus W * W :=
  emit_tool_event (lit "tool.failed") action_name meta clk (failed_attributes e) b w.

(** The hooks may veto; otherwise the event is published. *)
Definition emit_vetoable_tool_event (name action_name : str) (meta : option ToolMeta) (clk : Clock) (attrs : JsonMap) (b : EventBus W) (w : W)
    : EventBus W * W * result EventVeto unit :=
  let '(src, attrs) := tool_event_payload action_name meta (duration_ms clk) attrs in
  match before_event name src (Object []) attrs (wall_ns clk) b w with
  | (b, w, Ok e) => (b, publish_event e b w, Ok tt)
  | (b, w, Err v) => (b, w, Err v)
  end.

(** [_meta] is added to parameters that are an object. *)
Definition inject_meta (params : Value) (meta : option Value) : Value :=
  match params, meta with
  | Object m, Some v => Object (json_insert (lit "_meta") v m)
  | _, _ => params
  end.

(** The gate of progressive exposure and the thread affinity. *)
Definition gate (action_name : str) (meta : option ToolMeta) (actual : ThreadAffinity) : result DispatchError unit :=
  match meta with
  | None => Ok tt
  | Some m =>
      if negb (enabled m) then Err (ActionDisabled action_name (group m))
      else if enforce_thread_affinity m && negb (bool_decide (actual = thread_affinity m))
      then Err (ThreadAffinityViolation action_name (thread_affinity m) actual)
      else Ok tt
  end.

(** [dispatch_inner]; the first reading of the clock is for the event before the handler. *)
Definition dispatch_inner (action_name : str) (params : Value) (meta : option Value) (emit_events : bool) (actual : ThreadAffinity)
    (clk clk' : Clock) (d : ToolDispatcher) (w : W) : ToolDispatcher * W * result DispatchError DispatchResult :=
  let fail meta_opt e (clk : Clock) (b : EventBus W) (w : W) :=
    if emit_events then let '(b, w) := emit_tool_failed action_name meta_opt e clk b w in (with_bus b d, w, Err e)
    else (with_bus b d, w, Err e) in
  match handlers d !! action_name with
  | None => fail None (HandlerNotFound action_name) clk (event_bus d) w
  | Some handler =>
      let meta_opt := get_action action_name None (registry d) in
      match gate action_name meta_opt actual with
      | Err e => fail meta_opt e clk (event_bus d) w
      | Ok _ =>
          match strategy_validate meta_opt (skip_empty_schema_validation d) params with
          | Err msg => fail meta_opt (ValidationFailed msg) clk (event_bus d) w
          | Ok skipped =>
              let params := inject_meta params meta in
              let '(b, w, vetoed) :=
                if emit_events
                then emit_vetoable_tool_event (lit "tool.dispatched") action_name meta_opt clk [(lit "validation_skipped", Bool skipped)] (event_bus d) w
                else (event_bus d, w, Ok tt) in
              match vetoed with
              | Err v =>
                  let e := Vetoed action_name (code v) (reason v) in
                  let '(b, w) := emit_tool_failed action_name meta_opt e clk' b w in (with_bus b d, w, Err e)
              | Ok _ =>
                  match handler params w with
                  | (w, Err msg) => fail meta_opt (HandlerError msg) clk' b w
                  | (w, Ok out) =>
                      let '(b, w) :=
                        if emit_events
                        then emit_tool_event (lit "tool.completed") action_name meta_opt clk'
                               [(lit "validation_skipped", Bool skipped); (lit "result_success", Bool (tool_result_success out))] b w
                        else (b, w) in
                      (with_bus b d, w, Ok (mkResult action_name out skipped))
                  end
              end
          end
      end
  end.

(** [dispatch]. *)
Definition dispatch (action_name : str) (params : Value) (meta : option Value) := dispatch_inner action_name params meta true.
Definition dispatch_for_validation (action_name : str) (params : Value) := dispatch_inner action_name params None false.

(** ** Middleware *)

Record MiddlewareContext : Type := mkCtx { ctx_action : str; ctx_params : Value; extensions : list (str * Value) }.

(** [after] is [None] when it panics. *)
Record Middleware : Type := mkMiddleware {
  mw_name : str;
  before_dispatch : MiddlewareContext -> W -> W * result DispatchError MiddlewareContext;
  after_dispatch : MiddlewareContext -> result DispatchError DispatchResult -> W -> option W;
}.

Fixpoint run_before (l : list Middleware) (ctx : MiddlewareContext) (w : W) : W * result DispatchError MiddlewareContext :=
  match l with
  | [] => (w, Ok ctx)
  | m :: l => match before_dispatch m ctx w with (w, Ok ctx) => run_before l ctx w | (w, Err e) => (w, Err e) end
  end.

Fixpoint run_after (l : list Middleware) (ctx : MiddlewareContext) (r : result DispatchError DispatchResult) (w : W) : option W :=
  match l with
  | [] => Some w
  | m :: l => w ← after_dispatch m ctx r w; run_after l ctx r w
  end.

(** [ToolPipeline::dispatch_with_meta]: the world is lost when a middleware panics. *)
Definition pipeline_dispatch (l : list Middleware) (action_name : str) (params : Value) (meta : option Value) (actual : ThreadAffinity) (clk clk' : Clock)
    (d : ToolDispatcher) (w : W) : option (ToolDispatcher * W * result DispatchError DispatchResult) :=
  match run_before l (mkCtx action_name params []) w with
  | (w, Err e) => Some (d, w, Err e)
  | (w, Ok ctx) =>
      let '(d, w, r) := dispatch action_name (ctx_params ctx) meta actual clk clk' d w in
      w ← run_after (reverse l) ctx r w; Some (d, w, r)
  end.

(** ** Audit *)

Record AuditRecord : Type := mkAudit {
  a_action : str;
  a_params : Value;
  a_success : bool;
  a_error : option str;
  output_preview : option str;
}.

(** The prefix of [n] bytes, when a character ends there: [&s[..n]] panics otherwise. *)
Fixpoint byte_prefix (n : nat) (s : str) : option str :=
  match s with
  | [] => if (n =? 0)%nat then Some [] else None
  | c :: s =>
      if (n =? 0)%nat then Some []
      else if (n <? len_utf8 c)%nat then None
      else (fun p => c :: p) <$> byte_prefix (n - len_utf8 c) s
  end.

Definition preview (text : str) : option str :=
  if (256 <? str_len text)%nat then (fun p => p ++ lit "...") <$> byte_prefix 256 text else Some text.

(** [AuditMiddleware]: its records are a part of the world. *)
Definition audit_record (record_params : bool) (ctx : MiddlewareContext) (r : result DispatchError DispatchResult) : option AuditRecord :=
  let params := if record_params then ctx_params ctx else Null in
  match r with
  | Ok ok => (fun p => mkAudit (ctx_action ctx) params true None (Some p)) <$> preview (json_to_string (output ok))
  | Err e => Some (mkAudit (ctx_action ctx) params false (Some (error_text e)) None)
  end.

Definition audit_middleware (record_params : bool) (push : AuditRecord -> W -> W) : Middleware :=
  mkMiddleware (lit "audit") (fun ctx w => (w, Ok ctx)) (fun ctx r w => (fun a => push a w) <$> audit_record record_params ctx r).

End Dispatch.
Arguments ToolDispatcher W : clear implicits.
Arguments Middleware W : clear implicits.
