(* ===== verification/ActionDispatchProps.v ===== *)
(** Theorems on the event bus, the dispatcher and the pipeline ([EventBus.v],
    [ActionDispatch.v]). *)

From S2P Require Import Prelude Text Json ActionRegistry ActionValidator EventBus ActionDispatch.

Local Open Scope Z_scope.

(** ** Patterns *)

(** A pattern matches an event exactly when it is the event's name, a lone star, a
    star after a dot, or the dotted prefix of the name followed by a dot and a star. *)
Theorem subscription_exact (pattern name : str) :
  subscription_matches pattern name = true <->
    pattern = name \/ pattern = lit "*" \/ pattern = lit ".*" \/ exists prefix rest, pattern = prefix ++ lit ".*" /\ name = prefix ++ lit "." ++ rest.
Proof.
  unfold subscription_matches. destruct (bool_decide (pattern = name)) eqn:E1; cbn [orb].
  { apply bool_decide_eq_true in E1. split; [by left|done]. }
  destruct (bool_decide (pattern = lit "*")) eqn:E2; [apply bool_decide_eq_true in E2; split; [by right; left|done]|].
  apply bool_decide_eq_false in E1, E2. destruct (strip_suffix (lit ".*") pattern) as [prefix|] eqn:Es.
  - apply strip_suffix_Some in Es as ->. split.
    + intros H. right. right. case_bool_decide as Ep; [left; by rewrite Ep|]. right.
      destruct (strip_prefix prefix name) as [[|c rest]|] eqn:E; try done. apply Z.eqb_eq in H as ->. apply strip_prefix_Some in E as ->.
      by exists prefix, rest.
    + intros [H|[H|[H|(prefix' & rest & H & ->)]]]; [done|done|..].
      * apply (app_inv_tail (lit ".*") prefix []) in H as ->. by rewrite bool_decide_true.
      * apply app_inv_tail in H as <-. case_bool_decide; [done|]. by rewrite strip_prefix_app.
  - split; [done|]. intros [H|[H|[H|(prefix & rest & -> & _)]]]; [by destruct E1|done|subst pattern; by vm_compute in Es|].
    assert (Hs : strip_suffix (lit ".*") (prefix ++ lit ".*") = Some prefix) by (by apply strip_suffix_Some). by rewrite Hs in Es.
Qed.

(** ** Subscriptions *)

Section Bus.
Context {W : Type} {HO : HashOrder (list (Z * (EventEnvelope -> W -> W)))}.

Inductive bus_op : Type :=
| Subscribe (name : str) (cb : EventEnvelope -> W -> W)
| Unsubscribe (name : str) (id : Z)
| Before (name : str) (hook : EventEnvelope -> W -> W * hook_answer)
| UnsubscribeBefore (name : str) (id : Z)
| MakeEvent (name : str) (src corr attrs : Value) (now : Z).

Definition bus_step (op : bus_op) (b : EventBus W) : EventBus W :=
  match op with
  | Subscribe n cb => fst (subscribe_event n cb b)
  | Unsubscribe n id => fst (unsubscribe_event n id b)
  | Before n h => fst (before n h b)
  | UnsubscribeBefore n id => fst (unsubscribe_before n id b)
  | MakeEvent n s c a now => fst (make_event n s c a now b)
  end.

Definition bus_run (ops : list bus_op) : EventBus W := foldl (fun b op => bus_step op b) bus_new ops.

(** The subscriptions in force, with their patterns, and the number of identifiers given. *)
Definition sub_step (op : bus_op) (s : list (str * (Z * (EventEnvelope -> W -> W))) * Z) :=
  let '(l, n) := s in
  match op with
  | Subscribe name cb => (l ++ [(name, (n + 1, cb))], n + 1)
  | Unsubscribe name id => (base.filter (fun e => ~ (fst e = name /\ fst (snd e) = id)) l, n)
  | Before name _ => (l, if is_vetoable_event name then n + 1 else n)
  | _ => (l, n)
  end.

Definition in_force (ops : list bus_op) := foldl (fun s op => sub_step op s) ([], 0) ops.

(** The table has, for each pattern, the subscriptions of that pattern in order. *)
Definition table_of (b : EventBus W) (l : list (str * (Z * (EventEnvelope -> W -> W)))) : Prop :=
  forall p, default [] (subscribers b !! p) = map snd (base.filter (fun e => fst e = p) l).

Lemma in_force_bound ops : 0 <= snd (in_force ops) <= Z.of_nat (length ops) /\ Forall (fun e => 0 < fst (snd e) <= snd (in_force ops)) (fst (in_force ops)) /\
  NoDup (map (fun e => fst (snd e)) (fst (in_force ops))).
Proof.
  unfold in_force. induction ops as [|op ops IH] using rev_ind; [split; [cbn; lia|split; [constructor|constructor]]|].
  rewrite foldl_app, length_app. cbn [foldl length]. destruct (foldl _ _ ops) as [l n]. cbn [fst snd] in *. destruct IH as (H1 & H2 & H3).
  assert (Hle : Forall (fun e : str * (Z * (EventEnvelope -> W -> W)) => 0 < fst (snd e) <= n + 1) l) by (eapply Forall_impl; [exact H2|]; cbn; lia).
  destruct op as [name cb|name id|name h|name id|]; cbn [sub_step fst snd].
  - split; [lia|]. split; [apply Forall_app; split; [done|]; repeat constructor; cbn; lia|].
    rewrite map_app. cbn [map fst snd]. apply NoDup_app. split; [done|]. split; [|apply NoDup_singleton].
    intros x Hx ->%list_elem_of_singleton. apply list_elem_of_fmap in Hx as (e & He & Hin). apply (proj1 (Forall_forall _ _) H2) in Hin. lia.
  - split; [lia|]. split.
    + apply Forall_forall. intros e [_ He]%list_elem_of_filter. by apply (proj1 (Forall_forall _ _) H2).
    + by apply NoDup_map_filter.
  - destruct (is_vetoable_event name); (split; [lia|]; split; done).
  - split; [lia|]; split; done.
  - split; [lia|]; split; done.
Qed.

Lemma without_filter (p : str) id (l : list (str * (Z * (EventEnvelope -> W -> W)))) :
  without_id id (map snd (base.filter (fun e => fst e = p) l)) = map snd (base.filter (fun e => fst e = p) (base.filter (fun e => ~ (fst e = p /\ fst (snd e) = id)) l)).
Proof.
  unfold without_id. rewrite filter_map_comm, !list_filter_filter. f_equal. apply list_filter_iff. intros e. cbn. split; [|tauto].
  intros [H1 H2]. split; [done|]. by intros [_ ?].
Qed.

Lemma other_filter (p q : str) id (l : list (str * (Z * (EventEnvelope -> W -> W)))) :
  p <> q -> base.filter (fun e => fst e = q) (base.filter (fun e => ~ (fst e = p /\ fst (snd e) = id)) l) = base.filter (fun e => fst e = q) l.
Proof.
  intros Hpq. rewrite list_filter_filter. apply list_filter_iff. intros e. cbn. split; [by intros [? _]|intros ->; split; [done|]; by intros [? _]].
Qed.

Lemma run_tables ops :
  Z.of_nat (length ops) < 2 ^ 64 -> table_of (bus_run ops) (fst (in_force ops)) /\ next_id (bus_run ops) = snd (in_force ops).
Proof.
  unfold bus_run. induction ops as [|op ops IH] using rev_ind; intros Hlen.
  - split; [|done]. intros p. cbn. by rewrite lookup_empty.
  - rewrite length_app in Hlen. cbn [length] in Hlen. destruct IH as [Ht Hn]; [lia|]. pose proof (in_force_bound ops) as (Hb & _ & _).
    unfold in_force in *. rewrite !foldl_app. cbn [foldl]. destruct (foldl (fun s op => sub_step op s) _ ops) as [l n]. set (b := foldl _ bus_new ops) in *. cbn [fst snd] in *.
    assert (Hsucc : wrapping_succ (next_id b) = n + 1) by (unfold wrapping_succ; rewrite Hn, Z.mod_small; lia).
    destruct op as [name cb|name id|name h|name id|nm s0 c0 a0 now]; cbn [bus_step sub_step fst snd].
    + unfold subscribe_event. cbn [fst next_id]. split; [|done]. intros p. cbn [subscribers]. rewrite filter_app, map_app, <- Ht.
      destruct (decide (p = name)) as [->|Hp].
      * rewrite lookup_insert_eq, filter_cons_True by done. cbn. by rewrite Hsucc.
      * rewrite lookup_insert_ne, filter_cons_False by (cbn; congruence). cbn. by rewrite app_nil_r.
    + split; [|unfold unsubscribe_event; by destruct (subscribers b !! name)]. intros p. specialize (Ht name) as Hname. unfold unsubscribe_event.
      destruct (decide (p = name)) as [->|Hp].
      * rewrite <- without_filter, <- Hname. destruct (subscribers b !! name) as [ls|] eqn:E; cbn [fst subscribers]; [by rewrite lookup_insert_eq|by rewrite E].
      * rewrite other_filter by congruence. rewrite <- Ht. destruct (subscribers b !! name); cbn [fst subscribers]; [by rewrite lookup_insert_ne|done].
    + unfold before, ensure_vetoable_event. destruct (is_vetoable_event name); cbn [fst next_id]; split; done.
    + unfold unsubscribe_before. destruct (before_subscribers b !! name); cbn [fst next_id]; split; done.
    + cbn [make_event fst next_id]. split; done.
Qed.

Lemma grouped {A} (Q : str -> bool) (m : gmap str (list A)) (l : list (str * A)) :
  (forall p, default [] (m !! p) = map snd (base.filter (fun e => fst e = p) l)) ->
  flat_map snd (base.filter (fun e => Q (fst e) = true) (map_to_list m)) ≡ₚ map snd (base.filter (fun e => Q (fst e) = true) l).
Proof.
  revert l. induction m as [|p ls m Hp IH] using map_ind; intros l Hl.
  - rewrite map_to_list_empty. cbn. destruct l as [|[q x] l]; [done|]. exfalso. specialize (Hl q). rewrite lookup_empty in Hl.
    rewrite filter_cons_True in Hl by done. done.
  - set (l1 := base.filter (fun e => fst e = p) l). set (l2 := base.filter (fun e => ~ fst e = p) l).
    assert (Hsplit : l ≡ₚ l1 ++ l2) by (symmetry; apply filter_app_complement).
    rewrite (map_to_list_insert m p ls Hp), Hsplit, filter_app, map_app. 
    assert (IH2 : flat_map snd (base.filter (fun e => Q (fst e) = true) (map_to_list m)) ≡ₚ map snd (base.filter (fun e => Q (fst e) = true) l2)).
    { apply IH. intros q. unfold l2. rewrite list_filter_filter. destruct (decide (q = p)) as [->|Hq].
      - rewrite Hp. cbn. clear. induction l as [|e l IHl]; [done|]. rewrite filter_cons_False; [done|tauto].
      - specialize (Hl q). rewrite lookup_insert_ne in Hl by done. rewrite Hl. f_equal. apply list_filter_iff. intros e. split; [|tauto].
        intros E. split; [done|]. congruence. }
    assert (Hls : map snd l1 = ls) by (specialize (Hl p); by rewrite lookup_insert_eq in Hl).
    assert (Hl1 : base.filter (fun e => Q (fst e) = true) l1 = if Q p then l1 else []).
    { unfold l1. clear. induction l as [|e l IHl]; [by destruct (Q p)|]. destruct (decide (fst e = p)) as [E|E].
      - rewrite filter_cons_True by done. rewrite filter_cons. rewrite E. destruct (Q p) eqn:EQ; destruct (decide _); try done. by rewrite IHl.
      - by rewrite filter_cons_False. }
    rewrite filter_cons. cbn [fst]. rewrite Hl1. destruct (Q p) eqn:EQ; destruct (decide _) as [HQ|HQ]; try done; cbn [flat_map snd].
    by rewrite IH2, Hls.
Qed.

(** After any history of subscriptions and removals an event is delivered to exactly the
    subscriptions in force whose pattern matches it, each once. *)
Theorem listeners_exact (ops : list bus_op) (name : str) (Hlen : Z.of_nat (length ops) < 2 ^ 64) :
  listeners name (bus_run ops) ≡ₚ map snd (base.filter (fun e => subscription_matches (fst e) name = true) (fst (in_force ops))) /\
  NoDup (map fst (listeners name (bus_run ops))).
Proof.
  destruct (run_tables ops Hlen) as [Ht _]. destruct (in_force_bound ops) as (_ & _ & Hnd).
  assert (Hp : listeners name (bus_run ops) ≡ₚ map snd (base.filter (fun e => subscription_matches (fst e) name = true) (fst (in_force ops)))).
  { rewrite <- (grouped (fun p => subscription_matches p name) _ _ Ht). unfold listeners. apply Permutation_flat_map.
    by rewrite hash_order_perm. }
  split; [done|]. rewrite Hp, map_map. by apply NoDup_map_filter.
Qed.

End Bus.

(** ** What a call does *)

(** What handlers, subscribers and hooks see, in order. *)
Inductive Entry : Type :=
| Ran (params : Value)
| Notified (id : Z) (name : str) (attrs : Value)
| Asked (id : Z).

Section Calls.
Abbreviation W := (list Entry).
Context {et : ErrorText} {HO : HashOrder (list (Z * (EventEnvelope -> W -> W)))}.

(** Handlers, subscribers and hooks that note what they are called with; what they answer
    is left open. *)
Record traced (d : ToolDispatcher W) : Prop := {
  tr_handler a h : handlers d !! a = Some h -> exists f, forall p w, h p w = (w ++ [Ran p], f p w);
  tr_listener name id cb : (id, cb) ∈ listeners name (event_bus d) -> forall e w, cb e w = w ++ [Notified id (event_name e) (attributes e)];
  tr_hook name l id h : before_subscribers (event_bus d) !! name = Some l -> (id, h) ∈ l -> exists f, forall e w, h e w = (w ++ [Asked id], f e w);
}.

(** The notices of an event. *)
Definition told (b : EventBus W) (name : str) (attrs : Value) : list Entry := map (fun l => Notified (fst l) name attrs) (listeners name b).

Definition listening (b : EventBus W) : Prop :=
  forall name id cb, (id, cb) ∈ listeners name b -> forall e w, cb e w = w ++ [Notified id (event_name e) (attributes e)].

Definition same_subs (b b' : EventBus W) : Prop := subscribers b' = subscribers b /\ before_subscribers b' = before_subscribers b.

Lemma same_listeners b b' name : same_subs b b' -> listeners name b' = listeners name b.
Proof. intros [H _]. unfold listeners. by rewrite H. Qed.

Lemma publish_told b e w : listening b -> publish_event e b w = w ++ told b (event_name e) (attributes e).
Proof.
  intros Hl. unfold publish_event, told. assert (H : forall id cb, (id, cb) ∈ listeners (event_name e) b -> forall e' w', cb e' w' = w' ++ [Notified id (event_name e') (attributes e')]) by apply Hl.
  revert w H. induction (listeners (event_name e) b) as [|[id cb] l IH]; intros w H; cbn [foldl map]; [by rewrite app_nil_r|].
  cbn [snd fst]. rewrite (H id cb) by left. rewrite IH; [by rewrite <- app_assoc|]. intros id' cb' Hin. apply H. by right.
Qed.

Lemma no_subscribers b name : has_subscribers name b = false -> listeners name b = [].
Proof.
  intros H. unfold listeners. apply flat_map_nil. intros [p l] [Hm Hin]%list_elem_of_filter. cbn [fst snd] in *.
  rewrite hash_order_perm in Hin. unfold has_subscribers in H. destruct l as [|x l]; [done|]. exfalso.
  apply not_true_iff_false in H. apply H, existsb_exists. exists (p, x :: l). split; [by apply list_elem_of_In|]. cbn [fst snd length]. by rewrite Hm.
Qed.

Lemma emit_told name a meta clk attrs b w :
  listening b -> exists b', emit_tool_event name a meta clk attrs b w = (b', w ++ told b name (snd (tool_event_payload a meta (duration_ms clk) attrs))) /\ same_subs b b'.
Proof.
  intros Hl. unfold emit_tool_event. destruct (has_subscribers name b) eqn:E; cbn [negb].
  - assert (Hobj : exists m, snd (tool_event_payload a meta (duration_ms clk) attrs) = Object m) by (unfold tool_event_payload; destruct meta; by eexists).
    destruct Hobj as [m Hm]. destruct (tool_event_payload a meta (duration_ms clk) attrs) as [src v]. cbn [snd] in *. subst v.
    unfold emit. cbn [make_event]. eexists. split; [f_equal|by split]. rewrite publish_told by done. done.
  - exists b. split; [|done]. unfold told. rewrite (no_subscribers b name E). cbn. by rewrite app_nil_r.
Qed.

Lemma run_hooks_trace hooks e (w : W) :
  (forall id h, (id, h) ∈ hooks -> exists f, forall e w, h e w = (w ++ [Asked id], f e w)) ->
  exists k r, run_hooks hooks e w = (w ++ take k (map (fun h => Asked (fst h)) hooks), r) /\ (r = Ok tt -> (length hooks <= k)%nat).
Proof.
  revert w. induction hooks as [|[id h] hooks IH]; intros w H; cbn [run_hooks map].
  - exists 0%nat, (Ok tt). rewrite app_nil_r. done.
  - destruct (H id h ltac:(left)) as [f Hf]. rewrite Hf. destruct (f e w) as [|v|msg].
    + destruct (IH (w ++ [Asked id])) as (k & r & E & Hr); [intros id' h' Hin; apply H; by right|]. exists (S k), r. rewrite E. cbn [take fst].
      rewrite <- app_assoc. split; [done|]. intros Hok. cbn. specialize (Hr Hok). lia.
    + exists 1%nat, (Err v). done.
    + eexists 1%nat, _. done.
Qed.

(** The hooks of a call, as they are asked. *)
Definition hooks_of (d : ToolDispatcher W) : list Entry :=
  map (fun h => Asked (fst h)) (default [] (before_subscribers (event_bus d) !! lit "tool.dispatched")).

Lemma vetoable_trace a meta clk attrs d w :
  traced d -> exists b' k r, emit_vetoable_tool_event (lit "tool.dispatched") a meta clk attrs (event_bus d) w =
    (b', w ++ take k (hooks_of d) ++ (match r with Ok _ => told (event_bus d) (lit "tool.dispatched") (snd (tool_event_payload a meta (duration_ms clk) attrs)) | Err _ => [] end), r) /\
    (r = Ok tt -> (length (hooks_of d) <= k)%nat) /\ same_subs (event_bus d) b'.
Proof.
  intros [Hh Hl Hk]. unfold emit_vetoable_tool_event.
  assert (Hobj : exists m, snd (tool_event_payload a meta (duration_ms clk) attrs) = Object m) by (unfold tool_event_payload; destruct meta; by eexists).
  destruct Hobj as [m Hm]. destruct (tool_event_payload a meta (duration_ms clk) attrs) as [src v]. cbn [snd] in *. subst v.
  unfold before_event. replace (ensure_vetoable_event (lit "tool.dispatched")) with (Ok (E := EventVeto) tt) by (symmetry; vm_compute; reflexivity).
  cbn [make_event]. set (e := mkEnvelope _ _ _ _ _ _ _). set (b' := mkBus _ _ _ _). unfold check_before_event.
  replace (ensure_vetoable_event (event_name e)) with (Ok (E := EventVeto) tt) by (symmetry; vm_compute; reflexivity).
  change (before_subscribers b' !! event_name e) with (before_subscribers (event_bus d) !! lit "tool.dispatched").
  destruct (run_hooks_trace (default [] (before_subscribers (event_bus d) !! lit "tool.dispatched")) e w) as (k & r & E & Hr).
  { intros id h Hin. destruct (before_subscribers (event_bus d) !! lit "tool.dispatched") as [l|] eqn:El; [|by apply elem_of_nil in Hin]. by eapply Hk. }
  rewrite E. fold (hooks_of d). destruct r as [[]|v].
  - exists b', k, (Ok tt). split; [|split; [|by split]].
    + rewrite publish_told by (intros n id cb Hin; by apply (Hl n)). by rewrite <- app_assoc.
    + intros _. unfold hooks_of. rewrite length_map. by apply Hr.
  - exists b', k, (Err v). rewrite app_nil_r. split; [done|]. split; [done|by split].
Qed.

(** Why a call is refused before anything is told of it, and what its events say of it. *)
Inductive refused (d : ToolDispatcher W) (a : str) (params : Value) (actual : ThreadAffinity) : option ToolMeta -> DispatchError -> Prop :=
| Refused_unknown : handlers d !! a = None -> refused d a params actual None (HandlerNotFound a)
| Refused_gate e : is_Some (handlers d !! a) -> gate a (get_action a None (registry d)) actual = Err e ->
    refused d a params actual (get_action a None (registry d)) e
| Refused_params msg : is_Some (handlers d !! a) -> gate a (get_action a None (registry d)) actual = Ok tt ->
    strategy_validate (get_action a None (registry d)) (skip_empty_schema_validation d) params = Err msg ->
    refused d a params actual (get_action a None (registry d)) (ValidationFailed msg).

Definition admitted (d : ToolDispatcher W) (a : str) (params : Value) (actual : ThreadAffinity) (skipped : bool) : Prop :=
  is_Some (handlers d !! a) /\ gate a (get_action a None (registry d)) actual = Ok tt /\
  strategy_validate (get_action a None (registry d)) (skip_empty_schema_validation d) params = Ok skipped.

(** The notices of an event of a call. *)
Definition notices (d : ToolDispatcher W) (a : str) (m : option ToolMeta) (name : str) (attrs : JsonMap) (clk : Clock) : list Entry :=
  told (event_bus d) name (snd (tool_event_payload a m (duration_ms clk) attrs)).

Lemma say_told name a m attrs clk d b w :
  traced d -> same_subs (event_bus d) b ->
  exists b', emit_tool_event name a m clk attrs b w = (b', w ++ notices d a m name attrs clk) /\ same_subs (event_bus d) b'.
Proof.
  intros Ht Hb. assert (Hl : listening b) by (intros n id cb Hin; rewrite (same_listeners _ _ n Hb) in Hin; by apply (tr_listener _ Ht n)).
  destruct (emit_told name a m clk attrs b w Hl) as (b' & -> & Hb'). exists b'. split.
  - unfold notices, told. by rewrite (same_listeners _ _ name Hb).
  - destruct Hb as [H1 H2], Hb' as [H3 H4]. split; congruence.
Qed.

(** C24: the handler runs exactly in the calls that are admitted (registered, enabled, on the
    right thread, with valid parameters) and that no hook vetoes, once, after the hooks and
    the [tool.dispatched] notices, on the parameters with [_meta] added; every call ends with
    one round of notices, [tool.completed] when it succeeds and [tool.failed] otherwise; a
    veto stops the hooks after it; and nothing of the dispatcher changes but the counter of
    events. *)
Theorem dispatch_trace (a : str) (params : Value) (meta : option Value) (actual : ThreadAffinity) (clk clk' : Clock)
  (d d' : ToolDispatcher W) (w w' : W) (r : result DispatchError DispatchResult) :
  traced d -> dispatch a params meta actual clk clk' d w = (d', w', r) ->
  let m := get_action a None (registry d) in
  let start skipped := hooks_of d ++ notices d a m (lit "tool.dispatched") [(lit "validation_skipped", Bool skipped)] clk ++ [Ran (inject_meta params meta)] in
  (registry d' = registry d /\ handlers d' = handlers d /\ same_subs (event_bus d) (event_bus d')) /\
  ((exists m e, refused d a params actual m e /\ r = Err e /\ w' = w ++ notices d a m (lit "tool.failed") (failed_attributes e) clk) \/
   (exists skipped v k, admitted d a params actual skipped /\ r = Err (Vetoed a (code v) (reason v)) /\
      w' = w ++ take k (hooks_of d) ++ notices d a m (lit "tool.failed") (failed_attributes (Vetoed a (code v) (reason v))) clk') \/
   (exists skipped msg, admitted d a params actual skipped /\ r = Err (HandlerError msg) /\
      w' = w ++ start skipped ++ notices d a m (lit "tool.failed") (failed_attributes (HandlerError msg)) clk') \/
   (exists skipped out, admitted d a params actual skipped /\ r = Ok (mkResult a out skipped) /\
      w' = w ++ start skipped ++ notices d a m (lit "tool.completed")
        [(lit "validation_skipped", Bool skipped); (lit "result_success", Bool (tool_result_success out))] clk')).
Proof.
  intros Ht. pose proof Ht as [Hh Hl Hk]. unfold dispatch, dispatch_inner. cbv zeta.
  assert (Hsay : forall name m attrs c b w, same_subs (event_bus d) b -> exists b', emit_tool_event name a m c attrs b w = (b', w ++ notices d a m name attrs c) /\ same_subs (event_bus d) b')
    by (intros; by apply say_told).
  assert (Hrefl : same_subs (event_bus d) (event_bus d)) by done. set (m := get_action a None (registry d)) in *.
  assert (Hfail : forall m e, refused d a params actual m e ->
    (let '(b, w0) := emit_tool_failed a m e clk (event_bus d) w in (with_bus b d, w0, Err e)) = (d', w', r) ->
    (registry d' = registry d /\ handlers d' = handlers d /\ same_subs (event_bus d) (event_bus d')) /\
    exists m e, refused d a params actual m e /\ r = Err e /\ w' = w ++ notices d a m (lit "tool.failed") (failed_attributes e) clk).
  { intros m' e He. unfold emit_tool_failed. destruct (Hsay (lit "tool.failed") m' (failed_attributes e) clk (event_bus d) w Hrefl) as (b & -> & Hb).
    intros [= <- <- <-]. split; [by split_and!|]. by exists m', e. }
  destruct (handlers d !! a) as [handler|] eqn:Ehandler.
  2: { intros H. apply Hfail in H as [H1 H2]; [|by constructor]. split; [done|by left]. }
  destruct (gate a m actual) as [[]|e] eqn:Egate.
  2: { intros H. apply Hfail in H as [H1 H2]; [|by constructor]. split; [done|by left]. }
  destruct (strategy_validate m _ params) as [skipped|msg] eqn:Eval.
  2: { intros H. apply Hfail in H as [H1 H2]; [|by constructor]. split; [done|by left]. }
  assert (Had : admitted d a params actual skipped) by (split; [by eexists|done]).
  destruct (vetoable_trace a m clk [(lit "validation_skipped", Bool skipped)] d w Ht) as (b & k & rv & -> & Hall & Hb). clear Hfail.
  destruct rv as [[]|v].
  2: { unfold emit_tool_failed. destruct (Hsay (lit "tool.failed") m (failed_attributes (Vetoed a (code v) (reason v))) clk' b (w ++ take k (hooks_of d) ++ []) Hb) as (b2 & -> & Hb2).
       intros [= <- <- <-]. split; [by split_and!|]. right. left. exists skipped, v, k. split; [done|]. split; [done|]. by rewrite app_nil_r, <- app_assoc. }
  rewrite take_ge by (by apply Hall). destruct (Hh a handler Ehandler) as [f Hf]. rewrite Hf. fold (notices d a m (lit "tool.dispatched") [(lit "validation_skipped", Bool skipped)] clk).
  destruct (f _ _) as [out|msg].
  - match goal with |- context [emit_tool_event ?n a m clk' ?at' b ?w0] => destruct (Hsay n m at' clk' b w0 Hb) as (b2 & -> & Hb2) end.
    intros [= <- <- <-]. split; [by split_and!|]. right. right. right. exists skipped, out. split; [done|]. split; [done|]. by rewrite <- !app_assoc.
  - unfold emit_tool_failed. match goal with |- context [emit_tool_event ?n a m clk' ?at' b ?w0] => destruct (Hsay n m at' clk' b w0 Hb) as (b2 & -> & Hb2) end.
    intros [= <- <- <-]. split; [by split_and!|]. right. right. left. exists skipped, msg. split; [done|]. split; [done|]. by rewrite <- !app_assoc.
Qed.

End Calls.

(** ** The pipeline *)

Section Pipeline.
Inductive mark : Type := Entered (i : nat) | Left (i : nat).
Abbreviation W := (list mark).
Context {et : ErrorText} {HO : HashOrder (list (Z * (EventEnvelope -> W -> W)))}.

(** Middleware that notes its calls; what it answers and what it makes of the context is
    left open. *)
Record marked (i : nat) (m : Middleware W) : Prop := {
  mk_before : exists f, forall ctx w, before_dispatch m ctx w = (w ++ [Entered i], f ctx);
  mk_after ctx r w : after_dispatch m ctx r w = Some (w ++ [Left i]);
}.

Lemma run_before_marks l k ctx w :
  (forall i m, l !! i = Some m -> marked (k + i) m) ->
  (exists ctx', run_before l ctx w = (w ++ map Entered (seq k (length l)), Ok ctx')) \/
  (exists n e, (n < length l)%nat /\ run_before l ctx w = (w ++ map Entered (seq k (S n)), Err e)).
Proof.
  revert k ctx w. induction l as [|m l IH]; intros k ctx w Hl; cbn [run_before].
  - left. exists ctx. by rewrite app_nil_r.
  - destruct (Hl 0%nat m eq_refl) as [[f Hf] _]. rewrite Nat.add_0_r in Hf. rewrite Hf. destruct (f ctx) as [ctx'|e].
    + destruct (IH (S k) ctx' (w ++ [Entered k])) as [[c ->]|(n & e & Hn & ->)].
      * intros i m' Hi. specialize (Hl (S i) m' Hi). by rewrite Nat.add_succ_r in Hl.
      * left. exists c. cbn [length seq map]. by rewrite <- app_assoc.
      * right. exists (S n), e. split; [cbn; lia|]. change (seq k (S (S n))) with (k :: seq (S k) (S n)). cbn [map]. by rewrite <- app_assoc.
    + right. exists 0%nat, e. split; [cbn; lia|done].
Qed.

Lemma run_after_marks l ctx r (w : W) ids :
  Forall2 marked ids l -> run_after l ctx r w = Some (w ++ map Left ids).
Proof.
  intros H. revert w. induction H as [|i m ids l Hm _ IH]; intros w; cbn [run_after map]; [by rewrite app_nil_r|].
  destruct Hm as [_ Ha]. rewrite Ha. cbn [mbind option_bind]. by rewrite IH, <- app_assoc.
Qed.

(** The middleware is entered in the order of registration until one refuses; then the
    handler is not reached and no middleware is left, not even those entered before it, and
    so no audit entry is made.  Otherwise the call goes to the dispatcher with the parameters
    as the middleware left them, and all are left in the reverse order, with the call's
    result. *)
Theorem pipeline_order (l : list (Middleware W)) (a : str) (params : Value) (meta : option Value) (actual : ThreadAffinity) (clk clk' : Clock)
  (d : ToolDispatcher W) (w : W) :
  (forall i m, l !! i = Some m -> marked i m) ->
  (exists n e, (n < length l)%nat /\ pipeline_dispatch l a params meta actual clk clk' d w = Some (d, w ++ map Entered (seq 0 (S n)), Err e)) \/
  (exists ctx, snd (run_before l (mkCtx a params []) w) = Ok ctx /\
     pipeline_dispatch l a params meta actual clk clk' d w =
       let '(d', w', r) := dispatch a (ctx_params ctx) meta actual clk clk' d (w ++ map Entered (seq 0 (length l))) in
       Some (d', w' ++ map Left (reverse (seq 0 (length l))), r)).
Proof.
  intros Hl. unfold pipeline_dispatch.
  destruct (run_before_marks l 0 (mkCtx a params []) w Hl) as [[ctx ->]|(n & e & Hn & ->)].
  - right. exists ctx. split; [done|]. destruct (dispatch _ _ _ _ _ _ d _) as [[d' w'] r].
    rewrite (run_after_marks _ ctx r w' (reverse (seq 0 (length l)))); [done|]. apply Forall2_reverse, Forall2_same_length_lookup_2; [by rewrite length_seq|].
    intros i j m Hj Hm. apply lookup_seq in Hj as [-> _]. by apply Hl.
  - left. exists n, e. by split.
Qed.

End Pipeline.

(** ** Audit *)

Lemma byte_prefix_spec n s p : byte_prefix n s = Some p <-> exists q, s = p ++ q /\ str_len p = n.
Proof.
  revert n p. induction s as [|c s IH]; intros n p; cbn [byte_prefix].
  - destruct (Nat.eqb_spec n 0) as [->|Hn].
    + split; [intros [= <-]; by exists []|]. intros (q & E & _). symmetry in E. by apply app_nil in E as [-> _].
    + split; [done|]. intros (q & E & Hl). symmetry in E. apply app_nil in E as [-> _]. cbn in Hl. lia.
  - assert (Hc : (1 <= len_utf8 c)%nat) by (unfold len_utf8; repeat case_match; lia).
    destruct (Nat.eqb_spec n 0) as [->|Hn].
    + split; [intros [= <-]; by exists (c :: s)|]. intros (q & E & Hl). destruct p as [|x p]; [done|]. exfalso. injection E as -> _.
      unfold str_len in Hl. cbn in Hl. lia.
    + destruct (Nat.ltb_spec n (len_utf8 c)).
      * split; [done|]. intros (q & E & Hl). destruct p as [|x p]; [cbn in Hl; lia|]. injection E as -> _. unfold str_len in Hl. cbn in Hl. lia.
      * rewrite fmap_Some. setoid_rewrite IH. split.
        -- intros (p' & (q & -> & Hl) & ->). exists q. split; [done|]. unfold str_len in *. cbn. lia.
        -- intros (q & E & Hl). destruct p as [|x p]; [cbn in Hl; lia|]. injection E as -> ->. exists p. split; [|done]. exists q. split; [done|].
           unfold str_len in *. cbn in Hl. lia.
Qed.

(** The audit middleware panics, after the handler has run, exactly when the call
    succeeded and the text of its output has more than 256 bytes and no character that ends
    at the 256th; otherwise it adds one entry, with the text cut at 256 bytes. *)
Theorem audit_panics {et : ErrorText} (record_params : bool) (ctx : MiddlewareContext) (r : result DispatchError DispatchResult) :
  (audit_record record_params ctx r = None <->
     exists ok, r = Ok ok /\ (256 < str_len (json_to_string (output ok)))%nat /\
       forall p q, json_to_string (output ok) = p ++ q -> str_len p <> 256%nat) /\
  forall rec, audit_record record_params ctx r = Some rec ->
    a_action rec = ctx_action ctx /\ a_params rec = (if record_params then ctx_params ctx else Null) /\
    (a_success rec = true <-> exists ok, r = Ok ok) /\ a_error rec = match r with Err e => Some (error_text e) | Ok _ => None end /\
    forall ok, r = Ok ok -> exists shown, output_preview rec = Some shown /\
      (shown = json_to_string (output ok) \/ exists p q, json_to_string (output ok) = p ++ q /\ str_len p = 256%nat /\ shown = p ++ lit "...").
Proof.
  unfold audit_record. destruct r as [ok|e].
  2: { split; [split; [done|by intros (? & ? & _)]|]. intros rec [= <-]. cbn. split_and!; try done. split; [done|by intros []]. }
  set (text := json_to_string (output ok)). unfold preview. destruct (Nat.ltb_spec 256 (str_len text)) as [Hlen|Hlen].
  - destruct (byte_prefix 256 text) as [p|] eqn:E; cbn.
    + apply byte_prefix_spec in E as (q & E & Hp). split.
      * split; [done|]. intros (ok' & [= <-] & _ & H). by apply H in E.
      * intros rec [= <-]. cbn. split_and!; try done; [split; [by eexists|done]|]. intros ok' [= <-]. eexists. split; [done|]. right. by exists p, q.
    + split; [|done]. split; [|done]. intros _. exists ok. split; [done|]. split; [done|]. intros p q Ep Hp.
      assert (H : byte_prefix 256 text = Some p) by (apply byte_prefix_spec; by exists q). congruence.
  - split; cbn.
    + split; [done|]. intros (ok' & [= <-] & H & _). fold text in H. lia.
    + intros rec [= <-]. cbn. split_and!; try done; [split; [by eexists|done]|]. intros ok' [= <-]. eexists. split; [done|by left].
Qed.

(** ** Examples *)

Definition note (id : Z) (e : EventEnvelope) (w : list Entry) : list Entry := w ++ [Notified id (event_name e) (attributes e)].
Definition asking (id : Z) (answer : hook_answer) (e : EventEnvelope) (w : list Entry) : list Entry * hook_answer := (w ++ [Asked id], answer).
Definition sphere_handler (p : Value) (w : list Entry) : list Entry * result str Value := (w ++ [Ran p], Ok (Object [(lit "created", Bool true)])).

Definition sphere_ops (answer : hook_answer) : list (bus_op (W := list Entry)) :=
  [Subscribe (lit "tool.*") (note 1); Before (lit "tool.dispatched") (asking 2 answer); Subscribe (lit "job.*") (note 3);
   Subscribe (lit "*") (note 4); Unsubscribe (lit "*") 4].

Definition sphere_dispatcher (answer : hook_answer) : ToolDispatcher (list Entry) :=
  mkDispatcher (reg_run [Register (with_schema sphere_schema)]) {[lit "sphere" := sphere_handler]} (bus_run (sphere_ops answer)) true.

Definition clock0 : Clock := mkClock 0 1000.

Lemma sphere_traced answer : traced (sphere_dispatcher answer).
Proof.
  split.
  - intros a h H. cbn [handlers sphere_dispatcher] in H. apply lookup_singleton_Some in H as [_ <-]. by exists (fun _ _ => Ok (Object [(lit "created", Bool true)])).
  - intros name id cb H. destruct (listeners_exact (sphere_ops answer) name ltac:(cbn; lia)) as [Hp _].
    cbn [event_bus sphere_dispatcher] in H. rewrite Hp in H. apply list_elem_of_fmap in H as ([p [i c]] & E & Hin). cbn [snd] in E. injection E as -> ->.
    apply list_elem_of_filter in Hin as [_ Hin]. vm_compute in Hin.
    apply elem_of_cons in Hin as [E|Hin]; [by injection E as _ -> ->|]. apply elem_of_cons in Hin as [E|Hin]; [by injection E as _ -> ->|].
    by apply elem_of_nil in Hin.
  - intros name l id h H Hin. assert (Hb : before_subscribers (bus_run (sphere_ops answer)) = {[lit "tool.dispatched" := [(2, asking 2 answer)]]}) by reflexivity.
    cbn [event_bus sphere_dispatcher] in H. rewrite Hb in H. apply lookup_singleton_Some in H as [_ <-].
    apply list_elem_of_singleton in Hin as [= -> ->]. by exists (fun _ _ => answer).
Qed.

Definition sphere_call (answer : hook_answer) (radius : Value) :=
  dispatch (lit "sphere") (Object [(lit "radius", radius)]) (Some (Str (lit "ctx"))) AnyThread clock0 clock0 (sphere_dispatcher answer) [].

Lemma dispatch_trace_witness :
  (exists a1 a2, snd (fst (sphere_call Allow (Num (PosInt 2)))) =
    [Asked 2; Notified 1 (lit "tool.dispatched") a1; Ran (Object [(lit "radius", Num (PosInt 2)); (lit "_meta", Str (lit "ctx"))]);
     Notified 1 (lit "tool.completed") a2]) /\
  (forall p, Ran p ∉ snd (fst (sphere_call (Refuse (with_code [] [])) (Num (PosInt 2))))).
Proof.
  split.
  - vm_compute. do 2 eexists. reflexivity.
  - intros p. destruct (sphere_call (Refuse (with_code [] [])) (Num (PosInt 2))) as [[d' w'] r] eqn:E.
    pose proof (dispatch_trace _ _ _ _ _ _ _ _ _ _ _ (sphere_traced (Refuse (with_code [] []))) E) as [_ H]. cbv zeta in H. cbn [fst snd].
    assert (Hr : r = Err (Vetoed (lit "sphere") (lit "vetoed") (lit "event vetoed"))) by (apply (f_equal snd) in E; vm_compute in E; exact (eq_sym E)).
    assert (Htold : forall d m n at' c, Ran p ∉ notices d (lit "sphere") m n at' c).
    { intros d m n at' c Hin. unfold notices, told in Hin. by apply list_elem_of_fmap in Hin as (? & ? & _). }
    assert (Hasked : forall d k, Ran p ∉ take k (hooks_of d)).
    { intros d k Hin. eapply elem_of_sublist in Hin; [|apply sublist_take]. unfold hooks_of in Hin. by apply list_elem_of_fmap in Hin as (? & ? & _). }
    destruct H as [(m & e & _ & _ & ->)|[(s & v & k & _ & _ & ->)|[(s & msg & _ & Hbad & _)|(s & out & _ & Hbad & _)]]]; [..|congruence|congruence].
    + rewrite app_nil_l. apply Htold.
    + rewrite app_nil_l, elem_of_app. intros [Hin|Hin]; [by apply Hasked in Hin|by apply Htold in Hin].
Defined.

Lemma listeners_exact_witness :
  map fst (listeners (lit "tool.failed") (bus_run (sphere_ops Allow))) ≡ₚ [1] /\ NoDup (map fst (listeners (lit "tool.failed") (bus_run (sphere_ops Allow)))).
Proof.
  destruct (listeners_exact (sphere_ops Allow) (lit "tool.failed") ltac:(cbn; lia)) as [Hp Hn]. split; [|exact Hn]. rewrite Hp. vm_compute. reflexivity.
Defined.

(** A rate limiter that refuses, after an audit that is never left. *)
Definition marking (i : nat) (answer : MiddlewareContext -> result DispatchError MiddlewareContext) : Middleware (list mark) :=
  mkMiddleware (lit "m") (fun ctx w => (w ++ [Entered i], answer ctx)) (fun ctx r w => Some (w ++ [Left i])).

Definition limited : list (Middleware (list mark)) := [marking 0 Ok; marking 1 (fun _ => Err (HandlerError (lit "slow down")))].

Lemma pipeline_order_witness :
  exists e, pipeline_dispatch limited (lit "sphere") Null None AnyThread clock0 clock0 (dispatcher_new registry_new) [] =
    Some (dispatcher_new registry_new, [Entered 0; Entered 1], Err e).
Proof.
  destruct (pipeline_order limited (lit "sphere") Null None AnyThread clock0 clock0 (dispatcher_new registry_new) []) as [(n & e & Hn & H)|(ctx & H & _)].
  - intros [|[|i]] m H; [| |done]; injection H as <-; (split; [by eexists|done]).
  - exists e. rewrite H. destruct n as [|[|n]]; [|done|cbn in Hn; lia]. exfalso.
    apply (f_equal (fmap (fun x => snd (fst x)))) in H. vm_compute in H. discriminate H.
  - done.
Defined.

(** An output of 171 characters of two bytes: the 256th byte of its text is inside one. *)
Definition accents : ErrorText := {| display_f64 _ := []; debug_words _ := []; error_json := fun _ => 34 :: replicate 171 233 |}.

Example audit_crash :
  audit_record (et := accents) true (mkCtx (lit "sphere") Null []) (Ok (mkResult (lit "sphere") (Str (replicate 171 233)) true)) = None.
Proof. vm_compute. reflexivity. Qed.

(** A tool that is listed as enabled for one DCC and refused when it is called. *)
Example listed_but_refused :
  let ops := [Register (sample_tool "sphere" "maya" "m" None); Register (sample_tool "sphere" "blender" "b" None); SetGroup (lit "b") false] in
  map name (list_actions_enabled (Some (lit "maya")) (reg_run ops)) = [lit "sphere"] /\
  gate (lit "sphere") (get_action (lit "sphere") None (reg_run ops)) AnyThread = Err (ActionDisabled (lit "sphere") (lit "b")).
Proof. split; vm_compute; reflexivity. Qed.
