(* ===== verification/ActionChain.v ===== *)
(** Chains of tool calls: [dcc-mcp-actions/src/chain_types.rs], [chain_interpolate.rs],
    [chain_exec.rs].  Then their theorems. *)

From S2P Require Import Prelude Json Text ActionRegistry ActionValidator EventBus ActionDispatch ActionDispatchProps.

Local Open Scope Z_scope.

(** ** The context *)

Definition merge_into_context (context : Value) (src : JsonMap) : Value :=
  Object (foldl (fun m kv => json_insert (fst kv) (snd kv) m) (match context with Object m => m | _ => [] end) src).

(** [Value::get] with a string. *)
Definition value_get (k : str) (v : Value) : option Value := match v with Object m => json_get k m | _ => None end.

(** ** Placeholders *)

Definition ch_open : Z := 123.
Definition ch_close : Z := 125.

Section Interpolate.
Context {jt : JsonText}.

Definition value_to_string (v : Value) : str :=
  match v with Str s => s | Null => lit "null" | _ => json_to_string v end.

(** The whole string is one placeholder. *)
Definition whole_key (s : str) : option str :=
  match s with
  | c :: rest =>
      if (c =? ch_open) && ends_with [ch_close] s && (2 <? str_len s)%nat then
        let key := removelast rest in
        if contains [ch_open] key || contains [ch_close] key then None else Some key
      else None
  | [] => None
  end.

(** The general case; the fuel is one more than the length of the text. *)
Fixpoint replace_loop (fuel : nat) (remaining : str) (context : Value) : str :=
  match fuel with
  | O => []
  | S fuel =>
      match split_once [ch_open] remaining with
      | None => remaining
      | Some (before, rest) =>
          before ++
          match split_once [ch_close] rest with
          | None => [ch_open] ++ rest
          | Some (key, rest) =>
              (if negb (bool_decide (key = [])) && negb (contains [ch_open] key) then
                 match value_get key context with
                 | Some v => value_to_string v
                 | None => [ch_open] ++ key ++ [ch_close]
                 end
               else [ch_open] ++ key ++ [ch_close]) ++
              replace_loop fuel rest context
          end
      end
  end.

Definition interpolate_string (s : str) (context : Value) : Value :=
  match whole_key s ≫= fun k => value_get k context with
  | Some v => v
  | None => Str (replace_loop (S (length s)) s context)
  end.

Fixpoint interpolate (value context : Value) : Value :=
  match value with
  | Str s => interpolate_string s context
  | Object m => Object (map (fun kv => (fst kv, interpolate (snd kv) context)) m)
  | Array l => Array (map (fun v => interpolate v context) l)
  | _ => value
  end.

End Interpolate.

(** ** Chains *)

Inductive ErrorAction : Type := Abort_ | Continue_.

Inductive StepParams : Type :=
| Static (v : Value)
| Dynamic (f : Value -> Value).

Record ChainStep : Type := mkStep { step_action : str; label : option str; stop_on_failure : bool; step_params : StepParams }.

Record ActionChain : Type := mkChain { chain_steps : list ChainStep; on_error : option (DispatchError -> Value -> ErrorAction) }.

Record ChainStepResult : Type := mkStepResult {
  index : nat;
  r_action : str;
  r_label : str;
  r_success : bool;
  r_output : Value;
  r_error : option str;
}.

Record ChainResult : Type := mkChainResult {
  success : bool;
  results : list ChainStepResult;
  context : Value;
  aborted_at : option nat;
  message : str;
}.

Definition chain_new : ActionChain := mkChain [] None.
Definition chain_step (a : str) (p : StepParams) (c : ActionChain) : ActionChain :=
  mkChain (chain_steps c ++ [mkStep a None true p]) (on_error c).
Definition alter_last (f : ChainStep -> ChainStep) (c : ActionChain) : ActionChain :=
  mkChain (alter f (length (chain_steps c) - 1)%nat (chain_steps c)) (on_error c).
Definition set_label (l : str) : ActionChain -> ActionChain :=
  alter_last (fun s => mkStep (step_action s) (Some l) (stop_on_failure s) (step_params s)).
Definition continue_on_failure : ActionChain -> ActionChain :=
  alter_last (fun s => mkStep (step_action s) (label s) false (step_params s)).
Definition set_on_error (f : DispatchError -> Value -> ErrorAction) (c : ActionChain) : ActionChain := mkChain (chain_steps c) (Some f).

Section Run.
Context {W : Type} {et : ErrorText} {HO : HashOrder (list (Z * (EventEnvelope -> W -> W)))}.

Definition step_label (s : ChainStep) : str := default (step_action s) (label s).

Definition resolve (s : ChainStep) (context : Value) : Value :=
  match step_params s with Static v => interpolate v context | Dynamic f => f context end.

Definition step_result (i : nat) (s : ChainStep) (r : result DispatchError DispatchResult) : ChainStepResult :=
  match r with
  | Ok res => mkStepResult i (step_action s) (step_label s) true (output res) None
  | Err e => mkStepResult i (step_action s) (step_label s) false Null (Some (error_text e))
  end.

(** The context after a step. *)
Definition next_context (context : Value) (r : result DispatchError DispatchResult) : Value :=
  match r with
  | Ok res => match output res with Object m => merge_into_context context m | _ => context end
  | Err _ => context
  end.

Definition should_abort (c : ActionChain) (s : ChainStep) (context : Value) (r : result DispatchError DispatchResult) : bool :=
  match r with
  | Ok _ => false
  | Err e => match on_error c with
             | Some handler => match handler e context with Abort_ => true | Continue_ => false end
             | None => stop_on_failure s
             end
  end.

(** The loop over the steps, from the [i]-th on. *)
Fixpoint chain_loop (c : ActionChain) (i : nat) (l : list ChainStep) (context : Value) (actual : ThreadAffinity) (clocks : nat -> Clock * Clock)
    (d : ToolDispatcher W) (w : W) : ToolDispatcher W * W * Value * list ChainStepResult * option nat :=
  match l with
  | [] => (d, w, context, [], None)
  | s :: l =>
      let '(d, w, r) := dispatch (step_action s) (resolve s context) None actual (fst (clocks i)) (snd (clocks i)) d w in
      if should_abort c s context r then (d, w, context, [step_result i s r], Some i)
      else
        let '(d, w, context, out, aborted) := chain_loop c (S i) l (next_context context r) actual clocks d w in
        (d, w, context, step_result i s r :: out, aborted)
  end.

Definition chain_message (total : nat) (out : list ChainStepResult) (aborted : option nat) : str :=
  match aborted with
  | None => lit "Chain completed: " ++ print_u64 (Z.of_nat (length out)) ++ lit "/" ++ print_u64 (Z.of_nat total) ++ lit " steps succeeded."
  | Some n =>
      let failed := out !! n in
      lit "Chain aborted at step " ++ print_u64 (Z.of_nat n) ++ lit " ('" ++ default [] (r_label <$> failed) ++ lit "'): " ++
        default (lit "unknown error") (failed ≫= r_error)
  end.

(** [ActionChain::run]. *)
Definition chain_run (c : ActionChain) (initial : Value) (actual : ThreadAffinity) (clocks : nat -> Clock * Clock) (d : ToolDispatcher W) (w : W)
    : ToolDispatcher W * W * result str ChainResult :=
  match chain_steps c with
  | [] => (d, w, Err (lit "ActionChain has no steps"))
  | l =>
      let '(d, w, context, out, aborted) := chain_loop c 0 l initial actual clocks d w in
      (d, w, Ok (mkChainResult (match aborted with None => true | Some _ => false end) out context aborted (chain_message (length l) out aborted)))
  end.

End Run.

(** ** Theorems *)

(** ** Templates *)

(** A template: texts each followed by a placeholder, and the text after the last one. *)
Definition template : Type := list (str * str) * str.

Definition no_open (s : str) : Prop := Forall (fun c => c <> ch_open) s.
Definition no_close (s : str) : Prop := Forall (fun c => c <> ch_close) s.
Definition is_key (k : str) : Prop := k <> [] /\ no_open k /\ no_close k.
Definition template_ok (t : template) : Prop := Forall (fun p => no_open (fst p) /\ is_key (snd p)) (fst t) /\ no_open (snd t).

Definition hole (k : str) : str := [ch_open] ++ k ++ [ch_close].
Definition print_template (t : template) : str := concat (map (fun p => fst p ++ hole (snd p)) (fst t)) ++ snd t.

Section Interpolate.
Context {jt : JsonText}.

Definition render_key (context : Value) (k : str) : str := match value_get k context with Some v => value_to_string v | None => hole k end.
Definition render (context : Value) (t : template) : str := concat (map (fun p => fst p ++ render_key context (snd p)) (fst t)) ++ snd t.

Lemma contains_char_false c s : contains [c] s = false <-> Forall (fun x => x <> c) s.
Proof.
  unfold contains. split.
  - induction s as [|x s IH]; [constructor|]. cbn [split_once strip_prefix]. destruct (Z.eqb_spec c x) as [->|Hx]; [done|].
    intros H. constructor; [congruence|]. apply IH. by destruct (split_once [c] s) as [[??]|].
  - intros H. by rewrite split_once_absent.
Qed.

Lemma replace_template fuel ps tail context :
  Forall (fun p => no_open (fst p) /\ is_key (snd p)) ps -> no_open tail -> (length ps < fuel)%nat ->
  replace_loop fuel (print_template (ps, tail)) context = render context (ps, tail).
Proof.
  intros H Htail. revert fuel. induction H as [|[l k] ps [Hl (Hne & Ho & Hc)] Hps IH]; intros fuel Hf; (destruct fuel as [|fuel]; [cbn in Hf; lia|]); cbn [replace_loop].
  - unfold print_template, render. cbn. by rewrite split_once_absent.
  - unfold print_template, render. cbn [fst snd map concat]. unfold hole at 1. cbn [fst snd] in *.
    replace ((((l ++ [ch_open] ++ k ++ [ch_close]) ++ concat (map (fun p => fst p ++ hole (snd p)) ps))) ++ tail)
      with (l ++ [ch_open] ++ (k ++ [ch_close] ++ print_template (ps, tail))) by (unfold print_template; cbn [fst snd]; by rewrite <- !app_assoc).
    rewrite split_once_app by done. rewrite split_once_app by done.
    rewrite bool_decide_false by done. rewrite (proj2 (contains_char_false ch_open k) Ho). cbn [negb andb].
    rewrite IH by (cbn in Hf; lia). unfold render at 1. cbn [fst snd]. rewrite <- !app_assoc. f_equal.
Qed.

Lemma template_length t : (length (fst t) <= length (print_template t))%nat.
Proof.
  destruct t as [ps tail]. cbn [fst]. unfold print_template. cbn [fst snd]. rewrite length_app.
  enough (length ps <= length (concat (map (fun p => fst p ++ hole (snd p)) ps)))%nat by lia.
  induction ps as [|[l k] ps IH]; [done|]. cbn [map concat length fst snd]. unfold hole at 1. rewrite !length_app. cbn [length]. lia.
Qed.

Lemma whole_key_spec s k : whole_key s = Some k <-> s = hole k /\ is_key k.
Proof.
  unfold whole_key, hole. split.
  - destruct s as [|c rest]; [done|]. destruct (Z.eqb_spec c ch_open) as [->|]; [|done]. cbn [andb].
    destruct (ends_with [ch_close] (ch_open :: rest)) eqn:Ee; [|done]. cbn [andb]. destruct (Nat.ltb_spec 2 (str_len (ch_open :: rest))) as [Hlen|]; [|done].
    destruct (contains [ch_open] (removelast rest)) eqn:Eo; [done|]. cbn [orb]. destruct (contains [ch_close] (removelast rest)) eqn:Ec; [done|].
    intros [= <-]. unfold ends_with in Ee. destruct (strip_suffix [ch_close] (ch_open :: rest)) as [r|] eqn:Es; [|done].
    apply strip_suffix_Some in Es. destruct r as [|c r]; [discriminate Es|]. cbn [app] in Es. injection Es as <- ->.
    rewrite removelast_last in *. split; [done|]. split; [|split; by apply contains_char_false].
    intros ->. unfold str_len in Hlen. cbn in Hlen. lia.
  - intros (-> & Hne & Ho & Hc). cbn [app]. rewrite Z.eqb_refl. cbn [andb].
    assert (Hs : ends_with [ch_close] (ch_open :: k ++ [ch_close]) = true).
    { unfold ends_with. by rewrite (proj2 (strip_suffix_Some [ch_close] (ch_open :: k ++ [ch_close]) (ch_open :: k))). }
    rewrite Hs. cbn [andb]. rewrite removelast_last, (proj2 (contains_char_false ch_open k) Ho), (proj2 (contains_char_false ch_close k) Hc). cbn [orb].
    rewrite (proj2 (Nat.ltb_lt _ _)); [done|]. destruct k as [|x k]; [done|]. unfold str_len. cbn. rewrite sum_list_with_app. cbn.
    assert (1 <= len_utf8 x)%nat by (unfold len_utf8; repeat case_match; lia). lia.
Qed.

Lemma replace_identity fuel s context :
  (forall k, value_get k context = None) -> (length s < fuel)%nat -> replace_loop fuel s context = s.
Proof.
  intros Hnone. revert s. induction fuel as [|fuel IH]; intros s Hf; [lia|]. cbn [replace_loop].
  destruct (split_once [ch_open] s) as [[a rest]|] eqn:E; [|done]. apply split_once_eq in E as ->. f_equal.
  destruct (split_once [ch_close] rest) as [[key rest']|] eqn:E; [|done]. apply split_once_eq in E as ->.
  rewrite Hnone, IH; [|rewrite !length_app in Hf; cbn [length] in Hf; lia]. destruct (_ && _); by rewrite <- !app_assoc.
Qed.

(** A text made of pieces without an opening brace and of placeholders becomes the text in
    which each bound placeholder is replaced by the text of its value and the others stay;
    inserted texts are not read again; only a text that is one bound placeholder becomes
    the value itself, with its type. *)
Theorem interpolation_exact (t : template) (context : Value) (Hok : template_ok t) :
  interpolate_string (print_template t) context =
    match t with
    | ([([], k)], []) => match value_get k context with Some v => v | None => Str (hole k) end
    | _ => Str (render context t)
    end.
Proof.
  destruct t as [ps tail]. destruct Hok as [Hps Htail]. cbn [fst snd] in *. unfold interpolate_string.
  rewrite replace_template by (done || (pose proof (template_length (ps, tail)); cbn [fst] in *; lia)).
  destruct (whole_key (print_template (ps, tail))) as [k|] eqn:Ew; cbn [mbind option_bind].
  - apply whole_key_spec in Ew as [Ep (Hne & Ho & Hc)].
    assert (Hform : ps = [([], k)] /\ tail = []).
    { unfold print_template in Ep. cbn [fst snd] in Ep. destruct ps as [|[l k'] ps]; cbn [map concat fst snd app] in Ep.
      - subst tail. unfold no_open, hole in Htail. cbn [app] in Htail. by apply Forall_cons in Htail as [? _].
      - apply Forall_cons in Hps as [[Hl (Hne' & Ho' & Hc')] Hps]. cbn [fst snd] in *. destruct l as [|c l].
        + unfold hole in Ep. cbn [app] in Ep. injection Ep as Ep. rewrite <- !app_assoc in Ep.
          assert (Hk : k' = k /\ concat (map (fun p => fst p ++ hole (snd p)) ps) ++ tail = []).
          { pose proof (split_once_app ch_close [] k' (concat (map (fun p => fst p ++ [ch_open] ++ snd p ++ [ch_close]) ps) ++ tail) Hc') as H1.
            pose proof (split_once_app ch_close [] k [] Hc) as H2. cbn [app] in *. rewrite Ep in H1. rewrite H1 in H2. injection H2 as E1 E2. split; [exact E1|exact E2]. }
          destruct Hk as [-> Hrest]. apply app_nil in Hrest as [Hrest ->]. split; [|done]. destruct ps as [|[l2 k2] ps]; [done|].
          cbn in Hrest. destruct l2; done.
        + injection Ep as -> _. by apply Forall_cons in Hl as [? _]. }
    destruct Hform as [-> ->]. destruct (value_get k context) eqn:E; [done|]. unfold render. cbn. unfold render_key. rewrite E. by rewrite !app_nil_r.
  - destruct ps as [|[[|c l] k] [|p ps]]; [by destruct tail|destruct tail|..]; try done. exfalso. apply Forall_cons in Hps as [[_ Hk] _].
    assert (Hs : whole_key (print_template ([([], k)], [])) = Some k).
    { apply whole_key_spec. split; [|done]. unfold print_template. cbn. by rewrite !app_nil_r. }
    congruence.
Qed.

(** With a context that binds none of the names, or is no object, interpolation changes
    nothing, whatever braces the texts have. *)
Theorem interpolation_identity (v context : Value) (Hnone : forall k, value_get k context = None) : interpolate v context = v.
Proof.
  induction v as [| | |s|l IH|m IH] using value_ind'; cbn [interpolate]; try done.
  - unfold interpolate_string. rewrite replace_identity by (done || lia). destruct (whole_key s) as [k|]; cbn; [by rewrite Hnone|done].
  - f_equal. induction IH as [|x l Hx Hl IH]; [done|]. cbn [map]. by rewrite Hx, IH.
  - f_equal. induction IH as [|[k x] m Hx Hm IH]; [done|]. cbn [map fst snd] in *. by rewrite Hx, IH.
Qed.

End Interpolate.

(** ** Reports *)

Section Report.
Context {W : Type} {et : ErrorText} {HO : HashOrder (list (Z * (EventEnvelope -> W -> W)))}.

(** An output that is an object is merged into the context. *)
Definition absorb (context output : Value) : Value := match output with Object m => merge_into_context context m | _ => context end.

(** What a report says of a step. *)
Record reports (i : nat) (s : ChainStep) (r : ChainStepResult) : Prop := {
  rep_index : index r = i;
  rep_action : r_action r = step_action s;
  rep_label : r_label r = default (step_action s) (label s);
  rep_error : r_success r = true <-> r_error r = None;
  rep_output : r_success r = false -> r_output r = Null;
}.

Lemma step_reports i s r : reports i s (step_result i s r).
Proof. destruct r; split; try done; cbn; by split. Qed.

Lemma loop_report c i l context actual clocks (d : ToolDispatcher W) w d' w' context' out aborted :
  chain_loop c i l context actual clocks d w = (d', w', context', out, aborted) ->
  (forall j r, out !! j = Some r -> exists s, l !! j = Some s /\ reports (i + j) s r) /\
  context' = foldl absorb context (map r_output out) /\
  match aborted with
  | None => length out = length l
  | Some n => S n = (i + length out)%nat /\ exists r s, last out = Some r /\ r_success r = false /\ l !! Nat.pred (length out) = Some s /\
      (on_error c = None -> stop_on_failure s = true)
  end /\
  (on_error c = None -> forall j r s, out !! j = Some r -> l !! j = Some s -> r_success r = false ->
     aborted = if stop_on_failure s then Some (i + j)%nat else aborted).
Proof.
  revert i context d w d' w' context' out aborted. induction l as [|s l IH]; intros i context d w d' w' context' out aborted; cbn [chain_loop].
  - intros [= _ _ <- <- <-]. by split_and!.
  - destruct (dispatch _ _ _ _ _ _ d w) as [[d1 w1] r]. destruct (should_abort c s context r) eqn:Ea.
    + intros [= _ _ <- <- <-]. destruct r as [res|e]; [done|]. split_and!; try done.
      * intros [|j] r'; [|done]. intros [= <-]. exists s. split; [done|]. rewrite Nat.add_0_r. apply (step_reports i s (Err e)).
      * cbn. lia.
      * do 2 eexists. split; [done|]. split; [done|]. split; [done|]. intros Hn. unfold should_abort in Ea. by rewrite Hn in Ea.
      * intros Hn [|j] r' s'; [|done]. intros _ [= <-] _. unfold should_abort in Ea. rewrite Hn in Ea. by rewrite Ea, Nat.add_0_r.
    + destruct (chain_loop c (S i) l (next_context context r) actual clocks d1 w1) as [[[[d2 w2] ctx2] out2] ab2] eqn:El.
      intros [= _ _ <- <- <-]. destruct (IH _ _ _ _ _ _ _ _ _ El) as (H1 & H2 & H3 & H4). split_and!.
      * intros [|j] r'; [intros [= <-]; exists s; split; [done|]; rewrite Nat.add_0_r; apply step_reports|].
        intros Hj. destruct (H1 j r' Hj) as (s' & Hs' & Hr). exists s'. split; [done|]. by rewrite Nat.add_succ_r.
      * rewrite H2. cbn [map foldl]. f_equal. by destruct r as [res|e].
      * destruct ab2 as [n|]; [|cbn; by rewrite H3]. destruct H3 as (Hn & r' & s' & Hr & Hs & Hl & Hstop). split; [cbn; lia|]. exists r', s'.
        split; [by rewrite last_cons, Hr|]. split; [done|]. split; [|done]. destruct out2; [done|]. exact Hl.
      * intros Hn [|j] r' s'; [|intros Hj Hs Hf; rewrite Nat.add_succ_r; by apply (H4 Hn j r' s')].
        intros [= <-] [= <-]. destruct r as [res|e]; [done|]. intros _. unfold should_abort in Ea. by rewrite Hn in Ea; rewrite Ea.
Qed.

(** A chain runs unless it has no step; its report has one entry for each step that was
    run, in order, and its context is the initial one with the outputs of these steps that
    are objects merged in that order.  Every step is run when it succeeds; otherwise it was
    aborted at its last entry, which failed.  Without an error handler it is aborted
    exactly at the first failure of a step that stops on failure. *)
Theorem chain_report (c : ActionChain) (initial : Value) (actual : ThreadAffinity) (clocks : nat -> Clock * Clock)
  (d d' : ToolDispatcher W) (w w' : W) (r : result str ChainResult) :
  chain_run c initial actual clocks d w = (d', w', r) ->
  (chain_steps c = [] <-> r = Err (lit "ActionChain has no steps")) /\
  forall rep, r = Ok rep ->
    (forall j x, results rep !! j = Some x -> exists s, chain_steps c !! j = Some s /\ reports j s x) /\
    context rep = foldl absorb initial (map r_output (results rep)) /\
    (success rep = true <-> aborted_at rep = None) /\
    (success rep = true -> length (results rep) = length (chain_steps c)) /\
    (forall n, aborted_at rep = Some n -> S n = length (results rep) /\ exists x, last (results rep) = Some x /\ r_success x = false) /\
    (on_error c = None -> success rep = true <->
       length (results rep) = length (chain_steps c) /\
       forall j x s, results rep !! j = Some x -> chain_steps c !! j = Some s -> r_success x = false -> stop_on_failure s = false).
Proof.
  unfold chain_run. destruct (chain_steps c) as [|s0 l] eqn:Ec; [by intros [= _ _ <-]|].
  assert (Hne : chain_steps c <> []) by (by rewrite Ec). rewrite <- Ec. clear Ec. set (steps := chain_steps c) in *.
  destruct (chain_loop c 0 steps initial actual clocks d w) as [[[[d1 w1] ctx] out] ab] eqn:El. intros [= _ _ <-].
  split; [by split|]. intros rep [= <-]. cbn [results context success aborted_at].
  destruct (loop_report _ _ _ _ _ _ _ _ _ _ _ _ _ El) as (H1 & H2 & H3 & H4). split; [exact H1|]. split; [exact H2|].
  split; [by destruct ab|]. split; [by destruct ab|]. split.
  - intros n ->. destruct H3 as (Hn & x & s & Hx & Hs & _). split; [exact Hn|]. by exists x.
  - intros Hno. split.
    + destruct ab; [done|]. intros _. split; [done|]. intros j x s Hx Hs Hf. specialize (H4 Hno j x s Hx Hs Hf). by destruct (stop_on_failure s).
    + intros [Hlen Hall]. destruct ab as [n|]; [|done]. exfalso. destruct H3 as (Hn & x & s & Hx & Hf & Hs & Hstop).
      rewrite last_lookup in Hx. specialize (Hall _ _ _ Hx Hs Hf). by rewrite Hstop in Hall.
Qed.

End Report.

(** ** Examples *)

#[local] Existing Instance sample_text.

Definition frames : Value := Object [(lit "count", Num (PosInt 42)); (lit "name", Str (lit "a{count}"))].

Lemma interpolation_exact_witness :
  interpolate_string (lit "{count}") frames = Num (PosInt 42) /\
  interpolate_string (lit "f {name}/{count}, {other}}") frames = Str (lit "f a{count}/42, {other}}").
Proof.
  assert (Hk : forall k, k <> [] -> contains [ch_open] k = false -> contains [ch_close] k = false -> is_key k)
    by (intros k Hn Ho Hc; split; [done|split; by apply contains_char_false]).
  assert (Ht : forall t, contains [ch_open] t = false -> no_open t) by (intros t H; by apply contains_char_false).
  split.
  - exact (interpolation_exact ([([], lit "count")], []) frames
      ltac:(split; [repeat apply Forall_cons_2; try apply Forall_nil_2; (split; [apply Ht; reflexivity|apply Hk; done])|apply Ht; reflexivity])).
  - exact (interpolation_exact ([(lit "f ", lit "name"); (lit "/", lit "count"); (lit ", ", lit "other")], lit "}") frames
      ltac:(split; [repeat apply Forall_cons_2; try apply Forall_nil_2; (split; [apply Ht; reflexivity|apply Hk; done])|apply Ht; reflexivity])).
Defined.

Lemma interpolation_identity_witness : interpolate (Array [Str (lit "{a}{{b}"); Str (lit "{c")]) Null = Array [Str (lit "{a}{{b}"); Str (lit "{c")].
Proof. apply interpolation_identity. done. Defined.

(** Two steps: a sphere, whose output is merged, and an unknown tool that uses it. *)
Definition two_steps (handler : option (DispatchError -> Value -> ErrorAction)) : ActionChain :=
  mkChain [mkStep (lit "sphere") None true (Static (Object [(lit "radius", Str (lit "{size}"))]));
           mkStep (lit "export") (Some (lit "Export")) true (Static (Str (lit "{created}")))] handler.

Definition run_two (handler : option (DispatchError -> Value -> ErrorAction)) :=
  chain_run (two_steps handler) (Object [(lit "size", Num (PosInt 2))]) AnyThread (fun _ => (clock0, clock0)) (sphere_dispatcher Allow) [].

Lemma chain_report_witness :
  exists rep, snd (run_two None) = Ok rep /\ success rep = false /\ aborted_at rep = Some 1%nat /\
    context rep = foldl absorb (Object [(lit "size", Num (PosInt 2))]) (map r_output (results rep)).
Proof.
  destruct (run_two None) as [[d' w'] r] eqn:E. pose proof (chain_report _ _ _ _ _ _ _ _ _ E) as [_ H]. cbn [snd].
  destruct r as [rep|e]; [|apply (f_equal snd) in E; vm_compute in E; discriminate E].
  destruct (H rep eq_refl) as (_ & Hc & _). exists rep. split; [reflexivity|].
  assert (Hs : success rep = false /\ aborted_at rep = Some 1%nat).
  { apply (f_equal snd) in E. vm_compute in E. injection E as <-. split; reflexivity. }
  destruct Hs as [Hs Ha]. split; [exact Hs|]. split; [exact Ha|exact Hc].
Defined.

(** An error handler that continues: the chain is a success, and says that every step
    succeeded, though a required one failed. *)
Example success_despite_failure :
  match snd (run_two (Some (fun _ _ => Continue_))) with
  | Ok rep => success rep = true /\ map r_success (results rep) = [true; false] /\ message rep = lit "Chain completed: 2/2 steps succeeded."
  | Err _ => False
  end.
Proof. vm_compute. by split_and!. Qed.
