(* ===== verification/TransportAddress.v ===== *)
(** Transport addresses, [dcc-mcp-transport/src/ipc/mod.rs]: endpoints, their URI text
    and its parser, and the choice of an endpoint for an instance.  A [PathBuf] is its
    text; the platform the code is compiled for is the class [Platform]. *)

From S2P Require Import Prelude Text Json.

Local Open Scope Z_scope.

(** ** Addresses *)

Inductive TransportAddress : Type :=
| Tcp (host : str) (port : Z)
| NamedPipe (path : str)
| UnixSocket (path : str).

#[export] Instance TransportAddress_eq_dec : EqDecision TransportAddress.
Proof. solve_decision. Defined.

(** [cfg!(windows)], [cfg!(unix)] and [std::env::temp_dir()]. *)
Class Platform : Type := {
  windows : bool;
  unix : bool;
  temp_dir : str;
  path_join : str -> str -> str;
}.

(** A Linux machine, to evaluate with: joining an absolute path replaces the first. *)
Definition linux : Platform :=
  {| windows := false; unix := true; temp_dir := lit "/tmp";
     path_join a b := if starts_with (lit "/") b then b else a ++ lit "/" ++ b |}.

(** The text [\\.\pipe\]. *)
Definition PIPE_PREFIX : str := [92; 92; 46; 92; 112; 105; 112; 101; 92].

Definition tcp (host : str) (port : Z) : TransportAddress := Tcp host port.

Definition named_pipe (name : str) : TransportAddress :=
  NamedPipe (if starts_with PIPE_PREFIX name then name else PIPE_PREFIX ++ name).

Definition unix_socket (path : str) : TransportAddress := UnixSocket path.

Definition instance_name (dcc_type : str) (pid : Z) : str := lit "dcc-mcp-" ++ dcc_type ++ lit "-" ++ print_u64 pid.

Definition default_pipe_name (dcc_type : str) (pid : Z) : TransportAddress := named_pipe (instance_name dcc_type pid).

Definition default_unix_socket {pf : Platform} (dcc_type : str) (pid : Z) : TransportAddress :=
  unix_socket (path_join temp_dir (instance_name dcc_type pid ++ lit ".sock")).

Definition default_local {pf : Platform} (dcc_type : str) (pid : Z) : TransportAddress :=
  if windows then default_pipe_name dcc_type pid else default_unix_socket dcc_type pid.

Definition local_host (host : str) : bool :=
  bool_decide (host = lit "127.0.0.1") || bool_decide (host = lit "localhost")
  || bool_decide (host = lit "::1") || bool_decide (host = lit "0.0.0.0").

Definition is_local (a : TransportAddress) : bool :=
  match a with Tcp host _ => local_host host | NamedPipe _ | UnixSocket _ => true end.

Definition is_tcp (a : TransportAddress) : bool := match a with Tcp _ _ => true | _ => false end.
Definition is_named_pipe (a : TransportAddress) : bool := match a with NamedPipe _ => true | _ => false end.
Definition is_unix_socket (a : TransportAddress) : bool := match a with UnixSocket _ => true | _ => false end.

Definition scheme (a : TransportAddress) : str :=
  match a with Tcp _ _ => lit "tcp" | NamedPipe _ => lit "pipe" | UnixSocket _ => lit "unix" end.

Definition tcp_parts (a : TransportAddress) : option (str * Z) :=
  match a with Tcp host port => Some (host, port) | _ => None end.

Definition ipc_path (a : TransportAddress) : option str :=
  match a with NamedPipe path | UnixSocket path => Some path | Tcp _ _ => None end.

(** ** Text *)

Definition to_connection_string (a : TransportAddress) : str :=
  match a with
  | Tcp host port => lit "tcp://" ++ host ++ lit ":" ++ print_u64 port
  | NamedPipe path => lit "pipe://" ++ path
  | UnixSocket path => lit "unix://" ++ path
  end.

(** [str::parse::<u16>]. *)
Definition parse_u16 (s : str) : option Z :=
  match parse_u64 s with Some n => if n <=? 65535 then Some n else None | None => None end.

(** [rest.rsplitn(2, ':')]: what follows the last colon, and what precedes it. *)
Definition rsplit_colon (rest : str) : str * option str :=
  match split_once [58] (reverse rest) with
  | Some (port, host) => (reverse port, Some (reverse host))
  | None => (rest, None)
  end.

Definition in_quotes (s : str) : str := [39] ++ s ++ [39].

Definition parse (s : str) : result str TransportAddress :=
  match strip_prefix (lit "tcp://") s with
  | Some rest =>
      match rsplit_colon rest with
      | (_, None) => Err (lit "missing host in " ++ in_quotes s)
      | (port_str, Some host) =>
          match parse_u16 port_str with
          | Some port => Ok (tcp host port)
          | None => Err (lit "invalid port " ++ in_quotes port_str ++ lit " in " ++ in_quotes s)
          end
      end
  | None =>
      match strip_prefix (lit "pipe://") s with
      | Some rest => Ok (named_pipe rest)
      | None =>
          match strip_prefix (lit "unix://") s with
          | Some rest => Ok (unix_socket rest)
          | None => Err (lit "unknown scheme in " ++ in_quotes s ++ lit "; expected tcp://, pipe://, or unix://")
          end
      end
  end.

(** ** Selection *)

Inductive TransportScheme : Type := Auto | TcpOnly | PreferNamedPipe | PreferUnixSocket | PreferIpc.

Definition scheme_name (s : TransportScheme) : str :=
  match s with
  | Auto => lit "auto"
  | TcpOnly => lit "tcp_only"
  | PreferNamedPipe => lit "prefer_named_pipe"
  | PreferUnixSocket => lit "prefer_unix_socket"
  | PreferIpc => lit "prefer_ipc"
  end.

Definition select_address {pf : Platform} (s : TransportScheme) (dcc_type host : str) (port : Z) (pid : option Z) : TransportAddress :=
  let is_local := local_host host in
  let pid := default 0 pid in
  match s with
  | TcpOnly => tcp host port
  | Auto => if is_local && (0 <? pid) then default_local dcc_type pid else tcp host port
  | PreferNamedPipe => if windows && is_local && (0 <? pid) then default_pipe_name dcc_type pid else tcp host port
  | PreferUnixSocket => if unix && is_local && (0 <? pid) then default_unix_socket dcc_type pid else tcp host port
  | PreferIpc => if is_local && (0 <? pid) then default_local dcc_type pid else tcp host port
  end.

(** [IpcConfig]: the fields that name endpoints. *)
Record IpcConfig : Type := mkIpcConfig { pipe_prefix : str; socket_dir : str; connect_timeout : Z; buffer_size : Z; ipc_scheme : TransportScheme }.

Definition with_scheme {pf : Platform} (s : TransportScheme) : IpcConfig :=
  mkIpcConfig (lit "dcc-mcp") temp_dir 5000000000 65536 s.

Definition pipe_path (c : IpcConfig) (dcc_type : str) (pid : Z) : str :=
  PIPE_PREFIX ++ pipe_prefix c ++ lit "-" ++ dcc_type ++ lit "-" ++ print_u64 pid.

Definition socket_path {pf : Platform} (c : IpcConfig) (dcc_type : str) (pid : Z) : str :=
  path_join (socket_dir c) (pipe_prefix c ++ lit "-" ++ dcc_type ++ lit "-" ++ print_u64 pid ++ lit ".sock").

Definition address_for {pf : Platform} (c : IpcConfig) (dcc_type : str) (pid : Z) : TransportAddress :=
  if windows then NamedPipe (pipe_path c dcc_type pid) else UnixSocket (socket_path c dcc_type pid).

(** [PlatformCapabilities], and its [Display]. *)
Record PlatformCapabilities : Type := mkPlatformCapabilities { cap_tcp : bool; cap_named_pipe : bool; cap_unix_socket : bool }.

Definition detect {pf : Platform} : PlatformCapabilities := mkPlatformCapabilities true windows unix.

Definition has_ipc (c : PlatformCapabilities) : bool := cap_named_pipe c || cap_unix_socket c.

Definition preferred_ipc (c : PlatformCapabilities) : option str :=
  if cap_named_pipe c then Some (lit "named_pipe") else if cap_unix_socket c then Some (lit "unix_socket") else None.

Definition show_capabilities (c : PlatformCapabilities) : str :=
  lit "[" ++ join_str (lit ", ") (lit "tcp" :: (if cap_named_pipe c then [lit "named_pipe"] else [])
    ++ (if cap_unix_socket c then [lit "unix_socket"] else [])) ++ lit "]".

(** ** Theorems *)

(** The addresses the constructors build: a port fits, a pipe has its prefix. *)
Definition wf_address (a : TransportAddress) : Prop :=
  match a with
  | Tcp _ port => 0 <= port <= 65535
  | NamedPipe path => starts_with PIPE_PREFIX path = true
  | UnixSocket _ => True
  end.

Lemma parse_u16_print port : 0 <= port <= 65535 -> parse_u16 (print_u64 port) = Some port.
Proof.
  intros H. unfold parse_u16. rewrite print_u64_parse by (unfold in_u64, u64_max; lia).
  by rewrite (proj2 (Z.leb_le _ _)) by lia.
Qed.

Lemma rsplit_colon_print host port : 0 <= port -> rsplit_colon (host ++ lit ":" ++ print_u64 port) = (print_u64 port, Some host).
Proof.
  intros Hp. unfold rsplit_colon. rewrite !reverse_app.
  change (reverse (lit ":")) with [58]. rewrite <- (app_assoc (reverse (print_u64 port)) [58]).
  rewrite (split_once_app 58 []).
  - by rewrite !reverse_involutive.
  - apply Forall_reverse. eapply Forall_impl; [apply (print_loop_digits 20 port Hp)|]. cbn. lia.
Qed.

Lemma named_pipe_wf name : wf_address (named_pipe name).
Proof.
  unfold named_pipe. cbn [wf_address]. destruct (starts_with PIPE_PREFIX name) eqn:E; [done|].
  apply starts_with_spec. eauto.
Qed.

Lemma parse_u16_range s port : parse_u16 s = Some port -> 0 <= port <= 65535.
Proof.
  unfold parse_u16. destruct (parse_u64 s) as [n|] eqn:E; [|done]. case_match; [|done]. intros [= <-].
  assert (0 <= n); [|lia]. clear - E.
  assert (G : forall s acc m, 0 <= acc -> parse_digits s acc = Some m -> 0 <= m).
  { clear. intros s. induction s as [|c s IH]; intros acc m Ha; cbn [parse_digits]; [intros [= <-]; done|].
    destruct (is_ascii_digit c) eqn:Hc; [|done]. cbv zeta. destruct (u64_max <? _) eqn:Hm; [done|].
    unfold is_ascii_digit, in_range in Hc. apply IH. lia. }
  unfold parse_u64 in E. destruct s as [|c s]; [done|].
  destruct (c =? 43); [destruct (bool_decide _); [done|]|]; eapply G in E; lia.
Qed.

(** The text of an address parses back to the address: a TCP host may contain colons,
    as an IPv6 address does, and a pipe path is not prefixed twice. *)
Theorem parse_print_address (a : TransportAddress) (Hwf : wf_address a) : parse (to_connection_string a) = Ok a.
Proof.
  destruct a as [host port|path|path]; cbn [wf_address] in Hwf; unfold to_connection_string, parse.
  - rewrite strip_prefix_app. rewrite rsplit_colon_print by lia. by rewrite parse_u16_print.
  - destruct (strip_prefix (lit "tcp://") _) eqn:E; [by apply strip_prefix_Some in E|].
    rewrite strip_prefix_app. unfold named_pipe. by rewrite Hwf.
  - destruct (strip_prefix (lit "tcp://") _) eqn:E; [by apply strip_prefix_Some in E|].
    destruct (strip_prefix (lit "pipe://") _) eqn:E2; [by apply strip_prefix_Some in E2|].
    by rewrite strip_prefix_app.
Qed.

Lemma parse_print_address_witness : parse (to_connection_string (Tcp (lit "::1") 9000)) = Ok (Tcp (lit "::1") 9000).
Proof. apply parse_print_address. cbn. lia. Defined.

(** Whatever parses is well formed, so that parsing is idempotent through the text. *)
Lemma parse_wf s a : parse s = Ok a -> wf_address a.
Proof.
  unfold parse. destruct (strip_prefix (lit "tcp://") s) as [rest|].
  - destruct (rsplit_colon rest) as [p [h|]]; [|done]. destruct (parse_u16 p) as [n|] eqn:E; [|done].
    injection 1 as <-. by apply parse_u16_range in E.
  - destruct (strip_prefix (lit "pipe://") s) as [rest|]; [injection 1 as <-; apply named_pipe_wf|].
    destruct (strip_prefix (lit "unix://") s) as [rest|]; [|done]. by injection 1 as <-.
Qed.

(** An endpoint other than TCP is chosen only for a local host and a known process,
    and then it is a kind the platform has; otherwise the given host and port are kept. *)
Theorem select_address_exact {pf : Platform} (s : TransportScheme) (dcc host : str) (port : Z) (pid : option Z)
    (Hpf : windows = negb unix) :
  select_address s dcc host port pid = tcp host port \/
  local_host host = true /\ (exists p, pid = Some p /\ 0 < p) /\ s <> TcpOnly /\
  select_address s dcc host port pid = default_local dcc (default 0 pid).
Proof.
  unfold select_address, default_local.
  assert (Hp : (0 <? default 0 pid) = true -> exists p, pid = Some p /\ 0 < p).
  { destruct pid as [p|]; cbn; [intros ?%Z.ltb_lt; eauto|done]. }
  destruct (local_host host) eqn:Hl, (0 <? default 0 pid) eqn:Hz;
    rewrite ?andb_false_r, ?andb_true_r; destruct s; cbn [andb]; auto;
    rewrite ?Hpf in *; destruct windows, unix; cbn in *; try congruence; auto;
    right; (split_and!; [done|by apply Hp|done|done]).
Qed.

Lemma select_address_exact_witness :
  @windows linux = negb (@unix linux) /\
  @select_address linux Auto (lit "maya") (lit "127.0.0.1") 9000 (Some 42) = UnixSocket (lit "/tmp/dcc-mcp-maya-42.sock").
Proof.
  split; [reflexivity|].
  destruct (@select_address_exact linux Auto (lit "maya") (lit "127.0.0.1") 9000 (Some 42) eq_refl) as [H|(_ & _ & _ & H)];
    [vm_compute in H; discriminate H|].
  rewrite H. reflexivity.
Defined.
