(* ===== verification/ServiceEntry.v ===== *)
(** Registry rows, [dcc-mcp-transport/src/discovery/]: [types.rs] (the row, its lease, its
    status for an agent), [service_identity.rs], [entry_patch.rs] and [liveness.rs], with
    [dcc-mcp-models/src/instance_status.rs].

    A [SystemTime] is its distance to the Unix epoch in nanoseconds; the current time is
    an argument.  Maps keyed by strings are [gmap]s. *)

From S2P Require Import Prelude Text Json GatewayNaming Capability TransportAddress.

Local Open Scope Z_scope.

(** ** Statuses, [instance_status.rs] *)

Inductive ServiceStatus : Type := Available | Busy | Unreachable | ShuttingDown | Booting | Stale.

#[export] Instance ServiceStatus_eq_dec : EqDecision ServiceStatus.
Proof. solve_decision. Defined.

Definition show_service_status (s : ServiceStatus) : str :=
  match s with
  | Available => lit "available"
  | Busy => lit "busy"
  | Unreachable => lit "unreachable"
  | ShuttingDown => lit "shutting_down"
  | Booting => lit "booting"
  | Stale => lit "stale"
  end.

Inductive DispatchStatus : Type := DsReady | DsPending | DsFailed | DsUnknown.

#[export] Instance DispatchStatus_eq_dec : EqDecision DispatchStatus.
Proof. solve_decision. Defined.

Record InstanceStatus : Type := mkInstanceStatus {
  is_status : ServiceStatus;
  is_dispatch_status : DispatchStatus;
  retryable : bool;
  recommended_next_action : str;
}.

Definition actionability (s : ServiceStatus) (d : DispatchStatus) : bool * str :=
  match s, d with
  | Available, DsReady => (true, lit "Instance is available for dispatch.")
  | Available, DsPending => (true, lit "Wait for instance to report dispatch_status=ready.")
  | Available, DsFailed => (false, lit "Inspect instance failure stage/reason; the backend may need a restart.")
  | Available, DsUnknown => (true, lit "Dispatch status not yet reported; try a direct MCP call.")
  | Busy, DsReady => (true, lit "Instance is busy; retry after current job completes.")
  | Busy, DsPending => (true, lit "Instance is busy and not yet dispatch-ready; wait and retry.")
  | Busy, DsFailed => (false, lit "Instance is busy but dispatch has failed; inspect failure details.")
  | Busy, DsUnknown => (true, lit "Instance is busy; retry later.")
  | Booting, _ => (true, lit "Instance is booting; wait for readiness and retry.")
  | Unreachable, _ => (false, lit "Instance is unreachable; check logs and restart if needed.")
  | ShuttingDown, _ => (false, lit "Instance is shutting down; wait for a new instance.")
  | Stale, _ => (false, lit "Instance is stale; it will be removed by the registry.")
  end.

Definition from_states (s : ServiceStatus) (d : DispatchStatus) : InstanceStatus :=
  let '(r, a) := actionability s d in mkInstanceStatus s d r a.

(** ** Identity, [service_identity.rs] *)

Inductive ServiceRole : Type := Host | Launcher | Sidecar | Custom (value : str).

#[export] Instance ServiceRole_eq_dec : EqDecision ServiceRole.
Proof. solve_decision. Defined.

Definition role_str (r : ServiceRole) : str :=
  match r with
  | Host => lit "host"
  | Launcher => lit "launcher"
  | Sidecar => lit "sidecar"
  | Custom value => value
  end.

(** [from_raw], the [From], [FromStr] and [Deserialize] of roles. *)
Definition role_from_raw (raw : str) : ServiceRole :=
  let trimmed := trim raw in
  let lower := to_ascii_lowercase_str trimmed in
  if bool_decide (lower = lit "host") then Host
  else if bool_decide (lower = lit "launcher") then Launcher
  else if bool_decide (lower = lit "sidecar") then Sidecar
  else Custom trimmed.

Definition launch_id_from_env_value (raw : option str) : option str :=
  raw ← raw;
  let trimmed := trim raw in
  if bool_decide (trimmed = []) then None else Some trimmed.

(** [process_launch_id]: the cell, the environment's value and a fresh identifier; the
    cell is filled once. *)
Definition process_launch_id (cell : option str) (env : option str) (fresh : str) : str * option str :=
  match cell with
  | Some id => (id, cell)
  | None => let id := default fresh (launch_id_from_env_value env) in (id, Some id)
  end.

Definition system_time_to_unix_secs (t : Z) : option Z := if 0 <=? t then Some (t / 1000000000) else None.

(** ** Rows, [types.rs] *)

Definition SERVICE_ENTRY_SCHEMA_VERSION : Z := 1.
Definition SERVICE_ENTRY_LEGACY_SCHEMA_VERSION : Z := 0.
Definition GATEWAY_SENTINEL_DCC_TYPE : str := lit "__gateway__".
Definition default_capacity : Z := 1.

(** [ServiceKey]. *)
Abbreviation ServiceKey := (str * Uuid)%type.

Record ServiceEntry : Type := mkEntry {
  schema_version : Z;
  dcc_type : str;
  instance_id : Uuid;
  host : str;
  port : Z;
  transport_address : option TransportAddress;
  version : option str;
  adapter_version : option str;
  adapter_dcc : option str;
  scene : option str;
  documents : list str;
  pid : option Z;
  host_pid : option Z;
  sentinel_path : option str;
  launch_id : option str;
  parent_pid : option Z;
  role : option ServiceRole;
  started_at : option Z;
  display_name : option str;
  metadata : gmap str str;
  extras : gmap str Value;
  registered_at : Z;
  last_heartbeat : Z;
  status : ServiceStatus;
  capacity : Z;
  lease_owner : option str;
  current_job_id : option str;
  lease_expires_at : option Z;
}.

#[export] Instance ServiceEntry_eq_dec : EqDecision ServiceEntry.
Proof. solve_decision. Defined.

(** [ServiceEntry::new]: the clock, a fresh identifier and the process' own id are inputs. *)
Definition entry_new (now id own_pid : Z) (dcc host : str) (port : Z) : ServiceEntry :=
  mkEntry SERVICE_ENTRY_SCHEMA_VERSION dcc id host port None None None None None [] (Some own_pid) None None None None None
    None None ∅ ∅ now now Available default_capacity None None None.

Definition entry_with_address (now id own_pid : Z) (dcc : str) (a : TransportAddress) : ServiceEntry :=
  let '(host, port) := match a with Tcp host port => (host, port) | NamedPipe _ | UnixSocket _ => (lit "127.0.0.1", 0) end in
  mkEntry SERVICE_ENTRY_SCHEMA_VERSION dcc id host port (Some a) None None None None [] (Some own_pid) None None None None None
    None None ∅ ∅ now now Available default_capacity None None None.

Definition validate_schema_version (e : ServiceEntry) : bool := schema_version e <=? SERVICE_ENTRY_SCHEMA_VERSION.

(** ** Updates of single fields *)

Definition set_pid (p : option Z) (e : ServiceEntry) : ServiceEntry :=
  let 'mkEntry a b c d f g h i j k l _ n o p' q r s t u v w x y z aa bb cc := e in
  mkEntry a b c d f g h i j k l p n o p' q r s t u v w x y z aa bb cc.

Definition set_host_pid (p : option Z) (e : ServiceEntry) : ServiceEntry :=
  let 'mkEntry a b c d f g h i j k l m _ o p' q r s t u v w x y z aa bb cc := e in
  mkEntry a b c d f g h i j k l m p o p' q r s t u v w x y z aa bb cc.

Definition set_sentinel (p : option str) (e : ServiceEntry) : ServiceEntry :=
  let 'mkEntry a b c d f g h i j k l m n _ p' q r s t u v w x y z aa bb cc := e in
  mkEntry a b c d f g h i j k l m n p p' q r s t u v w x y z aa bb cc.

Definition set_scene (p : option str) (e : ServiceEntry) : ServiceEntry :=
  let 'mkEntry a b c d f g h i j _ l m n o p' q r s t u v w x y z aa bb cc := e in
  mkEntry a b c d f g h i j p l m n o p' q r s t u v w x y z aa bb cc.

Definition set_version (p : option str) (e : ServiceEntry) : ServiceEntry :=
  let 'mkEntry a b c d f g _ i j k l m n o p' q r s t u v w x y z aa bb cc := e in
  mkEntry a b c d f g p i j k l m n o p' q r s t u v w x y z aa bb cc.

Definition set_documents (p : list str) (e : ServiceEntry) : ServiceEntry :=
  let 'mkEntry a b c d f g h i j k _ m n o p' q r s t u v w x y z aa bb cc := e in
  mkEntry a b c d f g h i j k p m n o p' q r s t u v w x y z aa bb cc.

Definition set_display_name (p : option str) (e : ServiceEntry) : ServiceEntry :=
  let 'mkEntry a b c d f g h i j k l m n o p' q r s _ u v w x y z aa bb cc := e in
  mkEntry a b c d f g h i j k l m n o p' q r s p u v w x y z aa bb cc.

Definition set_metadata (p : gmap str str) (e : ServiceEntry) : ServiceEntry :=
  let 'mkEntry a b c d f g h i j k l m n o p' q r s t _ v w x y z aa bb cc := e in
  mkEntry a b c d f g h i j k l m n o p' q r s t p v w x y z aa bb cc.

Definition set_extras (p : gmap str Value) (e : ServiceEntry) : ServiceEntry :=
  let 'mkEntry a b c d f g h i j k l m n o p' q r s t u _ w x y z aa bb cc := e in
  mkEntry a b c d f g h i j k l m n o p' q r s t u p w x y z aa bb cc.

Definition touch (now : Z) (e : ServiceEntry) : ServiceEntry :=
  let 'mkEntry a b c d f g h i j k l m n o p' q r s t u v w _ y z aa bb cc := e in
  mkEntry a b c d f g h i j k l m n o p' q r s t u v w now y z aa bb cc.

Definition set_status (p : ServiceStatus) (e : ServiceEntry) : ServiceEntry :=
  let 'mkEntry a b c d f g h i j k l m n o p' q r s t u v w x _ z aa bb cc := e in
  mkEntry a b c d f g h i j k l m n o p' q r s t u v w x p z aa bb cc.

Definition set_capacity (p : Z) (e : ServiceEntry) : ServiceEntry :=
  let 'mkEntry a b c d f g h i j k l m n o p' q r s t u v w x y _ aa bb cc := e in
  mkEntry a b c d f g h i j k l m n o p' q r s t u v w x y p aa bb cc.

Definition set_lease (owner job : option str) (expires : option Z) (e : ServiceEntry) : ServiceEntry :=
  let 'mkEntry a b c d f g h i j k l m n o p' q r s t u v w x y z _ _ _ := e in
  mkEntry a b c d f g h i j k l m n o p' q r s t u v w x y z owner job expires.

(** ** Methods *)

Definition key (e : ServiceEntry) : ServiceKey := (dcc_type e, instance_id e).

Definition with_capacity (c : Z) (e : ServiceEntry) : ServiceEntry := set_capacity (Z.max c 1) e.

Definition same_launch (a b : ServiceEntry) : bool :=
  match launch_id a, launch_id b with
  | Some l, Some r => bool_decide (l = r)
  | _, _ => false
  end.

Definition effective_address (e : ServiceEntry) : TransportAddress :=
  default (tcp (host e) (port e)) (transport_address e).

Definition is_ipc (e : ServiceEntry) : bool :=
  match transport_address e with Some a => negb (is_tcp a) | None => false end.

Definition display_id {uu : UuidText} (e : ServiceEntry) : str :=
  dcc_type e ++ lit "@" ++ default (lit "unknown") (version e) ++ lit "-" ++ take 8 (simple (instance_id e)).

(** *** Leases *)

Definition lease_expired (now : Z) (e : ServiceEntry) : bool :=
  match lease_expires_at e with Some t => t <=? now | None => false end.

Definition active_lease_owner (now : Z) (e : ServiceEntry) : option str :=
  match lease_owner e with
  | Some owner => if negb (lease_expired now e) then Some owner else None
  | None => None
  end.

Inductive LeaseOwnerError : Type := OwnerRequired | OwnerMismatch.

Definition lease_error_kind (e : LeaseOwnerError) : str :=
  match e with OwnerRequired => lit "instance-leased" | OwnerMismatch => lit "lease-owner-mismatch" end.

Definition check_lease_owner (request_owner : option str) (now : Z) (e : ServiceEntry) : result LeaseOwnerError unit :=
  match active_lease_owner now e with
  | None => Ok tt
  | Some active_owner =>
      match request_owner with
      | None => Err OwnerRequired
      | Some request_owner => if bool_decide (request_owner <> active_owner) then Err OwnerMismatch else Ok tt
      end
  end.

Definition clear_lease_fields (e : ServiceEntry) : ServiceEntry := set_lease None None None e.

Definition clear_lease (now : Z) (e : ServiceEntry) : ServiceEntry := touch now (set_status Available (clear_lease_fields e)).

Definition clear_expired_lease (now : Z) (e : ServiceEntry) : ServiceEntry * bool :=
  if negb (lease_expired now e) then (e, false)
  else
    let e := clear_lease_fields e in
    (if bool_decide (status e = Busy) then set_status Available e else e, true).

Definition acquire_lease (now : Z) (owner : str) (job : option str) (expires : option Z) (e : ServiceEntry) : ServiceEntry :=
  touch now (set_status Busy (set_lease (Some owner) job expires e)).

(** [elapsed()] fails when the heartbeat is ahead of the clock. *)
Definition is_stale (now timeout : Z) (e : ServiceEntry) : bool :=
  if last_heartbeat e <=? now then timeout <? now - last_heartbeat e else true.

(** *** Status for an agent *)

Definition dispatch_status_from_entry (e : ServiceEntry) : DispatchStatus :=
  match metadata e !! lit "dispatch_status" with
  | Some s =>
      if bool_decide (s = lit "ready") then DsReady
      else if bool_decide (s = lit "pending") then DsPending
      else if bool_decide (s = lit "failed") || bool_decide (s = lit "unavailable") then DsFailed
      else DsUnknown
  | None => DsUnknown
  end.

Definition instance_status_from_entry (e : ServiceEntry) (stale : bool) : InstanceStatus :=
  from_states (if stale then Stale else status e) (dispatch_status_from_entry e).

(** *** Liveness of sidecar rows without [host_pid], [liveness.rs] *)

Definition ROLE_METADATA_KEY : str := lit "dcc_mcp_role".
Definition ROLE_PER_DCC_SIDECAR : str := lit "per-dcc-sidecar".
Definition SIDECAR_PID_METADATA_KEY : str := lit "sidecar_pid".

(** [str::parse::<u32>]. *)
Definition parse_u32 (s : str) : option Z :=
  match parse_u64 s with Some n => if n <=? u32_max then Some n else None | None => None end.

Definition legacy_sidecar_host_pid (e : ServiceEntry) : option Z :=
  if bool_decide (is_Some (host_pid e)) || negb (bool_decide (metadata e !! ROLE_METADATA_KEY = Some ROLE_PER_DCC_SIDECAR)) then None
  else
    watched_pid ← pid e;
    text ← metadata e !! SIDECAR_PID_METADATA_KEY;
    sidecar_pid ← parse_u32 text;
    if bool_decide (watched_pid <> sidecar_pid) then Some watched_pid else None.

(** ** Patches, [entry_patch.rs] *)

Record ServiceSnapshot : Type := mkServiceSnapshot {
  sn_scene : option str;
  sn_version : option str;
  sn_documents : option (list str);
  sn_display_name : option str;
  sn_metadata : option (gmap str str);
  sn_extras : option (gmap str Value);
}.

Definition no_patch : ServiceSnapshot := mkServiceSnapshot None None None None None None.

Definition unless_empty (s : str) : option str := if bool_decide (s = []) then None else Some s.

Section Patches.
Context {hs : HashOrder str} {hv : HashOrder Value}.

Definition apply_metadata_patch (e : ServiceEntry) (patch : gmap str str) : ServiceEntry :=
  foldl (fun e '(name, value) =>
    if bool_decide (value = []) then set_metadata (base.delete name (metadata e)) e
    else set_metadata (<[name := value]> (metadata e)) e) e (hash_order patch).

Definition apply_extras_patch (e : ServiceEntry) (patch : gmap str Value) : ServiceEntry :=
  foldl (fun e '(name, value) =>
    if is_null value then set_extras (base.delete name (extras e)) e
    else set_extras (<[name := value]> (extras e)) e) e (hash_order patch).

Definition apply_snapshot (now : Z) (e : ServiceEntry) (s : ServiceSnapshot) : ServiceEntry :=
  let e := match sn_scene s with Some x => set_scene (unless_empty x) e | None => e end in
  let e := match sn_version s with Some x => set_version (unless_empty x) e | None => e end in
  let e := match sn_documents s with Some l => set_documents (base.filter (fun d => d <> []) l) e | None => e end in
  let e := match sn_display_name s with Some x => set_display_name (unless_empty x) e | None => e end in
  let e := match sn_metadata s with Some m => apply_metadata_patch e m | None => e end in
  let e := match sn_extras s with Some m => apply_extras_patch e m | None => e end in
  touch now e.

(** The patches [update_metadata], [update_documents], [update_instance_metadata] and
    [update_instance_extras] hand to [update_snapshot]. *)
Definition metadata_snapshot (scene version : option str) : ServiceSnapshot := mkServiceSnapshot scene version None None None None.
Definition documents_snapshot (active : option str) (documents : list str) (display_name : option str) : ServiceSnapshot :=
  mkServiceSnapshot active None (Some documents) display_name None None.
Definition instance_metadata_snapshot (m : gmap str str) : ServiceSnapshot := mkServiceSnapshot None None None None (Some m) None.
Definition instance_extras_snapshot (m : gmap str Value) : ServiceSnapshot := mkServiceSnapshot None None None None None (Some m).

(** A patch as a map: what a key holds afterwards. *)
Definition patched {A} (removes : A -> bool) (old patch : gmap str A) : gmap str A :=
  merge (fun p o => match p with Some v => if removes v then None else Some v | None => o end) patch old.

End Patches.
