(* ===== verification/EntryFormat.v ===== *)
(** Registry rows on disk, [dcc-mcp-transport/src/discovery/]: the serde form that
    [types.rs] derives for a row, with its own readers of times, and
    [registry_format.rs], which reads a whole file.

    A derived reader accepts an object by field names, ignoring others, or an array by
    positions.  A time is written as the standard library writes it. *)

From Stdlib Require Import SpecFloat.
From S2P Require Import Prelude Text Json GatewayNaming Capability TransportAddress ServiceEntry.

Local Open Scope Z_scope.

(** ** Times *)

Definition NANOS : Z := 1000000000.

(** The last time the standard library represents on Unix, [i64::MAX] seconds. *)
Definition TIME_END : Z := (i64_max + 1) * NANOS.

(** The outcome of reading a value: [Panics] is [Duration::new] with too many seconds. *)
Inductive RowError : Type := Malformed | Panics.

(** [UNIX_EPOCH.checked_add(Duration::new(secs, nanos))]. *)
Definition epoch_plus (secs nanos : Z) : result RowError Z :=
  if u64_max <? secs + nanos / NANOS then Err Panics
  else if secs * NANOS + nanos <? TIME_END then Ok (secs * NANOS + nanos)
  else Err Malformed.

(** [x.trunc()] as an integer, for a finite [x]. *)
Definition f64_trunc (x : spec_float) : Z :=
  match x with
  | S754_finite s m e =>
      let v := if 0 <=? e then Z.pos m * 2 ^ e else Z.pos m / 2 ^ (- e) in
      if s then - v else v
  | _ => 0
  end.

(** A saturating conversion to an unsigned integer of maximum [m]. *)
Definition clamp (m z : Z) : Z := Z.max 0 (Z.min m z).

Definition system_time_from_json_value (v : Value) : result RowError Z :=
  match v with
  | Num n =>
      match as_f64 v with
      | Some secs_f64 =>
          let whole := f64_trunc secs_f64 in
          let frac := SFabs (f64_sub secs_f64 (f64 whole 0)) in
          epoch_plus (clamp u64_max whole) (clamp u32_max (f64_trunc (f64_mul frac (f64 NANOS 0))))
      | None => Err Malformed
      end
  | Object obj =>
      match json_get (lit "secs_since_epoch") obj ≫= as_u64 with
      | Some secs => epoch_plus secs (default 0 (json_get (lit "nanos_since_epoch") obj ≫= as_u64) mod 2 ^ 32)
      | None => Err Malformed
      end
  | _ => Err Malformed
  end.

Definition deserialize_system_time : Value -> result RowError Z := system_time_from_json_value.

Definition deserialize_optional_system_time (v : Value) : result RowError (option Z) :=
  if is_null v then Ok None else let? t := system_time_from_json_value v in Ok (Some t).

Definition deserialize_optional_system_time_lossy (v : Value) : result RowError (option Z) :=
  if is_null v then Ok None
  else match system_time_from_json_value v with
       | Ok t => Ok (Some t)
       | Err Malformed => Ok None
       | Err Panics => Err Panics
       end.

(** [SystemTime]'s serializer refuses a time before the epoch. *)
Definition time_to_value (t : Z) : option Value :=
  if t <? 0 then None
  else Some (Object [(lit "secs_since_epoch", Num (PosInt (t / NANOS))); (lit "nanos_since_epoch", Num (PosInt (t mod NANOS)))]).

(** ** Readers of the field types *)

Definition read_uint (m : Z) (v : Value) : result RowError Z :=
  match v with Num (PosInt n) => if n <=? m then Ok n else Err Malformed | _ => Err Malformed end.

Definition read_str (v : Value) : result RowError str := match v with Str s => Ok s | _ => Err Malformed end.

Definition read_opt {A} (f : Value -> result RowError A) (v : Value) : result RowError (option A) :=
  match v with Null => Ok None | _ => let? a := f v in Ok (Some a) end.

Fixpoint mapM_result {E A B} (f : A -> result E B) (l : list A) : result E (list B) :=
  match l with
  | [] => Ok []
  | x :: l => let? y := f x in let? ys := mapM_result f l in Ok (y :: ys)
  end.

Definition read_list {A} (f : Value -> result RowError A) (v : Value) : result RowError (list A) :=
  match v with Array l => mapM_result f l | _ => Err Malformed end.

Definition read_map {A} (f : Value -> result RowError A) (v : Value) : result RowError (gmap str A) :=
  match v with
  | Object m => let? kvs := mapM_result (fun '(k, v) => let? a := f v in Ok (k, a)) m in Ok (list_to_map (reverse kvs))
  | _ => Err Malformed
  end.

(** The variant an enum's value names: a string, or an object of one entry. *)
Definition unit_variant (v : Value) : option str :=
  match v with Str s => Some s | Object [(s, Null)] => Some s | _ => None end.

Definition service_status_of (s : str) : option ServiceStatus :=
  list_find (fun st => show_service_status st = s) [Available; Busy; Unreachable; ShuttingDown; Booting; Stale] ≫= fun p => Some p.2.

Definition read_status (v : Value) : result RowError ServiceStatus :=
  match unit_variant v ≫= service_status_of with Some s => Ok s | None => Err Malformed end.

(** The serde form of [TransportAddress], a derived enum tagged by its field [type]. *)
Class AddressCodec : Type := {
  address_to_value : TransportAddress -> Value;
  address_from_value : Value -> option TransportAddress;
  address_codec a : wf_address a -> address_from_value (address_to_value a) = Some a;
  address_not_null a : is_null (address_to_value a) = false;
  address_fields a : exists m, address_to_value a = Object m /\ NoDup (fst <$> m) /\
    Forall (fun kv => match kv.2 with Str _ => True | Num (PosInt n) => exists h, a = Tcp h n | _ => False end) m;
}.

(** ** Rows *)

Section Rows.
Context {uu : UuidText} {ac : AddressCodec} {hs : HashOrder str} {hv : HashOrder Value}.

Definition FIELDS : list str :=
  [lit "schema_version"; lit "dcc_type"; lit "instance_id"; lit "host"; lit "port"; lit "transport_address"; lit "version";
   lit "adapter_version"; lit "adapter_dcc"; lit "scene"; lit "documents"; lit "pid"; lit "host_pid"; lit "sentinel_path";
   lit "launch_id"; lit "parent_pid"; lit "role"; lit "started_at"; lit "display_name"; lit "metadata"; lit "extras";
   lit "registered_at"; lit "last_heartbeat"; lit "status"; lit "capacity"; lit "lease_owner"; lit "current_job_id";
   lit "lease_expires_at"].

Definition num (n : Z) : Value := Num (PosInt n).

(** A field that is written always, one skipped when absent, one written as null. *)
Definition always (v : Value) : option Value := Some v.
Definition if_some {A} (f : A -> Value) (o : option A) : option Value := f <$> o.
Definition or_null {A} (f : A -> Value) (o : option A) : option Value := Some (match o with Some a => f a | None => Null end).
Definition unless (b : bool) (v : Value) : option Value := if b then None else Some v.

Definition strings (m : gmap str str) : Value := Object ((fun '(k, v) => (k, Str v)) <$> hash_order m).

(** A time as it is written, where it can be. *)
Definition time_value (t : Z) : Value := default Null (time_to_value t).

Definition serializable (e : ServiceEntry) : bool :=
  (0 <=? registered_at e) && (0 <=? last_heartbeat e) && (0 <=? default 0 (started_at e)) && (0 <=? default 0 (lease_expires_at e)).

(** [serde_json::to_value] of a row: the fields in the order of the struct. *)
Definition row_pieces (e : ServiceEntry) : list (option Value) :=
  [always (num (schema_version e));
   always (Str (dcc_type e));
   always (Str (hyphenated (instance_id e)));
   always (Str (host e));
   always (num (port e));
   if_some address_to_value (transport_address e);
   or_null Str (version e);
   if_some Str (adapter_version e);
   if_some Str (adapter_dcc e);
   or_null Str (scene e);
   unless (bool_decide (documents e = [])) (Array (Str <$> documents e));
   if_some num (pid e);
   if_some num (host_pid e);
   if_some Str (sentinel_path e);
   if_some Str (launch_id e);
   if_some num (parent_pid e);
   if_some (fun r => Str (role_str r)) (role e);
   if_some time_value (started_at e);
   if_some Str (display_name e);
   always (strings (metadata e));
   unless (bool_decide (extras e = ∅)) (Object (hash_order (extras e)));
   always (time_value (registered_at e));
   always (time_value (last_heartbeat e));
   always (Str (show_service_status (status e)));
   unless (capacity e =? default_capacity) (num (capacity e));
   if_some Str (lease_owner e);
   if_some Str (current_job_id e);
   if_some time_value (lease_expires_at e)].

Definition row_fields (e : ServiceEntry) : JsonMap := omap (fun '(k, o) => v ← o; Some (k, v)) (zip FIELDS (row_pieces e)).

Definition row_to_value (e : ServiceEntry) : option Value :=
  if serializable e then Some (Object (row_fields e)) else None.

(** The fields of a row's value: an object's, or an array's by position. *)
Definition fields_of (v : Value) : option JsonMap :=
  match v with
  | Object m => Some m
  | Array l => if (length l <=? length FIELDS)%nat then Some (zip FIELDS l) else None
  | _ => None
  end.

Definition required {A} (m : JsonMap) (k : str) (f : Value -> result RowError A) : result RowError A :=
  match json_get k m with Some v => f v | None => Err Malformed end.

Definition defaulted {A} (m : JsonMap) (k : str) (d : A) (f : Value -> result RowError A) : result RowError A :=
  match json_get k m with Some v => f v | None => Ok d end.

Definition optional {A} (m : JsonMap) (k : str) (f : Value -> result RowError A) : result RowError (option A) :=
  defaulted m k None (read_opt f).

Definition of_option {A} (o : option A) : result RowError A := match o with Some a => Ok a | None => Err Malformed end.

Definition read_uuid (v : Value) : result RowError Uuid := let? s := read_str v in of_option (parse_uuid s).

Definition read_address (v : Value) : result RowError TransportAddress := of_option (address_from_value v).

Definition read_role (v : Value) : result RowError ServiceRole := let? s := read_str v in Ok (role_from_raw s).

(** [serde_json::from_value] of a row. *)
Definition row_from_value (v : Value) : result RowError ServiceEntry :=
  let? m := of_option (fields_of v) in
  let? schema_version := defaulted m (lit "schema_version") 0 (read_uint 65535) in
  let? dcc_type := required m (lit "dcc_type") read_str in
  let? instance_id := required m (lit "instance_id") read_uuid in
  let? host := required m (lit "host") read_str in
  let? port := required m (lit "port") (read_uint 65535) in
  let? transport_address := optional m (lit "transport_address") read_address in
  let? version := optional m (lit "version") read_str in
  let? adapter_version := optional m (lit "adapter_version") read_str in
  let? adapter_dcc := optional m (lit "adapter_dcc") read_str in
  let? scene := optional m (lit "scene") read_str in
  let? documents := defaulted m (lit "documents") [] (read_list read_str) in
  let? pid := optional m (lit "pid") (read_uint u32_max) in
  let? host_pid := optional m (lit "host_pid") (read_uint u32_max) in
  let? sentinel_path := optional m (lit "sentinel_path") read_str in
  let? launch_id := optional m (lit "launch_id") read_str in
  let? parent_pid := optional m (lit "parent_pid") (read_uint u32_max) in
  let? role := optional m (lit "role") read_role in
  let? started_at := defaulted m (lit "started_at") None deserialize_optional_system_time_lossy in
  let? display_name := optional m (lit "display_name") read_str in
  let? metadata := defaulted m (lit "metadata") ∅ (read_map read_str) in
  let? extras := defaulted m (lit "extras") ∅ (read_map Ok) in
  let? registered_at := required m (lit "registered_at") deserialize_system_time in
  let? last_heartbeat := required m (lit "last_heartbeat") deserialize_system_time in
  let? status := defaulted m (lit "status") Available read_status in
  let? capacity := defaulted m (lit "capacity") default_capacity (read_uint u32_max) in
  let? lease_owner := optional m (lit "lease_owner") read_str in
  let? current_job_id := optional m (lit "current_job_id") read_str in
  let? lease_expires_at := defaulted m (lit "lease_expires_at") None deserialize_optional_system_time in
  Ok (mkEntry schema_version dcc_type instance_id host port transport_address version adapter_version adapter_dcc scene documents
    pid host_pid sentinel_path launch_id parent_pid role started_at display_name metadata extras registered_at last_heartbeat
    status capacity lease_owner current_job_id lease_expires_at).

(** ** Files, [registry_format.rs] *)

(** [Uuid::new_v5] in the URL namespace. *)
Class UuidV5 : Type := uuid_v5_url : str -> Uuid.

Context {v5 : UuidV5}.

(** What [ServiceEntry::new] reads of its surroundings; the identifier is replaced. *)
Record Surroundings : Type := mkSurroundings { now : Z; own_pid : Z }.

Definition legacy_gateway_sentinel (w : Surroundings) (v : Value) : option (result RowError ServiceEntry) :=
  row ← (match v with Object m => Some m | _ => None end);
  dcc ← json_get (lit "dcc_type") row ≫= as_str;
  if negb (bool_decide (dcc = GATEWAY_SENTINEL_DCC_TYPE)) then None
  else
    host ← json_get (lit "host") row ≫= as_str;
    p ← json_get (lit "port") row ≫= as_u64;
    if 65535 <? p then None
    else
      let id := uuid_v5_url (lit "dcc-mcp://gateway/" ++ host ++ lit ":" ++ print_u64 p) in
      let entry := entry_new (now w) id (own_pid w) GATEWAY_SENTINEL_DCC_TYPE host p in
      defaults ← row_to_value entry;
      let or_insert m k v := match json_get k m with Some _ => m | None => m ++ [(k, v)] end in
      let row := or_insert row (lit "schema_version") (num SERVICE_ENTRY_LEGACY_SCHEMA_VERSION) in
      let row := foldl (fun m '(k, v) => or_insert m k v) row (match defaults with Object d => d | _ => [] end) in
      Some (row_from_value (Object row)).

Inductive RegistryParseError : Type :=
| JsonError
| UnsupportedSchema (received supported : Z)
| ParsePanics.

Definition future_schema (v : Value) : option Z :=
  match v with
  | Object row =>
      received ← json_get (lit "schema_version") row ≫= as_u64;
      if SERVICE_ENTRY_SCHEMA_VERSION <? received then Some received else None
  | _ => None
  end.

Definition parse_row (w : Surroundings) (v : Value) : result RegistryParseError ServiceEntry :=
  match future_schema v with
  | Some received => Err (UnsupportedSchema received SERVICE_ENTRY_SCHEMA_VERSION)
  | None =>
      match row_from_value v with
      | Ok e => Ok e
      | Err Panics => Err ParsePanics
      | Err Malformed =>
          match legacy_gateway_sentinel w v with
          | Some (Ok e) => Ok e
          | Some (Err Panics) => Err ParsePanics
          | _ => Err JsonError
          end
      end
  end.

(** The values whose text reads back as themselves (the workspace builds with
    [float_roundtrip]): machine integers, finite doubles, objects without repeated keys. *)
Fixpoint json_plain (v : Value) : Prop :=
  match v with
  | Null | Bool _ | Str _ => True
  | Num n => valid_number n /\ match n with Float x => valid_binary 53 1024 x = true | _ => True end
  | Array l => (fix all (l : list Value) := match l with [] => True | v :: l => json_plain v /\ all l end) l
  | Object m =>
      NoDup (fst <$> m) /\
      (fix all (m : JsonMap) := match m with [] => True | (_, v) :: m => json_plain v /\ all m end) m
  end.

(** [serde_json::from_str] reads a text; [to_string_pretty] writes one. *)
Class JsonFile : Type := {
  from_str : str -> option Value;
  pretty : Value -> str;
  from_str_pretty v : json_plain v -> from_str (pretty v) = Some v;
  from_str_blank s : Forall (fun c => c = 0 \/ is_whitespace c = true) s -> from_str s = None;
}.

Context {jf : JsonFile}.

(** [serde_json::to_string_pretty(&entries)]. *)
Definition file_text (es : list ServiceEntry) : option str := (fun vs => pretty (Array vs)) <$> mapM row_to_value es.

Definition parse_registry_entries (w : Surroundings) (content : str) : result RegistryParseError (list ServiceEntry) :=
  match from_str content with
  | Some (Array values) => mapM_result (parse_row w) values
  | _ => Err JsonError
  end.

End Rows.
