(* ===== verification/EntryProps.v ===== *)
(** Theorems on registry rows: what a patch leaves, who may use a leased instance, roles
    and launches, and that a row read from disk is the row that was written. *)

From Stdlib Require Import SpecFloat.
From S2P Require Import Prelude Text Json GatewayNaming Capability TransportAddress ServiceEntry EntryFormat.

Local Open Scope Z_scope.

(** ** Patches *)

Section Patches.
Context {hs : HashOrder str} {hv : HashOrder Value}.

(** One pass over a patch in any order is the merge of the two maps. *)
Lemma fold_patch {A} (removes : A -> bool) (l : list (str * A)) (old : gmap str A) :
  NoDup (fst <$> l) ->
  foldl (fun (m : gmap str A) '(k, v) => if removes v then base.delete k m else <[k := v]> m) old l =
  patched removes old (list_to_map l).
Proof.
  intros Hnd. apply map_eq. intros k.
  unfold patched. rewrite lookup_merge. revert old.
  induction l as [|[k' v'] l IH]; intros old; cbn [foldl].
  - cbn [list_to_map foldr]. rewrite lookup_empty. by destruct (old !! k).
  - apply NoDup_cons in Hnd as [Hn Hnd]. rewrite IH by done. cbn [list_to_map foldr fst snd].
    change (foldr _ _ l) with (list_to_map l : gmap str A).
    destruct (decide (k = k')) as [->|Hne].
    + rewrite lookup_insert_eq. rewrite not_elem_of_list_to_map_1 by done. cbn [diag_None].
      destruct (removes v') eqn:E; [rewrite lookup_delete_eq|rewrite lookup_insert_eq]; cbn; by rewrite ?E.
    + rewrite lookup_insert_ne by done. destruct (removes v'); [rewrite lookup_delete_ne by done|rewrite lookup_insert_ne by done]; done.
Qed.

Lemma hash_order_map {A} {h : HashOrder A} (m : gmap str A) : (list_to_map (hash_order m) : gmap str A) = m.
Proof.
  transitivity (list_to_map (map_to_list m) : gmap str A); [|apply list_to_map_to_list].
  apply list_to_map_proper; [|apply hash_order_perm]. rewrite hash_order_perm. apply NoDup_fst_map_to_list.
Qed.

Lemma hash_order_NoDup {A} {h : HashOrder A} (m : gmap str A) : NoDup (fst <$> hash_order m).
Proof. rewrite hash_order_perm. apply NoDup_fst_map_to_list. Qed.

Lemma metadata_fold (l : list (str * str)) (e : ServiceEntry) :
  foldl (fun e '(name, value) => if bool_decide (value = []) then set_metadata (base.delete name (metadata e)) e
    else set_metadata (<[name := value]> (metadata e)) e) e l =
  set_metadata (foldl (fun (m : gmap str str) '(k, v) => if bool_decide (v = []) then base.delete k m else <[k := v]> m) (metadata e) l) e.
Proof.
  revert e. induction l as [|[k v] l IH]; intros e; cbn [foldl]; [by destruct e|].
  rewrite IH. destruct e; case_bool_decide; reflexivity.
Qed.

Lemma extras_fold (l : list (str * Value)) (e : ServiceEntry) :
  foldl (fun e '(name, value) => if is_null value then set_extras (base.delete name (extras e)) e
    else set_extras (<[name := value]> (extras e)) e) e l =
  set_extras (foldl (fun (m : gmap str Value) '(k, v) => if is_null v then base.delete k m else <[k := v]> m) (extras e) l) e.
Proof.
  revert e. induction l as [|[k v] l IH]; intros e; cbn [foldl]; [by destruct e|].
  rewrite IH. destruct e; destruct (is_null v); reflexivity.
Qed.

Lemma metadata_patch_spec e patch : apply_metadata_patch e patch = set_metadata (patched (fun v => bool_decide (v = [])) (metadata e) patch) e.
Proof.
  unfold apply_metadata_patch. rewrite metadata_fold, (fold_patch (fun v => bool_decide (v = []))) by apply hash_order_NoDup.
  by rewrite hash_order_map.
Qed.

Lemma extras_patch_spec e patch : apply_extras_patch e patch = set_extras (patched is_null (extras e) patch) e.
Proof.
  unfold apply_extras_patch. rewrite extras_fold, (fold_patch is_null) by apply hash_order_NoDup. by rewrite hash_order_map.
Qed.

(** A row after a patch, field by field. *)
Definition patch_spec (now : Z) (e : ServiceEntry) (s : ServiceSnapshot) : ServiceEntry :=
  touch now
  (set_extras (match sn_extras s with Some m => patched is_null (extras e) m | None => extras e end)
  (set_metadata (match sn_metadata s with Some m => patched (fun v => bool_decide (v = [])) (metadata e) m | None => metadata e end)
  (set_display_name (match sn_display_name s with Some x => unless_empty x | None => display_name e end)
  (set_documents (match sn_documents s with Some l => base.filter (fun d => d <> []) l | None => documents e end)
  (set_version (match sn_version s with Some x => unless_empty x | None => version e end)
  (set_scene (match sn_scene s with Some x => unless_empty x | None => scene e end) e)))))).

Lemma apply_snapshot_spec (now : Z) (e : ServiceEntry) (s : ServiceSnapshot) : apply_snapshot now e s = patch_spec now e s.
Proof.
  unfold apply_snapshot, patch_spec.
  destruct s as [sc ve doc dn md ex]. cbn [sn_scene sn_version sn_documents sn_display_name sn_metadata sn_extras].
  destruct e; destruct sc, ve, doc, dn, md, ex; rewrite ?extras_patch_spec, ?metadata_patch_spec; reflexivity.
Qed.

(** A patch changes exactly the fields it names, whatever order its maps are visited
    in: an empty text clears, an empty metadata value or a null extra removes its key, keys
    it does not name stay; identity, pids, status and lease are untouched, and the
    heartbeat is refreshed.  Applying the patch again changes only the heartbeat. *)
Theorem apply_snapshot_exact (now later : Z) (e : ServiceEntry) (s : ServiceSnapshot) :
  apply_snapshot now e s = patch_spec now e s /\
  apply_snapshot later (apply_snapshot now e s) s = touch later (apply_snapshot now e s).
Proof.
  split; [apply apply_snapshot_spec|]. rewrite !apply_snapshot_spec. unfold patch_spec.
  assert (Hp : forall {A} (r : A -> bool) (old p : gmap str A), patched r (patched r old p) p = patched r old p).
  { clear. intros A r old p. apply map_eq. intros k. unfold patched. rewrite !lookup_merge.
    destruct (p !! k) as [v|], (old !! k); cbn; by try destruct (r v). }
  destruct s as [sc ve doc dn md ex], e. cbn -[patched base.filter].
  f_equal; repeat match goal with
    | |- match ?x with Some _ => _ | None => _ end = _ => destruct x; [|reflexivity]
    end; try reflexivity; apply Hp.
Qed.

End Patches.

(** ** Leases *)

(** A leased instance serves only its holder until the lease ends: a request without
    owner or with another one is refused with the error that names the case; an expired or
    absent lease admits everyone, and a lease without an end never expires. *)
Theorem check_lease_owner_exact (request : option str) (now : Z) (e : ServiceEntry) :
  check_lease_owner request now e =
    match active_lease_owner now e, request with
    | None, _ => Ok tt
    | Some _, None => Err OwnerRequired
    | Some owner, Some r => if decide (r = owner) then Ok tt else Err OwnerMismatch
    end /\
  (active_lease_owner now e = lease_owner e <->
     lease_owner e = None \/ match lease_expires_at e with Some t => now < t | None => True end).
Proof.
  unfold check_lease_owner. split.
  - destruct (active_lease_owner now e) as [o|], request as [r|]; try done.
    destruct (decide (r = o)) as [->|]; [by rewrite bool_decide_false by auto|by rewrite bool_decide_true].
  - unfold active_lease_owner, lease_expired. destruct (lease_owner e) as [o|]; [|naive_solver].
    destruct (lease_expires_at e) as [t|]; cbn; [|naive_solver].
    destruct (t <=? now) eqn:E; cbn; split; try naive_solver lia; intros [|]; try done; lia.
Qed.

(** Ending a lease: the read-side projection clears an expired lease, frees only a busy
    instance and leaves the heartbeat; [clear_lease] frees the instance whatever its
    status and refreshes the heartbeat. *)
Theorem clear_lease_exact (now : Z) (e : ServiceEntry) :
  lease_owner (clear_lease now e) = None /\ lease_expires_at (clear_lease now e) = None /\
  current_job_id (clear_lease now e) = None /\ status (clear_lease now e) = Available /\ last_heartbeat (clear_lease now e) = now /\
  clear_expired_lease now e =
    if lease_expired now e then
      (set_status (if decide (status e = Busy) then Available else status e) (set_lease None None None e), true)
    else (e, false).
Proof.
  split_and!; try by destruct e. unfold clear_expired_lease. destruct (lease_expired now e); cbn [negb]; [|done].
  unfold clear_lease_fields. destruct e; cbn. by destruct (decide _) as [->|]; case_bool_decide.
Qed.

(** ** Identity *)

Lemma trim_start_while_idem (p : Z -> bool) s : trim_start_while p (trim_start_while p s) = trim_start_while p s.
Proof. induction s as [|c s IH]; [done|]. cbn [trim_start_while]. destruct (p c) eqn:E; [done|]. cbn [trim_start_while]. by rewrite E. Qed.

(** A role read back from its own text is the same role, however it was spelled; two
    rows are of one launch only when both name it. *)
Theorem role_roundtrip (raw : str) : role_from_raw (role_str (role_from_raw raw)) = role_from_raw raw.
Proof.
  unfold role_from_raw at 2 3. cbv zeta.
  repeat (case_bool_decide; [reflexivity|]).
  assert (Ht : forall s : str, trim (trim s) = trim s).
  { clear. intros s. unfold trim. set (w := is_whitespace).
    assert (G : forall s, exists a, s = a ++ trim_start_while w s).
    { clear. intros s. induction s as [|c s [a IH]]; cbn [trim_start_while]; [by exists []|].
      destruct (w c); [exists (c :: a); cbn; by f_equal|by exists []]. }
    assert (H : forall s a, trim_start_while w s = s -> a ++ trim_start_while w (reverse s) = reverse s ->
      trim_start_while w (reverse (trim_start_while w (reverse s))) = reverse (trim_start_while w (reverse s))).
    { clear. intros s a Hs Ha. set (u := trim_start_while w (reverse s)) in *.
      assert (Hsu : s = reverse u ++ reverse a) by (rewrite <- reverse_app, Ha; by rewrite reverse_involutive).
      destruct (reverse u) as [|c t] eqn:E; [done|]. rewrite Hsu in Hs. cbn [app trim_start_while] in Hs |- *.
      destruct (w c) eqn:Hw; [|done]. exfalso.
      assert (L : forall l, (length (trim_start_while w l) <= length l)%nat).
      { clear. intros l. induction l as [|c l IH]; cbn [trim_start_while]; [lia|]. destruct (w c); cbn [length]; lia. }
      specialize (L (t ++ reverse a)). apply (f_equal length) in Hs. cbn [length] in Hs. lia. }
    pose proof (trim_start_while_idem w s) as Hi. set (x := trim_start_while w s) in *.
    destruct (G (reverse x)) as [a Ha]. specialize (H x a Hi (eq_sym Ha)). set (y := trim_start_while w (reverse x)) in *.
    rewrite H. rewrite reverse_involutive. f_equal. unfold y. by rewrite trim_start_while_idem. }
  cbn [role_str]. unfold role_from_raw. rewrite Ht. by rewrite !bool_decide_false.
Qed.

(** ** Rows on disk *)

(** [Uuid::parse_str] reads the hyphenated form. *)
Class UuidReads {uu : UuidText} : Prop :=
  parse_hyphenated id : 0 <= id < 2 ^ 128 -> parse_uuid (hyphenated id) = Some id.

(** The values the Rust types hold, with times a file can hold and a role as it is read. *)
Record wf_entry (e : ServiceEntry) : Prop := {
  wf_schema : 0 <= schema_version e <= 65535;
  wf_id : 0 <= instance_id e < 2 ^ 128;
  wf_port : 0 <= port e <= 65535;
  wf_transport a : transport_address e = Some a -> wf_address a;
  wf_pid p : pid e = Some p -> 0 <= p <= u32_max;
  wf_host_pid p : host_pid e = Some p -> 0 <= p <= u32_max;
  wf_parent_pid p : parent_pid e = Some p -> 0 <= p <= u32_max;
  wf_role r : role e = Some r -> role_from_raw (role_str r) = r;
  wf_capacity : 0 <= capacity e <= u32_max;
  wf_registered : 0 <= registered_at e < TIME_END;
  wf_heartbeat : 0 <= last_heartbeat e < TIME_END;
  wf_started t : started_at e = Some t -> 0 <= t < TIME_END;
  wf_expires t : lease_expires_at e = Some t -> 0 <= t < TIME_END;
}.

Lemma time_roundtrip t : 0 <= t < TIME_END -> system_time_from_json_value (time_value t) = Ok t.
Proof.
  intros Ht. unfold time_value, time_to_value. rewrite (proj2 (Z.ltb_ge t 0)) by lia. cbn [default from_option id system_time_from_json_value].
  change (json_get (lit "secs_since_epoch") _) with (Some (Num (PosInt (t / NANOS)))).
  change (json_get (lit "nanos_since_epoch") _) with (Some (Num (PosInt (t mod NANOS)))).
  cbn [mbind option_bind as_u64 default from_option id]. pose proof (Z.mod_pos_bound t NANOS ltac:(done)) as Hm.
  rewrite Z.mod_small by (unfold NANOS in *; lia). unfold epoch_plus. rewrite (Z.div_small (t mod NANOS) NANOS) by lia.
  pose proof (Z.div_mod t NANOS ltac:(done)) as Hd. rewrite (Z.mul_comm (t / NANOS)), <- Hd.
  assert (Hq : t / NANOS < i64_max + 1) by (apply Z.div_lt_upper_bound; [done|unfold TIME_END in Ht; lia]).
  rewrite (proj2 (Z.ltb_ge u64_max (t / NANOS + 0))) by (clear - Hq; unfold u64_max; unfold i64_max in Hq; lia). by rewrite (proj2 (Z.ltb_lt t TIME_END)) by lia.
Qed.

Lemma time_value_not_null t : 0 <= t -> is_null (time_value t) = false.
Proof. intros Ht. unfold time_value, time_to_value. by rewrite (proj2 (Z.ltb_ge t 0)) by lia. Qed.

Lemma mapM_result_fmap {E A B} (f : A -> result E B) (g : B -> A) (l : list B) :
  (forall b, f (g b) = Ok b) -> mapM_result f (g <$> l) = Ok l.
Proof. intros H. induction l as [|b l IH]; [done|]. cbn [fmap list_fmap mapM_result]. rewrite H. cbn [rbind]. by rewrite IH. Qed.

Lemma json_get_pieces (names : list str) (os : list (option Value)) (i : nat) (k : str) (o : option Value) :
  NoDup names -> names !! i = Some k -> os !! i = Some o ->
  json_get k (omap (fun '(k, o) => v ← o; Some (k, v)) (zip names os)) = o.
Proof.
  revert os i. induction names as [|n names IH]; intros os i Hnd; [done|]. apply NoDup_cons in Hnd as [Hn Hnd].
  destruct os as [|o' os]; [by destruct i|]. destruct i as [|i]; cbn [lookup list_lookup].
  - intros [= <-] [= <-]. cbn [zip zip_with omap list_omap]. destruct o' as [v|]; cbn [mbind option_bind]; [cbn [json_get]; by rewrite bool_decide_true|].
    assert (G : forall m : JsonMap, n ∉ fst <$> m -> json_get n m = None).
    { clear. induction m as [|[k v] m IH]; [done|]. cbn [fmap list_fmap fst json_get]. intros H. apply not_elem_of_cons in H as [H1 H2].
      rewrite bool_decide_false by done. auto. }
    apply G. intros Hin. apply Hn. apply list_elem_of_fmap in Hin as ([k v] & -> & Hin).
    apply list_elem_of_omap in Hin as ([k' o] & Hin & Ho). destruct o as [w|]; [|done]. cbn in Ho. injection Ho as -> ->.
    cbn [fst]. apply elem_of_zip_l in Hin. exact Hin.
  - intros Hk Ho. cbn [zip zip_with omap list_omap].
    assert (Hne : k <> n) by (intros ->; apply Hn; by eapply list_elem_of_lookup_2).
    destruct o' as [v|]; cbn [mbind option_bind]; [cbn [json_get]; rewrite bool_decide_false by done|]; by apply (IH _ i).
Qed.

Section RoundTrip.
Context {uu : UuidText} {ur : UuidReads} {ac : AddressCodec} {hs : HashOrder str} {hv : HashOrder Value}.

Lemma FIELDS_NoDup : NoDup FIELDS.
Proof. apply (bool_decide_unpack _). vm_compute. exact I. Qed.

Lemma field_value i k o e : FIELDS !! i = Some k -> row_pieces e !! i = Some o -> json_get k (row_fields e) = o.
Proof. intros Hk Ho. exact (json_get_pieces FIELDS (row_pieces e) i k o FIELDS_NoDup Hk Ho). Qed.

Lemma required_field {A} i k (f : Value -> result RowError A) v a e :
  FIELDS !! i = Some k -> row_pieces e !! i = Some (always v) -> f v = Ok a -> required (row_fields e) k f = Ok a.
Proof. intros Hk Ho Hf. unfold required. by rewrite (field_value i k _ e Hk Ho). Qed.

Lemma defaulted_field {A} i k d (f : Value -> result RowError A) o a e :
  FIELDS !! i = Some k -> row_pieces e !! i = Some o -> match o with Some v => f v = Ok a | None => d = a end ->
  defaulted (row_fields e) k d f = Ok a.
Proof. intros Hk Ho Hf. unfold defaulted. rewrite (field_value i k _ e Hk Ho). destruct o; [done|by f_equal]. Qed.

Lemma optional_field {A} i k (f : Value -> result RowError A) (g : A -> Value) (o : option A) e :
  FIELDS !! i = Some k -> row_pieces e !! i = Some (if_some g o) \/ row_pieces e !! i = Some (or_null g o) ->
  (forall a, o = Some a -> is_null (g a) = false /\ f (g a) = Ok a) -> optional (row_fields e) k f = Ok o.
Proof.
  intros Hk Ho Hg. unfold optional.
  assert (Hr : forall a, o = Some a -> read_opt f (g a) = Ok (Some a)).
  { intros a Ha. destruct (Hg a Ha) as [Hn Hf]. unfold read_opt. destruct (g a); try done; by rewrite Hf. }
  destruct Ho as [Ho|Ho]; eapply defaulted_field; try done; unfold if_some, or_null; destruct o; cbn; auto.
Qed.

Lemma read_uint_num m n : 0 <= n <= m -> read_uint m (num n) = Ok n.
Proof. intros H. unfold read_uint, num. by rewrite (proj2 (Z.leb_le n m)) by lia. Qed.

Lemma read_status_show s : read_status (Str (show_service_status s)) = Ok s.
Proof. by destruct s; vm_compute. Qed.

Lemma read_map_strings (m : gmap str str) : read_map read_str (strings m) = Ok m.
Proof.
  unfold read_map, strings.
  rewrite (mapM_result_fmap (fun '(k, v) => let? a := read_str v in Ok (k, a)) (fun '(k, v) => (k, Str v))) by (by intros [k v]).
  cbn [rbind]. f_equal. rewrite <- (hash_order_map m) at 2. apply list_to_map_proper; [|apply reverse_Permutation].
  rewrite fmap_reverse, reverse_Permutation. apply hash_order_NoDup.
Qed.

Lemma read_map_values (m : gmap str Value) : read_map Ok (Object (hash_order m)) = Ok m.
Proof.
  unfold read_map. rewrite <- (list_fmap_id (hash_order m)) at 1.
  rewrite (mapM_result_fmap (fun '(k, v) => let? a := Ok v in Ok (k, a)) id) by (by intros [k v]).
  cbn [rbind]. f_equal. rewrite <- (hash_order_map m) at 2. apply list_to_map_proper; [|apply reverse_Permutation].
  rewrite fmap_reverse, reverse_Permutation. apply hash_order_NoDup.
Qed.

Lemma documents_field e :
  match unless (bool_decide (documents e = [])) (Array (Str <$> documents e)) with
  | Some v => read_list read_str v = Ok (documents e)
  | None => [] = documents e
  end.
Proof. unfold unless. case_bool_decide; [done|]. apply (mapM_result_fmap read_str Str). done. Qed.

Lemma extras_field e :
  match unless (bool_decide (extras e = ∅)) (Object (hash_order (extras e))) with
  | Some v => read_map Ok v = Ok (extras e)
  | None => ∅ = extras e
  end.
Proof. unfold unless. case_bool_decide; [done|]. apply read_map_values. Qed.

Lemma capacity_field e : 0 <= capacity e <= u32_max ->
  match unless (capacity e =? default_capacity) (num (capacity e)) with
  | Some v => read_uint u32_max v = Ok (capacity e)
  | None => default_capacity = capacity e
  end.
Proof. intros H. unfold unless. destruct (_ =? _) eqn:E; [by apply Z.eqb_eq in E|]. by apply read_uint_num. Qed.

Lemma lossy_field (o : option Z) : (forall t, o = Some t -> 0 <= t < TIME_END) ->
  match if_some time_value o with Some v => deserialize_optional_system_time_lossy v = Ok o | None => None = o end.
Proof.
  intros H. destruct o as [t|]; [|done]. cbn [if_some fmap option_fmap option_map]. specialize (H t eq_refl).
  unfold deserialize_optional_system_time_lossy. rewrite time_value_not_null by lia. by rewrite time_roundtrip.
Qed.

Lemma expires_field (o : option Z) : (forall t, o = Some t -> 0 <= t < TIME_END) ->
  match if_some time_value o with Some v => deserialize_optional_system_time v = Ok o | None => None = o end.
Proof.
  intros H. destruct o as [t|]; [|done]. cbn [if_some fmap option_fmap option_map]. specialize (H t eq_refl).
  unfold deserialize_optional_system_time. rewrite time_value_not_null by lia. by rewrite time_roundtrip.
Qed.

Lemma rbind_ok {E A B} (r : result E A) (a : A) (k : A -> result E B) (b : result E B) : r = Ok a -> k a = b -> rbind r k = b.
Proof. by intros -> <-. Qed.

Tactic Notation "field" "(" tactic5(t) ")" := eapply rbind_ok; [t|cbv beta].
Ltac req i := eapply (required_field i); [reflexivity..|].
Ltac dft i := eapply (defaulted_field i); [reflexivity..|].
Ltac opt i := eapply (optional_field i); [reflexivity|first [left; reflexivity|right; reflexivity]|].

(** A row read back from its own value is that row, whichever fields were left out
    because they were absent, empty or the default; only a time before the epoch keeps a
    row from being written. *)
Theorem row_roundtrip (e : ServiceEntry) (Hwf : wf_entry e) :
  exists v, row_to_value e = Some v /\ row_from_value v = Ok e /\ future_schema v = if schema_version e <=? SERVICE_ENTRY_SCHEMA_VERSION then None else Some (schema_version e).
Proof.
  destruct Hwf. exists (Object (row_fields e)). split; [|split].
  - unfold row_to_value, serializable.
    assert (Hs : 0 <= default 0 (started_at e)) by (destruct (started_at e) as [t|]; [destruct (wf_started0 t); auto|done]).
    assert (He : 0 <= default 0 (lease_expires_at e)) by (destruct (lease_expires_at e) as [t|]; [destruct (wf_expires0 t); auto|done]).
    rewrite !(fun x H => proj2 (Z.leb_le 0 x) H) by lia. reflexivity.
  - unfold row_from_value. field (reflexivity).
    assert (Hu : forall (o : option Z), (forall p, o = Some p -> 0 <= p <= u32_max) ->
      forall a, o = Some a -> is_null (num a) = false /\ read_uint u32_max (num a) = Ok a).
    { intros o Ho a Ha. split; [done|]. apply read_uint_num. auto. }
    field (dft 0%nat; apply read_uint_num; lia).
    field (req 1%nat; reflexivity).
    field (req 2%nat; unfold read_uuid; cbn [read_str rbind]; rewrite parse_hyphenated by lia; reflexivity).
    field (req 3%nat; reflexivity).
    field (req 4%nat; apply read_uint_num; lia).
    field (opt 5%nat; intros a Ha; split; [apply address_not_null|unfold read_address; rewrite address_codec by auto; reflexivity]).
    field (opt 6%nat; done). field (opt 7%nat; done). field (opt 8%nat; done). field (opt 9%nat; done).
    field (dft 10%nat; apply documents_field).
    field (opt 11%nat; exact (Hu _ wf_pid0)). field (opt 12%nat; exact (Hu _ wf_host_pid0)).
    field (opt 13%nat; done). field (opt 14%nat; done).
    field (opt 15%nat; exact (Hu _ wf_parent_pid0)).
    field (opt 16%nat; intros a Ha; split; [done|]; unfold read_role; cbn [read_str rbind]; rewrite wf_role0 by done; reflexivity).
    field (dft 17%nat; exact (lossy_field _ wf_started0)).
    field (opt 18%nat; done).
    field (dft 19%nat; apply read_map_strings).
    field (dft 20%nat; apply extras_field).
    field (req 21%nat; apply time_roundtrip; lia). field (req 22%nat; apply time_roundtrip; lia).
    field (dft 23%nat; apply read_status_show).
    field (dft 24%nat; apply capacity_field; lia).
    field (opt 25%nat; done). field (opt 26%nat; done).
    field (dft 27%nat; exact (expires_field _ wf_expires0)).
    by destruct e.
  - unfold future_schema. rewrite (field_value 0 (lit "schema_version") (always (num (schema_version e)))) by reflexivity.
    cbn [always num mbind option_bind as_u64]. rewrite Z.leb_antisym. by destruct (_ <? _).
Qed.

End RoundTrip.
