(* ===== verification/FileRegistry.v ===== *)
(** The service registry shared by processes, [dcc-mcp-transport/src/discovery/]:
    [file_registry.rs] with [membership.rs] and [snapshot.rs], [file_registry_read_only.rs]
    and [liveness.rs].

    The state of a call is the registry handle of one process (its cached rows, the
    sentinel files it holds locked, the modification time it saw) and the directory all
    processes share.  An open file is its inode: a path can be unlinked while a handle
    still holds the lock of the inode it named.  A call runs to its end while it holds
    [services.lock]; what others may do meanwhile, writers that ignore the lock, and every
    fault of the system are inputs of the call ([Env]).

    A call can return, unwind (panic) or wait for a lock that is never released. *)

From S2P Require Import Prelude Text Json Capability TransportAddress ServiceEntry EntryFormat.

Local Open Scope Z_scope.

(** ** State *)

Abbreviation EntryMap := (gmap ServiceKey ServiceEntry).
Abbreviation inode := positive.

Record FileRegistry : Type := mkFileRegistry {
  services : EntryMap;
  sentinel_handles : gmap ServiceKey inode;
  last_mtime : option Z;
}.

Record Directory : Type := mkDirectory {
  registry_file : option (str * Z);
  quarantined : gmap Z str;
  paths : gmap str inode;
  locked : gset inode;
}.

Definition State : Type := FileRegistry * Directory.

Inductive TempFault : Type := OpenTemp | WriteTemp | SyncTemp.

Inductive RegistryFault : Type :=
| LockTimeout | LockFailed | UnlockFailed | CreateDirFailed | OpenLockFailed | ReadFailed
| TempFailed (f : TempFault) | RenameFailed | SentinelFailed | ProbeFailed.

Inductive TransportError : Type :=
| RegistryFile (f : RegistryFault)
| Serialization
| Io
| UnsupportedServiceEntrySchemaVersion (received supported : Z).

#[export] Instance TransportError_eq_dec : EqDecision TransportError.
Proof.
  assert (EqDecision TempFault) by solve_decision. assert (EqDecision RegistryFault) by solve_decision. solve_decision.
Defined.

(** One attempt at a lock, and the time waited so far. *)
Inductive LockTry : Type := Locked | WouldBlock | LockError.

(** What a call finds around it. *)
Record Env : Type := mkEnv {
  clock : Z;
  file_clock : Z;
  process : Z;
  alive : Z -> bool;
  mutex_tries : list (LockTry * Z);
  dir_fault : bool;
  lock_open_fault : bool;
  lock_tries : list (LockTry * Z);
  read_fails : nat -> nat -> bool;
  can_quarantine : bool;
  sentinel_fault : bool;
  probe_fault : str -> bool;
  temp_fault : option TempFault;
  rename_fails : nat -> bool;
  unlock_fails : bool;
  intruder : option (str * Z);
  late_intruder : option (str * Z);
}.

(** A call that no fault meets, at a time. *)
Definition calm (t own : Z) (live : Z -> bool) : Env :=
  mkEnv t t own live [(Locked, 0)] false false [(Locked, 0)] (fun _ _ => false) true false (fun _ => false) None
    (fun _ => false) false None None.

(** The iteration order of the entry map. *)
Class EntryOrder : Type := {
  entry_order : EntryMap -> list (ServiceKey * ServiceEntry);
  entry_order_perm m : entry_order m ≡ₚ map_to_list m;
}.

#[export] Instance listed_entries : EntryOrder :=
  {| entry_order m := map_to_list m; entry_order_perm _ := reflexivity _ |}.

(** ** The monad of calls *)

Inductive outcome (A : Type) : Type :=
| Ret (r : result TransportError A)
| Unwinds
| Waits.
Arguments Ret {A} r.
Arguments Unwinds {A}.
Arguments Waits {A}.

Definition M (A : Type) : Type := State -> State * outcome A.

Definition ret {A} (a : A) : M A := fun s => (s, Ret (Ok a)).
Definition raise {A} (e : TransportError) : M A := fun s => (s, Ret (Err e)).
Definition bind {A B} (m : M A) (k : A -> M B) : M B := fun s =>
  match m s with
  | (s, Ret (Ok a)) => k a s
  | (s, Ret (Err e)) => (s, Ret (Err e))
  | (s, Unwinds) => (s, Unwinds)
  | (s, Waits) => (s, Waits)
  end.
(** The value of a call whose error the caller handles. *)
Definition attempt {A} (m : M A) : M (result TransportError A) := fun s =>
  match m s with
  | (s, Ret r) => (s, Ret (Ok r))
  | (s, Unwinds) => (s, Unwinds)
  | (s, Waits) => (s, Waits)
  end.
Definition get : M State := fun s => (s, Ret (Ok s)).
Definition on_registry (f : FileRegistry -> FileRegistry) : M unit := fun '(r, d) => ((f r, d), Ret (Ok tt)).
Definition on_directory (f : Directory -> Directory) : M unit := fun '(r, d) => ((r, f d), Ret (Ok tt)).

Notation "'let!' x ':=' m 'in' k" := (bind m (fun x => k))
  (at level 10, x pattern, m at level 100, k at level 200) : dcc_scope.

Definition set_services (m : EntryMap) (r : FileRegistry) : FileRegistry := mkFileRegistry m (sentinel_handles r) (last_mtime r).
Definition set_handles (h : gmap ServiceKey inode) (r : FileRegistry) : FileRegistry := mkFileRegistry (services r) h (last_mtime r).
Definition set_mtime (t : option Z) (r : FileRegistry) : FileRegistry := mkFileRegistry (services r) (sentinel_handles r) t.
Definition set_file (f : option (str * Z)) (d : Directory) : Directory := mkDirectory f (quarantined d) (paths d) (locked d).
Definition set_quarantined (q : gmap Z str) (d : Directory) : Directory := mkDirectory (registry_file d) q (paths d) (locked d).
Definition set_paths (p : gmap str inode) (d : Directory) : Directory := mkDirectory (registry_file d) (quarantined d) p (locked d).
Definition set_locked (l : gset inode) (d : Directory) : Directory := mkDirectory (registry_file d) (quarantined d) (paths d) l.

(** ** Pure helpers *)

Inductive LockWaitLevel : Type := Quiet | Retry | Slow.

Definition classify_lock_wait (elapsed backoff slow_warn : Z) : LockWaitLevel :=
  if slow_warn <=? elapsed then Slow else if 2 * backoff <=? elapsed then Retry else Quiet.

Definition entries_to_map (es : list ServiceEntry) : EntryMap := foldl (fun m e => <[key e := e]> m) ∅ es.

Definition maps_equal (l r : EntryMap) : bool := bool_decide (l = r).

Definition membership_delta (current loaded : EntryMap) : nat * nat :=
  (size (base.filter (fun kv : ServiceKey * ServiceEntry => current !! kv.1 = None) loaded),
   size (base.filter (fun kv : ServiceKey * ServiceEntry => loaded !! kv.1 = None) current)).

Definition is_ascii_whitespace (c : Z) : bool := (c =? 32) || (c =? 9) || (c =? 10) || (c =? 12) || (c =? 13).

Definition looks_like_zero_padded_empty_registry (content : str) : bool :=
  bool_decide (0 ∈ content) && forallb (fun c => (c =? 0) || is_ascii_whitespace c) content.

(** The merge of a writer that ignored the lock: its rows, then this call's changes. *)
Definition merged_rows (baseline disk local : EntryMap) : EntryMap :=
  let with_disk := disk ∪ baseline in
  let changed := base.filter (fun kv : ServiceKey * ServiceEntry => baseline !! kv.1 <> Some kv.2) local in
  let gone := base.filter (fun kv : ServiceKey * ServiceEntry => local !! kv.1 = None) baseline in
  (changed ∪ with_disk) ∖ gone.

Section Registry.
Context {uu : UuidText} {ac : AddressCodec} {hs : HashOrder str} {hv : HashOrder Value} {v5 : UuidV5} {jf : JsonFile} {eo : EntryOrder}.
Context (registry_dir : str) (path_join : str -> str -> str) (timeout : Z).

Definition sentinel_path_for (k : ServiceKey) : str :=
  path_join (path_join registry_dir (lit "locks")) (fst k ++ lit "-" ++ hyphenated (snd k) ++ lit ".lock").

Section Call.
Context (env : Env).

(** [sleep_or_timeout] between the attempts: it gives up at the first one past the limit. *)
Fixpoint acquire (tries : list (LockTry * Z)) : M unit :=
  match tries with
  | [] => fun s => (s, Waits)
  | (Locked, _) :: _ => ret tt
  | (LockError, _) :: _ => raise (RegistryFile LockFailed)
  | (WouldBlock, elapsed) :: tries => if timeout <=? elapsed then raise (RegistryFile LockTimeout) else acquire tries
  end.

(** *** Reading *)

Definition READ_ATTEMPTS : nat := 5.

Fixpoint read_with_retry (tries attempt : nat) (fails : nat -> bool) (f : option (str * Z)) : result TransportError (option str) :=
  match tries with
  | O => Err (RegistryFile ReadFailed)
  | S tries => if fails attempt then read_with_retry tries (S attempt) fails f else Ok (fst <$> f)
  end.

Definition quarantine (content : str) : M unit :=
  on_directory (fun d => if can_quarantine env then set_file None (set_quarantined (<[clock env / NANOS := content]> (quarantined d)) d) else d).

Definition surroundings : Surroundings := mkSurroundings (clock env) (process env).

(** [read_entries_from_file], the [which]-th of a call. *)
Definition read_entries_from_file (which : nat) : M (list ServiceEntry) :=
  let! s := get in
  match read_with_retry READ_ATTEMPTS 0 (read_fails env which) (registry_file (snd s)) with
  | Err e => raise e
  | Ok None => ret []
  | Ok (Some content) =>
      if bool_decide (trim content = []) then ret []
      else if looks_like_zero_padded_empty_registry content then let! _ := quarantine content in ret []
      else
        match parse_registry_entries surroundings content with
        | Ok es => ret es
        | Err JsonError => let! _ := quarantine content in ret []
        | Err (UnsupportedSchema received supported) => raise (UnsupportedServiceEntrySchemaVersion received supported)
        | Err ParsePanics => fun s => (s, Unwinds)
        end
  end.

Definition replace_services (es : list ServiceEntry) : M unit := on_registry (set_services (entries_to_map es)).

Definition load_from_file (which : nat) : M unit :=
  let! es := read_entries_from_file which in replace_services es.

Definition update_mtime : M unit := fun '(r, d) => ((set_mtime (snd <$> registry_file d) r, d), Ret (Ok tt)).

Definition list_all_in_memory (r : FileRegistry) : list ServiceEntry := snd <$> entry_order (services r).

Definition force_reload_from_file : M (list ServiceEntry) :=
  let! _ := load_from_file 0 in
  let! _ := update_mtime in
  let! s := get in
  ret (list_all_in_memory (fst s)).

Definition refresh_from_disk : M unit := let! _ := force_reload_from_file in ret tt.

(** The errors of the reload are logged: a cached modification time marks the file seen. *)
Definition reload_if_stale : M unit :=
  let! s := get in
  match registry_file (snd s) with
  | None =>
      let had_cached_file := bool_decide (is_Some (last_mtime (fst s))) in
      let! _ := on_registry (set_mtime None) in
      if had_cached_file || negb (bool_decide (services (fst s) = ∅)) then replace_services [] else ret tt
  | Some (_, current_mtime) =>
      if bool_decide (last_mtime (fst s) = Some current_mtime) then ret tt
      else
        let! _ := on_registry (set_mtime (Some current_mtime)) in
        let! _ := attempt (load_from_file 0) in ret tt
  end.

(** *** Sentinels *)

Definition unlock_inode (i : inode) (d : Directory) : Directory := set_locked (locked d ∖ {[i]}) d.
Definition unlink (p : str) (d : Directory) : Directory := set_paths (base.delete p (paths d)) d.

(** Dropping the handle of a key, if this process holds one. *)
Definition drop_handle (k : ServiceKey) : M unit := fun '(r, d) =>
  match sentinel_handles r !! k with
  | Some i => ((set_handles (base.delete k (sentinel_handles r)) r, unlock_inode i d), Ret (Ok tt))
  | None => ((r, d), Ret (Ok tt))
  end.

(** Opening, creating it if it is missing, and waiting for its exclusive lock. *)
Definition create_sentinel (k : ServiceKey) : M (str * inode) := fun '(r, d) =>
  if sentinel_fault env then ((r, d), Ret (Err (RegistryFile SentinelFailed)))
  else
    let p := sentinel_path_for k in
    let i := default (fresh (list_to_set (snd <$> map_to_list (paths d)) ∪ locked d)) (paths d !! p) in
    let d := set_paths (<[p := i]> (paths d)) d in
    if decide (i ∈ locked d) then ((r, d), Waits)
    else ((r, set_locked ({[i]} ∪ locked d) d), Ret (Ok (p, i))).

Definition sentinel_is_dead (s : State) (k : ServiceKey) (p : str) : bool :=
  if bool_decide (is_Some (sentinel_handles (fst s) !! k)) then false
  else if probe_fault env p then false
  else match paths (snd s) !! p with None => true | Some i => bool_decide (i ∉ locked (snd s)) end.

(** *** Writing *)

Definition reconcile_unlocked_writer_changes (baseline local_entries : list ServiceEntry) : M (list ServiceEntry) :=
  let! disk_entries := read_entries_from_file 1 in
  let baseline_map := entries_to_map baseline in
  let disk_map := entries_to_map disk_entries in
  if maps_equal baseline_map disk_map then ret local_entries
  else ret (snd <$> entry_order (merged_rows baseline_map disk_map (entries_to_map local_entries))).

Definition RENAME_ATTEMPTS : nat := 8.

Fixpoint rename_retry (tries attempt : nat) (content : str) : M unit :=
  match tries with
  | O => raise (RegistryFile RenameFailed)
  | S tries =>
      if rename_fails env attempt then rename_retry tries (S attempt) content
      else on_directory (set_file (Some (content, file_clock env)))
  end.

Definition write_atomic (content : str) : M unit :=
  if dir_fault env then raise (RegistryFile CreateDirFailed)
  else match temp_fault env with
       | Some f => raise (RegistryFile (TempFailed f))
       | None => rename_retry RENAME_ATTEMPTS 0 content
       end.

(** Another process writes the file without the lock. *)
Definition intrude (w : option (str * Z)) : M unit :=
  on_directory (fun d => match w with Some f => set_file (Some f) d | None => d end).

Definition warn_if_post_write_clobbered : M unit := let! _ := attempt (read_entries_from_file 3) in ret tt.

Definition flush_to_file_after_transaction (baseline : list ServiceEntry) : M unit :=
  let! s := get in
  let local_entries := list_all_in_memory (fst s) in
  let! _ := intrude (intruder env) in
  let! entries := reconcile_unlocked_writer_changes baseline local_entries in
  match file_text entries with
  | None => raise Serialization
  | Some content =>
      let! _ := write_atomic content in
      let! _ := replace_services entries in
      let! _ := intrude (late_intruder env) in
      let! _ := update_mtime in
      warn_if_post_write_clobbered
  end.

(** *** Rolling back *)

Fixpoint for_keys (f : ServiceKey -> M unit) (ks : list ServiceKey) : M unit :=
  match ks with
  | [] => ret tt
  | k :: ks => let! _ := f k in for_keys f ks
  end.

Definition give_up_sentinel (k : ServiceKey) : M unit :=
  let! _ := drop_handle k in on_directory (unlink (sentinel_path_for k)).

Definition restore_sentinel (k : ServiceKey) : M unit :=
  let! s := get in
  if bool_decide (is_Some (sentinel_handles (fst s) !! k)) then ret tt
  else
    let! created := attempt (create_sentinel k) in
    match created with
    | Err _ => ret tt
    | Ok (p, i) =>
        on_registry (fun r => set_handles (<[k := i]> (sentinel_handles r)) (set_services (alter (set_sentinel (Some p)) k (services r)) r))
    end.

Definition owned_sentinel_keys (r : FileRegistry) : gset ServiceKey := dom (sentinel_handles r).

Definition reconcile_sentinels_after_rollback (rollback_entries : list ServiceEntry) (baseline_owned : gset ServiceKey) : M unit :=
  let desired_owned := baseline_owned ∩ list_to_set (key <$> rollback_entries) in
  let! s := get in
  let! _ := for_keys give_up_sentinel (elements (owned_sentinel_keys (fst s) ∖ desired_owned)) in
  for_keys restore_sentinel (elements desired_owned).

Definition rollback_failed_transaction (baseline : list ServiceEntry) (baseline_owned : gset ServiceKey) : M unit :=
  let! reread := attempt (read_entries_from_file 2) in
  let rollback_entries := match reread with Ok es => es | Err _ => baseline end in
  let! _ := replace_services rollback_entries in
  let! _ := reconcile_sentinels_after_rollback rollback_entries baseline_owned in
  update_mtime.

(** *** Transactions *)

(** An operation on the cached rows, with its value and whether it changed them. *)
Definition transaction_body {A} (op : M (A * bool)) : M A :=
  let! baseline := force_reload_from_file in
  let! s := get in
  let owned := owned_sentinel_keys (fst s) in
  let! done := attempt op in
  match done with
  | Err e => let! _ := rollback_failed_transaction baseline owned in raise e
  | Ok (value, changed) =>
      if changed then
        let! flushed := attempt (flush_to_file_after_transaction baseline) in
        match flushed with
        | Err e => let! _ := rollback_failed_transaction baseline owned in raise e
        | Ok _ => ret value
        end
      else ret value
  end.

Definition with_write_transaction {A} (op : M (A * bool)) : M A :=
  let! _ := acquire (mutex_tries env) in
  if dir_fault env then raise (RegistryFile CreateDirFailed)
  else if lock_open_fault env then raise (RegistryFile OpenLockFailed)
  else
    let! _ := acquire (lock_tries env) in
    let! value := transaction_body op in
    if unlock_fails env then raise (RegistryFile UnlockFailed) else ret value.

(** An operation that only touches the rows. *)
Definition on_rows {A} (f : EntryMap -> EntryMap * (A * bool)) : M (A * bool) := fun '(r, d) =>
  let '(m, v) := f (services r) in ((set_services m r, d), Ret (Ok v)).

(** ** The operations *)

Definition register_op (entry : ServiceEntry) : M (unit * bool) :=
  let k := key entry in
  let p := sentinel_path_for k in
  let! s := get in
  let! p :=
    (if bool_decide (is_Some (sentinel_handles (fst s) !! k)) && bool_decide (is_Some (paths (snd s) !! p)) then ret p
     else
       let! _ := drop_handle k in
       let! (p, i) := create_sentinel k in
       let! _ := on_registry (fun r => set_handles (<[k := i]> (sentinel_handles r)) r) in
       ret p) in
  let! _ := on_registry (fun r => set_services (<[k := set_sentinel (Some p) entry]> (services r)) r) in
  ret (tt, true).

Definition register (entry : ServiceEntry) : M unit :=
  if negb (validate_schema_version entry)
  then raise (UnsupportedServiceEntrySchemaVersion (schema_version entry) SERVICE_ENTRY_SCHEMA_VERSION)
  else with_write_transaction (register_op entry).

Definition remove_entry (k : ServiceKey) : M (option ServiceEntry) :=
  let! s := get in
  let removed := services (fst s) !! k in
  let! _ := on_registry (fun r => set_services (base.delete k (services r)) r) in
  let! _ := drop_handle k in
  let! _ := on_directory (match removed ≫= sentinel_path with Some p => unlink p | None => id end) in
  ret removed.

Definition deregister_op (k : ServiceKey) : M (option ServiceEntry * bool) :=
  let! removed := remove_entry k in ret (removed, bool_decide (is_Some removed)).

Definition deregister (k : ServiceKey) : M (option ServiceEntry) := with_write_transaction (deregister_op k).

Definition unchanged_since (observed : ServiceEntry) (m : EntryMap) : bool :=
  match m !! key observed with
  | Some current =>
      (registered_at current =? registered_at observed) && (last_heartbeat current =? last_heartbeat observed)
  | None => false
  end.

Definition deregister_if_unchanged (observed : ServiceEntry) : M (option ServiceEntry) :=
  with_write_transaction (
    let! s := get in
    if unchanged_since observed (services (fst s)) then deregister_op (key observed) else ret (None, false)).

(** An update of one row, if it is there. *)
Definition update_row (k : ServiceKey) (f : ServiceEntry -> ServiceEntry) (m : EntryMap) : EntryMap * (bool * bool) :=
  match m !! k with
  | Some e => (<[k := f e]> m, (true, true))
  | None => (m, (false, false))
  end.

Definition heartbeat (k : ServiceKey) : M bool := with_write_transaction (on_rows (update_row k (touch (clock env)))).

Definition update_status (k : ServiceKey) (st : ServiceStatus) : M bool :=
  with_write_transaction (on_rows (update_row k (set_status st))).

Definition status_if_unchanged (observed : ServiceEntry) (st : ServiceStatus) (m : EntryMap) : EntryMap * (bool * bool) :=
  if bool_decide (m !! key observed = Some observed) then (<[key observed := set_status st observed]> m, (true, true))
  else (m, (false, false)).

Definition update_status_if_unchanged (observed : ServiceEntry) (st : ServiceStatus) : M bool :=
  with_write_transaction (on_rows (status_if_unchanged observed st)).

Definition update_snapshot (k : ServiceKey) (sn : ServiceSnapshot) : M bool :=
  with_write_transaction (on_rows (update_row k (fun e => apply_snapshot (clock env) e sn))).

Definition registry_set_pid (k : ServiceKey) (p : Z) : M bool :=
  with_write_transaction (on_rows (update_row k (fun e => touch (clock env) (set_pid (Some p) e)))).

(** *** Leases *)

Definition matches_instance (dcc_type : str) (instance_id : option str) (e : ServiceEntry) : bool :=
  eq_ignore_ascii_case (ServiceEntry.dcc_type e) dcc_type &&
  match instance_id with
  | None => true
  | Some id => let full := hyphenated (ServiceEntry.instance_id e) in bool_decide (full = id) || starts_with id full
  end.

(** One row of the loop over the map: the row, what is selected, whether anything changed. *)
Definition lease_step (dcc_type : str) (instance_id : option str) (owner : str) (job : option str) (expires : option Z)
    (acc : EntryMap * (option ServiceEntry * bool)) (ke : ServiceKey * ServiceEntry) : EntryMap * (option ServiceEntry * bool) :=
  let '(m, (selected, changed)) := acc in
  let '(k, e) := ke in
  let '(e, changed) := if lease_expired (clock env) e then (clear_lease (clock env) e, true) else (e, changed) in
  let m := <[k := e]> m in
  match selected with
  | Some _ => (m, (selected, changed))
  | None =>
      if negb (matches_instance dcc_type instance_id e) then (m, (None, changed))
      else if bool_decide (status e = Available) && negb (bool_decide (is_Some (lease_owner e))) then
        let e := ServiceEntry.acquire_lease (clock env) owner job expires e in
        (<[k := e]> m, (Some e, true))
      else (m, (None, changed))
  end.

Definition lease_rows (dcc_type : str) (instance_id : option str) (owner : str) (job : option str) (expires : option Z)
    (m : EntryMap) : EntryMap * (option ServiceEntry * bool) :=
  foldl (lease_step dcc_type instance_id owner job expires) (m, (None, false)) (entry_order m).

(** [now + ttl] panics past the last time. *)
Definition acquire_lease (dcc_type : str) (instance_id : option str) (owner : str) (job : option str) (ttl : option Z) : M (option ServiceEntry) :=
  with_write_transaction (
    if TIME_END <=? clock env + default 0 ttl then (fun s => (s, Unwinds))
    else on_rows (lease_rows dcc_type instance_id owner job ((fun d => clock env + d) <$> ttl))).

Definition release_row (k : ServiceKey) (owner : option str) (m : EntryMap) : EntryMap * (option ServiceEntry * bool) :=
  match m !! k with
  | Some e =>
      let owner_matches := match owner with Some expected => bool_decide (lease_owner e = Some expected) | None => false end in
      if owner_matches && bool_decide (is_Some (lease_owner e)) then
        let e := clear_lease (clock env) e in (<[k := e]> m, (Some e, true))
      else (m, (None, false))
  | None => (m, (None, false))
  end.

Definition release_lease (k : ServiceKey) (owner : option str) : M (option ServiceEntry) :=
  with_write_transaction (on_rows (release_row k owner)).

(** *** Eviction *)

Definition stale_row (timeout : Z) (e : ServiceEntry) : bool :=
  negb (bool_decide (dcc_type e = GATEWAY_SENTINEL_DCC_TYPE)) && is_stale (clock env) timeout e.

Definition drop_stale (timeout : Z) (m : EntryMap) : EntryMap * (nat * bool) :=
  let stale_keys := key <$> base.filter (fun e => stale_row timeout e = true) (snd <$> entry_order m) in
  (foldl (fun m k => base.delete k m) m stale_keys, (length stale_keys, (0 <? length stale_keys)%nat)).

Definition cleanup_stale (timeout : Z) : M nat := with_write_transaction (on_rows (drop_stale timeout)).

Definition owner_dead (s : State) (e : ServiceEntry) : bool :=
  match sentinel_path e with
  | Some p => sentinel_is_dead s (key e) p
  | None => match pid e with Some p => negb (alive env p) | None => false end
  end.

Definition bound_host_pid (e : ServiceEntry) : option Z :=
  match host_pid e with Some p => Some p | None => legacy_sidecar_host_pid e end.

Definition host_dead (e : ServiceEntry) : bool :=
  match bound_host_pid e with Some p => negb (alive env p) | None => false end.

Definition row_dead (s : State) (e : ServiceEntry) : bool := owner_dead s e || host_dead e.

Definition prune_row (k : ServiceKey) : M unit :=
  let! s := get in
  let removed := services (fst s) !! k in
  let! _ := on_registry (fun r => set_services (base.delete k (services r)) r) in
  let! _ := drop_handle k in
  on_directory (match removed ≫= sentinel_path with Some p => unlink p | None => id end).

Definition prune_op : M (nat * bool) :=
  let! s := get in
  let dead_keys := key <$> base.filter (fun e => row_dead s e = true) (list_all_in_memory (fst s)) in
  let! _ := for_keys prune_row dead_keys in
  ret (length dead_keys, (0 <? length dead_keys)%nat).

Definition prune_dead_entries : M nat := with_write_transaction prune_op.

(** *** Reading *)

Definition list_all : M (list ServiceEntry) :=
  let! _ := attempt reload_if_stale in
  let! s := get in
  ret (list_all_in_memory (fst s)).

Definition list_instances (dcc : str) : M (list ServiceEntry) :=
  let! _ := attempt reload_if_stale in
  let! s := get in
  ret (base.filter (fun e => dcc_type e = dcc) (snd <$> entry_order (services (fst s)))).

Definition get_row (k : ServiceKey) (r : FileRegistry) : option ServiceEntry := services r !! k.
Definition len (r : FileRegistry) : nat := size (services r).
Definition is_empty (r : FileRegistry) : bool := bool_decide (services r = ∅).
Definition owns_sentinel (k : ServiceKey) (r : FileRegistry) : bool := bool_decide (is_Some (sentinel_handles r !! k)).

Definition read_alive : M (list ServiceEntry * nat) :=
  let! evicted := prune_dead_entries in
  let! es := list_all in
  ret (es, evicted).

Definition reload_from_disk_async : M (list ServiceEntry) := let! _ := refresh_from_disk in list_all.

(** [FileRegistry::new]: an empty handle that loads the file. *)
Definition open_registry : M unit :=
  if dir_fault env then raise (RegistryFile CreateDirFailed)
  else
    let! _ := on_registry (fun _ => mkFileRegistry ∅ ∅ None) in
    let! _ := load_from_file 0 in
    update_mtime.

(** *** Read-only clients *)

(** [read_snapshot]: nothing is repaired; a file that cannot be read is an error. *)
Definition read_snapshot (d : Directory) : outcome (list ServiceEntry) :=
  if read_fails env 0 0 then Ret (Err Io)
  else match registry_file d with
       | None => Ret (Ok [])
       | Some (content, _) =>
           if bool_decide (trim content = []) then Ret (Ok [])
           else match parse_registry_entries surroundings content with
                | Ok es => Ret (Ok es)
                | Err JsonError => Ret (Err Serialization)
                | Err (UnsupportedSchema received supported) => Ret (Err (UnsupportedServiceEntrySchemaVersion received supported))
                | Err ParsePanics => Unwinds
                end
       end.

Definition sentinel_is_dead_read_only (d : Directory) (p : str) : result TransportError bool :=
  match paths d !! p with
  | None => Ok true
  | Some i => if probe_fault env p then Err (RegistryFile ProbeFailed) else Ok (bool_decide (i ∉ locked d))
  end.

Definition entry_is_alive_read_only (d : Directory) (e : ServiceEntry) : result TransportError bool :=
  let? owner_alive :=
    match sentinel_path e with
    | Some p => let? dead := sentinel_is_dead_read_only d p in Ok (negb dead)
    | None => Ok (match pid e with Some p => alive env p | None => true end)
    end in
  Ok (owner_alive && match bound_host_pid e with Some p => alive env p | None => true end).

Fixpoint alive_rows (d : Directory) (es : list ServiceEntry) : result TransportError (list ServiceEntry * nat) :=
  match es with
  | [] => Ok ([], 0%nat)
  | e :: es =>
      if bool_decide (dcc_type e = GATEWAY_SENTINEL_DCC_TYPE) then alive_rows d es
      else
        let? a := entry_is_alive_read_only d e in
        let? (live, dead) := alive_rows d es in
        Ok (if a then (e :: live, dead) else (live, S dead))
  end.

(** The lock file may be missing: then nothing is locked. *)
Definition read_alive_read_only (lock_file : bool) (d : Directory) : outcome (list ServiceEntry * nat) :=
  match (if lock_file then (if lock_open_fault env then Ret (Err (RegistryFile OpenLockFailed))
                            else snd (acquire (lock_tries env) (mkFileRegistry ∅ ∅ None, d)))
         else Ret (Ok tt)) with
  | Ret (Ok _) =>
      match read_snapshot d with
      | Ret (Ok es) => Ret (alive_rows d es)
      | Ret (Err e) => Ret (Err e)
      | Unwinds => Unwinds
      | Waits => Waits
      end
  | Ret (Err e) => Ret (Err e)
  | Unwinds => Unwinds
  | Waits => Waits
  end.

End Call.
End Registry.
