(* ===== verification/FileRegistryProps.v ===== *)
(** Theorems on the service registry: what a transaction leaves on disk and in the cache,
    for one call and for the calls of many processes. *)

From S2P Require Import Prelude Text Json GatewayNaming Capability TransportAddress ServiceEntry EntryFormat EntryProps FileRegistry.

Local Open Scope Z_scope.

(** ** The monad *)

Lemma bind_ret {A B} (a : A) (k : A -> M B) s : bind (ret a) k s = k a s.
Proof. done. Qed.

Lemma bind_inv {A B} (m : M A) (k : A -> M B) s s' b : bind m k s = (s', Ret (Ok b)) ->
  exists s1 a, m s = (s1, Ret (Ok a)) /\ k a s1 = (s', Ret (Ok b)).
Proof. unfold bind. destruct (m s) as [s1 [[a|e]| |]]; try done. eauto. Qed.
Lemma bind_eq {A B} (m : M A) (k : A -> M B) s s' a : m s = (s', Ret (Ok a)) -> bind m k s = k a s'.
Proof. intros H. unfold bind. by rewrite H. Qed.

Lemma attempt_eq {A} (m : M A) s s' r : m s = (s', Ret r) -> attempt m s = (s', Ret (Ok r)).
Proof. intros H. unfold attempt. by rewrite H. Qed.

(** ** Maps of rows *)

Lemma entries_to_map_snoc es e : entries_to_map (es ++ [e]) = <[key e := e]> (entries_to_map es).
Proof. unfold entries_to_map. by rewrite foldl_app. Qed.

Lemma entries_to_map_lookup es k e :
  NoDup (key <$> es) -> entries_to_map es !! k = Some e <-> e ∈ es /\ key e = k.
Proof.
  induction es as [|x es IH] using rev_ind; intros Hnd; [cbn; rewrite lookup_empty; set_solver|].
  rewrite entries_to_map_snoc. rewrite fmap_app in Hnd. apply NoDup_app in Hnd as (Hnd & Hx & _).
  assert (Hk : forall e, e ∈ es -> key e <> key x).
  { intros y Hy E. apply (Hx (key y)); [by apply list_elem_of_fmap_2|rewrite E; set_solver]. }
  destruct (decide (k = key x)) as [->|Hne].
  - rewrite lookup_insert_eq. rewrite elem_of_app, list_elem_of_singleton. split; [intros [= <-]; auto|].
    intros [[Hin| ->] E]; [by apply Hk in Hin|done].
  - rewrite lookup_insert_ne by done. rewrite IH by done. rewrite elem_of_app, list_elem_of_singleton. naive_solver.
Qed.

(** Rows are stored under their own keys. *)
Definition keyed (m : EntryMap) : Prop := map_Forall (fun k e => key e = k) m.

Lemma listed_keys {eo : EntryOrder} (m : EntryMap) : keyed m -> key <$> (snd <$> entry_order m) ≡ₚ (map_to_list m).*1.
Proof.
  intros Hm. rewrite entry_order_perm, <- list_fmap_compose.
  rewrite (list_fmap_ext (key ∘ snd) fst (map_to_list m)); [done|].
  intros i [k e] Hi. cbn. apply (Hm k e). apply elem_of_map_to_list. by eapply list_elem_of_lookup_2.
Qed.

Lemma listed_map {eo : EntryOrder} (m : EntryMap) : keyed m -> entries_to_map (snd <$> entry_order m) = m.
Proof.
  intros Hm. apply map_eq. intros k. apply option_eq. intros e. rewrite entries_to_map_lookup.
  - rewrite list_elem_of_fmap. split.
    + intros [([k' e'] & -> & Hin) <-]. rewrite entry_order_perm in Hin. apply elem_of_map_to_list in Hin.
      cbn. by rewrite (Hm _ _ Hin).
    + intros H. split; [|by apply (Hm k e)]. exists (k, e). split; [done|]. rewrite entry_order_perm. by apply elem_of_map_to_list.
  - rewrite listed_keys by done. apply NoDup_fst_map_to_list.
Qed.

(** ** Files *)

Section Files.
Context {uu : UuidText} {ur : UuidReads} {ac : AddressCodec} {hs : HashOrder str} {hv : HashOrder Value} {v5 : UuidV5} {jf : JsonFile} {eo : EntryOrder}.

(** A row that a file can hold. *)
Record durable (e : ServiceEntry) : Prop := {
  durable_wf : wf_entry e;
  durable_schema : schema_version e <= SERVICE_ENTRY_SCHEMA_VERSION;
  durable_extras : map_Forall (fun _ v => json_plain v) (extras e);
}.

Definition durable_map (m : EntryMap) : Prop := map_Forall (fun k e => key e = k /\ durable e) m.

Lemma durable_keyed m : durable_map m -> keyed m.
Proof. intros H k e Hk. by destruct (H k e Hk). Qed.

Lemma plain_object m : NoDup (fst <$> m) -> Forall (fun kv => json_plain kv.2) m -> json_plain (Object m).
Proof.
  intros Hn Hf. cbn [json_plain]. split; [done|]. clear Hn. induction m as [|[k v] m IH]; [done|].
  apply Forall_cons in Hf as [Hv Hf]. split; [exact Hv|exact (IH Hf)].
Qed.

Lemma plain_array l : Forall json_plain l -> json_plain (Array l).
Proof. intros Hf. cbn [json_plain]. induction Hf as [|v l Hv Hl IH]; [exact I|split; [exact Hv|exact IH]]. Qed.

Lemma plain_num n : in_u64 n -> json_plain (num n).
Proof. done. Qed.

Lemma plain_time t : 0 <= t < TIME_END -> json_plain (time_value t).
Proof.
  intros Ht. unfold time_value, time_to_value. rewrite (proj2 (Z.ltb_ge t 0)) by lia. apply plain_object.
  - apply (bool_decide_unpack _). vm_compute. exact I.
  - assert (Hq : t / NANOS < i64_max + 1) by (apply Z.div_lt_upper_bound; [done|unfold TIME_END in Ht; lia]).
    assert (Hq0 : 0 <= t / NANOS) by (apply Z.div_pos; [lia|done]).
    pose proof (Z.mod_pos_bound t NANOS ltac:(done)) as Hm.
    repeat apply Forall_cons_2; [..|apply Forall_nil_2]; (split; [|done]); cbn; unfold in_u64, u64_max;
      [unfold i64_max in Hq|unfold NANOS in *]; lia.
Qed.

Lemma plain_address a : wf_address a -> json_plain (address_to_value a).
Proof.
  intros Ha. destruct (address_fields a) as (m & -> & Hn & Hf). apply plain_object; [done|].
  eapply Forall_impl; [exact Hf|]. intros [k v] Hv. cbn [snd] in *. destruct v as [| |[n| |]| | |]; try done.
  destruct Hv as [h ->]. cbn [wf_address] in Ha. split; [|done]. cbn. unfold in_u64, u64_max. lia.
Qed.

Lemma plain_row e : durable e -> json_plain (Object (row_fields e)).
Proof.
  intros [Hwf _ Hex]. apply plain_object.
  - assert (G : forall names os, NoDup names -> NoDup (fst <$> (omap (fun '(k, o) => v ← o; Some (k, v)) (zip names os) : JsonMap))).
    { clear. induction names as [|n names IH]; intros os Hn; [constructor|]. destruct os as [|o os]; [constructor|].
      apply NoDup_cons in Hn as [Hn Hnd]. cbn [zip zip_with omap list_omap].
      destruct o as [v|]; cbn [mbind option_bind]; [|by apply IH]. cbn [fmap list_fmap fst]. apply NoDup_cons. split; [|by apply IH].
      intros Hin. apply Hn. apply list_elem_of_fmap in Hin as ([k w] & -> & Hin). apply list_elem_of_omap in Hin as ([k' o] & Hin & Ho).
      destruct o; [|done]. cbn in Ho. injection Ho as -> ->. cbn. by apply elem_of_zip_l in Hin. }
    apply G. apply FIELDS_NoDup.
  - assert (G : forall (names : list str) os, Forall (fun o => match o with Some v => json_plain v | None => True end) os ->
      Forall (fun kv => json_plain kv.2) (omap (fun '(k, o) => v ← o; Some (k, v)) (zip names os) : JsonMap)).
    { clear. induction names as [|n names IH]; intros os Ho; [constructor|]. destruct Ho as [|o os Ho Hos]; [constructor|].
      cbn [zip zip_with omap list_omap]. destruct o as [v|]; cbn [mbind option_bind]; [constructor|]; auto. }
    assert (Hu : forall o : option Z, (forall p, o = Some p -> 0 <= p <= u32_max) -> match if_some num o with Some v => json_plain v | None => True end).
    { intros [p|] Ho; [|done]. apply plain_num. specialize (Ho p eq_refl). unfold in_u64, u32_max, u64_max in *. lia. }
    assert (Ht : forall o : option Z, (forall t, o = Some t -> 0 <= t < TIME_END) -> match if_some time_value o with Some v => json_plain v | None => True end).
    { intros [t|] Ho; [|done]. apply plain_time. auto. }
    assert (Hs : forall o : option str, match if_some Str o with Some v => json_plain v | None => True end) by (by intros []).
    apply G. unfold row_pieces, always, or_null, unless. repeat apply Forall_cons_2;
      first [done|exact (Hs _)|exact (Hu _ (wf_pid e Hwf))|exact (Hu _ (wf_host_pid e Hwf))|exact (Hu _ (wf_parent_pid e Hwf))
        |exact (Ht _ (wf_started e Hwf))|exact (Ht _ (wf_expires e Hwf))|apply plain_time; apply (wf_registered e Hwf)|apply plain_time; apply (wf_heartbeat e Hwf)|idtac].
    + apply plain_num. pose proof (wf_schema e Hwf). unfold in_u64, u64_max. lia.
    + apply plain_num. pose proof (wf_port e Hwf). unfold in_u64, u64_max. lia.
    + destruct (transport_address e) as [a|] eqn:E; [|done]. cbn. apply plain_address. exact (wf_transport e Hwf a E).
    + by destruct (version e).
    + by destruct (scene e).
    + case_bool_decide; [done|]. apply plain_array. apply Forall_fmap. by apply Forall_true.
    + by destruct (role e).
    + unfold strings. apply plain_object.
      * rewrite <- list_fmap_compose. rewrite (list_fmap_ext _ fst (hash_order (metadata e))); [apply hash_order_NoDup|]. by intros ? [].
      * apply Forall_fmap. apply Forall_true. by intros [].
    + case_bool_decide; [done|]. apply plain_object; [apply hash_order_NoDup|]. apply Forall_forall. intros [k v] Hin.
      rewrite hash_order_perm in Hin. apply elem_of_map_to_list in Hin. exact (Hex k v Hin).
    + destruct (_ =? _); [done|]. apply plain_num. pose proof (wf_capacity e Hwf). unfold in_u64, u32_max, u64_max in *. lia.
Qed.

Lemma durable_text es : Forall durable es -> exists vs, mapM row_to_value es = Some vs /\ Forall json_plain vs /\
  forall w, mapM_result (parse_row w) vs = Ok es.
Proof.
  induction 1 as [|e es He Hes (vs & IH1 & IH2 & IH3)]; [by exists []|].
  destruct (row_roundtrip e (durable_wf e He)) as (v & Hv & Hr & Hf).
  exists (v :: vs). split; [|split].
  - cbn. rewrite Hv. cbn. by rewrite IH1.
  - constructor; [|done]. unfold row_to_value in Hv. destruct (serializable e); [|done]. injection Hv as <-. by apply plain_row.
  - intros w. cbn [mapM_result]. unfold parse_row at 1. rewrite Hf, Hr.
    rewrite (proj2 (Z.leb_le _ _) (durable_schema e He)). cbn [rbind]. by rewrite IH3.
Qed.

(** The file holds the text of the rows of a map, or is missing and the map is empty. *)
Definition stores (d : Directory) (m : EntryMap) : Prop :=
  match registry_file d with
  | None => m = ∅
  | Some (content, _) =>
      exists es, file_text es = Some content /\ Forall durable es /\ NoDup (key <$> es) /\ m = entries_to_map es
  end.

Lemma trim_blank s : trim s = [] -> Forall (fun c => is_whitespace c = true) s.
Proof.
  assert (G : forall p s, trim_start_while p s = [] -> Forall (fun c => p c = true) s).
  { clear. intros p s. induction s as [|c s IH]; [constructor|]. cbn [trim_start_while]. destruct (p c) eqn:E; [|done]. auto. }
  assert (H : forall s, Forall (fun c => is_whitespace c = true) (trim_start_while is_whitespace s) -> Forall (fun c => is_whitespace c = true) s).
  { clear. intros s. induction s as [|c s IH]; [done|]. cbn [trim_start_while]. destruct (is_whitespace c) eqn:E; [|done]. auto. }
  unfold trim. intros E. apply (f_equal reverse) in E. rewrite reverse_involutive in E. apply G in E.
  apply H. first [exact (proj1 (Forall_reverse _ _) E)|exact (proj2 (Forall_reverse _ _) E)].
Qed.

Lemma stored_text_parses w es content : file_text es = Some content -> Forall durable es -> parse_registry_entries w content = Ok es /\
  trim content <> [] /\ looks_like_zero_padded_empty_registry content = false.
Proof.
  intros Ht Hd. destruct (durable_text es Hd) as (vs & Hm & Hp & Hr). unfold file_text in Ht. rewrite Hm in Ht.
  cbn in Ht. injection Ht as <-. pose proof (from_str_pretty (Array vs) (plain_array vs Hp)) as Hf. split; [|split].
  - unfold parse_registry_entries. rewrite Hf. apply Hr.
  - intros E. apply trim_blank in E. rewrite from_str_blank in Hf; [done|]. eapply Forall_impl; [exact E|]. auto.
  - destruct (looks_like_zero_padded_empty_registry _) eqn:E; [|done]. unfold looks_like_zero_padded_empty_registry in E.
    apply andb_true_iff in E as [_ E]. rewrite from_str_blank in Hf; [done|]. apply Forall_forall. intros c Hc.
    rewrite forallb_forall in E. specialize (E c ltac:(by apply list_elem_of_In)). apply orb_true_iff in E as [E|E]; [left; lia|right].
    unfold is_ascii_whitespace in E. unfold is_whitespace, in_range. lia.
Qed.

Lemma map_text (m : EntryMap) : durable_map m -> exists content, file_text (snd <$> entry_order m) = Some content /\
  Forall durable (snd <$> entry_order m) /\ NoDup (key <$> (snd <$> entry_order m)).
Proof.
  intros Hm. assert (Hd : Forall durable (snd <$> entry_order m)).
  { apply Forall_forall. intros e He. apply list_elem_of_fmap in He as ([k e'] & -> & Hin). rewrite entry_order_perm in Hin.
    apply elem_of_map_to_list in Hin. by destruct (Hm _ _ Hin). }
  destruct (durable_text _ Hd) as (vs & Hv & _). unfold file_text. rewrite Hv. eexists. split; [done|]. split; [done|].
  rewrite listed_keys by (by apply durable_keyed). apply NoDup_fst_map_to_list.
Qed.

Lemma stores_durable d m : stores d m -> durable_map m.
Proof.
  unfold stores. destruct (registry_file d) as [[c t]|]; [|intros ->; apply map_Forall_empty].
  intros (es & _ & Hd & Hn & ->) k e Hk. apply entries_to_map_lookup in Hk as [Hin <-]; [|done].
  split; [done|]. by apply (proj1 (Forall_forall _ _) Hd).
Qed.

(** ** One transaction *)

Section Transactions.
Context (registry_dir : str) (path_join : str -> str -> str) (timeout : Z).

Definition obtains (tries : list (LockTry * Z)) : Prop :=
  exists waits t rest, tries = ((fun e => (WouldBlock, e)) <$> waits) ++ (Locked, t) :: rest /\ Forall (fun e => e < timeout) waits.

(** No fault of the system in the way of a call, beyond locks and reads that are retried. *)
Record quiet (env : Env) : Prop := {
  quiet_mutex : obtains (mutex_tries env);
  quiet_dir : dir_fault env = false;
  quiet_open : lock_open_fault env = false;
  quiet_lock : obtains (lock_tries env);
  quiet_read w : exists a, (a < READ_ATTEMPTS)%nat /\ read_fails env w a = false;
  quiet_temp : temp_fault env = None;
  quiet_rename : exists a, (a < RENAME_ATTEMPTS)%nat /\ rename_fails env a = false;
  quiet_unlock : unlock_fails env = false;
  quiet_intruder : intruder env = None;
  quiet_late : late_intruder env = None;
}.

Lemma acquire_obtains tries s : obtains tries -> acquire timeout tries s = (s, Ret (Ok tt)).
Proof.
  intros (waits & t & rest & -> & Hw). induction Hw as [|e waits He Hw IH]; [done|].
  cbn [fmap list_fmap app acquire]. rewrite (proj2 (Z.leb_gt timeout e)) by lia. exact IH.
Qed.

Lemma read_retry_ok fails f n i a : (i <= a < i + n)%nat -> fails a = false -> read_with_retry n i fails f = Ok (fst <$> f).
Proof.
  revert i. induction n as [|n IH]; intros i Ha Hf; [lia|]. cbn [read_with_retry]. destruct (fails i) eqn:E; [|done].
  apply IH; [|done]. destruct (decide (i = a)); [congruence|lia].
Qed.

Lemma rename_ok env content n i a r d : (i <= a < i + n)%nat -> rename_fails env a = false ->
  rename_retry env n i content (r, d) = ((r, set_file (Some (content, file_clock env)) d), Ret (Ok tt)).
Proof.
  revert i. induction n as [|n IH]; intros i Ha Hf; [lia|]. cbn [rename_retry]. destruct (rename_fails env i) eqn:E; [|done].
  apply IH; [|done]. destruct (decide (i = a)); [congruence|lia].
Qed.

Lemma read_stores env w r d m : (exists a, (a < READ_ATTEMPTS)%nat /\ read_fails env w a = false) -> stores d m ->
  exists es, read_entries_from_file env w (r, d) = ((r, d), Ret (Ok es)) /\ entries_to_map es = m.
Proof.
  intros (a & Ha & Hf) Hs. unfold read_entries_from_file, bind at 1, get. cbn [snd].
  rewrite (read_retry_ok _ _ _ 0 a) by (done || lia). unfold stores in Hs.
  destruct (registry_file d) as [[c t]|]; cbn [fmap option_fmap option_map fst]; [|subst m; by exists []].
  destruct Hs as (es & Ht & Hd & Hn & ->). destruct (stored_text_parses (surroundings env) es c Ht Hd) as (Hp & Hb & Hz).
  rewrite bool_decide_false by done. rewrite Hz, Hp. by exists es.
Qed.

Lemma force_reload_stores env r d m : (exists a, (a < READ_ATTEMPTS)%nat /\ read_fails env 0 a = false) -> stores d m ->
  force_reload_from_file env (r, d) =
    ((mkFileRegistry m (sentinel_handles r) (snd <$> registry_file d), d), Ret (Ok (snd <$> entry_order m))).
Proof.
  intros Hr Hs. destruct (read_stores env 0 r d m Hr Hs) as (es & He & <-).
  unfold force_reload_from_file, load_from_file. unfold bind. rewrite He. reflexivity.
Qed.

(** What a call leaves alone: the sentinels, the locks and the quarantined files. *)
Definition same_sentinels (d d' : Directory) : Prop := paths d' = paths d /\ locked d' = locked d /\ quarantined d' = quarantined d.

Lemma flush_stores env r d m m' baseline : quiet env -> stores d m -> durable_map m' -> services r = m' -> entries_to_map baseline = m ->
  exists r' d', flush_to_file_after_transaction env baseline (r, d) = ((r', d'), Ret (Ok tt)) /\
    stores d' m' /\ services r' = m' /\ sentinel_handles r' = sentinel_handles r /\ last_mtime r' = snd <$> registry_file d' /\
    same_sentinels d d' /\ is_Some (registry_file d').
Proof.
  intros Hq Hs Hm Hr Hb. destruct (map_text m' Hm) as (content & Ht & Hd & Hn).
  destruct (read_stores env 1 r d m (quiet_read env Hq 1) Hs) as (es & He & Hes).
  destruct (quiet_rename env Hq) as (a & Ha & Hf).
  set (d' := set_file (Some (content, file_clock env)) d).
  assert (Hs' : stores d' m'). { exists (snd <$> entry_order m'). split_and!; try done. by rewrite listed_map by (by apply durable_keyed). }
  destruct (read_stores env 3 (mkFileRegistry m' (sentinel_handles r) (Some (file_clock env))) d' m' (quiet_read env Hq 3) Hs') as (es' & He' & _).
  exists (mkFileRegistry m' (sentinel_handles r) (Some (file_clock env))), d'. split; [|by split_and!].
  unfold flush_to_file_after_transaction. unfold bind at 1. unfold get at 1. cbn [fst].
  unfold intrude at 1. rewrite (quiet_intruder env Hq). unfold bind at 1. unfold on_directory at 1.
  unfold list_all_in_memory. rewrite Hr. unfold reconcile_unlocked_writer_changes. unfold bind at 1 2. rewrite He. cbv zeta.
  unfold maps_equal. rewrite Hb, Hes, bool_decide_true by done. unfold ret at 1. rewrite Ht.
  unfold write_atomic. rewrite (quiet_dir env Hq), (quiet_temp env Hq). unfold bind at 1.
  rewrite (rename_ok env content _ 0 a) by (done || lia). fold d'.
  unfold replace_services at 1. rewrite (listed_map m') by (by apply durable_keyed). unfold bind at 1. unfold on_registry at 1.
  unfold intrude at 1. rewrite (quiet_late env Hq). unfold bind at 1. unfold on_directory at 1. unfold bind at 1. unfold update_mtime at 1.
  unfold warn_if_post_write_clobbered. unfold bind, attempt. unfold set_mtime, set_services. cbn [services sentinel_handles].
  change (snd <$> registry_file d') with (Some (file_clock env)). by rewrite He'.
Qed.

(** A transaction runs its operation on the rows of the file, whatever was cached, and
    leaves the operation's rows on disk and in the cache. *)
Lemma transaction_ok {A} env (op : M (A * bool)) r d m r2 d2 v (changed : bool) :
  quiet env -> stores d m ->
  op (mkFileRegistry m (sentinel_handles r) (snd <$> registry_file d), d) = ((r2, d2), Ret (Ok (v, changed))) ->
  registry_file d2 = registry_file d -> durable_map (services r2) -> (changed = false -> services r2 = m) ->
  exists r3 d3, with_write_transaction registry_dir path_join timeout env op (r, d) = ((r3, d3), Ret (Ok v)) /\
    stores d3 (services r2) /\ services r3 = services r2 /\ sentinel_handles r3 = sentinel_handles r2 /\ same_sentinels d2 d3.
Proof.
  intros Hq Hs Hop Hfile Hm Hch.
  pose proof (stores_durable d m Hs) as Hdm.
  assert (Hs2 : stores d2 m) by (unfold stores in *; by rewrite Hfile).
  assert (G : exists r3 d3, transaction_body registry_dir path_join env op (r, d) = ((r3, d3), Ret (Ok v)) /\
    stores d3 (services r2) /\ services r3 = services r2 /\ sentinel_handles r3 = sentinel_handles r2 /\ same_sentinels d2 d3).
  { unfold transaction_body. setoid_rewrite (bind_eq _ _ _ _ _ (force_reload_stores env r d m (quiet_read env Hq 0) Hs)).
    unfold bind at 1. unfold get at 1. cbv zeta. unfold bind at 1. unfold attempt at 1. rewrite Hop. destruct changed.
    - destruct (flush_stores env r2 d2 m (services r2) (snd <$> entry_order m) Hq Hs2 Hm eq_refl) as (r3 & d3 & He & H3 & H4 & H5 & _ & H6 & _).
      { by rewrite listed_map by (by apply durable_keyed). }
      exists r3, d3. split; [|done]. unfold bind at 1. unfold attempt at 1. rewrite He. done.
    - exists r2, d2. rewrite (Hch eq_refl). by split_and!. }
  destruct G as (r3 & d3 & He & Hrest). exists r3, d3. split; [|done].
  unfold with_write_transaction. unfold bind at 1. rewrite (acquire_obtains _ _ (quiet_mutex env Hq)).
  rewrite (quiet_dir env Hq), (quiet_open env Hq). unfold bind at 1. rewrite (acquire_obtains _ _ (quiet_lock env Hq)).
  unfold bind. rewrite He. by rewrite (quiet_unlock env Hq).
Qed.

(** A transaction that answers ran its operation to an answer, on the rows of the file. *)
Lemma transaction_answers {A} env (op : M (A * bool)) r d m s' v :
  quiet env -> stores d m -> with_write_transaction registry_dir path_join timeout env op (r, d) = (s', Ret (Ok v)) ->
  exists s2 changed, op (mkFileRegistry m (sentinel_handles r) (snd <$> registry_file d), d) = (s2, Ret (Ok (v, changed))).
Proof.
  intros Hq Hs H. unfold with_write_transaction in H. unfold bind at 1 in H. rewrite (acquire_obtains _ _ (quiet_mutex env Hq)) in H.
  rewrite (quiet_dir env Hq), (quiet_open env Hq) in H. unfold bind at 1 in H. rewrite (acquire_obtains _ _ (quiet_lock env Hq)) in H.
  apply bind_inv in H as (s1 & v1 & H & H1). rewrite (quiet_unlock env Hq) in H1. injection H1 as -> ->.
  unfold transaction_body in H. rewrite (bind_eq _ _ _ _ _ (force_reload_stores env r d m (quiet_read env Hq 0) Hs)) in H.
  unfold bind at 1 in H. unfold get at 1 in H. cbv zeta in H. unfold bind at 1 in H. unfold attempt at 1 in H.
  destruct (op _) as [s2 [[[v2 changed]|e]| |]]; try done.
  - exists s2, changed. destruct changed.
    + apply bind_inv in H as (s3 & [u|e] & _ & H); [by injection H as _ ->|]. by apply bind_inv in H as (s4 & u & _ & H).
    + by injection H as _ ->.
  - by apply bind_inv in H as (s4 & u & _ & H).
Qed.

End Transactions.
End Files.
