(* ===== verification/RegistryCalls.v ===== *)
(** The calls of many processes on one service registry: each acts on the rows of the
    file whatever its process had cached, so a history of calls is the sequential history
    of their row functions; and which of them end a lease. *)

From S2P Require Import Prelude Text Json GatewayNaming Capability TransportAddress ServiceEntry EntryFormat EntryProps FileRegistry FileRegistryProps.

Local Open Scope Z_scope.

(** ** Calls that touch rows only *)

Inductive row_call : Type :=
| CHeartbeat (k : ServiceKey)
| CUpdateStatus (k : ServiceKey) (st : ServiceStatus)
| CStatusIf (observed : ServiceEntry) (st : ServiceStatus)
| CSnapshot (k : ServiceKey) (sn : ServiceSnapshot)
| CSetPid (k : ServiceKey) (p : Z)
| CAcquire (dcc_type : str) (instance_id : option str) (owner : str) (job : option str) (ttl : option Z)
| CRelease (k : ServiceKey) (owner : option str)
| CCleanup (timeout : Z).

Inductive call_value : Type :=
| VBool (b : bool)
| VRow (o : option ServiceEntry)
| VCount (n : nat).

Section Calls.
Context {uu : UuidText} {ur : UuidReads} {ac : AddressCodec} {hs : HashOrder str} {hv : HashOrder Value} {v5 : UuidV5} {jf : JsonFile} {eo : EntryOrder}.
Context (registry_dir : str) (path_join : str -> str -> str) (timeout : Z).

Definition exec_row (env : Env) (c : row_call) : M call_value :=
  match c with
  | CHeartbeat k => let! b := heartbeat registry_dir path_join timeout env k in ret (VBool b)
  | CUpdateStatus k st => let! b := update_status registry_dir path_join timeout env k st in ret (VBool b)
  | CStatusIf e st => let! b := update_status_if_unchanged registry_dir path_join timeout env e st in ret (VBool b)
  | CSnapshot k sn => let! b := update_snapshot registry_dir path_join timeout env k sn in ret (VBool b)
  | CSetPid k p => let! b := registry_set_pid registry_dir path_join timeout env k p in ret (VBool b)
  | CAcquire dcc id owner job ttl => let! o := acquire_lease registry_dir path_join timeout env dcc id owner job ttl in ret (VRow o)
  | CRelease k owner => let! o := release_lease registry_dir path_join timeout env k owner in ret (VRow o)
  | CCleanup t => let! n := cleanup_stale registry_dir path_join timeout env t in ret (VCount n)
  end.

(** What a call does to the rows, and its value. *)
Definition call_rows (env : Env) (c : row_call) (m : EntryMap) : EntryMap * call_value :=
  match c with
  | CHeartbeat k => let '(m, (b, _)) := update_row k (touch (clock env)) m in (m, VBool b)
  | CUpdateStatus k st => let '(m, (b, _)) := update_row k (set_status st) m in (m, VBool b)
  | CStatusIf e st => let '(m, (b, _)) := status_if_unchanged e st m in (m, VBool b)
  | CSnapshot k sn => let '(m, (b, _)) := update_row k (fun e => apply_snapshot (clock env) e sn) m in (m, VBool b)
  | CSetPid k p => let '(m, (b, _)) := update_row k (fun e => touch (clock env) (set_pid (Some p) e)) m in (m, VBool b)
  | CAcquire dcc id owner job ttl =>
      let '(m, (o, _)) := lease_rows env dcc id owner job ((fun d => clock env + d) <$> ttl) m in (m, VRow o)
  | CRelease k owner => let '(m, (o, _)) := release_row env k owner m in (m, VRow o)
  | CCleanup t => let '(m, (n, _)) := drop_stale env t m in (m, VCount n)
  end.

(** The values of the Rust types a call is made with, at a time a file can hold. *)
Definition call_ok (env : Env) (c : row_call) : Prop :=
  0 <= clock env < TIME_END /\
  match c with
  | CSetPid _ p => 0 <= p <= u32_max
  | CSnapshot _ sn => match sn_extras sn with Some x => map_Forall (fun _ v => json_plain v) x | None => True end
  | CAcquire _ _ _ _ (Some d) => 0 <= d /\ clock env + d < TIME_END
  | _ => True
  end.

(** ** Rows stay durable *)

Lemma durable_update e e' : durable e ->
  schema_version e' = schema_version e -> instance_id e' = instance_id e -> port e' = port e -> transport_address e' = transport_address e ->
  (pid e' = pid e \/ exists p, pid e' = Some p /\ 0 <= p <= u32_max) -> host_pid e' = host_pid e -> parent_pid e' = parent_pid e ->
  role e' = role e -> capacity e' = capacity e -> registered_at e' = registered_at e ->
  (last_heartbeat e' = last_heartbeat e \/ 0 <= last_heartbeat e' < TIME_END) -> started_at e' = started_at e ->
  (lease_expires_at e' = lease_expires_at e \/ lease_expires_at e' = None \/ exists t, lease_expires_at e' = Some t /\ 0 <= t < TIME_END) ->
  map_Forall (fun _ v => json_plain v) (extras e') -> durable e'.
Proof.
  intros [[] Hs _] E1 E2 E3 E4 E5 E6 E7 E8 E9 E10 E11 E12 E13 E14. constructor; [constructor|..]; rewrite ?E1, ?E2, ?E3, ?E4, ?E6, ?E7, ?E8, ?E9, ?E10, ?E12; auto.
  - intros p Hp. destruct E5 as [E5|(q & E5 & Hq)]; rewrite E5 in Hp; [auto|]. by injection Hp as <-.
  - destruct E11 as [->|]; auto.
  - intros t Ht. destruct E13 as [E13|[E13|(q & E13 & Hq)]]; rewrite E13 in Ht; [auto|done|]. by injection Ht as <-.
Qed.

Ltac updated := match goal with He : durable ?e |- durable _ => pose proof (durable_extras e He); destruct e; apply (durable_update _ _ He); cbn in *; eauto 6 end.

Lemma durable_touch t e : 0 <= t < TIME_END -> durable e -> durable (touch t e).
Proof. intros Ht He. updated. Qed.
Lemma durable_status st e : durable e -> durable (set_status st e).
Proof. intros He. updated. Qed.
Lemma durable_pid p e : 0 <= p <= u32_max -> durable e -> durable (set_pid (Some p) e).
Proof. intros Hp He. updated. Qed.
Lemma durable_lease o j x e : match x with Some t => 0 <= t < TIME_END | None => True end -> durable e -> durable (set_lease o j x e).
Proof. intros Hx He. destruct x; updated. Qed.
Lemma durable_sentinel p e : durable e -> durable (set_sentinel p e).
Proof. intros He. updated. Qed.

Lemma durable_clear t e : 0 <= t < TIME_END -> durable e -> durable (clear_lease t e).
Proof. intros Ht He. apply durable_touch; [done|]. apply durable_status. by apply durable_lease. Qed.

Lemma plain_patched (old patch : gmap str Value) :
  map_Forall (fun _ v => json_plain v) old -> map_Forall (fun _ v => json_plain v) patch ->
  map_Forall (fun _ v => json_plain v) (patched is_null old patch).
Proof.
  intros Ho Hp k v. unfold patched. rewrite lookup_merge. destruct (patch !! k) as [w|] eqn:E.
  - assert (Hw : (if is_null w then None else Some w) = Some v -> json_plain v) by (destruct (is_null w); [done|]; intros [= <-]; exact (Hp k w E)).
    by destruct (old !! k).
  - destruct (old !! k) as [w|] eqn:E2; [|done]. intros [= <-]. exact (Ho k w E2).
Qed.

Lemma durable_snapshot t e sn : 0 <= t < TIME_END -> match sn_extras sn with Some x => map_Forall (fun _ v => json_plain v) x | None => True end ->
  durable e -> durable (apply_snapshot t e sn).
Proof.
  intros Ht Hx He. assert (Hs : apply_snapshot t e sn = patch_spec t e sn) by (apply (apply_snapshot_spec t e sn)). rewrite Hs.
  pose proof (durable_extras e He) as Hex.
  assert (Hp : map_Forall (fun _ v => json_plain v) (match sn_extras sn with Some m => patched is_null (extras e) m | None => extras e end)).
  { destruct (sn_extras sn) as [x|]; [|done]. by apply plain_patched. }
  unfold patch_spec. apply (durable_update e); destruct e; cbn in *; auto.
Qed.

(** ** Row functions *)

Definition keeps (f : EntryMap -> EntryMap) : Prop := forall m, durable_map m -> durable_map (f m).

Lemma durable_insert m k e : durable_map m -> key e = k -> durable e -> durable_map (<[k := e]> m).
Proof. intros Hm Hk He. by apply map_Forall_insert_2. Qed.

Lemma update_row_keeps k f m : durable_map m -> (forall e, key (f e) = key e) -> (forall e, durable e -> durable (f e)) ->
  durable_map (update_row k f m).1 /\ ((update_row k f m).2.2 = false -> (update_row k f m).1 = m).
Proof.
  intros Hm Hk Hf. unfold update_row. destruct (m !! k) as [e|] eqn:E; [|done]. split; [|done]. cbn [fst].
  destruct (Hm _ _ E) as [Hke He]. apply durable_insert; [done|by rewrite Hk|auto].
Qed.

(** A pass over rows that rewrites each under its own key. *)
Lemma lease_step_spec env dcc id owner job expires m sel (ch : bool) k e :
  m !! k = Some e -> exists e' sel' ch', lease_step env dcc id owner job expires (m, (sel, ch)) (k, e) = (<[k := e']> m, (sel', ch')) /\
    ((e' = e /\ sel' = sel /\ ch' = ch /\ lease_expired (clock env) e = false) \/
     (ch' = true /\
      let e0 := if lease_expired (clock env) e then clear_lease (clock env) e else e in
      ((e' = e0 /\ sel' = sel /\ lease_expired (clock env) e = true) \/
       (sel = None /\ sel' = Some e' /\ matches_instance dcc id e0 = true /\ status e0 = Available /\ lease_owner e0 = None /\
        e' = ServiceEntry.acquire_lease (clock env) owner job expires e0)))).
Proof.
  intros Hk. unfold lease_step. destruct (lease_expired (clock env) e) eqn:El; cbv zeta.
  - destruct sel as [s|]; [do 3 eexists; split; [reflexivity|]; right; split; [done|]; by left|].
    destruct (matches_instance _ _ _) eqn:Em; cbn [negb]; [|do 3 eexists; split; [reflexivity|]; right; split; [done|]; by left].
    destruct (bool_decide (status _ = _) && _) eqn:Es.
    + apply andb_true_iff in Es as [Es Eo]. apply bool_decide_eq_true in Es. apply negb_true_iff, bool_decide_eq_false in Eo.
      rewrite insert_insert_eq. do 3 eexists. split; [reflexivity|]. right. split; [done|]. right. split_and!; try done.
      by destruct (lease_owner _); [contradict Eo; eauto|].
    + do 3 eexists; split; [reflexivity|]; right; split; [done|]; by left.
  - destruct sel as [s|]; [do 3 eexists; split; [reflexivity|]; by left|].
    destruct (matches_instance _ _ _) eqn:Em; cbn [negb]; [|do 3 eexists; split; [reflexivity|]; by left].
    destruct (bool_decide (status _ = _) && _) eqn:Es.
    + apply andb_true_iff in Es as [Es Eo]. apply bool_decide_eq_true in Es. apply negb_true_iff, bool_decide_eq_false in Eo.
      rewrite insert_insert_eq. do 3 eexists. split; [reflexivity|]. right. split; [done|]. right. split_and!; try done.
      by destruct (lease_owner _); [contradict Eo; eauto|].
    + do 3 eexists; split; [reflexivity|]; by left.
Qed.

(** The pass over the whole map, by its rows: each row becomes what [lease_step] makes of
    it, and at most one is selected. *)
Definition lease_row (env : Env) (owner : str) (job : option str) (expires : option Z) (dcc : str) (id : option str)
    (selected : bool) (e e' : ServiceEntry) : Prop :=
  let e0 := if lease_expired (clock env) e then clear_lease (clock env) e else e in
  if selected then
    matches_instance dcc id e0 = true /\ status e0 = Available /\ lease_owner e0 = None /\
    e' = ServiceEntry.acquire_lease (clock env) owner job expires e0
  else e' = e0.

Definition chosen (sel sel' : option ServiceEntry) (k : ServiceKey) : bool :=
  match sel with Some _ => false | None => bool_decide (key <$> sel' = Some k) end.

Lemma lease_rows_fold env dcc id owner job expires (l : list (ServiceKey * ServiceEntry)) m sel (ch : bool) :
  NoDup l.*1 -> (forall k e, (k, e) ∈ l -> m !! k = Some e /\ key e = k) ->
  exists m' sel' ch', foldl (lease_step env dcc id owner job expires) (m, (sel, ch)) l = (m', (sel', ch')) /\
    (forall k, k ∉ l.*1 -> m' !! k = m !! k) /\
    (forall s, sel = Some s -> sel' = Some s) /\
    (ch' = false -> ch = false /\ m' = m /\ sel' = sel) /\
    (forall k e, (k, e) ∈ l -> exists e', m' !! k = Some e' /\ key e' = k /\ lease_row env owner job expires dcc id (chosen sel sel' k) e e') /\
    (sel = None -> match sel' with Some e' => m' !! key e' = Some e' /\ key e' ∈ l.*1 | None => True end).
Proof.
  revert m sel ch. induction l as [|[k e] l IH]; intros m sel ch Hnd Hl.
  { exists m, sel, ch. split; [done|]. split_and!; try done; [set_solver|]. by intros ->. }
  cbn [fmap list_fmap fst] in Hnd. apply NoDup_cons in Hnd as [Hnk Hnd].
  destruct (Hl k e ltac:(by left)) as [Hk Hke].
  destruct (lease_step_spec env dcc id owner job expires m sel ch k e Hk) as (e1 & sel1 & ch1 & Hs & Hcase).
  cbn [foldl]. rewrite Hs.
  assert (Hke1 : key e1 = k).
  { destruct Hcase as [(-> & _)|[_ [(-> & _)|(_ & _ & _ & _ & _ & ->)]]]; rewrite <- Hke; [done|..]; destruct (lease_expired _ e); by destruct e. }
  destruct (IH (<[k := e1]> m) sel1 ch1 Hnd) as (m' & sel' & ch' & He & Hout & Hsel & Hch & Hin & Hex).
  { intros k' e' Hin. destruct (Hl k' e' ltac:(by right)) as [H1 H2]. split; [|done].
    rewrite lookup_insert_ne; [done|]. intros <-. apply Hnk. by apply (list_elem_of_fmap_2 fst) in Hin. }
  assert (Hlater : sel1 = None -> forall s, sel' = Some s -> key s <> k).
  { intros H1 s ->. destruct (Hex H1) as [_ Hin']. by intros E; rewrite E in Hin'. }
  exists m', sel', ch'. split; [exact He|].
  assert (Hm'k : m' !! k = Some e1) by (rewrite Hout by done; by rewrite lookup_insert_eq).
  split; [|split; [|split; [|split]]].
  - intros k' Hk'. cbn [fmap list_fmap fst] in Hk'. apply not_elem_of_cons in Hk' as [Hne Hk']. rewrite Hout by done. by rewrite lookup_insert_ne.
  - intros s ->. apply Hsel. destruct Hcase as [(_ & -> & _)|[_ [(_ & -> & _)|(? & _)]]]; done.
  - intros Hf. destruct (Hch Hf) as (Hch1 & -> & ->). destruct Hcase as [(-> & -> & -> & _)|[H _]]; [|congruence].
    split_and!; [done| |done]. by rewrite insert_id.
  - intros k' e' Hin'. apply elem_of_cons in Hin' as [[= -> ->]|Hin'].
    + exists e1. split; [done|]. split; [done|]. unfold lease_row.
      assert (Hno : sel1 = sel -> chosen sel sel' k = false).
      { intros <-. unfold chosen. destruct sel1 as [s|]; [done|]. apply bool_decide_eq_false. intros E.
        apply fmap_Some in E as (s & Es & E). by apply (Hlater eq_refl s Es). }
      destruct Hcase as [(-> & Esel & _ & Hx)|[_ [(-> & Esel & Hx)|(-> & -> & H1 & H2 & H3 & H4)]]]; [by rewrite Hno, Hx|by rewrite Hno, Hx|].
      unfold chosen. rewrite (Hsel _ eq_refl). cbn [fmap option_fmap option_map]. rewrite Hke1. by rewrite bool_decide_true.
    + destruct (Hin k' e' Hin') as (e2 & H1 & H2 & H3). exists e2. split; [done|]. split; [done|].
      assert (Hne : k' <> k) by (intros ->; apply Hnk; by apply (list_elem_of_fmap_2 fst) in Hin').
      destruct Hcase as [(_ & -> & _)|[_ [(_ & -> & _)|(-> & -> & _)]]]; [done..|]. unfold chosen in *.
      rewrite (Hsel _ eq_refl). cbn [fmap option_fmap option_map]. rewrite Hke1. rewrite bool_decide_false by congruence. exact H3.
  - intros ->. destruct Hcase as [(_ & -> & _)|[_ [(_ & -> & _)|(_ & -> & _)]]];
      [specialize (Hex eq_refl); destruct sel' as [s|]; [|done]; destruct Hex; split; [done|by right]..|].
    rewrite (Hsel _ eq_refl), Hke1. split; [done|by left].
Qed.

(** The whole map: its keys stay, and the selected row, if any, is one of them. *)
Lemma lease_rows_spec env dcc id owner job expires m : keyed m ->
  exists m' sel ch, lease_rows env dcc id owner job expires m = (m', (sel, ch)) /\
    (ch = false -> m' = m) /\
    (forall k, m !! k = None -> m' !! k = None) /\
    (forall k e, m !! k = Some e -> exists e', m' !! k = Some e' /\ key e' = k /\
       lease_row env owner job expires dcc id (bool_decide (key <$> sel = Some k)) e e') /\
    match sel with Some e' => m' !! key e' = Some e' | None => True end.
Proof.
  intros Hm. unfold lease_rows.
  assert (Hk : forall k, k ∈ (entry_order m).*1 <-> is_Some (m !! k)).
  { intros k. rewrite entry_order_perm. rewrite list_elem_of_fmap. split.
    - intros ([k' e] & -> & Hin). apply elem_of_map_to_list in Hin. by exists e.
    - intros [e He]. exists (k, e). split; [done|]. by apply elem_of_map_to_list. }
  destruct (lease_rows_fold env dcc id owner job expires (entry_order m) m None false) as (m' & sel & ch & He & Hout & _ & Hch & Hin & Hex).
  { rewrite entry_order_perm. apply NoDup_fst_map_to_list. }
  { intros k e H. rewrite entry_order_perm in H. apply elem_of_map_to_list in H. split; [done|]. exact (Hm k e H). }
  exists m', sel, ch. split; [exact He|]. split; [by intros H; destruct (Hch H) as (_ & -> & _)|]. split; [|split].
  - intros k Hn. rewrite Hout; [done|]. rewrite Hk, Hn. by intros [].
  - intros k e H. apply (Hin k e). rewrite entry_order_perm. by apply elem_of_map_to_list.
  - specialize (Hex eq_refl). destruct sel as [s|]; [|done]. by destruct Hex.
Qed.

Lemma durable_lease_row env owner job expires dcc id b e e' : 0 <= clock env < TIME_END ->
  match expires with Some t => 0 <= t < TIME_END | None => True end -> durable e ->
  lease_row env owner job expires dcc id b e e' -> durable e'.
Proof.
  intros Ht Hx He. unfold lease_row. set (e0 := if lease_expired (clock env) e then clear_lease (clock env) e else e).
  assert (H0 : durable e0) by (unfold e0; destruct (lease_expired _ e); [by apply durable_clear|done]).
  destruct b; [intros (_ & _ & _ & ->)|by intros ->]. unfold acquire_lease. apply durable_touch; [done|]. apply durable_status. by apply durable_lease.
Qed.

Lemma drop_stale_spec env t m : keyed m ->
  drop_stale env t m = (base.filter (fun ke : ServiceKey * ServiceEntry => stale_row env t ke.2 = false) m,
    (size (base.filter (fun ke : ServiceKey * ServiceEntry => stale_row env t ke.2 = true) m),
     negb (bool_decide (size (base.filter (fun ke : ServiceKey * ServiceEntry => stale_row env t ke.2 = true) m) = 0%nat)))).
Proof.
  intros Hm. unfold drop_stale. cbv zeta.
  set (P := fun e => stale_row env t e = true). set (ks := key <$> base.filter P (snd <$> entry_order m)).
  assert (Hdel : forall (ks : list ServiceKey) (m : EntryMap), foldl (fun (m : EntryMap) k => base.delete k m) m ks = base.filter (fun ke : ServiceKey * ServiceEntry => ke.1 ∉ ks) m).
  { clear. induction ks as [|k ks IH]; intros m; cbn [foldl].
    - symmetry. apply map_filter_id. intros i x _. set_solver.
    - rewrite IH. apply map_eq. intros i. apply option_eq. intros x. rewrite !map_lookup_filter_Some, lookup_delete_Some. cbn.
      rewrite not_elem_of_cons. naive_solver. }
  assert (Hin : forall k e, m !! k = Some e -> k ∈ ks <-> P e).
  { intros k e He. unfold ks. rewrite list_elem_of_fmap. split.
    - intros (e' & -> & H). apply list_elem_of_filter in H as [HP H]. apply list_elem_of_fmap in H as ([k' e2] & -> & H).
      rewrite entry_order_perm in H. apply elem_of_map_to_list in H. cbn in *. pose proof (Hm _ _ H) as Hk. cbn in Hk. rewrite Hk in He. congruence.
    - intros HP. exists e. split; [symmetry; exact (Hm k e He)|]. apply list_elem_of_filter. split; [done|].
      apply list_elem_of_fmap. exists (k, e). split; [done|]. rewrite entry_order_perm. by apply elem_of_map_to_list. }
  assert (Hlen : length ks = size (base.filter (fun ke : ServiceKey * ServiceEntry => stale_row env t ke.2 = true) m)).
  { unfold ks. rewrite length_fmap. rewrite <- length_map_to_list.
    assert (H : forall l : list (ServiceKey * ServiceEntry), length (base.filter P (snd <$> l)) = length (base.filter (fun ke => stale_row env t ke.2 = true) l)).
    { clear. induction l as [|[k e] l IH]; [done|]. cbn [fmap list_fmap snd]. unfold P in *. rewrite !filter_cons. cbn [snd]. destruct (decide _); cbn [length]; congruence. }
    rewrite H, map_filter_alt, map_to_list_to_map, entry_order_perm; [done|]. by apply NoDup_map_filter, NoDup_fst_map_to_list. }
  rewrite Hdel, Hlen. f_equal; [|by f_equal; destruct (size _)].
  apply map_eq. intros i. apply option_eq. intros x. rewrite !map_lookup_filter_Some. cbn. split; intros [Hx Hp]; (split; [done|]).
  - destruct (stale_row env t x) eqn:E; [|done]. exfalso. apply Hp. by apply (Hin i x Hx).
  - intros H. apply (Hin i x Hx) in H. unfold P in H. congruence.
Qed.

(** ** One call *)

Lemma row_transaction {A} (env : Env) (f : EntryMap -> EntryMap * (A * bool)) (mk : A -> call_value)
    (r : FileRegistry) (d : Directory) (m : EntryMap) :
  quiet timeout env -> stores d m -> durable_map (f m).1 -> ((f m).2.2 = false -> (f m).1 = m) ->
  exists r' d', (let! v := with_write_transaction registry_dir path_join timeout env (on_rows f) in ret (mk v)) (r, d) =
      ((r', d'), Ret (Ok (mk (f m).2.1))) /\
    stores d' (f m).1 /\ services r' = (f m).1 /\ sentinel_handles r' = sentinel_handles r /\ same_sentinels d d'.
Proof.
  intros Hq Hs Hd Hch. destruct (f m) as [m' [v ch]] eqn:E. cbn [fst snd] in *.
  destruct (transaction_ok registry_dir path_join timeout env (on_rows f) r d m
    (mkFileRegistry m' (sentinel_handles r) (snd <$> registry_file d)) d v ch Hq Hs) as (r3 & d3 & He & H1 & H2 & H3 & H4).
  { unfold on_rows. cbn [services]. rewrite E. reflexivity. }
  { done. } { done. } { done. }
  exists r3, d3. split; [|done]. by rewrite (bind_eq _ _ _ _ _ He).
Qed.

Lemma update_row_key k f m : (update_row k f m).2.1 = bool_decide (is_Some (m !! k)).
Proof. unfold update_row. by destruct (m !! k). Qed.

Lemma status_if_ok e st m : durable_map m -> durable_map (status_if_unchanged e st m).1 /\
  ((status_if_unchanged e st m).2.2 = false -> (status_if_unchanged e st m).1 = m).
Proof.
  intros Hm. unfold status_if_unchanged. case_bool_decide as H; [|done]. split; [|done]. destruct (Hm _ _ H) as [_ He].
  apply durable_insert; [done|by destruct e|by apply durable_status].
Qed.

Lemma release_row_ok env k o m : 0 <= clock env < TIME_END -> durable_map m -> durable_map (release_row env k o m).1 /\
  ((release_row env k o m).2.2 = false -> (release_row env k o m).1 = m).
Proof.
  intros Ht Hm. unfold release_row. destruct (m !! k) as [e|] eqn:E; [|done]. destruct (_ && _); [|done]. split; [|done].
  destruct (Hm _ _ E) as [Hk He]. apply durable_insert; [done|rewrite <- Hk; by destruct e|by apply durable_clear].
Qed.

Lemma lease_rows_ok env dcc id owner job expires m : 0 <= clock env < TIME_END ->
  match expires with Some t => 0 <= t < TIME_END | None => True end -> durable_map m ->
  durable_map (lease_rows env dcc id owner job expires m).1 /\
  ((lease_rows env dcc id owner job expires m).2.2 = false -> (lease_rows env dcc id owner job expires m).1 = m).
Proof.
  intros Ht Hx Hm. destruct (lease_rows_spec env dcc id owner job expires m (durable_keyed m Hm)) as (m' & sel & ch & -> & Hch & Hn & Hin & _).
  split; [|done]. intros k e Hk. cbn [fst] in Hk. destruct (m !! k) as [e0|] eqn:E; [|rewrite Hn in Hk by done; done].
  destruct (Hin k e0 E) as (e' & H1 & H2 & H3). rewrite H1 in Hk. injection Hk as <-. split; [done|].
  destruct (Hm _ _ E) as [_ He]. by eapply durable_lease_row.
Qed.

Lemma drop_stale_ok env t m : durable_map m -> durable_map (drop_stale env t m).1 /\
  ((drop_stale env t m).2.2 = false -> (drop_stale env t m).1 = m).
Proof.
  intros Hm. rewrite drop_stale_spec by (by apply durable_keyed). cbn [fst snd]. split; [intros i x Hx; apply map_lookup_filter_Some in Hx as [Hx _]; exact (Hm i x Hx)|].
  intros H. apply negb_false_iff, bool_decide_eq_true in H. apply map_size_empty_inv in H. apply map_eq. intros i. apply option_eq. intros x.
  rewrite map_lookup_filter_Some. cbn. split; [by intros []|]. intros Hx. split; [done|]. destruct (stale_row env t x) eqn:E; [|done].
  pose proof (map_filter_empty_not_lookup _ _ i x H) as Hne. by destruct Hne.
Qed.

(** The call that runs a row function, and what it answers. *)
Lemma row_call_ok {A} (env : Env) (f : EntryMap -> EntryMap * (A * bool)) (mk : A -> call_value)
    (r : FileRegistry) (d : Directory) (m : EntryMap) :
  quiet timeout env -> stores d m -> durable_map (f m).1 /\ ((f m).2.2 = false -> (f m).1 = m) ->
  let '(m', v) := let '(m', (a, _)) := f m in (m', mk a) in
  exists r' d', (let! v := with_write_transaction registry_dir path_join timeout env (on_rows f) in ret (mk v)) (r, d) =
      ((r', d'), Ret (Ok v)) /\
    stores d' m' /\ services r' = m' /\ sentinel_handles r' = sentinel_handles r /\ same_sentinels d d'.
Proof.
  intros Hq Hs [H1 H2]. destruct (row_transaction env f mk r d m Hq Hs H1 H2) as (r' & d' & H). destruct (f m) as [m' [v ch]].
  by exists r', d'.
Qed.

(** A call, in any process, is its row function on the rows of the file. *)
Lemma exec_row_ok env c r d m : quiet timeout env -> call_ok env c -> stores d m ->
  let '(m', v) := call_rows env c m in
  exists r' d', exec_row env c (r, d) = ((r', d'), Ret (Ok v)) /\
    stores d' m' /\ services r' = m' /\ sentinel_handles r' = sentinel_handles r /\ same_sentinels d d'.
Proof.
  intros Hq [Ht Hc] Hs. pose proof (stores_durable d m Hs) as Hm.
  destruct c as [k|k st|e st|k sn|k p|dcc id owner job ttl|k owner|t]; cbn [exec_row call_rows].
  - apply row_call_ok; try done. apply update_row_keeps; [done|by intros []|auto using durable_touch].
  - apply row_call_ok; try done. apply update_row_keeps; [done|by intros []|auto using durable_status].
  - apply row_call_ok; try done. by apply status_if_ok.
  - apply row_call_ok; try done. apply update_row_keeps; [done| |auto using durable_snapshot].
    intros e. rewrite apply_snapshot_spec. by destruct e.
  - apply row_call_ok; try done. apply update_row_keeps; [done|by intros []|auto using durable_touch, durable_pid].
  - unfold FileRegistry.acquire_lease. rewrite (proj2 (Z.leb_gt TIME_END _)) by (destruct ttl; cbn; lia).
    apply row_call_ok; try done. apply lease_rows_ok; try done. destruct ttl; cbn; [lia|done].
  - apply row_call_ok; try done. by apply release_row_ok.
  - apply row_call_ok; try done. by apply drop_stale_ok.
Qed.

(** ** Histories *)

Record system : Type := mkSystem { procs : gmap nat FileRegistry; directory : Directory }.

Abbreviation history := (list (nat * Env * row_call)).

(** The calls of a history, each in its process; [None] when one does not return a value. *)
Fixpoint sys_run (h : history) (s : system) : option (system * list call_value) :=
  match h with
  | [] => Some (s, [])
  | (p, env, c) :: h =>
      match procs s !! p with
      | None => None
      | Some r =>
          match exec_row env c (r, directory s) with
          | ((r, d), Ret (Ok v)) => (fun '(s, vs) => (s, v :: vs)) <$> sys_run h (mkSystem (<[p := r]> (procs s)) d)
          | _ => None
          end
      end
  end.

(** The same calls, one after the other, on one map. *)
Fixpoint spec_run (h : history) (m : EntryMap) : EntryMap * list call_value :=
  match h with
  | [] => (m, [])
  | (_, env, c) :: h => let '(m, v) := call_rows env c m in let '(m, vs) := spec_run h m in (m, v :: vs)
  end.

(** C12: the registry shared by processes is one map: in any history of heartbeats, status
    changes, patches, leases and evictions by any processes, whatever each had cached, every
    call answers, and the file ends, as if the calls had been made in turn on a single map;
    a process that has called sees, right after its call, the rows of the file. *)
Theorem calls_refine (h : history) (s : system) (m : EntryMap)
    (Hs : stores (directory s) m) (Hp : Forall (fun x => is_Some (procs s !! x.1.1)) h)
    (Hq : Forall (fun x => quiet timeout x.1.2 /\ call_ok x.1.2 x.2) h) :
  exists s', sys_run h s = Some (s', (spec_run h m).2) /\ stores (directory s') (spec_run h m).1 /\
    match last h with Some (p, _, _) => exists r, procs s' !! p = Some r /\ services r = (spec_run h m).1 | None => s' = s end.
Proof.
  revert s m Hs Hp. induction h as [|[[p env] c] h IH]; intros s m Hs Hp; [by exists s|].
  apply Forall_cons in Hp as [[r Hr] Hp]. apply Forall_cons in Hq as [[Hqe Hc] Hq]. cbn [fst snd] in *.
  pose proof (exec_row_ok env c r (directory s) m Hqe Hc Hs) as H. cbn [sys_run spec_run]. rewrite Hr.
  destruct (call_rows env c m) as [m' v]. destruct H as (r' & d' & He & Hs' & Hr' & _). rewrite He.
  destruct (IH Hq (mkSystem (<[p := r']> (procs s)) d') m' Hs') as (s' & H1 & H2 & H3).
  { eapply Forall_impl; [exact Hp|]. intros [[q env'] c'] Hx. cbn [fst procs] in *. destruct (decide (q = p)) as [->|Hne].
    - rewrite lookup_insert_eq. by eexists.
    - by rewrite lookup_insert_ne. }
  rewrite H1. destruct (spec_run h m') as [mf vs] eqn:E. cbn [fst snd fmap option_fmap option_map] in *.
  exists s'. split; [done|]. split; [done|]. destruct h as [|x h].
  - cbn [last sys_run spec_run] in *. subst s'. exists r'. cbn [procs]. rewrite lookup_insert_eq. injection E as <- <-. done.
  - change (last ((p, env, c) :: x :: h)) with (last (x :: h)). destruct (last (x :: h)) as [[[q env'] c']|] eqn:El; [exact H3|].
    by apply last_None in El.
Qed.

(** ** Leases *)

Lemma call_durable env c m : call_ok env c -> durable_map m -> durable_map (call_rows env c m).1.
Proof.
  intros [Ht Hc] Hm. destruct c as [k|k st|e st|k sn|k p|dcc id owner job ttl|k owner|t]; cbn [call_rows].
  - destruct (update_row_keeps k (touch (clock env)) m Hm) as [H _]; [by intros []|auto using durable_touch|]. by destruct (update_row _ _ m) as [? [? ?]].
  - destruct (update_row_keeps k (set_status st) m Hm) as [H _]; [by intros []|auto using durable_status|]. by destruct (update_row _ _ m) as [? [? ?]].
  - destruct (status_if_ok e st m Hm) as [H _]. by destruct (status_if_unchanged e st m) as [? [? ?]].
  - destruct (update_row_keeps k (fun e => apply_snapshot (clock env) e sn) m Hm) as [H _];
      [intros e; rewrite apply_snapshot_spec; by destruct e|auto using durable_snapshot|]. by destruct (update_row _ _ m) as [? [? ?]].
  - destruct (update_row_keeps k (fun e => touch (clock env) (set_pid (Some p) e)) m Hm) as [H _];
      [by intros []|auto using durable_touch, durable_pid|]. by destruct (update_row _ _ m) as [? [? ?]].
  - assert (Hx : match (fun d => clock env + d) <$> ttl with Some t => 0 <= t < TIME_END | None => True end) by (destruct ttl; cbn; [lia|done]).
    destruct (lease_rows_ok env dcc id owner job _ m Ht Hx Hm) as [H _]. by destruct (lease_rows _ _ _ _ _ _ m) as [? [? ?]].
  - destruct (release_row_ok env k owner m Ht Hm) as [H _]. by destruct (release_row env k owner m) as [? [? ?]].
  - destruct (drop_stale_ok env t m Hm) as [H _]. by destruct (drop_stale env t m) as [? [? ?]].
Qed.

(** The row a call hands out, if it does. *)
Definition leased (c : row_call) (v : call_value) : option ServiceEntry :=
  match c, v with CAcquire _ _ _ _ _, VRow o => o | _, _ => None end.

(** The same holder and the same end of the lease. *)
Definition same_lease (e e' : ServiceEntry) : Prop := lease_owner e' = lease_owner e /\ lease_expires_at e' = lease_expires_at e.

(** The calls that end the lease of row [k], [e]: its holder releases it, a lease is asked
    for when it has expired, or the row is evicted for its heartbeat. *)
Definition call_ends_lease (env : Env) (c : row_call) (k : ServiceKey) (e : ServiceEntry) : Prop :=
  match c with
  | CAcquire _ _ _ _ _ => lease_expired (clock env) e = true
  | CRelease k' owner => k' = k /\ owner = lease_owner e
  | CCleanup t => stale_row env t e = true
  | _ => False
  end.

Lemma same_lease_update k f m k' e : (forall e, same_lease e (f e)) -> m !! k' = Some e ->
  exists e', (update_row k f m).1 !! k' = Some e' /\ same_lease e e'.
Proof.
  intros Hf Hk. unfold update_row. destruct (m !! k) as [x|] eqn:E; cbn [fst]; [|by exists e]. destruct (decide (k' = k)) as [->|Hne].
  - rewrite lookup_insert_eq. simplify_eq. eauto.
  - rewrite lookup_insert_ne by done. by exists e.
Qed.

(** Every other call leaves the row with its lease and hands it out to nobody. *)
Lemma same_lease_call env c m k e : keyed m -> m !! k = Some e -> is_Some (lease_owner e) -> ~ call_ends_lease env c k e ->
  (exists e', (call_rows env c m).1 !! k = Some e' /\ same_lease e e') /\ key <$> leased c (call_rows env c m).2 <> Some k.
Proof.
  intros Hm Hk [o Ho] Hc. destruct c as [k'|k' st|e0 st|k' sn|k' p|dcc id owner job ttl|k' owner|t]; cbn [call_rows].
  - pose proof (same_lease_update k' (touch (clock env)) m k e ltac:(by intros []) Hk). by destruct (update_row _ _ m) as [? [? ?]].
  - pose proof (same_lease_update k' (set_status st) m k e ltac:(by intros []) Hk). by destruct (update_row _ _ m) as [? [? ?]].
  - unfold status_if_unchanged. case_bool_decide as H; cbn [fst snd leased]; (split; [|done]); [|by exists e].
    destruct (decide (k = key e0)) as [->|Hne]; [|rewrite lookup_insert_ne by done; by exists e]. rewrite lookup_insert_eq. simplify_eq. eexists. split; [done|by destruct e].
  - assert (Hf : forall e, same_lease e (apply_snapshot (clock env) e sn)) by (intros x; rewrite apply_snapshot_spec; by destruct x).
    pose proof (same_lease_update k' _ m k e Hf Hk). by destruct (update_row _ _ m) as [? [? ?]].
  - pose proof (same_lease_update k' (fun e => touch (clock env) (set_pid (Some p) e)) m k e ltac:(by intros []) Hk). by destruct (update_row _ _ m) as [? [? ?]].
  - destruct (lease_rows_spec env dcc id owner job ((fun d => clock env + d) <$> ttl) m Hm) as (m' & sel & ch & -> & _ & _ & Hin & _).
    cbn [fst snd leased]. destruct (Hin k e Hk) as (e' & H1 & H2 & H3). cbn [call_ends_lease] in Hc. apply not_true_is_false in Hc.
    unfold lease_row in H3. rewrite Hc in H3. case_bool_decide as Hs; [destruct H3 as (_ & _ & H3 & _); congruence|]. subst e'.
    split; [by exists e|done].
  - unfold release_row. destruct (m !! k') as [x|] eqn:E; [|split; [by exists e|done]]. destruct (_ && _) eqn:Hb; [|split; [by exists e|done]]. cbn [fst snd leased]. split; [|done].
    destruct (decide (k = k')) as [<-|Hne]; [|rewrite lookup_insert_ne by done; by exists e]. exfalso. simplify_eq. apply Hc. split; [done|].
    apply andb_true_iff in Hb as [Hb _]. destruct owner as [w|]; [|done]. apply bool_decide_eq_true in Hb. congruence.
  - rewrite drop_stale_spec by done. cbn [fst snd leased]. split; [|done]. exists e. split; [|done]. apply map_lookup_filter_Some. split; [done|]. by apply not_true_is_false.
Qed.

(** What is handed out: a row that was free, or whose lease had run out, of the wanted kind
    and instance; it is busy for its new holder until the end asked for. *)
Theorem acquire_exact (env : Env) (dcc : str) (id : option str) (owner : str) (job : option str) (ttl : option Z) (m : EntryMap)
    (Hm : durable_map m) :
  let free e := matches_instance dcc id e = true /\
    (if lease_expired (clock env) e then True else status e = Available /\ lease_owner e = None) in
  match (call_rows env (CAcquire dcc id owner job ttl) m).2 with
  | VRow (Some e') => (call_rows env (CAcquire dcc id owner job ttl) m).1 !! key e' = Some e' /\
      lease_owner e' = Some owner /\ lease_expires_at e' = (fun d => clock env + d) <$> ttl /\ status e' = Busy /\
      exists e, m !! key e' = Some e /\ free e
  | _ => forall k e, m !! k = Some e ->
      (call_rows env (CAcquire dcc id owner job ttl) m).1 !! k = Some (if lease_expired (clock env) e then clear_lease (clock env) e else e)
  end.
Proof.
  cbv zeta. cbn [call_rows].
  destruct (lease_rows_spec env dcc id owner job ((fun d => clock env + d) <$> ttl) m (durable_keyed m Hm)) as (m' & sel & ch & -> & _ & Hn & Hin & Hsel).
  cbn [fst snd]. destruct sel as [e'|].
  - split; [done|]. destruct (m !! key e') as [e|] eqn:E; [|rewrite Hn in Hsel by done; done].
    destruct (Hin _ e E) as (e2 & H1 & _ & H3). rewrite Hsel in H1. injection H1 as <-. unfold lease_row in H3.
    rewrite bool_decide_true in H3 by done. destruct H3 as (Hmatch & Hst & Hown & He').
    set (e0 := if lease_expired (clock env) e then clear_lease (clock env) e else e) in *.
    split_and!; [rewrite He'; by destruct e0..|]. exists e. split; [done|]. unfold e0 in *.
    destruct (lease_expired (clock env) e); [|done]. split; [|done]. clear - Hmatch. by destruct e.
  - intros k e Hk. destruct (Hin k e Hk) as (e' & H1 & _ & H3). rewrite H1. unfold lease_row in H3. by rewrite bool_decide_false in H3; [subst e'|].
Qed.

End Calls.
