(* ===== verification/RegistryLife.v ===== *)
(** The life of a row of the service registry: registering takes a locked sentinel, reading
    evicts what is dead; exactly which calls take the row of a live owner, and exactly which
    end a lease. *)

From S2P Require Import Prelude Text Json GatewayNaming Capability TransportAddress ServiceEntry EntryFormat EntryProps FileRegistry FileRegistryProps RegistryCalls.

Local Open Scope Z_scope.

Section Life.
Context {uu : UuidText} {ur : UuidReads} {ac : AddressCodec} {hs : HashOrder str} {hv : HashOrder Value} {v5 : UuidV5} {jf : JsonFile} {eo : EntryOrder}.
Context (registry_dir : str) (path_join : str -> str -> str) (timeout : Z).

Abbreviation sentinel_of := (sentinel_path_for registry_dir path_join).

(** ** Removing rows *)

(** What [prune_row] and [remove_entry] leave: the row, its handle with its lock, and the
    sentinel file it names are gone. *)
Definition forget (k : ServiceKey) (s : State) : State :=
  let '(r, d) := s in
  (mkFileRegistry (base.delete k (services r)) (base.delete k (sentinel_handles r)) (last_mtime r),
   mkDirectory (registry_file d) (quarantined d)
     (match services r !! k ≫= sentinel_path with Some p => base.delete p (paths d) | None => paths d end)
     (match sentinel_handles r !! k with Some i => locked d ∖ {[i]} | None => locked d end)).

Lemma prune_row_eq k s : prune_row k s = (forget k s, Ret (Ok tt)).
Proof.
  destruct s as [[sv h t] [f q p l]]. unfold prune_row, bind, get, on_registry, drop_handle, on_directory, forget. cbn [fst snd services sentinel_handles set_services].
  destruct (h !! k) as [i|] eqn:E; [|rewrite (delete_id h) by done]; by destruct (sv !! k ≫= sentinel_path).
Qed.

Lemma remove_entry_eq k s : remove_entry k s = (forget k s, Ret (Ok (services (fst s) !! k))).
Proof.
  destruct s as [[sv h t] [f q p l]]. unfold remove_entry, bind, get, on_registry, drop_handle, on_directory, forget. cbn [fst snd services sentinel_handles set_services].
  destruct (h !! k) as [i|] eqn:E; [|rewrite (delete_id h) by done]; by destruct (sv !! k ≫= sentinel_path).
Qed.

Fixpoint forget_all (ks : list ServiceKey) (s : State) : State :=
  match ks with [] => s | k :: ks => forget_all ks (forget k s) end.

Lemma for_keys_prune ks s : for_keys prune_row ks s = (forget_all ks s, Ret (Ok tt)).
Proof. revert s. induction ks as [|k ks IH]; intros s; [done|]. cbn [for_keys forget_all]. rewrite (bind_eq _ _ _ _ _ (prune_row_eq k s)). apply IH. Qed.

(** The sentinel files and the locks that go with some rows. *)
Definition freed_paths (ks : list ServiceKey) (m : EntryMap) : list str := omap (fun k => m !! k ≫= sentinel_path) ks.
Definition freed_locks (ks : list ServiceKey) (h : gmap ServiceKey inode) : gset inode := list_to_set (omap (fun k => h !! k) ks).

Lemma forget_all_spec ks s : NoDup ks ->
  services (fst (forget_all ks s)) = base.filter (fun ke : ServiceKey * ServiceEntry => ke.1 ∉ ks) (services (fst s)) /\
  sentinel_handles (fst (forget_all ks s)) = base.filter (fun ki : ServiceKey * inode => ki.1 ∉ ks) (sentinel_handles (fst s)) /\
  registry_file (snd (forget_all ks s)) = registry_file (snd s) /\
  (forall p, paths (snd (forget_all ks s)) !! p = if decide (p ∈ freed_paths ks (services (fst s))) then None else paths (snd s) !! p) /\
  locked (snd (forget_all ks s)) = locked (snd s) ∖ freed_locks ks (sentinel_handles (fst s)).
Proof.
  revert s. induction ks as [|k ks IH]; intros [[sv h t] [f q p l]] Hnd.
  { cbn. rewrite !map_filter_id by (intros; set_solver). split_and!; try done. set_solver. }
  apply NoDup_cons in Hnd as [Hk Hnd]. cbn [forget_all].
  destruct (IH (forget k (mkFileRegistry sv h t, mkDirectory f q p l)) Hnd) as (H1 & H2 & H3 & H4 & H5).
  rewrite H1, H2, H3, H5. cbn [forget fst snd services sentinel_handles registry_file paths locked] in *.
  assert (Hsv : forall k', k' ∈ ks -> base.delete k sv !! k' = sv !! k') by (intros k' ?; apply lookup_delete_ne; intros ->; done).
  assert (Hh : forall k', k' ∈ ks -> base.delete k h !! k' = h !! k') by (intros k' ?; apply lookup_delete_ne; intros ->; done).
  assert (Hfp : freed_paths ks (base.delete k sv) = freed_paths ks sv).
  { unfold freed_paths. clear - Hsv. induction ks as [|x ks IH]; [done|]. cbn [omap list_omap]. rewrite Hsv by (by left).
    rewrite IH; [done|]. intros k' ?. apply Hsv. by right. }
  assert (Hfl : freed_locks ks (base.delete k h) = freed_locks ks h).
  { unfold freed_locks. clear - Hh. f_equal. induction ks as [|x ks IH]; [done|]. cbn [omap list_omap]. rewrite Hh by (by left).
    rewrite IH; [done|]. intros k' ?. apply Hh. by right. }
  rewrite Hfl. split_and!.
  - apply map_eq. intros i. apply option_eq. intros x. rewrite !map_lookup_filter_Some, lookup_delete_Some, not_elem_of_cons. cbn. naive_solver.
  - apply map_eq. intros i. apply option_eq. intros x. rewrite !map_lookup_filter_Some, lookup_delete_Some, not_elem_of_cons. cbn. naive_solver.
  - done.
  - intros x. rewrite H4, Hfp. assert (Hc : freed_paths (k :: ks) sv = match sv !! k ≫= sentinel_path with Some y => y :: freed_paths ks sv | None => freed_paths ks sv end) by done.
    rewrite Hc. destruct (sv !! k ≫= sentinel_path) as [y|]; [|done]. clear.
    destruct (decide (x = y)) as [->|Hne].
    + rewrite lookup_delete_eq. destruct (decide (y ∈ freed_paths ks sv)), (decide (y ∈ y :: freed_paths ks sv)) as [|Hn]; try done;
        destruct Hn; by left.
    + rewrite lookup_delete_ne by done. destruct (decide (x ∈ freed_paths ks sv)), (decide (x ∈ y :: freed_paths ks sv)) as [Hx|Hx]; try done.
      * destruct Hx. by right.
      * by apply elem_of_cons in Hx as [].
  - assert (Hc : freed_locks (k :: ks) h = match h !! k with Some i => {[i]} ∪ freed_locks ks h | None => freed_locks ks h end)
      by (unfold freed_locks; cbn [omap list_omap]; by destruct (h !! k)).
    rewrite Hc. destruct (h !! k) as [i|]; [|done]. set_solver.
Qed.

(** ** Eviction *)

(** Reading the registry evicts exactly the rows whose owner or bound host is dead: a
    sentinel that nobody holds locked means a dead owner, whatever process has its pid now;
    a row without sentinel is judged by its pid; a live sidecar does not keep the row of
    a dead host.  The sentinel files of evicted rows are removed, the other rows are
    untouched, and the count is returned. *)
Theorem prune_exact (env : Env) (r : FileRegistry) (d : Directory) (m : EntryMap)
    (Hq : quiet timeout env) (Hs : stores d m) :
  let dead e := row_dead env (mkFileRegistry m (sentinel_handles r) (snd <$> registry_file d), d) e in
  exists r' d' ks, prune_dead_entries registry_dir path_join timeout env (r, d) = ((r', d'), Ret (Ok (length ks))) /\
    NoDup ks /\ (forall k, k ∈ ks <-> exists e, m !! k = Some e /\ dead e = true) /\
    stores d' (base.filter (fun ke : ServiceKey * ServiceEntry => dead ke.2 = false) m) /\
    services r' = base.filter (fun ke : ServiceKey * ServiceEntry => dead ke.2 = false) m /\
    sentinel_handles r' = base.filter (fun ki : ServiceKey * inode => ki.1 ∉ ks) (sentinel_handles r) /\
    (forall p, paths d' !! p = if decide (p ∈ freed_paths ks m) then None else paths d !! p) /\
    locked d' = locked d ∖ freed_locks ks (sentinel_handles r).
Proof.
  intros dead. pose proof (stores_durable d m Hs) as Hm. pose proof (durable_keyed m Hm) as Hkeyed.
  set (s0 := (mkFileRegistry m (sentinel_handles r) (snd <$> registry_file d), d)) in *.
  set (ks := key <$> base.filter (fun e => row_dead env s0 e = true) (list_all_in_memory (fst s0))).
  assert (Hnd : NoDup ks) by (apply (NoDup_map_filter key); unfold list_all_in_memory; rewrite listed_keys by done; apply NoDup_fst_map_to_list).
  assert (Hin : forall k e, m !! k = Some e -> k ∈ ks <-> dead e = true).
  { intros k e He. unfold ks. rewrite list_elem_of_fmap. split.
    - intros (e' & -> & H). apply list_elem_of_filter in H as [HP H]. apply list_elem_of_fmap in H as ([k' e2] & -> & H).
      rewrite entry_order_perm in H. apply elem_of_map_to_list in H. cbn in *. pose proof (Hkeyed _ _ H) as Hk. cbn in Hk. rewrite Hk in He. rewrite He in H. injection H as ->. exact HP.
    - intros HP. exists e. split; [symmetry; exact (Hkeyed k e He)|]. apply list_elem_of_filter. split; [done|].
      apply list_elem_of_fmap. exists (k, e). split; [done|]. rewrite entry_order_perm. by apply elem_of_map_to_list. }
  assert (Hin' : forall k, k ∈ ks -> is_Some (m !! k)).
  { intros k Hk. unfold ks in Hk. apply list_elem_of_fmap in Hk as (e & -> & H). apply list_elem_of_filter in H as [_ H].
    apply list_elem_of_fmap in H as ([k' e2] & -> & H). rewrite entry_order_perm in H. apply elem_of_map_to_list in H. cbn in *.
    pose proof (Hkeyed _ _ H) as Hk. cbn in Hk. rewrite Hk. by eexists. }
  destruct (forget_all_spec ks s0 Hnd) as (H1 & H2 & H3 & H4 & H5).
  assert (Hf : services (fst (forget_all ks s0)) = base.filter (fun ke : ServiceKey * ServiceEntry => dead ke.2 = false) m).
  { rewrite H1. apply map_eq. intros i. apply option_eq. intros x. rewrite !map_lookup_filter_Some. cbn. split; intros [Hx Hp]; (split; [done|]).
    - destruct (dead x) eqn:E; [|done]. exfalso. apply Hp. by apply (Hin i x Hx).
    - intros H. apply (Hin i x Hx) in H. congruence. }
  destruct (forget_all ks s0) as [r2 d2] eqn:E. cbn [fst snd] in *.
  destruct (transaction_ok registry_dir path_join timeout env (prune_op env) r d m r2 d2 (length ks) (0 <? length ks)%nat Hq Hs) as (r3 & d3 & He & G1 & G2 & G3 & G4 & G5 & _).
  - unfold prune_op. fold s0. rewrite (bind_eq _ _ _ s0 s0) by done. cbv zeta. fold ks. rewrite (bind_eq _ _ _ _ _ (for_keys_prune ks s0)). by rewrite E.
  - by rewrite H3.
  - rewrite Hf. intros i x Hx. apply map_lookup_filter_Some in Hx as [Hx _]. exact (Hm i x Hx).
  - intros Hl. destruct ks as [|k ks']; [|done]. cbn [forget_all] in E. unfold s0 in E. by injection E as <- _.
  - exists r3, d3, ks. split; [exact He|]. split; [done|]. split.
    { intros k. split; [intros Hk; destruct (Hin' k Hk) as [e Hm']; exists e; split; [done|by apply (Hin k e Hm')]|].
      intros (e & Hm' & Hde). by apply (Hin k e Hm'). }
    unfold s0 in H2, H4, H5. cbn [fst snd services sentinel_handles] in H2, H4, H5.
    rewrite <- Hf, <- H2, <- H5. split_and!; try congruence. intros p. rewrite G4. apply H4.
Qed.

(** ** Registering and deregistering *)

(** Whether registering waits: the named file is locked by someone, and not reused. *)
Definition sentinel_state (d : Directory) (p : str) : option (inode * bool) :=
  (fun i => (i, bool_decide (i ∈ locked d))) <$> paths d !! p.

Lemma register_reuse env e r d m i j : quiet timeout env -> stores d m -> durable e -> sentinel_handles r !! key e = Some i ->
  paths d !! sentinel_of (key e) = Some j ->
  exists r' d', register registry_dir path_join timeout env e (r, d) = ((r', d'), Ret (Ok tt)) /\
    stores d' (<[key e := set_sentinel (Some (sentinel_of (key e))) e]> m) /\
    services r' = <[key e := set_sentinel (Some (sentinel_of (key e))) e]> m /\
    sentinel_handles r' = sentinel_handles r /\ paths d' = paths d /\ locked d' = locked d.
Proof.
  intros Hq Hs He Hi Hj. pose proof (stores_durable d m Hs) as Hm.
  set (e' := set_sentinel (Some (sentinel_of (key e))) e).
  destruct (transaction_ok registry_dir path_join timeout env (register_op registry_dir path_join env e) r d m
    (mkFileRegistry (<[key e := e']> m) (sentinel_handles r) (snd <$> registry_file d)) d tt true Hq Hs) as (r3 & d3 & Hex & G1 & G2 & G3 & G4 & G5 & _); try done.
  - unfold register_op. cbv zeta. unfold bind at 1. unfold get at 1. cbn [fst snd sentinel_handles]. rewrite Hi, Hj.
    rewrite !bool_decide_true by (by eexists). cbn [andb]. by rewrite bind_ret.
  - apply durable_insert; [done|by destruct e|by apply durable_sentinel].
  - exists r3, d3. unfold register. unfold validate_schema_version. rewrite (proj2 (Z.leb_le _ _) (durable_schema e He)). cbn [negb].
    split_and!; try done.
Qed.

Definition kept_locks (r : FileRegistry) (d : Directory) (k : ServiceKey) : gset inode :=
  match sentinel_handles r !! k with Some i => locked d ∖ {[i]} | None => locked d end.

Lemma register_new (env : Env) (e : ServiceEntry) (r : FileRegistry) (d : Directory) (m : EntryMap) :
  quiet timeout env -> stores d m -> durable e -> sentinel_fault env = false ->
  sentinel_handles r !! key e = None \/ paths d !! sentinel_of (key e) = None ->
  (forall i, paths d !! sentinel_of (key e) = Some i -> i ∉ locked d) ->
  exists r' d' i, register registry_dir path_join timeout env e (r, d) = ((r', d'), Ret (Ok tt)) /\
    stores d' (<[key e := set_sentinel (Some (sentinel_of (key e))) e]> m) /\
    services r' = <[key e := set_sentinel (Some (sentinel_of (key e))) e]> m /\
    sentinel_handles r' = <[key e := i]> (sentinel_handles r) /\ paths d' = <[sentinel_of (key e) := i]> (paths d) /\
    locked d' = {[i]} ∪ kept_locks r d (key e) /\ (i ∉ kept_locks r d (key e)) /\
    (paths d !! sentinel_of (key e) = Some i \/ forall p, paths d !! p <> Some i).
Proof.
  intros Hq Hs He Hf Hh Hj. pose proof (stores_durable d m Hs) as Hm. set (k := key e) in *. set (p := sentinel_of k) in *.
  set (e' := set_sentinel (Some p) e). set (l := kept_locks r d k).
  set (i := default (fresh (list_to_set (snd <$> map_to_list (paths d)) ∪ l)) (paths d !! p)).
  assert (Hl : (i ∉ l) /\ (paths d !! p = Some i \/ forall q, paths d !! q <> Some i)).
  { assert (Hsub : l ⊆ locked d) by (unfold l, kept_locks; destruct (_ !! k); set_solver).
    unfold i. destruct (paths d !! p) as [j|] eqn:E; cbn [default from_option id]; [split; [|auto]; intros Hin; by apply (Hj j), Hsub|].
    pose proof (is_fresh (list_to_set (snd <$> map_to_list (paths d)) ∪ l)) as Hfr. rewrite elem_of_union in Hfr. split; [tauto|].
    right. intros q Hp. apply Hfr. left. apply elem_of_list_to_set. apply list_elem_of_fmap. eexists (q, _). split; [done|]. by apply elem_of_map_to_list. }
  destruct Hl as [Hl Hl'].
  destruct (transaction_ok registry_dir path_join timeout env (register_op registry_dir path_join env e) r d m
    (mkFileRegistry (<[k := e']> m) (<[k := i]> (sentinel_handles r)) (snd <$> registry_file d))
    (mkDirectory (registry_file d) (quarantined d) (<[p := i]> (paths d)) ({[i]} ∪ l)) tt true Hq Hs) as (r3 & d3 & Hex & G1 & G2 & G3 & G4 & G5 & _).
  - unfold register_op. cbv zeta. fold k p. unfold bind at 1. unfold get at 1. cbn [fst snd sentinel_handles].
    assert (Hb : bool_decide (is_Some (sentinel_handles r !! k)) && bool_decide (is_Some (paths d !! p)) = false).
    { destruct Hh as [->| ->]; [by rewrite bool_decide_false by (by intros [])|]. rewrite andb_comm. by rewrite bool_decide_false by (by intros []). }
    rewrite Hb. unfold bind at 1 2. unfold drop_handle at 1. cbn [sentinel_handles].
    assert (Hc : forall r0 d0, locked d0 = l -> paths d0 = paths d ->
      create_sentinel registry_dir path_join env k (r0, d0) = ((r0, set_locked ({[i]} ∪ l) (set_paths (<[p := i]> (paths d)) d0)), Ret (Ok (p, i)))).
    { intros r0 d0 E1 E2. unfold create_sentinel. rewrite Hf. cbv zeta. fold p. rewrite E1, E2. fold i. cbn [locked set_paths]. rewrite E1.
      by rewrite decide_False. }
    unfold l, kept_locks in Hc. unfold l, kept_locks. destruct (sentinel_handles r !! k) as [i0|] eqn:Ei.
    + unfold bind at 1. rewrite Hc by done. unfold bind, on_registry, ret. cbn [set_services set_handles services sentinel_handles last_mtime]. by rewrite insert_delete_eq.
    + unfold bind at 1. rewrite Hc by done. unfold bind, on_registry, ret. done.
  - done.
  - apply durable_insert; [done|by destruct e|by apply durable_sentinel].
  - done.
  - exists r3, d3, i. unfold register. unfold validate_schema_version. rewrite (proj2 (Z.leb_le _ _) (durable_schema e He)). cbn [negb].
    split_and!; try done.
Qed.

Lemma deregister_ok (env : Env) (k : ServiceKey) (r : FileRegistry) (d : Directory) (m : EntryMap) : quiet timeout env -> stores d m ->
  exists r' d', deregister registry_dir path_join timeout env k (r, d) = ((r', d'), Ret (Ok (m !! k))) /\
    stores d' (base.delete k m) /\ services r' = base.delete k m /\ sentinel_handles r' = base.delete k (sentinel_handles r) /\
    paths d' = match m !! k ≫= sentinel_path with Some p => base.delete p (paths d) | None => paths d end /\
    locked d' = kept_locks r d k.
Proof.
  intros Hq Hs. pose proof (stores_durable d m Hs) as Hm.
  destruct (forget k (mkFileRegistry m (sentinel_handles r) (snd <$> registry_file d), d)) as [r2 d2] eqn:E.
  destruct (transaction_ok registry_dir path_join timeout env (deregister_op k) r d m r2 d2 (m !! k) (bool_decide (is_Some (m !! k))) Hq Hs)
    as (r3 & d3 & Hex & G1 & G2 & G3 & G4 & G5 & _).
  - unfold deregister_op. rewrite (bind_eq _ _ _ _ _ (remove_entry_eq k _)), E. done.
  - unfold forget in E. by injection E as <- <-.
  - unfold forget in E. injection E as <- _. cbn [services]. intros i x Hx. apply lookup_delete_Some in Hx as [_ Hx]. exact (Hm i x Hx).
  - unfold forget in E. injection E as <- _. cbn [services]. intros Hb. apply bool_decide_eq_false in Hb. apply delete_id. by destruct (m !! k); [destruct Hb|].
  - unfold forget in E. injection E as <- <-. cbn [services sentinel_handles paths locked] in *. exists r3, d3. unfold deregister. by split_and!.
Qed.

(** ** Many processes *)

Inductive event : Type :=
| ERow (p : nat) (env : Env) (c : row_call)
| EPrune (p : nat) (env : Env)
| ERegister (p : nat) (env : Env) (e : ServiceEntry)
| EDeregister (p : nat) (env : Env) (k : ServiceKey)
| ECrash (p : nat).

Definition run_in {A} (p : nat) (s : system) (m : M A) : option system :=
  match procs s !! p with
  | Some r => match m (r, directory s) with
              | ((r, d), Ret (Ok _)) => Some (mkSystem (<[p := r]> (procs s)) d)
              | _ => None
              end
  | None => None
  end.

(** The locks a process holds go with it. *)
Definition held_inodes (r : FileRegistry) : gset inode := list_to_set (snd <$> map_to_list (sentinel_handles r)).

Definition sys_event (ev : event) (s : system) : option system :=
  match ev with
  | ERow p env c => run_in p s (exec_row registry_dir path_join timeout env c)
  | EPrune p env => run_in p s (prune_dead_entries registry_dir path_join timeout env)
  | ERegister p env e => run_in p s (register registry_dir path_join timeout env e)
  | EDeregister p env k => run_in p s (deregister registry_dir path_join timeout env k)
  | ECrash p =>
      match procs s !! p with
      | Some r => Some (mkSystem (base.delete p (procs s)) (set_locked (locked (directory s) ∖ held_inodes r) (directory s)))
      | None => None
      end
  end.

(** A key whose sentinel lies in the directory of locks: [Path::join] would take an
    absolute [dcc_type] for the whole path. *)
Definition plain_key (k : ServiceKey) : Prop := starts_with (lit "/") (fst k) = false /\ 0 <= snd k < 2 ^ 128.

(** What holds between calls: every open handle is locked and its inode is no other's, a
    row names its own sentinel, two paths name two files. *)
Record consistent (s : system) (m : EntryMap) : Prop := {
  c_stores : stores (directory s) m;
  c_locked p r k i : procs s !! p = Some r -> sentinel_handles r !! k = Some i -> i ∈ locked (directory s);
  c_unique p r k p' r' k' i : procs s !! p = Some r -> sentinel_handles r !! k = Some i ->
    procs s !! p' = Some r' -> sentinel_handles r' !! k' = Some i -> p = p' /\ k = k';
  c_named k e q : m !! k = Some e -> sentinel_path e = Some q -> q = sentinel_of k;
  c_plain k e : m !! k = Some e -> plain_key k;
  c_paths q q' i : paths (directory s) !! q = Some i -> paths (directory s) !! q' = Some i -> q = q';
}.

(** Process [p] owns row [k]: it holds the sentinel the row names. *)
Definition owns (p : nat) (k : ServiceKey) (s : system) (m : EntryMap) : Prop :=
  exists r i e, procs s !! p = Some r /\ sentinel_handles r !! k = Some i /\ paths (directory s) !! sentinel_of k = Some i /\
    m !! k = Some e /\ sentinel_path e = Some (sentinel_of k).

(** The environments and values the events are given: the file system works, the values
    are those of the Rust types, and a registered key has its sentinel in the directory. *)
Definition proper (ev : event) : Prop :=
  match ev with
  | ERow _ env c => quiet timeout env /\ call_ok env c
  | EPrune _ env | EDeregister _ env _ => quiet timeout env
  | ERegister _ env e => quiet timeout env /\ durable e /\ plain_key (key e)
  | ECrash _ => True
  end.

(** The events that remove an owned row: an eviction of stale rows that finds its heartbeat
    too old, an eviction of dead rows that finds its bound host dead, and its
    deregistration, whoever makes the call. *)
Definition removes (k : ServiceKey) (m : EntryMap) (ev : event) : Prop :=
  match ev with
  | ERow _ env (CCleanup t) => exists e, m !! k = Some e /\ stale_row env t e = true
  | EPrune _ env => exists e, m !! k = Some e /\ host_dead env e = true
  | EDeregister _ _ k' => k' = k
  | _ => False
  end.

Lemma call_sentinels env c m k' e' : keyed m -> (call_rows env c m).1 !! k' = Some e' ->
  exists e, m !! k' = Some e /\ sentinel_path e' = sentinel_path e.
Proof.
  intros Hm. assert (Hu : forall k f, (forall e, sentinel_path (f e) = sentinel_path e) -> (update_row k f m).1 !! k' = Some e' ->
    exists e, m !! k' = Some e /\ sentinel_path e' = sentinel_path e).
  { intros k f Hf. unfold update_row. destruct (m !! k) as [x|] eqn:E; cbn [fst]; [|eauto]. destruct (decide (k' = k)) as [->|Hne].
    - rewrite lookup_insert_eq. intros [= <-]. eauto.
    - rewrite lookup_insert_ne by done. eauto. }
  destruct c as [k|k st|e st|k sn|k p|dcc id owner job ttl|k owner|t]; cbn [call_rows].
  - specialize (Hu k (touch (clock env)) ltac:(by intros [])). by destruct (update_row _ _ m) as [? [? ?]].
  - specialize (Hu k (set_status st) ltac:(by intros [])). by destruct (update_row _ _ m) as [? [? ?]].
  - unfold status_if_unchanged. case_bool_decide as H; cbn [fst]; [|eauto]. destruct (decide (k' = key e)) as [->|Hne].
    + rewrite lookup_insert_eq. intros [= <-]. exists e. split; [done|by destruct e].
    + rewrite lookup_insert_ne by done. eauto.
  - assert (Hf : forall e, sentinel_path (apply_snapshot (clock env) e sn) = sentinel_path e) by (intros e; rewrite apply_snapshot_spec; by destruct e).
    specialize (Hu k (fun e => apply_snapshot (clock env) e sn) Hf). by destruct (update_row _ _ m) as [? [? ?]].
  - specialize (Hu k (fun e => touch (clock env) (set_pid (Some p) e)) ltac:(by intros [])). by destruct (update_row _ _ m) as [? [? ?]].
  - destruct (lease_rows_spec env dcc id owner job ((fun d => clock env + d) <$> ttl) m Hm) as (m' & sel & ch & -> & _ & Hn & Hin & _).
    cbn [fst]. intros H. destruct (m !! k') as [e|] eqn:E; [|rewrite Hn in H by done; done]. exists e. split; [done|].
    destruct (Hin k' e E) as (e2 & H1 & _ & H3). rewrite H1 in H. injection H as ->. unfold lease_row in H3.
    destruct (bool_decide _); [destruct H3 as (_ & _ & _ & ->)|subst e']; destruct (lease_expired _ e); by destruct e.
  - unfold release_row. destruct (m !! k) as [x|] eqn:E; [|eauto]. destruct (_ && _); [|eauto]. cbn [fst]. destruct (decide (k' = k)) as [->|Hne].
    + rewrite lookup_insert_eq. intros [= <-]. exists x. split; [done|by destruct x].
    + rewrite lookup_insert_ne by done. eauto.
  - rewrite drop_stale_spec by done. cbn [fst]. intros H. apply map_lookup_filter_Some in H as [H _]. eauto.
Qed.

Lemma call_keeps_row env c m k e : keyed m -> m !! k = Some e ->
  ((call_rows env c m).1 !! k = None <-> match c with CCleanup t => stale_row env t e = true | _ => False end).
Proof.
  intros Hm Hk. assert (Hs : forall o : option ServiceEntry, is_Some o -> o = None <-> False) by (intros o [x ->]; by split).
  assert (Hu : forall k' f, (update_row k' f m).1 !! k = None <-> False).
  { intros k' f. apply Hs. unfold update_row. destruct (m !! k') as [x|] eqn:E; cbn [fst]; [|by eexists]. apply lookup_insert_is_Some. destruct (decide (k' = k)); eauto. }
  destruct c as [k'|k' st|e0 st|k' sn|k' p|dcc id owner job ttl|k' owner|t]; cbn [call_rows].
  - specialize (Hu k' (touch (clock env))). by destruct (update_row _ _ m) as [? [? ?]].
  - specialize (Hu k' (set_status st)). by destruct (update_row _ _ m) as [? [? ?]].
  - apply Hs. unfold status_if_unchanged. case_bool_decide; cbn [fst]; [|by eexists]. apply lookup_insert_is_Some. destruct (decide (key e0 = k)); eauto.
  - specialize (Hu k' (fun e => apply_snapshot (clock env) e sn)). by destruct (update_row _ _ m) as [? [? ?]].
  - specialize (Hu k' (fun e => touch (clock env) (set_pid (Some p) e))). by destruct (update_row _ _ m) as [? [? ?]].
  - destruct (lease_rows_spec env dcc id owner job ((fun d => clock env + d) <$> ttl) m Hm) as (m' & sel & ch & -> & _ & Hn & Hin & _).
    cbn [fst]. apply Hs. destruct (Hin k e Hk) as (e2 & H1 & _). by exists e2.
  - apply Hs. unfold release_row. destruct (m !! k') as [x|] eqn:E; [|by eexists]. destruct (_ && _); [|by eexists]. cbn [fst].
    apply lookup_insert_is_Some. destruct (decide (k' = k)); eauto.
  - rewrite drop_stale_spec by done. cbn [fst]. rewrite map_lookup_filter_None. cbn. split.
    + intros [Hn|H]; [congruence|]. specialize (H e Hk). by destruct (stale_row env t e).
    + intros Hst. right. intros x Hx. rewrite Hk in Hx. injection Hx as <-. by rewrite Hst.
Qed.

(** A call that changes one process: its handles are old ones, but for at most one new one
    whose inode nobody else holds. *)
Lemma consistent_step s m q r r' d' m' kn : consistent s m -> procs s !! q = Some r -> stores d' m' ->
  (forall k i, sentinel_handles r' !! k = Some i -> i ∈ locked d' /\ (sentinel_handles r !! k = Some i \/
     (k = kn /\ forall p r0 k0, procs s !! p = Some r0 -> sentinel_handles r0 !! k0 = Some i -> p = q /\ k0 = kn))) ->
  (forall p r0 k i, p <> q -> procs s !! p = Some r0 -> sentinel_handles r0 !! k = Some i -> i ∈ locked d') ->
  (forall k e x, m' !! k = Some e -> sentinel_path e = Some x -> x = sentinel_of k) ->
  (forall k e, m' !! k = Some e -> plain_key k) ->
  (forall x x' i, paths d' !! x = Some i -> paths d' !! x' = Some i -> x = x') ->
  consistent (mkSystem (<[q := r']> (procs s)) d') m'.
Proof.
  intros [Hs H1 H2 H3 H5 H4] Hr Hst Hh Ho Hn Hpl Hp. constructor; cbn [directory procs]; try done.
  - intros p r0 k i. destruct (decide (p = q)) as [->|Hne]; [rewrite lookup_insert_eq; intros [= <-]; by apply Hh|].
    rewrite lookup_insert_ne by done. eauto.
  - intros p r0 k p' r0' k' i. destruct (decide (p = q)) as [->|Hne], (decide (p' = q)) as [->|Hne'];
      rewrite ?lookup_insert_eq, ?lookup_insert_ne by done.
    + intros [= <-] Hk [= <-] Hk'. split; [done|]. destruct (Hh _ _ Hk) as [_ [Hk1|[-> Hk1]]], (Hh _ _ Hk') as [_ [Hk2|[-> Hk2]]]; [|..|done].
      * by destruct (H2 _ _ _ _ _ _ _ Hr Hk1 Hr Hk2).
      * by destruct (Hk2 _ _ _ Hr Hk1).
      * by destruct (Hk1 _ _ _ Hr Hk2).
    + intros [= <-] Hk Hr' Hk'. destruct (Hh _ _ Hk) as [_ [Hk1|[-> Hk1]]]; [by destruct (H2 _ _ _ _ _ _ _ Hr Hk1 Hr' Hk')|].
      by destruct (Hk1 _ _ _ Hr' Hk').
    + intros Hr' Hk' [= <-] Hk. destruct (Hh _ _ Hk) as [_ [Hk1|[-> Hk1]]]; [by destruct (H2 _ _ _ _ _ _ _ Hr' Hk' Hr Hk1)|].
      by destruct (Hk1 _ _ _ Hr' Hk').
    + apply H2.
Qed.

Lemma run_in_eq {A} q s (mm : M A) r r' d' a : procs s !! q = Some r -> mm (r, directory s) = ((r', d'), Ret (Ok a)) ->
  run_in q s mm = Some (mkSystem (<[q := r']> (procs s)) d').
Proof. intros Hr He. unfold run_in. by rewrite Hr, He. Qed.

Lemma run_in_proc {A} q s (mm : M A) s' : run_in q s mm = Some s' -> exists r, procs s !! q = Some r.
Proof. unfold run_in. destruct (procs s !! q); [eauto|done]. Qed.

(** The owner's handle survives a call of any process that leaves it alone. *)
Lemma owns_step p k s m q r r' d' m' e' : owns p k s m -> procs s !! q = Some r ->
  (p = q -> forall i, sentinel_handles r !! k = Some i -> sentinel_handles r' !! k = Some i) ->
  paths d' !! sentinel_of k = paths (directory s) !! sentinel_of k -> m' !! k = Some e' -> sentinel_path e' = Some (sentinel_of k) ->
  owns p k (mkSystem (<[q := r']> (procs s)) d') m'.
Proof.
  intros (rp & i & e & H1 & H2 & H3 & H4 & H5) Hr Hh Hp Hm Hs. destruct (decide (p = q)) as [->|Hne].
  - rewrite H1 in Hr. injection Hr as ->. exists r', i, e'. cbn [procs directory]. rewrite lookup_insert_eq, Hp. split_and!; auto.
  - exists rp, i, e'. cbn [procs directory]. rewrite lookup_insert_ne, Hp by done. by split_and!.
Qed.

(** What one event does to an owned row: the system stays consistent, the row is gone
    exactly after an event that removes it, and its owner keeps it otherwise, unless it is
    the owner that ends. *)
Definition row_fate (p : nat) (k : ServiceKey) (m : EntryMap) (ev : event) (s' : system) : Prop :=
  exists m', consistent s' m' /\ (m' !! k = None <-> removes k m ev) /\
    (~ removes k m ev -> ev <> ECrash p -> owns p k s' m').

Lemma row_event p k s m q env c s' : consistent s m -> owns p k s m -> proper (ERow q env c) -> sys_event (ERow q env c) s = Some s' ->
  row_fate p k m (ERow q env c) s'.
Proof.
  intros Hc Ho (Hq & Hok) He. destruct (run_in_proc _ _ _ _ He) as [r Hr]. cbn [sys_event] in He. pose proof Hc as [Hs H1 H2 H3 Hplain H4].
  pose proof (exec_row_ok registry_dir path_join timeout env c r (directory s) m Hq Hok Hs) as G.
  pose proof (durable_keyed m (stores_durable _ m Hs)) as Hkey. pose proof Ho as (rp & i & e & O1 & O2 & O3 & O4 & O5).
  pose proof (fun k' e' => call_sentinels env c m k' e' Hkey) as Hcs.
  pose proof (call_keeps_row env c m k e Hkey O4) as Hkeep.
  assert (Hrem : removes k m (ERow q env c) <-> match c with CCleanup t => stale_row env t e = true | _ => False end).
  { destruct c; cbn [removes]; try done. rewrite O4. split; [by intros (x & [= <-] & H)|eauto]. }
  destruct (call_rows env c m) as [m' v]. cbn [fst] in *. destruct G as (r' & d' & G0 & G1 & G2 & G3 & G4 & G5 & _).
  rewrite (run_in_eq _ _ _ _ _ _ _ Hr G0) in He. injection He as <-. exists m'. rewrite Hrem. split; [|split; [exact Hkeep|]].
  - apply (consistent_step s m q r r' d' m' k Hc Hr G1).
    + intros k' j Hj. rewrite G3 in Hj. rewrite G5. split; [exact (H1 _ _ _ _ Hr Hj)|by left].
    + intros p' r0 k' j _ Hp Hj. rewrite G5. exact (H1 _ _ _ _ Hp Hj).
    + intros k' e0 x Hx Hp. destruct (Hcs k' e0 Hx) as (e1 & E1 & E2). eapply H3; [exact E1|congruence].
    + intros k' e0 Hx. destruct (Hcs k' e0 Hx) as (e1 & E1 & _). by eapply Hplain.
    + intros x x' j. rewrite G4. apply H4.
  - intros Hn _. rewrite <- Hkeep in Hn. destruct (m' !! k) as [e'|] eqn:Em; [|done].
    destruct (Hcs k e' Em) as (e1 & E1 & E2). assert (e1 = e) by congruence. subst e1.
    apply (owns_step p k s m q r r' d' m' e' Ho Hr); [intros _ j Hj; by rewrite G3|by rewrite G4|done|by rewrite E2].
Qed.

(** The sentinel paths that go with rows are those of their keys. *)
Lemma freed_named ks m x : (forall k e q, m !! k = Some e -> sentinel_path e = Some q -> q = sentinel_of k) -> x ∈ freed_paths ks m ->
  exists k e, k ∈ ks /\ m !! k = Some e /\ x = sentinel_of k.
Proof.
  intros Hn Hx. apply list_elem_of_omap in Hx as (k & Hk & Hx). destruct (m !! k) as [e|] eqn:E; [|done]. cbn in Hx. eauto 6.
Qed.

Lemma freed_held ks h j : j ∈ freed_locks ks h <-> exists k, k ∈ ks /\ h !! k = Some j.
Proof. unfold freed_locks. rewrite elem_of_list_to_set, list_elem_of_omap. done. Qed.

Context (Hinj : forall k k', plain_key k -> plain_key k' -> sentinel_of k = sentinel_of k' -> k = k').

(** The owner's lock keeps an eviction from taking the owner for dead. *)
Lemma owned_row_dead p k s m q r e env : consistent s m -> owns p k s m -> procs s !! q = Some r -> m !! k = Some e ->
  row_dead env (mkFileRegistry m (sentinel_handles r) (snd <$> registry_file (directory s)), directory s) e = host_dead env e.
Proof.
  intros [Hs H1 _ _ _ _] (rp & i & e0 & O1 & O2 & O3 & O4 & O5) Hr Hk. rewrite O4 in Hk. injection Hk as ->.
  unfold row_dead. assert (owner_dead env (mkFileRegistry m (sentinel_handles r) (snd <$> registry_file (directory s)), directory s) e = false) as ->; [|done].
  unfold owner_dead. rewrite O5. unfold sentinel_is_dead. cbn [fst snd sentinel_handles]. rewrite (durable_keyed m (stores_durable _ m Hs) k e O4), O3.
  rewrite (bool_decide_false (i ∉ _)) by (intros Hn; apply Hn; exact (H1 _ _ _ _ O1 O2)). by destruct (bool_decide _), (probe_fault env (sentinel_of k)).
Qed.

Lemma prune_event p k s m q env s' : consistent s m -> owns p k s m -> proper (EPrune q env) -> sys_event (EPrune q env) s = Some s' ->
  row_fate p k m (EPrune q env) s'.
Proof.
  intros Hc Ho Hq He. destruct (run_in_proc _ _ _ _ He) as [r Hr]. cbn [sys_event] in He. pose proof Hc as [Hs H1 H2 H3 Hplain H4].
  destruct (prune_exact env r (directory s) m Hq Hs) as (r' & d' & ks & G0 & Gnd & Gk & G1 & G2 & G3 & G4 & G5).
  rewrite (run_in_eq _ _ _ _ _ _ _ Hr G0) in He. injection He as <-.
  pose proof Ho as (rp & i & e & O1 & O2 & O3 & O4 & O5).
  pose proof (owned_row_dead p k s m q r e env Hc Ho Hr O4) as Hdead. cbv zeta in G1, Gk.
  set (m' := base.filter _ m) in *.
  assert (Hrem : removes k m (EPrune q env) <-> host_dead env e = true) by (cbn [removes]; rewrite O4; split; [by intros (x & [= <-] & ?)|eauto]).
  assert (Hm' : host_dead env e = false -> m' !! k = Some e) by (intros Hh; apply map_lookup_filter_Some; split; [done|cbn; congruence]).
  assert (Hk : host_dead env e = false -> k ∉ ks) by (intros Hh Hk; apply Gk in Hk as (e0 & E & Hd); congruence).
  exists m'. rewrite Hrem. split; [|split].
  - apply (consistent_step s m q r r' d' m' k Hc Hr G1).
    + intros k' j Hj. rewrite G3 in Hj. apply map_lookup_filter_Some in Hj as [Hj Hk']. cbn in Hk'. split; [|by left].
      rewrite G5. apply elem_of_difference. split; [exact (H1 _ _ _ _ Hr Hj)|]. rewrite freed_held. intros (k2 & Hk2 & Hj2).
      destruct (H2 _ _ _ _ _ _ _ Hr Hj Hr Hj2) as [_ ->]. done.
    + intros p' r0 k' j Hne Hp Hj. rewrite G5. apply elem_of_difference. split; [exact (H1 _ _ _ _ Hp Hj)|]. rewrite freed_held. intros (k2 & Hk2 & Hj2).
      by destruct (H2 _ _ _ _ _ _ _ Hp Hj Hr Hj2).
    + intros k' e0 x Hx. apply map_lookup_filter_Some in Hx as [Hx _]. by eapply H3.
    + intros k' e0 Hx. apply map_lookup_filter_Some in Hx as [Hx _]. by eapply Hplain.
    + intros x x' j. rewrite !G4. destruct (decide _); [done|]. destruct (decide _); [done|]. apply H4.
  - split.
    + intros Hn. destruct (host_dead env e) eqn:Eh; [done|]. by rewrite (Hm' eq_refl) in Hn.
    + intros Hh. apply map_lookup_filter_None. right. intros x Hx. rewrite O4 in Hx. injection Hx as <-. cbn. congruence.
  - intros Hn%not_true_is_false _. specialize (Hm' Hn). specialize (Hk Hn).
    apply (owns_step p k s m q r r' d' m' e Ho Hr); try done.
    + intros _ j Hj. rewrite G3. apply map_lookup_filter_Some. done.
    + rewrite G4. destruct (decide _) as [Hx|]; [|done]. apply (freed_named _ _ _ H3) in Hx as (k2 & e2 & Hk2 & He2 & Hx). apply Hinj in Hx; [by subst k2|by eapply Hplain..].
Qed.

Lemma deregister_event p k s m q env k' s' : consistent s m -> owns p k s m -> proper (EDeregister q env k') ->
  sys_event (EDeregister q env k') s = Some s' -> row_fate p k m (EDeregister q env k') s'.
Proof.
  intros Hc Ho Hq He. destruct (run_in_proc _ _ _ _ He) as [r Hr]. cbn [sys_event] in He. pose proof Hc as [Hs H1 H2 H3 Hplain H4].
  destruct (deregister_ok env k' r (directory s) m Hq Hs) as (r' & d' & G0 & G1 & G2 & G3 & G4 & G5).
  rewrite (run_in_eq _ _ _ _ _ _ _ Hr G0) in He. injection He as <-.
  pose proof Ho as (rp & i & e & O1 & O2 & O3 & O4 & O5).
  assert (Hkept : forall p0 r0 k0 j, procs s !! p0 = Some r0 -> sentinel_handles r0 !! k0 = Some j -> (p0 = q -> k0 <> k') -> j ∈ locked d').
  { intros p0 r0 k0 j Hp Hj Hd. rewrite G5. unfold kept_locks. destruct (sentinel_handles r !! k') as [j'|] eqn:E; [|exact (H1 _ _ _ _ Hp Hj)].
    apply elem_of_difference. split; [exact (H1 _ _ _ _ Hp Hj)|]. rewrite elem_of_singleton. intros ->. destruct (H2 _ _ _ _ _ _ _ Hp Hj Hr E) as [-> ->]. by apply Hd. }
  exists (base.delete k' m). split; [|split; [cbn [removes]; rewrite lookup_delete_None, O4; split; [by intros [|]|auto]|]].
  - apply (consistent_step s m q r r' d' _ k Hc Hr G1).
    + intros k0 j Hj. rewrite G3 in Hj. apply lookup_delete_Some in Hj as [Hn Hj]. split; [|by left]. eapply Hkept; [exact Hr|exact Hj|done].
    + intros p' r0 k0 j Hnp Hp Hj. eapply Hkept; [exact Hp|exact Hj|done].
    + intros k0 e0 x Hx. apply lookup_delete_Some in Hx as [_ Hx]. by eapply H3.
    + intros k0 e0 Hx. apply lookup_delete_Some in Hx as [_ Hx]. by eapply Hplain.
    + intros x x' j. rewrite G4. destruct (m !! k' ≫= sentinel_path); [|apply H4]. rewrite !lookup_delete_Some. intros [_ ?] [_ ?]. by eapply H4.
  - cbn [removes]. intros Hne _. apply (owns_step p k s m q r r' d' _ e Ho Hr); try done.
    + intros _ j Hj. rewrite G3. by rewrite lookup_delete_ne.
    + rewrite G4. destruct (m !! k') as [e0|] eqn:E; [|done]. cbn. destruct (sentinel_path e0) as [x|] eqn:Ex; [|done].
      rewrite (H3 _ _ _ E Ex). apply lookup_delete_ne. intros Hx. apply Hinj in Hx; [done|by eapply Hplain..].
    + by rewrite lookup_delete_ne.
Qed.

(** A registration that answers found its sentinel its own already, or free: a sentinel that
    another process holds makes it wait. *)
Lemma register_answers env e r d m s' v : quiet timeout env -> stores d m -> register registry_dir path_join timeout env e (r, d) = (s', Ret (Ok v)) ->
  (is_Some (sentinel_handles r !! key e) /\ is_Some (paths d !! sentinel_of (key e))) \/
  (sentinel_fault env = false /\ (sentinel_handles r !! key e = None \/ paths d !! sentinel_of (key e) = None) /\
   forall i, paths d !! sentinel_of (key e) = Some i -> i ∉ locked d).
Proof.
  intros Hq Hs H. unfold register in H. destruct (negb _); [done|].
  apply transaction_answers with (m := m) in H as (s2 & ch & H); [|done..]. unfold register_op in H. cbv zeta in H.
  unfold bind at 1 in H. unfold get at 1 in H. cbn [fst snd sentinel_handles] in H.
  destruct (sentinel_handles r !! key e) as [j|] eqn:Ej, (paths d !! sentinel_of (key e)) as [i|] eqn:Ei; [by left|right..]; cbn [is_Some] in H.
  all: rewrite ?(bool_decide_false (is_Some None)), ?andb_false_r in H by (by intros []); cbn [andb] in H.
  all: apply bind_inv in H as (s1 & x & H & _); apply bind_inv in H as (s3 & u & Hdrop & H); apply bind_inv in H as (s4 & y & H & _).
  all: unfold drop_handle in Hdrop; cbn [sentinel_handles] in Hdrop; rewrite Ej in Hdrop; injection Hdrop as <- _; unfold create_sentinel in H;
    destruct (sentinel_fault env); [done|]; (split; [done|]); (split; [auto|]); intros i0 Hi0; try discriminate Hi0.
  injection Hi0 as <-. rewrite Ei in H. cbn [default from_option id locked set_paths] in H. by destruct (decide _).
Qed.

Lemma register_event p k s m q env e0 s' : consistent s m -> owns p k s m -> proper (ERegister q env e0) ->
  sys_event (ERegister q env e0) s = Some s' -> row_fate p k m (ERegister q env e0) s'.
Proof.
  intros Hc Ho (Hq & Hd & Hpk) He. destruct (run_in_proc _ _ _ _ He) as [r Hr]. cbn [sys_event] in He. pose proof Hc as [Hs H1 H2 H3 Hplain H4].
  pose proof Ho as (rp & i & e & O1 & O2 & O3 & O4 & O5). set (e1 := set_sentinel (Some (sentinel_of (key e0))) e0).
  assert (He1 : sentinel_path e1 = Some (sentinel_of (key e0))) by (by destruct e0).
  assert (Hnamed : forall k' e2 x, <[key e0 := e1]> m !! k' = Some e2 -> sentinel_path e2 = Some x -> x = sentinel_of k').
  { intros k' e2 x Hx. destruct (decide (k' = key e0)) as [->|Hne]; [rewrite lookup_insert_eq in Hx; injection Hx as <-; by rewrite He1; intros [= <-]|].
    rewrite lookup_insert_ne in Hx by done. by eapply H3. }
  assert (Hplain' : forall k' e2, <[key e0 := e1]> m !! k' = Some e2 -> plain_key k').
  { intros k' e2 Hx. destruct (decide (k' = key e0)) as [->|Hne]; [done|]. rewrite lookup_insert_ne in Hx by done. by eapply Hplain. }
  assert (Hrow : exists e2, <[key e0 := e1]> m !! k = Some e2 /\ sentinel_path e2 = Some (sentinel_of k)).
  { destruct (decide (k = key e0)) as [->|Hne]; [rewrite lookup_insert_eq; eauto|rewrite lookup_insert_ne by done; eauto]. }
  destruct Hrow as (e2 & Hrow & Hrow').
  assert (Hrem : <[key e0 := e1]> m !! k = None <-> removes k m (ERegister q env e0)) by (rewrite Hrow; by split).
  assert (Hcase := He). unfold run_in in Hcase. rewrite Hr in Hcase.
  destruct (register registry_dir path_join timeout env e0 (r, directory s)) as [[rr dd] [[vv|ee]| |]] eqn:Hcase'; try done. clear Hcase.
  destruct (register_answers _ _ _ _ _ _ _ Hq Hs Hcase') as [[[j Hj] [j' Hj']]|(Hf & Hnew & Hfree)]; clear rr dd vv Hcase'.
  - destruct (register_reuse env e0 r (directory s) m j j' Hq Hs Hd Hj Hj') as (r' & d' & G0 & G1 & G2 & G3 & G4 & G5).
    rewrite (run_in_eq _ _ _ _ _ _ _ Hr G0) in He. injection He as <-. exists (<[key e0 := e1]> m). split; [|split; [exact Hrem|intros _ _]].
    + apply (consistent_step s m q r r' d' _ k Hc Hr G1); [..|done|done|rewrite G4; apply H4].
      * intros k' x Hx. rewrite G3 in Hx. rewrite G5. split; [exact (H1 _ _ _ _ Hr Hx)|by left].
      * intros p' r0 k' x _ Hp Hx. rewrite G5. exact (H1 _ _ _ _ Hp Hx).
    + apply (owns_step p k s m q r r' d' _ e2 Ho Hr); [intros _ x Hx; by rewrite G3|by rewrite G4|done|done].
  - destruct (register_new env e0 r (directory s) m Hq Hs Hd Hf Hnew Hfree) as (r' & d' & n & G0 & G1 & G2 & G3 & G4 & G5 & G6 & G7).
    rewrite (run_in_eq _ _ _ _ _ _ _ Hr G0) in He. injection He as <-. exists (<[key e0 := e1]> m).
    assert (Hkept : forall p0 r0 k0 x, procs s !! p0 = Some r0 -> sentinel_handles r0 !! k0 = Some x -> (p0 = q -> k0 <> key e0) -> x ∈ kept_locks r (directory s) (key e0)).
    { intros p0 r0 k0 x Hp Hx Hdif. unfold kept_locks. destruct (sentinel_handles r !! key e0) as [y|] eqn:E; [|exact (H1 _ _ _ _ Hp Hx)].
      apply elem_of_difference. split; [exact (H1 _ _ _ _ Hp Hx)|]. rewrite elem_of_singleton. intros ->. destruct (H2 _ _ _ _ _ _ _ Hp Hx Hr E) as [-> ->]. by apply Hdif. }
    assert (Hk : key e0 <> k).
    { intros Hk. rewrite Hk in Hfree. apply (Hfree i O3). exact (H1 _ _ _ _ O1 O2). }
    split; [|split; [exact Hrem|intros _ _]].
    + apply (consistent_step s m q r r' d' _ (key e0) Hc Hr G1); [..|done|done|].
      * intros k' x Hx. rewrite G3 in Hx. rewrite G5. apply lookup_insert_Some in Hx as [[<- <-]|[Hne Hx]].
        -- split; [set_solver|]. right. split; [done|]. intros p0 r0 k0 Hp Hx. destruct (decide (p0 = q /\ k0 = key e0)) as [|Hn]; [done|].
           destruct G6. eapply Hkept; [exact Hp|exact Hx|]. intros -> ->. by apply Hn.
        -- split; [apply elem_of_union_r; apply (Hkept _ _ _ _ Hr Hx); by intros _ ->|by left].
      * intros p' r0 k' x Hne Hp Hx. rewrite G5. apply elem_of_union_r. apply (Hkept _ _ _ _ Hp Hx). by intros ->.
      * intros x x' y. rewrite G4. rewrite !lookup_insert_Some. intros [[<- <-]|[Hn Hx]] [[<- E]|[Hn' Hx']]; try done.
        -- destruct G7 as [G7|G7]; [by eapply H4|by destruct (G7 x')].
        -- subst y. destruct G7 as [G7|G7]; [by eapply H4|by destruct (G7 x)].
        -- by eapply H4.
    + apply (owns_step p k s m q r r' d' _ e2 Ho Hr); try done.
      * intros _ x Hx. rewrite G3. by rewrite lookup_insert_ne.
      * rewrite G4. apply lookup_insert_ne. intros Hx. apply Hinj in Hx; [done|done|by eapply Hplain].
Qed.

Lemma crash_event p k s m q s' : consistent s m -> owns p k s m -> sys_event (ECrash q) s = Some s' ->
  row_fate p k m (ECrash q) s'.
Proof.
  intros [Hs H1 H2 H3 Hplain H4] (rp & i & e & O1 & O2 & O3 & O4 & O5) He. cbn [sys_event] in He.
  destruct (procs s !! q) as [r|] eqn:Hr; [|done]. injection He as <-.
  exists m. split; [constructor; cbn [directory procs]; try done|split; [by rewrite O4|]].
  - intros p' r0 k' j Hp Hj. apply lookup_delete_Some in Hp as [Hn Hp]. cbn [locked set_locked]. apply elem_of_difference. split; [exact (H1 _ _ _ _ Hp Hj)|].
    unfold held_inodes. rewrite elem_of_list_to_set, list_elem_of_fmap. intros ([k2 j2] & -> & Hin). apply elem_of_map_to_list in Hin.
    by destruct (H2 _ _ _ _ _ _ _ Hp Hj Hr Hin).
  - intros p1 r1 k1 p2 r2 k2 j Hp1 Hj1 Hp2 Hj2. apply lookup_delete_Some in Hp1 as [_ Hp1], Hp2 as [_ Hp2]. by eapply H2.
  - intros _ Hne. exists rp, i, e. cbn [procs directory]. rewrite lookup_delete_ne by congruence. by split_and!.
Qed.

Lemma event_fate p k s m ev s' : consistent s m -> owns p k s m -> proper ev -> sys_event ev s = Some s' -> row_fate p k m ev s'.
Proof.
  intros Hc Ho Hp He. destruct ev as [q env c|q env|q env e|q env k'|q];
    eauto using row_event, prune_event, register_event, deregister_event, crash_event.
Qed.

Lemma fate_cases p k m ev : removes k m ev \/ ev = ECrash p \/ (~ removes k m ev /\ ev <> ECrash p).
Proof.
  assert (Hex : forall f : ServiceEntry -> bool, (exists e, m !! k = Some e /\ f e = true) \/ ~ (exists e, m !! k = Some e /\ f e = true)).
  { intros f. destruct (m !! k) as [e|] eqn:E; [|right; by intros (? & ? & _)].
    destruct (f e) eqn:Ef; [left; eauto|right]. intros (x & [= <-] & Hx). congruence. }
  destruct ev as [q env c|q env|q env e|q env k'|q]; cbn [removes].
  - destruct c; try (right; right; split; [tauto|done]).
    match goal with |- context [stale_row env ?t] => destruct (Hex (stale_row env t)) end; [by left|right; right; split; [tauto|congruence]].
  - destruct (Hex (host_dead env)); [by left|right; right; split; [tauto|congruence]].
  - right; right. split; [tauto|congruence].
  - destruct (decide (k' = k)); [by left|right; right; split; [tauto|congruence]].
  - destruct (decide (q = p)) as [->|]; [right; by left|right; right]. split; [tauto|congruence].
Qed.

(** Events one after the other. *)
Fixpoint sys_events (evs : list event) (s : system) : option system :=
  match evs with [] => Some s | ev :: evs => sys_event ev s ≫= sys_events evs end.

(** C17: a live row stays: whatever calls whatever processes make, the row of a process that
    holds its sentinel is in the registry, with its owner's lock, as long as the owner lives,
    until the first call that removes it; such a call is exactly a deregistration of the
    row, an eviction of stale rows that finds its heartbeat too old (the owner's lock does
    not protect it from this one), or an eviction of dead rows that finds its bound host
    dead.  Registrations, of the same instance by other processes too, other calls, dead
    pids and crashes of other processes do not remove it. *)
Theorem live_row_kept (p : nat) (k : ServiceKey) (s : system) (m : EntryMap)
    (Hc : consistent s m) (Ho : owns p k s m) :
  (forall ev s', proper ev -> sys_event ev s = Some s' ->
    exists m', consistent s' m' /\ (m' !! k = None <-> removes k m ev) /\
      (~ removes k m ev -> ev <> ECrash p -> owns p k s' m')) /\
  (forall evs s', Forall proper evs -> sys_events evs s = Some s' ->
    (exists m', consistent s' m' /\ owns p k s' m' /\ is_Some (m' !! k)) \/
    exists before ev after s1 m1, evs = before ++ ev :: after /\ sys_events before s = Some s1 /\
      consistent s1 m1 /\ owns p k s1 m1 /\ (removes k m1 ev \/ ev = ECrash p)).
Proof.
  split; [intros ev s' Hp He; by apply (event_fate p k s m)|].
  intros evs. revert s m Hc Ho. induction evs as [|ev evs IH]; intros s m Hc Ho s' Hp He.
  { injection He as <-. left. exists m. split; [done|]. split; [done|]. destruct Ho as (r & i & e & _ & _ & _ & H & _). by eexists. }
  apply Forall_cons in Hp as [Hp Hps]. cbn [sys_events] in He. apply bind_Some in He as (s1 & He & Hrest).
  destruct (event_fate p k s m ev s1 Hc Ho Hp He) as (m1 & Hc1 & _ & Ho1).
  assert (Hdec : removes k m ev \/ ev = ECrash p \/ (~ removes k m ev /\ ev <> ECrash p)) by apply fate_cases.
  destruct Hdec as [Hr|[Hr|[Hr Hn]]]; [right; exists [], ev, evs, s, m; by split_and!; auto..|].
  destruct (IH s1 m1 Hc1 (Ho1 Hr Hn) s' Hps Hrest) as [H|(before & ev' & after & s2 & m2 & -> & Hb & H)]; [by left|right].
  exists (ev :: before), ev', after, s2, m2. split; [done|]. cbn [sys_events]. by rewrite He.
Qed.

(** When the owner ends without giving its row up, the next eviction by anyone removes
    the row and its sentinel file, even if another process has taken the owner's pid. *)
Theorem crash_evicts (p q : nat) (k : ServiceKey) (s s1 s2 : system) (m : EntryMap) (env : Env)
    (Hc : consistent s m) (Ho : owns p k s m) (Hq : quiet timeout env) (Hprobe : probe_fault env (sentinel_of k) = false)
    (Hother : forall r, procs s !! q = Some r -> sentinel_handles r !! k = None)
    (H1 : sys_event (ECrash p) s = Some s1) (H2 : sys_event (EPrune q env) s1 = Some s2) :
  exists m2, stores (directory s2) m2 /\ m2 !! k = None /\ paths (directory s2) !! sentinel_of k = None.
Proof.
  destruct Hc as [Hs C1 C2 C3 _ C4], Ho as (r & i & e & O1 & O2 & O3 & O4 & O5). cbn [sys_event] in H1. rewrite O1 in H1. injection H1 as <-.
  destruct (run_in_proc _ _ _ _ H2) as [rq Hrq]. cbn [procs] in Hrq. apply lookup_delete_Some in Hrq as [Hne Hrq].
  set (d1 := set_locked _ _) in *. assert (Hs1 : stores d1 m) by exact Hs.
  destruct (prune_exact env rq d1 m Hq Hs1) as (r' & d' & ks & G0 & Gnd & Gk & G1 & G2 & G3 & G4 & G5).
  assert (Hdead : row_dead env (mkFileRegistry m (sentinel_handles rq) (snd <$> registry_file d1), d1) e = true).
  { unfold row_dead, owner_dead. rewrite O5. unfold sentinel_is_dead. cbn [fst snd sentinel_handles].
    rewrite (durable_keyed m (stores_durable _ m Hs) k e O4), (Hother rq Hrq), Hprobe. rewrite bool_decide_false by (by intros []).
    change (paths d1) with (paths (directory s)). rewrite O3. rewrite bool_decide_true; [done|]. unfold d1. cbn [locked set_locked].
    intros Hin. apply elem_of_difference in Hin as [_ Hin]. apply Hin. unfold held_inodes. rewrite elem_of_list_to_set. apply list_elem_of_fmap.
    exists (k, i). split; [done|]. by apply elem_of_map_to_list. }
  assert (Hk : k ∈ ks) by (apply Gk; eauto).
  cbn [sys_event] in H2. rewrite (run_in_eq q _ _ rq r' d' (length ks)) in H2; [|cbn [procs]; by rewrite lookup_delete_ne|exact G0].
  injection H2 as <-. cbn [directory]. eexists. split; [exact G1|]. split.
  - apply map_lookup_filter_None. right. intros e0 He0. rewrite O4 in He0. injection He0 as <-. cbn [fst snd]. intros Hd. rewrite Hdead in Hd. discriminate Hd.
  - rewrite G4. rewrite decide_True; [done|]. apply list_elem_of_omap. exists k. split; [done|]. rewrite O4. done.
Qed.

(** ** Leases *)

(** What an event leaves in the file. *)
Definition event_rows (ev : event) (s : system) (m m' : EntryMap) : Prop :=
  match ev with
  | ERow _ env c => m' = (call_rows env c m).1
  | EPrune q env => exists r, procs s !! q = Some r /\
      m' = base.filter (fun ke : ServiceKey * ServiceEntry => row_dead env (mkFileRegistry m (sentinel_handles r) (snd <$> registry_file (directory s)), directory s) ke.2 = false) m
  | ERegister _ _ e => m' = <[key e := set_sentinel (Some (sentinel_of (key e))) e]> m
  | EDeregister _ _ k => m' = base.delete k m
  | ECrash _ => m' = m
  end.

Lemma event_stores s m ev s' : stores (directory s) m -> proper ev -> sys_event ev s = Some s' ->
  exists m', stores (directory s') m' /\ event_rows ev s m m'.
Proof.
  intros Hs Hp He. destruct ev as [q env c|q env|q env e|q env k|q]; cbn [proper event_rows] in *.
  - destruct Hp as [Hq Hok]. destruct (run_in_proc _ _ _ _ He) as [r Hr]. cbn [sys_event] in He.
    pose proof (exec_row_ok registry_dir path_join timeout env c r (directory s) m Hq Hok Hs) as G.
    destruct (call_rows env c m) as [m' v]. destruct G as (r' & d' & G0 & G1 & _). rewrite (run_in_eq _ _ _ _ _ _ _ Hr G0) in He. injection He as <-. by exists m'.
  - destruct (run_in_proc _ _ _ _ He) as [r Hr]. cbn [sys_event] in He. destruct (prune_exact env r (directory s) m Hp Hs) as (r' & d' & ks & G0 & _ & _ & G1 & _).
    rewrite (run_in_eq _ _ _ _ _ _ _ Hr G0) in He. injection He as <-. eexists. split; [exact G1|]. by exists r.
  - destruct Hp as (Hq & Hd & _). destruct (run_in_proc _ _ _ _ He) as [r Hr]. cbn [sys_event] in He.
    assert (Hcase := He). unfold run_in in Hcase. rewrite Hr in Hcase.
    destruct (register registry_dir path_join timeout env e (r, directory s)) as [[rr dd] [[vv|ee]| |]] eqn:Hcase'; try done. clear Hcase.
    destruct (register_answers _ _ _ _ _ _ _ Hq Hs Hcase') as [[[j Hj] [j' Hj']]|(Hf & Hnew & Hfree)]; clear rr dd vv Hcase'.
    + destruct (register_reuse env e r (directory s) m j j' Hq Hs Hd Hj Hj') as (r' & d' & G0 & G1 & _).
      rewrite (run_in_eq _ _ _ _ _ _ _ Hr G0) in He. injection He as <-. eauto.
    + destruct (register_new env e r (directory s) m Hq Hs Hd Hf Hnew Hfree) as (r' & d' & n & G0 & G1 & _).
      rewrite (run_in_eq _ _ _ _ _ _ _ Hr G0) in He. injection He as <-. eauto.
  - destruct (run_in_proc _ _ _ _ He) as [r Hr]. cbn [sys_event] in He. destruct (deregister_ok env k r (directory s) m Hp Hs) as (r' & d' & G0 & G1 & _).
    rewrite (run_in_eq _ _ _ _ _ _ _ Hr G0) in He. injection He as <-. eauto.
  - cbn [sys_event] in He. destruct (procs s !! q) as [r|]; [|done]. injection He as <-. by exists m.
Qed.

(** The events that end the lease of row [k], [e]: the calls that do, the eviction of the
    dead row, its deregistration, and registering the instance anew. *)
Definition ends_lease (k : ServiceKey) (e : ServiceEntry) (s : system) (m : EntryMap) (ev : event) : Prop :=
  match ev with
  | ERow _ env c => call_ends_lease env c k e
  | EPrune q env => exists r, procs s !! q = Some r /\
      row_dead env (mkFileRegistry m (sentinel_handles r) (snd <$> registry_file (directory s)), directory s) e = true
  | ERegister _ _ e' => key e' = k
  | EDeregister _ _ k' => k' = k
  | ECrash _ => False
  end.

Lemma ends_lease_dec k e s m ev : ends_lease k e s m ev \/ ~ ends_lease k e s m ev.
Proof.
  destruct ev as [q env c|q env|q env e'|q env k'|q]; cbn [ends_lease]; [| |destruct (decide (key e' = k)); auto|destruct (decide (k' = k)); auto|auto].
  - destruct c as [| | | | |dcc id owner job ttl|k' owner|t]; cbn [call_ends_lease]; auto.
    + destruct (lease_expired (clock env) e); auto.
    + destruct (decide (k' = k /\ owner = lease_owner e)); auto.
    + destruct (stale_row env t e); auto.
  - destruct (procs s !! q) as [r|] eqn:E; [|right; by intros (? & ? & _)].
    destruct (row_dead env (mkFileRegistry m (sentinel_handles r) (snd <$> registry_file (directory s)), directory s) e) eqn:Ed; [left; eauto|right].
    intros (x & [= <-] & Hx). congruence.
Qed.

(** The value a call of a history answers. *)
Definition row_answer (q : nat) (env : Env) (c : row_call) (s : system) : option call_value :=
  match procs s !! q with
  | Some r => match exec_row registry_dir path_join timeout env c (r, directory s) with (_, Ret (Ok v)) => Some v | _ => None end
  | None => None
  end.

(** The event hands row [k] out. *)
Definition hands_out (k : ServiceKey) (ev : event) (s : system) : Prop :=
  match ev with
  | ERow q env c => exists v, row_answer q env c s = Some v /\ key <$> leased c v = Some k
  | _ => False
  end.

Lemma lease_event s m k e ev s' : stores (directory s) m -> m !! k = Some e -> is_Some (lease_owner e) -> proper ev -> sys_event ev s = Some s' ->
  ~ ends_lease k e s m ev ->
  ~ hands_out k ev s /\ exists m' e', stores (directory s') m' /\ m' !! k = Some e' /\ same_lease e e'.
Proof.
  intros Hs Hk Ho Hp He Hn. destruct (event_stores s m ev s' Hs Hp He) as (m' & Hs' & Hm'). pose proof (durable_keyed m (stores_durable _ m Hs)) as Hkey.
  destruct ev as [q env c|q env|q env e1|q env k'|q]; cbn [proper ends_lease event_rows hands_out] in *.
  - destruct (same_lease_call env c m k e Hkey Hk Ho Hn) as [(e' & H1 & H2) H3]. subst m'. split; [|eauto].
    destruct Hp as [Hq Hok]. intros (v & Hv & Hkv). unfold row_answer in Hv. destruct (procs s !! q) as [r|]; [|done].
    pose proof (exec_row_ok registry_dir path_join timeout env c r (directory s) m Hq Hok Hs) as G.
    destruct (call_rows env c m) as [m' v']. destruct G as (r' & d' & G0 & _). rewrite G0 in Hv. injection Hv as ->. done.
  - split; [tauto|]. destruct Hm' as (r & Hr & ->). eexists _, e. split; [exact Hs'|]. split; [|done]. apply map_lookup_filter_Some. split; [done|]. cbn.
    apply not_true_is_false. intros Hd. apply Hn. eauto.
  - split; [tauto|]. subst m'. eexists _, e. split; [exact Hs'|]. split; [|done]. by rewrite lookup_insert_ne.
  - split; [tauto|]. subst m'. eexists _, e. split; [exact Hs'|]. split; [|done]. by rewrite lookup_delete_ne.
  - split; [tauto|]. subst m'. by exists m, e.
Qed.


End Life.
