(* ===== verification/RegistryFaults.v ===== *)
(** What the service registry does when something goes wrong: a writer that ignores the
    lock, failing reads and writes, files it cannot read, and the reads that take no lock. *)

From S2P Require Import Prelude Text Json GatewayNaming Capability TransportAddress ServiceEntry EntryFormat EntryProps FileRegistry FileRegistryProps RegistryCalls.

Local Open Scope Z_scope.

(** ** Merging *)

(** What a key holds after a merge of a call's rows with those of a writer that ignored
    the lock. *)
Definition merge_row (b disk local : option ServiceEntry) : option ServiceEntry :=
  match b, local with
  | Some _, None => None
  | None, None => disk
  | _, Some l =>
      if decide (b = Some l) then (match disk with Some x => Some x | None => Some l end) else Some l
  end.

Lemma merged_rows_lookup baseline disk local k : merged_rows baseline disk local !! k = merge_row (baseline !! k) (disk !! k) (local !! k).
Proof.
  unfold merged_rows. set (changed := base.filter _ local). set (gone := base.filter _ baseline).
  assert (Hg : gone !! k = match local !! k with None => baseline !! k | Some _ => None end).
  { destruct (gone !! k) as [b|] eqn:E.
    - apply map_lookup_filter_Some in E as [E1 E2]. cbn in E2. by rewrite E2.
    - apply map_lookup_filter_None in E. destruct (local !! k) eqn:El; [done|]. destruct (baseline !! k) as [b|] eqn:Eb; [|done].
      destruct E as [E|E]; [done|]. by destruct (E b eq_refl). }
  assert (Hc : changed !! k = match local !! k with Some l => if decide (baseline !! k = Some l) then None else Some l | None => None end).
  { destruct (changed !! k) as [l|] eqn:E.
    - apply map_lookup_filter_Some in E as [E1 E2]. cbn in E2. rewrite E1. by rewrite decide_False.
    - apply map_lookup_filter_None in E. destruct (local !! k) as [l|] eqn:El; [|done]. destruct (decide _) as [|Hn]; [done|].
      destruct E as [E|E]; [done|]. by destruct (E l eq_refl). }
  assert (Hd : ((changed ∪ (disk ∪ baseline)) ∖ gone) !! k = match gone !! k with Some _ => None | None => (changed ∪ (disk ∪ baseline)) !! k end).
  { destruct (gone !! k) as [g|] eqn:E.
    - apply lookup_difference_None. right. by exists g.
    - destruct ((changed ∪ (disk ∪ baseline)) !! k) as [x|] eqn:Ex; [by apply lookup_difference_Some|apply lookup_difference_None; auto]. }
  rewrite Hd, Hg. rewrite !lookup_union, Hc. unfold merge_row.
  destruct (baseline !! k) as [b|] eqn:Eb, (local !! k) as [l|] eqn:El, (disk !! k) as [x|]; try done;
    try destruct (decide _) as [|]; simplify_eq; done.
Qed.

Section Faults.
Context {uu : UuidText} {ur : UuidReads} {ac : AddressCodec} {hs : HashOrder str} {hv : HashOrder Value} {v5 : UuidV5} {jf : JsonFile} {eo : EntryOrder}.
Context (registry_dir : str) (path_join : str -> str -> str) (timeout : Z).

Lemma merged_durable b x l : durable_map b -> durable_map x -> durable_map l -> durable_map (merged_rows b x l).
Proof.
  intros Hb Hx Hl k e. rewrite merged_rows_lookup. unfold merge_row.
  destruct (b !! k) as [eb|] eqn:Eb, (l !! k) as [el|] eqn:El, (x !! k) as [ex|] eqn:Ex; try done; repeat destruct (decide _); intros [= <-]; eauto.
Qed.

(** A call met by a writer that ignores the lock. *)
Record met (env : Env) (content : str) (t : Z) : Prop := {
  met_mutex : obtains timeout (mutex_tries env);
  met_dir : dir_fault env = false;
  met_open : lock_open_fault env = false;
  met_lock : obtains timeout (lock_tries env);
  met_read w : exists a, (a < READ_ATTEMPTS)%nat /\ read_fails env w a = false;
  met_temp : temp_fault env = None;
  met_rename : exists a, (a < RENAME_ATTEMPTS)%nat /\ rename_fails env a = false;
  met_unlock : unlock_fails env = false;
  met_intruder : intruder env = Some (content, t);
  met_late : late_intruder env = None;
}.

(** A writer that ignores the lock, of an older version, does not lose the call's
    change nor have its own rows lost: a row the call changed is the call's, a row it
    deleted is gone, any other row is as that writer left it; but a row the writer deleted
    and the call did not change comes back. *)
Theorem intruder_merged (env : Env) (f : EntryMap -> EntryMap * (bool * bool)) (r : FileRegistry) (d : Directory) (m theirs : EntryMap)
    (content : str) (t : Z) (Hmet : met env content t) (Hs : stores d m)
    (Ht : stores (set_file (Some (content, t)) d) theirs) (Hne : theirs <> m) (Hf : durable_map (f m).1) (Hch : (f m).2.2 = true) :
  exists r' d', with_write_transaction registry_dir path_join timeout env (on_rows f) (r, d) = ((r', d'), Ret (Ok (f m).2.1)) /\
    exists m', stores d' m' /\ services r' = m' /\ forall k, m' !! k = merge_row (m !! k) (theirs !! k) ((f m).1 !! k).
Proof.
  destruct Hmet. destruct (f m) as [m1 [v ch]] eqn:E. cbn [fst snd] in *. subst ch.
  pose proof (stores_durable d m Hs) as Hm. pose proof (stores_durable _ theirs Ht) as Hth.
  set (m' := merged_rows m theirs m1). pose proof (merged_durable m theirs m1 Hm Hth Hf) as Hm'. fold m' in Hm'.
  destruct (map_text m' Hm') as (text & Htext & Hd & Hn). destruct met_rename0 as (a & Ha & Hr).
  set (d1 := set_file (Some (content, t)) d) in *. set (d2 := set_file (Some (text, file_clock env)) d1).
  assert (Hs2 : stores d2 m'). { exists (snd <$> entry_order m'). split_and!; try done. by rewrite listed_map by (by apply durable_keyed). }
  set (r1 := mkFileRegistry m (sentinel_handles r) (snd <$> registry_file d)).
  set (r2 := mkFileRegistry m' (sentinel_handles r) (Some (file_clock env))).
  destruct (read_stores env 1 (set_services m1 r1) d1 theirs (met_read0 1%nat) Ht) as (es & He & Hes).
  destruct (read_stores env 3 r2 d2 m' (met_read0 3%nat) Hs2) as (es3 & He3 & _).
  exists r2, d2. split; [|exists m'; split; [done|]; split; [done|]; intros k; apply merged_rows_lookup].
  unfold with_write_transaction. unfold bind at 1. rewrite (acquire_obtains _ _ _ met_mutex0).
  rewrite met_dir0, met_open0. unfold bind at 1. rewrite (acquire_obtains _ _ _ met_lock0).
  assert (Hb : transaction_body registry_dir path_join env (on_rows f) (r, d) = ((r2, d2), Ret (Ok v))).
  { unfold transaction_body. rewrite (bind_eq _ _ _ _ _ (force_reload_stores env r d m (met_read0 0%nat) Hs)). fold r1.
    unfold bind at 1. unfold get at 1. cbv zeta. cbn [fst]. unfold bind at 1. unfold attempt at 1. unfold on_rows. cbn [services r1]. rewrite E.
    unfold bind at 1. unfold attempt at 1. unfold flush_to_file_after_transaction. unfold bind at 1. unfold get at 1. cbn [fst].
    unfold intrude at 1. rewrite met_intruder0. unfold bind at 1. unfold on_directory at 1. fold d1.
    unfold list_all_in_memory. cbn [set_services services]. unfold reconcile_unlocked_writer_changes. unfold bind at 1 2.
    fold r1. rewrite He. cbv zeta. unfold maps_equal. rewrite Hes, (listed_map m) by (by apply durable_keyed).
    rewrite bool_decide_false by congruence. rewrite (listed_map m1) by (by apply durable_keyed). fold m'. unfold ret at 1. rewrite Htext.
    unfold write_atomic. rewrite met_dir0, met_temp0. unfold bind at 1. rewrite (rename_ok env text _ 0 a) by (done || lia). fold d2.
    unfold replace_services at 1. rewrite (listed_map m') by (by apply durable_keyed). unfold bind at 1. unfold on_registry at 1.
    unfold intrude at 1. rewrite met_late0. unfold bind at 1. unfold on_directory at 1. unfold bind at 1. unfold update_mtime at 1.
    unfold warn_if_post_write_clobbered. unfold bind, attempt. unfold set_mtime, set_services. cbn [services sentinel_handles].
    match goal with |- context [read_entries_from_file env 3 ?s] => change s with (r2, d2) end. by rewrite He3. }
  unfold bind. rewrite Hb. by rewrite met_unlock0.
Qed.

(** ** Failing calls *)

Lemma acquire_cases tries (s : State) : exists o, acquire timeout tries s = (s, o) /\
  match o with Ret (Err e) => e <> RegistryFile UnlockFailed | Ret (Ok _) | Waits => True | Unwinds => False end.
Proof.
  induction tries as [|[[] e] tries IH]; cbn [acquire]; [by eexists|by eexists| |by eexists].
  destruct (timeout <=? e); [by eexists|done].
Qed.

Lemma read_cases env w r d m : stores d m ->
  (exists es, read_entries_from_file env w (r, d) = ((r, d), Ret (Ok es)) /\ entries_to_map es = m) \/
  read_entries_from_file env w (r, d) = ((r, d), Ret (Err (RegistryFile ReadFailed))).
Proof.
  intros Hs.
  assert (Hr : forall n i f, read_with_retry n i (read_fails env w) f = Err (RegistryFile ReadFailed) \/
    exists a, (i <= a < i + n)%nat /\ read_fails env w a = false).
  { induction n as [|n IH]; intros i f; [by left|]. cbn [read_with_retry]. destruct (read_fails env w i) eqn:E; [|right; exists i; split; [lia|done]].
    destruct (IH (S i) f) as [H|(a & Ha & Hf)]; [by left|right; exists a; split; [lia|done]]. }
  destruct (Hr READ_ATTEMPTS 0%nat (registry_file d)) as [H|(a & Ha & Hf)].
  - right. unfold read_entries_from_file, bind at 1, get. cbn [snd]. by rewrite H.
  - left. apply read_stores; [exists a; split; [lia|done]|done].
Qed.

Lemma force_reload_cases env r d m : stores d m ->
  force_reload_from_file env (r, d) =
    ((mkFileRegistry m (sentinel_handles r) (snd <$> registry_file d), d), Ret (Ok (snd <$> entry_order m))) \/
  force_reload_from_file env (r, d) = ((r, d), Ret (Err (RegistryFile ReadFailed))).
Proof.
  intros Hs. unfold force_reload_from_file, load_from_file.
  destruct (read_cases env 0 r d m Hs) as [(es & He & <-)|He]; [left|right]; unfold bind; by rewrite He.
Qed.

Lemma write_cases env content r d :
  write_atomic env content (r, d) = ((r, set_file (Some (content, file_clock env)) d), Ret (Ok tt)) \/
  exists e, write_atomic env content (r, d) = ((r, d), Ret (Err (RegistryFile e))) /\ e <> UnlockFailed.
Proof.
  unfold write_atomic. destruct (dir_fault env); [right; by exists CreateDirFailed|].
  destruct (temp_fault env) as [f|]; [right; by exists (TempFailed f)|].
  assert (Hr : forall n i, rename_retry env n i content (r, d) = ((r, set_file (Some (content, file_clock env)) d), Ret (Ok tt)) \/
    rename_retry env n i content (r, d) = ((r, d), Ret (Err (RegistryFile RenameFailed)))).
  { induction n as [|n IH]; intros i; [by right|]. cbn [rename_retry]. destruct (rename_fails env i); [apply IH|by left]. }
  destruct (Hr RENAME_ATTEMPTS 0%nat) as [H|H]; [by left|right; by exists RenameFailed].
Qed.

(** Giving sentinels up touches neither the rows nor the file. *)
Lemma give_up_all ks r d : exists r' d', for_keys (give_up_sentinel registry_dir path_join) ks (r, d) = ((r', d'), Ret (Ok tt)) /\
  services r' = services r /\ registry_file d' = registry_file d /\
  forall k, k ∉ ks -> sentinel_handles r' !! k = sentinel_handles r !! k.
Proof.
  revert r d. induction ks as [|k ks IH]; intros r d; [by exists r, d|]. cbn [for_keys].
  set (r1 := match sentinel_handles r !! k with Some _ => set_handles (base.delete k (sentinel_handles r)) r | None => r end).
  set (d1 := unlink (sentinel_path_for registry_dir path_join k) (match sentinel_handles r !! k with Some i => unlock_inode i d | None => d end)).
  assert (H : give_up_sentinel registry_dir path_join k (r, d) = ((r1, d1), Ret (Ok tt))).
  { unfold give_up_sentinel, bind, drop_handle, on_directory, r1, d1. by destruct (sentinel_handles r !! k). }
  destruct (IH r1 d1) as (r' & d' & H1 & H2 & H3 & H4). exists r', d'. rewrite (bind_eq _ _ _ _ _ H). split; [done|].
  split; [rewrite H2; unfold r1; by destruct (_ !! k)|]. split; [rewrite H3; unfold d1; by destruct (_ !! k)|].
  intros k' Hk'. apply not_elem_of_cons in Hk' as [Hne Hk']. rewrite H4 by done. unfold r1.
  destruct (sentinel_handles r !! k); [|done]. cbn [sentinel_handles set_handles]. by rewrite lookup_delete_ne.
Qed.

Lemma restore_nothing env ks r d : (forall k, k ∈ ks -> is_Some (sentinel_handles r !! k)) ->
  for_keys (restore_sentinel registry_dir path_join env) ks (r, d) = ((r, d), Ret (Ok tt)).
Proof.
  induction ks as [|k ks IH]; intros H; [done|]. cbn [for_keys].
  assert (Hk : restore_sentinel registry_dir path_join env k (r, d) = ((r, d), Ret (Ok tt))).
  { unfold restore_sentinel, bind, get. cbn [fst]. rewrite bool_decide_true by (apply H; by left). done. }
  rewrite (bind_eq _ _ _ _ _ Hk). apply IH. intros k' Hk'. apply H. by right.
Qed.

Lemma rollback_rows env r d m baseline : stores d m -> entries_to_map baseline = m ->
  exists r' d', rollback_failed_transaction registry_dir path_join env baseline (owned_sentinel_keys r) (r, d) = ((r', d'), Ret (Ok tt)) /\
    services r' = m /\ registry_file d' = registry_file d.
Proof.
  intros Hs Hb.
  assert (G : exists es, attempt (read_entries_from_file env 2) (r, d) = ((r, d), Ret (Ok es)) /\
    entries_to_map (match es with Ok l => l | Err _ => baseline end) = m).
  { destruct (read_cases env 2 r d m Hs) as [(es & He & Hes)|He]; rewrite (attempt_eq _ _ _ _ He); eauto. }
  destruct G as (es & He & Hes). unfold rollback_failed_transaction. rewrite (bind_eq _ _ _ _ _ He). cbv zeta.
  set (entries := match es with Ok l => l | Err _ => baseline end) in *.
  unfold bind at 1. unfold replace_services at 1. unfold on_registry at 1. rewrite Hes.
  set (r0 := set_services m r). unfold reconcile_sentinels_after_rollback.
  set (desired := owned_sentinel_keys r ∩ list_to_set (key <$> entries)).
  destruct (give_up_all (elements (owned_sentinel_keys r0 ∖ desired)) r0 d) as (r1 & d1 & H1 & H2 & H3 & H4).
  unfold bind at 1 2 3. unfold get at 1. cbn [fst]. fold r0. rewrite H1.
  rewrite restore_nothing.
  - eexists _, d1. split; [reflexivity|]. split; [exact H2|exact H3].
  - intros k Hk. apply elem_of_elements in Hk. rewrite H4; [|rewrite elem_of_elements; set_solver].
    assert (Hd : k ∈ owned_sentinel_keys r) by (unfold desired in Hk; set_solver). unfold owned_sentinel_keys in Hd. by apply elem_of_dom in Hd.
Qed.

Lemma reconcile_cases env m r d baseline local : stores d m -> entries_to_map baseline = m ->
  reconcile_unlocked_writer_changes env baseline local (r, d) = ((r, d), Ret (Ok local)) \/
  reconcile_unlocked_writer_changes env baseline local (r, d) = ((r, d), Ret (Err (RegistryFile ReadFailed))).
Proof.
  intros Hs Hb. unfold reconcile_unlocked_writer_changes. destruct (read_cases env 1 r d m Hs) as [(es1 & He1 & Hes1)|He1]; [left|right].
  - rewrite (bind_eq _ _ _ _ _ He1). cbv zeta. unfold maps_equal. by rewrite Hb, Hes1, bool_decide_true by done.
  - unfold bind. by rewrite He1.
Qed.

(** Writing the rows: the file holds them, or nothing changed. *)
Lemma flush_cases env m m1 r2 d baseline : intruder env = None -> late_intruder env = None -> stores d m -> entries_to_map baseline = m ->
  durable_map m1 -> services r2 = m1 ->
  (exists r3 d3, flush_to_file_after_transaction env baseline (r2, d) = ((r3, d3), Ret (Ok tt)) /\ stores d3 m1 /\ services r3 = m1) \/
  exists e, flush_to_file_after_transaction env baseline (r2, d) = ((r2, d), Ret (Err e)) /\ e <> RegistryFile UnlockFailed.
Proof.
  intros Hi Hl Hs Hb Hf <-. set (local := snd <$> entry_order (services r2)).
  destruct (map_text _ Hf) as (text & Htext & Hd & Hn). fold local in Htext, Hd, Hn.
  assert (Hopen : flush_to_file_after_transaction env baseline (r2, d) =
    bind (reconcile_unlocked_writer_changes env baseline local) (fun entries =>
      match file_text entries with
      | None => raise Serialization
      | Some content =>
          let! _ := write_atomic env content in let! _ := replace_services entries in
          let! _ := intrude (late_intruder env) in let! _ := update_mtime in warn_if_post_write_clobbered env
      end) (r2, d)).
  { unfold flush_to_file_after_transaction. unfold bind at 1. unfold get at 1. cbn [fst]. unfold intrude at 1. by rewrite Hi. }
  rewrite Hopen. clear Hopen.
  destruct (reconcile_cases env m r2 d baseline local Hs Hb) as [Hrec|Hrec]; [|right; exists (RegistryFile ReadFailed); split; [unfold bind; by rewrite Hrec|done]].
  rewrite !(bind_eq _ _ _ _ _ Hrec). rewrite Htext. cbv beta iota.
  destruct (write_cases env text r2 d) as [Hw|(e & Hw & He')];
    [left; rewrite (bind_eq _ _ _ _ _ Hw)|right; exists (RegistryFile e); split; [unfold bind; by rewrite Hw|by intros [= ->]]].
  set (d2 := set_file _ d).
  assert (Hl1 : entries_to_map local = services r2) by (apply (listed_map (services r2)); by apply durable_keyed).
  assert (Hs2 : stores d2 (services r2)) by (exists local; by rewrite Hl1).
  unfold replace_services at 1. rewrite Hl1. unfold bind at 1. unfold on_registry at 1.
  unfold intrude at 1. rewrite Hl. unfold bind at 1. unfold on_directory at 1. unfold bind at 1. unfold update_mtime at 1.
  unfold warn_if_post_write_clobbered. set (r3 := set_mtime _ _).
  destruct (read_cases env 3 r3 d2 _ Hs2) as [(es3 & He3 & _)|He3]; exists r3, d2; (split; [|done]);
    by rewrite (bind_eq _ _ _ _ _ (attempt_eq _ _ _ _ He3)).
Qed.

(** The transaction under its locks. *)
Lemma body_cases (env : Env) (f : EntryMap -> EntryMap * (bool * bool)) r d m : intruder env = None -> late_intruder env = None -> stores d m ->
  durable_map (f m).1 -> ((f m).2.2 = false -> (f m).1 = m) ->
  let '((r', d'), o) := transaction_body registry_dir path_join env (on_rows f) (r, d) in
  match o with
  | Ret (Ok v) => v = (f m).2.1 /\ stores d' (f m).1 /\ services r' = (f m).1
  | Ret (Err e) => e <> RegistryFile UnlockFailed /\ registry_file d' = registry_file d /\ (services r' = services r \/ services r' = m)
  | _ => False
  end.
Proof.
  intros Hi Hl Hs Hf Hch. destruct (f m) as [m1 [v ch]] eqn:E. cbn [fst snd] in *. pose proof (stores_durable d m Hs) as Hm.
  unfold transaction_body. destruct (force_reload_cases env r d m Hs) as [He|He]; [|unfold bind at 1; rewrite He; by auto].
  rewrite (bind_eq _ _ _ _ _ He). set (r1 := mkFileRegistry m _ _). set (baseline := snd <$> entry_order m).
  assert (Hb : entries_to_map baseline = m) by (apply (listed_map m); by apply durable_keyed).
  unfold bind at 1. unfold get at 1. cbv zeta. cbn [fst]. unfold bind at 1. unfold attempt at 1. unfold on_rows at 1.
  change (services r1) with m. rewrite E. destruct ch; [|unfold ret; rewrite (Hch eq_refl); split_and!; try done; by rewrite <- (Hch eq_refl)].
  set (r2 := set_services m1 r1).
  destruct (flush_cases env m m1 r2 d baseline Hi Hl Hs Hb Hf eq_refl) as [(r3 & d3 & Hfl & H1 & H2)|(e & Hfl & He')];
    rewrite (bind_eq _ _ _ _ _ (attempt_eq _ _ _ _ Hfl)); [by unfold ret|].
  destruct (rollback_rows env r2 d m baseline Hs Hb) as (r3 & d3 & H1 & H2 & H3). change (owned_sentinel_keys r1) with (owned_sentinel_keys r2).
  rewrite (bind_eq _ _ _ _ _ H1). unfold raise. auto.
Qed.

(** Whatever fails during a call - a lock that is not obtained, the directory, reads,
    the temporary file, the rename, the unlock - the file keeps exactly the rows it had, or
    holds exactly the call's; it holds the call's when the call answers, and then also when
    only the unlock failed.  After a failure the cache holds the rows of the file, unless
    they could not be read at the start; nothing unwinds, and a call waits only for locks. *)
Theorem failed_call_keeps (env : Env) (f : EntryMap -> EntryMap * (bool * bool)) (r : FileRegistry) (d : Directory) (m : EntryMap)
    (Hi : intruder env = None) (Hl : late_intruder env = None) (Hs : stores d m)
    (Hf : durable_map (f m).1) (Hch : (f m).2.2 = false -> (f m).1 = m) :
  let '((r', d'), o) := with_write_transaction registry_dir path_join timeout env (on_rows f) (r, d) in
  match o with
  | Ret (Ok v) => v = (f m).2.1 /\ stores d' (f m).1 /\ services r' = (f m).1
  | Ret (Err e) =>
      if decide (e = RegistryFile UnlockFailed) then stores d' (f m).1 /\ services r' = (f m).1
      else registry_file d' = registry_file d /\ (services r' = services r \/ services r' = m)
  | Unwinds => False
  | Waits => r' = r /\ d' = d
  end.
Proof.
  pose proof (body_cases env f r d m Hi Hl Hs Hf Hch) as G. unfold with_write_transaction.
  destruct (acquire_cases (mutex_tries env) (r, d)) as (o & Ho & Hoc). unfold bind at 1. rewrite Ho.
  destruct o as [[u|e]| |]; [|cbv beta iota; rewrite decide_False by done; auto|done|done].
  destruct (dir_fault env); [unfold raise; cbv beta iota; rewrite decide_False by done; auto|].
  destruct (lock_open_fault env); [unfold raise; cbv beta iota; rewrite decide_False by done; auto|].
  destruct (acquire_cases (lock_tries env) (r, d)) as (o & Ho' & Hoc'). unfold bind at 1. rewrite Ho'.
  destruct o as [[u'|e]| |]; [|cbv beta iota; rewrite decide_False by done; auto|done|done].
  unfold bind. destruct (transaction_body _ _ _ _ _) as [[r' d'] [[v'|e]| |]]; [|destruct G as (He & G); cbv beta iota; by rewrite decide_False|done|done].
  destruct G as (-> & G1 & G2). destruct (unlock_fails env); [|done]. unfold raise. cbv beta iota. by rewrite decide_True.
Qed.

(** ** Files this build cannot read *)

(** A text that is not blank, and what parsing it gives. *)
Definition parses_to (env : Env) (d : Directory) (content : str) (o : result RegistryParseError (list ServiceEntry)) : Prop :=
  (exists t, registry_file d = Some (content, t)) /\ trim content <> [] /\
  looks_like_zero_padded_empty_registry content = false /\ parse_registry_entries (surroundings env) content = o.

Lemma read_text env w r d content o : (exists a, (a < READ_ATTEMPTS)%nat /\ read_fails env w a = false) -> parses_to env d content o ->
  read_entries_from_file env w (r, d) =
    match o with
    | Ok es => ((r, d), Ret (Ok es))
    | Err JsonError => ((r, if can_quarantine env then set_file None (set_quarantined (<[clock env / NANOS := content]> (quarantined d)) d) else d), Ret (Ok []))
    | Err (UnsupportedSchema received supported) => ((r, d), Ret (Err (UnsupportedServiceEntrySchemaVersion received supported)))
    | Err ParsePanics => ((r, d), Unwinds)
    end.
Proof.
  intros (a & Ha & Hf) ((t & Ht) & Hb & Hz & Ho). unfold read_entries_from_file, bind at 1, get. cbn [snd].
  rewrite (read_retry_ok _ _ _ 0 a) by (done || lia). rewrite Ht. cbn [fmap option_fmap option_map fst].
  rewrite bool_decide_false by done. rewrite Hz, Ho. destruct o as [es|[|rec sup|]]; done.
Qed.

(** With its locks obtained, a call is its body. *)
Lemma locked_call {A} (env : Env) (op : M (A * bool)) (s : State) : quiet timeout env ->
  with_write_transaction registry_dir path_join timeout env op s = transaction_body registry_dir path_join env op s.
Proof.
  intros Hq. unfold with_write_transaction. rewrite (bind_eq _ _ _ _ _ (acquire_obtains _ _ s (quiet_mutex _ env Hq))).
  rewrite (quiet_dir _ env Hq), (quiet_open _ env Hq). rewrite (bind_eq _ _ _ _ _ (acquire_obtains _ _ s (quiet_lock _ env Hq))).
  unfold bind. rewrite (quiet_unlock _ env Hq). by destruct (transaction_body _ _ _ _ s) as [s' [[v|e]| |]].
Qed.

(** A file written by a newer version is left exactly as it is: every call of this
    build is refused with the two versions and changes neither the file, the quarantine,
    the sentinels nor the cached rows, and listing keeps showing the rows cached before. *)
Theorem future_schema_frozen {A} (env : Env) (op : M (A * bool)) (r : FileRegistry) (d : Directory) (content : str) (received supported : Z)
    (Hq : quiet timeout env) (Hp : parses_to env d content (Err (UnsupportedSchema received supported))) :
  with_write_transaction registry_dir path_join timeout env op (r, d) =
    ((r, d), Ret (Err (UnsupportedServiceEntrySchemaVersion received supported))) /\
  exists r', list_all env (r, d) = ((r', d), Ret (Ok (list_all_in_memory r))) /\ services r' = services r /\ sentinel_handles r' = sentinel_handles r.
Proof.
  pose proof (read_text env 0 r d content _ (quiet_read _ env Hq 0) Hp) as Hread. cbv beta iota in Hread. split.
  - rewrite locked_call by done. unfold transaction_body, force_reload_from_file, load_from_file. unfold bind. by rewrite Hread.
  - pose proof Hp as ((t & Ht) & _). unfold list_all, reload_if_stale. unfold bind at 1. unfold attempt at 1. unfold bind at 1. unfold get at 1. cbn [snd fst].
    rewrite Ht. case_bool_decide; [by exists r|]. unfold bind at 1. unfold on_registry at 1. unfold bind at 1. unfold attempt at 1.
    unfold load_from_file. unfold bind at 1. rewrite (read_text env 0 _ d content _ (quiet_read _ env Hq 0) Hp).
    unfold ret, bind, get. by eexists.
Qed.

(** A file that is not valid rows is set aside whole, under the second it was found in,
    before the call goes on from no rows at all: the call's rows are all the file holds
    afterwards, and what the file held is in the quarantine. *)
Theorem corrupt_file_quarantined (env : Env) (f : EntryMap -> EntryMap * (bool * bool)) (r : FileRegistry) (d : Directory) (content : str)
    (Hq : quiet timeout env) (Hp : parses_to env d content (Err JsonError)) (Hcan : can_quarantine env = true)
    (Hf : durable_map (f ∅).1) (Hch : (f ∅).2.2 = false -> (f ∅).1 = ∅) :
  exists r' d', with_write_transaction registry_dir path_join timeout env (on_rows f) (r, d) = ((r', d'), Ret (Ok (f ∅).2.1)) /\
    stores d' (f ∅).1 /\ services r' = (f ∅).1 /\ quarantined d' = <[clock env / NANOS := content]> (quarantined d) /\
    paths d' = paths d /\ locked d' = locked d.
Proof.
  set (d0 := set_file None (set_quarantined (<[clock env / NANOS := content]> (quarantined d)) d)).
  assert (Hs0 : stores d0 ∅) by done.
  assert (He0 : with_write_transaction registry_dir path_join timeout env (on_rows f) (r, d) =
    with_write_transaction registry_dir path_join timeout env (on_rows f) (r, d0)).
  { rewrite !locked_call by done.
    assert (Hr : force_reload_from_file env (r, d) = force_reload_from_file env (r, d0)).
    { unfold force_reload_from_file, load_from_file. unfold bind. rewrite (read_text env 0 r d content _ (quiet_read _ env Hq 0) Hp), Hcan.
      fold d0. destruct (read_stores env 0 r d0 ∅ (quiet_read _ env Hq 0) Hs0) as (es & He & Hes). rewrite He. unfold replace_services, on_registry.
      by rewrite Hes. }
    unfold transaction_body, bind at 1. by rewrite Hr. }
  destruct (transaction_ok registry_dir path_join timeout env (on_rows f) r d0 ∅
    (mkFileRegistry (f ∅).1 (sentinel_handles r) None) d0 (f ∅).2.1 (f ∅).2.2 Hq Hs0) as (r3 & d3 & He & H1 & H2 & H3 & H4 & H5 & H6); try done.
  { unfold on_rows. cbn [services]. by destruct (f ∅) as [m [v ch]]. }
  exists r3, d3. by rewrite He0.
Qed.

(** ** Reads that take no lock *)

(** Listing is as fresh as the file's modification time: a file with another time than
    the cached one is read again, and a missing file empties the cache; a file with the
    cached time is not read. *)
Theorem list_all_exact (env : Env) (r : FileRegistry) (d : Directory) (m : EntryMap)
    (Hr : exists a, (a < READ_ATTEMPTS)%nat /\ read_fails env 0 a = false) (Hs : stores d m) :
  exists r', list_all env (r, d) = ((r', d), Ret (Ok (list_all_in_memory r'))) /\ sentinel_handles r' = sentinel_handles r /\
    services r' = match registry_file d with
                  | Some (_, t) => if decide (last_mtime r = Some t) then services r else m
                  | None => ∅
                  end.
Proof.
  unfold list_all, reload_if_stale. unfold bind at 1. unfold attempt at 1. unfold bind at 1. unfold get at 1. cbn [snd fst].
  destruct (registry_file d) as [[c t]|] eqn:Ef.
  - destruct (decide (last_mtime r = Some t)) as [Ht|Ht]; [rewrite bool_decide_true by done; by exists r|rewrite bool_decide_false by done].
    unfold bind at 1. unfold on_registry at 1. unfold bind at 1. unfold attempt at 1. unfold load_from_file. unfold bind at 1.
    destruct (read_stores env 0 (set_mtime (Some t) r) d m Hr Hs) as (es & He & Hes). rewrite He. unfold replace_services at 1, on_registry at 1.
    rewrite Hes. by eexists.
  - unfold bind at 1. unfold on_registry at 1. destruct (_ || _) eqn:Eb; [by eexists|].
    exists (set_mtime None r). split; [done|]. split; [done|]. apply orb_false_iff in Eb as [_ Eb].
    by apply negb_false_iff, bool_decide_eq_true in Eb.
Qed.

(** A read-only client changes nothing, and shows of the file exactly the rows that the
    next eviction of a process without sentinels of its own would keep, the gateway's
    sentinel row apart, with the number of dead ones. *)
Theorem read_only_exact (env : Env) (lock_file : bool) (d : Directory) (m : EntryMap)
    (Hq : quiet timeout env) (Hread : read_fails env 0 0 = false) (Hs : stores d m) (Hprobe : forall p, probe_fault env p = false) :
  exists es live, read_alive_read_only timeout env lock_file d = Ret (Ok (live, length (base.filter (fun e => dcc_type e <> GATEWAY_SENTINEL_DCC_TYPE /\
      row_dead env (mkFileRegistry m ∅ None, d) e = true) es))) /\
    es ≡ₚ (map_to_list m).*2 /\
    live = base.filter (fun e => dcc_type e <> GATEWAY_SENTINEL_DCC_TYPE /\ row_dead env (mkFileRegistry m ∅ None, d) e = false) es.
Proof.
  assert (Hsnap : exists es, read_snapshot env d = Ret (Ok es) /\ es ≡ₚ (map_to_list m).*2).
  { unfold read_snapshot. rewrite Hread. pose proof (stores_durable d m Hs) as Hm. unfold stores in Hs.
    destruct (registry_file d) as [[c t]|]; [|subst m; exists []; by rewrite map_to_list_empty].
    destruct Hs as (es & Ht & Hd & Hn & ->). destruct (stored_text_parses (surroundings env) es c Ht Hd) as (Hp & Hb & _).
    rewrite bool_decide_false, Hp by done. exists es. split; [done|].
    apply NoDup_Permutation.
    - by eapply NoDup_fmap_1.
    - apply (NoDup_fmap_1 key). rewrite <- list_fmap_compose.
      rewrite (list_fmap_ext (key ∘ snd) fst (map_to_list (entries_to_map es))); [apply NoDup_fst_map_to_list|].
      intros i [k e] Hi. cbn. apply list_elem_of_lookup_2, elem_of_map_to_list in Hi. by destruct (Hm k e Hi).
    - intros e. rewrite list_elem_of_fmap. split.
      + intros He. exists (key e, e). split; [done|]. apply elem_of_map_to_list. by apply entries_to_map_lookup.
      + intros ([k e'] & -> & Hin). apply elem_of_map_to_list in Hin. apply entries_to_map_lookup in Hin as [? _]; done. }
  destruct Hsnap as (es & Hsnap & Hperm).
  assert (Halive : forall e, entry_is_alive_read_only env d e = Ok (negb (row_dead env (mkFileRegistry m ∅ None, d) e))).
  { intros e. unfold entry_is_alive_read_only, row_dead, owner_dead, host_dead, sentinel_is_dead_read_only, sentinel_is_dead.
    cbn [fst snd sentinel_handles]. destruct (sentinel_path e) as [p|]; cbn [rbind].
    - rewrite Hprobe, lookup_empty, bool_decide_false by (by intros []).
      destruct (paths d !! p); cbn [rbind]; destruct (bound_host_pid e); cbn; by rewrite ?negb_orb, ?negb_involutive, ?andb_true_r, ?orb_false_r.
    - destruct (pid e), (bound_host_pid e); cbn; by rewrite ?negb_orb, ?negb_involutive, ?andb_true_r, ?orb_false_r. }
  assert (Hrows : forall es, alive_rows env d es = Ok (base.filter (fun e => dcc_type e <> GATEWAY_SENTINEL_DCC_TYPE /\ row_dead env (mkFileRegistry m ∅ None, d) e = false) es,
    length (base.filter (fun e => dcc_type e <> GATEWAY_SENTINEL_DCC_TYPE /\ row_dead env (mkFileRegistry m ∅ None, d) e = true) es))).
  { clear - Halive. induction es as [|e es IH]; [done|]. cbn [alive_rows]. rewrite !filter_cons. case_bool_decide as Hg.
    - rewrite !decide_False by tauto. exact IH.
    - rewrite Halive, IH. cbn [rbind]. destruct (row_dead _ _ e) eqn:Ed; cbn [negb].
      + rewrite decide_False by (intros [_ ?]; done). by rewrite decide_True.
      + rewrite decide_True by done. by rewrite decide_False by (intros [_ ?]; done). }
  exists es. eexists. split; [|split; [exact Hperm|reflexivity]]. unfold read_alive_read_only.
  assert (Hlock : (if lock_file then if lock_open_fault env then Ret (Err (RegistryFile OpenLockFailed))
    else snd (acquire timeout (lock_tries env) (mkFileRegistry ∅ ∅ None, d)) else Ret (Ok tt)) = Ret (Ok tt)).
  { destruct lock_file; [|done]. rewrite (quiet_open _ env Hq). by rewrite (acquire_obtains _ _ _ (quiet_lock _ env Hq)). }
  rewrite Hlock, Hsnap. by rewrite Hrows.
Qed.

End Faults.
