(* ===== verification/RegistryWitness.v ===== *)
(** Concrete instances of what the service registry takes from outside (identifiers, the
    text of JSON, addresses, paths), and the theorems at concrete rows and processes. *)

From stdpp Require Import countable.
From Stdlib Require Import SpecFloat.
From S2P Require Import Prelude Text Json GatewayNaming Capability TransportAddress ServiceEntry EntryFormat EntryProps FileRegistry FileRegistryProps RegistryCalls RegistryLife RegistryFaults.

Local Open Scope Z_scope.

(** ** Identifiers *)

Lemma hex_value_snoc s c : hex_value (s ++ [c]) = a ← hex_value s; d ← hex_nibble c; Some (16 * a + d).
Proof. unfold hex_value. by rewrite foldl_app. Qed.

Lemma hex_nibble_digit d : 0 <= d < 16 -> hex_nibble (if d <? 10 then 48 + d else 87 + d) = Some d.
Proof.
  intros Hd. assert (H : forallb (fun n => bool_decide (hex_nibble (let d := Z.of_nat n in if d <? 10 then 48 + d else 87 + d) = Some (Z.of_nat n))) (seq 0 16) = true)
    by (vm_compute; reflexivity).
  rewrite forallb_forall in H. specialize (H (Z.to_nat d)). rewrite in_seq in H. specialize (H ltac:(lia)).
  apply bool_decide_eq_true in H. by rewrite Z2Nat.id in H by lia.
Qed.

Lemma hex_digits_value n z : 0 <= z < 16 ^ Z.of_nat n -> hex_value (hex_digits n z) = Some z.
Proof.
  revert z. induction n as [|n IH]; intros z Hz.
  - cbn in *. f_equal. lia.
  - cbn [hex_digits]. rewrite hex_value_snoc. cbv zeta. pose proof (Z.mod_pos_bound z 16 ltac:(lia)) as Hm.
    rewrite IH.
    + cbn [mbind option_bind]. rewrite hex_nibble_digit by done. cbn [mbind option_bind]. f_equal. pose proof (Z.div_mod z 16 ltac:(lia)). lia.
    + split; [apply Z.div_pos; lia|]. apply Z.div_lt_upper_bound; [lia|]. rewrite Nat2Z.inj_succ, Z.pow_succ_r in Hz by lia. lia.
Qed.

Definition dashes (d : str) : str := take 8 d ++ [ch_dash] ++ take 4 (drop 8 d) ++ [ch_dash] ++ take 4 (drop 12 d) ++ [ch_dash] ++ take 4 (drop 16 d) ++ [ch_dash] ++ drop 20 d.

(** Hexadecimal identifiers, with the reader of both forms. *)
#[export] Instance row_uuids : UuidText := {|
  simple := hex_digits 32;
  hyphenated id := dashes (hex_digits 32 id);
  parse_uuid s :=
    if (length s =? 32)%nat then hex_value s
    else if (length s =? 36)%nat then hex_value (base.filter (fun c => c <> ch_dash) s) else None;
  simple_spec := hex_digits_spec 32;
|}.

Lemma length_dashes d : length d = 32%nat -> length (dashes d) = 36%nat.
Proof. intros Hd. unfold dashes. rewrite !length_app, !length_take, !length_drop, Hd. reflexivity. Qed.

Lemma filter_dashes d : Forall (fun c => c <> ch_dash) d -> base.filter (fun c => c <> ch_dash) (dashes d) = d.
Proof.
  intros Hd. unfold dashes. rewrite !filter_app. change (base.filter (fun c => c <> ch_dash) [ch_dash]) with ([] : str). cbn [app].
  assert (H : forall l : str, Forall (fun c => c <> ch_dash) l -> base.filter (fun c => c <> ch_dash) l = l).
  { clear. induction 1 as [|c l Hc Hl IH]; [done|]. rewrite filter_cons_True by done. by rewrite IH. }
  rewrite !H by auto using Forall_take, Forall_drop.
  assert (G : forall n, drop n d = take 4 (drop n d) ++ drop (n + 4) d) by (intros n; by rewrite <- drop_drop, take_drop).
  pose proof (G 8%nat) as G8. pose proof (G 12%nat) as G12. pose proof (G 16%nat) as G16. cbn [Nat.add] in *.
  by rewrite <- G16, <- G12, <- G8, take_drop.
Qed.

#[export] Instance row_uuids_read : UuidReads.
Proof.
  intros id Hid. cbn [parse_uuid hyphenated row_uuids]. destruct (hex_digits_spec 32 id) as [Hl Hf].
  rewrite length_dashes by done. cbn [Nat.eqb]. rewrite filter_dashes.
  - apply hex_digits_value. change (16 ^ Z.of_nat 32) with (2 ^ 128). done.
  - eapply Forall_impl; [exact Hf|]. intros c Hc ->. by vm_compute in Hc.
Qed.

#[export] Instance row_uuid_v5 : UuidV5 := fun s => foldl (fun a c => (a * 31 + c) mod 2 ^ 128) 0 s.

(** ** Addresses *)

(** The serde form of the enum: the tag and the fields of the variant. *)
Definition tagged_address (a : TransportAddress) : Value :=
  match a with
  | Tcp h p => Object [(lit "type", Str (lit "tcp")); (lit "host", Str h); (lit "port", num p)]
  | NamedPipe path => Object [(lit "type", Str (lit "named_pipe")); (lit "path", Str path)]
  | UnixSocket path => Object [(lit "type", Str (lit "unix_socket")); (lit "path", Str path)]
  end.

Definition read_tagged (v : Value) : option TransportAddress :=
  match v with
  | Object m =>
      tag ← json_get (lit "type") m ≫= as_str;
      if bool_decide (tag = lit "tcp") then
        h ← json_get (lit "host") m ≫= as_str; p ← json_get (lit "port") m ≫= as_u64; if p <=? 65535 then Some (Tcp h p) else None
      else if bool_decide (tag = lit "named_pipe") then NamedPipe <$> (json_get (lit "path") m ≫= as_str)
      else if bool_decide (tag = lit "unix_socket") then UnixSocket <$> (json_get (lit "path") m ≫= as_str)
      else None
  | _ => None
  end.

Lemma read_tagged_address a : wf_address a -> read_tagged (tagged_address a) = Some a.
Proof.
  destruct a as [h p|path|path]; cbn [wf_address]; [|reflexivity..]. intros Hp.
  change (read_tagged _) with (if p <=? 65535 then Some (Tcp h p) else None). by rewrite (proj2 (Z.leb_le p 65535)) by lia.
Qed.

Lemma tagged_not_null a : is_null (tagged_address a) = false.
Proof. by destruct a. Qed.

Lemma tagged_fields a : exists m, tagged_address a = Object m /\ NoDup (fst <$> m) /\
  Forall (fun kv => match kv.2 with Str _ => True | Num (PosInt n) => exists h, a = Tcp h n | _ => False end) m.
Proof.
  destruct a as [h p|path|path]; eexists; (split; [reflexivity|]); (split; [apply (bool_decide_unpack _); vm_compute; exact I|]); repeat constructor.
  by exists h.
Qed.

#[export] Instance row_addresses : AddressCodec :=
  {| address_codec := read_tagged_address; address_not_null := tagged_not_null; address_fields := tagged_fields |}.

(** ** Text of JSON *)

(** A text of one character, far from blank ones. *)
Definition tree_text (v : Value) : str := [20000 + Z.pos (encode (to_tree v))].
Definition text_tree (s : str) : option Value :=
  match s with [z] => if 20000 <? z then of_tree <$> decode (Z.to_pos (z - 20000)) else None | _ => None end.

Lemma text_tree_text v : json_plain v -> text_tree (tree_text v) = Some v.
Proof.
  intros _. unfold text_tree, tree_text. rewrite (proj2 (Z.ltb_lt _ _)) by lia.
  replace (20000 + Z.pos (encode (to_tree v)) - 20000) with (Z.pos (encode (to_tree v))) by lia. cbn [Z.to_pos].
  rewrite decode_encode. cbn [fmap option_fmap option_map]. by rewrite of_to_tree.
Qed.

Lemma text_tree_blank s : Forall (fun c => c = 0 \/ is_whitespace c = true) s -> text_tree s = None.
Proof.
  intros Hs. destruct s as [|z [|]]; [done| |done]. apply Forall_cons in Hs as [Hz _]. unfold text_tree.
  destruct (20000 <? z) eqn:E; [|done]. destruct Hz as [->|Hz]; [done|]. unfold is_whitespace, in_range in Hz. lia.
Qed.

#[export] Instance row_file : JsonFile := {| from_str_pretty := text_tree_text; from_str_blank := text_tree_blank |}.

(** ** Rows and directories *)

Lemma durable_new now id own dcc host port : 0 <= now < TIME_END -> 0 <= id < 2 ^ 128 -> 0 <= own <= u32_max -> 0 <= port <= 65535 ->
  durable (entry_new now id own dcc host port).
Proof.
  intros Hn Hi Ho Hp. constructor; [constructor|done|apply map_Forall_empty]; cbn; try done. by intros ? [= <-].
Qed.

Definition reg_dir : str := lit "/reg".
Definition reg_join : str -> str -> str := @path_join linux.
Definition wait_ms : Z := 2000.
Definition sentinel (k : ServiceKey) : str := sentinel_path_for reg_dir reg_join k.

Definition maya_key : ServiceKey := (lit "maya", 1).
Definition houdini_key : ServiceKey := (lit "houdini", 2).
Definition maya_row : ServiceEntry :=
  set_sentinel (Some (sentinel maya_key)) (entry_new 1000 1 100 (lit "maya") (lit "127.0.0.1") 18812).
Definition houdini_row : ServiceEntry := entry_new 1000 2 200 (lit "houdini") (lit "127.0.0.1") 18813.

Lemma maya_durable : durable maya_row.
Proof. apply durable_sentinel, durable_new; unfold TIME_END, u32_max, NANOS, i64_max; lia. Qed.
Lemma houdini_durable : durable houdini_row.
Proof. apply durable_new; unfold TIME_END, u32_max, NANOS, i64_max; lia. Qed.

(** A directory whose file holds these rows, written at time 5. *)
Definition dir_of (rows : list ServiceEntry) (p : gmap str inode) (l : gset inode) : Directory :=
  mkDirectory (Some (default [] (file_text rows), 5)) ∅ p l.

Lemma dir_stores rows p l : Forall durable rows -> NoDup (key <$> rows) -> stores (dir_of rows p l) (entries_to_map rows).
Proof.
  intros Hd Hn. exists rows. split_and!; try done. destruct (durable_text rows Hd) as (vs & Hv & _). unfold file_text. by rewrite Hv.
Qed.

Lemma calm_quiet t own live : quiet wait_ms (calm t own live).
Proof.
  constructor; try done.
  - exists [], 0, []. done.
  - exists [], 0, []. done.
  - intros w. exists 0%nat. split; [unfold READ_ATTEMPTS; lia|done].
  - exists 0%nat. split; [unfold RENAME_ATTEMPTS; lia|done].
Qed.

Definition both : list ServiceEntry := [maya_row; houdini_row].
Lemma both_durable : Forall durable both.
Proof. apply Forall_cons_2; [apply maya_durable|apply Forall_cons_2; [apply houdini_durable|apply Forall_nil_2]]. Qed.
Lemma both_keys : NoDup (key <$> both).
Proof. apply (bool_decide_unpack _). vm_compute. exact I. Qed.

(** ** Witnesses *)

Lemma row_roundtrip_witness : exists v, row_to_value maya_row = Some v /\ row_from_value v = Ok maya_row.
Proof. destruct (row_roundtrip maya_row (durable_wf _ maya_durable)) as (v & H1 & H2 & _). by exists v. Defined.

(** Two processes with nothing cached: one leases the instance of the other's row. *)
Definition two_procs : system :=
  mkSystem (<[0%nat := mkFileRegistry ∅ ∅ None]> {[1%nat := mkFileRegistry ∅ ∅ None]}) (dir_of both ∅ ∅).
Definition at_time (t : Z) : Env := calm t 100 (fun _ => true).
Definition two_history : list (nat * Env * row_call) :=
  [(0%nat, at_time 2000, CHeartbeat maya_key);
   (1%nat, at_time 3000, CAcquire (lit "MAYA") None (lit "agent") None (Some 500));
   (0%nat, at_time 3100, CAcquire (lit "maya") None (lit "other") None None);
   (0%nat, at_time 4000, CAcquire (lit "maya") None (lit "other") None None);
   (1%nat, at_time 4100, CRelease maya_key (Some (lit "agent")))].

Definition summary (v : call_value) : bool * option (option str) :=
  match v with VBool b => (b, None) | VRow o => (bool_decide (is_Some o), lease_owner <$> o) | VCount _ => (false, None) end.

Lemma two_values : summary <$> (spec_run two_history (entries_to_map both)).2 =
  [(true, None); (true, Some (Some (lit "agent"))); (false, None); (true, Some (Some (lit "other"))); (false, None)].
Proof. vm_compute. reflexivity. Qed.

Lemma two_ok : Forall (fun x => quiet wait_ms x.1.2 /\ call_ok x.1.2 x.2) two_history.
Proof.
  repeat apply Forall_cons_2; [..|apply Forall_nil_2]; (split; [apply calm_quiet|]); split; cbn; try done; unfold TIME_END, NANOS, i64_max; lia.
Qed.

Lemma calls_refine_witness : exists s' vs, sys_run reg_dir reg_join wait_ms two_history two_procs = Some (s', vs) /\
  summary <$> vs = [(true, None); (true, Some (Some (lit "agent"))); (false, None); (true, Some (Some (lit "other"))); (false, None)].
Proof.
  destruct (calls_refine reg_dir reg_join wait_ms two_history two_procs (entries_to_map both) (dir_stores both ∅ ∅ both_durable both_keys)) as (s' & H1 & _).
  - repeat apply Forall_cons_2; [..|apply Forall_nil_2]; cbn; by eexists.
  - exact two_ok.
  - exists s', (spec_run two_history (entries_to_map both)).2. split; [exact H1|exact two_values].
Defined.

(** The agent holds the instance until time 3500. *)
Definition leased_row : ServiceEntry := ServiceEntry.acquire_lease 3000 (lit "agent") None (Some 3500) maya_row.
Definition leased_system : system :=
  mkSystem (<[0%nat := mkFileRegistry ∅ ∅ None]> {[1%nat := mkFileRegistry ∅ ∅ None]}) (dir_of [leased_row] ∅ ∅).
Definition while_leased : list (nat * Env * row_call) :=
  [(0%nat, at_time 3100, CAcquire (lit "maya") None (lit "other") None None);
   (1%nat, at_time 3200, CRelease maya_key (Some (lit "other")));
   (0%nat, at_time 3300, CUpdateStatus maya_key Available);
   (0%nat, at_time 3400, CAcquire (lit "maya") None (lit "other") None None)].
Definition row_events (h : list (nat * Env * row_call)) : list event := (fun x => ERow x.1.1 x.1.2 x.2) <$> h.

Lemma leased_durable : Forall durable [leased_row].
Proof.
  apply Forall_singleton. unfold leased_row, ServiceEntry.acquire_lease.
  apply durable_touch; [unfold TIME_END, NANOS, i64_max; lia|]. apply durable_status. apply durable_lease; [unfold TIME_END, NANOS, i64_max; lia|exact maya_durable].
Qed.

Lemma leased_keys : NoDup (key <$> [leased_row]).
Proof. apply (bool_decide_unpack _). vm_compute. exact I. Qed.

Lemma while_proper : Forall (proper wait_ms) (row_events while_leased).
Proof.
  repeat apply Forall_cons_2; [..|apply Forall_nil_2]; (split; [apply calm_quiet|]); split; cbn; try done; unfold TIME_END, NANOS, i64_max; lia.
Qed.

(** Row calls answer in the processes that run. *)
Lemma row_events_answer h : forall s m, stores (directory s) m -> Forall (proper wait_ms) (row_events h) ->
  Forall (fun x => is_Some (procs s !! x.1.1)) h -> exists s', sys_events reg_dir reg_join wait_ms (row_events h) s = Some s'.
Proof.
  induction h as [|[[q env] c] h IH]; intros s m Hs Hp Hq; [by exists s|]. apply Forall_cons in Hp as [[He Hok] Hp]. apply Forall_cons in Hq as [[r Hr] Hq].
  cbn [fst snd] in *. pose proof (exec_row_ok reg_dir reg_join wait_ms env c r (directory s) m He Hok Hs) as G. destruct (call_rows env c m) as [m' v].
  destruct G as (r' & d' & G0 & G1 & _).
  assert (Hsys : sys_event reg_dir reg_join wait_ms (ERow q env c) s = Some (mkSystem (<[q := r']> (procs s)) d')) by exact (run_in_eq _ _ _ _ _ _ _ Hr G0).
  destruct (IH (mkSystem (<[q := r']> (procs s)) d') m' G1 Hp) as [s' Hs'].
  { eapply Forall_impl; [exact Hq|]. intros [[q' env'] c'] Hx. cbn [fst procs] in *. apply lookup_insert_is_Some. destruct (decide (q = q')); auto. }
  exists s'. cbn [row_events fmap list_fmap sys_events fst snd]. rewrite Hsys. exact Hs'.
Qed.


Lemma sentinel_inj k k' : plain_key k -> plain_key k' -> sentinel k = sentinel k' -> k = k'.
Proof.
  destruct k as [dcc id], k' as [dcc' id']. intros [Hd Hi] [Hd' Hi'] E. cbn [fst snd] in *. unfold sentinel, sentinel_path_for, reg_join in E.
  cbn [path_join linux fst snd] in E.
  assert (Hp : forall d i, starts_with (lit "/") d = false -> starts_with (lit "/") (d ++ lit "-" ++ hyphenated i ++ lit ".lock") = false).
  { intros d i Hs. destruct d as [|c d]; [done|]. unfold starts_with in *. cbn [lit strip_prefix app] in *. by destruct (_ =? c). }
  rewrite !Hp in E by done. apply app_inv_head in E. apply app_inv_head in E.
  assert (Hl : forall i, length (hyphenated i ++ lit ".lock") = 41%nat).
  { intros i. rewrite length_app. cbn [hyphenated row_uuids]. by rewrite (length_dashes _ (proj1 (hex_digits_spec 32 i))). }
  apply app_inj_2 in E as [-> E]; [|pose proof (Hl id); pose proof (Hl id'); rewrite !length_app in *; lia]. apply app_inv_head in E. apply app_inv_tail in E.
  apply (f_equal parse_uuid) in E. rewrite !(parse_hyphenated (UuidReads := row_uuids_read)) in E by done. by injection E as ->.
Qed.

(** The owner registered its row and holds its sentinel; another process holds nothing. *)
Definition owner : FileRegistry := mkFileRegistry ∅ {[maya_key := 1%positive]} None.
Definition owned_system : system :=
  mkSystem (<[0%nat := owner]> {[1%nat := mkFileRegistry ∅ ∅ None]}) (dir_of [maya_row] {[sentinel maya_key := 1%positive]} {[1%positive]}).

Lemma one_keys : NoDup (key <$> [maya_row]).
Proof. apply (bool_decide_unpack _). vm_compute. exact I. Qed.

Lemma owned_rows k e : entries_to_map [maya_row] !! k = Some e -> k = maya_key /\ e = maya_row.
Proof. rewrite entries_to_map_lookup by apply one_keys. intros [Hin <-]. apply list_elem_of_singleton in Hin as ->. done. Qed.

Lemma owned_procs p r k i : procs owned_system !! p = Some r -> sentinel_handles r !! k = Some i -> p = 0%nat /\ k = maya_key /\ i = 1%positive.
Proof.
  unfold owned_system. cbn [procs]. intros Hr Hk. apply lookup_insert_Some in Hr as [[<- <-]|[Hne Hr]].
  - cbn [sentinel_handles owner] in Hk. by apply lookup_singleton_Some in Hk as [<- <-].
  - apply lookup_singleton_Some in Hr as [<- <-]. cbn [sentinel_handles] in Hk. by rewrite lookup_empty in Hk.
Qed.

Lemma owned_consistent : consistent reg_dir reg_join owned_system (entries_to_map [maya_row]).
Proof.
  constructor.
  - apply dir_stores; [apply Forall_cons_2; [apply maya_durable|apply Forall_nil_2]|apply one_keys].
  - intros p r k i Hr Hk. destruct (owned_procs p r k i Hr Hk) as (-> & -> & ->). cbn. set_solver.
  - intros p r k p' r' k' i Hr Hk Hr' Hk'. destruct (owned_procs p r k i Hr Hk) as (-> & -> & _). by destruct (owned_procs p' r' k' i Hr' Hk') as (-> & -> & _).
  - intros k e q Hk Hq. destruct (owned_rows k e Hk) as [-> ->]. by injection Hq as <-.
  - intros k e Hk. destruct (owned_rows k e Hk) as [-> _]. split; [reflexivity|cbn; lia].
  - intros q q' i. unfold owned_system, dir_of. cbn [directory paths]. intros [<- _]%lookup_singleton_Some [<- _]%lookup_singleton_Some. reflexivity.
Qed.

Lemma owned_owns : owns reg_dir reg_join 0 maya_key owned_system (entries_to_map [maya_row]).
Proof. exists owner, 1%positive, maya_row. split_and!; reflexivity. Qed.

(** Every process looks dead by its pid: the locked sentinel keeps the row all the same. *)
Definition no_pids (t : Z) : Env := calm t 300 (fun _ => false).

Lemma prune_once : exists s1, sys_event reg_dir reg_join wait_ms (EPrune 1 (no_pids 9000)) owned_system = Some s1.
Proof.
  destruct (prune_exact reg_dir reg_join wait_ms (no_pids 9000) (mkFileRegistry ∅ ∅ None) (directory owned_system) (entries_to_map [maya_row])
    (calm_quiet _ _ _) (c_stores _ _ _ _ owned_consistent)) as (r' & d' & ks & He & _).
  eexists. cbn [sys_event]. exact (run_in_eq 1 owned_system _ _ _ _ _ eq_refl He).
Qed.

Lemma live_row_kept_witness : exists s1 m', sys_event reg_dir reg_join wait_ms (EPrune 1 (no_pids 9000)) owned_system = Some s1 /\
  stores (directory s1) m' /\ is_Some (m' !! maya_key).
Proof.
  destruct prune_once as [s1 H1].
  destruct (live_row_kept reg_dir reg_join wait_ms sentinel_inj 0 maya_key owned_system (entries_to_map [maya_row]) owned_consistent owned_owns) as [Hone _].
  destruct (Hone (EPrune 1 (no_pids 9000)) s1 (calm_quiet _ _ _) H1) as (m' & Hc & Hiff & _).
  exists s1, m'. split; [exact H1|]. split; [exact (c_stores _ _ _ _ Hc)|].
  destruct (m' !! maya_key) as [e|]; [by eexists|]. destruct (proj1 Hiff eq_refl) as (e & He & Hh). destruct (owned_rows _ _ He) as [_ ->]. discriminate Hh.
Defined.

Definition crashed : system :=
  mkSystem (base.delete 0%nat (procs owned_system)) (set_locked (locked (directory owned_system) ∖ held_inodes owner) (directory owned_system)).

Lemma crash_evicts_witness : exists s2 m2, sys_event reg_dir reg_join wait_ms (ECrash 0) owned_system = Some crashed /\
  sys_event reg_dir reg_join wait_ms (EPrune 1 (at_time 9000)) crashed = Some s2 /\ stores (directory s2) m2 /\ m2 !! maya_key = None.
Proof.
  assert (H1 : sys_event reg_dir reg_join wait_ms (ECrash 0) owned_system = Some crashed) by reflexivity.
  destruct (prune_exact reg_dir reg_join wait_ms (at_time 9000) (mkFileRegistry ∅ ∅ None) (directory crashed) (entries_to_map [maya_row])
    (calm_quiet _ _ _) (c_stores _ _ _ _ owned_consistent)) as (r' & d' & ks & He & _).
  pose proof (run_in_eq 1 crashed _ _ _ _ _ eq_refl He) as H2.
  destruct (crash_evicts reg_dir reg_join wait_ms 0 1 maya_key owned_system crashed (mkSystem (<[1%nat := r']> (procs crashed)) d')
    (entries_to_map [maya_row]) (at_time 9000) owned_consistent owned_owns (calm_quiet _ _ _) eq_refl) as (m2 & G1 & G2 & _).
  - intros r Hr. cbn in Hr. by injection Hr as <-.
  - exact H1.
  - exact H2.
  - eexists _, m2. split; [exact H1|]. split; [exact H2|]. split; [exact G1|exact G2].
Defined.

(** A heartbeat whose rename never succeeds: the file is the one it was. *)
Definition no_rename (t : Z) : Env :=
  mkEnv t t 100 (fun _ => true) [(Locked, 0)] false false [(WouldBlock, 10); (Locked, 20)] (fun _ a => (a <? 3)%nat) true false (fun _ => false) None
    (fun _ => true) false None None.

Lemma failed_call_keeps_witness :
  let d := dir_of [maya_row] ∅ ∅ in let m := entries_to_map [maya_row] in
  let '((_, d'), o) := with_write_transaction reg_dir reg_join wait_ms (no_rename 2000) (on_rows (update_row maya_key (touch 2000))) (owner, d) in
  match o with
  | Ret (Err e) => if decide (e = RegistryFile UnlockFailed) then True else registry_file d' = registry_file d
  | Ret (Ok _) => stores d' (update_row maya_key (touch 2000) m).1
  | Unwinds => False
  | Waits => d' = d
  end.
Proof.
  cbv zeta. pose proof (dir_stores [maya_row] ∅ ∅ (proj2 (Forall_singleton _ _) maya_durable) one_keys) as Hs.
  destruct (update_row_keeps maya_key (touch 2000) (entries_to_map [maya_row])) as [Hf Hch].
  { exact (stores_durable _ _ Hs). } { by intros []. } { intros e. apply durable_touch. unfold TIME_END, NANOS, i64_max. lia. }
  pose proof (failed_call_keeps reg_dir reg_join wait_ms (no_rename 2000) (update_row maya_key (touch 2000)) owner (dir_of [maya_row] ∅ ∅)
    (entries_to_map [maya_row]) eq_refl eq_refl Hs Hf Hch) as G.
  destruct (with_write_transaction _ _ _ _ _ _) as [[r' d'] [[v|e]| |]]; [exact (proj1 (proj2 G))| |exact G|exact (proj2 G)].
  destruct (decide _); [exact I|exact (proj1 G)].
Defined.
