(* ===== verification/UpdateFs.v ===== *)
(** The disk under the updater ([dcc-mcp-updater]): what its file operations do when they
    succeed, when they fail and when the process dies in the middle, the monad of code
    that performs them, and a Hoare logic in which the disk after a crash has a
    condition of its own. *)

From S2P Require Import Prelude Text Json.

Local Open Scope Z_scope.

(** ** The disk *)

(** An entry of the installation: a regular file, or anything else (a directory, a link). *)
Inductive node : Type :=
| File (content : str)
| Special.

(** An entry of the staging root: a file, a directory of files, or anything else. *)
Inductive place : Type :=
| Leaf (content : str)
| Dir (members : gmap str str)
| Odd.

(** The files of the installation by path, the staging root by name. *)
Record Disk : Type := mkDisk {
  files : gmap str node;
  places : gmap str place;
}.

(** Where a file is: in the installation, in the staging root, in one of its directories. *)
Inductive loc : Type :=
| At (path : str)
| Top (name : str)
| In (dir name : str).

Definition lookup_loc (l : loc) (d : Disk) : option node :=
  match l with
  | At p => files d !! p
  | Top n => match places d !! n with Some (Leaf c) => Some (File c) | Some _ => Some Special | None => None end
  | In dir n => match places d !! dir with Some (Dir fs) => File <$> fs !! n | _ => None end
  end.

(** Creating or replacing a file; nothing happens in a directory that is not there. *)
Definition put (l : loc) (c : str) (d : Disk) : Disk :=
  match l with
  | At p => mkDisk (<[p := File c]> (files d)) (places d)
  | Top n => mkDisk (files d) (<[n := Leaf c]> (places d))
  | In dir n => mkDisk (files d) (alter (fun x => match x with Dir fs => Dir (<[n := c]> fs) | _ => x end) dir (places d))
  end.

Definition drop_loc (l : loc) (d : Disk) : Disk :=
  match l with
  | At p => mkDisk (base.delete p (files d)) (places d)
  | Top n => mkDisk (files d) (base.delete n (places d))
  | In dir n => mkDisk (files d) (alter (fun x => match x with Dir fs => Dir (base.delete n fs) | _ => x end) dir (places d))
  end.

(** Whether a file can be created there. *)
Definition has_parent (l : loc) (d : Disk) : bool :=
  match l with In dir _ => match places d !! dir with Some (Dir _) => true | _ => false end | _ => true end.

(** ** Errors *)

Inductive IoKind : Type := NotFound | InUse | OtherIo.

(** The conditions reported as [UpdateError::Stage]. *)
Inductive Reason : Type :=
| RecoverPending | EmptySet | DuplicateTargets | ComponentMissing | NoCurrentExecutable | BadBuildVersion
| NotDirectory | NotRegular | HashMissing | UnexpectedBackup | NoOriginalDigest | TargetAppeared
| UnrecognizedFile | UnsupportedFormat | ForeignExecutable | ForeignComponents | NewerSource | SourceChanged
| NoServerComponent | DuplicateServer | ForeignGeneration | NotCommitted | Incomplete | InvalidTarget | InvalidSha
| ExecutableMissing | NoDataDir | LockTimeout | ClockError | NoParent | NoFileName.

(** Of the context of a failed operation its name is kept; a condition that the code
    describes by a text is a [Reason], and an error inside such a text stays an error. *)
Inductive UpdateError : Type :=
| JsonError
| Io (k : IoKind)
| IoWithContext (operation : str) (k : IoKind)
| ChecksumMismatch (expected actual : str)
| Stage (r : Reason)
| RollbackFailed (error rollback_error : UpdateError)
| QuarantineFailed (reason : UpdateError) (k : IoKind)
| RejectedStagedUpdate (reason : UpdateError)
| LegacyUnsignedStage
| InvalidBinaryName
| Http
| Gateway (status : Z) (error message : str)
| MissingChecksum (binary_name : str)
| InvalidChecksum (binary_name : str)
| MissingDownloadUrl (binary_name : str)
| DownloadTooLarge (max_bytes : Z)
| EmptyDownload.

#[export] Instance IoKind_eq_dec : EqDecision IoKind.
Proof. solve_decision. Defined.
#[export] Instance Reason_eq_dec : EqDecision Reason.
Proof. solve_decision. Defined.

(** ** Programs *)

(** How far an interrupted operation got: a copy, a recursive removal. *)
Record Cut : Type := mkCut { opened : bool; written : nat; removed : gset str }.

(** What happens at an operation: it goes through, fails, or the process dies in it. *)
Inductive Fate : Type :=
| Goes
| Fails (in_use : bool) (c : Cut)
| Dies (c : Cut).

Inductive outcome (A : Type) : Type :=
| Ret (r : result UpdateError A)
| Crashed.
Arguments Ret {A} r.
Arguments Crashed {A}.

(** A program consumes one fate at each operation; past the end of the list all go through. *)
Definition M (A : Type) : Type := Disk -> list Fate -> (Disk * list Fate) * outcome A.

Definition ret {A} (a : A) : M A := fun d fs => ((d, fs), Ret (Ok a)).
Definition raise {A} (e : UpdateError) : M A := fun d fs => ((d, fs), Ret (Err e)).
Definition bind {A B} (m : M A) (k : A -> M B) : M B := fun d fs =>
  match m d fs with
  | ((d, fs), Ret (Ok a)) => k a d fs
  | ((d, fs), Ret (Err e)) => ((d, fs), Ret (Err e))
  | ((d, fs), Crashed) => ((d, fs), Crashed)
  end.
(** The result of code whose error the caller handles. *)
Definition attempt {A} (m : M A) : M (result UpdateError A) := fun d fs =>
  match m d fs with
  | ((d, fs), Ret r) => ((d, fs), Ret (Ok r))
  | ((d, fs), Crashed) => ((d, fs), Crashed)
  end.

Notation "'let!' x ':=' m 'in' k" := (bind m (fun x => k))
  (at level 10, x pattern, m at level 100, k at level 200) : dcc_scope.

(** A check of the code: the [?] of a pure result, an early return. *)
Definition lift {A} (r : result UpdateError A) : M A := match r with Ok a => ret a | Err e => raise e end.
Definition ensure (b : bool) (e : UpdateError) : M unit := if b then ret tt else raise e.

(** [Path::exists], [is_file], [is_dir]: an error counts as no. *)
Definition ask {A} (f : Disk -> A) : M A := fun d fs => ((d, fs), Ret (Ok (f d))).

(** ** Operations *)

(** One operation of the file system, with what it leaves when it does not go through. *)
Definition operate {A} (full : Disk -> result IoKind (A * Disk)) (part : Cut -> Disk -> Disk) : M (result IoKind A) := fun d fs =>
  match fs with
  | Fails u c :: fs => ((part c d, fs), Ret (Ok (Err (if u then InUse else OtherIo))))
  | Dies c :: fs => ((part c d, fs), Crashed)
  | _ =>
      match full d with
      | Ok (a, d') => ((d', tail fs), Ret (Ok (Ok a)))
      | Err k => ((d, tail fs), Ret (Ok (Err k)))
      end
  end.

(** The error as it is, and with the context [record_io_failure] adds. *)
Definition or_io {A} (m : M (result IoKind A)) : M A :=
  let! r := m in match r with Ok a => ret a | Err k => raise (Io k) end.
Definition record_io_failure {A} (operation : str) (m : M (result IoKind A)) : M A :=
  let! r := m in match r with Ok a => ret a | Err k => raise (IoWithContext operation k) end.
(** [let _ = ...]. *)
Definition ignore {A} (m : M (result IoKind A)) : M unit := let! _ := m in ret tt.

Definition unharmed (c : Cut) (d : Disk) : Disk := d.

Definition read_file (l : loc) : M (result IoKind str) :=
  operate (fun d => match lookup_loc l d with
                    | Some (File c) => Ok (c, d)
                    | Some Special => Err OtherIo
                    | None => Err NotFound
                    end) unharmed.

(** [symlink_metadata]: what is there, if anything is. *)
Definition stat (l : loc) : M (result IoKind (option node)) := operate (fun d => Ok (lookup_loc l d, d)) unharmed.

(** [fs::rename] of a file over nothing or over a file. *)
Definition rename (p q : str) : M (result IoKind unit) :=
  operate (fun d => match files d !! p, files d !! q with
                    | None, _ => Err NotFound
                    | _, Some Special => Err OtherIo
                    | Some n, _ => Ok (tt, mkDisk (<[q := n]> (base.delete p (files d))) (places d))
                    end) unharmed.

Definition remove_file (l : loc) : M (result IoKind unit) :=
  operate (fun d => match lookup_loc l d with
                    | Some (File _) => Ok (tt, drop_loc l d)
                    | Some Special => Err OtherIo
                    | None => Err NotFound
                    end) unharmed.

(** [fs::copy]: an interrupted copy leaves the target as it was, or a beginning of it. *)
Definition copy (l m : loc) : M (result IoKind unit) :=
  operate (fun d => match lookup_loc l d with
                    | Some (File c) =>
                        match lookup_loc m d with
                        | Some Special => Err OtherIo
                        | _ => if has_parent m d then Ok (tt, put m c d) else Err NotFound
                        end
                    | Some Special => Err OtherIo
                    | None => Err NotFound
                    end)
    (fun cut d => match lookup_loc l d, lookup_loc m d with
                  | Some (File c), Some Special => d
                  | Some (File c), _ => if opened cut && has_parent m d then put m (take (written cut) c) d else d
                  | _, _ => d
                  end).

(** A temporary file, synced and renamed into place: [write_json_atomic].  The temporary
    file that a process dying in it leaves is looked at by nobody. *)
Definition write_atomic (l : loc) (c : str) : M (result IoKind unit) :=
  operate (fun d => match lookup_loc l d with
                    | Some Special => Err OtherIo
                    | _ => if has_parent l d then Ok (tt, put l c d) else Err NotFound
                    end) unharmed.

Definition create_dir (n : str) : M (result IoKind unit) :=
  operate (fun d => match places d !! n with Some _ => Err OtherIo | None => Ok (tt, mkDisk (files d) (<[n := Dir ∅]> (places d))) end) unharmed.

(** [fs::rename] of a directory of the staging root over nothing or an empty directory. *)
Definition rename_dir (a b : str) : M (result IoKind unit) :=
  operate (fun d => match places d !! a with
                    | None => Err NotFound
                    | Some x =>
                        if match places d !! b with None => true | Some (Dir fs) => bool_decide (fs = ∅) | _ => false end
                        then Ok (tt, mkDisk (files d) (<[b := x]> (base.delete a (places d))))
                        else Err OtherIo
                    end) unharmed.

(** [fs::remove_dir_all] takes the members first; an interrupted one has taken some. *)
Definition remove_dir_all (n : str) : M (result IoKind unit) :=
  operate (fun d => match places d !! n with
                    | Some (Dir _) => Ok (tt, mkDisk (files d) (base.delete n (places d)))
                    | Some _ => Err OtherIo
                    | None => Err NotFound
                    end)
    (fun cut d => mkDisk (files d) (alter (fun x => match x with
                                                    | Dir fs => Dir (base.filter (fun kv : str * str => kv.1 ∉ removed cut) fs)
                                                    | _ => x
                                                    end) n (places d))).

(** The order in which a directory is listed. *)
Class DirOrder : Type := {
  dir_order : gmap str place -> list str;
  dir_order_perm m : dir_order m ≡ₚ (map_to_list m).*1;
}.

#[export] Instance listed_dir : DirOrder := {| dir_order m := (map_to_list m).*1; dir_order_perm _ := reflexivity _ |}.

Definition read_dir {o : DirOrder} : M (result IoKind (list str)) := operate (fun d => Ok (dir_order (places d), d)) unharmed.

(** ** Reasoning about programs *)

Definition faulty (fs : list Fate) : Prop := Exists (fun f => f <> Goes) fs.

(** What holds after a program: [Q] when it answers, [E] when it fails, [C] of the disk
    that a process dying in it leaves; [F] says that some operation did not go through
    or the process was kept waiting: it holds when a process dies, and may be used
    wherever a fault is the only way to get there. *)
Definition wp {A} (F : Prop) (m : M A) (d : Disk) (Q : A -> Disk -> Prop) (E : UpdateError -> Disk -> Prop) (C : Disk -> Prop) : Prop :=
  forall fs, (faulty fs -> F) ->
  match m d fs with
  | ((d', fs'), Ret (Ok a)) => Q a d' /\ (faulty fs' -> F)
  | ((d', fs'), Ret (Err e)) => E e d' /\ (faulty fs' -> F)
  | ((d', _), Crashed) => F /\ C d'
  end.

Section Logic.
Context (F : Prop).

Lemma wp_ret {A} (a : A) d (Q : A -> Disk -> Prop) E C : Q a d -> wp F (ret a) d Q E C.
Proof. intros H fs Hf. by split. Qed.

Lemma wp_raise {A} e d (Q : A -> Disk -> Prop) (E : UpdateError -> Disk -> Prop) C : E e d -> wp F (raise e) d Q E C.
Proof. intros H fs Hf. by split. Qed.

Lemma wp_bind {A B} (m : M A) (k : A -> M B) d Q E C : wp F m d (fun a d => wp F (k a) d Q E C) E C -> wp F (bind m k) d Q E C.
Proof.
  intros H fs Hf. unfold bind. specialize (H fs Hf). destruct (m d fs) as [[d' fs'] [[a|e]|]]; [|done..].
  destruct H as [Hk Hf']. exact (Hk fs' Hf').
Qed.

Lemma wp_attempt {A} (m : M A) d (Q : result UpdateError A -> Disk -> Prop) E C :
  wp F m d (fun a => Q (Ok a)) (fun e => Q (Err e)) C -> wp F (attempt m) d Q E C.
Proof.
  intros H fs Hf. unfold attempt. specialize (H fs Hf). by destruct (m d fs) as [[d' fs'] [[a|e]|]].
Qed.

Lemma wp_mono {A} (m : M A) d (Q Q' : A -> Disk -> Prop) (E E' : UpdateError -> Disk -> Prop) (C C' : Disk -> Prop) :
  wp F m d Q E C -> (forall a d, Q a d -> Q' a d) -> (forall e d, E e d -> E' e d) -> (forall d, C d -> C' d) -> wp F m d Q' E' C'.
Proof.
  intros H HQ HE HC fs Hf. specialize (H fs Hf). destruct (m d fs) as [[d' fs'] [[a|e]|]]; destruct H; split; auto.
Qed.

Lemma wp_ask {A} (f : Disk -> A) d Q E C : Q (f d) d -> wp F (ask f) d Q E C.
Proof. intros H fs Hf. by split. Qed.

Lemma wp_ensure b e d (Q : unit -> Disk -> Prop) E C : b = true -> Q tt d -> wp F (ensure b e) d Q E C.
Proof. intros -> H. by apply wp_ret. Qed.

Lemma wp_operate_fault {A} (full : Disk -> result IoKind (A * Disk)) part d (Q : result IoKind A -> Disk -> Prop) E (C : Disk -> Prop) :
  match full d with Ok (a, d') => Q (Ok a) d' | Err k => Q (Err k) d end ->
  (F -> forall k c, k <> NotFound -> Q (Err k) (part c d)) -> (F -> forall c, C (part c d)) -> wp F (operate full part) d Q E C.
Proof.
  intros H1 H2 H3 fs Hf. unfold operate.
  assert (Hgo : match (match full d with Ok (a, d') => ((d', tail fs), Ret (Ok (Ok a))) | Err k => ((d, tail fs), Ret (Ok (Err k))) end : (Disk * list Fate) * outcome (result IoKind A)) with
    | ((d', fs'), Ret (Ok a)) => Q a d' /\ (faulty fs' -> F)
    | ((d', fs'), Ret (Err e)) => E e d' /\ (faulty fs' -> F)
    | ((d', _), Crashed) => F /\ C d' end).
  { assert (Ht : faulty (tail fs) -> F) by (intros H; apply Hf; destruct fs; [done|by right]). destruct (full d) as [[a d']|k]; done. }
  destruct fs as [|[|x c|c] fs]; try exact Hgo.
  - assert (HF : F) by (apply Hf; by left). split; [by apply H2; destruct x|done].
  - assert (HF : F) by (apply Hf; by left). split; [done|by apply H3].
Qed.

Lemma wp_operate {A} (full : Disk -> result IoKind (A * Disk)) part d (Q : result IoKind A -> Disk -> Prop) E (C : Disk -> Prop) :
  match full d with Ok (a, d') => Q (Ok a) d' | Err k => Q (Err k) d end ->
  (F -> forall k c, Q (Err k) (part c d)) -> (F -> forall c, C (part c d)) -> wp F (operate full part) d Q E C.
Proof. intros H1 H2 H3. apply wp_operate_fault; auto. Qed.

(** An operation that can go through: it fails only by a fault. *)
Lemma wp_io {A} (full : Disk -> result IoKind (A * Disk)) part a d d' (Q : A -> Disk -> Prop) (E : UpdateError -> Disk -> Prop) (C : Disk -> Prop) :
  full d = Ok (a, d') -> Q a d' -> (F -> forall k c, E (Io k) (part c d)) -> (F -> forall c, C (part c d)) ->
  wp F (or_io (operate full part)) d Q E C.
Proof.
  intros Hf HQ HE HC. apply wp_bind, wp_operate; [|intros HF k c; by apply wp_raise, HE|done]. rewrite Hf. by apply wp_ret.
Qed.

Lemma wp_io_context {A} op (full : Disk -> result IoKind (A * Disk)) part a d d' (Q : A -> Disk -> Prop) (E : UpdateError -> Disk -> Prop) (C : Disk -> Prop) :
  full d = Ok (a, d') -> Q a d' -> (F -> forall k c, E (IoWithContext op k) (part c d)) -> (F -> forall c, C (part c d)) ->
  wp F (record_io_failure op (operate full part)) d Q E C.
Proof.
  intros Hf HQ HE HC. apply wp_bind, wp_operate; [|intros HF k c; by apply wp_raise, HE|done]. rewrite Hf. by apply wp_ret.
Qed.

End Logic.
