(* ===== verification/UpdateSet.v ===== *)
(** Staged updates, [dcc-mcp-updater/src/update_set.rs] and [committed_cleanup.rs]: staging a
    set of components for an installation, applying it on the next launch with a journal,
    rolling back, and cleaning up.  Everything happens under the lock of the
    installation; a launch is a program on the disk that may fail or die at any operation. *)

From S2P Require Import Prelude Text Json UpdateFs.

Local Open Scope Z_scope.

(** ** Data *)

Inductive UpdateTarget : Type :=
| CurrentExecutable
| Sibling (file_name : str).

#[export] Instance UpdateTarget_eq_dec : EqDecision UpdateTarget.
Proof. solve_decision. Defined.

Record UpdateSetSource : Type := mkSource { downloaded : str; source_target : UpdateTarget; source_sha256 : str }.

Record StagedComponent : Type := mkComponent { staged_file : str; component_target : UpdateTarget; component_sha256 : str }.

Record UpdateSetManifest : Type := mkManifest {
  format_version : Z;
  bound_executable : str;
  source_build_version : str;
  source_server_sha256 : str;
  components : list StagedComponent;
}.

Record AppliedGeneration : Type := mkGeneration {
  gen_format_version : Z;
  gen_bound_executable : str;
  gen_source_build_version : str;
  gen_source_server_sha256 : str;
  target_server_sha256 : str;
}.

Inductive JournalState : Type := Applying | Committed.

Record JournalEntry : Type := mkEntry {
  target : str;
  prepared : str;
  backup : str;
  had_original : bool;
  original_sha256 : option str;
  expected_sha256 : str;
}.

Record UpdateJournal : Type := mkJournal { journal_state : JournalState; entries : list JournalEntry }.

Inductive UpdateSetPolicy : Type := AnyPolicy | CurrentExecutableOnly.

#[export] Instance JournalState_eq_dec : EqDecision JournalState.
Proof. solve_decision. Defined.
#[export] Instance UpdateSetPolicy_eq_dec : EqDecision UpdateSetPolicy.
Proof. solve_decision. Defined.

(** The JSON of the three files, derived by serde. *)
Class UpdateCodec : Type := {
  manifest_text : UpdateSetManifest -> str;
  parse_manifest : str -> option UpdateSetManifest;
  parse_manifest_text m : parse_manifest (manifest_text m) = Some m;
  journal_text : UpdateJournal -> str;
  parse_journal : str -> option UpdateJournal;
  parse_journal_text j : parse_journal (journal_text j) = Some j;
  generation_text : AppliedGeneration -> str;
  parse_generation : str -> option AppliedGeneration;
  parse_generation_text g : parse_generation (generation_text g) = Some g;
}.

Definition PENDING_SET_DIR : str := lit "pending-set".
Definition PREVIOUS_SET_DIR : str := lit "pending-set.previous".
Definition COMMITTED_SET_PREFIX : str := lit "pending-set.committed-".
Definition REJECTED_SET_PREFIX : str := lit "pending-set.rejected-".
Definition MANIFEST_FILE : str := lit "manifest.json".
Definition JOURNAL_FILE : str := lit "journal.json".
Definition APPLIED_GENERATION_FILE : str := lit "applied-generation.json".

(** ** Names and paths *)

(** [Path::parent] with its slash, and [Path::file_name], of a path with a slash. *)
Definition split_path (p : str) : option (str * str) :=
  match split_once [ch_slash] (reverse p) with
  | Some (name, dir) => if bool_decide (name = []) then None else Some (reverse dir ++ [ch_slash], reverse name)
  | None => None
  end.

Definition with_file_name (p n : str) : str := match split_path p with Some (dir, _) => dir ++ n | None => n end.

Definition portable_byte (c : Z) : bool := is_ascii_alphanumeric c || (c =? ch_dash) || (c =? ch_underscore) || (c =? ch_dot).

(** The remaining conditions of the code follow from these two: such a name has no
    separator, and it is its own last component. *)
Definition valid_sibling_name (n : str) : bool :=
  negb (bool_decide (n = [])) && forallb portable_byte n && negb (ends_with [ch_dot] n).

Definition validate_sibling_name (n : str) : result UpdateError unit :=
  if valid_sibling_name n then Ok tt else Err (Stage InvalidTarget).

Definition validate_target (t : UpdateTarget) : result UpdateError unit :=
  match t with Sibling n => validate_sibling_name n | CurrentExecutable => Ok tt end.

Definition valid_sha (s : str) : bool := (length s =? 64)%nat && forallb is_ascii_hexdigit s.

Definition validate_expected_sha (s : str) : result UpdateError unit := if valid_sha s then Ok tt else Err (Stage InvalidSha).

Definition target_key (t : UpdateTarget) : str :=
  match t with CurrentExecutable => lit "current" | Sibling n => lit "sibling:" ++ to_ascii_lowercase_str n end.

(** [is_newer_version], [lib.rs]. *)
Definition parse_segment (s : str) : Z := default 0 (parse_u64 (fst (span is_ascii_digit s))).

Definition version_part (v : str) (i : nat) : Z := default 0 (map parse_segment (split_char ch_dot v) !! i).

Fixpoint newer_from (candidate current : str) (i n : nat) : bool :=
  match n with
  | O => false
  | S n =>
      let a := version_part candidate i in
      let b := version_part current i in
      if b <? a then true else if a <? b then false else newer_from candidate current (S i) n
  end.

Definition is_newer_version (candidate current : str) : bool := newer_from candidate current 0 3.

(** ** Files *)

Section Updater.
Context {sha : Sha256} {codec : UpdateCodec} {dirs : DirOrder}.
Context (windows : bool).

Definition path_key (p : str) : str := if windows then to_ascii_lowercase_str p else p.
Definition paths_equal (a b : str) : bool := bool_decide (path_key a = path_key b).

Definition is_file (l : loc) (d : Disk) : bool := match lookup_loc l d with Some (File _) => true | _ => false end.
Definition exists_in (l : loc) (d : Disk) : bool := bool_decide (is_Some (lookup_loc l d)).
Definition place_exists (n : str) (d : Disk) : bool := bool_decide (is_Some (places d !! n)).
Definition is_dir (n : str) (d : Disk) : bool := match places d !! n with Some (Dir _) => true | _ => false end.

Definition ensure_reserved_file_path (l : loc) : M bool :=
  let! n := or_io (stat l) in
  match n with Some (File _) => ret true | Some Special => raise (Stage NotRegular) | None => ret false end.

Definition sha256_file (l : loc) : M str := let! c := or_io (read_file l) in ret (sha256 c).

Definition require_file_hash (l : loc) (expected : str) : M unit :=
  let! there := ensure_reserved_file_path l in
  let! _ := ensure there (Stage HashMissing) in
  let! actual := sha256_file l in
  ensure (eq_ignore_ascii_case actual expected) (ChecksumMismatch (to_ascii_lowercase_str expected) actual).

Definition prepare_verified_copy (source goal : loc) (expected : str) : M unit :=
  let! _ := ensure_reserved_file_path goal in
  let! _ := record_io_failure (lit "copy_staged_to_prepared") (copy source goal) in
  require_file_hash goal expected.

Definition remove_reserved_file (l : loc) : M unit :=
  let! there := ensure_reserved_file_path l in
  if there then record_io_failure (lit "remove_reserved_file") (remove_file l) else ret tt.

Definition parsed {A} (parse : str -> option A) (l : loc) : M A :=
  let! bytes := or_io (read_file l) in
  match parse bytes with Some a => ret a | None => raise JsonError end.

Definition read_manifest (dir : str) : M UpdateSetManifest := parsed parse_manifest (In dir MANIFEST_FILE).
Definition read_journal (dir : str) : M UpdateJournal := parsed parse_journal (In dir JOURNAL_FILE).
Definition write_journal (j : UpdateJournal) : M unit := or_io (write_atomic (In PENDING_SET_DIR JOURNAL_FILE) (journal_text j)).

(** *** Committed transactions, [committed_cleanup.rs] *)

Definition is_deferred_image_lock (e : UpdateError) : bool :=
  windows && match e with IoWithContext _ InUse | Io InUse => true | _ => false end.

Definition remove_committed_file (l : loc) (expected : str) (alternate : option str) (defer_in_use : bool) : M bool :=
  let! there := ensure_reserved_file_path l in
  if there then
    let! digest := sha256_file l in
    let! _ := ensure (eq_ignore_ascii_case digest expected || match alternate with Some a => eq_ignore_ascii_case digest a | None => false end)
      (Stage UnrecognizedFile) in
    let! r := attempt (record_io_failure (lit "remove_committed_reserved_file") (remove_file l)) in
    match r with
    | Ok _ => ret true
    | Err e => if defer_in_use && is_deferred_image_lock e then ret false else raise e
    end
  else ret true.

Definition cleanup_entry (e : JournalEntry) : M bool :=
  let! a := remove_committed_file (At (prepared e)) (expected_sha256 e) (original_sha256 e) true in
  let! there := ensure_reserved_file_path (At (backup e)) in
  if there then
    match original_sha256 e with
    | None => raise (Stage UnexpectedBackup)
    | Some o => let! b := remove_committed_file (At (backup e)) o None true in ret (a && b)
    end
  else ret a.

Fixpoint cleanup_committed_entries (es : list JournalEntry) : M bool :=
  match es with
  | [] => ret true
  | e :: es => let! a := cleanup_entry e in let! b := cleanup_committed_entries es in ret (a && b)
  end.

Fixpoint cleanup_sets (names : list str) : M unit :=
  match names with
  | [] => ret tt
  | n :: names =>
      let! committed := ask (fun d => starts_with COMMITTED_SET_PREFIX n && is_dir n d) in
      let! _ :=
        (if committed then
           let! j := read_journal n in
           let! _ := ensure (bool_decide (journal_state j = Committed)) (Stage NotCommitted) in
           let! clean := cleanup_committed_entries (entries j) in
           if clean then or_io (remove_dir_all n) else ret tt
         else ret tt) in
      cleanup_sets names
  end.

Definition cleanup_committed_sets : M unit := let! names := or_io read_dir in cleanup_sets names.

(** *** Swapping sets *)

Definition recover_stage_swap : M unit :=
  let! previous := ask (place_exists PREVIOUS_SET_DIR) in
  if negb previous then ret tt
  else
    let! previous_dir := ask (is_dir PREVIOUS_SET_DIR) in
    let! _ := ensure previous_dir (Stage NotDirectory) in
    let! pending := ask (place_exists PENDING_SET_DIR) in
    if pending then
      let! complete := ask (fun d => is_dir PENDING_SET_DIR d && is_file (In PENDING_SET_DIR MANIFEST_FILE) d) in
      let! _ := ensure complete (Stage Incomplete) in
      record_io_failure (lit "remove_superseded_previous_set") (remove_dir_all PREVIOUS_SET_DIR)
    else record_io_failure (lit "rename_previous_to_pending") (rename_dir PREVIOUS_SET_DIR PENDING_SET_DIR).

(** ** One call *)

Inductive LockTry : Type := Locked | WouldBlock | LockError.

Inductive NonceUse : Type := ForTemp | ForDetached | ForRejected | ForBackup (target : str).

(** What a call finds: the attempts at its two locks with the time waited, and the nonces. *)
Record Call : Type := mkCall {
  timeout : Z;
  process_tries : list (bool * Z);
  file_tries : list (LockTry * Z);
  nonce : NonceUse -> option str;
  data_dir : bool;
}.

Section OneCall.
Context (call : Call).

(** [remaining_lock_time] after each failed attempt; a process that waits may die waiting. *)
Fixpoint acquire_process_installation_lock (tries : list (bool * Z)) : M unit :=
  match tries with
  | [] => fun d fs => ((d, fs), Crashed)
  | (true, _) :: _ => ret tt
  | (false, elapsed) :: tries => if timeout call <? elapsed then raise (Stage LockTimeout) else acquire_process_installation_lock tries
  end.

Fixpoint acquire_file_lock (tries : list (LockTry * Z)) : M unit :=
  match tries with
  | [] => fun d fs => ((d, fs), Crashed)
  | (Locked, _) :: _ => ret tt
  | (LockError, _) :: _ => raise (Io OtherIo)
  | (WouldBlock, elapsed) :: tries => if timeout call <? elapsed then raise (Stage LockTimeout) else acquire_file_lock tries
  end.

(** Creating the root and opening the lock file change nothing else. *)
Definition acquire_installation_lock : M unit :=
  let! _ := acquire_process_installation_lock (process_tries call) in
  let! _ := record_io_failure (lit "create_dir_all") (operate (fun d => Ok (tt, d)) unharmed) in
  let! _ := record_io_failure (lit "open_transaction_lock") (operate (fun d => Ok (tt, d)) unharmed) in
  acquire_file_lock (file_tries call).

Definition unique_nonce (u : NonceUse) : M str := match nonce call u with Some n => ret n | None => raise (Stage ClockError) end.

(** The executable is given by its canonical path. *)
Definition canonical_existing (exe : str) : M str :=
  let! there := ask (is_file (At exe)) in
  let! _ := ensure there (Stage ExecutableMissing) in
  let! _ := record_io_failure (lit "canonicalize") (operate (fun d => Ok (tt, d)) unharmed) in ret exe.

Definition installation_staging_dir : M unit := ensure (data_dir call) (Stage NoDataDir).

(** *** Generations *)

Definition persist_applied_generation (m : UpdateSetManifest) : M unit :=
  let! _ := lift (validate_expected_sha (source_server_sha256 m)) in
  let! _ := ensure (negb (bool_decide (source_build_version m = [])) && (str_len (source_build_version m) <=? 128)%nat) (Stage BadBuildVersion) in
  match base.filter (fun c => component_target c = CurrentExecutable) (components m) with
  | [] => raise (Stage NoServerComponent)
  | [c] =>
      let! _ := lift (validate_expected_sha (component_sha256 c)) in
      let! _ := require_file_hash (At (bound_executable m)) (component_sha256 c) in
      or_io (write_atomic (Top APPLIED_GENERATION_FILE) (generation_text
        (mkGeneration 1 (bound_executable m) (source_build_version m) (source_server_sha256 m) (component_sha256 c))))
  | _ => raise (Stage DuplicateServer)
  end.

Definition applied_generation_requires_reexec (exe build : str) : M bool :=
  let! there := ensure_reserved_file_path (Top APPLIED_GENERATION_FILE) in
  if negb there then ret false
  else
    let! g := parsed parse_generation (Top APPLIED_GENERATION_FILE) in
    let! _ := ensure ((gen_format_version g =? 1) && paths_equal exe (gen_bound_executable g)) (Stage ForeignGeneration) in
    let! _ := lift (validate_expected_sha (gen_source_server_sha256 g)) in
    let! _ := lift (validate_expected_sha (target_server_sha256 g)) in
    if eq_ignore_ascii_case (gen_source_server_sha256 g) (target_server_sha256 g) || is_newer_version build (gen_source_build_version g)
    then ret false
    else let! actual := sha256_file (At exe) in ret (eq_ignore_ascii_case actual (target_server_sha256 g)).

(** *** Manifests *)

Definition component_file (i : nat) : str := lit "component-" ++ print_u64 (Z.of_nat i) ++ lit ".bin".

Fixpoint components_shape (i : nat) (cs : list StagedComponent) : result UpdateError unit :=
  match cs with
  | [] => Ok tt
  | c :: cs =>
      if negb (bool_decide (staged_file c = component_file i)) then Err (Stage InvalidTarget)
      else
        let? _ := validate_target (component_target c) in
        let? _ := validate_expected_sha (component_sha256 c) in
        components_shape (S i) cs
  end.

Definition validate_manifest_shape (m : UpdateSetManifest) : result UpdateError unit :=
  if negb (format_version m =? 2) then Err (Stage UnsupportedFormat)
  else
    let? _ := validate_expected_sha (source_server_sha256 m) in
    if bool_decide (components m = []) then Err (Stage EmptySet) else components_shape 0 (components m).

Definition validate_single_binary_manifest (m : UpdateSetManifest) (exe : str) : result UpdateError unit :=
  if negb (format_version m =? 2) then Err (Stage UnsupportedFormat)
  else if negb (paths_equal exe (bound_executable m)) then Err (Stage ForeignExecutable)
  else match components m with
       | [c] => if bool_decide (component_target c = CurrentExecutable) then Ok tt else Err (Stage ForeignComponents)
       | _ => Err (Stage ForeignComponents)
       end.

Definition is_rejectable_manifest_read_error (e : UpdateError) : bool :=
  match e with JsonError | Io NotFound => true | _ => false end.

Definition reject_pending_set {A} (e : UpdateError) : M A :=
  let! n := unique_nonce ForRejected in
  let! r := rename_dir PENDING_SET_DIR (REJECTED_SET_PREFIX ++ n) in
  match r with Ok _ => raise (RejectedStagedUpdate e) | Err k => raise (QuarantineFailed e k) end.

Definition reject_or_return {A} (policy : UpdateSetPolicy) (e : UpdateError) : M A :=
  match policy with CurrentExecutableOnly => reject_pending_set e | AnyPolicy => raise e end.

(** A check whose failure rejects the set under the policy for single binaries. *)
Definition admit_or {A} (policy : UpdateSetPolicy) (r : result UpdateError A) : M A :=
  match r with Ok a => ret a | Err e => reject_or_return policy e end.

(** *** The transaction *)

(** One entry of [apply_entries_with], its prepared file published by a rename. *)
Definition apply_entry (e : JournalEntry) : M unit :=
  let! _ := lift (validate_expected_sha (expected_sha256 e)) in
  let! stale := ensure_reserved_file_path (At (backup e)) in
  let! _ :=
    (if stale then
       match original_sha256 e with
       | None => raise (Stage UnexpectedBackup)
       | Some o =>
           let! _ := require_file_hash (At (backup e)) o in
           let! _ := require_file_hash (At (target e)) o in
           record_io_failure (lit "remove_stale_backup") (remove_file (At (backup e)))
       end
     else ret tt) in
  let! _ :=
    (if had_original e then
       match original_sha256 e with
       | None => raise (Stage NoOriginalDigest)
       | Some o =>
           let! _ := require_file_hash (At (target e)) o in
           record_io_failure (lit "rename_target_to_backup") (rename (target e) (backup e))
       end
     else
       let! there := ensure_reserved_file_path (At (target e)) in
       ensure (negb there) (Stage TargetAppeared)) in
  let! _ := require_file_hash (At (prepared e)) (expected_sha256 e) in
  let! _ := record_io_failure (lit "rename_prepared_to_target") (rename (prepared e) (target e)) in
  require_file_hash (At (target e)) (expected_sha256 e).

Fixpoint apply_entries (es : list JournalEntry) : M unit :=
  match es with
  | [] => ret tt
  | e :: es => let! _ := apply_entry e in apply_entries es
  end.

Definition rollback_entry (e : JournalEntry) : M unit :=
  let! _ := lift (validate_expected_sha (expected_sha256 e)) in
  if had_original e then
    match original_sha256 e with
    | None => raise (Stage NoOriginalDigest)
    | Some o =>
        let! _ := lift (validate_expected_sha o) in
        let! target_is_file := ensure_reserved_file_path (At (target e)) in
        let! untouched := (if target_is_file then let! s := sha256_file (At (target e)) in ret (eq_ignore_ascii_case s o) else ret false) in
        if untouched then
          let! there := ensure_reserved_file_path (At (backup e)) in
          let! _ := (if there then require_file_hash (At (backup e)) o else ret tt) in
          remove_reserved_file (At (prepared e))
        else
          let! _ := require_file_hash (At (backup e)) o in
          let! _ := (if target_is_file then require_file_hash (At (target e)) (expected_sha256 e) else ret tt) in
          let! _ := prepare_verified_copy (At (backup e)) (At (prepared e)) o in
          let! _ := (if target_is_file then record_io_failure (lit "remove_installed_target") (remove_file (At (target e))) else ret tt) in
          let! _ := record_io_failure (lit "rename_prepared_to_target") (rename (prepared e) (target e)) in
          require_file_hash (At (target e)) o
    end
  else
    let! there := (match original_sha256 e with Some _ => ret true | None => ensure_reserved_file_path (At (backup e)) end) in
    let! _ := ensure (negb there) (Stage UnexpectedBackup) in
    let! installed := ensure_reserved_file_path (At (target e)) in
    let! _ :=
      (if installed then
         let! _ := require_file_hash (At (target e)) (expected_sha256 e) in
         record_io_failure (lit "remove_new_target") (remove_file (At (target e)))
       else ret tt) in
    let! there := ensure_reserved_file_path (At (prepared e)) in
    if there then remove_reserved_file (At (prepared e)) else ret tt.

(** The entries from the last to the first, every one tried, the first error kept. *)
Fixpoint rollback_loop (es : list JournalEntry) (first_error : option UpdateError) : M (option UpdateError) :=
  match es with
  | [] => ret first_error
  | e :: es =>
      let! r := attempt (rollback_entry e) in
      rollback_loop es (match first_error, r with None, Err x => Some x | _, _ => first_error end)
  end.

Definition rollback (j : UpdateJournal) : M unit :=
  let! first_error := rollback_loop (reverse (entries j)) None in
  match first_error with Some e => raise e | None => ret tt end.

Definition finish_committed (j : UpdateJournal) : M unit :=
  let! n := unique_nonce ForDetached in
  let detached := COMMITTED_SET_PREFIX ++ n in
  let! _ := record_io_failure (lit "rename_pending_to_detached") (rename_dir PENDING_SET_DIR detached) in
  let! clean := cleanup_committed_entries (entries j) in
  if clean then record_io_failure (lit "remove_detached_set") (remove_dir_all detached) else ret tt.

Definition remove_journal : M unit := or_io (remove_file (In PENDING_SET_DIR JOURNAL_FILE)).

(** Undoing a journal that was left applying: its rollback, its removal, its sidecars. *)
Definition undo (j : UpdateJournal) : M unit :=
  let! _ := rollback j in
  let! _ := remove_journal in
  let! _ := cleanup_committed_entries (entries j) in ret tt.

(** *** Applying *)

Definition backup_path_for_transaction (goal : str) : M str :=
  let! n := stat (At (goal ++ lit ".dcc-mcp-backup")) in
  match n with
  | Ok (Some (File _)) => let! nc := unique_nonce (ForBackup goal) in ret (goal ++ lit ".dcc-mcp-backup-" ++ nc)
  | _ => ret (goal ++ lit ".dcc-mcp-backup")
  end.

Definition resolve_target (dir exe : str) (t : UpdateTarget) : str :=
  match t with CurrentExecutable => exe | Sibling n => dir ++ n end.

(** One component of the manifest, prepared beside its target. *)
Definition prepare_component (policy : UpdateSetPolicy) (dir exe : str) (seen : list str) (c : StagedComponent) : M JournalEntry :=
  let source := In PENDING_SET_DIR (staged_file c) in
  let! there := ask (is_file source) in
  let! _ := admit_or policy (if there then Ok tt else Err (Stage ComponentMissing)) in
  let! actual := sha256_file source in
  let! _ := admit_or policy (if eq_ignore_ascii_case actual (component_sha256 c) then Ok tt else Err (ChecksumMismatch (component_sha256 c) actual)) in
  let goal := resolve_target dir exe (component_target c) in
  let! _ := admit_or policy (if bool_decide (path_key goal ∈ seen) then Err (Stage DuplicateTargets) else Ok tt) in
  let new := goal ++ lit ".dcc-mcp-new" in
  let! old := backup_path_for_transaction goal in
  let! had := ensure_reserved_file_path (At goal) in
  let! original := (if had then let! s := sha256_file (At goal) in ret (Some s) else ret None) in
  let! _ := prepare_verified_copy source (At new) (component_sha256 c) in
  ret (mkEntry goal new old had original (component_sha256 c)).

Fixpoint prepare_entries (policy : UpdateSetPolicy) (dir exe : str) (seen : list str) (cs : list StagedComponent) : M (list JournalEntry) :=
  match cs with
  | [] => ret []
  | c :: cs =>
      let! e := prepare_component policy dir exe seen c in
      let! es := prepare_entries policy dir exe (path_key (target e) :: seen) cs in
      ret (e :: es)
  end.

(** [sort_by_key] with a boolean key: the executable goes last. *)
Definition executable_last (exe : str) (es : list JournalEntry) : list JournalEntry :=
  base.filter (fun e => paths_equal (target e) exe = false) es ++ base.filter (fun e => paths_equal (target e) exe = true) es.

Definition transact (exe build : str) (m : UpdateSetManifest) (es : list JournalEntry) : M bool :=
  let j := mkJournal Applying es in
  let! _ := write_journal j in
  let! r := attempt (apply_entries es) in
  match r with
  | Err e =>
      let! rolled := attempt (rollback j) in
      match rolled with
      | Err rollback_error => raise (RollbackFailed e rollback_error)
      | Ok _ =>
          let! _ := remove_journal in
          let! _ := cleanup_committed_entries es in raise e
      end
  | Ok _ =>
      let j := mkJournal Committed es in
      let! _ := write_journal j in
      let! _ := persist_applied_generation m in
      let! _ := finish_committed j in
      applied_generation_requires_reexec exe build
  end.

(** The set is verified and its components prepared; then the transaction. *)
Definition install_set (policy : UpdateSetPolicy) (exe build : str) (m : UpdateSetManifest) : M bool :=
  let! actual := sha256_file (At exe) in
  let! _ := admit_or policy (if eq_ignore_ascii_case actual (source_server_sha256 m) then Ok tt else Err (Stage SourceChanged)) in
  match split_path exe with
  | None => raise (Stage NoParent)
  | Some (dir, _) =>
      let! es := prepare_entries policy dir exe [] (components m) in
      transact exe build m (executable_last exe es)
  end.

(** What an earlier launch left in the pending set is settled first. *)
Definition resume_set (policy : UpdateSetPolicy) (exe build : str) (m : UpdateSetManifest) : M bool :=
  let! journal := ask (is_file (In PENDING_SET_DIR JOURNAL_FILE)) in
  if journal then
    let! j := read_journal PENDING_SET_DIR in
    match journal_state j with
    | Committed =>
        let! _ := persist_applied_generation m in
        let! _ := finish_committed j in
        applied_generation_requires_reexec exe build
    | Applying => let! _ := undo j in install_set policy exe build m
    end
  else install_set policy exe build m.

Definition check_manifest (policy : UpdateSetPolicy) (exe : str) (m : UpdateSetManifest) : M unit :=
  let! _ := admit_or policy (validate_manifest_shape m) in
  match policy with
  | CurrentExecutableOnly => match validate_single_binary_manifest m exe with Ok _ => ret tt | Err e => reject_pending_set e end
  | AnyPolicy => ensure (paths_equal exe (bound_executable m)) (Stage ForeignExecutable)
  end.

Definition read_pending_manifest (policy : UpdateSetPolicy) : M UpdateSetManifest :=
  let! r := attempt (read_manifest PENDING_SET_DIR) in
  match r with
  | Ok m => ret m
  | Err e => if bool_decide (policy = CurrentExecutableOnly) && is_rejectable_manifest_read_error e then reject_pending_set e else raise e
  end.

Definition apply_pending (policy : UpdateSetPolicy) (exe build : str) : M bool :=
  let! pending := ask (is_dir PENDING_SET_DIR) in
  if negb pending then applied_generation_requires_reexec exe build
  else
    let! m := read_pending_manifest policy in
    let! _ := check_manifest policy exe m in
    if is_newer_version (source_build_version m) build then
      let! again := applied_generation_requires_reexec exe build in
      if again then ret true else raise (Stage NewerSource)
    else resume_set policy exe build m.

(** Every call starts by settling what an earlier one left in the staging root. *)
Definition enter_installation (exe : str) : M str :=
  let! exe := canonical_existing exe in
  let! _ := installation_staging_dir in
  let! _ := acquire_installation_lock in
  let! _ := recover_stage_swap in
  let! _ := cleanup_committed_sets in
  ret exe.

Definition apply_staged_update_set (policy : UpdateSetPolicy) (exe build : str) : M bool :=
  let! exe := enter_installation exe in apply_pending policy exe build.


(** *** Clearing *)

Definition clear_staged_binary_update (exe : str) : M unit :=
  let! exe := enter_installation exe in
  let! pending := ask (place_exists PENDING_SET_DIR) in
  if negb pending then ret tt
  else
    let! directory := ask (is_dir PENDING_SET_DIR) in
    let! _ := ensure directory (Stage NotDirectory) in
    let! m := read_manifest PENDING_SET_DIR in
    let! _ := lift (validate_single_binary_manifest m exe) in
    let! journal := ask (is_file (In PENDING_SET_DIR JOURNAL_FILE)) in
    if journal then
      let! j := read_journal PENDING_SET_DIR in
      match journal_state j with
      | Committed => let! _ := persist_applied_generation m in finish_committed j
      | Applying => let! _ := undo j in or_io (remove_dir_all PENDING_SET_DIR)
      end
    else or_io (remove_dir_all PENDING_SET_DIR).

(** *** Staging *)

Definition check_source (s : UpdateSetSource) : M unit :=
  let! _ := lift (validate_expected_sha (source_sha256 s)) in
  let! there := ask (is_file (At (downloaded s))) in
  let! _ := ensure there (Stage ComponentMissing) in
  let! actual := sha256_file (At (downloaded s)) in
  ensure (eq_ignore_ascii_case actual (source_sha256 s)) (ChecksumMismatch (to_ascii_lowercase_str (source_sha256 s)) actual).

Fixpoint check_sources (seen : list str) (ss : list UpdateSetSource) : M unit :=
  match ss with
  | [] => ret tt
  | s :: ss =>
      let! _ := lift (validate_target (source_target s)) in
      let! _ := ensure (negb (bool_decide (target_key (source_target s) ∈ seen))) (Stage DuplicateTargets) in
      let! _ := check_source s in
      check_sources (target_key (source_target s) :: seen) ss
  end.

Definition stage_component (dir : str) (i : nat) (s : UpdateSetSource) : M StagedComponent :=
  let! _ := or_io (copy (At (downloaded s)) (In dir (component_file i))) in
  let! actual := sha256_file (In dir (component_file i)) in
  let! _ := ensure (eq_ignore_ascii_case actual (source_sha256 s)) (ChecksumMismatch (to_ascii_lowercase_str (source_sha256 s)) actual) in
  ret (mkComponent (component_file i) (source_target s) actual).

Fixpoint stage_components (dir : str) (i : nat) (ss : list UpdateSetSource) : M (list StagedComponent) :=
  match ss with
  | [] => ret []
  | s :: ss => let! c := stage_component dir i s in let! cs := stage_components dir (S i) ss in ret (c :: cs)
  end.

Definition temp_set_dir (n : str) : str := PENDING_SET_DIR ++ lit "." ++ n ++ lit ".tmp".

(** The complete set, in a directory of its own. *)
Definition fill_set (dir exe build server : str) (ss : list UpdateSetSource) : M unit :=
  let! cs := stage_components dir 0 ss in
  or_io (write_atomic (In dir MANIFEST_FILE) (manifest_text (mkManifest 2 exe build server cs))).

(** That directory takes the place of the pending set. *)
Definition swap_in (dir : str) : M unit :=
  let! pending := ask (place_exists PENDING_SET_DIR) in
  let! _ := (if pending then or_io (rename_dir PENDING_SET_DIR PREVIOUS_SET_DIR) else ret tt) in
  let! r := rename_dir dir PENDING_SET_DIR in
  let! previous := ask (place_exists PREVIOUS_SET_DIR) in
  match r with
  | Err k =>
      let! _ := (if previous then ignore (rename_dir PREVIOUS_SET_DIR PENDING_SET_DIR) else ret tt) in
      let! _ := ignore (remove_dir_all dir) in raise (Io k)
  | Ok _ => if previous then or_io (remove_dir_all PREVIOUS_SET_DIR) else ret tt
  end.

Definition stage_update_set (exe build : str) (ss : list UpdateSetSource) : M unit :=
  let! exe := enter_installation exe in
  let! journal := ask (exists_in (In PENDING_SET_DIR JOURNAL_FILE)) in
  let! _ := ensure (negb journal) (Stage RecoverPending) in
  let! _ := ensure (negb (bool_decide (ss = []))) (Stage EmptySet) in
  let! _ := check_sources [] ss in
  let! _ := ensure (existsb (fun s => bool_decide (source_target s = CurrentExecutable)) ss) (Stage NoCurrentExecutable) in
  let! _ := ensure (negb (bool_decide (build = [])) && (str_len build <=? 128)%nat) (Stage BadBuildVersion) in
  let! server := sha256_file (At exe) in
  let! n := unique_nonce ForTemp in
  let dir := temp_set_dir n in
  let! _ := or_io (create_dir dir) in
  let! r := attempt (fill_set dir exe build server ss) in
  match r with
  | Err e => let! _ := ignore (remove_dir_all dir) in raise e
  | Ok _ => swap_in dir
  end.

(** *** One sibling at once *)

Definition publish_sibling (goal new old expected : str) (had : bool) : M unit :=
  let! r := rename new goal in
  match r with
  | Err k =>
      let! _ := (if had then ignore (rename old goal) else ret tt) in
      let! _ := ignore (remove_file (At new)) in raise (Io k)
  | Ok _ =>
      let! installed := sha256_file (At goal) in
      if eq_ignore_ascii_case installed expected then ignore (remove_file (At old))
      else
        let! _ := ignore (remove_file (At goal)) in
        let! _ := (if had then ignore (rename old goal) else ret tt) in
        raise (ChecksumMismatch (to_ascii_lowercase_str expected) installed)
  end.

Definition replace_sibling (goal source expected : str) : M unit :=
  let new := goal ++ lit ".dcc-mcp-new" in
  let old := goal ++ lit ".dcc-mcp-backup" in
  let! lost := ask (fun d => exists_in (At old) d && negb (exists_in (At goal) d)) in
  let! _ := (if lost then or_io (rename old goal) else ret tt) in
  let! _ := ignore (remove_file (At new)) in
  let! _ := or_io (copy (At source) (At new)) in
  let! actual := sha256_file (At new) in
  if negb (eq_ignore_ascii_case actual expected) then
    let! _ := ignore (remove_file (At new)) in raise (ChecksumMismatch (to_ascii_lowercase_str expected) actual)
  else
    let! _ := ignore (remove_file (At old)) in
    let! had := ask (exists_in (At goal)) in
    let! _ := (if had then or_io (rename goal old) else ret tt) in
    publish_sibling goal new old expected had.

Definition install_verified_sibling (exe source sibling expected : str) : M unit :=
  let! _ := lift (validate_sibling_name sibling) in
  let! _ := lift (validate_expected_sha expected) in
  let! exe := canonical_existing exe in
  let! _ := installation_staging_dir in
  let! _ := acquire_installation_lock in
  let! _ := cleanup_committed_sets in
  let! actual := sha256_file (At source) in
  let! _ := ensure (eq_ignore_ascii_case actual expected) (ChecksumMismatch (to_ascii_lowercase_str expected) actual) in
  match split_path exe with
  | None => raise (Stage NoParent)
  | Some (dir, _) => replace_sibling (dir ++ sibling) source expected
  end.

End OneCall.
End Updater.
