(* ===== verification/UpdateEntries.v ===== *)
(** One entry of an update journal: the states a target goes through while it is being
    replaced, and what applying, rolling back and cleaning up the entry do to it. *)

From S2P Require Import Prelude Text Json UpdateFs UpdateSet.

Local Open Scope Z_scope.

(** ** Sidecars *)

(** The files beside a target that the updater reserves for itself. *)
Definition sidecar (g s : str) : str := g ++ lit ".dcc-mcp-" ++ s.
Definition owns (g p : str) : Prop := p = g \/ exists s, p = sidecar g s.
Definition apart (g g' : str) : Prop := forall s, g' <> sidecar g s.

Lemma sidecar_ne g s : g <> sidecar g s.
Proof. intros H. apply (f_equal length) in H. unfold sidecar in H. rewrite !length_app in H. cbn in H. lia. Qed.

Lemma sidecar_inj g s s' : sidecar g s = sidecar g s' <-> s = s'.
Proof. unfold sidecar. split; [|by intros ->]. intros H. by apply app_inv_head, app_inv_head in H. Qed.

Lemma reserved_overlap l s s' :
  lit ".dcc-mcp-" ++ s = l ++ lit ".dcc-mcp-" ++ s' -> l = [] \/ exists t, l = lit ".dcc-mcp-" ++ t.
Proof.
  intros H. apply app_eq_app in H as (t & [[Hl Ht]|[-> Ht]]); [|by right; exists t].
  do 9 (destruct l as [|? l]; [first [by left | cbn in Hl; injection Hl as; subst; cbn in Ht; discriminate]|]).
  right. exists []. cbn in Hl |- *. injection Hl as. by destruct l, t; simplify_eq.
Qed.

Lemma sidecar_owner g g' s s' : apart g g' -> apart g' g -> sidecar g s = sidecar g' s' -> g = g'.
Proof.
  intros H1 H2 H. unfold sidecar in H. apply app_eq_app in H as (l & [[-> H]|[-> H]]).
  - apply reserved_overlap in H as [->|[t ->]]; [by rewrite app_nil_r|]. by destruct (H2 t).
  - apply reserved_overlap in H as [->|[t ->]]; [by rewrite app_nil_r|]. by destruct (H1 t).
Qed.

Lemma owns_apart g g' p : apart g g' -> apart g' g -> owns g p -> owns g' p -> g = g'.
Proof.
  intros H1 H2 [->|[s ->]] [H|[s' H]]; [done|by destruct (H2 s')| |by eapply sidecar_owner].
  symmetry in H. by destruct (H1 s).
Qed.

(** ** Safe programs *)

(** A program that fails only by a fault, and keeps [R] wherever it stops. *)
Definition safe {A} (F : Prop) (m : M A) (d : Disk) (Q : A -> Disk -> Prop) (R : Disk -> Prop) : Prop :=
  wp F m d Q (fun _ d => F /\ R d) R.

Section Steps.
Context {sha : Sha256} (F : Prop).

Lemma safe_ret {A} (a : A) d (Q : A -> Disk -> Prop) R : Q a d -> safe F (ret a) d Q R.
Proof. apply wp_ret. Qed.

Lemma safe_raise {A} e d (Q : A -> Disk -> Prop) (R : Disk -> Prop) : F -> R d -> safe F (raise e) d Q R.
Proof. intros HF HR. by apply wp_raise. Qed.

Lemma safe_bind {A B} (m : M A) (k : A -> M B) d Q R : safe F m d (fun a d => safe F (k a) d Q R) R -> safe F (bind m k) d Q R.
Proof. apply wp_bind. Qed.

Lemma safe_attempt {A} (m : M A) d (Q : result UpdateError A -> Disk -> Prop) R :
  safe F m d (fun a => Q (Ok a)) R -> (forall e d, F -> R d -> Q (Err e) d) -> safe F (attempt m) d Q R.
Proof. intros H HE. apply wp_attempt. eapply wp_mono; [exact H|done| |done]. intros e d' [HF HR]. by apply HE. Qed.

Lemma safe_mono {A} (m : M A) d (Q Q' : A -> Disk -> Prop) (R R' : Disk -> Prop) :
  safe F m d Q R -> (forall a d, Q a d -> Q' a d) -> (forall d, R d -> R' d) -> safe F m d Q' R'.
Proof. intros H HQ HR. eapply wp_mono; [exact H|done| |done]. intros e d' [HF HR']. auto. Qed.

Lemma safe_ensure b e d (Q : unit -> Disk -> Prop) R : b = true -> Q tt d -> safe F (ensure b e) d Q R.
Proof. apply wp_ensure. Qed.

Lemma safe_ask {A} (f : Disk -> A) d (Q : A -> Disk -> Prop) R : Q (f d) d -> safe F (ask f) d Q R.
Proof. apply wp_ask. Qed.

Lemma safe_io {A} (full : Disk -> result IoKind (A * Disk)) part a d d' (Q : A -> Disk -> Prop) (R : Disk -> Prop) :
  full d = Ok (a, d') -> Q a d' -> (forall c, R (part c d)) -> safe F (or_io (operate full part)) d Q R.
Proof. intros Hf HQ HR. by eapply wp_io. Qed.

Lemma safe_context {A} op (full : Disk -> result IoKind (A * Disk)) part a d d' (Q : A -> Disk -> Prop) (R : Disk -> Prop) :
  full d = Ok (a, d') -> Q a d' -> (forall c, R (part c d)) -> safe F (record_io_failure op (operate full part)) d Q R.
Proof. intros Hf HQ HR. by eapply wp_io_context. Qed.

(** *** The operations on files *)

Lemma eq_digest a b : eq_ignore_ascii_case (sha256 a) (sha256 b) = bool_decide (sha256 a = sha256 b).
Proof.
  assert (Hl : forall c, map ascii_lowercase (sha256 c) = sha256 c).
  { intros c. destruct (sha256_hex c) as [_ Hc]. induction Hc as [|x l Hx Hl IH]; cbn; [done|]. rewrite IH. f_equal.
    unfold ascii_lowercase. replace (is_ascii_uppercase x) with false; [done|]. symmetry. destruct Hx; bool_to_prop; char_lia. }
  unfold eq_ignore_ascii_case. by rewrite !Hl.
Qed.

Lemma valid_digest c : validate_expected_sha (sha256 c) = Ok tt.
Proof.
  destruct (sha256_hex c) as [Hl Hc]. unfold validate_expected_sha, valid_sha. rewrite Hl. cbn [Nat.eqb andb].
  replace (forallb is_ascii_hexdigit (sha256 c)) with true; [done|]. symmetry. apply forallb_forall. intros x Hx.
  apply list_elem_of_In in Hx. rewrite Forall_forall in Hc. specialize (Hc x Hx). unfold lower_hex in Hc. char_lia.
Qed.

Lemma safe_valid_digest c d (Q : unit -> Disk -> Prop) R : Q tt d -> safe F (lift (validate_expected_sha (sha256 c))) d Q R.
Proof. rewrite valid_digest. apply wp_ret. Qed.

Lemma safe_reserved l d (Q : bool -> Disk -> Prop) (R : Disk -> Prop) :
  lookup_loc l d <> Some Special -> Q (bool_decide (is_Some (lookup_loc l d))) d -> R d -> safe F (ensure_reserved_file_path l) d Q R.
Proof.
  intros Hs HQ HR. apply safe_bind. eapply safe_io; [done| |done]. cbn [stat].
  destruct (lookup_loc l d) as [[c|]|]; [by apply safe_ret|done|by apply safe_ret].
Qed.

Lemma safe_digest l c d (Q : str -> Disk -> Prop) (R : Disk -> Prop) :
  lookup_loc l d = Some (File c) -> Q (sha256 c) d -> R d -> safe F (sha256_file l) d Q R.
Proof.
  intros Hc HQ HR. apply safe_bind. eapply safe_io; [|by apply safe_ret|done]. by rewrite Hc.
Qed.

Lemma safe_require l c d (Q : unit -> Disk -> Prop) (R : Disk -> Prop) :
  lookup_loc l d = Some (File c) -> Q tt d -> R d -> safe F (require_file_hash l (sha256 c)) d Q R.
Proof.
  intros Hc HQ HR. apply safe_bind, safe_reserved; [by rewrite Hc| |done].
  apply safe_bind, safe_ensure; [by rewrite Hc|]. apply safe_bind. eapply safe_digest; [done| |done].
  apply safe_ensure; [|done]. rewrite eq_digest. by apply bool_decide_eq_true.
Qed.

Definition moved (p q : str) (n : node) (d : Disk) : Disk := mkDisk (<[q := n]> (base.delete p (files d))) (places d).
Definition removed_file (p : str) (d : Disk) : Disk := mkDisk (base.delete p (files d)) (places d).
Definition stored (p c : str) (d : Disk) : Disk := mkDisk (<[p := File c]> (files d)) (places d).

Lemma safe_rename op p q n d (Q : unit -> Disk -> Prop) (R : Disk -> Prop) :
  files d !! p = Some n -> files d !! q <> Some Special -> Q tt (moved p q n d) -> R d ->
  safe F (record_io_failure op (rename p q)) d Q R.
Proof.
  intros Hp Hq HQ HR. eapply safe_context; [|exact HQ|done]. cbn. rewrite Hp. by destruct (files d !! q) as [[]|].
Qed.

Lemma safe_remove op p c d (Q : unit -> Disk -> Prop) (R : Disk -> Prop) :
  files d !! p = Some (File c) -> Q tt (removed_file p d) -> R d -> safe F (record_io_failure op (remove_file (At p))) d Q R.
Proof. intros Hp HQ HR. eapply safe_context; [|exact HQ|done]. cbn. by rewrite Hp. Qed.

Lemma safe_copy_verified l p c d (Q : unit -> Disk -> Prop) (R : Disk -> Prop) :
  lookup_loc l d = Some (File c) -> files d !! p <> Some Special -> Q tt (stored p c d) -> R d -> (forall c, R (stored p c d)) ->
  safe F (prepare_verified_copy l (At p) (sha256 c)) d Q R.
Proof.
  intros Hl Hp HQ HR HS. apply safe_bind, safe_reserved; [done| |done]. apply safe_bind.
  eapply safe_context; [cbn [has_parent lookup_loc]; rewrite Hl; by destruct (files d !! p) as [[]|]| |].
  - eapply safe_require; [apply lookup_insert_eq|exact HQ|apply HS].
  - intros cut. cbn [has_parent lookup_loc]. rewrite Hl. destruct (files d !! p) as [[]|]; [|done|];
      (destruct (opened cut); [apply HS|done]).
Qed.

Lemma safe_remove_reserved p d (Q : unit -> Disk -> Prop) (R : Disk -> Prop) :
  files d !! p <> Some Special -> Q tt (removed_file p d) -> R d -> safe F (remove_reserved_file (At p)) d Q R.
Proof.
  intros Hp HQ HR. apply safe_bind, safe_reserved; [done| |done]. cbn [lookup_loc]. case_bool_decide as Hs.
  - destruct Hs as [[c|] Hc]; [by eapply safe_remove|done].
  - apply safe_ret. unfold removed_file in HQ. rewrite delete_id in HQ by (by apply eq_None_not_Some). by destruct d.
Qed.

End Steps.

(** ** Items *)

(** A target, the content the update gives it, and where its old content is kept. *)
Record item : Type := mkItem { goal : str; new_content : str; kept_as : str }.

Definition prepared_of (it : item) : str := sidecar (goal it) (lit "new").
Definition backup_of (it : item) : str := sidecar (goal it) (lit "backup" ++ kept_as it).
Definition canonical_of (g : str) : str := sidecar g (lit "backup").

Lemma prepared_backup it : prepared_of it <> backup_of it.
Proof. unfold prepared_of, backup_of. rewrite sidecar_inj. done. Qed.
Lemma goal_prepared it : goal it <> prepared_of it.
Proof. apply sidecar_ne. Qed.
Lemma goal_backup it : goal it <> backup_of it.
Proof. apply sidecar_ne. Qed.
Lemma goal_canonical it : goal it <> canonical_of (goal it).
Proof. apply sidecar_ne. Qed.
Lemma prepared_canonical it : prepared_of it <> canonical_of (goal it).
Proof. unfold prepared_of, canonical_of. rewrite sidecar_inj. done. Qed.

#[export] Hint Resolve prepared_backup goal_prepared goal_backup goal_canonical prepared_canonical : dcc.

(** Only paths in [S] differ. *)
Definition within (S : str -> Prop) (fm fm' : gmap str node) : Prop := forall p, ~ S p -> fm' !! p = fm !! p.

Lemma within_refl S fm : within S fm fm.
Proof. by intros p _. Qed.
Lemma within_trans S fm1 fm2 fm3 : within S fm1 fm2 -> within S fm2 fm3 -> within S fm1 fm3.
Proof. intros H1 H2 p Hp. by rewrite H2, H1. Qed.
Lemma within_weaken (S S' : str -> Prop) fm fm' : (forall p, S p -> S' p) -> within S fm fm' -> within S' fm fm'.
Proof. intros HS H p Hp. apply H. auto. Qed.
Lemma within_insert (S : str -> Prop) p n fm fm' : S p -> within S fm fm' -> within S fm (<[p := n]> fm').
Proof. intros HS H q Hq. rewrite lookup_insert_ne; [by apply H|]. by intros ->. Qed.
Lemma within_delete (S : str -> Prop) p fm fm' : S p -> within S fm fm' -> within S fm (base.delete p fm').
Proof. intros HS H q Hq. rewrite lookup_delete_ne; [by apply H|]. by intros ->. Qed.

(** The paths a rollback changes, and those a cleanup does. *)
Definition redone (it : item) (p : str) : Prop := p = goal it \/ p = prepared_of it.
Definition swept (it : item) (p : str) : Prop := p = prepared_of it \/ p = backup_of it.
Definition handled (it : item) (p : str) : Prop := p = goal it \/ p = prepared_of it \/ p = backup_of it.

Lemma redone_goal it : redone it (goal it).
Proof. by left. Qed.
Lemma redone_prepared it : redone it (prepared_of it).
Proof. by right. Qed.
Lemma swept_prepared it : swept it (prepared_of it).
Proof. by left. Qed.
Lemma swept_backup it : swept it (backup_of it).
Proof. by right. Qed.
Lemma handled_goal it : handled it (goal it).
Proof. by left. Qed.
Lemma handled_prepared it : handled it (prepared_of it).
Proof. by right; left. Qed.
Lemma handled_backup it : handled it (backup_of it).
Proof. by right; right. Qed.

#[export] Hint Resolve within_refl within_insert within_delete redone_goal redone_prepared swept_prepared swept_backup
  handled_goal handled_prepared handled_backup : dcc.

Ltac only_there := unfold moved, removed_file, stored; cbn [files places]; eauto with dcc.

Ltac path_ne := first [done | solve [auto with dcc] | apply not_eq_sym; solve [auto with dcc]].

(** Look up a path after stores and removals at others. *)
Ltac lookups :=
  repeat first
    [ rewrite lookup_insert_eq | rewrite lookup_delete_eq
    | rewrite lookup_insert_ne by path_ne | rewrite lookup_delete_ne by path_ne ].

Section Items.
Context {sha : Sha256} (F : Prop).

(** The installation before the update. *)
Context (before : gmap str node).

(** What the journal records of an item. *)
Definition entry_of (it : item) : JournalEntry :=
  mkEntry (goal it) (prepared_of it) (backup_of it) (bool_decide (is_Some (before !! goal it)))
    (match before !! goal it with Some (File c) => Some (sha256 c) | _ => None end) (sha256 (new_content it)).

(** The target is no file, or a file whose digest tells it from the new content. *)
Definition sound_item (it : item) : Prop :=
  before !! goal it = None \/
  exists c, before !! goal it = Some (File c) /\ (sha256 (new_content it) = sha256 c -> new_content it = c).

(** The files reserved for a target are no directories or links, and its usual backup is
    absent or what the target was. *)
Definition tidy (g : str) (fm : gmap str node) : Prop :=
  (forall s, fm !! sidecar g s <> Some Special) /\ (fm !! canonical_of g = None \/ fm !! canonical_of g = before !! g).

(** The three states of a target in a transaction: as it was, moved to its backup, replaced. *)
Definition untouched (it : item) (fm : gmap str node) : Prop :=
  fm !! goal it = before !! goal it /\ (fm !! backup_of it = None \/ fm !! backup_of it = before !! goal it).
Definition held (it : item) (fm : gmap str node) : Prop := fm !! goal it = None /\ fm !! backup_of it = before !! goal it.
Definition replaced (it : item) (fm : gmap str node) : Prop :=
  fm !! goal it = Some (File (new_content it)) /\ fm !! backup_of it = before !! goal it.
Definition amid (it : item) (fm : gmap str node) : Prop :=
  tidy (goal it) fm /\ (untouched it fm \/ held it fm \/ replaced it fm).

Definition clear_of_sidecars (it : item) (fm : gmap str node) : Prop :=
  tidy (goal it) fm /\ untouched it fm /\ fm !! prepared_of it = None.

Lemma clear_amid it fm : clear_of_sidecars it fm -> amid it fm.
Proof. intros (H1 & H2 & _). split; auto. Qed.

(** Storing a file at one of the paths keeps the sidecars tidy. *)
Lemma tidy_insert g p c fm : tidy g fm -> p <> canonical_of g -> tidy g (<[p := File c]> fm).
Proof.
  intros [H1 H2] Hp. split; [|by rewrite lookup_insert_ne]. intros s. destruct (decide (p = sidecar g s)) as [->|Hs].
  - rewrite lookup_insert_eq. congruence.
  - by rewrite lookup_insert_ne.
Qed.

Lemma tidy_delete g p fm : tidy g fm -> tidy g (base.delete p fm).
Proof.
  intros [H1 H2]. split.
  - intros s. destruct (decide (p = sidecar g s)) as [->|Hs]; [by rewrite lookup_delete_eq|by rewrite lookup_delete_ne].
  - destruct (decide (p = canonical_of g)) as [->|Hs]; [left; apply lookup_delete_eq|by rewrite lookup_delete_ne].
Qed.

(** Where the transaction of an item may be left, with nothing else on the disk changed. *)
Definition stays (S : str -> Prop) (it : item) (d d' : Disk) : Prop :=
  places d' = places d /\ within S (files d) (files d') /\ amid it (files d').



Lemma tidy_regular it fm : tidy (goal it) fm -> fm !! prepared_of it <> Some Special /\ fm !! backup_of it <> Some Special.
Proof. intros [H _]. split; apply H. Qed.

(** The copy of the backup beside the target, moved over it. *)
Lemma restore_entry it c d R (Q : unit -> Disk -> Prop) :
  before !! goal it = Some (File c) -> tidy (goal it) (files d) -> held it (files d) -> files d !! prepared_of it = Some (File c) ->
  R d -> (forall d', stays (redone it) it d d' -> clear_of_sidecars it (files d') -> Q tt d' /\ R d') ->
  safe F (let! _ := record_io_failure (lit "rename_prepared_to_target") (rename (prepared_of it) (goal it)) in
          require_file_hash (At (goal it)) (sha256 c)) d Q R.
Proof.
  intros Hb Ht [Hg Hk] Hp HR HQ.
  assert (Hclear : clear_of_sidecars it (<[goal it := File c]> (base.delete (prepared_of it) (files d)))).
  { repeat split; [apply tidy_insert; [by apply tidy_delete|path_ne]..| | |]; lookups; [by rewrite Hb| |done]. right. by rewrite Hk. }
  destruct (HQ (moved (prepared_of it) (goal it) (File c) d)) as [HQ1 HR1].
  - split; [done|split; [only_there|by apply clear_amid]].
  - done.
  - apply safe_bind. eapply safe_rename; [exact Hp|by rewrite Hg| |done].
    eapply safe_require; [apply lookup_insert_eq|done..].
Qed.

Definition rolled_back (it : item) (d d' : Disk) : Prop :=
  places d' = places d /\ within (redone it) (files d) (files d') /\ clear_of_sidecars it (files d').

Lemma rolled_back_stays it d d' : rolled_back it d d' -> stays (redone it) it d d'.
Proof. intros (H1 & H2 & H3). split; [done|split; [done|by apply clear_amid]]. Qed.

(** The target still is as it was: only the prepared file goes. *)
Lemma drop_prepared it d R (Q : unit -> Disk -> Prop) :
  tidy (goal it) (files d) -> untouched it (files d) -> R d -> (forall d', rolled_back it d d' -> Q tt d' /\ R d') ->
  safe F (remove_reserved_file (At (prepared_of it))) d Q R.
Proof.
  intros Ht [Hg Hk] HR HQ. destruct (HQ (removed_file (prepared_of it) d)) as [HQ1 HR1].
  - split; [done|split; [only_there|]]. repeat split; cbn [files removed_file]; [by apply tidy_delete..| | |]; by lookups.
  - apply safe_remove_reserved; [by apply tidy_regular|done..].
Qed.

(** The old content comes back from the backup: copied beside the target, which gives way. *)
Lemma restore_target it c d0 d :
  before !! goal it = Some (File c) -> tidy (goal it) (files d) -> held it (files d) \/ replaced it (files d) ->
  stays (redone it) it d0 d ->
  safe F (let! _ := prepare_verified_copy (At (backup_of it)) (At (prepared_of it)) (sha256 c) in
          let! _ := (if bool_decide (is_Some (files d !! goal it))
                     then record_io_failure (lit "remove_installed_target") (remove_file (At (goal it))) else ret tt) in
          let! _ := record_io_failure (lit "rename_prepared_to_target") (rename (prepared_of it) (goal it)) in
          require_file_hash (At (goal it)) (sha256 c)) d (fun _ => rolled_back it d0) (stays (redone it) it d0).
Proof.
  intros Hb Ht Hst (Hp & Hw & Ha).
  assert (Hk : files d !! backup_of it = before !! goal it) by (by destruct Hst as [[_ ?]|[_ ?]]).
  assert (Hstore : forall x, stays (redone it) it d0 (stored (prepared_of it) x d)).
  { intros x. split; [done|split; [only_there|]]. split; [apply tidy_insert; [done|path_ne]|]. right.
    destruct Hst as [[? ?]|[? ?]]; [left|right]; split; cbn [stored files]; by lookups. }
  assert (Hheld : forall d', files d' = base.delete (goal it) (<[prepared_of it := File c]> (files d)) -> held it (files d')).
  { intros d' ->. split; lookups; [done|]. by rewrite Hk. }
  assert (Hfin : forall d1, places d1 = places d0 -> within (redone it) (files d0) (files d1) ->
    tidy (goal it) (files d1) -> held it (files d1) -> files d1 !! prepared_of it = Some (File c) ->
    safe F (let! _ := record_io_failure (lit "rename_prepared_to_target") (rename (prepared_of it) (goal it)) in
            require_file_hash (At (goal it)) (sha256 c)) d1 (fun _ => rolled_back it d0) (stays (redone it) it d0)).
  { intros d1 Hp1 Hw1 Ht1 Hh1 Hn1. apply restore_entry; [done..| |].
    - split; [done|split; [done|split; auto]].
    - intros d' (Hp2 & Hw2 & Ha2) Hc2. assert (rolled_back it d0 d') as Hr.
      { split; [congruence|split; [by eapply within_trans|done]]. }
      split; [done|by apply rolled_back_stays]. }
  apply safe_bind. eapply safe_copy_verified; [cbn [lookup_loc]; by rewrite Hk|by apply tidy_regular| |done|done].
  apply safe_bind. destruct Hst as [[Hg _]|[Hg _]]; rewrite Hg; cbn [bool_decide].
  - rewrite bool_decide_eq_false_2 by (by intros [? ?]). apply safe_ret. apply Hfin; [done|only_there| | |].
    + apply tidy_insert; [done|path_ne].
    + split; cbn [stored files]; by lookups.
    + apply lookup_insert_eq.
  - rewrite bool_decide_eq_true_2 by done. eapply safe_remove; [cbn [stored files]; by lookups| |apply Hstore].
    apply Hfin; [done|only_there| | |].
    + apply tidy_delete, tidy_insert; [done|path_ne].
    + by apply Hheld.
    + cbn [removed_file stored files]. by lookups.
Qed.

Lemma amid_regular it d : sound_item it -> amid it (files d) -> lookup_loc (At (goal it)) d <> Some Special.
Proof.
  intros Hs [_ Hst]. cbn [lookup_loc]. destruct Hst as [[-> _]|[[-> _]|[-> _]]]; [|done..]. by destruct Hs as [->|(c & -> & _)].
Qed.

Lemma is_Some_none {A} (o : option A) : o = None -> bool_decide (is_Some o) = false.
Proof. intros ->. apply bool_decide_eq_false_2. by intros [? ?]. Qed.

Lemma is_Some_some {A} (o : option A) x : o = Some x -> bool_decide (is_Some o) = true.
Proof. intros ->. by apply bool_decide_eq_true_2. Qed.

(** The end of rolling a new target back: whatever was prepared goes. *)
Lemma drop_new it d d1 :
  stays (redone it) it d d1 -> untouched it (files d1) ->
  safe F (let! there := ensure_reserved_file_path (At (prepared_of it)) in
          if there then remove_reserved_file (At (prepared_of it)) else ret tt) d1 (fun _ => rolled_back it d) (stays (redone it) it d).
Proof.
  intros Hs1 Hu1. pose proof Hs1 as (Hp1 & Hw1 & Ht1 & _). destruct (tidy_regular it _ Ht1) as [Hn1 _].
  apply safe_bind, safe_reserved; [done| |done]. cbn [lookup_loc]. case_bool_decide as Hn.
  - apply drop_prepared; [done..|]. intros d' (Hp2 & Hw2 & Hc2).
    assert (rolled_back it d d') as Hr by (split; [congruence|split; [by eapply within_trans|done]]).
    split; [done|by apply rolled_back_stays].
  - apply safe_ret. split; [done|split; [done|]]. repeat split; try apply Ht1; try apply Hu1. by apply eq_None_not_Some.
Qed.

Lemma rollback_new it d :
  before !! goal it = None -> amid it (files d) ->
  safe F (rollback_entry (entry_of it)) d (fun _ => rolled_back it d) (stays (redone it) it d).
Proof.
  intros Hb Ham. assert (Hstay : stays (redone it) it d d) by (split; [done|split; [apply within_refl|done]]).
  pose proof Ham as [Ht Hst]. destruct (tidy_regular it _ Ht) as [Hrp Hrb].
  assert (Hrg := amid_regular it d (or_introl Hb) Ham).
  assert (Hk : files d !! backup_of it = None) by (destruct Hst as [[_ [?|?]]|[[_ ?]|[_ ?]]]; congruence).
  unfold rollback_entry, entry_of; cbn [expected_sha256 had_original original_sha256 target prepared backup].
  apply safe_bind, safe_valid_digest. rewrite Hb, is_Some_none by done.
  apply safe_bind, safe_reserved; [done| |done]. cbn [lookup_loc]. rewrite is_Some_none by done.
  apply safe_bind, safe_ensure; [done|]. apply safe_bind, safe_reserved; [done| |done]. cbn [lookup_loc].
  destruct Hst as [[Hg Hu]|[[Hg _]|[Hg _]]].
  - rewrite is_Some_none by congruence. by apply safe_bind, safe_ret, drop_new.
  - rewrite is_Some_none by done. apply safe_bind, safe_ret, drop_new; [done|]. split; [congruence|by left].
  - erewrite is_Some_some by done. apply safe_bind, safe_bind. eapply safe_require; [done| |done].
    eapply safe_remove; [done| |done].
    assert (Hu : untouched it (base.delete (goal it) (files d))) by (split; lookups; [by rewrite Hb|by left]).
    apply drop_new; [|done]. split; [done|split; [only_there|]]. split; [by apply tidy_delete|by left].
Qed.

Lemma rollback_old it c d :
  before !! goal it = Some (File c) -> (sha256 (new_content it) = sha256 c -> new_content it = c) -> amid it (files d) ->
  safe F (rollback_entry (entry_of it)) d (fun _ => rolled_back it d) (stays (redone it) it d).
Proof.
  intros Hb Hcol Ham. assert (Hstay : stays (redone it) it d d) by (split; [done|split; [apply within_refl|done]]).
  pose proof Ham as [Ht Hst]. destruct (tidy_regular it _ Ht) as [Hrp Hrb].
  assert (Hrg : lookup_loc (At (goal it)) d <> Some Special) by (apply amid_regular; [right; by exists c|done]).
  unfold rollback_entry, entry_of; cbn [expected_sha256 had_original original_sha256 target prepared backup].
  apply safe_bind, safe_valid_digest. rewrite Hb. erewrite is_Some_some by done.
  apply safe_bind, safe_valid_digest, safe_bind, safe_reserved; [done| |done]. cbn [lookup_loc].
  assert (Hcase : untouched it (files d) \/
    (held it (files d) \/ replaced it (files d) /\ sha256 (new_content it) <> sha256 c)).
  { destruct Hst as [?|[?|[Hg Hk]]]; [by left|by right; left|].
    destruct (decide (sha256 (new_content it) = sha256 c)) as [E|E]; [left|by right; right].
    split; [by rewrite Hg, Hb, (Hcol E)|by right]. }
  destruct Hcase as [Hu|Hh].
  - pose proof Hu as [Hg Hk]. rewrite Hg, Hb. erewrite is_Some_some by done.
    apply safe_bind, safe_bind. eapply safe_digest; [by rewrite <- Hb|apply safe_ret|done].
    rewrite eq_digest, bool_decide_eq_true_2 by done. apply safe_bind, safe_reserved; [done| |done]. cbn [lookup_loc].
    assert (Hdrop : safe F (remove_reserved_file (At (prepared_of it))) d (fun _ => rolled_back it d) (stays (redone it) it d)).
    { apply drop_prepared; [done..|]. intros d' Hd'. split; [done|by apply rolled_back_stays]. }
    destruct Hk as [Hk|Hk].
    + rewrite is_Some_none by done. by apply safe_bind, safe_ret, Hdrop.
    + erewrite is_Some_some by (by rewrite Hk). apply safe_bind. eapply safe_require; [by rewrite <- Hb|by apply Hdrop|done].
  - assert (Hk : files d !! backup_of it = Some (File c)) by (rewrite <- Hb; by destruct Hh as [[_ ?]|[[_ ?] _]]).
    assert (Hrest := restore_target it c d d Hb Ht). apply safe_bind.
    destruct Hh as [[Hg Hk']|[[Hg Hk'] Hne]]; rewrite Hg in *.
    + rewrite is_Some_none in * by done. apply safe_ret, safe_bind. eapply safe_require; [done| |done].
      apply safe_bind, safe_ret, Hrest; [by left|done].
    + erewrite is_Some_some in * by done. apply safe_bind. eapply safe_digest; [done|apply safe_ret|done].
      rewrite eq_digest, bool_decide_eq_false_2 by done. apply safe_bind. eapply safe_require; [done| |done].
      apply safe_bind. eapply safe_require; [done| |done]. apply Hrest; [by right|done].
Qed.

(** Rolling an entry back, from any state of its transaction. *)
Lemma rollback_entry_safe it d :
  sound_item it -> amid it (files d) ->
  safe F (rollback_entry (entry_of it)) d (fun _ => rolled_back it d) (stays (redone it) it d).
Proof. intros [Hb|(c & Hb & Hcol)] Ham; [by apply rollback_new|by eapply rollback_old]. Qed.

Definition ready (it : item) (fm : gmap str node) : Prop :=
  tidy (goal it) fm /\ untouched it fm /\ fm !! prepared_of it = Some (File (new_content it)).
Definition applied (it : item) (d d' : Disk) : Prop :=
  places d' = places d /\ within (handled it) (files d) (files d') /\
  tidy (goal it) (files d') /\ replaced it (files d') /\ files d' !! prepared_of it = None.

Lemma applied_stays it d d' : applied it d d' -> stays (handled it) it d d'.
Proof. intros (H1 & H2 & H3 & H4 & _). split; [done|split; [done|split; auto]]. Qed.

(** The prepared file over the target that has made room for it. *)
Lemma publish_entry it d0 d :
  stays (handled it) it d0 d -> held it (files d) -> files d !! prepared_of it = Some (File (new_content it)) ->
  safe F (let! _ := require_file_hash (At (prepared_of it)) (sha256 (new_content it)) in
          let! _ := record_io_failure (lit "rename_prepared_to_target") (rename (prepared_of it) (goal it)) in
          require_file_hash (At (goal it)) (sha256 (new_content it))) d (fun _ => applied it d0) (stays (handled it) it d0).
Proof.
  intros Hs [Hg Hk] Hp. pose proof Hs as (Hpl & Hw & Ht & _).
  assert (Ha : applied it d0 (moved (prepared_of it) (goal it) (File (new_content it)) d)).
  { split; [done|split; [only_there|]]. repeat split; cbn [moved files]; [apply tidy_insert; [by apply tidy_delete|path_ne]..| | |]; by lookups. }
  apply safe_bind. eapply safe_require; [done| |done]. apply safe_bind.
  eapply safe_rename; [done|by rewrite Hg| |done]. eapply safe_require; [apply lookup_insert_eq|done|by apply applied_stays].
Qed.

(** A target moved to its free backup. *)
Lemma tidy_backup it c fm :
  tidy (goal it) fm -> before !! goal it = Some (File c) -> tidy (goal it) (<[backup_of it := File c]> (base.delete (goal it) fm)).
Proof.
  intros Ht Hb. pose proof (tidy_delete _ (goal it) _ Ht) as [H1 H2]. split.
  - intros s. destruct (decide (backup_of it = sidecar (goal it) s)) as [<-|Hs].
    + by rewrite lookup_insert_eq.
    + rewrite lookup_insert_ne by done. apply H1.
  - destruct (decide (backup_of it = canonical_of (goal it))) as [<-|Hs].
    + right. by rewrite lookup_insert_eq.
    + by rewrite lookup_insert_ne.
Qed.

(** A target that is as it was, with no backup in the way, moved to its backup. *)
Lemma set_aside it c d0 d :
  before !! goal it = Some (File c) -> stays (handled it) it d0 d -> untouched it (files d) -> files d !! backup_of it = None ->
  files d !! prepared_of it = Some (File (new_content it)) ->
  safe F (record_io_failure (lit "rename_target_to_backup") (rename (goal it) (backup_of it))) d
    (fun _ d' => stays (handled it) it d0 d' /\ held it (files d') /\ files d' !! prepared_of it = Some (File (new_content it)))
    (stays (handled it) it d0).
Proof.
  intros Hb Hs [Hg _] Hk Hp. pose proof Hs as (Hpl & Hw & Ht & _).
  eapply safe_rename; [by rewrite Hg|by rewrite Hk| |done].
  assert (Hh : held it (files (moved (goal it) (backup_of it) (File c) d))).
  { split; cbn [moved files]; lookups; [done|by rewrite Hb]. }
  split; [|split; [done|cbn [moved files]; by lookups]]. split; [done|split; [only_there|]]. split; [by apply tidy_backup|auto].
Qed.

Lemma replace_target it c d0 d :
  before !! goal it = Some (File c) -> stays (handled it) it d0 d -> untouched it (files d) -> files d !! backup_of it = None ->
  files d !! prepared_of it = Some (File (new_content it)) ->
  safe F (let! _ := (let! _ := require_file_hash (At (goal it)) (sha256 c) in
                     record_io_failure (lit "rename_target_to_backup") (rename (goal it) (backup_of it))) in
          let! _ := require_file_hash (At (prepared_of it)) (sha256 (new_content it)) in
          let! _ := record_io_failure (lit "rename_prepared_to_target") (rename (prepared_of it) (goal it)) in
          require_file_hash (At (goal it)) (sha256 (new_content it))) d (fun _ => applied it d0) (stays (handled it) it d0).
Proof.
  intros Hb Hs Hu Hk Hp. apply safe_bind, safe_bind. eapply safe_require; [cbn [lookup_loc]; by rewrite (proj1 Hu)| |done].
  eapply safe_mono; [by eapply set_aside| |done]. intros _ d2 (Hs2 & Hh2 & Hp2). by apply publish_entry.
Qed.

(** Applying an entry that is ready. *)
Lemma apply_entry_safe it d :
  sound_item it -> ready it (files d) ->
  safe F (apply_entry (entry_of it)) d (fun _ => applied it d) (stays (handled it) it d).
Proof.
  intros Hs (Ht & Hu & Hp). assert (Ham : amid it (files d)) by (split; auto).
  assert (Hstay : stays (handled it) it d d) by (split; [done|split; [apply within_refl|done]]).
  destruct (tidy_regular it _ Ht) as [_ Hrb]. assert (Hrg := amid_regular it d Hs Ham). pose proof Hu as [Hg Hk].
  unfold apply_entry, entry_of; cbn [expected_sha256 had_original original_sha256 target prepared backup].
  apply safe_bind, safe_valid_digest, safe_bind, safe_reserved; [done| |done]. cbn [lookup_loc].
  destruct Hs as [Hb|(c & Hb & _)]; rewrite Hb in *.
  - assert (Hk' : files d !! backup_of it = None) by (destruct Hk; congruence).
    rewrite !is_Some_none by done. apply safe_bind, safe_ret, safe_bind, safe_bind, safe_reserved; [done| |done].
    cbn [lookup_loc]. rewrite is_Some_none by congruence. apply safe_ensure; [done|].
    apply publish_entry; [done| |done]. split; congruence.
  - erewrite (is_Some_some (Some (File c))) by done. apply safe_bind. destruct Hk as [Hk|Hk].
    + rewrite is_Some_none by done. apply safe_ret. by apply replace_target.
    + erewrite is_Some_some by done. apply safe_bind. eapply safe_require; [done| |done].
      apply safe_bind. eapply safe_require; [done| |done]. eapply safe_remove; [done| |done].
      assert (Hu1 : untouched it (files (removed_file (backup_of it) d))).
      { split; cbn [removed_file files]; lookups; [congruence|by left]. }
      apply replace_target; [done| |done|cbn [removed_file files]; by lookups..].
      split; [done|split; [only_there|]]. split; [by apply tidy_delete|by left].
Qed.

(** *** Cleaning up *)

Context (windows : bool).

Lemma remove_committed_safe p c alternate defer d :
  files d !! p = Some (File c) ->
  safe F (remove_committed_file windows (At p) (sha256 c) alternate defer) d
    (fun _ d' => d' = d \/ d' = removed_file p d) (fun d' => d' = d \/ d' = removed_file p d).
Proof.
  intros Hc. apply safe_bind, safe_reserved; [cbn [lookup_loc]; by rewrite Hc| |by left]. cbn [lookup_loc].
  erewrite is_Some_some by done. apply safe_bind. eapply safe_digest; [done| |by left].
  apply safe_bind, safe_ensure; [by rewrite eq_digest, bool_decide_eq_true_2|].
  apply safe_bind, safe_attempt.
  - eapply safe_remove; [done|apply safe_ret; by right|by left].
  - intros e d' HF Hd'. destruct (defer && is_deferred_image_lock windows e); [by apply safe_ret|by apply safe_raise].
Qed.

(** What a cleanup removes: the backup, or nothing. *)
Definition cleaned (it : item) (d d' : Disk) : Prop := d' = d \/ d' = removed_file (backup_of it) d.
Definition sweepable (it : item) (fm : gmap str node) : Prop :=
  fm !! prepared_of it = None /\ (fm !! backup_of it = None \/ fm !! backup_of it = before !! goal it).

Lemma cleanup_entry_safe it d :
  sound_item it -> sweepable it (files d) ->
  safe F (cleanup_entry windows (entry_of it)) d (fun _ => cleaned it d) (cleaned it d).
Proof.
  intros Hs [Hp Hk]. assert (Hself : cleaned it d d) by (by left).
  assert (Hreg : files d !! backup_of it <> Some Special).
  { destruct Hk as [->| ->]; [done|]. by destruct Hs as [->|(c & -> & _)]. }
  unfold cleanup_entry, entry_of; cbn [expected_sha256 original_sha256 prepared backup].
  apply safe_bind, safe_bind, safe_reserved; [cbn [lookup_loc]; by rewrite Hp| |done]. cbn [lookup_loc].
  rewrite is_Some_none by done. apply safe_ret, safe_bind, safe_reserved; [done| |done]. cbn [lookup_loc].
  case_bool_decide as Hn; [|by apply safe_ret]. destruct Hn as [n Hn]. destruct Hk as [Hk|Hk]; [congruence|].
  destruct Hs as [Hb|(c & Hb & _)]; [congruence|]. rewrite Hb. apply safe_bind.
  eapply safe_mono; [apply remove_committed_safe; by rewrite Hk| |done]. intros b d' Hd'. by apply safe_ret.
Qed.
End Items.
