(* ===== verification/UpdatePhases.v ===== *)
(** The loops of the updater over the entries of a journal, and the phases of a staged
    update: what is on the disk between the launches, whatever failed and wherever they
    died. *)

From S2P Require Import Prelude Json Text UpdateFs UpdateSet UpdateEntries.

Local Open Scope Z_scope.

(** ** Disjoint items *)

Definition over (S : item -> str -> Prop) (its : list item) (p : str) : Prop := exists it, it ∈ its /\ S it p.

(** Distinct targets, none of them reserved for another. *)
Definition spread (its : list item) : Prop := NoDup (goal <$> its) /\ forall a b, a ∈ its -> b ∈ its -> apart (goal a) (goal b).

(** The two disks agree on all paths of a target. *)
Definition agree (g : str) (fm fm' : gmap str node) : Prop := forall p, owns g p -> fm' !! p = fm !! p.

Lemma spread_cons it its : spread (it :: its) -> spread its.
Proof. intros [H1 H2]. apply NoDup_cons in H1 as [_ H1]. split; [done|]. intros a b Ha Hb. apply H2; by right. Qed.

Lemma spread_head it its i : spread (it :: its) -> i ∈ its -> goal i <> goal it /\ apart (goal i) (goal it) /\ apart (goal it) (goal i).
Proof.
  intros [H1 H2] Hi. apply NoDup_cons in H1 as [H1 _]. split; [|split; apply H2; first [by left|by right]].
  intros E. apply H1. rewrite <- E. by apply list_elem_of_fmap_2.
Qed.

Lemma spread_perm its its' : its ≡ₚ its' -> spread its -> spread its'.
Proof.
  intros Hp [H1 H2]. split; [by rewrite <- Hp|]. intros a b Ha Hb. rewrite <- Hp in Ha, Hb. by apply H2.
Qed.

Lemma redone_owns it p : redone it p -> owns (goal it) p.
Proof. intros [->| ->]; [by left|right; by eexists]. Qed.
Lemma handled_owns it p : handled it p -> owns (goal it) p.
Proof. intros [->|[->| ->]]; [by left|right; by eexists..]. Qed.

Lemma agree_apart S i it fm fm' :
  (forall p, S i p -> owns (goal i) p) -> goal i <> goal it -> apart (goal i) (goal it) -> apart (goal it) (goal i) ->
  within (S i) fm fm' -> agree (goal it) fm fm'.
Proof. intros HS Hne H1 H2 Hw p Hp. apply Hw. intros Hi. apply Hne. by apply (owns_apart (goal i) (goal it) p); auto. Qed.

Lemma agree_over S it its fm fm' :
  (forall i p, S i p -> owns (goal i) p) -> spread (it :: its) -> within (over S its) fm fm' -> agree (goal it) fm fm'.
Proof.
  intros HS Hsp Hw p Hp. apply Hw. intros (i & Hi & HSi). destruct (spread_head _ _ _ Hsp Hi) as (Hne & H1 & H2).
  apply Hne. apply (owns_apart (goal i) (goal it) p); auto.
Qed.

Lemma over_head (S : item -> str -> Prop) it its fm fm' : within (S it) fm fm' -> within (over S (it :: its)) fm fm'.
Proof. apply within_weaken. intros p Hp. exists it. split; [by left|done]. Qed.
Lemma over_tail (S : item -> str -> Prop) it its fm fm' : within (over S its) fm fm' -> within (over S (it :: its)) fm fm'.
Proof. apply within_weaken. intros p (i & Hi & Hp). exists i. split; [by right|done]. Qed.

Section Local.
Context (before : gmap str node).

Lemma tidy_agree g fm fm' : agree g fm fm' -> tidy before g fm -> tidy before g fm'.
Proof. intros Ha [H1 H2]. split; [intros s|]; rewrite Ha by (right; by eexists); auto. Qed.

Lemma untouched_agree it fm fm' : agree (goal it) fm fm' -> untouched before it fm -> untouched before it fm'.
Proof. intros Ha [H1 H2]. split; rewrite !Ha by (first [by left|right; by eexists]); auto. Qed.

Lemma replaced_agree it fm fm' : agree (goal it) fm fm' -> replaced before it fm -> replaced before it fm'.
Proof. intros Ha [H1 H2]. split; rewrite !Ha by (first [by left|right; by eexists]); auto. Qed.

Lemma amid_agree it fm fm' : agree (goal it) fm fm' -> amid before it fm -> amid before it fm'.
Proof.
  intros Ha [H1 H2]. split; [by eapply tidy_agree|]. destruct H2 as [H2|[[H2 H3]|H2]].
  - left. by eapply untouched_agree.
  - right; left. split; rewrite !Ha by (first [by left|right; by eexists]); auto.
  - right; right. by eapply replaced_agree.
Qed.

Lemma prepared_agree it fm fm' : agree (goal it) fm fm' -> fm' !! prepared_of it = fm !! prepared_of it.
Proof. intros Ha. apply Ha. right. by eexists. Qed.

Lemma backup_agree it fm fm' : agree (goal it) fm fm' -> fm' !! backup_of it = fm !! backup_of it.
Proof. intros Ha. apply Ha. right. by eexists. Qed.

Lemma clear_agree it fm fm' : agree (goal it) fm fm' -> clear_of_sidecars before it fm -> clear_of_sidecars before it fm'.
Proof.
  intros Ha (H1 & H2 & H3). split; [by eapply tidy_agree|split; [by eapply untouched_agree|]]. by rewrite (prepared_agree _ _ _ Ha).
Qed.

Lemma ready_agree it fm fm' : agree (goal it) fm fm' -> ready before it fm -> ready before it fm'.
Proof.
  intros Ha (H1 & H2 & H3). split; [by eapply tidy_agree|split; [by eapply untouched_agree|]]. by rewrite (prepared_agree _ _ _ Ha).
Qed.

Lemma Forall_agree (P : item -> gmap str node -> Prop) it its fm fm' S :
  (forall i fm fm', agree (goal i) fm fm' -> P i fm -> P i fm') -> (forall p, S it p -> owns (goal it) p) ->
  spread (it :: its) -> within (S it) fm fm' -> Forall (fun i => P i fm) its -> Forall (fun i => P i fm') its.
Proof.
  intros HP HS Hsp Hw H. rewrite Forall_forall in *. intros i Hi. eapply HP; [|by apply H].
  destruct (spread_head _ _ _ Hsp Hi) as (Hne & H1 & H2). by eapply (agree_apart S it i).
Qed.

(** ** The loops *)

Section Loops.
Context {sha : Sha256} (F : Prop) (windows : bool).

Definition rolling (its : list item) (d d' : Disk) : Prop :=
  places d' = places d /\ within (over redone its) (files d) (files d') /\ Forall (fun it => amid before it (files d')) its.

Lemma rolling_more it its d d1 d2 :
  spread (it :: its) -> rolling (it :: its) d d1 -> rolling its d1 d2 -> rolling (it :: its) d d2.
Proof.
  intros Hsp (Hp1 & Hw1 & Ha1) (Hp2 & Hw2 & Ha2). split; [congruence|]. split.
  - eapply within_trans; [done|by apply over_tail].
  - apply Forall_cons in Ha1 as [Ha1 _]. constructor; [|done]. eapply amid_agree; [|done]. by eapply agree_over; [apply redone_owns|..].
Qed.

Lemma rolling_one it its d d1 :
  spread (it :: its) -> Forall (fun i => amid before i (files d)) its -> stays before (redone it) it d d1 -> rolling (it :: its) d d1.
Proof.
  intros Hsp Has (Hp1 & Hw1 & Ha1). split; [done|split; [by apply over_head|]]. constructor; [done|].
  by apply (Forall_agree (amid before) it its (files d) (files d1) redone); eauto using amid_agree, redone_owns.
Qed.

Lemma rollback_loop_safe its first_error d :
  spread its -> Forall (sound_item before) its -> Forall (fun it => amid before it (files d)) its ->
  safe F (rollback_loop (map (entry_of before) its) first_error) d
    (fun r d' => rolling its d d' /\ (is_Some r -> F \/ is_Some first_error) /\
       (r = None -> first_error = None /\ Forall (fun it => clear_of_sidecars before it (files d')) its))
    (rolling its d).
Proof.
  revert first_error d. induction its as [|it its IH]; intros first_error d Hsp Hs Ha; cbn [map rollback_loop].
  - apply safe_ret. split; [split; [done|split; [apply within_refl|done]]|]. split; [auto|done].
  - apply Forall_cons in Hs as [Hs Hss]. apply Forall_cons in Ha as [Ha Has].
    apply safe_bind, safe_attempt; [eapply safe_mono; [by apply rollback_entry_safe| |intros d1; by apply rolling_one]|].
    + intros [] d1 Hd1. pose proof (rolling_one _ _ _ _ Hsp Has (rolled_back_stays _ _ _ _ Hd1)) as Hr1. destruct Hd1 as (_ & _ & Hc1).
      eapply safe_mono; [apply IH; [by eapply spread_cons|done|by destruct Hr1 as (_ & _ & [_ ?]%Forall_cons)]| |].
      * intros r d2 (H2 & H3 & H4). split; [by eapply rolling_more|].
        assert (Hfe : match first_error with Some _ | _ => first_error end = first_error) by (by destruct first_error).
        rewrite Hfe in H3, H4. split; [done|]. intros Hr. destruct (H4 Hr) as [He Hcs]. split; [done|].
        constructor; [|done]. eapply clear_agree; [|exact Hc1]. by eapply agree_over; [apply redone_owns|done|apply H2].
      * intros d2 H2. by eapply rolling_more.
    + intros e d1 HF Hr1. eapply safe_mono; [apply IH; [by eapply spread_cons|done|by destruct Hr1 as (_ & _ & [_ ?]%Forall_cons)]| |].
      * intros r d2 (H2 & H3 & H4). split; [by eapply rolling_more|]. split; [by left|]. intros Hr.
        destruct (H4 Hr) as [He _]. by destruct first_error.
      * intros d2 H2. by eapply rolling_more.
Qed.

(** Every entry applied, and where the loop may be left. *)
Definition advancing (its : list item) (d d' : Disk) : Prop :=
  places d' = places d /\ within (over handled its) (files d) (files d') /\ Forall (fun it => amid before it (files d')) its.

Definition in_place (it : item) (fm : gmap str node) : Prop :=
  tidy before (goal it) fm /\ replaced before it fm /\ fm !! prepared_of it = None.

Lemma in_place_agree it fm fm' : agree (goal it) fm fm' -> in_place it fm -> in_place it fm'.
Proof.
  intros Ha (H1 & H2 & H3). split; [by eapply tidy_agree|split; [by eapply replaced_agree|]]. by rewrite (prepared_agree _ _ _ Ha).
Qed.

Lemma in_place_amid it fm : in_place it fm -> amid before it fm.
Proof. intros (H1 & H2 & _). split; auto. Qed.

Lemma ready_amid it fm : ready before it fm -> amid before it fm.
Proof. intros (H1 & H2 & _). split; auto. Qed.

Lemma advancing_one it its d d1 :
  spread (it :: its) -> Forall (fun i => ready before i (files d)) its -> stays before (handled it) it d d1 ->
  advancing (it :: its) d d1 /\ Forall (fun i => ready before i (files d1)) its.
Proof.
  intros Hsp Hrs (Hp1 & Hw1 & Ha1).
  assert (Hrs1 : Forall (fun i => ready before i (files d1)) its).
  { by apply (Forall_agree (ready before) it its (files d) (files d1) handled); eauto using ready_agree, handled_owns. }
  split; [|done]. split; [done|split; [by apply over_head|]]. constructor; [done|].
  eapply Forall_impl; [exact Hrs1|]. intros i. apply ready_amid.
Qed.

Lemma advancing_more it its d d1 d2 :
  spread (it :: its) -> advancing (it :: its) d d1 -> advancing its d1 d2 -> advancing (it :: its) d d2.
Proof.
  intros Hsp (Hp1 & Hw1 & Ha1) (Hp2 & Hw2 & Ha2). split; [congruence|]. split.
  - eapply within_trans; [done|by apply over_tail].
  - apply Forall_cons in Ha1 as [Ha1 _]. constructor; [|done]. eapply amid_agree; [|done]. by eapply agree_over; [apply handled_owns|..].
Qed.

Lemma apply_entries_safe its d :
  spread its -> Forall (sound_item before) its -> Forall (fun it => ready before it (files d)) its ->
  safe F (apply_entries (map (entry_of before) its)) d
    (fun _ d' => advancing its d d' /\ Forall (fun it => in_place it (files d')) its) (advancing its d).
Proof.
  revert d. induction its as [|it its IH]; intros d Hsp Hs Hr; cbn [map apply_entries].
  - apply safe_ret. split; [split; [done|split; [apply within_refl|done]]|done].
  - apply Forall_cons in Hs as [Hs Hss]. apply Forall_cons in Hr as [Hr Hrs].
    assert (Hone := fun d1 => advancing_one it its d d1 Hsp Hrs).
    apply safe_bind. eapply safe_mono; [by apply apply_entry_safe| |intros d1 H1; by apply Hone].
    intros [] d1 Hd1. destruct (Hone d1 (applied_stays _ _ _ _ Hd1)) as [Hadv Hrs1]. destruct Hd1 as (_ & _ & Hi1).
    eapply safe_mono; [apply IH; [by eapply spread_cons|done..]| |].
    + intros [] d2 [H2 H3]. split; [by eapply advancing_more|]. constructor; [|done].
      eapply (in_place_agree it (files d1)); [|exact Hi1]. by eapply agree_over; [apply handled_owns|done|apply H2].
    + intros d2 H2. by eapply advancing_more.
Qed.

(** Cleaning up only removes backups. *)
Definition sweeping (its : list item) (d d' : Disk) : Prop :=
  places d' = places d /\ within (over swept its) (files d) (files d') /\ files d' ⊆ files d.

Lemma sweepable_shrink it fm fm' : fm' ⊆ fm -> sweepable before it fm -> sweepable before it fm'.
Proof.
  intros Hsub [H1 H2]. assert (Hp : forall p, fm' !! p = None \/ fm' !! p = fm !! p).
  { intros p. destruct (fm' !! p) as [n|] eqn:E; [right|by left]. symmetry. by eapply lookup_weaken. }
  split.
  - destruct (Hp (prepared_of it)) as [|E]; [done|by rewrite E].
  - destruct (Hp (backup_of it)) as [|E]; [by left|by rewrite E].
Qed.

Lemma cleanup_entries_safe its d :
  Forall (sound_item before) its -> Forall (fun it => sweepable before it (files d)) its ->
  safe F (cleanup_committed_entries windows (map (entry_of before) its)) d (fun _ => sweeping its d) (sweeping its d).
Proof.
  revert d. induction its as [|it its IH]; intros d Hs Hw; cbn [map cleanup_committed_entries].
  - apply safe_ret. split; [done|split; [apply within_refl|done]].
  - apply Forall_cons in Hs as [Hs Hss]. apply Forall_cons in Hw as [Hw Hws].
    assert (Hone : forall d1, cleaned it d d1 -> sweeping (it :: its) d d1).
    { intros d1 [->| ->]; (split; [done|split]); [apply within_refl|done| |cbn [removed_file files]; apply delete_subseteq].
      apply over_head. only_there. }
    apply safe_bind. eapply safe_mono; [by apply cleanup_entry_safe| |exact Hone].
    intros a d1 Hd1. destruct (Hone d1 Hd1) as (Hp1 & Hw1 & Hs1).
    assert (Hmore : forall d2, sweeping its d1 d2 -> sweeping (it :: its) d d2).
    { intros d2 (Hp2 & Hw2 & Hs2). split; [congruence|split; [|by etrans]]. eapply within_trans; [exact Hw1|by apply over_tail]. }
    apply safe_bind. eapply safe_mono; [apply IH; [done|]| |exact Hmore].
    + eapply Forall_impl; [exact Hws|]. intros i. by apply sweepable_shrink.
    + intros b d2 H2. apply safe_ret. by apply Hmore.
Qed.

Lemma rolling_perm its its' d d' : its ≡ₚ its' -> rolling its d d' -> rolling its' d d'.
Proof.
  intros Hp (H1 & H2 & H3). split; [done|split; [|by rewrite <- Hp]].
  eapply within_weaken; [|exact H2]. intros p (i & Hi & Hs). exists i. by rewrite <- Hp.
Qed.

(** A rollback undoes every entry, or fails by a fault. *)
Lemma rollback_safe st its d :
  spread its -> Forall (sound_item before) its -> Forall (fun it => amid before it (files d)) its ->
  safe F (rollback (mkJournal st (map (entry_of before) its))) d
    (fun _ d' => rolling its d d' /\ Forall (fun it => clear_of_sidecars before it (files d')) its) (rolling its d).
Proof.
  intros Hsp Hs Ha. assert (Hr : reverse its ≡ₚ its) by apply reverse_Permutation.
  unfold rollback; cbn [entries]. change (map (entry_of before) its) with (entry_of before <$> its). rewrite <- fmap_reverse.
  apply safe_bind. eapply safe_mono; [apply rollback_loop_safe| |intros d'; by apply rolling_perm].
  - by eapply spread_perm.
  - by rewrite Hr.
  - by rewrite Hr.
  - intros r d' (H1 & H2 & H3). apply (rolling_perm _ _ _ _ Hr) in H1. destruct r as [e|].
    + apply safe_raise; [|done]. by destruct H2 as [?|[? ?]].
    + apply safe_ret. split; [done|]. destruct (H3 eq_refl) as [_ H4]. by rewrite Hr in H4.
Qed.
End Loops.
End Local.

(** ** The phases *)

(** An update of an installation: the executable and its directory, the build that
    launches, the staged manifest with the contents of its components, and the files
    of the installation before it. *)
Record Update : Type := mkUpdate {
  on_windows : bool;
  update_exe : str;
  install_dir : str;
  launching_build : str;
  launch_policy : UpdateSetPolicy;
  staged_manifest : UpdateSetManifest;
  contents : list str;
  before : gmap str node;
}.

Section Phases.
Context {sha : Sha256} {codec : UpdateCodec} (u : Update).

Definition goals : list str := map (fun c => resolve_target (install_dir u) (update_exe u) (component_target c)) (components (staged_manifest u)).

(** The pending set is one that staging produces for this installation, and the files it
    replaces are the regular files it was staged over. *)
Record well_staged : Prop := {
  staged_exe : exists name, split_path (update_exe u) = Some (install_dir u, name);
  staged_bound : bound_executable (staged_manifest u) = update_exe u;
  staged_shape : validate_manifest_shape (staged_manifest u) = Ok tt;
  staged_policy : launch_policy u = CurrentExecutableOnly -> validate_single_binary_manifest (on_windows u) (staged_manifest u) (update_exe u) = Ok tt;
  staged_digests : Forall2 (fun c x => component_sha256 c = sha256 x) (components (staged_manifest u)) (contents u);
  staged_server : exists c, base.filter (fun c => component_target c = CurrentExecutable) (components (staged_manifest u)) = [c];
  staged_build : negb (bool_decide (source_build_version (staged_manifest u) = [])) && (str_len (source_build_version (staged_manifest u)) <=? 128)%nat = true;
  staged_before : is_newer_version (source_build_version (staged_manifest u)) (launching_build u) = false;
  staged_over : exists c, before u !! update_exe u = Some (File c) /\ source_server_sha256 (staged_manifest u) = sha256 c;
  staged_sound : Forall2 (fun g x => before u !! g = None \/ exists c, before u !! g = Some (File c) /\ (sha256 x = sha256 c -> x = c)) goals (contents u);
  staged_distinct : NoDup (map (path_key (on_windows u)) goals);
  staged_apart : forall g g', g ∈ goals -> g' ∈ goals -> apart g g';
}.

(** A journal is about the targets of the update, in some order. *)
Definition covers (its : list item) : Prop := map (fun it => (goal it, new_content it)) its ≡ₚ zip goals (contents u).

Definition journal_of (st : JournalState) (its : list item) : UpdateJournal := mkJournal st (map (entry_of (before u)) its).

(** ** The disk *)

(** Nothing outside the targets and the files reserved for them has changed. *)
Definition framed (fm : gmap str node) : Prop := forall p, (forall g, g ∈ goals -> ~ owns g p) -> fm !! p = before u !! p.

Definition old (fm : gmap str node) : Prop := forall g, g ∈ goals -> fm !! g = before u !! g.
Definition new (fm : gmap str node) : Prop := forall g x, (g, x) ∈ zip goals (contents u) -> fm !! g = Some (File x).

Definition set_members (fs : gmap str str) : Prop :=
  fs !! MANIFEST_FILE = Some (manifest_text (staged_manifest u)) /\
  forall k c x, components (staged_manifest u) !! k = Some c -> contents u !! k = Some x -> fs !! staged_file c = Some x.

Definition generation : AppliedGeneration :=
  mkGeneration 1 (update_exe u) (source_build_version (staged_manifest u)) (source_server_sha256 (staged_manifest u))
    (match base.filter (fun c => component_target c = CurrentExecutable) (components (staged_manifest u)) with c :: _ => component_sha256 c | [] => [] end).

(** Nothing is named as a committed set, other than the one given. *)
Definition committed_only (name : option str) (pl : gmap str place) : Prop :=
  forall n, starts_with COMMITTED_SET_PREFIX n = true -> is_Some (pl !! n) -> Some n = name.

(** The pending set is there, with this journal. *)
Definition pending_with (journal : option str) (d : Disk) : Prop :=
  places d !! PREVIOUS_SET_DIR = None /\ committed_only None (places d) /\
  lookup_loc (Top APPLIED_GENERATION_FILE) d <> Some Special /\
  exists fs, places d !! PENDING_SET_DIR = Some (Dir fs) /\ set_members fs /\ fs !! JOURNAL_FILE = journal.

(** The pending set is gone, and the applied generation recorded. *)
Definition pending_gone (name : option str) (d : Disk) : Prop :=
  places d !! PREVIOUS_SET_DIR = None /\ places d !! PENDING_SET_DIR = None /\ committed_only name (places d) /\
  places d !! APPLIED_GENERATION_FILE = Some (Leaf (generation_text generation)).

(** ** The phases *)

Definition Idle (d : Disk) : Prop :=
  pending_with None d /\ framed (files d) /\ old (files d) /\ Forall (fun g => tidy (before u) g (files d)) goals.

Definition InTransaction (its : list item) (d : Disk) : Prop :=
  pending_with (Some (journal_text (journal_of Applying its))) d /\ covers its /\ framed (files d) /\
  Forall (fun it => amid (before u) it (files d)) its.

Definition Committing (its : list item) (d : Disk) : Prop :=
  pending_with (Some (journal_text (journal_of Committed its))) d /\ covers its /\ framed (files d) /\
  Forall (fun it => in_place (before u) it (files d)) its.

Definition finished (its : list item) (fm : gmap str node) : Prop :=
  covers its /\ framed fm /\ Forall (fun it => fm !! goal it = Some (File (new_content it)) /\ sweepable (before u) it fm) its.

Definition Detached (n : str) (its : list item) (d : Disk) : Prop :=
  pending_gone (Some (COMMITTED_SET_PREFIX ++ n)) d /\ finished its (files d) /\
  exists fs, places d !! (COMMITTED_SET_PREFIX ++ n) = Some (Dir fs) /\ fs !! JOURNAL_FILE = Some (journal_text (journal_of Committed its)).

(** A committed set whose removal was interrupted after its journal went. *)
Definition Orphaned (n : str) (d : Disk) : Prop :=
  pending_gone (Some (COMMITTED_SET_PREFIX ++ n)) d /\ framed (files d) /\ new (files d) /\
  exists fs, places d !! (COMMITTED_SET_PREFIX ++ n) = Some (Dir fs) /\ fs !! JOURNAL_FILE = None.

Definition Done (d : Disk) : Prop := pending_gone None d /\ framed (files d) /\ new (files d).

Definition Phase (d : Disk) : Prop :=
  Idle d \/ (exists its, InTransaction its d) \/ (exists its, Committing its d) \/ (exists n its, Detached n its d) \/
  (exists n, Orphaned n d) \/ Done d.

(** The update is complete, up to the cleanup. *)
Definition Complete (d : Disk) : Prop := (exists n its, Detached n its d) \/ Done d.

Definition settled (d : Disk) : Prop := old (files d) \/ new (files d).

(** ** The items of a journal *)

Lemma zip_goal g x : (g, x) ∈ zip goals (contents u) -> g ∈ goals.
Proof. intros H. by apply elem_of_zip_l in H. Qed.

Lemma covers_item its it : covers its -> it ∈ its -> (goal it, new_content it) ∈ zip goals (contents u).
Proof. unfold covers. intros Hc Hi. rewrite <- Hc. apply (list_elem_of_fmap_2 (fun it => (goal it, new_content it)) its it Hi). Qed.

Lemma item_covered its g x : covers its -> (g, x) ∈ zip goals (contents u) -> exists it, it ∈ its /\ goal it = g /\ new_content it = x.
Proof. unfold covers. intros Hc Hg. rewrite <- Hc in Hg. apply list_elem_of_fmap in Hg as (it & E & Hit). exists it. by simplify_eq. Qed.

Section Staged.
Context (Hst : well_staged).

Lemma contents_length : length goals = length (contents u).
Proof. unfold goals. rewrite length_map. exact (Forall2_length _ _ _ (staged_digests Hst)). Qed.

Lemma goals_NoDup : NoDup goals.
Proof. exact (NoDup_fmap_1 _ _ (staged_distinct Hst)). Qed.

Lemma covers_goals its : covers its -> map goal its ≡ₚ goals.
Proof.
  intros Hc. apply (fmap_Permutation fst) in Hc. rewrite fst_zip in Hc by (rewrite contents_length; lia).
  rewrite <- Hc. rewrite <- list_fmap_compose. done.
Qed.

Lemma goal_covered its g : covers its -> g ∈ goals -> exists it, it ∈ its /\ goal it = g.
Proof. intros Hc Hg. rewrite <- (covers_goals its Hc) in Hg. apply list_elem_of_fmap in Hg as (it & -> & Hi). by exists it. Qed.

Lemma covered_goal its it : covers its -> it ∈ its -> goal it ∈ goals.
Proof. intros Hc Hi. eapply zip_goal, covers_item; done. Qed.

Lemma covers_spread its : covers its -> spread its.
Proof.
  intros Hc. split.
  - change (goal <$> its) with (map goal its). rewrite (covers_goals its Hc). apply goals_NoDup.
  - intros a b Ha Hb. apply (staged_apart Hst); by eapply covered_goal.
Qed.

Lemma covers_sound its : covers its -> Forall (sound_item (before u)) its.
Proof.
  intros Hc. apply Forall_forall. intros it Hi. apply (covers_item _ _ Hc) in Hi.
  apply list_elem_of_lookup in Hi as [i Hi]. apply lookup_zip_Some in Hi as [Hg Hx].
  exact (Forall2_lookup_lr _ _ _ _ _ _ (staged_sound Hst) Hg Hx).
Qed.

Lemma framed_within (S : item -> str -> Prop) its fm fm' :
  covers its -> (forall it p, S it p -> owns (goal it) p) -> within (over S its) fm fm' -> framed fm -> framed fm'.
Proof.
  intros Hc HS Hw Hf p Hp. rewrite Hw; [by apply Hf|]. intros (it & Hi & Hs). apply (Hp (goal it)); [by eapply covered_goal|]. by apply HS.
Qed.

Lemma swept_owns it p : swept it p -> owns (goal it) p.
Proof. intros [->| ->]; right; by eexists. Qed.

Lemma old_clear its fm : covers its -> Forall (fun it => clear_of_sidecars (before u) it fm) its ->
  old fm /\ Forall (fun g => tidy (before u) g fm) goals.
Proof.
  intros Hc H. rewrite Forall_forall in H. split; [intros g Hg|apply Forall_forall; intros g Hg];
    destruct (goal_covered its g Hc Hg) as (it & Hi & <-); by destruct (H it Hi) as (Ht & [Ho _] & _).
Qed.

Lemma new_in_place its fm : covers its -> Forall (fun it => fm !! goal it = Some (File (new_content it))) its -> new fm.
Proof.
  intros Hc H g x Hg. destruct (item_covered its g x Hc Hg) as (it & Hi & <- & <-). rewrite Forall_forall in H. auto.
Qed.

(** ** What the manifest names *)

Lemma shape_components : components_shape 0 (components (staged_manifest u)) = Ok tt.
Proof.
  pose proof (staged_shape Hst) as H. unfold validate_manifest_shape in H. destruct (negb _); [done|].
  destruct (validate_expected_sha _); cbn in H; [|done]. by destruct (bool_decide _).
Qed.

Lemma shape_files i cs : components_shape i cs = Ok tt -> forall k c, cs !! k = Some c -> staged_file c = component_file (i + k).
Proof.
  revert i. induction cs as [|c cs IH]; intros i H k c' Hk; [done|]. cbn [components_shape] in H.
  case_bool_decide as Hf; cbn [negb] in H; [|done]. destruct (validate_target _); cbn in H; [|done].
  destruct (validate_expected_sha _); cbn in H; [|done]. destruct k as [|k]; simplify_eq/=; [by rewrite Nat.add_0_r|].
  rewrite (IH _ H k c') by done. f_equal. lia.
Qed.

Lemma staged_file_name c : c ∈ components (staged_manifest u) -> exists s, staged_file c = 99 :: s.
Proof.
  intros [k Hk]%list_elem_of_lookup. rewrite (shape_files _ _ shape_components k c Hk). eexists. reflexivity.
Qed.

Lemma set_members_insert fs v : set_members fs -> set_members (<[JOURNAL_FILE := v]> fs).
Proof.
  intros [H1 H2]. split; [by rewrite lookup_insert_ne|]. intros k c x Hc Hx.
  destruct (staged_file_name c (list_elem_of_lookup_2 _ _ _ Hc)) as [s E]. rewrite lookup_insert_ne; [by eapply H2|]. by rewrite E.
Qed.

Lemma set_members_delete fs : set_members fs -> set_members (base.delete JOURNAL_FILE fs).
Proof.
  intros [H1 H2]. split; [by rewrite lookup_delete_ne|]. intros k c x Hc Hx.
  destruct (staged_file_name c (list_elem_of_lookup_2 _ _ _ Hc)) as [s E]. rewrite lookup_delete_ne; [by eapply H2|]. by rewrite E.
Qed.
End Staged.
End Phases.
