(* ===== verification/UpdateLaunch.v ===== *)
(** A launch that finds a staged update: from each phase, it completes the update and
    commits it, or fails by a fault and leaves one of the phases. *)

From S2P Require Import Prelude Json Text UpdateFs UpdateSet UpdateEntries UpdatePhases.

Local Open Scope Z_scope.

Section Launch.
Context {sha : Sha256} {codec : UpdateCodec} {dirs : DirOrder} (F : Prop) (u : Update) (Hst : well_staged u).

(** ** The journal *)

Lemma pending_files j d d' : places d' = places d -> pending_with u j d -> pending_with u j d'.
Proof. intros E. unfold pending_with. cbn [lookup_loc]. by rewrite E. Qed.

(** Changing the journal keeps the rest of the pending set. *)
Lemma pending_alter j j' d f :
  pending_with u j d -> (forall fs, set_members u fs -> set_members u (f fs) /\ f fs !! JOURNAL_FILE = j') ->
  pending_with u j' (mkDisk (files d) (alter (fun x => match x with Dir fs => Dir (f fs) | _ => x end) PENDING_SET_DIR (places d))).
Proof.
  intros (H1 & H2 & H3 & fs & Hp & Hm & Hj) Hf. destruct (Hf fs Hm) as [Hm' Hj'].
  split; [|split; [|split]]; cbn [places lookup_loc].
  - by rewrite lookup_alter_ne.
  - intros n Hn Hs. apply (H2 n Hn). destruct (decide (n = PENDING_SET_DIR)) as [->|Hne]; [by rewrite Hp|by rewrite lookup_alter_ne in Hs].
  - cbn [lookup_loc] in H3. by rewrite lookup_alter_ne.
  - exists (f fs). split; [|done]. by rewrite lookup_alter_eq, Hp.
Qed.

Lemma write_journal_safe j0 j d :
  pending_with u j0 d -> safe F (write_journal j) d
    (fun _ d' => files d' = files d /\ pending_with u (Some (journal_text j)) d') (fun d' => d' = d).
Proof.
  intros Hp. pose proof Hp as (_ & _ & _ & fs & Hd & Hm & Hj). unfold write_journal.
  eapply safe_io; [cbn [lookup_loc has_parent]; rewrite Hd; by destruct (fs !! JOURNAL_FILE)| |done].
  split; [done|]. cbn [put]. eapply (pending_alter _ _ d (fun fs => <[JOURNAL_FILE := journal_text j]> fs)); [exact Hp|].
  intros fs' Hm'. split; [by apply set_members_insert|apply lookup_insert_eq].
Qed.

Lemma remove_journal_safe t d :
  pending_with u (Some t) d -> safe F remove_journal d
    (fun _ d' => files d' = files d /\ pending_with u None d') (fun d' => d' = d).
Proof.
  intros Hp. pose proof Hp as (_ & _ & _ & fs & Hd & Hm & Hj). unfold remove_journal.
  eapply safe_io; [cbn [lookup_loc]; by rewrite Hd, Hj| |done].
  split; [done|]. cbn [drop_loc]. eapply (pending_alter _ _ d (base.delete JOURNAL_FILE)); [exact Hp|].
  intros fs' Hm'. split; [by apply set_members_delete|apply lookup_delete_eq].
Qed.

(** ** Undoing a transaction *)

Lemma rolling_framed its d d' : covers u its -> framed u (files d) -> rolling (before u) its d d' -> framed u (files d').
Proof. intros Hc Hf (_ & Hw & _). eapply framed_within; [done..|apply redone_owns|done|done]. Qed.

Lemma sweeping_framed its d d' : covers u its -> framed u (files d) -> sweeping its d d' -> framed u (files d').
Proof. intros Hc Hf (_ & Hw & _). eapply framed_within; [done..|apply swept_owns|done|done]. Qed.

Lemma not_swept its g : covers u its -> g ∈ goals u -> ~ over swept its g.
Proof.
  intros Hc Hg (it & Hi & Hs). assert (Hgi : goal it ∈ goals u) by (by eapply covered_goal).
  destruct Hs as [Hs|Hs]; by eapply (staged_apart u Hst _ _ Hgi Hg).
Qed.

Lemma swept_lookup its d d' p : sweeping its d d' -> files d' !! p = None \/ files d' !! p = files d !! p.
Proof.
  intros (_ & _ & Hsub). destruct (files d' !! p) as [n|] eqn:E; [right|by left]. symmetry. by eapply lookup_weaken.
Qed.

Lemma sweeping_clear its d d' :
  covers u its -> sweeping its d d' -> Forall (fun it => clear_of_sidecars (before u) it (files d)) its ->
  Forall (fun it => clear_of_sidecars (before u) it (files d')) its.
Proof.
  intros Hc Hsw H. apply Forall_forall. intros it Hi. rewrite Forall_forall in H. destruct (H it Hi) as ([Hr Hcan] & [Hg Hk] & Hn).
  split; [split|split; [split|]].
  - intros s. destruct (swept_lookup _ _ _ (sidecar (goal it) s) Hsw) as [-> | ->]; [done|apply Hr].
  - destruct (swept_lookup _ _ _ (canonical_of (goal it)) Hsw) as [->| ->]; auto.
  - destruct Hsw as (_ & Hw & _). rewrite Hw; [done|]. apply not_swept; [done|by eapply covered_goal].
  - destruct (swept_lookup _ _ _ (backup_of it) Hsw) as [->| ->]; auto.
  - destruct (swept_lookup _ _ _ (prepared_of it) Hsw) as [->| ->]; auto.
Qed.

Lemma clear_sweepable its fm :
  Forall (fun it => clear_of_sidecars (before u) it fm) its -> Forall (fun it => sweepable (before u) it fm) its.
Proof. intros H. eapply Forall_impl; [exact H|]. intros it (_ & [_ Hk] & Hn). by split. Qed.

Lemma clear_idle its d :
  covers u its -> pending_with u None d -> framed u (files d) -> Forall (fun it => clear_of_sidecars (before u) it (files d)) its -> Idle u d.
Proof. intros Hc Hp Hf Ha. split; [done|split; [done|]]. by eapply old_clear. Qed.

(** Paths that were free stay so, but for the targets and their prepared files. *)
Definition spared (d d' : Disk) : Prop :=
  forall p, files d !! p = None -> (forall g, g ∈ goals u -> p <> g /\ p <> sidecar g (lit "new")) -> files d' !! p = None.

Lemma rolling_spared its d d' : covers u its -> rolling (before u) its d d' -> spared d d'.
Proof.
  intros Hc (_ & Hw & _) p Hp Hne. rewrite Hw; [done|]. intros (it & Hi & Hr).
  destruct (Hne (goal it)) as [H1 H2]; [by eapply covered_goal|]. by destruct Hr.
Qed.

(** The sidecars of a transaction that was rolled back go; the update is staged as before. *)
Lemma tail_of_undo its d :
  covers u its -> pending_with u None d -> framed u (files d) -> Forall (fun it => clear_of_sidecars (before u) it (files d)) its ->
  safe F (cleanup_committed_entries (on_windows u) (map (entry_of (before u)) its)) d (fun _ d' => Idle u d' /\ spared d d') (Idle u).
Proof.
  intros Hc Hp Hf Ha.
  assert (Hend : forall d', sweeping its d d' -> Idle u d' /\ spared d d').
  { intros d' Hsw. split; [|intros p Hn _; by destruct (swept_lookup _ _ _ p Hsw) as [->| ->]].
    apply (clear_idle its); [done| |by eapply sweeping_framed|by eapply sweeping_clear].
    eapply pending_files; [by destruct Hsw|done]. }
  eapply safe_mono; [apply cleanup_entries_safe; [by apply covers_sound|by apply clear_sweepable]|intros b; exact Hend|].
  intros d' Hd'. by apply Hend.
Qed.

Lemma undo_safe its d :
  InTransaction u its d ->
  safe F (undo (on_windows u) (journal_of u Applying its)) d (fun _ d' => Idle u d' /\ spared d d') (Phase u).
Proof.
  intros (Hp & Hc & Hf & Ha). assert (Hroll : forall d', rolling (before u) its d d' -> InTransaction u its d').
  { intros d' Hr. split; [eapply pending_files; [by destruct Hr|exact Hp]|]. split; [done|]. split; [by eapply rolling_framed|by destruct Hr as (_ & _ & ?)]. }
  unfold undo. apply safe_bind. eapply safe_mono; [apply rollback_safe; [by apply (covers_spread u Hst)|by apply covers_sound|done]| |].
  2: { intros d' Hr. right; left. exists its. by apply Hroll. }
  intros [] d1 [Hr Hcl]. destruct (Hroll d1 Hr) as (Hp1 & _ & Hf1 & Ha1).
  apply safe_bind. eapply safe_mono; [by eapply remove_journal_safe| |].
  2: { intros d' ->. right; left. exists its. by apply Hroll. }
  intros [] d2 [E Hp2]. rewrite <- E in Hf1, Hcl. apply safe_bind.
  eapply safe_mono; [by apply (tail_of_undo its)| |intros d'; by left].
  intros b d3 [H3 Hs3]. apply safe_ret. split; [done|]. intros p Hn Hne.
  apply Hs3; [|done]. rewrite E. by eapply rolling_spared.
Qed.

(** ** Preparing the components *)

Context (call : Call) (Hnonce : forall w, nonce call w = None -> F).

(** Prepared files appear beside the targets, nothing else changes. *)
Definition drafts (d d' : Disk) : Prop :=
  places d' = places d /\
  forall p, files d' !! p = files d !! p \/ exists g c, g ∈ goals u /\ p = sidecar g (lit "new") /\ files d' !! p = Some (File c).

Lemma drafts_refl d : drafts d d.
Proof. split; [done|]. by left. Qed.

Lemma drafts_trans d1 d2 d3 : drafts d1 d2 -> drafts d2 d3 -> drafts d1 d3.
Proof.
  intros [P1 H1] [P2 H2]. split; [congruence|]. intros p. destruct (H2 p) as [E|H]; [rewrite E; apply H1|by right].
Qed.

Lemma drafts_stored d it c : goal it ∈ goals u -> drafts d (stored (prepared_of it) c d).
Proof.
  intros Hg. split; [done|]. intros p. cbn [stored files]. destruct (decide (p = prepared_of it)) as [->|Hne].
  - right. exists (goal it), c. split; [done|split; [done|apply lookup_insert_eq]].
  - left. by rewrite lookup_insert_ne.
Qed.

Lemma drafts_idle d d' : Idle u d -> drafts d d' -> Idle u d'.
Proof.
  intros (Hp & Hf & Ho & Ht) [Hpl Hd]. split; [by eapply pending_files|split; [|split]].
  - intros p Hne. destruct (Hd p) as [->|(g & c & Hg & -> & _)]; [by apply Hf|]. destruct (Hne g Hg). right. by eexists.
  - intros g Hg. destruct (Hd g) as [->|(g' & c & Hg' & E & _)]; [by apply Ho|]. by destruct (staged_apart u Hst _ _ Hg' Hg (lit "new")).
  - apply Forall_forall. intros g Hg. rewrite Forall_forall in Ht. destruct (Ht g Hg) as [Hr Hcan]. split.
    + intros s. by destruct (Hd (sidecar g s)) as [->|(g' & c & _ & _ & ->)].
    + destruct (Hd (canonical_of g)) as [->|(g' & c & Hg' & E & _)]; [done|].
      assert (g = g') as <- by (eapply sidecar_owner; [by apply (staged_apart u Hst)..|exact E]). by apply sidecar_inj in E.
Qed.

(** A nonce gives a backup a name no file has. *)
Definition fresh_backups (d : Disk) : Prop :=
  forall g n, g ∈ goals u -> nonce call (ForBackup g) = Some n -> files d !! sidecar g (lit "backup-" ++ n) = None.

Lemma drafts_fresh d d' : drafts d d' -> fresh_backups d -> fresh_backups d'.
Proof.
  intros [_ Hd] Hfr g n Hg Hn. destruct (Hd (sidecar g (lit "backup-" ++ n))) as [->|(g' & c & Hg' & E & _)]; [by apply Hfr|].
  assert (g = g') as <- by (eapply sidecar_owner; [by apply (staged_apart u Hst)..|exact E]). by apply sidecar_inj in E.
Qed.

Lemma spared_fresh d d' : spared d d' -> fresh_backups d -> fresh_backups d'.
Proof.
  intros Hs Hfr g n Hg Hn. apply Hs; [by apply Hfr|]. intros g' Hg'. split.
  - intros E. symmetry in E. by eapply (staged_apart u Hst g g').
  - intros E. assert (g = g') as <- by (eapply sidecar_owner; [by apply (staged_apart u Hst)..|exact E]). by apply sidecar_inj in E.
Qed.

(** The backup a transaction will use is free, or holds what the target was. *)
Lemma backup_path_safe d g x :
  g ∈ goals u -> Idle u d -> fresh_backups d ->
  safe F (backup_path_for_transaction call g) d
    (fun b d' => d' = d /\ exists it, goal it = g /\ new_content it = x /\ b = backup_of it /\ untouched (before u) it (files d))
    (fun d' => d' = d).
Proof.
  intros Hg (_ & _ & Ho & Ht) Hfr. rewrite Forall_forall in Ht. destruct (Ht g Hg) as [Hr Hcan].
  assert (Hdef : exists it, goal it = g /\ new_content it = x /\ g ++ lit ".dcc-mcp-backup" = backup_of it /\ untouched (before u) it (files d)).
  { exists (mkItem g x []). split; [done|split; [done|split; [done|]]]. split; [by apply Ho|exact Hcan]. }
  apply safe_bind, wp_operate; [|intros _ k c; by apply safe_ret|done]. cbn [lookup_loc].
  destruct (files d !! (g ++ lit ".dcc-mcp-backup")) as [[c|]|] eqn:E; [|by apply safe_ret..].
  apply safe_bind. unfold unique_nonce. destruct (nonce call (ForBackup g)) as [n|] eqn:En; [|apply safe_raise; [by eapply Hnonce|done]].
  apply safe_ret, safe_ret. split; [done|]. exists (mkItem g x (lit "-" ++ n)). split; [done|split; [done|split; [done|]]].
  split; [by apply Ho|]. left. exact (Hfr g n Hg En).
Qed.

Definition drafted (it : item) (p : str) : Prop := p = prepared_of it.

Lemma drafted_owns it p : drafted it p -> owns (goal it) p.
Proof. intros ->. right. by eexists. Qed.

Lemma prepare_component_safe d fs seen c x g :
  g = resolve_target (install_dir u) (update_exe u) (component_target c) -> g ∈ goals u ->
  (before u !! g = None \/ exists o, before u !! g = Some (File o)) -> path_key (on_windows u) g ∉ seen ->
  places d !! PENDING_SET_DIR = Some (Dir fs) -> fs !! staged_file c = Some x -> component_sha256 c = sha256 x ->
  Idle u d -> fresh_backups d ->
  safe F (prepare_component (on_windows u) call (launch_policy u) (install_dir u) (update_exe u) seen c) d
    (fun e d' => drafts d d' /\ exists it, e = entry_of (before u) it /\ goal it = g /\ new_content it = x /\
       within (drafted it) (files d) (files d') /\ ready (before u) it (files d'))
    (drafts d).
Proof.
  intros Hres Hg Hbe Hseen Hp Hc Hx Hid Hfr. assert (Hl : lookup_loc (In PENDING_SET_DIR (staged_file c)) d = Some (File x)).
  { cbn [lookup_loc]. by rewrite Hp, Hc. }
  pose proof Hid as (_ & _ & Ho & Ht). rewrite Forall_forall in Ht. specialize (Ht g Hg). specialize (Ho g Hg).
  assert (Hself := drafts_refl d). unfold prepare_component. rewrite <- Hres, Hx.
  apply safe_bind, safe_ask. unfold is_file at 1. rewrite Hl. apply safe_bind, safe_ret.
  apply safe_bind. eapply safe_digest; [done| |done]. rewrite eq_digest, bool_decide_eq_true_2 by done. apply safe_bind, safe_ret.
  rewrite bool_decide_eq_false_2 by done. apply safe_bind, safe_ret.
  apply safe_bind. eapply safe_mono; [by eapply (backup_path_safe d g x)| |by intros d' ->].
  intros b d' (-> & it & Hgi & Hxi & -> & Hu). subst x g. rewrite <- Hgi in *.
  assert (Hns : lookup_loc (At (goal it)) d <> Some Special) by (cbn [lookup_loc]; rewrite Ho; by destruct Hbe as [->|[o ->]]).
  apply safe_bind, safe_reserved; [done| |done]. cbn [lookup_loc]. apply safe_bind.
  assert (Hend : forall orig, orig = match before u !! goal it with Some (File o) => Some (sha256 o) | _ => None end ->
    safe F (let! _ := prepare_verified_copy (In PENDING_SET_DIR (staged_file c)) (At (goal it ++ lit ".dcc-mcp-new")) (sha256 (new_content it)) in
            ret (mkEntry (goal it) (goal it ++ lit ".dcc-mcp-new") (backup_of it) (bool_decide (is_Some (files d !! goal it))) orig (sha256 (new_content it)))) d
      (fun e d' => drafts d d' /\ exists it0, e = entry_of (before u) it0 /\ goal it0 = goal it /\ new_content it0 = new_content it /\
         within (drafted it0) (files d) (files d') /\ ready (before u) it0 (files d')) (drafts d)).
  { intros orig ->. change (goal it ++ lit ".dcc-mcp-new") with (prepared_of it).
    apply safe_bind. eapply safe_copy_verified; [exact Hl|apply Ht| |done|intros o; by apply (drafts_stored d it)].
    apply safe_ret. split; [by apply (drafts_stored d it)|]. exists it. split; [unfold entry_of; by rewrite Ho|].
    split; [done|split; [done|split; [apply within_insert; [done|apply within_refl]|]]].
    split; [apply tidy_insert; [done|apply prepared_canonical]|split; [|apply lookup_insert_eq]].
    destruct Hu as [Hu1 Hu2]. split; cbn [stored files]; rewrite lookup_insert_ne; first [done|path_ne]. }
  rewrite Ho. destruct Hbe as [Hbe|[o Hbe]]; rewrite Hbe in *.
  - rewrite (is_Some_none None) by done. apply safe_ret. rewrite Ho in Hend. by apply Hend.
  - erewrite (is_Some_some (Some (File o))) by done. apply safe_bind. eapply safe_digest; [exact Ho| |done].
    apply safe_ret. rewrite Ho in Hend. by apply Hend.
Qed.

Definition goal_of (c : StagedComponent) : str := resolve_target (install_dir u) (update_exe u) (component_target c).

Lemma goal_before g : g ∈ goals u -> before u !! g = None \/ exists o, before u !! g = Some (File o).
Proof.
  intros [k Hk]%list_elem_of_lookup. destruct (Forall2_lookup_l _ _ _ _ _ (staged_sound u Hst) Hk) as (x & _ & [H|(o & H & _)]); eauto.
Qed.

Lemma drafted_spread it its cs :
  map goal (it :: its) = map goal_of cs -> (forall c, c ∈ cs -> goal_of c ∈ goals u) ->
  NoDup (map (path_key (on_windows u)) (map goal_of cs)) -> spread (it :: its).
Proof.
  intros E Hin Hnd. split.
  - change (goal <$> it :: its) with (map goal (it :: its)). rewrite E. exact (NoDup_fmap_1 _ _ Hnd).
  - assert (Hg : forall a, a ∈ it :: its -> goal a ∈ goals u).
    { intros a Ha. apply (list_elem_of_fmap_2 goal) in Ha. change (goal <$> it :: its) with (map goal (it :: its)) in Ha.
      rewrite E in Ha. apply list_elem_of_fmap in Ha as (c & -> & Hc). by apply Hin. }
    intros a b Ha Hb. apply (staged_apart u Hst); auto.
Qed.

Lemma prepare_entries_safe cs xs seen d fs :
  Forall2 (fun c x => fs !! staged_file c = Some x /\ component_sha256 c = sha256 x) cs xs ->
  (forall c, c ∈ cs -> goal_of c ∈ goals u) -> NoDup (map (path_key (on_windows u)) (map goal_of cs)) ->
  (forall c, c ∈ cs -> path_key (on_windows u) (goal_of c) ∉ seen) ->
  places d !! PENDING_SET_DIR = Some (Dir fs) -> Idle u d -> fresh_backups d ->
  safe F (prepare_entries (on_windows u) call (launch_policy u) (install_dir u) (update_exe u) seen cs) d
    (fun es d' => drafts d d' /\ exists its, es = map (entry_of (before u)) its /\
       map (fun it => (goal it, new_content it)) its = zip (map goal_of cs) xs /\
       within (over drafted its) (files d) (files d') /\ Forall (fun it => ready (before u) it (files d')) its)
    (drafts d).
Proof.
  intros Hcs. revert seen d. induction Hcs as [|c x cs xs [Hc Hx] Hcs IH]; intros seen d Hin Hnd Hseen Hp Hid Hfr; cbn [prepare_entries].
  { apply safe_ret. split; [apply drafts_refl|]. exists []. split; [done|split; [done|split; [apply within_refl|done]]]. }
  apply safe_bind. eapply safe_mono; [apply (prepare_component_safe d fs seen c x (goal_of c)); try done| |done].
  1: apply Hin; by left. 1: apply goal_before, Hin; by left. 1: apply Hseen; by left.
  intros e d1 (Hd1 & it & -> & Hg & Hx1 & Hw1 & Hr1). cbn [map] in Hnd. apply NoDup_cons in Hnd as [Hnd1 Hnd2].
  apply safe_bind. eapply safe_mono; [apply (IH _ d1)| |].
  - intros c' Hc'. apply Hin. by right.
  - done.
  - intros c' Hc'. cbn [target entry_of]. rewrite Hg. apply not_elem_of_cons. split; [|apply Hseen; by right].
    intros E. apply Hnd1. rewrite <- E. by apply (list_elem_of_fmap_2 (path_key (on_windows u))), (list_elem_of_fmap_2 goal_of).
  - destruct Hd1 as [-> _]. done.
  - by eapply drafts_idle.
  - by eapply drafts_fresh.
  - intros es d2 (Hd2 & its & -> & Hits & Hw2 & Hr2). apply safe_ret. split; [by eapply drafts_trans|]. exists (it :: its).
    split; [done|]. split; [cbn [map zip zip_with]; by rewrite Hits, Hg, Hx1|]. split.
    + eapply within_trans; [by apply over_head|by apply over_tail].
    + constructor; [|done]. eapply ready_agree; [|exact Hr1]. eapply (agree_over drafted); [apply drafted_owns| |exact Hw2].
      apply (drafted_spread it its (c :: cs)); [|done|by constructor].
      apply (f_equal (map fst)) in Hits. rewrite map_map in Hits. cbn [fst] in Hits.
      change (map fst ?l) with (l.*1) in Hits. rewrite fst_zip in Hits by (rewrite length_map, (Forall2_length _ _ _ Hcs); done).
      cbn [map]. rewrite Hg. f_equal. exact Hits.
  - intros d2 Hd2. by eapply drafts_trans.
Qed.

End Launch.

(** ** The commit *)

Section Commit.
Context {sha : Sha256} {codec : UpdateCodec} {dirs : DirOrder} (F : Prop) (u : Update) (Hst : well_staged u).

(** ** The applied generation *)

Lemma server_component : exists c x,
  base.filter (fun c => component_target c = CurrentExecutable) (components (staged_manifest u)) = [c] /\
  component_sha256 c = sha256 x /\ (update_exe u, x) ∈ zip (goals u) (contents u).
Proof.
  destruct (staged_server u Hst) as [c Hc]. assert (Hin : c ∈ base.filter (fun c => component_target c = CurrentExecutable) (components (staged_manifest u))).
  { rewrite Hc. by left. }
  apply list_elem_of_filter in Hin as [Ht Hin]. apply list_elem_of_lookup in Hin as [k Hk].
  destruct (Forall2_lookup_l _ _ _ _ _ (staged_digests u Hst) Hk) as (x & Hx & Hd).
  exists c, x. split; [done|split; [done|]]. apply list_elem_of_lookup. exists k. apply lookup_zip_Some. split; [|done].
  unfold goals. rewrite list_lookup_fmap, Hk. cbn. by rewrite Ht.
Qed.

Definition recorded (d : Disk) : Prop := places d !! APPLIED_GENERATION_FILE = Some (Leaf (generation_text (generation u))).

Lemma persist_safe j d :
  pending_with u j d -> new u (files d) ->
  safe F (persist_applied_generation (staged_manifest u)) d
    (fun _ d' => files d' = files d /\ pending_with u j d' /\ recorded d') (fun d' => d' = d).
Proof.
  intros Hp Hn. destruct server_component as (c & x & Hc & Hx & Hz). destruct (staged_over u Hst) as (o & _ & Ho).
  unfold persist_applied_generation. rewrite Ho. apply safe_bind, safe_valid_digest, safe_bind, safe_ensure; [by apply staged_build|].
  rewrite Hc, Hx, (staged_bound u Hst). apply safe_bind, safe_valid_digest, safe_bind.
  eapply safe_require; [by apply Hn| |done]. pose proof Hp as (H1 & H2 & H3 & fs & H4 & H5 & H6).
  eapply safe_io; [cbn [has_parent]; destruct (lookup_loc (Top APPLIED_GENERATION_FILE) d) as [[]|]; done| |done].
  split; [done|]. unfold recorded, generation. cbn [put files places]. rewrite Hc, Hx, Ho. split; [|by rewrite lookup_insert_eq].
  split; [|split; [|split]]; cbn [places lookup_loc].
  - by rewrite lookup_insert_ne.
  - intros n Hs Hi. rewrite lookup_insert_ne in Hi; [by apply (H2 n Hs)|]. by intros <-.
  - by rewrite lookup_insert_eq.
  - exists fs. by rewrite lookup_insert_ne.
Qed.

Lemma reexec_safe d :
  recorded d -> new u (files d) ->
  safe F (applied_generation_requires_reexec (on_windows u) (update_exe u) (launching_build u)) d (fun _ d' => d' = d) (fun d' => d' = d).
Proof.
  intros Hr Hn. destruct server_component as (c & x & Hc & Hx & Hz). destruct (staged_over u Hst) as (o & _ & Ho).
  unfold applied_generation_requires_reexec. apply safe_bind, safe_reserved; [cbn [lookup_loc]; by rewrite Hr| |done].
  unfold recorded in Hr. cbn [lookup_loc]. rewrite Hr. erewrite is_Some_some by done. cbn [negb]. apply safe_bind, safe_bind.
  eapply safe_io; [cbn [lookup_loc]; by rewrite Hr| |done]. rewrite parse_generation_text. apply safe_ret.
  apply safe_bind, safe_ensure.
  { unfold generation, paths_equal. cbn [gen_format_version gen_bound_executable]. by rewrite bool_decide_eq_true_2. }
  unfold generation. cbn [gen_source_server_sha256 target_server_sha256 gen_source_build_version]. rewrite Hc, Ho, Hx.
  apply safe_bind, safe_valid_digest, safe_bind, safe_valid_digest. destruct (_ || _); [by apply safe_ret|].
  apply safe_bind. eapply safe_digest; [by apply Hn| |done]. by apply safe_ret.
Qed.

(** ** The detached set *)

Lemma finished_new its fm : finished u its fm -> new u fm.
Proof. intros (Hc & _ & H). apply (new_in_place u its); [done|]. eapply Forall_impl; [exact H|]. by intros it [? _]. Qed.

Lemma finished_sweeping its d d' : sweeping its d d' -> finished u its (files d) -> finished u its (files d').
Proof.
  intros Hsw (Hc & Hf & H). split; [done|split; [by eapply sweeping_framed|]]. rewrite Forall_forall in H |- *.
  intros it Hi. destruct (H it Hi) as [Hg Hw]. split; [|by eapply sweepable_shrink; [apply Hsw|]].
  destruct Hsw as (_ & Hwi & _). rewrite Hwi; [done|]. apply (not_swept u Hst); [done|by eapply covered_goal].
Qed.

Lemma detached_sweeping n its d d' : sweeping its d d' -> Detached u n its d -> Detached u n its d'.
Proof.
  intros Hsw (Hg & Hf & Hd). pose proof Hsw as (E & _ & _). unfold Detached, pending_gone. rewrite E.
  split; [done|split; [by eapply finished_sweeping|done]].
Qed.

Lemma detached_cleanup n its d :
  Detached u n its d ->
  safe F (cleanup_committed_entries (on_windows u) (map (entry_of (before u)) its)) d (fun _ => Detached u n its) (Detached u n its).
Proof.
  intros Hd. pose proof Hd as (_ & (Hc & _ & Hf) & _).
  eapply safe_mono; [apply cleanup_entries_safe; [by apply covers_sound|]| |].
  - eapply Forall_impl; [exact Hf|]. by intros it [_ ?].
  - intros b d' Hsw. exact (detached_sweeping _ _ _ _ Hsw Hd).
  - intros d' Hsw. exact (detached_sweeping _ _ _ _ Hsw Hd).
Qed.

Lemma committed_name n : starts_with COMMITTED_SET_PREFIX (COMMITTED_SET_PREFIX ++ n) = true.
Proof. apply starts_with_spec. by exists n. Qed.

Lemma committed_ne n p : starts_with COMMITTED_SET_PREFIX p = false -> COMMITTED_SET_PREFIX ++ n <> p.
Proof. intros H <-. by rewrite committed_name in H. Qed.

(** Removing the detached set: it goes whole, or what is left of it has its journal or not. *)
Lemma removed_whole n its d :
  Detached u n its d -> Done u (mkDisk (files d) (base.delete (COMMITTED_SET_PREFIX ++ n) (places d))).
Proof.
  intros ((H1 & H2 & H3 & H4) & Hf & _). split; [|split; [apply Hf|by eapply finished_new]].
  assert (Hne : forall p, starts_with COMMITTED_SET_PREFIX p = false -> COMMITTED_SET_PREFIX ++ n <> p) by apply committed_ne.
  split; [|split; [|split]]; cbn [places]; [rewrite lookup_delete_ne by (by apply Hne); done..| |rewrite lookup_delete_ne by (by apply Hne); done].
  intros m Hm Hs. destruct (decide (m = COMMITTED_SET_PREFIX ++ n)) as [->|Hmn]; [by rewrite lookup_delete_eq in Hs; destruct Hs|].
  rewrite lookup_delete_ne in Hs by done. by specialize (H3 m Hm Hs) as [= ->].
Qed.

Lemma removed_part n its d cut :
  Detached u n its d ->
  let d' := mkDisk (files d) (alter (fun x => match x with
                              | Dir fs => Dir (base.filter (fun kv : str * str => kv.1 ∉ removed cut) fs)
                              | _ => x
                              end) (COMMITTED_SET_PREFIX ++ n) (places d)) in
  Detached u n its d' \/ Orphaned u n d'.
Proof.
  intros ((H1 & H2 & H3 & H4) & Hf & fs & Hd & Hj) d'.
  assert (Hne : forall p, starts_with COMMITTED_SET_PREFIX p = false -> COMMITTED_SET_PREFIX ++ n <> p) by apply committed_ne.
  assert (Hg : pending_gone u (Some (COMMITTED_SET_PREFIX ++ n)) d').
  { split; [|split; [|split]]; cbn [d' places]; [rewrite lookup_alter_ne by (by apply Hne); done..| |rewrite lookup_alter_ne by (by apply Hne); done].
    intros m Hm Hs. destruct (decide (m = COMMITTED_SET_PREFIX ++ n)) as [->|Hmn]; [done|]. rewrite lookup_alter_ne in Hs by done. by apply H3. }
  set (fs' := base.filter (fun kv : str * str => kv.1 ∉ removed cut) fs).
  assert (Hd' : places d' !! (COMMITTED_SET_PREFIX ++ n) = Some (Dir fs')) by (cbn [d' places]; by rewrite lookup_alter_eq, Hd).
  destruct (decide (JOURNAL_FILE ∈ removed cut)) as [Hr|Hr]; [right|left].
  - split; [done|split; [apply Hf|split; [by eapply finished_new|]]]. exists fs'. split; [done|].
    apply map_lookup_filter_None. right. intros v _ Hv. by apply Hv.
  - split; [done|split; [done|]]. exists fs'. split; [done|]. by apply map_lookup_filter_Some.
Qed.

Lemma remove_detached_safe n its d (Q : unit -> Disk -> Prop) (R : Disk -> Prop) :
  Detached u n its d -> (forall d', Done u d' -> Q tt d') -> (forall d', Detached u n its d' \/ Orphaned u n d' -> R d') ->
  safe F (record_io_failure (lit "remove_detached_set") (remove_dir_all (COMMITTED_SET_PREFIX ++ n))) d Q R /\
  safe F (or_io (remove_dir_all (COMMITTED_SET_PREFIX ++ n))) d Q R.
Proof.
  intros Hd HQ HR. pose proof Hd as (_ & _ & fs & Hp & _). pose proof (removed_whole _ _ _ Hd) as Hw.
  split; [eapply safe_context|eapply safe_io]; first [by rewrite Hp|by apply HQ|intros cut; apply HR; by apply removed_part].
Qed.

(** ** Finishing *)

Context (call : Call) (Hnonce : forall w, nonce call w = None -> F).

Lemma detach (n : str) its d :
  Committing u its d -> recorded d -> exists fs,
  places d !! PENDING_SET_DIR = Some (Dir fs) /\ places d !! (COMMITTED_SET_PREFIX ++ n) = None /\
  Detached u n its (mkDisk (files d) (<[COMMITTED_SET_PREFIX ++ n := Dir fs]> (base.delete PENDING_SET_DIR (places d)))).
Proof.
  intros ((H1 & H2 & H3 & fs & H4 & H5 & H6) & Hc & Hf & Hi) Hr. exists fs. split; [done|].
  assert (Hnone : places d !! (COMMITTED_SET_PREFIX ++ n) = None).
  { apply eq_None_not_Some. intros Hs. by specialize (H2 _ (committed_name n) Hs). }
  assert (Hne : forall p, starts_with COMMITTED_SET_PREFIX p = false -> COMMITTED_SET_PREFIX ++ n <> p) by apply committed_ne.
  split; [done|]. split; [|split].
  - split; [|split; [|split]]; cbn [places].
    + rewrite lookup_insert_ne by (by apply Hne). by rewrite lookup_delete_ne.
    + rewrite lookup_insert_ne by (by apply Hne). apply lookup_delete_eq.
    + intros m Hm Hs. destruct (decide (m = COMMITTED_SET_PREFIX ++ n)) as [->|Hmn]; [done|].
      rewrite lookup_insert_ne in Hs by done. apply lookup_delete_is_Some in Hs as [_ Hs]. by specialize (H2 m Hm Hs).
    + rewrite lookup_insert_ne by (by apply Hne). by rewrite lookup_delete_ne.
  - split; [done|split; [done|]]. eapply Forall_impl; [exact Hi|]. intros it (Ht & [Hg Hk] & Hn). split; [done|]. split; [done|by right].
  - exists fs. split; [apply lookup_insert_eq|done].
Qed.

Lemma finish_safe its d :
  Committing u its d -> recorded d ->
  safe F (finish_committed (on_windows u) call (journal_of u Committed its)) d (fun _ => Complete u) (fun d' => Phase u d' /\ new u (files d')).
Proof.
  intros Hcm Hr. assert (Hn0 : new u (files d)).
  { destruct Hcm as (_ & Hc & _ & Hi). apply (new_in_place u its); [done|]. eapply Forall_impl; [exact Hi|]. by intros it (_ & [? _] & _). }
  assert (Hself : Phase u d /\ new u (files d)) by (split; [by right; right; left; exists its|done]).
  unfold finish_committed. apply safe_bind. unfold unique_nonce.
  destruct (nonce call ForDetached) as [n|] eqn:En; [|by apply safe_raise; [eapply Hnonce|]]. apply safe_ret.
  destruct (detach n its d Hcm Hr) as (fs & Hp & Hnone & Hd). apply safe_bind.
  eapply safe_context; [rewrite Hp, Hnone; done| |done].
  assert (HR : forall d', Detached u n its d' \/ Orphaned u n d' -> Phase u d' /\ new u (files d')).
  { intros d' [H|H]; split; [right; right; right; left; eauto|by eapply finished_new, H|right; right; right; right; left; eauto|apply H]. }
  apply safe_bind. eapply safe_mono; [by apply detached_cleanup| |intros d' H; apply HR; by left].
  intros clean d' Hd'. destruct clean; [|apply safe_ret; left; eauto].
  eapply remove_detached_safe; [exact Hd'| |exact HR]. intros d2 H2. by right.
Qed.

End Commit.
