(* ===== verification/UpdateProps.v ===== *)
(** A launch from beginning to end, and what staged updates promise: whatever fails and
    wherever launches die, the installation is the old one, the new one, or one that the
    next launch completes. *)

From S2P Require Import Prelude Json Text UpdateFs UpdateSet UpdateEntries UpdatePhases UpdateLaunch.

Local Open Scope Z_scope.

Definition rollback_failed (e : UpdateError) : bool := match e with RollbackFailed _ _ => true | _ => false end.

(** ** What every call starts with *)

Section Entry.
Context {sha : Sha256} {codec : UpdateCodec} (F : Prop) (windows : bool) (call : Call).

(** The locks are free at the first attempt. *)
Definition locks_free : bool := match process_tries call, file_tries call with (true, _) :: _, (Locked, _) :: _ => true | _, _ => false end.

Lemma process_lock_safe tries d (Q : unit -> Disk -> Prop) (R : Disk -> Prop) :
  match tries with (true, _) :: _ => True | _ => F end -> Q tt d -> R d -> safe F (acquire_process_installation_lock call tries) d Q R.
Proof.
  intros Hf HQ HR. induction tries as [|[[|] el] tries IH]; cbn [acquire_process_installation_lock]; [by intros fs _; cbn; split|by apply safe_ret|].
  destruct (_ <? _); [by apply safe_raise|]. apply IH. by destruct tries as [|[[|] ?] ?].
Qed.

Lemma file_lock_safe tries d (Q : unit -> Disk -> Prop) (R : Disk -> Prop) :
  match tries with (Locked, _) :: _ => True | _ => F end -> Q tt d -> R d -> safe F (acquire_file_lock call tries) d Q R.
Proof.
  intros Hf HQ HR. induction tries as [|[[| |] el] tries IH]; cbn [acquire_file_lock]; [by intros fs _; cbn; split|by apply safe_ret| |by apply safe_raise].
  destruct (_ <? _); [by apply safe_raise|]. apply IH. by destruct tries as [|[[| |] ?] ?].
Qed.

Lemma lock_safe d (Hlocks : locks_free = false -> F) (Q : unit -> Disk -> Prop) (R : Disk -> Prop) : Q tt d -> R d -> safe F (acquire_installation_lock call) d Q R.
Proof.
  intros HQ HR. unfold locks_free in Hlocks. apply safe_bind, process_lock_safe; [| |done]; [|apply safe_bind].
  - destruct (process_tries call) as [|[[|] ?] ?]; auto.
  - eapply safe_context; [done| |done]. apply safe_bind. eapply safe_context; [done| |done]. apply file_lock_safe; [|done..].
    destruct (process_tries call) as [|[[|] ?] ?], (file_tries call) as [|[[| |] ?] ?]; auto.
Qed.

Definition is_committed_set (d : Disk) (n : str) : bool := starts_with COMMITTED_SET_PREFIX n && is_dir n d.

Lemma no_committed_set d n : committed_only None (places d) -> is_committed_set d n = false.
Proof.
  intros H. unfold is_committed_set, is_dir. destruct (starts_with COMMITTED_SET_PREFIX n) eqn:E; [|done].
  destruct (places d !! n) as [p|] eqn:Ep; [|done]. by specialize (H n E (mk_is_Some _ _ Ep)).
Qed.

Lemma cleanup_none names d (Q : unit -> Disk -> Prop) R :
  committed_only None (places d) -> Q tt d -> safe F (cleanup_sets windows names) d Q R.
Proof.
  intros Hno HQ. induction names as [|n names IH]; cbn [cleanup_sets]; [by apply safe_ret|].
  apply safe_bind, safe_ask. change (starts_with COMMITTED_SET_PREFIX n && is_dir n d) with (is_committed_set d n).
  rewrite no_committed_set by done. by apply safe_bind, safe_ret.
Qed.

End Entry.

Section Run.
Context {sha : Sha256} {codec : UpdateCodec} {dirs : DirOrder} (F : Prop) (u : Update) (Hst : well_staged u).
Context (call : Call) (Hnonce : forall w, nonce call w = None -> F).

(** How a launch that began with no journal may fail. *)
Definition Failed (e : UpdateError) (d : Disk) : Prop := F /\ Phase u d /\ (settled u d \/ rollback_failed e = true).

Lemma safe_failed {A} (m : M A) d (Q : A -> Disk -> Prop) (R : Disk -> Prop) :
  safe F m d Q R -> (forall d, R d -> Phase u d /\ settled u d) -> wp F m d Q Failed (Phase u).
Proof.
  intros H HR. eapply wp_mono; [exact H|done| |intros d' Hd'; by apply HR]. intros e d' [HF Hd']. destruct (HR d' Hd'). split; [done|split; auto].
Qed.

(** ** The transaction *)

Definition Prepared (its : list item) (d : Disk) : Prop :=
  pending_with u None d /\ covers u its /\ framed u (files d) /\ Forall (fun it => ready (before u) it (files d)) its.

Lemma prepared_idle its d : Prepared its d -> Idle u d.
Proof.
  intros (Hp & Hc & Hf & Hr). rewrite Forall_forall in Hr. split; [done|split; [done|]].
  split; [intros g Hg|apply Forall_forall; intros g Hg]; destruct (goal_covered u Hst its g Hc Hg) as (it & Hi & <-);
    by destruct (Hr it Hi) as (Ht & [Ho _] & _).
Qed.

Lemma complete_recorded d : Complete u d -> recorded u d /\ new u (files d).
Proof.
  intros [(n & its & (_ & _ & _ & Hg) & Hf & _)|((_ & _ & _ & Hg) & _ & Hn)]; split; [done|by eapply finished_new|done..].
Qed.

Lemma reexec_complete d :
  Complete u d ->
  safe F (applied_generation_requires_reexec (on_windows u) (update_exe u) (launching_build u)) d (fun _ => Complete u) (Complete u).
Proof.
  intros Hc. destruct (complete_recorded d Hc) as [Hr Hn].
  eapply safe_mono; [by apply reexec_safe|by intros b d' ->|by intros d' ->].
Qed.

Lemma complete_settled d : Complete u d -> Phase u d /\ settled u d.
Proof.
  intros Hc. split; [|right; by apply complete_recorded]. destruct Hc as [H|H]; [by right; right; right; left|by right; right; right; right; right].
Qed.

(** After the entries: the journal says committed, the generation is recorded, the set goes. *)
Lemma commit_safe its d :
  Committing u its d ->
  safe F (let! _ := persist_applied_generation (staged_manifest u) in
          let! _ := finish_committed (on_windows u) call (journal_of u Committed its) in
          applied_generation_requires_reexec (on_windows u) (update_exe u) (launching_build u)) d
    (fun _ => Complete u) (fun d' => Phase u d' /\ new u (files d')).
Proof.
  intros Hcm. pose proof Hcm as (Hp & Hc & Hf & Hi).
  assert (Hn : new u (files d)).
  { apply (new_in_place u its); [done|]. eapply Forall_impl; [exact Hi|]. by intros it (_ & [? _] & _). }
  apply safe_bind. eapply safe_mono; [by apply persist_safe| |].
  2: { intros d' ->. split; [by right; right; left; exists its|done]. }
  intros [] d1 (E & Hp1 & Hr1). apply safe_bind. eapply safe_mono; [apply finish_safe; try done| |done].
  - split; [done|]. by rewrite E.
  - intros [] d2 H2. eapply safe_mono; [by apply reexec_complete|done|]. intros d3 H3.
    split; [by apply complete_settled|by apply complete_recorded].
Qed.

Lemma advancing_framed its d d' : covers u its -> framed u (files d) -> advancing (before u) its d d' -> framed u (files d').
Proof. intros Hc Hf (_ & Hw & _). eapply framed_within; [done..|apply handled_owns|done|done]. Qed.

(** A transaction that failed is rolled back. *)
Lemma give_up_safe its e d :
  F -> InTransaction u its d ->
  wp F (let! rolled := attempt (rollback (journal_of u Applying its)) in
        match rolled with
        | Err rollback_error => raise (RollbackFailed e rollback_error)
        | Ok _ =>
            let! _ := remove_journal in
            let! _ := cleanup_committed_entries (on_windows u) (map (entry_of (before u)) its) in raise e
        end) d (fun (_ : bool) => Complete u) Failed (Phase u).
Proof.
  intros HF (Hp & Hc & Hf & Ha).
  assert (Hroll : forall d', rolling (before u) its d d' -> InTransaction u its d').
  { intros d' Hr. split; [eapply pending_files; [by destruct Hr|exact Hp]|]. split; [done|]. split; [by eapply rolling_framed|by destruct Hr as (_ & _ & ?)]. }
  assert (HP : forall d', rolling (before u) its d d' -> Phase u d') by (intros d' Hr; right; left; exists its; by apply Hroll).
  apply wp_bind, wp_attempt. eapply wp_mono; [apply rollback_safe; [by apply (covers_spread u Hst)|by apply covers_sound|done]| | |exact HP].
  - intros [] d1 [Hr Hcl]. destruct (Hroll d1 Hr) as (Hp1 & _ & Hf1 & Ha1). destruct (old_clear u Hst its _ Hc Hcl) as [Ho1 _].
    apply wp_bind. eapply wp_mono; [eapply safe_failed; [by eapply remove_journal_safe|]|..|done|done].
    { intros d' ->. split; [by apply HP|by left]. }
    intros [] d2 [E Hp2]. rewrite <- E in Hf1, Hcl. apply wp_bind.
    eapply wp_mono; [eapply safe_failed; [by apply (tail_of_undo F u Hst its)|]|..|done|done].
    { intros d' Hd'. split; [by left|left; apply Hd']. }
    intros b d3 [H3 _]. apply wp_raise. split; [done|split; [by left|left; left; apply H3]].
  - intros re d1 [_ Hr]. apply wp_raise. split; [done|split; [by apply HP|by right]].
Qed.

Lemma transact_safe its d :
  Prepared its d ->
  wp F (transact (on_windows u) call (update_exe u) (launching_build u) (staged_manifest u) (map (entry_of (before u)) its)) d
    (fun _ => Complete u) Failed (Phase u).
Proof.
  intros Hpr. pose proof (prepared_idle its d Hpr) as Hid. destruct Hpr as (Hp & Hc & Hf & Hr).
  unfold transact. apply wp_bind. eapply wp_mono; [eapply safe_failed; [by eapply (write_journal_safe F u Hst)|]|..|done|done].
  { intros d' ->. split; [by left|left; apply Hid]. }
  intros [] d1 [E1 Hp1]. rewrite <- E1 in Hf, Hr.
  assert (Htx : forall d', advancing (before u) its d1 d' -> InTransaction u its d').
  { intros d' Ha. split; [eapply pending_files; [by destruct Ha|exact Hp1]|]. split; [done|]. split; [by eapply advancing_framed|by destruct Ha as (_ & _ & ?)]. }
  apply wp_bind, wp_attempt. eapply wp_mono; [apply apply_entries_safe; [by apply (covers_spread u Hst)|by apply covers_sound|exact Hr]| | |].
  - intros [] d2 [Ha Hi]. destruct (Htx d2 Ha) as (Hp2 & _ & Hf2 & Ham2).
    assert (Hn2 : new u (files d2)).
    { apply (new_in_place u its); [done|]. eapply Forall_impl; [exact Hi|]. by intros it (_ & [? _] & _). }
    apply wp_bind. eapply wp_mono; [eapply safe_failed; [by eapply (write_journal_safe F u Hst)|]|..|done|done].
    { intros d' ->. split; [right; left; exists its; by apply Htx|by right]. }
    intros [] d3 [E3 Hp3]. eapply safe_failed; [apply (commit_safe its)|].
    + split; [exact Hp3|]. split; [done|]. rewrite E3. done.
    + intros d' [H4 H5]. split; [done|by right].
  - intros e d2 [HF Ha]. apply give_up_safe; [done|by apply Htx].
  - intros d2 Ha. right; left. exists its. by apply Htx.
Qed.

(** ** Installing the set *)

Lemma executable_last_perm windows exe es : executable_last windows exe es ≡ₚ es.
Proof.
  unfold executable_last. induction es as [|e es IH]; [done|]. rewrite !filter_cons.
  destruct (paths_equal windows (target e) exe) eqn:E; repeat case_decide; try done.
  - rewrite <- Permutation_middle. by constructor.
  - cbn [app]. by constructor.
Qed.

Lemma staged_files fs : set_members u fs ->
  Forall2 (fun c x => fs !! staged_file c = Some x /\ component_sha256 c = sha256 x) (components (staged_manifest u)) (contents u).
Proof.
  intros [_ Hm]. apply Forall2_same_length_lookup. split; [exact (Forall2_length _ _ _ (staged_digests u Hst))|].
  intros k c x Hc Hx. split; [by eapply Hm|]. exact (Forall2_lookup_lr _ _ _ _ _ _ (staged_digests u Hst) Hc Hx).
Qed.

Lemma idle_settled d : Idle u d -> Phase u d /\ settled u d.
Proof. intros H. split; [by left|left; apply H]. Qed.

Lemma exe_is_goal : update_exe u ∈ goals u.
Proof. destruct (server_component u Hst) as (c & x & _ & _ & Hz). by eapply zip_goal. Qed.

Lemma install_set_safe d :
  Idle u d -> fresh_backups u call d ->
  wp F (install_set (on_windows u) call (launch_policy u) (update_exe u) (launching_build u) (staged_manifest u)) d
    (fun _ => Complete u) Failed (Phase u).
Proof.
  intros Hid Hfr. destruct (staged_over u Hst) as (o & Hb & Ho). destruct (staged_exe u Hst) as [name Hsp].
  assert (Hidle : forall d', d' = d -> Phase u d' /\ settled u d') by (intros d' ->; by apply idle_settled).
  unfold install_set. apply wp_bind. eapply wp_mono; [eapply safe_failed; [|exact Hidle]|..|done|done].
  { eapply (safe_digest F _ _ _ (fun s d' => s = sha256 o /\ d' = d)); [|done..]. cbn [lookup_loc]. rewrite <- Hb. apply Hid, exe_is_goal. }
  intros a d0 [-> ->]. rewrite Ho, eq_digest, bool_decide_eq_true_2 by done. apply wp_bind, wp_ret. rewrite Hsp.
  pose proof Hid as ((_ & _ & _ & fs & Hp & Hm & _) & _). apply wp_bind.
  eapply wp_mono; [eapply safe_failed; [eapply (prepare_entries_safe F u Hst call Hnonce _ (contents u) [] d fs); try done|]|..|done|done].
  - by apply staged_files.
  - intros c Hc. by apply (list_elem_of_fmap_2 (goal_of u)).
  - exact (staged_distinct u Hst).
  - by intros c _ []%elem_of_nil.
  - intros d' Hd'. apply idle_settled. by eapply (drafts_idle u Hst).
  - intros es d1 (Hd1 & its & -> & Hits & _ & Hr1).
    destruct (Permutation_map_inv _ _ (executable_last_perm (on_windows u) (update_exe u) (map (entry_of (before u)) its))) as (its' & Hex & Hperm).
    rewrite Hex. pose proof (drafts_idle u Hst _ _ Hid Hd1) as Hid1. apply transact_safe.
    split; [apply Hid1|]. split; [|split; [apply Hid1|by rewrite <- Hperm]].
    unfold covers. rewrite <- Hperm, Hits. done.
Qed.

(** ** Resuming *)

Lemma pending_journal j d : pending_with u j d -> is_file (In PENDING_SET_DIR JOURNAL_FILE) d = bool_decide (is_Some j).
Proof.
  intros (_ & _ & _ & fs & Hp & _ & Hj). unfold is_file. cbn [lookup_loc]. rewrite Hp, Hj. by destruct j.
Qed.

Lemma read_journal_safe j d (Q : UpdateJournal -> Disk -> Prop) (R : Disk -> Prop) :
  pending_with u (Some (journal_text j)) d -> Q j d -> R d -> safe F (read_journal PENDING_SET_DIR) d Q R.
Proof.
  intros (_ & _ & _ & fs & Hp & _ & Hj) HQ HR. apply safe_bind. eapply safe_io; [cbn [lookup_loc]; by rewrite Hp, Hj| |done].
  rewrite parse_journal_text. by apply safe_ret.
Qed.

(** From a phase with a pending set. *)
Definition Waiting (d : Disk) : Prop := Idle u d \/ (exists its, InTransaction u its d) \/ (exists its, Committing u its d).

Definition Failed_from (d0 : Disk) (e : UpdateError) (d : Disk) : Prop :=
  F /\ Phase u d /\ (Idle u d0 -> settled u d \/ rollback_failed e = true).

Lemma idle_no_journal j d : Idle u d -> pending_with u (Some j) d -> False.
Proof. intros (Hp & _) Hq. apply pending_journal in Hp, Hq. rewrite Hp in Hq. done. Qed.

Lemma safe_failed_from {A} (m : M A) d0 d (Q : A -> Disk -> Prop) (R : Disk -> Prop) :
  (Idle u d0 -> False) -> safe F m d Q R -> (forall d, R d -> Phase u d) -> wp F m d Q (Failed_from d0) (Phase u).
Proof. intros Hno H HR. eapply wp_mono; [exact H|done| |done]. intros e d' [HF Hd']. split; [done|split; [auto|by intros ?%Hno]]. Qed.

Lemma resume_set_safe d :
  Waiting d -> fresh_backups u call d ->
  wp F (resume_set (on_windows u) call (launch_policy u) (update_exe u) (launching_build u) (staged_manifest u)) d
    (fun _ => Complete u) (Failed_from d) (Phase u).
Proof.
  intros [Hid|[[its Htx]|[its Hcm]]] Hfr; unfold resume_set; apply wp_bind, wp_ask.
  - rewrite (pending_journal None) by apply Hid. eapply wp_mono; [by apply install_set_safe|done| |done].
    intros e d' (HF & HP & Hs). by split.
  - pose proof (proj1 Htx) as Hp. assert (Hno : Idle u d -> False) by (intros H; by eapply idle_no_journal).
    erewrite pending_journal by done. erewrite is_Some_some by done. apply wp_bind.
    eapply (safe_failed_from _ d); [done| |done]. eapply read_journal_safe; [done| |by right; left; exists its].
    apply wp_bind. eapply wp_mono; [eapply (safe_failed_from _ d); [done|by apply (undo_safe F u Hst)|done]|..|done|done].
    intros [] d1 [Hid1 Hs1]. eapply wp_mono; [apply install_set_safe; [done|by eapply (spared_fresh u Hst)]|done| |done].
    intros e d' (HF & HP & Hs). split; [done|split; [done|by intros ?%Hno]].
  - pose proof (proj1 Hcm) as Hp. assert (Hno : Idle u d -> False) by (intros H; by eapply idle_no_journal).
    erewrite pending_journal by done. erewrite is_Some_some by done. apply wp_bind.
    eapply (safe_failed_from _ d); [done| |done]. eapply read_journal_safe; [done| |by right; right; left; exists its].
    eapply (safe_failed_from _ d); [done|by apply commit_safe|]. by intros d' [? _].
Qed.

(** ** What every call does first *)

Context (Hlocks : locks_free call = false -> F) (Hdir : data_dir call = false -> F).

Lemma no_previous d : Phase u d -> places d !! PREVIOUS_SET_DIR = None.
Proof.
  by intros [((? & _) & _)|[[its ((? & _) & _)]|[[its ((? & _) & _)]|[(n & its & (? & _) & _)|[[n ((? & _) & _)]|((? & _) & _)]]]]].
Qed.

(** *** Cleaning up the committed sets *)

Lemma cleanup_detached names n its d :
  Detached u n its d \/ Done u d ->
  safe F (cleanup_sets (on_windows u) names) d (fun _ => Complete u) (fun d' => Phase u d' /\ new u (files d')).
Proof.
  revert d. induction names as [|m names IH]; intros d Hd; cbn [cleanup_sets].
  { apply safe_ret. destruct Hd as [?|?]; [left; eauto|by right]. }
  destruct Hd as [Hd|Hd].
  2: { apply safe_bind, safe_ask. change (starts_with COMMITTED_SET_PREFIX m && is_dir m d) with (is_committed_set d m).
       rewrite no_committed_set by apply Hd. apply safe_bind, safe_ret, IH. by right. }
  pose proof Hd as ((_ & _ & Hon & _) & Hfin & fs & Hp & Hj).
  assert (HR : forall d', Detached u n its d' \/ Orphaned u n d' -> Phase u d' /\ new u (files d')).
  { intros d' [H|H]; split; [right; right; right; left; eauto|by eapply finished_new, H|right; right; right; right; left; eauto|apply H]. }
  apply safe_bind, safe_ask. destruct (starts_with COMMITTED_SET_PREFIX m && is_dir m d) eqn:Em.
  - apply andb_true_iff in Em as [Em1 Em2]. unfold is_dir in Em2.
    assert (m = COMMITTED_SET_PREFIX ++ n) as ->.
    { specialize (Hon m Em1). destruct (places d !! m) as [p|]; [|done]. by specialize (Hon (mk_is_Some _ _ eq_refl)) as [= ->]. }
    apply safe_bind, safe_bind, safe_bind. eapply safe_io; [cbn [lookup_loc]; by rewrite Hp, Hj| |intros c; apply HR; by left].
    rewrite parse_journal_text. apply safe_ret, safe_bind, safe_ensure; [done|]. apply safe_bind.
    eapply safe_mono; [by apply detached_cleanup| |intros d' H; apply HR; by left].
    intros clean d' Hd'. destruct clean; [|apply safe_ret, IH; by left].
    eapply remove_detached_safe; [exact Hd'| |exact HR]. intros d2 H2. apply IH. by right.
  - apply safe_bind, safe_ret, IH. by left.
Qed.

Lemma cleanup_orphaned names n d :
  F -> Orphaned u n d -> COMMITTED_SET_PREFIX ++ n ∈ names -> safe F (cleanup_sets (on_windows u) names) d (fun _ _ => False) (fun d' => d' = d).
Proof.
  intros HF Hd. pose proof Hd as ((_ & _ & Hon & _) & _ & _ & fs & Hp & Hj).
  induction names as [|m names IH]; intros Hin; [by apply elem_of_nil in Hin|]. cbn [cleanup_sets]. apply safe_bind, safe_ask.
  destruct (starts_with COMMITTED_SET_PREFIX m && is_dir m d) eqn:Em.
  - apply andb_true_iff in Em as [Em1 Em2]. unfold is_dir in Em2.
    assert (m = COMMITTED_SET_PREFIX ++ n) as ->.
    { specialize (Hon m Em1). destruct (places d !! m) as [p|]; [|done]. by specialize (Hon (mk_is_Some _ _ eq_refl)) as [= ->]. }
    apply safe_bind, safe_bind, safe_bind, safe_bind, wp_operate; cbn [lookup_loc]; rewrite ?Hp, ?Hj; [by apply safe_raise|..|done].
    intros _ k c. by apply safe_raise.
  - apply safe_bind, safe_ret, IH. apply elem_of_cons in Hin as [<-|Hin]; [|done].
    rewrite committed_name in Em. unfold is_dir in Em. by rewrite Hp in Em.
Qed.

(** *** The whole call *)

Lemma waiting_committed d : Waiting d -> committed_only None (places d).
Proof. by intros [((_ & ? & _) & _)|[[its ((_ & ? & _) & _)]|[its ((_ & ? & _) & _)]]]. Qed.

Lemma waiting_phase d : Waiting d -> Phase u d.
Proof. intros [H|[H|H]]; [by left|by right; left|by right; right; left]. Qed.

Lemma phase_cases d : Phase u d -> Waiting d \/ (exists n its, Detached u n its d) \/ Done u d \/ exists n, Orphaned u n d.
Proof. intros [H|[H|[H|[H|[H|H]]]]]; unfold Waiting; auto. Qed.

Lemma idle_pending d : Idle u d -> is_Some (places d !! PENDING_SET_DIR).
Proof. intros ((_ & _ & _ & fs & -> & _) & _). done. Qed.

(** Where a call that is still settling earlier ones may stop. *)
Definition Entering (d0 d : Disk) : Prop := d = d0 \/ (Idle u d0 -> False) /\ Phase u d.

Lemma settle_safe d :
  Phase u d -> (forall n, Orphaned u n d -> F) ->
  safe F (cleanup_committed_sets (on_windows u)) d
    (fun _ d' => (Waiting d /\ d' = d) \/ (Idle u d -> False) /\ Complete u d') (Entering d).
Proof.
  intros HP Horph. unfold cleanup_committed_sets. apply safe_bind. eapply safe_io; [done| |by left].
  assert (Hno : places d !! PENDING_SET_DIR = None -> Idle u d -> False) by (intros E H; apply idle_pending in H; rewrite E in H; by destruct H).
  destruct (phase_cases d HP) as [Hw|[(n & its & Hd)|[Hd|[n Hd]]]].
  - apply cleanup_none; [by apply waiting_committed|by left].
  - eapply safe_mono; [eapply cleanup_detached; by left|..].
    + intros [] d' H. right. split; [by apply Hno, Hd|done].
    + intros d' [H _]. right. split; [by apply Hno, Hd|done].
  - eapply safe_mono; [eapply (cleanup_detached _ [] []); by right|..].
    + intros [] d' H. right. split; [by apply Hno, Hd|done].
    + intros d' [H _]. right. split; [by apply Hno, Hd|done].
  - eapply safe_mono; [eapply cleanup_orphaned; [by eapply Horph|done|]|done|by left].
    rewrite dir_order_perm. destruct Hd as (_ & _ & _ & fs & Hp & _). apply list_elem_of_fmap. eexists (_, _). split; [done|]. by apply elem_of_map_to_list.
Qed.

Lemma enter_safe d :
  Phase u d -> (is_file (At (update_exe u)) d = false -> F) -> (forall n, Orphaned u n d -> F) ->
  safe F (enter_installation (on_windows u) call (update_exe u)) d
    (fun e d' => e = update_exe u /\ ((Waiting d /\ d' = d) \/ (Idle u d -> False) /\ Complete u d')) (Entering d).
Proof.
  intros HP Hexe Horph. assert (Hself : Entering d d) by (by left). unfold enter_installation, canonical_existing.
  apply safe_bind, safe_bind, safe_ask. destruct (is_file (At (update_exe u)) d); [|apply safe_bind, safe_raise; auto].
  apply safe_bind, safe_ret, safe_bind. eapply safe_context; [done| |done]. apply safe_ret.
  apply safe_bind. unfold installation_staging_dir. destruct (data_dir call); [|apply safe_raise; auto]. apply safe_ret.
  apply safe_bind, lock_safe; [done| |done]. apply safe_bind, safe_bind, safe_ask.
  assert (Hprev : place_exists PREVIOUS_SET_DIR d = false).
  { unfold place_exists. apply is_Some_none. by apply no_previous. }
  rewrite Hprev. cbn [negb]. apply safe_ret, safe_bind.
  eapply safe_mono; [by apply settle_safe| |done]. intros [] d' Hd'. by apply safe_ret.
Qed.

Lemma manifest_read d (Q : UpdateSetManifest -> Disk -> Prop) (R : Disk -> Prop) :
  Waiting d -> Q (staged_manifest u) d -> R d -> safe F (read_pending_manifest call (launch_policy u)) d Q R.
Proof.
  intros Hw HQ HR. assert (Hp : exists fs, places d !! PENDING_SET_DIR = Some (Dir fs) /\ fs !! MANIFEST_FILE = Some (manifest_text (staged_manifest u))).
  { destruct Hw as [((_ & _ & _ & fs & H1 & [H2 _] & _) & _)|[[its ((_ & _ & _ & fs & H1 & [H2 _] & _) & _)]|[its ((_ & _ & _ & fs & H1 & [H2 _] & _) & _)]]]; eauto. }
  destruct Hp as (fs & Hp & Hm). unfold read_pending_manifest, read_manifest, parsed.
  apply safe_bind, wp_attempt, wp_bind, wp_bind, wp_operate_fault; [| |done].
  - cbn [lookup_loc]. rewrite Hp, Hm. cbn. apply wp_ret. rewrite parse_manifest_text. by apply wp_ret, safe_ret.
  - intros HF k c Hk. apply wp_raise. replace (is_rejectable_manifest_read_error (Io k)) with false by (by destruct k).
    rewrite andb_false_r. by apply safe_raise.
Qed.

Lemma check_manifest_ok d (Q : unit -> Disk -> Prop) R :
  Q tt d -> safe F (check_manifest (on_windows u) call (launch_policy u) (update_exe u) (staged_manifest u)) d Q R.
Proof.
  intros HQ. unfold check_manifest. rewrite (staged_shape u Hst). apply safe_bind, safe_ret. destruct (launch_policy u) eqn:E.
  - rewrite (staged_bound u Hst). apply safe_ensure; [|done]. unfold paths_equal. by apply bool_decide_eq_true.
  - rewrite (staged_policy u Hst E). by apply safe_ret.
Qed.

Lemma waiting_dir d : Waiting d -> is_dir PENDING_SET_DIR d = true.
Proof.
  unfold is_dir. by intros [((_ & _ & _ & fs & -> & _) & _)|[[its ((_ & _ & _ & fs & -> & _) & _)]|[its ((_ & _ & _ & fs & -> & _) & _)]]].
Qed.

Lemma complete_dir d : Complete u d -> is_dir PENDING_SET_DIR d = false.
Proof. unfold is_dir. by intros [(n & its & (_ & -> & _) & _)|((_ & -> & _) & _)]. Qed.

(** A launch from any phase completes the update, or fails by a fault, or dies, in a phase. *)
Lemma launch_safe d :
  Phase u d -> fresh_backups u call d -> (is_file (At (update_exe u)) d = false -> F) -> (forall n, Orphaned u n d -> F) ->
  wp F (apply_staged_update_set (on_windows u) call (launch_policy u) (update_exe u) (launching_build u)) d
    (fun _ => Complete u) (Failed_from d) (Phase u).
Proof.
  intros HP Hfr Hexe Horph. unfold apply_staged_update_set. apply wp_bind.
  eapply wp_mono; [by apply enter_safe| | |intros d' [->|[_ H]]; done].
  2: { intros e d' [HF [->|[Hno H]]]; (split; [done|split; [done|]]); [intros H; left; left; apply H|by intros ?%Hno]. }
  intros x d1 [-> Hd1]. unfold apply_pending. apply wp_bind, wp_ask. destruct Hd1 as [[Hw ->]|[Hno Hc]].
  - rewrite waiting_dir by done. cbn [negb].
    assert (Hstill : forall A (m : M A) (Q : A -> Disk -> Prop), safe F m d Q (fun d' => d' = d) -> wp F m d Q (Failed_from d) (Phase u)).
    { intros A m Q H. eapply wp_mono; [exact H|done| |by intros d' ->]. intros e d' [HF ->]. split; [done|split; [done|]].
      intros Hi. left. by left; apply Hi. }
    apply wp_bind, Hstill, manifest_read; [done| |done]. apply wp_bind, Hstill, check_manifest_ok.
    rewrite (staged_before u Hst). by apply resume_set_safe.
  - rewrite complete_dir by done. eapply (safe_failed_from _ d); [done|by apply reexec_complete|]. intros d' H. by apply complete_settled.
Qed.

End Run.

(** ** What updates promise *)

(** ** Launches *)

Section Launches.
Context {sha : Sha256} {codec : UpdateCodec} {dirs : DirOrder} (u : Update).

Definition run_launch (call : Call) (d : Disk) (fates : list Fate) : (Disk * list Fate) * outcome bool :=
  apply_staged_update_set (on_windows u) call (launch_policy u) (update_exe u) (launching_build u) d fates.

(** One launch, with any faults, that answers or dies; its nonces name no file yet. *)
Definition launch (d d' : Disk) : Prop :=
  exists call fates rest out, fresh_backups u call d /\ run_launch call d fates = ((d', rest), out).

(** A launch that is not kept waiting: its locks are free, its nonces and directory there. *)
Definition served (call : Call) : Prop := locks_free call = true /\ data_dir call = true /\ forall w, is_Some (nonce call w).

End Launches.

Section Reachable.
Context {sha : Sha256} {codec : UpdateCodec} {dirs : DirOrder} (u : Update) (Hst : well_staged u).

Lemma launch_phase d d' : Phase u d -> launch u d d' -> Phase u d'.
Proof.
  intros HP (call & fates & rest & out & Hfr & Hrun).
  pose proof (launch_safe True u Hst call (fun _ _ => I) (fun _ => I) (fun _ => I) d HP Hfr (fun _ => I) (fun _ _ => I) fates (fun _ => I)) as H.
  unfold run_launch in Hrun. rewrite Hrun in H. destruct out as [[b|e]|]; [|by apply H|by apply H]. destruct H as [H _]. by apply complete_settled.
Qed.

Lemma launches_phase d0 d : Phase u d0 -> rtc (launch u) d0 d -> Phase u d.
Proof. intros HP H. induction H as [|d0 d1 d2 H1 H IH]; [done|]. apply IH. by eapply launch_phase. Qed.

Lemma phase_framed d : Phase u d -> framed u (files d).
Proof. by intros [(_ & ? & _)|[[its (_ & _ & ? & _)]|[[its (_ & _ & ? & _)]|[(n & its & _ & (_ & ? & _) & _)|[[n (_ & ? & _)]|(_ & ? & _)]]]]]. Qed.

Lemma phase_settled d : Phase u d -> settled u d \/ exists its, InTransaction u its d.
Proof.
  intros [H|[H|[[its H]|[H|[[n H]|H]]]]].
  - left. left. apply H.
  - by right.
  - left. right. destruct H as (_ & Hc & _ & Hi). apply (new_in_place u its); [done|].
    eapply Forall_impl; [exact Hi|]. by intros it (_ & [? _] & _).
  - left. apply (complete_settled u). by left.
  - left. right. apply H.
  - left. apply (complete_settled u). by right.
Qed.

End Reachable.

(** ** The properties *)

(** C2: launching an installation with a staged update any number of times, with any file
    operation failing and any launch dying anywhere, changes no file outside the targets
    and the files reserved beside them; every target holds its old content or its new
    content, or is missing while its backup holds the old content; and all are old or all
    are new, unless a journal for the transaction is there to undo it. *)
Theorem update_atomic {sha : Sha256} {codec : UpdateCodec} {dirs : DirOrder} (u : Update) (d0 d : Disk) :
  well_staged u -> Idle u d0 -> rtc (launch u) d0 d ->
  framed u (files d) /\
  (forall g x, (g, x) ∈ zip (goals u) (contents u) ->
     files d !! g = before u !! g \/ files d !! g = Some (File x) \/
     files d !! g = None /\ exists s, files d !! sidecar g (lit "backup" ++ s) = before u !! g) /\
  (old u (files d) \/ new u (files d) \/
   exists its fs, covers u its /\ places d !! PENDING_SET_DIR = Some (Dir fs) /\
     fs !! JOURNAL_FILE = Some (journal_text (journal_of u Applying its))).
Proof.
  intros Hst Hid Hr. assert (HP : Phase u d) by (eapply (launches_phase u Hst); [by left|done]).
  split; [by apply phase_framed|]. destruct (phase_settled u d HP) as [[Ho|Hn]|[its Htx]].
  - split; [|by left]. intros g x Hg. left. apply Ho. by eapply zip_goal.
  - split; [|by right; left]. intros g x Hg. right; left. by apply Hn.
  - destruct Htx as (Hp & Hc & _ & Ha). split.
    + intros g x Hg. destruct (item_covered u its g x Hc Hg) as (it & Hi & <- & <-). rewrite Forall_forall in Ha.
      destruct (Ha it Hi) as [_ [[H _]|[[H1 H2]|[H _]]]]; [by left|right; right|by right; left].
      split; [done|]. by exists (kept_as it).
    + right; right. destruct Hp as (_ & _ & _ & fs & Hfs & _ & Hj). by exists its, fs.
Qed.

(** C3: whatever happened before, a launch that meets no fault and is not kept waiting
    completes the update: it answers, every target has its new content and nothing else
    has changed, as long as the executable is there to be launched and no removal of a
    committed set was interrupted. *)
Theorem update_completes {sha : Sha256} {codec : UpdateCodec} {dirs : DirOrder} (u : Update) (d0 d : Disk) (call : Call) (fates : list Fate) :
  well_staged u -> Idle u d0 -> rtc (launch u) d0 d ->
  is_file (At (update_exe u)) d = true -> (forall n, ~ Orphaned u n d) -> fresh_backups u call d -> served call -> ~ faulty fates ->
  exists d' rest b, run_launch u call d fates = ((d', rest), Ret (Ok b)) /\ new u (files d') /\ framed u (files d').
Proof.
  intros Hst Hid Hr Hexe Hno Hfr (Hl & Hdir & Hn) Hf. assert (HP : Phase u d) by (eapply (launches_phase u Hst); [by left|done]).
  assert (Hnn : forall w, nonce call w = None -> False) by (intros w E; specialize (Hn w); rewrite E in Hn; by destruct Hn).
  assert (H : wp False (run_launch u call) d (fun _ => Complete u) (Failed_from False u d) (Phase u)) by (apply launch_safe; try done; congruence).
  specialize (H fates Hf). destruct (run_launch u call d fates) as [[d' rest] [[b|e]|]] eqn:E.
  - destruct H as [Hc _]. exists d', rest, b. split; [done|]. split; [by apply (complete_recorded u)|].
    apply (phase_framed u). by apply complete_settled.
  - by destruct H as [[[] _] _].
  - by destruct H.
Qed.

(** A launch that finds a staged update and answers has replaced every target, or, with
    an error, none or all of them; only a failed rollback leaves some of them replaced. *)
Theorem update_answer {sha : Sha256} {codec : UpdateCodec} {dirs : DirOrder} (u : Update) (d d' : Disk) (call : Call) (fates rest : list Fate) (r : result UpdateError bool) :
  well_staged u -> Idle u d -> fresh_backups u call d -> run_launch u call d fates = ((d', rest), Ret r) ->
  match r with
  | Ok _ => new u (files d')
  | Err e => rollback_failed e = false -> old u (files d') \/ new u (files d')
  end.
Proof.
  intros Hst Hid Hfr E.
  assert (H : wp True (run_launch u call) d (fun _ => Complete u) (Failed_from True u d) (Phase u)) by (apply launch_safe; try done; by left).
  specialize (H fates (fun _ => I)). rewrite E in H. destruct r as [b|e]; destruct H as [H _].
  - by apply (complete_recorded u).
  - destruct H as (_ & _ & H). intros He. destruct (H Hid) as [?|?]; [done|congruence].
Qed.

(** ** When a removal was interrupted *)

Lemma orphan_launch {sha : Sha256} {codec : UpdateCodec} {dirs : DirOrder} (u : Update) n d call :
  Orphaned u n d -> wp True (run_launch u call) d (fun _ _ => False) (fun _ d' => d' = d) (fun d' => d' = d).
Proof.
  intros Ho. unfold run_launch, apply_staged_update_set. apply wp_bind.
  enough (H : safe True (enter_installation (on_windows u) call (update_exe u)) d (fun _ _ => False) (fun d' => d' = d)).
  { eapply wp_mono; [exact H|done|by intros e d' [_ ?]|done]. }
  unfold enter_installation, canonical_existing. apply safe_bind, safe_bind, safe_ask. destruct (is_file (At (update_exe u)) d); [|by apply safe_bind, safe_raise].
  apply safe_bind, safe_ret, safe_bind. eapply safe_context; [done| |done]. apply safe_ret.
  apply safe_bind. unfold installation_staging_dir. destruct (data_dir call); [|by apply safe_raise]. apply safe_ret.
  apply safe_bind, lock_safe; [done| |done]. apply safe_bind, safe_bind, safe_ask.
  replace (place_exists PREVIOUS_SET_DIR d) with false by (symmetry; apply is_Some_none, Ho). apply safe_ret, safe_bind, safe_bind.
  eapply safe_io; [done| |done]. eapply safe_mono; [eapply (cleanup_orphaned True u _ n); [done..|]|done|done].
  rewrite dir_order_perm. destruct Ho as (_ & _ & _ & fs & Hp & _). apply list_elem_of_fmap. eexists (_, _). split; [done|]. by apply elem_of_map_to_list.
Qed.

(** C38: once the removal of a committed set was interrupted after its journal was gone, no
    launch of the updated installation ever succeeds again, and none changes anything. *)
Theorem interrupted_removal_stuck {sha : Sha256} {codec : UpdateCodec} {dirs : DirOrder} (u : Update) (n : str) (d d' : Disk) :
  Orphaned u n d -> rtc (launch u) d d' ->
  d' = d /\ forall call fates d2 rest out, run_launch u call d' fates = ((d2, rest), out) -> forall b, out <> Ret (Ok b).
Proof.
  intros Ho Hr. assert (Hone : forall call fates d2 rest out, run_launch u call d fates = ((d2, rest), out) -> d2 = d /\ forall b, out <> Ret (Ok b)).
  { intros call fates d2 rest out E. pose proof (orphan_launch u n d call Ho fates (fun _ => I)) as H. rewrite E in H.
    destruct out as [[b|e]|]; destruct H as [H1 H2]; [done|split; [done|by intros b]|split; [done|by intros b]]. }
  assert (d' = d) as ->.
  { clear Ho. induction Hr as [|d d1 d2 (call & fates & rest & out & _ & E) _ IH]; [done|].
    destruct (Hone _ _ _ _ _ E) as [-> _]. by apply IH. }
  split; [done|]. intros call fates d2 rest out E. by eapply Hone.
Qed.
