(* ===== verification/UpdateStage.v ===== *)
(** Staging a set: the pending set is swapped for the new one as a whole, and what is
    staged is an update that launches carry out. *)

From S2P Require Import Prelude Text Json SearchCacheProps UpdateFs UpdateSet UpdateEntries UpdatePhases UpdateProps.

Local Open Scope Z_scope.

(** A nonce starts with the digits of the process identifier. *)
Definition numeric (n : str) : Prop := exists c s, n = c :: s /\ is_ascii_digit c = true.

Lemma temp_not_committed n : numeric n -> starts_with COMMITTED_SET_PREFIX (temp_set_dir n) = false.
Proof.
  intros (c & s & -> & Hc). destruct (starts_with _ _) eqn:E; [|done]. apply starts_with_spec in E as [r E].
  injection E as -> _. by vm_compute in Hc.
Qed.

Lemma temp_not_previous n : numeric n -> temp_set_dir n <> PREVIOUS_SET_DIR.
Proof. intros (c & s & -> & Hc) E. injection E as -> _. by vm_compute in Hc. Qed.

Lemma temp_not_pending n : temp_set_dir n <> PENDING_SET_DIR.
Proof. done. Qed.

Lemma component_file_inj i j : Z.of_nat i <= u64_max -> Z.of_nat j <= u64_max -> component_file i = component_file j -> i = j.
Proof.
  intros Hi Hj E. unfold component_file in E. apply app_inv_head, app_inv_tail in E.
  apply print_u64_inj in E; [lia|split; lia..].
Qed.

Section Stage.
Context {sha : Sha256} {codec : UpdateCodec} {dirs : DirOrder} (windows : bool) (exe build : str) (ss : list UpdateSetSource).

(** The disk before, with what it has pending. *)
Context (d0 : Disk).

(** What staging records of a source with its content. *)
Definition staged_as (i : nat) (s : UpdateSetSource) (x : str) : StagedComponent := mkComponent (component_file i) (source_target s) (sha256 x).

Fixpoint staged_from (i : nat) (ss : list UpdateSetSource) (xs : list str) : list StagedComponent :=
  match ss, xs with s :: ss, x :: xs => staged_as i s x :: staged_from (S i) ss xs | _, _ => [] end.

Definition verified_source (s : UpdateSetSource) (x : str) : Prop :=
  files d0 !! downloaded s = Some (File x) /\ eq_ignore_ascii_case (sha256 x) (source_sha256 s) = true.

(** A complete set for the sources, in a directory. *)
Definition complete_set (o : str) (xs : list str) (fs : gmap str str) : Prop :=
  Forall2 verified_source ss xs /\ files d0 !! exe = Some (File o) /\
  fs !! MANIFEST_FILE = Some (manifest_text (mkManifest 2 exe build (sha256 o) (staged_from 0 ss xs))) /\
  fs !! JOURNAL_FILE = None /\ forall k x, xs !! k = Some x -> fs !! component_file k = Some x.

(** ** Where staging may be left *)

Definition beside (d : Disk) : Prop :=
  files d = files d0 /\ committed_only None (places d) /\ places d !! APPLIED_GENERATION_FILE = places d0 !! APPLIED_GENERATION_FILE.

Definition Kept (d : Disk) : Prop := beside d /\ places d !! PREVIOUS_SET_DIR = None /\ places d !! PENDING_SET_DIR = places d0 !! PENDING_SET_DIR.
Definition MovedAside (d : Disk) : Prop :=
  beside d /\ (exists fs, places d0 !! PENDING_SET_DIR = Some (Dir fs)) /\
  places d !! PREVIOUS_SET_DIR = places d0 !! PENDING_SET_DIR /\ places d !! PENDING_SET_DIR = None.
Definition Replaced (previous : bool) (d : Disk) : Prop :=
  beside d /\ (if previous then exists old, places d !! PREVIOUS_SET_DIR = Some (Dir old) else places d !! PREVIOUS_SET_DIR = None) /\
  exists o xs fs, places d !! PENDING_SET_DIR = Some (Dir fs) /\ complete_set o xs fs.

Definition Staging (d : Disk) : Prop := Kept d \/ MovedAside d \/ Replaced true d \/ Replaced false d.

(** A change elsewhere in the staging root. *)
Lemma beside_elsewhere d pl' :
  beside d -> (forall n, n = APPLIED_GENERATION_FILE \/ starts_with COMMITTED_SET_PREFIX n = true -> pl' !! n = places d !! n) -> beside (mkDisk (files d) pl').
Proof.
  intros (H1 & H2 & H3) H. split; [done|split]; cbn [places].
  - intros n Hn Hs. rewrite H in Hs by auto. by apply (H2 n Hn).
  - rewrite H by auto. done.
Qed.

(** ** Filling the temporary directory *)

Context (T : str) (HT1 : starts_with COMMITTED_SET_PREFIX T = false) (HT2 : T <> PREVIOUS_SET_DIR) (HT3 : T <> PENDING_SET_DIR) (HT4 : T <> APPLIED_GENERATION_FILE).

Definition Filling (fs : gmap str str) (d : Disk) : Prop := Kept d /\ places d !! T = Some (Dir fs).

Lemma temp_elsewhere d f : beside d -> beside (mkDisk (files d) (alter f T (places d))).
Proof.
  intros H. apply beside_elsewhere; [done|]. intros n [->|Hn]; (rewrite lookup_alter_ne; [done|]); [done|]. intros <-. congruence.
Qed.

Lemma temp_alter fs d f :
  Filling fs d -> Filling (f fs) (mkDisk (files d) (alter (fun x => match x with Dir fs => Dir (f fs) | _ => x end) T (places d))).
Proof.
  intros ((Hb & H1 & H2) & H3). split; [split; [by apply temp_elsewhere|split]|]; cbn [places].
  - by rewrite lookup_alter_ne.
  - by rewrite lookup_alter_ne.
  - by rewrite lookup_alter_eq, H3.
Qed.

Lemma stage_component_safe i s fs d :
  Filling fs d ->
  safe True (stage_component T i s) d
    (fun c d' => exists x, verified_source s x /\ c = staged_as i s x /\ Filling (<[component_file i := x]> fs) d')
    (fun d' => exists fs', Filling fs' d').
Proof.
  intros HF. assert (Hself : exists fs', Filling fs' d) by eauto. pose proof HF as (((Hfiles & _) & _) & Hp).
  assert (Hput : forall c, Filling (<[component_file i := c]> fs) (put (In T (component_file i)) c d)).
  { intros c. exact (temp_alter fs d (fun fs => <[component_file i := c]> fs) HF). }
  assert (Hcut : forall x c, exists fs', Filling fs' (if opened c && true then put (In T (component_file i)) x d else d)).
  { intros x c. destruct (opened c); [eexists; apply Hput|done]. }
  unfold stage_component. apply safe_bind, safe_bind, wp_operate; cbn [lookup_loc has_parent].
  - rewrite Hp. destruct (files d !! downloaded s) as [[x|]|] eqn:E; [|by apply safe_raise..]. rewrite Hfiles in E.
    assert (Hgo : safe True (let! actual := sha256_file (In T (component_file i)) in
       let! _ := ensure (eq_ignore_ascii_case actual (source_sha256 s)) (ChecksumMismatch (to_ascii_lowercase_str (source_sha256 s)) actual) in
       ret (mkComponent (component_file i) (source_target s) actual)) (put (In T (component_file i)) x d)
       (fun c d' => exists x, verified_source s x /\ c = staged_as i s x /\ Filling (<[component_file i := x]> fs) d') (fun d' => exists fs', Filling fs' d')).
    { apply safe_bind. eapply (safe_digest True _ x); [|..|eexists; apply Hput].
      - destruct (Hput x) as [_ Hl]. cbn [lookup_loc]. by rewrite Hl, lookup_insert_eq.
      - apply safe_bind. unfold ensure. destruct (eq_ignore_ascii_case _ _) eqn:Eq; [|apply safe_raise; [done|eexists; apply Hput]].
        apply safe_ret, safe_ret. exists x. by split. }
    destruct (fs !! component_file i); apply safe_ret, Hgo.
  - intros _ k c. apply safe_raise; [done|]. rewrite Hp. destruct (files d !! downloaded s) as [[x|]|]; [|done..].
    destruct (fs !! component_file i); apply Hcut.
  - intros _ c. rewrite Hp. destruct (files d !! downloaded s) as [[x|]|]; [|done..].
    destruct (fs !! component_file i); apply Hcut.
Qed.

Lemma stage_components_safe i ss' fs d :
  Z.of_nat (i + length ss') <= u64_max -> Filling fs d ->
  safe True (stage_components T i ss') d
    (fun cs d' => exists xs fs', Forall2 verified_source ss' xs /\ cs = staged_from i ss' xs /\ Filling fs' d' /\
       (forall k x, xs !! k = Some x -> fs' !! component_file (i + k) = Some x) /\
       (forall f, (forall k, (i <= k < i + length ss')%nat -> f <> component_file k) -> fs' !! f = fs !! f))
    (fun d' => exists fs', Filling fs' d').
Proof.
  revert i fs d. induction ss' as [|s ss' IH]; intros i fs d Hn HF; cbn [stage_components length] in *.
  { apply safe_ret. exists [], fs. split; [constructor|]. split; [done|split; [done|split; [by intros k x Hk|done]]]. }
  apply safe_bind. eapply safe_mono; [by apply stage_component_safe| |done]. intros c d1 (x & Hx & -> & HF1).
  apply safe_bind. eapply safe_mono; [apply (IH (S i)); [lia|exact HF1]| |done].
  intros cs d2 (xs & fs2 & Hxs & -> & HF2 & Hin & Hout). apply safe_ret. exists (x :: xs), fs2.
  split; [by constructor|split; [done|split; [done|split]]].
  - intros [|k] y Hk; cbn in Hk; simplify_eq.
    + rewrite Nat.add_0_r, Hout, lookup_insert_eq; [done|]. intros k Hk E. apply component_file_inj in E; [lia|lia..].
    + rewrite <- Nat.add_succ_comm. by apply Hin.
  - intros f Hf. rewrite Hout, lookup_insert_ne; [done| |].
    + intros E. eapply (Hf i); [lia|done].
    + intros k Hk. apply Hf. lia.
Qed.

(** The directory is filled: it is a complete set. *)
Lemma fill_set_safe o fs d :
  Z.of_nat (length ss) <= u64_max -> files d0 !! exe = Some (File o) -> fs !! JOURNAL_FILE = None -> Filling fs d ->
  safe True (fill_set T exe build (sha256 o) ss) d
    (fun _ d' => exists xs fs', Filling fs' d' /\ complete_set o xs fs') (fun d' => exists fs', Filling fs' d').
Proof.
  intros Hn Ho Hj HF. unfold fill_set. apply safe_bind.
  eapply safe_mono; [by apply (stage_components_safe 0)| |done]. intros cs d1 (xs & fs1 & Hxs & -> & HF1 & Hin & Hout).
  pose proof HF1 as [_ Hp]. eapply safe_io; [cbn [lookup_loc has_parent]; rewrite Hp; by destruct (fs1 !! MANIFEST_FILE)| |].
  2: { intros c. by exists fs1. }
  set (m := mkManifest 2 exe build (sha256 o) (staged_from 0 ss xs)).
  exists xs, (<[MANIFEST_FILE := manifest_text m]> fs1). split; [exact (temp_alter fs1 d1 (fun fs => <[MANIFEST_FILE := manifest_text m]> fs) HF1)|].
  split; [done|split; [done|split; [apply lookup_insert_eq|split]]].
  - rewrite lookup_insert_ne by done. rewrite Hout; [done|]. by intros k _.
  - intros k x Hk. rewrite lookup_insert_ne by done. by apply Hin.
Qed.

(** ** Swapping it in *)

Lemma beside_names n : n = APPLIED_GENERATION_FILE \/ starts_with COMMITTED_SET_PREFIX n = true -> PREVIOUS_SET_DIR <> n /\ PENDING_SET_DIR <> n /\ T <> n.
Proof. intros [->|Hn]; [done|]. split; [by intros <-|split; [by intros <-|intros <-; congruence]]. Qed.

(** A change of the three directories alone. *)
Lemma beside_swap d pl' :
  beside d -> (forall n, PREVIOUS_SET_DIR <> n -> PENDING_SET_DIR <> n -> T <> n -> pl' !! n = places d !! n) -> beside (mkDisk (files d) pl').
Proof. intros Hb H. apply beside_elsewhere; [done|]. intros n Hn. destruct (beside_names n Hn) as (H1 & H2 & H3). auto. Qed.

Lemma staging_beside d : Staging d -> beside d.
Proof. by intros [[H _]|[[H _]|[[H _]|[H _]]]]. Qed.

Lemma staging_without_temp d pl' : Staging d -> (forall n, T <> n -> pl' !! n = places d !! n) -> Staging (mkDisk (files d) pl').
Proof.
  intros Hs H. assert (Hb : beside (mkDisk (files d) pl')) by (apply beside_swap; [by apply staging_beside|auto]).
  assert (H1 : pl' !! PREVIOUS_SET_DIR = places d !! PREVIOUS_SET_DIR) by auto.
  assert (H2 : pl' !! PENDING_SET_DIR = places d !! PENDING_SET_DIR) by auto.
  unfold Staging, Kept, MovedAside, Replaced in *. cbn [places]. rewrite H1, H2.
  destruct Hs as [[_ ?]|[[_ ?]|[[_ ?]|[_ ?]]]]; auto.
Qed.

(** Removing the temporary directory, or failing to, changes nothing of it. *)
Lemma drop_temp_safe d : Staging d -> safe True (ignore (remove_dir_all T)) d (fun _ => Staging) Staging.
Proof.
  intros Hs. assert (Hcut : forall f, Staging (mkDisk (files d) (alter f T (places d)))).
  { intros f. apply staging_without_temp; [done|]. intros n Hn. by rewrite lookup_alter_ne. }
  apply safe_bind, wp_operate; [|intros _ k c; apply safe_ret, Hcut|intros _ c; apply Hcut].
  destruct (places d !! T) as [[|fs|]|]; apply safe_ret; try done. apply staging_without_temp; [done|]. intros n Hn. by rewrite lookup_delete_ne.
Qed.

Definition undisturbed_pending : Prop := places d0 !! PENDING_SET_DIR = None \/ exists fs, places d0 !! PENDING_SET_DIR = Some (Dir fs).

(** The previous set moved aside, the new one still to come. *)
Lemma move_aside_safe fs d :
  undisturbed_pending -> Filling fs d ->
  safe True (let! pending := ask (place_exists PENDING_SET_DIR) in
             if pending then or_io (rename_dir PENDING_SET_DIR PREVIOUS_SET_DIR) else ret tt) d
    (fun _ d' => (Kept d' /\ places d0 !! PENDING_SET_DIR = None \/ MovedAside d') /\ places d' !! T = Some (Dir fs)) Kept.
Proof.
  intros Hp0 ((Hb & H1 & H2) & Ht). apply safe_bind, safe_ask. unfold place_exists. rewrite H2.
  destruct Hp0 as [Hp0|[P0 Hp0]]; rewrite Hp0.
  - rewrite is_Some_none by done. apply safe_ret. split; [left; split; [|done]|done]. split; [done|split; [done|by rewrite H2]].
  - erewrite is_Some_some by done. eapply safe_io; [rewrite H2, Hp0, H1; done| |intros c; by split].
    split; [right|]; cbn [places]; [|by rewrite lookup_insert_ne, lookup_delete_ne].
    split; [apply beside_swap; [done|]; intros n N1 N2 N3; by rewrite lookup_insert_ne, lookup_delete_ne|].
    split; [by exists P0|]. cbn [places]. rewrite lookup_insert_eq, lookup_insert_ne by done. by rewrite lookup_delete_eq, Hp0.
Qed.

(** A failed swap puts the previous set back, if it can. *)
Lemma put_back_safe d k :
  Staging d -> places d !! PENDING_SET_DIR = None ->
  safe True (let! _ := (if place_exists PREVIOUS_SET_DIR d then ignore (rename_dir PREVIOUS_SET_DIR PENDING_SET_DIR) else ret tt) in
             let! _ := ignore (remove_dir_all T) in raise (Io k)) d (fun (_ : unit) _ => False) Staging.
Proof.
  intros Hs Hp. assert (Hend : forall d', Staging d' -> safe True (let! _ := ignore (remove_dir_all T) in raise (Io k)) d' (fun (_ : unit) _ => False) Staging).
  { intros d' Hd'. apply safe_bind. eapply safe_mono; [by apply drop_temp_safe| |done]. intros [] d2 H2. by apply safe_raise. }
  apply safe_bind. destruct (place_exists PREVIOUS_SET_DIR d) eqn:E; [|by apply safe_ret, Hend].
  apply safe_bind, wp_operate; [|intros _ k' c; by apply safe_ret, Hend|done].
  unfold place_exists in E. apply bool_decide_eq_true in E as [x Hx]. rewrite Hx, Hp. apply safe_ret, Hend.
  destruct Hs as [(_ & H & _)|[(Hb & [P0 H0] & H1 & _)|[(_ & _ & o & xs & fs & H & _)|(_ & _ & o & xs & fs & H & _)]]]; [congruence| |congruence..].
  left. split; [apply beside_swap; [done|]; intros n N1 N2 N3; by rewrite lookup_insert_ne, lookup_delete_ne|]. cbn [places].
  rewrite lookup_insert_ne, lookup_delete_eq by done. rewrite lookup_insert_eq. split; [done|]. congruence.
Qed.

Lemma drop_previous_safe d : Replaced true d -> safe True (or_io (remove_dir_all PREVIOUS_SET_DIR)) d (fun _ => Replaced false) (Replaced true).
Proof.
  intros (Hb & [P Hp] & o & xs & fs & H2 & Hc). eapply safe_io; [rewrite Hp; done| |].
  - split; [apply beside_swap; [done|]; intros n N1 N2 N3; by rewrite lookup_delete_ne|]. cbn [places]. split; [apply lookup_delete_eq|].
    exists o, xs, fs. by rewrite lookup_delete_ne.
  - intros cut. split; [apply beside_swap; [done|]; intros n N1 N2 N3; by rewrite lookup_alter_ne|]. cbn [places].
    split; [eexists; by rewrite lookup_alter_eq, Hp|]. exists o, xs, fs. by rewrite lookup_alter_ne.
Qed.

Lemma swap_new_safe o xs fs d :
  Staging d -> places d !! PENDING_SET_DIR = None -> places d !! T = Some (Dir fs) -> complete_set o xs fs ->
  safe True (let! r := rename_dir T PENDING_SET_DIR in
             let! previous := ask (place_exists PREVIOUS_SET_DIR) in
             match r with
             | Err k =>
                 let! _ := (if previous then ignore (rename_dir PREVIOUS_SET_DIR PENDING_SET_DIR) else ret tt) in
                 let! _ := ignore (remove_dir_all T) in raise (Io k)
             | Ok _ => if previous then or_io (remove_dir_all PREVIOUS_SET_DIR) else ret tt
             end) d (fun _ => Replaced false) Staging.
Proof.
  intros Hs Hp HT Hc. apply safe_bind, wp_operate; [| |done].
  2: { intros _ k c. apply safe_bind, safe_ask. eapply safe_mono; [by apply put_back_safe|done|done]. }
  rewrite HT, Hp. apply safe_bind, safe_ask. set (d1 := mkDisk _ _).
  assert (Hprev : places d1 !! PREVIOUS_SET_DIR = places d !! PREVIOUS_SET_DIR).
  { cbn [d1 places]. rewrite lookup_insert_ne by done. by rewrite lookup_delete_ne. }
  assert (Hr : forall b, (if b : bool then exists old, places d1 !! PREVIOUS_SET_DIR = Some (Dir old) else places d1 !! PREVIOUS_SET_DIR = None) -> Replaced b d1).
  { intros b Hb. split; [|split; [exact Hb|exists o, xs, fs; split; [apply lookup_insert_eq|done]]].
    apply beside_swap; [by apply staging_beside|]. intros n N1 N2 N3. by rewrite lookup_insert_ne, lookup_delete_ne. }
  unfold place_exists. destruct Hs as [(_ & H1 & _)|[(_ & [P0 H0] & H1 & _)|[(_ & _ & ? & ? & ? & H & _)|(_ & _ & ? & ? & ? & H & _)]]]; [..|congruence|congruence].
  - rewrite is_Some_none by congruence. apply safe_ret. apply (Hr false). congruence.
  - erewrite is_Some_some by (by rewrite Hprev, H1). eapply safe_mono; [apply drop_previous_safe, (Hr true)| |].
    + exists P0. congruence.
    + done.
    + intros d' H'. right; right; by left.
Qed.

Lemma swap_in_safe o xs fs d :
  undisturbed_pending -> Filling fs d -> complete_set o xs fs -> safe True (swap_in T) d (fun _ => Replaced false) Staging.
Proof.
  intros Hp0 HF Hc. pose proof (move_aside_safe fs d Hp0 HF) as Hm. unfold swap_in. apply safe_bind, safe_ask. apply safe_bind.
  assert (Hm' : safe True (if place_exists PENDING_SET_DIR d then or_io (rename_dir PENDING_SET_DIR PREVIOUS_SET_DIR) else ret tt) d
    (fun _ d' => (Kept d' /\ places d0 !! PENDING_SET_DIR = None \/ MovedAside d') /\ places d' !! T = Some (Dir fs)) Kept) by exact Hm.
  eapply safe_mono; [exact Hm'| |by intros d' H; left]. intros [] d1 [H1 HT]. apply (swap_new_safe o xs fs); [|..|done|done].
  - destruct H1 as [[H1 _]|H1]; [by left|by right; left].
  - destruct H1 as [[(_ & _ & ->) H1]|(_ & _ & _ & H1)]; done.
Qed.

End Stage.

(** ** The whole call *)

(** What the checks of a call establish of its sources. *)
Definition admissible (build : str) (ss : list UpdateSetSource) : Prop :=
  NoDup (map (fun s => target_key (source_target s)) ss) /\ Forall (fun s => validate_target (source_target s) = Ok tt) ss /\
  existsb (fun s => bool_decide (source_target s = CurrentExecutable)) ss = true /\
  (negb (bool_decide (build = [])) && (str_len build <=? 128)%nat) = true.

(** A staging root that an earlier staging, or none, has left. *)
Definition ready_to_stage (d : Disk) : Prop :=
  places d !! PREVIOUS_SET_DIR = None /\ committed_only None (places d) /\
  (places d !! PENDING_SET_DIR = None \/ exists fs, places d !! PENDING_SET_DIR = Some (Dir fs)).

Section Call.
Context {sha : Sha256} {codec : UpdateCodec} {dirs : DirOrder} (windows : bool) (exe build : str) (ss : list UpdateSetSource) (call : Call) (d0 : Disk).
Context (Hnum : forall w n, nonce call w = Some n -> numeric n) (Hready : ready_to_stage d0) (Hlen : Z.of_nat (length ss) <= u64_max).

Lemma ensure_safe (b : bool) e d (Q : unit -> Disk -> Prop) (R : Disk -> Prop) : (b = true -> Q tt d) -> R d -> safe True (ensure b e) d Q R.
Proof. intros HQ HR. destruct b; [by apply safe_ret, HQ|by apply safe_raise]. Qed.

Lemma check_source_safe s d : safe True (check_source s) d (fun _ d' => d' = d) (fun d' => d' = d).
Proof.
  unfold check_source. apply safe_bind. destruct (validate_expected_sha (source_sha256 s)); [apply safe_ret|by apply safe_raise].
  apply safe_bind, safe_ask, safe_bind, ensure_safe; [|done]. intros Hf. unfold is_file in Hf.
  destruct (lookup_loc (At (downloaded s)) d) as [[x|]|] eqn:E; [|done..].
  apply safe_bind. eapply safe_digest; [done| |done]. by apply ensure_safe.
Qed.

Lemma check_sources_safe seen ss' d :
  safe True (check_sources seen ss') d
    (fun _ d' => d' = d /\ NoDup (map (fun s => target_key (source_target s)) ss') /\
       Forall (fun s => (target_key (source_target s) ∉ seen) /\ validate_target (source_target s) = Ok tt) ss')
    (fun d' => d' = d).
Proof.
  revert seen. induction ss' as [|s ss' IH]; intros seen; cbn [check_sources map].
  { apply safe_ret. split; [done|split; [apply NoDup_nil_2|done]]. }
  apply safe_bind. destruct (validate_target (source_target s)) as [[]|e] eqn:Ev; [apply safe_ret|by apply safe_raise].
  apply safe_bind, ensure_safe; [|done]. intros Hs. apply negb_true_iff, bool_decide_eq_false in Hs.
  apply safe_bind. eapply safe_mono; [apply check_source_safe| |done]. intros [] d1 ->.
  eapply safe_mono; [apply IH| |done]. intros [] d1 (-> & Hnd & Hall). split; [done|split].
  - apply NoDup_cons. split; [|done]. intros Hin. apply list_elem_of_fmap in Hin as (s' & E & Hin).
    rewrite Forall_forall in Hall. destruct (Hall s' Hin) as [Hno _]. apply Hno. rewrite E. by left.
  - constructor; [done|]. eapply Forall_impl; [exact Hall|]. intros s' [H1 H2]. split; [|done]. intros H. apply H1. by right.
Qed.

Lemma stage_into_safe n o :
  numeric n -> files d0 !! exe = Some (File o) ->
  safe True (let! _ := or_io (create_dir (temp_set_dir n)) in
             let! r := attempt (fill_set (temp_set_dir n) exe build (sha256 o) ss) in
             match r with
             | Ok _ => swap_in (temp_set_dir n)
             | Err e => let! _ := ignore (remove_dir_all (temp_set_dir n)) in raise e
             end) d0 (fun _ => Replaced exe build ss d0 false) (Staging exe build ss d0).
Proof.
  intros Hn Ho. destruct Hready as (Hprev & Hcom & Hpend).
  pose proof (temp_not_committed n Hn) as HT1. pose proof (temp_not_previous n Hn) as HT2. set (T := temp_set_dir n) in *.
  assert (HT3 : T <> PENDING_SET_DIR) by done. assert (HT4 : T <> APPLIED_GENERATION_FILE) by done.
  assert (Hself : Staging exe build ss d0 d0) by (by left). apply safe_bind, safe_bind, wp_operate; [|intros _ k c; by apply safe_raise|done].
  destruct (places d0 !! T) eqn:ET; [by apply safe_raise|]. apply safe_ret.
  assert (HF : Filling d0 T ∅ (mkDisk (files d0) (<[T := Dir ∅]> (places d0)))).
  { split; [|apply lookup_insert_eq]. split; [|split; cbn [places]; by rewrite lookup_insert_ne].
    apply (beside_swap d0 T HT1 HT4 d0); [done|]. intros m N1 N2 N3. by rewrite lookup_insert_ne. }
  assert (Hsub : forall fs d, Filling d0 T fs d -> Staging exe build ss d0 d) by (intros fs d [H _]; by left).
  apply safe_bind, safe_attempt.
  - eapply safe_mono; [by eapply (fill_set_safe exe build ss d0 T HT1 HT2 HT3 HT4 o ∅)| |intros d [fs H]; by eapply Hsub].
    intros [] d (xs & fs & HF' & Hc). by eapply (swap_in_safe exe build ss d0 T HT1 HT2 HT3 HT4).
  - intros e d _ Hd. apply safe_bind. eapply safe_mono; [by apply (drop_temp_safe exe build ss d0 T HT1 HT2 HT3 HT4)| |done].
    intros [] d' Hd'. by apply safe_raise.
Qed.

Lemma stage_safe :
  safe True (stage_update_set windows call exe build ss) d0
    (fun _ d' => Replaced exe build ss d0 false d' /\ admissible build ss) (Staging exe build ss d0).
Proof.
  destruct Hready as (Hprev & Hcom & Hpend).
  assert (Hb : beside d0 d0) by done. assert (Hkept : Kept d0 d0) by done.
  assert (Hself : Staging exe build ss d0 d0) by (by left).
  assert (Hgo : forall d, d = d0 -> Staging exe build ss d0 d) by (by intros d ->).
  unfold stage_update_set, enter_installation, canonical_existing. apply safe_bind, safe_bind, safe_bind, safe_ask.
  apply safe_bind, ensure_safe; [|done]. intros Hf. assert (Ho : exists o, lookup_loc (At exe) d0 = Some (File o)).
  { unfold is_file in Hf. destruct (lookup_loc (At exe) d0) as [[o|]|]; eauto; done. }
  destruct Ho as [o Ho]. apply safe_bind. eapply safe_context; [done| |done]. apply safe_ret.
  apply safe_bind. unfold installation_staging_dir. apply ensure_safe; [|done]. intros _.
  apply safe_bind, lock_safe; [done| |done]. apply safe_bind, safe_bind, safe_ask.
  unfold place_exists. rewrite (is_Some_none (places d0 !! PREVIOUS_SET_DIR)) by done. apply safe_ret, safe_bind, safe_bind.
  eapply safe_io; [done| |done]. apply cleanup_none; [done|]. apply safe_ret.
  apply safe_bind, safe_ask, safe_bind, ensure_safe; [|done]. intros Hj. apply safe_bind, ensure_safe; [|done]. intros _.
  apply safe_bind. eapply safe_mono; [apply check_sources_safe| |exact Hgo]. intros [] d (-> & Hnd & Hall).
  apply safe_bind, ensure_safe; [|done]. intros Hex. apply safe_bind, ensure_safe; [|done]. intros Hbuild.
  assert (Hadm : admissible build ss).
  { split; [done|split; [|done]]. eapply Forall_impl; [exact Hall|]. by intros s [_ ?]. }
  apply safe_bind. eapply safe_digest; [done| |done].
  apply safe_bind. unfold unique_nonce. destruct (nonce call ForTemp) as [n|] eqn:En; [|by apply safe_raise]. apply safe_ret.
  eapply safe_mono; [eapply stage_into_safe; [by eapply Hnum|exact Ho]| |done]. by intros [] d1 H1.
Qed.

(** The next call settles an interrupted swap: the set is the previous one or the new one. *)
Lemma recover_safe d :
  Staging exe build ss d0 d -> safe False recover_stage_swap d (fun _ d' => Kept d0 d' \/ Replaced exe build ss d0 false d') (fun _ => True).
Proof.
  intros Hs. unfold recover_stage_swap. apply safe_bind, safe_ask. unfold place_exists.
  assert (Hsw : forall pl', beside d0 d -> (forall n, PREVIOUS_SET_DIR <> n -> PENDING_SET_DIR <> n -> pl' !! n = places d !! n) -> beside d0 (mkDisk (files d) pl')).
  { intros pl' Hb H. apply beside_elsewhere; [done|]. intros n [->|Hn]; apply H; try done; by intros <-. }
  destruct Hs as [(Hb & H1 & H2)|[(Hb & [P0 H0] & H1 & H2)|[(Hb & [P0 H1] & Hc)|(Hb & H1 & Hc)]]].
  - rewrite is_Some_none by done. apply safe_ret. left. by split.
  - erewrite is_Some_some by (by rewrite H1). apply safe_bind, safe_ask, safe_bind, safe_ensure; [unfold is_dir; by rewrite H1, H0|].
    apply safe_bind, safe_ask. rewrite is_Some_none by done. eapply safe_context; [rewrite H1, H0, H2; done| |done].
    left. split; [apply Hsw; [done|]; intros n N1 N2; by rewrite lookup_insert_ne, lookup_delete_ne|]. cbn [places].
    rewrite lookup_insert_ne, lookup_delete_eq by done. by rewrite lookup_insert_eq.
  - pose proof Hc as (o & xs & fs & H2 & H3). erewrite is_Some_some by done.
    apply safe_bind, safe_ask, safe_bind, safe_ensure; [unfold is_dir; by rewrite H1|].
    apply safe_bind, safe_ask. erewrite is_Some_some by done. apply safe_bind, safe_ask, safe_bind, safe_ensure.
    { unfold is_dir, is_file. cbn [lookup_loc]. rewrite H2. destruct H3 as (_ & _ & -> & _). done. }
    eapply safe_context; [rewrite H1; done| |done]. right.
    split; [apply Hsw; [done|]; intros n N1 N2; by rewrite lookup_delete_ne|]. cbn [places].
    split; [apply lookup_delete_eq|]. exists o, xs, fs. by rewrite lookup_delete_ne.
  - rewrite is_Some_none by done. apply safe_ret. right. by split.
Qed.
End Call.

(** ** What is staged *)

Section Staged.
Context {sha : Sha256} {codec : UpdateCodec} (windows : bool) (exe dir build launching : str) (ss : list UpdateSetSource) (d0 : Disk).

Definition target_of (s : UpdateSetSource) : str := resolve_target dir exe (source_target s).

(** An installation the set can replace: no target is another one, or reserved for another
    one; all are regular files or none, with no stale backup; digests tell the contents of
    a source and of its target apart. *)
Record installable : Prop := {
  inst_exe : exists name, split_path exe = Some (dir, name);
  inst_build : is_newer_version build launching = false;
  inst_siblings : forall n, Sibling n ∈ map source_target ss -> path_key windows (dir ++ n) <> path_key windows exe;
  inst_apart : forall s s', s ∈ ss -> s' ∈ ss -> apart (target_of s) (target_of s');
  inst_tidy : forall s, s ∈ ss -> tidy (files d0) (target_of s) (files d0);
  inst_regular : forall s, s ∈ ss -> files d0 !! target_of s <> Some Special;
  inst_digests : forall s x o, s ∈ ss -> files d0 !! downloaded s = Some (File x) -> files d0 !! target_of s = Some (File o) -> sha256 x = sha256 o -> x = o;
  inst_generation : lookup_loc (Top APPLIED_GENERATION_FILE) d0 <> Some Special;
}.

(** The update that the set of these contents is. *)
Definition staged_update (o : str) (xs : list str) : Update :=
  mkUpdate windows exe dir launching AnyPolicy (mkManifest 2 exe build (sha256 o) (staged_from 0 ss xs)) xs (files d0).

Lemma staged_targets i ss' xs : length ss' = length xs -> map component_target (staged_from i ss' xs) = map source_target ss'.
Proof. revert i xs. induction ss' as [|s ss' IH]; intros i [|x xs] Hl; cbn in *; [done..|]. f_equal. apply IH. lia. Qed.

Lemma staged_goals o xs : length ss = length xs -> goals (staged_update o xs) = map target_of ss.
Proof.
  intros Hl. unfold goals. cbn [staged_manifest components staged_update install_dir update_exe].
  rewrite <- (map_map component_target (resolve_target dir exe)), staged_targets by done. by rewrite map_map.
Qed.

Lemma staged_shapes i ss' xs :
  Forall (fun s => validate_target (source_target s) = Ok tt) ss' -> components_shape i (staged_from i ss' xs) = Ok tt.
Proof.
  intros H. revert i xs. induction H as [|s ss' Hs H IH]; intros i [|x xs]; cbn [staged_from components_shape]; [done..|].
  cbn [staged_as staged_file component_target component_sha256]. rewrite bool_decide_eq_true_2, Hs by done. cbn [negb].
  rewrite valid_digest. cbn. apply IH.
Qed.

Lemma staged_file_at i ss' xs k c : staged_from i ss' xs !! k = Some c -> staged_file c = component_file (i + k).
Proof.
  revert i xs k. induction ss' as [|s ss' IH]; intros i [|x xs] k Hk; cbn [staged_from] in Hk; [done..|].
  destruct k as [|k]; cbn in Hk; [injection Hk as <-; by rewrite Nat.add_0_r|]. rewrite <- Nat.add_succ_comm. by eapply IH.
Qed.

Lemma staged_nonempty xs : length ss = length xs -> existsb (fun s => bool_decide (source_target s = CurrentExecutable)) ss = true -> staged_from 0 ss xs <> [].
Proof. by destruct ss, xs. Qed.

Lemma staged_digests_ok i ss' xs : length ss' = length xs -> Forall2 (fun c x => component_sha256 c = sha256 x) (staged_from i ss' xs) xs.
Proof. revert i xs. induction ss' as [|s ss' IH]; intros i [|x xs] Hl; cbn in *; [constructor|done..|]. constructor; [done|]. apply IH. lia. Qed.

Lemma no_executable_left i ss' xs :
  target_key CurrentExecutable ∉ map (fun s => target_key (source_target s)) ss' ->
  base.filter (fun c => component_target c = CurrentExecutable) (staged_from i ss' xs) = [].
Proof.
  revert i xs. induction ss' as [|s ss' IH]; intros i [|x xs] Hno; cbn [staged_from map] in *; [done..|].
  apply not_elem_of_cons in Hno as [Hs Hno]. rewrite filter_cons_False; [by apply IH|]. cbn [staged_as component_target]. by intros E; rewrite E in Hs.
Qed.

Lemma one_executable i ss' xs :
  length ss' = length xs -> NoDup (map (fun s => target_key (source_target s)) ss') ->
  existsb (fun s => bool_decide (source_target s = CurrentExecutable)) ss' = true ->
  exists c, base.filter (fun c => component_target c = CurrentExecutable) (staged_from i ss' xs) = [c].
Proof.
  revert i xs. induction ss' as [|s ss' IH]; intros i [|x xs] Hl Hnd Hex; cbn [staged_from map existsb length] in *; [done..|].
  apply NoDup_cons in Hnd as [Hs Hnd]. case_bool_decide as E.
  - rewrite filter_cons_True by done. rewrite E in Hs. rewrite no_executable_left by done. eauto.
  - rewrite filter_cons_False by done. apply IH; [lia|done..].
Qed.


Lemma NoDup_map_via {A B C} (f : A -> B) (key : A -> C) l :
  (forall a b, a ∈ l -> b ∈ l -> f a = f b -> key a = key b) -> NoDup (map key l) -> NoDup (map f l).
Proof.
  induction l as [|a l IH]; intros Hf Hnd; cbn [map] in *; [apply NoDup_nil_2|]. apply NoDup_cons in Hnd as [Ha Hnd].
  apply NoDup_cons. split; [|apply IH; [|done]; intros b c Hb Hc; apply Hf; by right].
  intros Hin. apply list_elem_of_fmap in Hin as (b & E & Hb). apply Ha. apply list_elem_of_fmap. exists b. split; [|done].
  apply Hf; [by left|by right|done].
Qed.

(** Targets with the same path have the same key. *)
Lemma same_path_same_key s s' :
  installable -> s ∈ ss -> s' ∈ ss -> path_key windows (target_of s) = path_key windows (target_of s') ->
  target_key (source_target s) = target_key (source_target s').
Proof.
  intros Hi Hs Hs' E. unfold target_of in E.
  assert (Hin : forall s, s ∈ ss -> source_target s ∈ map source_target ss) by (intros t; apply (list_elem_of_fmap_2 source_target)).
  destruct (source_target s) as [|n] eqn:En, (source_target s') as [|n'] eqn:En'; [done|..]; cbn [resolve_target] in E.
  - specialize (Hin s' Hs'). rewrite En' in Hin. by destruct (inst_siblings Hi n' Hin).
  - specialize (Hin s Hs). rewrite En in Hin. by destruct (inst_siblings Hi n Hin).
  - unfold target_key. f_equal. unfold path_key in E. destruct windows.
    + unfold to_ascii_lowercase_str in *. rewrite !map_app in E. by apply app_inv_head in E.
    + apply app_inv_head in E. by subst.
Qed.

(** A staging that answered leaves an update that is well staged, over an idle disk. *)
Lemma replaced_idle d :
  ready_to_stage d0 -> admissible build ss -> installable -> Replaced exe build ss d0 false d ->
  exists o xs, Forall2 (verified_source d0) ss xs /\ well_staged (staged_update o xs) /\ Idle (staged_update o xs) d.
Proof.
  intros Hready (Hnd & Hval & Hex & Hbuild) Hi ((Hfiles & Hcom & Hgen) & Hprev & o & xs & fs & Hp & Hv & Ho & Hm & Hj & Hc).
  pose proof (Forall2_length _ _ _ Hv) as Hl. exists o, xs. split; [done|].
  assert (Hg := staged_goals o xs Hl). assert (Hgs : forall g, g ∈ goals (staged_update o xs) -> exists s, s ∈ ss /\ g = target_of s).
  { intros g Hin. rewrite Hg in Hin. apply list_elem_of_fmap in Hin as (s & -> & Hs). eauto. }
  assert (Hws : well_staged (staged_update o xs)); [split; cbn [staged_update update_exe install_dir staged_manifest bound_executable launch_policy on_windows contents components source_build_version launching_build before source_server_sha256]|split; [done|]].
  - apply Hi.
  - done.
  - unfold validate_manifest_shape. cbn [format_version source_server_sha256 components]. rewrite valid_digest. cbn [negb Z.eqb Pos.eqb].
    rewrite bool_decide_eq_false_2; [by apply staged_shapes|]. by apply staged_nonempty.
  - done.
  - by apply staged_digests_ok.
  - by apply one_executable.
  - done.
  - apply Hi.
  - by exists o.
  - rewrite Hg. apply Forall2_fmap_l. apply Forall2_same_length_lookup. split; [done|]. intros k s x Hs Hx.
    destruct (Forall2_lookup_lr _ _ _ _ _ _ Hv Hs Hx) as [Hd _]. apply list_elem_of_lookup_2 in Hs.
    destruct (files d0 !! target_of s) as [[c|]|] eqn:E; [right; exists c; split; [done|]|by destruct (inst_regular Hi s Hs)|by left].
    intros Hh. by eapply (inst_digests Hi).
  - rewrite Hg, map_map. apply (NoDup_map_via _ (fun s => target_key (source_target s))); [|done].
    intros s s' Hs Hs'. by apply same_path_same_key.
  - intros g g' Hgi Hgi'. destruct (Hgs g Hgi) as (s & Hs & ->), (Hgs g' Hgi') as (s' & Hs' & ->). by apply Hi.
  - split; [|split; [|split]].
    + split; [done|]. split; [done|]. split; [cbn [lookup_loc]; rewrite Hgen; apply (inst_generation Hi)|].
      exists fs. split; [done|]. split; [|done]. split; [done|]. intros k c x Hk Hx.
      cbn [staged_update staged_manifest components contents] in Hk, Hx.
      rewrite (staged_file_at 0 ss xs k c Hk). by apply Hc.
    + intros p _. by rewrite Hfiles.
    + intros g _. by rewrite Hfiles.
    + apply Forall_forall. intros g Hgi. destruct (Hgs g Hgi) as (s & Hs & ->). cbn [staged_update before]. rewrite Hfiles. by apply Hi.
Qed.

End Staged.
