(* ===== verification/UpdateWitness.v ===== *)
(** A staged update on a concrete disk: the theorems at it, two launches that die where the
    update cannot be completed any more, and what staging promises. *)

From stdpp Require Import countable.
From S2P Require Import Prelude Json Text Capability UpdateFs UpdateSet UpdateEntries UpdatePhases UpdateLaunch UpdateProps UpdateStage.

Local Open Scope Z_scope.

(** ** Instances *)

#[export] Existing Instance sample_sha.

#[export] Instance UpdateTarget_countable : Countable UpdateTarget.
Proof.
  refine (inj_countable' (fun t => match t with CurrentExecutable => None | Sibling n => Some n end)
    (fun o => match o with None => CurrentExecutable | Some n => Sibling n end) _); by intros [].
Defined.

#[export] Instance StagedComponent_eq_dec : EqDecision StagedComponent.
Proof. solve_decision. Defined.
#[export] Instance StagedComponent_countable : Countable StagedComponent.
Proof.
  refine (inj_countable' (fun c => (staged_file c, component_target c, component_sha256 c)) (fun x => let '(a, b, c) := x in mkComponent a b c) _); by intros [].
Defined.

#[export] Instance JournalState_countable : Countable JournalState.
Proof.
  refine (inj_countable' (fun s => match s with Applying => true | Committed => false end) (fun b : bool => if b then Applying else Committed) _); by intros [].
Defined.

#[export] Instance JournalEntry_eq_dec : EqDecision JournalEntry.
Proof. solve_decision. Defined.
#[export] Instance JournalEntry_countable : Countable JournalEntry.
Proof.
  refine (inj_countable' (fun e => (target e, prepared e, backup e, had_original e, original_sha256 e, expected_sha256 e))
    (fun x => let '(a, b, c, d, e, f) := x in mkEntry a b c d e f) _); by intros [].
Defined.

#[export] Instance sample_codec : UpdateCodec := {|
  manifest_text m := code_text (format_version m, bound_executable m, source_build_version m, source_server_sha256 m, components m);
  parse_manifest s := (fun x => let '(a, b, c, d, e) := x in mkManifest a b c d e) <$> parse_code s;
  journal_text j := code_text (journal_state j, entries j);
  parse_journal s := (fun x => mkJournal x.1 x.2) <$> parse_code s;
  generation_text g := code_text (gen_format_version g, gen_bound_executable g, gen_source_build_version g, gen_source_server_sha256 g, target_server_sha256 g);
  parse_generation s := (fun x => let '(a, b, c, d, e) := x in mkGeneration a b c d e) <$> parse_code s;
  parse_manifest_text := ltac:(intros []; by rewrite parse_code_text);
  parse_journal_text := ltac:(intros []; by rewrite parse_code_text);
  parse_generation_text := ltac:(intros []; by rewrite parse_code_text);
|}.

(** ** The update *)

Definition demo_manifest : UpdateSetManifest :=
  mkManifest 2 (lit "/d/s") (lit "1.0.0") (sha256 (lit "o"))
    [mkComponent (lit "component-0.bin") CurrentExecutable (sha256 (lit "n")); mkComponent (lit "component-1.bin") (Sibling (lit "h")) (sha256 (lit "m"))].

Definition demo : Update := mkUpdate false (lit "/d/s") (lit "/d/") (lit "1.0.0") AnyPolicy demo_manifest [lit "n"; lit "m"]
  {[lit "/d/s" := File (lit "o")]}.

Definition demo_disk : Disk :=
  mkDisk {[lit "/d/s" := File (lit "o")]}
    {[PENDING_SET_DIR := Dir (<[MANIFEST_FILE := manifest_text demo_manifest]>
      (<[lit "component-0.bin" := lit "n"]> {[lit "component-1.bin" := lit "m"]}))]}.

Definition demo_call : Call := mkCall 10 [(true, 0)] [(Locked, 0)] (fun _ => Some (lit "7")) true.

(** What each launch of it does, with so many operations going through before the process dies. *)
Definition dies_after (n : nat) (removed : gset str) : list Fate := replicate n Goes ++ [Dies (mkCut true 0 removed)].

Definition after (fates : list Fate) : Disk := fst (fst (run_launch demo demo_call demo_disk fates)).

(** *** It is well staged *)

Lemma demo_lookup p n : files demo_disk !! p = Some n -> p = lit "/d/s" /\ n = File (lit "o").
Proof. unfold demo_disk. cbn [files]. intros H. apply lookup_singleton_Some in H as [<- <-]. done. Qed.

Lemma demo_goals g : g ∈ goals demo -> g = lit "/d/s" \/ g = lit "/d/h".
Proof. change (goals demo) with [lit "/d/s"; lit "/d/h"]. set_solver. Qed.

Lemma demo_apart g g' : g ∈ goals demo -> g' ∈ goals demo -> apart g g'.
Proof.
  intros [->| ->]%demo_goals [->| ->]%demo_goals s H; apply (f_equal length) in H; unfold sidecar in H; rewrite !length_app in H; cbn in H; lia.
Qed.

Lemma demo_no_sidecar g s : g ∈ goals demo -> files demo_disk !! sidecar g s = None.
Proof.
  intros Hg. destruct (files demo_disk !! sidecar g s) eqn:E; [|done]. apply demo_lookup in E as [E _].
  symmetry in E. apply (demo_apart g (lit "/d/s") Hg ltac:(left) s) in E as [].
Qed.

Lemma demo_staged : well_staged demo.
Proof.
  split.
  - by exists (lit "s").
  - done.
  - by vm_compute.
  - done.
  - by repeat constructor.
  - eexists. by vm_compute.
  - by vm_compute.
  - by vm_compute.
  - by exists (lit "o").
  - change (goals demo) with [lit "/d/s"; lit "/d/h"]. constructor; [|constructor; [by left|constructor]].
    right. exists (lit "o"). split; [done|]. intros H. exfalso. revert H. by vm_compute.
  - change (goals demo) with [lit "/d/s"; lit "/d/h"]. cbn. apply NoDup_cons. split; [set_solver|apply NoDup_singleton].
  - exact demo_apart.
Qed.

Lemma demo_idle : Idle demo demo_disk.
Proof.
  split; [|split; [|split]].
  - split; [by vm_compute|]. split; [|split; [by vm_compute|]].
    + intros n Hn Hs. cbn [places demo_disk] in Hs. destruct (decide (n = PENDING_SET_DIR)) as [->|Hne]; [by vm_compute in Hn|].
      rewrite lookup_singleton_ne in Hs by done. by destruct Hs.
    + eexists. split; [apply lookup_singleton_eq|]. split; [|by vm_compute]. split; [by vm_compute|].
      intros [|[|k]] c x Hc Hx; [..|done]; cbn in Hc, Hx; simplify_eq; by vm_compute.
  - by intros p _.
  - by intros g _.
  - apply Forall_forall. intros g Hg. split; [intros s; by rewrite (demo_no_sidecar g s Hg)|left; exact (demo_no_sidecar g _ Hg)].
Qed.

Lemma demo_fresh : fresh_backups demo demo_call demo_disk.
Proof. intros g n Hg _. by apply demo_no_sidecar. Qed.

Lemma demo_launch fates : launch demo demo_disk (after fates).
Proof.
  unfold after. destruct (run_launch demo demo_call demo_disk fates) as [[d rest] out] eqn:E. exists demo_call, fates, rest, out.
  split; [exact demo_fresh|exact E].
Qed.

(** *** The theorems at it *)

Lemma update_atomic_witness : exists d, launch demo demo_disk d /\ files d !! lit "/d/s" = None /\ framed demo (files d).
Proof.
  exists (after (dies_after 33 ∅)). split; [apply demo_launch|]. split; [by vm_compute|].
  apply (update_atomic demo demo_disk _ demo_staged demo_idle (rtc_once _ _ (demo_launch _))).
Defined.

Lemma not_orphaned n : ~ Orphaned demo n demo_disk.
Proof. intros ((_ & H & _) & _). by vm_compute in H. Qed.

Lemma update_completes_witness : exists d' rest b, run_launch demo demo_call demo_disk [] = ((d', rest), Ret (Ok b)) /\ new demo (files d') /\ framed demo (files d').
Proof.
  apply (update_completes demo demo_disk demo_disk demo_call [] demo_staged demo_idle (rtc_refl _ _)).
  - by vm_compute.
  - exact not_orphaned.
  - exact demo_fresh.
  - by split; [|split; [|intros w]].
  - intros H. by inversion H.
Defined.

Lemma update_answer_witness : exists d' rest r, run_launch demo demo_call demo_disk [Fails false (mkCut false 0 ∅)] = ((d', rest), Ret r) /\ (old demo (files d') \/ new demo (files d')).
Proof.
  destruct (run_launch demo demo_call demo_disk [Fails false (mkCut false 0 ∅)]) as [[d' rest] [r|]] eqn:E; [|exfalso; revert E; by vm_compute].
  exists d', rest, r. split; [done|]. pose proof (update_answer demo demo_disk d' demo_call _ rest r demo_staged demo_idle demo_fresh E) as H.
  destruct r as [b|e]; [by right|]. apply H. revert E. vm_compute. by intros [= _ _ <-].
Defined.

(** A launch that dies while it removes the committed set, its journal already gone. *)
Definition orphaned_disk : Disk := after (dies_after 50 {[JOURNAL_FILE]}).

Lemma demo_orphaned : Orphaned demo (lit "7") orphaned_disk.
Proof.
  assert (HP : Phase demo orphaned_disk) by (apply (launch_phase demo demo_staged demo_disk); [left; exact demo_idle|apply demo_launch]).
  assert (Hp : places orphaned_disk !! PENDING_SET_DIR = None) by (by vm_compute).
  assert (Hc : exists fs, places orphaned_disk !! (COMMITTED_SET_PREFIX ++ lit "7") = Some (Dir fs) /\ fs !! JOURNAL_FILE = None).
  { destruct (places orphaned_disk !! (COMMITTED_SET_PREFIX ++ lit "7")) as [[|fs|]|] eqn:E;
      [exfalso; revert E; by vm_compute| |exfalso; revert E; by vm_compute..].
    exists fs. split; [done|]. revert E. vm_compute. by intros [= <-]. }
  generalize dependent orphaned_disk. intros d HP Hp (fs & Hfs & Hj).
  assert (Hname : forall name, committed_only name (places d) -> name = Some (COMMITTED_SET_PREFIX ++ lit "7")).
  { intros name H. symmetry. apply H; [apply committed_name|by rewrite Hfs]. }
  destruct HP as [(H & _)|[[its (H & _)]|[[its (H & _)]|[(n & its & ((_ & _ & H & _) & _ & fs' & H1 & H2))|[[n Ho]|((_ & _ & H & _) & _)]]]]].
  - destruct H as (_ & _ & _ & x & H & _). congruence.
  - destruct H as (_ & _ & _ & x & H & _). congruence.
  - destruct H as (_ & _ & _ & x & H & _). congruence.
  - apply Hname, (inj Some) in H. rewrite H in H1. congruence.
  - pose proof Ho as ((_ & _ & H & _) & _). apply Hname, (inj Some), app_inv_head in H as ->. done.
  - by apply Hname in H.
Qed.

Lemma interrupted_removal_stuck_witness : exists d, launch demo demo_disk d /\
  forall call fates d2 rest out, run_launch demo call d fates = ((d2, rest), out) -> forall b, out <> Ret (Ok b).
Proof.
  exists orphaned_disk. split; [apply demo_launch|].
  exact (proj2 (interrupted_removal_stuck demo (lit "7") orphaned_disk orphaned_disk demo_orphaned (rtc_refl _ _))).
Defined.

(** Without the executable every call for its installation fails and leaves the disk as it
    is: no file operation is even tried. *)
Definition refused {A} (m : M A) (d : Disk) : Prop := forall fates, exists e, m d fates = ((d, fates), Ret (Err e)).

Lemma missing_refused {sha : Sha256} {codec : UpdateCodec} {dirs : DirOrder} (windows : bool) (call : Call) (exe : str) (d : Disk) :
  files d !! exe = None ->
  (forall policy build, refused (apply_staged_update_set windows call policy exe build) d) /\
  refused (clear_staged_binary_update windows call exe) d /\
  (forall build ss, refused (stage_update_set windows call exe build ss) d) /\
  (forall source sibling expected, refused (install_verified_sibling windows call exe source sibling expected) d).
Proof.
  intros He. assert (Hc : forall fates, canonical_existing exe d fates = ((d, fates), Ret (Err (Stage ExecutableMissing)))).
  { intros fates. unfold canonical_existing, bind, ask, is_file. cbn [lookup_loc]. by rewrite He. }
  split; [|split; [|split]].
  - intros policy build fates. eexists. unfold apply_staged_update_set, enter_installation. unfold bind at 1 2. by rewrite Hc.
  - intros fates. eexists. unfold clear_staged_binary_update, enter_installation. unfold bind at 1 2. by rewrite Hc.
  - intros build ss fates. eexists. unfold stage_update_set, enter_installation. unfold bind at 1 2. by rewrite Hc.
  - intros source sibling expected fates. unfold install_verified_sibling. unfold bind at 1.
    destruct (validate_sibling_name sibling) as [[]|e]; [|by eexists]. unfold lift at 1, ret. unfold bind at 1.
    destruct (validate_expected_sha expected) as [[]|e]; [|by eexists]. unfold lift, ret. unfold bind at 1. rewrite Hc. by eexists.
Qed.

(** The disk that launches reach without an executable holds the way back. *)
Lemma missing_recoverable {sha : Sha256} {codec : UpdateCodec} {dirs : DirOrder} (u : Update) (d0 d : Disk) :
  well_staged u -> Idle u d0 -> rtc (launch u) d0 d -> files d !! update_exe u = None ->
  (exists s, files d !! sidecar (update_exe u) (lit "backup" ++ s) = before u !! update_exe u) /\
  exists its fs, covers u its /\ places d !! PENDING_SET_DIR = Some (Dir fs) /\ fs !! JOURNAL_FILE = Some (journal_text (journal_of u Applying its)).
Proof.
  intros Hst Hid Hr He. assert (HP : Phase u d) by (eapply (launches_phase u Hst); [by left|done]).
  pose proof (exe_is_goal u Hst) as Hg. destruct (staged_over u Hst) as (o & Ho & _).
  destruct (phase_settled u d HP) as [[Hold|Hnew]|[its (Hp & Hc & _ & Ha)]].
  - specialize (Hold _ Hg). congruence.
  - apply list_elem_of_lookup_1 in Hg as [i Hi]. assert (Hx : exists x, contents u !! i = Some x).
    { apply lookup_lt_is_Some. apply lookup_lt_Some in Hi. unfold goals in Hi. rewrite length_map in Hi.
      by rewrite <- (Forall2_length _ _ _ (staged_digests u Hst)). }
    destruct Hx as [x Hx]. rewrite (Hnew (update_exe u) x) in He; [done|]. apply list_elem_of_lookup_2 with i. rewrite lookup_zip_with, Hi. cbn. by rewrite Hx.
  - split.
    + destruct (goal_covered u Hst its _ Hc Hg) as (it & Hi & Hit). rewrite Forall_forall in Ha.
      rewrite <- Hit in He, Ho |- *.
      destruct (Ha it Hi) as [_ [[H _]|[[_ H]|[H _]]]]; [congruence| |congruence]. by exists (kept_as it).
    + destruct Hp as (_ & _ & _ & fs & Hfs & _ & Hj). by exists its, fs.
Qed.

(** C39: launches can lose an installation.  When launches of a staged update, wherever they
    died, have left no executable, its old content is in a backup beside it and the journal
    that would bring it back is in the pending set; yet every later call for the
    installation, to launch it, to clear or to stage an update, or to install a sibling,
    fails and leaves the disk as it is.  And there is an update and a launch of it that
    dies, between moving the executable to its backup and moving the new one into its
    place, with no executable left. *)
Theorem executable_lost :
  (forall (sha : Sha256) (codec : UpdateCodec) (dirs : DirOrder) (u : Update) (d0 d : Disk),
    well_staged u -> Idle u d0 -> rtc (launch u) d0 d -> files d !! update_exe u = None ->
    (exists s, files d !! sidecar (update_exe u) (lit "backup" ++ s) = before u !! update_exe u) /\
    (exists its fs, covers u its /\ places d !! PENDING_SET_DIR = Some (Dir fs) /\ fs !! JOURNAL_FILE = Some (journal_text (journal_of u Applying its))) /\
    forall windows call,
      (forall policy build, refused (apply_staged_update_set windows call policy (update_exe u) build) d) /\
      refused (clear_staged_binary_update windows call (update_exe u)) d /\
      (forall build ss, refused (stage_update_set windows call (update_exe u) build ss) d) /\
      (forall source sibling expected, refused (install_verified_sibling windows call (update_exe u) source sibling expected) d)) /\
  exists u d0 d, well_staged u /\ Idle u d0 /\ launch u d0 d /\ files d !! update_exe u = None.
Proof.
  split.
  - intros sha codec dirs u d0 d Hst Hid Hr He. destruct (missing_recoverable u d0 d Hst Hid Hr He) as [H1 H2].
    split; [exact H1|]. split; [exact H2|]. intros windows call. by apply missing_refused.
  - exists demo, demo_disk, (after (dies_after 33 ∅)). split; [exact demo_staged|]. split; [exact demo_idle|]. split; [apply demo_launch|by vm_compute].
Qed.

(** ** Staging *)

(** C13: whatever happens to a call that stages a set, the file operations that fail in it
    and wherever it dies, the next call finds, once it has settled an interrupted swap, the
    set that was pending before or the complete new one, whose every component has the
    content and the digest of its source; after an answer it is the new one. *)
Theorem stage_atomic {sha : Sha256} {codec : UpdateCodec} {dirs : DirOrder} (windows : bool) (call : Call) (exe build : str)
    (ss : list UpdateSetSource) (d0 d : Disk) (fates rest fates' : list Fate) (out : outcome unit) :
  ready_to_stage d0 -> (forall w n, nonce call w = Some n -> numeric n) -> Z.of_nat (length ss) <= u64_max ->
  stage_update_set windows call exe build ss d0 fates = ((d, rest), out) -> ~ faulty fates' ->
  (exists d2 rest2, recover_stage_swap d fates' = ((d2, rest2), Ret (Ok tt)) /\ files d2 = files d0 /\
     places d2 !! PREVIOUS_SET_DIR = None /\
     (places d2 !! PENDING_SET_DIR = places d0 !! PENDING_SET_DIR \/
      exists o xs fs, places d2 !! PENDING_SET_DIR = Some (Dir fs) /\ complete_set exe build ss d0 o xs fs)) /\
  (out = Ret (Ok tt) -> exists o xs fs, places d !! PENDING_SET_DIR = Some (Dir fs) /\ complete_set exe build ss d0 o xs fs).
Proof.
  intros Hr Hn Hl E Hf. pose proof (stage_safe windows exe build ss call d0 Hn Hr Hl fates (fun _ => I)) as H. rewrite E in H.
  assert (HS : Staging exe build ss d0 d) by (destruct out as [[[]|e]|]; [right; right; right|..]; apply H).
  split; [|intros ->; by destruct H as [[(_ & _ & H) _] _]].
  pose proof (recover_safe exe build ss d0 d HS fates' Hf) as H'. destruct (recover_stage_swap d fates') as [[d2 rest2] [[[]|e]|]]; [|by destruct H' as [[[] _] _]|by destruct H'].
  exists d2, rest2. split; [done|]. destruct H' as [[((Hb & _) & H1 & H2)|((Hb & _) & H1 & H2)] _]; auto.
Qed.

(** C14: on an installation the set can replace ([installable], which staging does not
    check: every target is a regular file or missing, none is another one or reserved for
    another, there are no stale backups, the generation file is none that cannot be
    replaced, the launching build is not older than the set's, and SHA-256 tells each
    source from what its target holds), a call that stages a set and answers has left an
    update that is well staged, with the contents its sources had, on a disk that is idle
    for it: the two conditions under which launching is atomic and completes. *)
Theorem stage_idle {sha : Sha256} {codec : UpdateCodec} {dirs : DirOrder} (windows : bool) (call : Call) (exe dir build launching : str)
    (ss : list UpdateSetSource) (d0 d : Disk) (fates rest : list Fate) :
  ready_to_stage d0 -> (forall w n, nonce call w = Some n -> numeric n) -> Z.of_nat (length ss) <= u64_max ->
  installable windows exe dir build launching ss d0 ->
  stage_update_set windows call exe build ss d0 fates = ((d, rest), Ret (Ok tt)) ->
  exists o xs, Forall2 (verified_source d0) ss xs /\
    well_staged (staged_update windows exe dir build launching ss d0 o xs) /\ Idle (staged_update windows exe dir build launching ss d0 o xs) d.
Proof.
  intros Hr Hn Hl Hi E. pose proof (stage_safe windows exe build ss call d0 Hn Hr Hl fates (fun _ => I)) as H. rewrite E in H.
  destruct H as [[H1 H2] _]. by apply replaced_idle.
Qed.

(** ** At a concrete disk *)

Definition demo_sources : list UpdateSetSource :=
  [mkSource (lit "/t/n") CurrentExecutable (sha256 (lit "n")); mkSource (lit "/t/m") (Sibling (lit "h")) (sha256 (lit "m"))].

Definition download_disk : Disk :=
  mkDisk (<[lit "/d/s" := File (lit "o")]> (<[lit "/t/n" := File (lit "n")]> {[lit "/t/m" := File (lit "m")]})) ∅.

Definition staging : (Disk * list Fate) * outcome unit :=
  stage_update_set false demo_call (lit "/d/s") (lit "1.0.0") demo_sources download_disk [].

Lemma download_ready : ready_to_stage download_disk.
Proof. split; [done|split; [|by left]]. intros n _ [x Hx]. by cbn in Hx. Qed.

Lemma demo_numeric w n : nonce demo_call w = Some n -> numeric n.
Proof. intros [= <-]. by exists 55, []. Qed.

Lemma staging_answers : snd staging = Ret (Ok tt).
Proof. by vm_compute. Qed.

Lemma stage_atomic_witness : exists d rest d2 rest2, staging = ((d, rest), Ret (Ok tt)) /\ recover_stage_swap d [] = ((d2, rest2), Ret (Ok tt)) /\ files d2 = files download_disk.
Proof.
  pose proof staging_answers as Ho. destruct staging as [[d rest] out] eqn:E. cbn [snd] in Ho. subst out.
  destruct (stage_atomic false demo_call (lit "/d/s") (lit "1.0.0") demo_sources download_disk d [] rest [] _ download_ready demo_numeric ltac:(done) E ltac:(by intros H; inversion H))
    as [(d2 & rest2 & H1 & H2 & _) _].
  exists d, rest, d2, rest2. split; [reflexivity|split; [exact H1|exact H2]].
Defined.

Lemma download_lookup p n : files download_disk !! p = Some n ->
  (p = lit "/d/s" /\ n = File (lit "o")) \/ (p = lit "/t/n" /\ n = File (lit "n")) \/ (p = lit "/t/m" /\ n = File (lit "m")).
Proof.
  unfold download_disk. cbn [files]. rewrite lookup_insert_Some. intros [[<- <-]|[_ H]]; [by left|].
  rewrite lookup_insert_Some in H. destruct H as [[<- <-]|[_ H]]; [by right; left|]. apply lookup_singleton_Some in H as [<- <-]. by right; right.
Qed.

Lemma demo_targets s : s ∈ demo_sources -> target_of (lit "/d/s") (lit "/d/") s ∈ goals demo.
Proof. change (goals demo) with [lit "/d/s"; lit "/d/h"]. unfold demo_sources. intros [->|[->|[]%elem_of_nil]%elem_of_cons]%elem_of_cons; [by left|by right; left]. Qed.

Lemma demo_installable : installable false (lit "/d/s") (lit "/d/") (lit "1.0.0") (lit "1.0.0") demo_sources download_disk.
Proof.
  split.
  - by exists (lit "s").
  - by vm_compute.
  - intros n Hn. cbn in Hn. apply elem_of_cons in Hn as [[=]|Hn]. apply list_elem_of_singleton in Hn as [= ->]. done.
  - intros s s' Hs Hs'. apply demo_apart; by apply demo_targets.
  - intros s Hs. assert (H : forall x, files download_disk !! sidecar (target_of (lit "/d/s") (lit "/d/") s) x = None).
    { intros x. destruct (files download_disk !! _) eqn:E; [|done]. exfalso. apply demo_targets in Hs.
      assert (Hg : target_of (lit "/d/s") (lit "/d/") s = lit "/d/s" \/ target_of (lit "/d/s") (lit "/d/") s = lit "/d/h") by (by apply demo_goals).
      apply download_lookup in E as [[E _]|[[E _]|[E _]]]; apply (f_equal length) in E; unfold sidecar in E; rewrite !length_app in E;
        destruct Hg as [Hg|Hg]; rewrite Hg in E; cbn in E; lia. }
    split; [intros x; by rewrite H|left; apply H].
  - intros s Hs H. apply download_lookup in H as [[_ H]|[[_ H]|[_ H]]]; done.
  - intros s x o Hs Hx Ho Hh. apply elem_of_cons in Hs as [->|Hs].
    + apply download_lookup in Hx as [[? _]|[[_ [= ->]]|[? _]]]; [done| |done].
      apply download_lookup in Ho as [[_ [= ->]]|[[? _]|[? _]]]; [|done..]. exfalso. revert Hh. by vm_compute.
    + apply list_elem_of_singleton in Hs as ->. by apply download_lookup in Ho as [[? _]|[[? _]|[? _]]].
  - done.
Qed.

Lemma stage_idle_witness : exists d rest o xs, staging = ((d, rest), Ret (Ok tt)) /\
  Idle (staged_update false (lit "/d/s") (lit "/d/") (lit "1.0.0") (lit "1.0.0") demo_sources download_disk o xs) d.
Proof.
  pose proof staging_answers as Ho. destruct staging as [[d rest] out] eqn:E. cbn [snd] in Ho. subst out.
  destruct (stage_idle false demo_call (lit "/d/s") (lit "/d/") (lit "1.0.0") (lit "1.0.0") demo_sources download_disk d [] rest
    download_ready demo_numeric ltac:(done) demo_installable E) as (o & xs & _ & _ & H).
  exists d, rest, o, xs. split; [reflexivity|exact H].
Defined.
