(* ===== verification/GatewayElection.v ===== *)
(** The election of the gateway, [dcc-mcp-gateway/src/gateway/version.rs] and [sentinel.rs]:
    which of two gateways is preferred, and when a gateway yields to the row of another. *)

From S2P Require Import Prelude Text Json GatewayNaming Capability TransportAddress ServiceEntry.

Local Open Scope Z_scope.

(** ** Versions *)

(** [seg.split('-').next()] of every segment; the others are dropped. *)
Definition semver_segments (v : str) : list Z :=
  omap (fun seg => match split_char ch_dash seg with s :: _ => parse_u64 s | [] => None end) (split_char ch_dot (trim_start_char 118 v)).

Definition parse_semver (v : str) : Z * Z * Z :=
  let parts := semver_segments v in (default 0 (parts !! 0%nat), default 0 (parts !! 1%nat), default 0 (parts !! 2%nat)).

(** The order of triples, and of optional ones with [None] first. *)
Definition triple_gt (a b : Z * Z * Z) : bool :=
  let '(a1, a2, a3) := a in
  let '(b1, b2, b3) := b in
  (b1 <? a1) || ((a1 =? b1) && ((b2 <? a2) || ((a2 =? b2) && (b3 <? a3)))).

Definition opt_gt (a b : option (Z * Z * Z)) : bool :=
  match a, b with Some x, Some y => triple_gt x y | Some _, None => true | None, _ => false end.

Definition is_newer_version (candidate current : str) : bool := triple_gt (parse_semver candidate) (parse_semver current).

(** ** Elections *)

Definition STANDALONE_GATEWAY_DCC : str := lit "gateway".

Record ElectionInfo : Type := mkInfo { crate_version : str; info_adapter_version : option str; info_adapter_dcc : option str }.

Definition is_unknown_dcc (dcc : option str) : bool :=
  match dcc with None => true | Some s => bool_decide (s = []) || eq_ignore_ascii_case s (lit "unknown") end.

Definition is_standalone_gateway_daemon (dcc : option str) : bool :=
  match dcc with Some s => eq_ignore_ascii_case s STANDALONE_GATEWAY_DCC | None => false end.

(** Whether [candidate] should preempt [current]. *)
Definition is_newer_election (candidate current : ElectionInfo) : bool :=
  let cand_crate := parse_semver (crate_version candidate) in
  let cur_crate := parse_semver (crate_version current) in
  if negb (bool_decide (cand_crate = cur_crate)) then triple_gt cand_crate cur_crate
  else if is_standalone_gateway_daemon (info_adapter_dcc current) then false
  else
    let cand_adapter := parse_semver <$> info_adapter_version candidate in
    let cur_adapter := parse_semver <$> info_adapter_version current in
    if negb (bool_decide (cand_adapter = cur_adapter)) then opt_gt cand_adapter cur_adapter
    else is_unknown_dcc (info_adapter_dcc current) && negb (is_unknown_dcc (info_adapter_dcc candidate)).

(** ** Sentinels *)

Definition normalise_host (h : str) : str :=
  if bool_decide (h ∈ [lit "localhost"; lit "::1"; lit "0.0.0.0"; lit "[::]"; lit "[::0]"]) then lit "127.0.0.1" else h.

Definition is_own_instance (e : ServiceEntry) (own_host : str) (own_port : Z) : bool :=
  (port e =? own_port) && bool_decide (normalise_host (host e) = normalise_host own_host).

(** Whether a row makes a gateway yield. *)
Definition preempts (now stale_timeout : Z) (own : ElectionInfo) (e : ServiceEntry) : bool :=
  if is_stale now stale_timeout e then false
  else match version e with
       | None => false
       | Some v => is_newer_election (mkInfo v (adapter_version e) (adapter_dcc e)) own
       end.

Definition has_newer_sentinel_entries (now stale_timeout : Z) (entries : list ServiceEntry) (own : ElectionInfo) : bool :=
  existsb (preempts now stale_timeout own) entries.

(** ** The order of elections *)

Lemma triple_gt_irrefl a : triple_gt a a = false.
Proof. destruct a as [[a1 a2] a3]. unfold triple_gt. rewrite !Z.ltb_irrefl, !Z.eqb_refl. done. Qed.

Lemma triple_gt_trans a b c : triple_gt a b = true -> triple_gt b c = true -> triple_gt a c = true.
Proof. destruct a as [[a1 a2] a3], b as [[b1 b2] b3], c as [[c1 c2] c3]. unfold triple_gt. lia. Qed.

Lemma opt_gt_irrefl a : opt_gt a a = false.
Proof. destruct a; [apply triple_gt_irrefl|done]. Qed.

Lemma opt_gt_trans a b c : opt_gt a b = true -> opt_gt b c = true -> opt_gt a c = true.
Proof. destruct a, b, c; cbn [opt_gt]; try done. apply triple_gt_trans. Qed.

(** What a gateway is preferred by, in the order of the layers. *)
Lemma newer_election_spec a b :
  is_newer_election a b = true <->
  triple_gt (parse_semver (crate_version a)) (parse_semver (crate_version b)) = true \/
  parse_semver (crate_version a) = parse_semver (crate_version b) /\ is_standalone_gateway_daemon (info_adapter_dcc b) = false /\
  (opt_gt (parse_semver <$> info_adapter_version a) (parse_semver <$> info_adapter_version b) = true \/
   parse_semver <$> info_adapter_version a = parse_semver <$> info_adapter_version b /\
   is_unknown_dcc (info_adapter_dcc b) = true /\ is_unknown_dcc (info_adapter_dcc a) = false).
Proof.
  unfold is_newer_election. case_bool_decide as Hc; cbn [negb].
  - rewrite Hc, triple_gt_irrefl. destruct (is_standalone_gateway_daemon (info_adapter_dcc b)); [intuition congruence|].
    case_bool_decide as Ha; cbn [negb]; [|intuition congruence].
    rewrite Ha, opt_gt_irrefl, andb_true_iff, negb_true_iff. intuition congruence.
  - intuition congruence.
Qed.

Lemma newer_election_irrefl a : is_newer_election a a = false.
Proof.
  apply not_true_iff_false. rewrite newer_election_spec, triple_gt_irrefl, opt_gt_irrefl. intuition congruence.
Qed.

Lemma newer_election_trans a b c : is_newer_election a b = true -> is_newer_election b c = true -> is_newer_election a c = true.
Proof.
  rewrite !newer_election_spec. intros [H1|(H1 & S1 & L1)] [H2|(H2 & S2 & L2)].
  - left. by eapply triple_gt_trans.
  - left. by rewrite <- H2.
  - left. by rewrite H1.
  - right. split; [congruence|split; [done|]]. destruct L1 as [L1|(L1 & U1 & V1)], L2 as [L2|(L2 & U2 & V2)].
    + left. by eapply opt_gt_trans.
    + left. by rewrite <- L2.
    + left. by rewrite L1.
    + congruence.
Qed.

Lemma undefeated_among (l : list ElectionInfo) : l <> [] -> exists b, b ∈ l /\ forall c, c ∈ l -> is_newer_election c b = false.
Proof.
  induction l as [|x l IH]; intros Hl; [done|]. destruct (decide (l = [])) as [->|Hne].
  { exists x. split; [by left|]. intros c ->%list_elem_of_singleton. apply newer_election_irrefl. }
  destruct (IH Hne) as (m & Hm & Hmax). destruct (is_newer_election x m) eqn:E.
  - exists x. split; [by left|]. intros c [->|Hc]%elem_of_cons; [apply newer_election_irrefl|].
    destruct (is_newer_election c x) eqn:Ec; [|done]. rewrite <- (Hmax c Hc). symmetry. by eapply newer_election_trans.
  - exists m. split; [by right|]. by intros c [->|Hc]%elem_of_cons; [|apply Hmax].
Qed.

(** C15: preference between gateways is a strict order: none preempts itself, no chain of
    preemptions comes back; so among any gateways each is undefeated or preempted by one
    that none of them preempts, and mutual yielding ends. *)
Theorem election_settles :
  (forall a, is_newer_election a a = false) /\
  (forall a b c, is_newer_election a b = true -> is_newer_election b c = true -> is_newer_election a c = true) /\
  (forall (l : list ElectionInfo) a, a ∈ l -> exists b, b ∈ l /\ (b = a \/ is_newer_election b a = true) /\ forall c, c ∈ l -> is_newer_election c b = false).
Proof.
  split; [exact newer_election_irrefl|split; [exact newer_election_trans|]]. intros l a Ha.
  destruct (decide (base.filter (fun c => is_newer_election c a = true) l = [])) as [E|E].
  - exists a. split; [done|split; [by left|]]. intros c Hc. destruct (is_newer_election c a) eqn:Ec; [|done].
    assert (Hin : c ∈ base.filter (fun c => is_newer_election c a = true) l) by (by apply list_elem_of_filter). rewrite E in Hin. by apply elem_of_nil in Hin.
  - destruct (undefeated_among _ E) as (b & Hb & Hmax). apply list_elem_of_filter in Hb as [Hba Hb].
    exists b. split; [done|split; [by right|]]. intros c Hc. destruct (is_newer_election c b) eqn:Ec; [|done].
    rewrite <- (Hmax c); [done|]. apply list_elem_of_filter. split; [by eapply newer_election_trans|done].
Qed.

(** A gateway yields exactly when a row with a fresh heartbeat and a version is preferred. *)
Theorem yields_iff now timeout entries own :
  has_newer_sentinel_entries now timeout entries own = true <->
  exists e v, e ∈ entries /\ is_stale now timeout e = false /\ version e = Some v /\
    is_newer_election (mkInfo v (adapter_version e) (adapter_dcc e)) own = true.
Proof.
  unfold has_newer_sentinel_entries. rewrite existsb_exists. split.
  - intros (e & He & Hp). unfold preempts in Hp. destruct (is_stale now timeout e) eqn:Es; [done|].
    destruct (version e) as [v|] eqn:Ev; [|done]. exists e, v. by rewrite list_elem_of_In.
  - intros (e & v & He & Hs & Hv & Hn). exists e. split; [by apply list_elem_of_In|]. unfold preempts. by rewrite Hs, Hv.
Qed.

(** A standalone daemon yields to a later crate version only. *)
Theorem standalone_yields candidate current :
  is_standalone_gateway_daemon (info_adapter_dcc current) = true ->
  is_newer_election candidate current = is_newer_version (crate_version candidate) (crate_version current).
Proof.
  intros Hs. unfold is_newer_election, is_newer_version. rewrite Hs. case_bool_decide as E; cbn [negb]; [|done]. by rewrite E, triple_gt_irrefl.
Qed.
