(* ===== verification/UpdateCheck.v ===== *)
(** Asking the gateway for an update and downloading it: the client of
    [dcc-mcp-updater/src/lib.rs], and the endpoints of the gateway it asks,
    [dcc-mcp-gateway/src/gateway/handlers/update_impl.rs] and [update_manifest.rs].  The
    address the client formats goes through the class [Transport] of the HTTP libraries,
    whose law is the decoding of a form. *)

From S2P Require Import Prelude Text Json UpdateFs UpdateSet GatewayElection.

Local Open Scope Z_scope.

(** ** Digests and names *)

(** A digest in its canonical form, [Sha256Digest::require]. *)
Definition require_digest (binary_name : str) (value : option str) : result UpdateError str :=
  match value with
  | None => Err (MissingChecksum binary_name)
  | Some v => if valid_sha v then Ok (to_ascii_lowercase_str v) else Err (InvalidChecksum binary_name)
  end.

(** The names [.] and [..] end with a dot; a name of portable bytes has no separator. *)
Definition validate_binary_name (n : str) : result UpdateError unit :=
  if negb (bool_decide (n = [])) && forallb portable_byte n && negb (ends_with [ch_dot] n) then Ok tt else Err InvalidBinaryName.

(** ** The gateway *)

Record ManifestEntry : Type := mkManifestEntry { entry_version : str; url : option str; sha256_of : option str; notes : option str }.

Inductive ManifestAssetError : Type := MissingUrl (binary_name : str) | Integrity (e : UpdateError).

(** A present text that is not blank. *)
Definition not_blank (o : option str) : option str := match o with Some u => if bool_decide (trim u = []) then None else Some u | None => None end.

Definition require_asset (e : ManifestEntry) (binary_name : str) : result ManifestAssetError (str * str) :=
  match not_blank (url e) with
  | None => Err (MissingUrl binary_name)
  | Some u => match require_digest binary_name (sha256_of e) with Ok d => Ok (u, d) | Err x => Err (Integrity x) end
  end.

(** The texts of the errors that reach the client; a digest is refused in two ways only. *)
Definition asset_error_text (e : ManifestAssetError) : str :=
  match e with
  | MissingUrl b => lit "Update manifest entry for " ++ b ++ lit " is missing a download URL"
  | Integrity (MissingChecksum b) => lit "Update manifest entry for " ++ b ++ lit " is missing a required SHA-256 digest"
  | Integrity (InvalidChecksum b) => lit "Update manifest entry for " ++ b ++ lit " contains an invalid SHA-256 digest"
  | Integrity _ => []
  end.

(** What the gateway answers: a status and JSON. *)
Definition Response : Type := Z * Value.

Definition obj_str (k v : string) : str * Value := (lit k, Str (lit v)).
Definition no_update : str * Value := (lit "update_available", Bool false).
Definition opt_text (o : option str) : Value := match o with Some s => Str s | None => Null end.

Definition not_configured : Response :=
  (501, Object [obj_str "status" "not_configured"; obj_str "error" "update_manifest_url_not_configured";
    obj_str "message" "Update manifest URL is not configured for this gateway.";
    obj_str "hint" "Set DCC_MCP_UPDATE_MANIFEST_URL or configure update_manifest_url on the gateway."; no_update]).

Definition missing_binary : Response :=
  (400, Object [obj_str "status" "bad_request"; obj_str "error" "missing_binary";
    obj_str "message" "Missing required query parameter: binary."; no_update]).

Definition manifest_error (message : str) : Response :=
  (502, Object [obj_str "status" "manifest_error"; obj_str "error" "failed_to_fetch_update_manifest"; (lit "message", Str message); no_update]).

Definition binary_not_found (binary : str) : Response :=
  (404, Object [obj_str "status" "binary_not_found"; obj_str "error" "binary_not_found";
    (lit "message", Str (lit "Binary '" ++ binary ++ lit "' was not found in the update manifest.")); (lit "binary_name", Str binary); no_update]).

Definition invalid_manifest (binary message : str) : Response :=
  (502, Object [obj_str "status" "manifest_error"; obj_str "error" "invalid_update_manifest"; (lit "message", Str message);
    (lit "binary_name", Str binary); no_update]).

(** The manifest as it was fetched, or the text of the failure. *)
Definition Manifest : Type := result str (gmap str ManifestEntry).

Definition update_available (e : ManifestEntry) (current : str) : bool := GatewayElection.is_newer_version (entry_version e) current.

Definition check_answer (e : ManifestEntry) (binary current : str) : Response :=
  let answer (asset : option (str * str)) :=
    (200, Object [(lit "update_available", Bool (update_available e current)); (lit "latest_version", Str (entry_version e));
      (lit "download_url", opt_text (fst <$> asset)); (lit "sha256", opt_text (snd <$> asset)); (lit "release_notes", opt_text (notes e));
      (lit "current_version", Str current)]) in
  if update_available e current then
    match require_asset e binary with
    | Ok asset => answer (Some asset)
    | Err error => invalid_manifest binary (asset_error_text error)
    end
  else answer None.

(** [GET /v1/update/check]; no manifest when no URL is configured. *)
Definition handle_v1_update_check (manifest : option Manifest) (binary current_version : option str) : Response :=
  match manifest, binary with
  | None, _ => not_configured
  | Some _, None => missing_binary
  | Some (Err message), Some _ => manifest_error message
  | Some (Ok m), Some b =>
      match m !! b with
      | Some e => check_answer e b (default (lit "0.0.0") current_version)
      | None => binary_not_found b
      end
  end.

(** [GET /v1/update/download/{binary_name}]. *)
Definition handle_v1_update_download (manifest : option Manifest) (binary : str) : Response :=
  match manifest with
  | None => not_configured
  | Some (Err message) => manifest_error message
  | Some (Ok m) =>
      match m !! binary with
      | None => binary_not_found binary
      | Some e =>
          match require_asset e binary with
          | Ok (u, d) => (200, Object [(lit "download_url", Str u); (lit "sha256", Str d)])
          | Err error => invalid_manifest binary (asset_error_text error)
          end
      end
  end.

(** ** The client *)

Record UpdateInfo : Type := mkInfo {
  info_available : bool;
  info_current_version : str;
  latest_version : str;
  download_url : option str;
  info_sha256 : option str;
  release_notes : option str;
}.

(** The HTTP client of the updater is not a field here. *)
Record Updater : Type := mkUpdater { gateway_url : str; binary_name : str; current_version : str }.

(** [trim_end_matches('/')], and the address of the check. *)
Definition updater_new (gateway binary version : str) : Updater := mkUpdater (reverse (trim_start_char ch_slash (reverse gateway))) binary version.
Definition check_url (up : Updater) : str :=
  gateway_url up ++ lit "/v1/update/check?binary=" ++ binary_name up ++ lit "&current_version=" ++ current_version up.

(** The JSON payload as [check_update_json] keeps it. *)
Record GatewayUpdateJson : Type := mkPayload { status : Z; success : bool; body : Value }.

Definition value_get (k : str) (v : Value) : option Value := match v with Object m => json_get k m | _ => None end.

Definition gateway_error (status : Z) (body : Value) : UpdateError :=
  Gateway status (default (lit "update_check_failed") (value_get (lit "error") body ≫= as_str))
    (default (lit "Gateway update check failed.") (value_get (lit "message") body ≫= as_str)).

(** The fields of [UpdateCheckResponse], read by serde. *)
Definition read_text (v : option Value) : option str := v ≫= as_str.
Definition read_opt_text (v : option Value) : option (option str) :=
  match v with None | Some Null => Some None | Some (Str s) => Some (Some s) | Some _ => None end.

(** The answer of the gateway: from an object, or from the array of its fields in order. *)
Definition read_check_response (v : Value) : option (bool * str * option str * option str * option str) :=
  let fields (a l u s n : option Value) :=
    b ← a ≫= as_bool; t ← read_text l; u ← read_opt_text u; s ← read_opt_text s; n ← read_opt_text n; Some (b, t, u, s, n) in
  match v with
  | Object m => fields (json_get (lit "update_available") m) (json_get (lit "latest_version") m) (json_get (lit "download_url") m)
                  (json_get (lit "sha256") m) (json_get (lit "release_notes") m)
  | Array [a; l; u; s; n] => fields (Some a) (Some l) (Some u) (Some s) (Some n)
  | _ => None
  end.

Definition update_info_from_payload (up : Updater) (p : GatewayUpdateJson) : result UpdateError UpdateInfo :=
  if negb (success p) || bool_decide (is_Some (value_get (lit "error") (body p))) then Err (gateway_error (status p) (body p))
  else
    match read_check_response (body p) with
    | None => Err JsonError
    | Some (available, latest, u, s, n) =>
        if available then
          match not_blank u with
          | None => Err (MissingDownloadUrl (binary_name up))
          | Some u => let? d := require_digest (binary_name up) s in Ok (mkInfo true (current_version up) latest (Some u) (Some d) n)
          end
        else Ok (mkInfo false (current_version up) latest None None n)
    end.

(** [map.entry(k).or_insert_with(v)]. *)
Definition or_insert (k v : str) (m : JsonMap) : JsonMap := match json_get k m with Some _ => m | None => json_insert k (Str v) m end.

(** What the client makes of an answer of the gateway. *)
Definition check_update_json (up : Updater) (r : Response) : result UpdateError GatewayUpdateJson :=
  let (st, v) := r in
  let v := match v with
           | Object m => Object (or_insert (lit "binary_name") (binary_name up) (or_insert (lit "current_version") (current_version up) m))
           | v => v
           end in
  let p := mkPayload st ((200 <=? st) && (st <=? 299)) v in
  if success p && negb (bool_decide (is_Some (value_get (lit "error") v))) then let? _ := update_info_from_payload up p in Ok p else Ok p.

Definition check_update (up : Updater) (r : Response) : result UpdateError UpdateInfo :=
  let? p := check_update_json up r in update_info_from_payload up p.

(** *** Over HTTP

    The address is put together without encoding; the [url] and [reqwest] packages parse
    and send it, and the [axum] and [serde_urlencoded] packages of the gateway decode its
    query.  Of these packages we rely on the rules of [application/x-www-form-urlencoded]
    for visible ASCII characters other than [#] and [%]. *)

(** [CheckQuery] as serde reads it from decoded pairs: other names are ignored, a repeated
    one is refused. *)
Fixpoint read_check_query (pairs : list (str * str)) (binary current_version : option str) : option (option str * option str) :=
  match pairs with
  | [] => Some (binary, current_version)
  | (k, v) :: pairs =>
      if bool_decide (k = lit "binary") then
        match binary with Some _ => None | None => read_check_query pairs (Some v) current_version end
      else if bool_decide (k = lit "current_version") then
        match current_version with Some _ => None | None => read_check_query pairs binary (Some v) end
      else read_check_query pairs binary current_version
  end.

(** The decoding of a query by the rules of the form encoding: pairs are separated by [&],
    name and value by the first [=], and [+] is a space. *)
Definition form_text (s : str) : str := map (fun c => if c =? 43 then 32 else c) s.
Definition form_pair (s : str) : str * str :=
  match split_once (lit "=") s with Some (k, v) => (form_text k, form_text v) | None => (form_text s, []) end.
Definition form_pairs (q : str) : list (str * str) := map form_pair (base.filter (fun p => p <> []) (split_char 38 q)).

(** A visible ASCII character other than [#] and [%]. *)
Definition query_char (c : Z) : Prop := in_range 33 126 c = true /\ c <> 35 /\ c <> 37.

(** [query_of u]: the decoded pairs with which a request for [u] reaches the check of the
    gateway; none when it cannot be sent or does not reach it.  [reaches]: the base
    addresses at which the gateway answers. *)
Class Transport : Type := {
  query_of : str -> option (list (str * str));
  reaches : str -> Prop;
  query_of_form : forall base q, reaches base -> Forall query_char q ->
    query_of (base ++ lit "/v1/update/check?" ++ q) = Some (form_pairs q);
}.

(** What the gateway is asked about: none when the request fails, or is refused with a
    text that is no JSON. *)
Definition asked {tr : Transport} (up : Updater) : option (option str * option str) :=
  pairs ← query_of (check_url up); read_check_query pairs None None.

(** The whole exchange. *)
Definition check_over {tr : Transport} (manifest : option Manifest) (up : Updater) : result UpdateError UpdateInfo :=
  match asked up with
  | None => Err Http
  | Some (binary, version) => check_update up (handle_v1_update_check manifest binary version)
  end.

(** *** Downloads *)

Definition MAX_UPDATE_BYTES : Z := 256 * 1024 * 1024.

(** A chunk of the body, or a broken transfer. *)
Definition Chunk : Type := option str.

Fixpoint receive (total : Z) (got : str) (chunks : list Chunk) : result UpdateError (Z * str) :=
  match chunks with
  | [] => Ok (total, got)
  | None :: _ => Err Http
  | Some c :: chunks =>
      let total := sat_add u64_max total (Z.of_nat (length c)) in
      if MAX_UPDATE_BYTES <? total then Err (DownloadTooLarge MAX_UPDATE_BYTES) else receive total (got ++ c) chunks
  end.

(** The content that is persisted as [<binary>.download]: the response has a status, a
    length it announces or not, and chunks; [None] is a request that failed. *)
Definition download_verified_update {sha : Sha256} (up : Updater) (info : UpdateInfo) (response : option (Z * option Z * list Chunk)) : result UpdateError str :=
  let? _ := validate_binary_name (binary_name up) in
  let? expected := require_digest (binary_name up) (info_sha256 info) in
  match not_blank (download_url info) with
  | None => Err (MissingDownloadUrl (binary_name up))
  | Some _ =>
      match response with
      | None => Err Http
      | Some (st, announced, chunks) =>
          if (400 <=? st) && (st <=? 599) then Err Http
          else if match announced with Some n => MAX_UPDATE_BYTES <? n | None => false end then Err (DownloadTooLarge MAX_UPDATE_BYTES)
          else
            let? received := receive 0 [] chunks in
            let (total, got) := received : Z * str in
            if total =? 0 then Err EmptyDownload
            else if bool_decide (sha256 got = expected) then Ok got
            else Err (ChecksumMismatch expected (sha256 got))
      end
  end.

(** [resolve_release_update]: the entry of one exact version.  The other errors are those
    of fetching the manifest, with their text. *)
Inductive UpdateManifestError : Type := InvalidEntry (binary_name reason : str) | FetchFailed (message : str).

Definition resolve_release_update (m : Manifest) (binary_name version : str) : result UpdateManifestError UpdateInfo :=
  match m with
  | Err message => Err (FetchFailed message)
  | Ok m =>
      match m !! binary_name with
      | None => Err (InvalidEntry binary_name (lit "binary is missing"))
      | Some e =>
          if negb (bool_decide (entry_version e = version)) then
            Err (InvalidEntry binary_name (lit "expected version " ++ version ++ lit ", received " ++ entry_version e))
          else match require_asset e binary_name with
               | Ok (u, d) => Ok (mkInfo true version (entry_version e) (Some u) (Some d) (notes e))
               | Err x => Err (InvalidEntry binary_name (asset_error_text x))
               end
      end
  end.

(** ** What the client learns *)

Lemma lowercase_hexdigit c : is_ascii_hexdigit c = true -> is_ascii_hexdigit (ascii_lowercase c) = true /\ ascii_lowercase (ascii_lowercase c) = ascii_lowercase c.
Proof.
  intros Hc. unfold ascii_lowercase. destruct (is_ascii_uppercase c) eqn:E; [|by rewrite E].
  assert (is_ascii_uppercase (c + 32) = false) as -> by (bool_to_prop; revert E; char_lia). split; [|done]. revert Hc E. char_lia.
Qed.

Lemma lowercase_sha v : valid_sha v = true -> valid_sha (to_ascii_lowercase_str v) = true /\ to_ascii_lowercase_str (to_ascii_lowercase_str v) = to_ascii_lowercase_str v.
Proof.
  unfold valid_sha, to_ascii_lowercase_str. rewrite !andb_true_iff, length_map, !forallb_forall. intros [Hl Hh]. split.
  - split; [done|]. intros c (x & <- & Hx)%in_map_iff. by apply lowercase_hexdigit, Hh.
  - rewrite map_map. apply map_ext_in. intros c Hc. by apply lowercase_hexdigit, Hh.
Qed.

(** A required digest is required again unchanged, a present text is present. *)
Lemma require_again b b' v d : require_digest b v = Ok d -> require_digest b' (Some d) = Ok d.
Proof.
  unfold require_digest. destruct v as [v|]; [|done]. destruct (valid_sha v) eqn:E; [|done]. intros [= <-].
  destruct (lowercase_sha v E) as [-> ->]. done.
Qed.

Lemma not_blank_again o u : not_blank o = Some u -> not_blank (Some u) = Some u.
Proof. unfold not_blank. destruct o as [x|]; [|done]. case_bool_decide as E; [done|]. intros [= ->]. by rewrite bool_decide_eq_false_2. Qed.

Lemma read_opt o : read_opt_text (Some (opt_text o)) = Some o.
Proof. by destruct o. Qed.

(** What the client makes of a successful answer. *)
Definition accepted (up : Updater) (available : bool) (latest : str) (u s n : option str) : result UpdateError UpdateInfo :=
  if available then
    match not_blank u with
    | None => Err (MissingDownloadUrl (binary_name up))
    | Some u => let? d := require_digest (binary_name up) s in Ok (mkInfo true (current_version up) latest (Some u) (Some d) n)
    end
  else Ok (mkInfo false (current_version up) latest None None n).

Lemma answer_accepted up b l u s n c :
  check_update up (200, Object [(lit "update_available", Bool b); (lit "latest_version", Str l); (lit "download_url", opt_text u);
    (lit "sha256", opt_text s); (lit "release_notes", opt_text n); (lit "current_version", Str c)]) = accepted up b l u s n.
Proof.
  assert (H : forall st v, update_info_from_payload up (mkPayload st true (Object [(lit "update_available", Bool b); (lit "latest_version", Str l);
    (lit "download_url", opt_text u); (lit "sha256", opt_text s); (lit "release_notes", opt_text n); (lit "current_version", Str c); (lit "binary_name", v)])) = accepted up b l u s n).
  { intros st v. unfold update_info_from_payload. cbn [success body negb orb].
    change (bool_decide (is_Some (value_get _ _))) with false. cbv iota.
    change (read_check_response _) with (u ← read_opt_text (Some (opt_text u)); s ← read_opt_text (Some (opt_text s)); n ← read_opt_text (Some (opt_text n)); Some (b, l, u, s, n)).
    by rewrite !read_opt. }
  unfold check_update, check_update_json.
  change (or_insert (lit "binary_name") _ _) with [(lit "update_available", Bool b); (lit "latest_version", Str l); (lit "download_url", opt_text u);
    (lit "sha256", opt_text s); (lit "release_notes", opt_text n); (lit "current_version", Str c); (lit "binary_name", Str (binary_name up))].
  change ((200 <=? 200) && (200 <=? 299)) with true. cbn [success].
  change (bool_decide (is_Some (value_get _ _))) with false. cbn [negb andb]. rewrite H.
  destruct (accepted up b l u s n) eqn:E; [|done]. cbn [rbind]. apply H.
Qed.

(** What the client makes of the answer about the binary and version that were asked for. *)
Lemma check_answered up m b current :
  check_update up (handle_v1_update_check (Some (Ok m)) (Some b) current) =
  match m !! b with
  | None => Err (Gateway 404 (lit "binary_not_found") (lit "Binary '" ++ b ++ lit "' was not found in the update manifest."))
  | Some e =>
      if update_available e (default (lit "0.0.0") current) then
        match require_asset e b with
        | Ok (u, d) => Ok (mkInfo true (current_version up) (entry_version e) (Some u) (Some d) (notes e))
        | Err x => Err (Gateway 502 (lit "invalid_update_manifest") (asset_error_text x))
        end
      else Ok (mkInfo false (current_version up) (entry_version e) None None (notes e))
  end.
Proof.
  cbn [handle_v1_update_check]. destruct (m !! b) as [e|]; [|reflexivity].
  unfold check_answer. cbv zeta.
  destruct (update_available e (default (lit "0.0.0") current)) eqn:Eu; [|by rewrite answer_accepted].
  destruct (require_asset e b) as [[u d]|x] eqn:Ea; [|reflexivity].
  unfold require_asset in Ea. destruct (not_blank (url e)) as [u'|] eqn:Eb; [|done].
  destruct (require_digest b (sha256_of e)) as [d'|] eqn:Ed; [|done]. injection Ea as -> ->.
  rewrite answer_accepted. unfold accepted. cbn [fmap option_fmap option_map fst snd].
  by rewrite (not_blank_again _ _ Eb), (require_again _ (binary_name up) _ _ Ed).
Qed.

(** A text that the form encoding leaves as it is. *)
Definition verbatim (s : str) : Prop := Forall (fun c => query_char c /\ c <> 38 /\ c <> 43) s.

Lemma form_text_verbatim s : verbatim s -> form_text s = s.
Proof.
  intros Hs. unfold form_text. rewrite <- (map_id s) at 2. apply map_ext_in. intros c Hc%list_elem_of_In.
  destruct (proj1 (Forall_forall _ _) Hs c Hc) as (_ & _ & H). by rewrite (proj2 (Z.eqb_neq _ _)).
Qed.

Lemma split_char_first c (a s : str) : Forall (fun x => x <> c) a -> split_char c (a ++ c :: s) = a :: split_char c s.
Proof.
  induction 1 as [|x a Hx Ha IH]; cbn [app split_char]; [by rewrite Z.eqb_refl|].
  rewrite (proj2 (Z.eqb_neq x c)) by done. by rewrite IH.
Qed.

(** The query of the client, for a name and a version the encoding leaves alone. *)
Lemma form_pairs_check b v : verbatim b -> verbatim v ->
  form_pairs (lit "binary=" ++ b ++ lit "&current_version=" ++ v) = [(lit "binary", b); (lit "current_version", v)].
Proof.
  intros Hb Hv. assert (Hamp : forall l s, Forall (fun x => x <> 38) l -> verbatim s -> Forall (fun x => x <> 38) (l ++ s)).
  { intros l s Hl Hs. apply Forall_app. split; [done|]. eapply Forall_impl; [exact Hs|]. by intros c (_ & ? & _). }
  unfold form_pairs.
  replace (lit "binary=" ++ b ++ lit "&current_version=" ++ v) with ((lit "binary=" ++ b) ++ 38 :: (lit "current_version=" ++ v))
    by (rewrite <- (assoc_L (++)); reflexivity).
  rewrite split_char_first, split_char_absent by (apply Hamp; [by repeat constructor|done]).
  change (lit "binary=") with (lit "binary" ++ lit "="). change (lit "current_version=") with (lit "current_version" ++ lit "=").
  rewrite <- !(assoc_L (++)). rewrite !filter_cons_True by done. cbn [base.filter list_filter map]. unfold form_pair.
  change (lit "=") with [61]. rewrite (split_once_app 61 [] (lit "binary") b), (split_once_app 61 [] (lit "current_version") v) by (by repeat constructor).
  rewrite (form_text_verbatim b), (form_text_verbatim v) by done. reflexivity.
Qed.

Lemma verbatim_query l s : Forall query_char l -> verbatim s -> Forall query_char (l ++ s).
Proof. intros Hl Hs. apply Forall_app. split; [done|]. eapply Forall_impl; [exact Hs|]. by intros c [? _]. Qed.

(** C16: what a client learns when it asks a gateway, whatever its manifest and whatever
    becomes of the address on the way: a request that fails or is refused is an HTTP error;
    a gateway without a manifest, a query without a binary, a manifest that could not be
    fetched, an entry that is missing and a newer entry whose asset is incomplete are the
    errors the gateway reports; otherwise an update is reported exactly when the entry of
    the binary asked for is newer than the version asked for by the gateway's order, with
    the address and the canonical digest of the entry.  At an address that reaches the
    gateway the query is decoded by the rules of the form encoding; a name and a version
    of visible ASCII characters other than [#], [%], [&] and [+] are asked as they are. *)
Theorem check_protocol {tr : Transport} (manifest : option Manifest) (up : Updater) :
  check_over manifest up =
    match asked up with
    | None => Err Http
    | Some (binary, version) =>
        match manifest, binary with
        | None, _ => Err (Gateway 501 (lit "update_manifest_url_not_configured") (lit "Update manifest URL is not configured for this gateway."))
        | Some _, None => Err (Gateway 400 (lit "missing_binary") (lit "Missing required query parameter: binary."))
        | Some (Err message), Some _ => Err (Gateway 502 (lit "failed_to_fetch_update_manifest") message)
        | Some (Ok m), Some b =>
            match m !! b with
            | None => Err (Gateway 404 (lit "binary_not_found") (lit "Binary '" ++ b ++ lit "' was not found in the update manifest."))
            | Some e =>
                if update_available e (default (lit "0.0.0") version) then
                  match require_asset e b with
                  | Ok (u, d) => Ok (mkInfo true (current_version up) (entry_version e) (Some u) (Some d) (notes e))
                  | Err x => Err (Gateway 502 (lit "invalid_update_manifest") (asset_error_text x))
                  end
                else Ok (mkInfo false (current_version up) (entry_version e) None None (notes e))
            end
        end
    end /\
  (reaches (gateway_url up) -> verbatim (binary_name up) -> verbatim (current_version up) ->
   asked up = Some (Some (binary_name up), Some (current_version up))).
Proof.
  split.
  - unfold check_over. destruct (asked up) as [[binary version]|]; [|done].
    destruct manifest as [[m|message]|]; [|by destruct binary..]. destruct binary as [b|]; [|done]. apply check_answered.
  - intros Hr Hb Hv. unfold asked, check_url.
    change (lit "/v1/update/check?binary=") with (lit "/v1/update/check?" ++ lit "binary="). rewrite <- !(assoc_L (++)).
    rewrite query_of_form; [|done|].
    + cbn [mbind option_bind]. by rewrite form_pairs_check.
    + rewrite (assoc_L (++)), (assoc_L (++)). apply verbatim_query; [|done]. rewrite <- (assoc_L (++)).
      rewrite (assoc_L (++)). apply Forall_app. split; [apply verbatim_query; [by repeat constructor|done]|by repeat constructor].
Qed.

(** A transport that follows the rules for every query. *)
Definition demo_base : str := lit "http://gateway".
#[local, refine] Instance demo_transport : Transport := {
  query_of u := form_pairs <$> strip_prefix (demo_base ++ lit "/v1/update/check?") u;
  reaches b := b = demo_base;
}.
Proof. intros b q -> _. by rewrite (assoc_L (++)), strip_prefix_app. Defined.

Definition demo_manifest : option Manifest :=
  Some (Ok {[lit "dcc-mcp-cli" := mkManifestEntry (lit "1.2.0") (Some (lit "https://x/cli")) None None]}).

(** A newer entry without a digest is an error; a name with a plus sign is asked as another one. *)
Lemma check_protocol_witness :
  check_over demo_manifest (updater_new (lit "http://gateway/") (lit "dcc-mcp-cli") (lit "1.1.0")) =
    Err (Gateway 502 (lit "invalid_update_manifest") (lit "Update manifest entry for dcc-mcp-cli is missing a required SHA-256 digest")) /\
  check_over demo_manifest (updater_new (lit "http://gateway/") (lit "dcc+cli") (lit "1.1.0")) =
    Err (Gateway 404 (lit "binary_not_found") (lit "Binary 'dcc cli' was not found in the update manifest.")).
Proof.
  split.
  - destruct (check_protocol demo_manifest (updater_new (lit "http://gateway/") (lit "dcc-mcp-cli") (lit "1.1.0"))) as [-> Hasked].
    rewrite Hasked; [by vm_compute|by vm_compute|by repeat constructor..].
  - destruct (check_protocol demo_manifest (updater_new (lit "http://gateway/") (lit "dcc+cli") (lit "1.1.0"))) as [-> _]. by vm_compute.
Defined.

(** ** What is persisted *)

Lemma receive_exact chunks : forall total got,
  0 <= total <= MAX_UPDATE_BYTES -> total = Z.of_nat (length got) ->
  forall t g, receive total got chunks = Ok (t, g) <->
    exists cs, chunks = map Some cs /\ g = got ++ concat cs /\ t = Z.of_nat (length g) /\ t <= MAX_UPDATE_BYTES.
Proof.
  induction chunks as [|[c|] chunks IH]; intros total got Hb Ht t g; cbn [receive].
  - split.
    + intros [= <- <-]. exists []. cbn. rewrite app_nil_r. repeat split; lia.
    + intros (cs & E & -> & -> & _). destruct cs; [|done]. cbn. by rewrite app_nil_r, Ht.
  - assert (Hmax : MAX_UPDATE_BYTES = 268435456) by reflexivity.
    assert (Hsat : sat_add u64_max total (Z.of_nat (length c)) = Z.min (total + Z.of_nat (length c)) u64_max) by reflexivity.
    assert (Hu : u64_max = 18446744073709551615) by reflexivity.
    destruct (MAX_UPDATE_BYTES <? sat_add u64_max total (Z.of_nat (length c))) eqn:E.
    + split; [done|]. intros (cs & Ec & -> & -> & Hle). destruct cs as [|c' cs]; [done|]. injection Ec as <- _. apply Z.ltb_lt in E.
      cbn [concat] in Hle. rewrite !length_app in Hle. lia.
    + apply Z.ltb_ge in E. rewrite IH; [|lia|rewrite length_app; lia]. split.
      * intros (cs & -> & -> & -> & Hle). exists (c :: cs). cbn [map concat]. rewrite app_assoc. done.
      * intros (cs & Ec & -> & -> & Hle). destruct cs as [|c' cs]; [done|]. injection Ec as <- ->. exists cs. cbn [concat] in *. rewrite app_assoc in *. done.
  - split; [done|]. intros (cs & E & _). by destruct cs.
Qed.

Lemma transfer_exact {sha : Sha256} (d : str) chunks got :
  (let? received := receive 0 [] chunks in
   let (total, got) := received : Z * str in
   if total =? 0 then Err EmptyDownload
   else if bool_decide (sha256 got = d) then Ok got
   else Err (ChecksumMismatch d (sha256 got))) = Ok got <->
  exists cs, chunks = map Some cs /\ got = concat cs /\ 0 < Z.of_nat (length got) <= MAX_UPDATE_BYTES /\ d = sha256 got.
Proof.
  assert (H0 : 0 <= 0 <= MAX_UPDATE_BYTES) by done. pose proof (receive_exact chunks 0 [] H0 eq_refl) as H. split.
  - destruct (receive 0 [] chunks) as [[t g]|e]; cbn [rbind]; [|done]. destruct (proj1 (H t g) eq_refl) as (cs & -> & Hg & Ht & Hle). cbn [app] in Hg.
    destruct (t =? 0) eqn:E0; [done|]. case_bool_decide as Ed; [|done]. intros [= <-]. exists cs. apply Z.eqb_neq in E0.
    split; [done|split; [done|split; [lia|done]]].
  - intros (cs & -> & Hg & Hle & ->). rewrite (proj2 (H (Z.of_nat (length got)) got)); [|exists cs; repeat split; [done|lia]].
    cbn [rbind]. rewrite (proj2 (Z.eqb_neq _ _)) by lia. by rewrite bool_decide_eq_true_2.
Qed.

(** A download persists exactly the bytes of a complete response of 1 byte to 256 MiB
    whose SHA-256 is the digest that the information names, for a portable binary name;
    nothing else is ever persisted. *)
Theorem download_exact {sha : Sha256} up info response got :
  download_verified_update up info response = Ok got <->
  validate_binary_name (binary_name up) = Ok tt /\ is_Some (not_blank (download_url info)) /\
  exists st announced cs, response = Some (st, announced, map Some cs) /\ (st < 400 \/ 599 < st) /\
    (forall n, announced = Some n -> n <= MAX_UPDATE_BYTES) /\
    got = concat cs /\ 0 < Z.of_nat (length got) <= MAX_UPDATE_BYTES /\
    require_digest (binary_name up) (info_sha256 info) = Ok (sha256 got).
Proof.
  unfold download_verified_update. destruct (validate_binary_name (binary_name up)) as [[]|e]; cbn [rbind]; [|naive_solver].
  destruct (require_digest (binary_name up) (info_sha256 info)) as [d|e]; cbn [rbind]; [|naive_solver].
  destruct (not_blank (download_url info)) as [u|]; [|split; [done|by intros (_ & [? ?] & _)]].
  destruct response as [[[st an] chunks]|]; [|naive_solver].
  destruct ((400 <=? st) && (st <=? 599)) eqn:Es.
  { split; [done|]. intros (_ & _ & st' & an' & cs & [= <- <- _] & Hst & _). apply andb_true_iff in Es as [?%Z.leb_le ?%Z.leb_le]. lia. }
  destruct (match an with Some n => MAX_UPDATE_BYTES <? n | None => false end) eqn:En.
  { split; [done|]. intros (_ & _ & st' & an' & cs & [= <- <- _] & _ & Han & _). destruct an as [n|]; [|done]. apply Z.ltb_lt in En. specialize (Han n eq_refl). lia. }
  rewrite transfer_exact. split.
  - intros (cs & -> & Hg & Hle & ->). split; [done|split; [done|]]. exists st, an, cs. split; [done|].
    apply andb_false_iff in Es. split; [destruct Es as [?%Z.leb_gt|?%Z.leb_gt]; lia|]. split; [|done].
    intros n ->. by apply Z.ltb_ge in En.
  - intros (_ & _ & st' & an' & cs & [= <- <- ->] & _ & _ & Hg & Hle & [= ->]). exists cs. done.
Qed.
