(* ===== verification/Wire.v ===== *)
(** Decoding and validation of tool calls, [dcc-mcp-wire/src/]: [normalize.rs], [validate.rs],
    [wire.rs] and the errors of [error.rs]. *)

From S2P Require Import Prelude Text Json.

Local Open Scope Z_scope.

(** [serde_json::from_str] to a value, with the text of its error. *)
Class JsonReader : Type := from_str : str -> result str Value.

(** ** Errors *)

Inductive WireError : Type :=
| ArgumentsNotObject (kind : str)
| ArgumentsStringNotJson (reason : str)
| ArgumentsDecodedNotObject (kind : str)
| MissingField (field : str)
| InvalidToolSlug (reason : str)
| SchemaValidationFailed (reason : str)
| DoubleStringified (path : str)
| EnvelopeNotObject
| BatchItemInvalid (index : nat) (reason : str).

Definition kind (e : WireError) : str :=
  match e with
  | ArgumentsNotObject _ => lit "arguments-not-object"
  | ArgumentsStringNotJson _ => lit "arguments-string-not-json"
  | ArgumentsDecodedNotObject _ => lit "arguments-decoded-not-object"
  | MissingField _ => lit "missing-field"
  | InvalidToolSlug _ => lit "invalid-tool-slug"
  | SchemaValidationFailed _ => lit "schema-validation-failed"
  | DoubleStringified _ => lit "double-stringified"
  | EnvelopeNotObject => lit "envelope-not-object"
  | BatchItemInvalid _ _ => lit "batch-item-invalid"
  end.

(** [to_string], derived from the [#[error]] attributes. *)
Definition message (e : WireError) : str :=
  match e with
  | ArgumentsNotObject k => lit "arguments must be a JSON object, got " ++ k
  | ArgumentsStringNotJson r => lit "arguments string is not valid JSON: " ++ r
  | ArgumentsDecodedNotObject k => lit "arguments decoded string is " ++ k ++ lit ", expected object"
  | MissingField f => lit "missing field `" ++ f ++ lit "` in request envelope"
  | InvalidToolSlug r => lit "tool_slug is invalid: " ++ r
  | SchemaValidationFailed r => lit "input schema validation failed: " ++ r
  | DoubleStringified p => lit "double-stringified payload detected at `" ++ p ++ lit "`"
  | EnvelopeNotObject => lit "request envelope is not a JSON object"
  | BatchItemInvalid i r => lit "batch item " ++ print_u64 (Z.of_nat i) ++ lit ": " ++ r
  end.

Definition hint (e : WireError) : str :=
  match e with
  | ArgumentsNotObject k => lit "pass arguments as a JSON object {}, not " ++ k
  | ArgumentsStringNotJson r => lit "parse arguments string as JSON before sending: " ++ r
  | ArgumentsDecodedNotObject k => lit "the string in arguments field decoded to " ++ k ++ lit ", expected object"
  | MissingField f => lit "add `" ++ f ++ lit "` field to the request envelope"
  | InvalidToolSlug r => lit "use a valid tool slug from /v1/search: " ++ r
  | SchemaValidationFailed r => lit "check tool input schema via POST /v1/describe: " ++ r
  | DoubleStringified p => lit "avoid double-serializing the payload at `" ++ p ++ lit "`"
  | EnvelopeNotObject => lit "the request body must be a JSON object"
  | BatchItemInvalid i r => lit "fix item[" ++ print_u64 (Z.of_nat i) ++ lit "]: " ++ r
  end.

(** ** Normalisation *)

Definition value_kind (v : Value) : str :=
  match v with
  | Null => lit "null"
  | Bool _ => lit "boolean"
  | Num _ => lit "number"
  | Str _ => lit "string"
  | Array _ => lit "array"
  | Object _ => lit "object"
  end.

Section Wire.
Context {reader : JsonReader}.

(** The object a string holds, or [None] of a blank one. *)
Definition decode_string (prefix s : str) : result WireError (option JsonMap) :=
  let trimmed := trim s in
  if bool_decide (trimmed = []) then Ok None
  else match from_str trimmed with
       | Err e => Err (ArgumentsStringNotJson (prefix ++ e))
       | Ok (Object m) => Ok (Some m)
       | Ok v => Err (ArgumentsDecodedNotObject (value_kind v))
       end.

Definition normalize_arguments (arguments : option Value) : result WireError Value :=
  match arguments with
  | None | Some Null => Ok (Object [])
  | Some (Object m) => Ok (Object m)
  | Some (Str s) => let? m := decode_string [] s in Ok (Object (default [] m))
  | Some other => Err (ArgumentsNotObject (value_kind other))
  end.

Definition normalize_meta (meta : option Value) : result WireError (option JsonMap) :=
  match meta with
  | None | Some Null => Ok None
  | Some (Object m) => Ok (Some m)
  | Some (Str s) => decode_string (lit "_meta: ") s
  | Some other => Err (ArgumentsNotObject (value_kind other))
  end.

(** ** Validation *)

Definition validate_arguments_shape (arguments : Value) : result WireError unit :=
  match arguments with Object _ => Ok tt | other => Err (ArgumentsNotObject (value_kind other)) end.

Fixpoint require_all (args : JsonMap) (required : list Value) : result WireError unit :=
  match required with
  | [] => Ok tt
  | Str field :: required =>
      match json_get field args with
      | Some _ => require_all args required
      | None => Err (SchemaValidationFailed (lit "missing required field: " ++ field))
      end
  | _ :: required => require_all args required
  end.

Definition validate_arguments (arguments : Value) (input_schema : option Value) : result WireError unit :=
  match input_schema with
  | Some (Object schema) =>
      match json_get (lit "type") schema with
      | Some (Str type_) =>
          if bool_decide (type_ = lit "object") then
            match json_get (lit "required") schema, arguments with
            | Some (Array required), Object args => require_all args required
            | _, _ => Ok tt
            end
          else Ok tt
      | _ => Ok tt
      end
  | _ => Ok tt
  end.

Definition validate_call_tool_params (name : option str) (arguments : option Value) (input_schema : option Value) : result WireError Value :=
  match name with
  | None => Err (MissingField (lit "name"))
  | Some [] => Err (InvalidToolSlug (lit "tool name must not be empty"))
  | Some _ =>
      let? normalised := normalize_arguments arguments in
      let? _ := validate_arguments_shape normalised in
      let? _ := validate_arguments normalised input_schema in
      Ok normalised
  end.

(** [obj.get(a).or_else(|| obj.get(b))]. *)
Definition get_either (a b : str) (o : JsonMap) : option Value := match json_get a o with Some v => Some v | None => json_get b o end.

Definition required_string {E} (v : option Value) (e : E) : result E str := match v ≫= as_str with Some s => Ok s | None => Err e end.

(** One item of a batch, whose errors carry its index. *)
Definition in_batch {A} (index : nat) (r : result WireError A) : result WireError A := map_err (fun e => BatchItemInvalid index (message e)) r.

Definition validate_batch_item (index : nat) (call : Value) : result WireError (str * Value) :=
  match call with
  | Object o =>
      let? name := required_string (get_either (lit "name") (lit "tool_slug") o) (BatchItemInvalid index (lit "missing `name` or `tool_slug` field")) in
      let? normalised := in_batch index (normalize_arguments (get_either (lit "arguments") (lit "params") o)) in
      let? _ := in_batch index (validate_arguments_shape normalised) in
      Ok (name, normalised)
  | _ => Err (BatchItemInvalid index (lit "each batch item must be a JSON object"))
  end.

(** A loop over the items that stops at the first error. *)
Fixpoint each_item {A} (f : nat -> Value -> result WireError A) (index : nat) (calls : list Value) : result WireError (list A) :=
  match calls with
  | [] => Ok []
  | call :: calls =>
      let? a := f index call in
      let? rest := each_item f (S index) calls in
      Ok (a :: rest)
  end.

Definition validate_call_batch_params (calls : list Value) : result WireError (list (str * Value)) := each_item validate_batch_item 0 calls.

(** ** Envelopes *)

Abbreviation DecodedCall := (str * Value * option JsonMap)%type.

Definition decode_call_tool (request : Value) : result WireError DecodedCall :=
  match request with
  | Object o =>
      match json_get (lit "params") o with
      | None => Err (MissingField (lit "params"))
      | Some (Object params) =>
          let? name := required_string (json_get (lit "name") params) (MissingField (lit "name")) in
          let? normalised := normalize_arguments (json_get (lit "arguments") params) in
          let? meta := normalize_meta (json_get (lit "_meta") params) in
          Ok (name, normalised, meta)
      | Some _ => Err (MissingField (lit "params (must be object)"))
      end
  | _ => Err EnvelopeNotObject
  end.

Definition decode_rest_call (request : Value) : result WireError DecodedCall :=
  match request with
  | Object o =>
      let? name := required_string (get_either (lit "tool_slug") (lit "name") o) (MissingField (lit "tool_slug (or name)")) in
      let? normalised := normalize_arguments (get_either (lit "arguments") (lit "params") o) in
      let? meta := normalize_meta (json_get (lit "_meta") o) in
      Ok (name, normalised, meta)
  | _ => Err EnvelopeNotObject
  end.

Definition parse_json_rpc_batch (payload : Value) : result WireError (list Value) :=
  match payload with
  | Array items => Ok items
  | Object _ => Ok [payload]
  | _ => Err EnvelopeNotObject
  end.

Definition normalize_batch_item (index : nat) (call : Value) : result WireError DecodedCall :=
  match call with
  | Object o =>
      let? slug := required_string (get_either (lit "tool_slug") (lit "name") o) (BatchItemInvalid index (lit "missing `tool_slug` or `name`")) in
      let? normalised := in_batch index (normalize_arguments (get_either (lit "arguments") (lit "params") o)) in
      let? meta := in_batch index (normalize_meta (json_get (lit "_meta") o)) in
      Ok (slug, normalised, meta)
  | _ => Err (BatchItemInvalid index (lit "each call must be a JSON object"))
  end.

Definition normalize_call_batch (payload : Value) : result WireError (list DecodedCall) :=
  match payload with
  | Array calls => each_item normalize_batch_item 0 calls
  | Object o =>
      match json_get (lit "calls") o with
      | Some (Array calls) => each_item normalize_batch_item 0 calls
      | _ => Err (MissingField (lit "calls (array)"))
      end
  | _ => Err EnvelopeNotObject
  end.

(** A map with an entry more when there is a value. *)
Definition insert_some (k : str) (v : option Value) (m : JsonMap) : JsonMap := match v with Some v => json_insert k v m | None => m end.

Definition encode_call_tool_result (content_text : str) (is_error : bool) (structured : option Value) (meta : option JsonMap) : Value :=
  Object (insert_some (lit "_meta") (Object <$> meta) (insert_some (lit "structuredContent") structured
    [(lit "content", Array [Object [(lit "type", Str (lit "text")); (lit "text", Str content_text)]]); (lit "isError", Bool is_error)])).

Definition encode_rest_call_response (slug : str) (output : Value) (validation_skipped : bool) (request_id : str) : Value :=
  Object [(lit "slug", Str slug); (lit "output", output); (lit "validation_skipped", Bool validation_skipped); (lit "request_id", Str request_id)].

Definition encode_error_response (e : WireError) (request_id : option str) : Value :=
  Object (insert_some (lit "request_id") (Str <$> request_id)
    [(lit "kind", Str (kind e)); (lit "message", Str (message e)); (lit "hint", Str (hint e))]).

(** ** What the decoders agree on *)

Lemma required_string_Ok {E} v (e : E) s : required_string v e = Ok s <-> v ≫= as_str = Some s.
Proof. unfold required_string. destruct (v ≫= as_str); naive_solver. Qed.

(** Arguments come out as an object, which normalises to itself. *)
Lemma normalize_object o v : normalize_arguments o = Ok v -> exists m, v = Object m /\ normalize_arguments (Some v) = Ok v.
Proof.
  destruct o as [[| | |s| |m]|]; cbn [normalize_arguments]; try done; try (intros [= <-]; by eexists).
  destruct (decode_string [] s) as [m|e]; [|done]. intros [= <-]. by eexists.
Qed.

(** Arguments sent as the text of an object mean the object. *)
Lemma normalize_text s m : trim s <> [] -> from_str (trim s) = Ok (Object m) -> normalize_arguments (Some (Str s)) = normalize_arguments (Some (Object m)).
Proof. intros Hs E. cbn [normalize_arguments]. unfold decode_string. by rewrite bool_decide_eq_false_2, E. Qed.

Lemma each_item_Ok {A} (f : nat -> Value -> result WireError A) i calls rs :
  each_item f i calls = Ok rs <-> length rs = length calls /\ forall n c r, calls !! n = Some c -> rs !! n = Some r -> f (i + n)%nat c = Ok r.
Proof.
  revert i rs. induction calls as [|c calls IH]; intros i rs; cbn [each_item].
  - split; [by intros [= <-]|]. intros [Hl _]. by destruct rs.
  - destruct (f i c) as [a|e] eqn:Ef; cbn [rbind].
    + destruct (each_item f (S i) calls) as [rest|e] eqn:Er; cbn [rbind].
      * pose proof (proj1 (IH (S i) rest) Er) as [Hl Hf]. split.
        -- intros [= <-]. split; [by cbn; rewrite Hl|]. intros [|n] c' r Hc Hr; [cbn in *; simplify_eq; by rewrite Nat.add_0_r|].
           rewrite <- Nat.add_succ_comm. by eapply Hf.
        -- intros [Hl' Hf']. destruct rs as [|r rs]; [done|]. f_equal. f_equal.
           ++ specialize (Hf' 0%nat c r eq_refl eq_refl). rewrite Nat.add_0_r in Hf'. congruence.
           ++ assert (E : @Ok WireError _ rest = Ok rs); [rewrite <- Er; apply IH|congruence]. split; [by injection Hl'|]. intros n c' r' Hc Hr.
              rewrite Nat.add_succ_comm. by apply (Hf' (S n)).
      * split; [done|]. intros [Hl' Hf']. destruct rs as [|r rs]; [done|]. assert (E : @Err WireError (list A) e = Ok rs); [rewrite <- Er; apply IH|done].
        split; [by injection Hl'|]. intros n c' r' Hc Hr. rewrite Nat.add_succ_comm. by apply (Hf' (S n)).
    + split; [done|]. intros [Hl' Hf']. destruct rs as [|r rs]; [done|]. specialize (Hf' 0%nat c r eq_refl eq_refl). rewrite Nat.add_0_r in Hf'. congruence.
Qed.

Lemma each_item_Err {A} (f : nat -> Value -> result WireError A) i calls e :
  each_item f i calls = Err e <-> exists n c, calls !! n = Some c /\ f (i + n)%nat c = Err e /\ forall m d, (m < n)%nat -> calls !! m = Some d -> exists a, f (i + m)%nat d = Ok a.
Proof.
  revert i. induction calls as [|c calls IH]; intros i; cbn [each_item].
  - split; [done|]. intros (n & c & H & _). done.
  - destruct (f i c) as [a|e'] eqn:Ef; cbn [rbind].
    + transitivity (each_item f (S i) calls = Err e); [by destruct (each_item f (S i) calls)|]. rewrite IH. split.
      * intros (n & d & Hd & Hf & Hb). exists (S n), d. split; [done|]. rewrite <- Nat.add_succ_comm. split; [done|].
        intros [|m] d' Hm Hd'; [cbn in Hd'; simplify_eq; rewrite Nat.add_0_r; eauto|]. rewrite <- Nat.add_succ_comm. apply Hb; [lia|done].
      * intros ([|n] & d & Hd & Hf & Hb); [cbn in Hd; simplify_eq; rewrite Nat.add_0_r in Hf; congruence|]. exists n, d. split; [done|].
        rewrite Nat.add_succ_comm. split; [done|]. intros m d' Hm Hd'. rewrite Nat.add_succ_comm. apply Hb; [lia|done].
    + split.
      * intros [= <-]. exists 0%nat, c. rewrite Nat.add_0_r. split; [done|]. split; [done|]. lia.
      * intros ([|n] & d & Hd & Hf & Hb); [cbn in Hd; simplify_eq; rewrite Nat.add_0_r in Hf; congruence|].
        destruct (Hb 0%nat c ltac:(lia) eq_refl) as [a Ha]. rewrite Nat.add_0_r in Ha. congruence.
Qed.

(** An item of a batch decodes as the same call on its own, but for the wording of two errors. *)
Lemma batch_item_Ok i c r : normalize_batch_item i c = Ok r <-> decode_rest_call c = Ok r.
Proof.
  destruct c as [| | | | |o]; try done. cbn [normalize_batch_item decode_rest_call]. unfold required_string.
  destruct (get_either (lit "tool_slug") (lit "name") o ≫= as_str); [|done]. cbn [rbind].
  destruct (normalize_arguments _); [|done]. cbn [rbind in_batch map_err]. by destruct (normalize_meta _).
Qed.

Lemma batch_item_Err i c e : normalize_batch_item i c = Err e -> (exists reason, e = BatchItemInvalid i reason) /\ exists e', decode_rest_call c = Err e'.
Proof.
  intros H. split.
  - destruct c as [| | | | |o]; try (injection H as <-; eauto). cbn [normalize_batch_item] in H. unfold required_string in H.
    destruct (get_either (lit "tool_slug") (lit "name") o ≫= as_str); [|injection H as <-; eauto]. cbn [rbind] in H.
    destruct (normalize_arguments _); [|injection H as <-; eauto]. cbn [rbind in_batch map_err] in H. destruct (normalize_meta _); [done|injection H as <-; eauto].
  - destruct (decode_rest_call c) as [r|e'] eqn:E; [|eauto]. apply (batch_item_Ok i) in E. congruence.
Qed.

Definition calls_of (payload : Value) : option (list Value) :=
  match payload with
  | Array calls => Some calls
  | Object o => match json_get (lit "calls") o with Some (Array calls) => Some calls | _ => None end
  | _ => None
  end.

(** C36: a batch is decoded exactly when each of its calls is on its own, and to the same calls;
    otherwise the error is that of the first call that is not, with its index. *)
Theorem batch_agrees (payload : Value) (calls : list Value) (Hp : calls_of payload = Some calls) :
  match normalize_call_batch payload with
  | Ok rs => length rs = length calls /\ forall n c r, calls !! n = Some c -> rs !! n = Some r -> decode_rest_call c = Ok r
  | Err e => exists n c e', calls !! n = Some c /\ decode_rest_call c = Err e' /\ (exists reason, e = BatchItemInvalid n reason) /\
      forall m d, (m < n)%nat -> calls !! m = Some d -> exists r, decode_rest_call d = Ok r
  end.
Proof.
  assert (E : normalize_call_batch payload = each_item normalize_batch_item 0 calls).
  { destruct payload as [| | | |l|o]; try done; cbn in Hp; [by injection Hp as ->|]. cbn [normalize_call_batch].
    destruct (json_get _ o) as [[| | | |l|]|]; try done. by injection Hp as ->. }
  rewrite E. destruct (each_item normalize_batch_item 0 calls) as [rs|e] eqn:Er.
  - apply each_item_Ok in Er as [Hl Hf]. split; [done|]. intros n c r Hc Hr. eapply (batch_item_Ok (0 + n)). eauto.
  - apply each_item_Err in Er as (n & c & Hc & Hf & Hb). apply batch_item_Err in Hf as [Hr [e' He]]. exists n, c, e'. split; [done|]. split; [done|].
    split; [done|]. intros m d Hm Hd. destruct (Hb m d Hm Hd) as [a Ha]. exists a. by eapply batch_item_Ok.
Qed.

(** A call that has both names is validated as one tool and called as the other. *)
Lemma batch_names_differ (a b : str) :
  let call := Object [(lit "name", Str a); (lit "tool_slug", Str b)] in
  validate_call_batch_params [call] = Ok [(a, Object [])] /\ normalize_call_batch (Array [call]) = Ok [(b, Object [], None)].
Proof. done. Qed.

(** Required fields: a call passes exactly when it has every field the schema names. *)
Lemma require_all_Ok args required : require_all args required = Ok tt <-> forall f, Str f ∈ required -> is_Some (json_get f args).
Proof.
  induction required as [|v required IH]; cbn [require_all]; [split; [intros _ f H; by apply not_elem_of_nil in H|done]|].
  assert (Hskip : (forall f, v <> Str f) -> require_all args required = Ok tt <-> forall f, Str f ∈ v :: required -> is_Some (json_get f args)).
  { intros Hv. rewrite IH. split; intros H f Hf; [|by apply H; right]. apply elem_of_cons in Hf as [Hf|Hf]; [by destruct (Hv f)|auto]. }
  destruct v as [| | |s| |]; try (by apply Hskip). destruct (json_get s args) eqn:E.
  - rewrite IH. split; intros H f Hf; [|by apply H; right]. apply elem_of_cons in Hf as [[= ->]|Hf]; [by rewrite E|auto].
  - split; [done|]. intros H. specialize (H s ltac:(by left)). rewrite E in H. by destruct H.
Qed.
End Wire.

(** ** An example *)

#[local] Instance sample_reader : JsonReader := fun s => if bool_decide (s = lit "[]") then Ok (Array []) else Err (lit "eof").

Definition sample_payload : Value :=
  Object [(lit "calls", Array [Object [(lit "tool_slug", Str (lit "a"))]; Object [(lit "name", Str (lit "b")); (lit "params", Str (lit " [] "))]])].

Lemma batch_agrees_witness :
  normalize_call_batch sample_payload = Err (BatchItemInvalid 1 (lit "arguments decoded string is array, expected object")) /\
  match normalize_call_batch sample_payload with
  | Ok rs => length rs = 2%nat /\ forall n c r, default [] (calls_of sample_payload) !! n = Some c -> rs !! n = Some r -> decode_rest_call c = Ok r
  | Err e => exists n c e', default [] (calls_of sample_payload) !! n = Some c /\ decode_rest_call c = Err e' /\ (exists reason, e = BatchItemInvalid n reason) /\
      forall m d, (m < n)%nat -> default [] (calls_of sample_payload) !! m = Some d -> exists r, decode_rest_call d = Ok r
  end.
Proof. split; [by vm_compute|]. exact (batch_agrees sample_payload _ eq_refl). Defined.
